(* ===== verification/_CoqProject ===== *)
-Q . S2P
Prelude.v
Bytes.v
Budget.v
BTree.v
Strings.v
Numeric.v
Pairs.v
Types.v
Trades.v
Delta.v
Checksum.v
Book.v
BookProps.v
Model.v
ModelProps.v
L3Props.v
Feed.v
Runtime.v
RuntimeProps.v
RuntimeSpec.v
RuntimeTrace.v
Reconcile.v
ReconcileProps.v
Rehydrate.v
RehydrateProps.v
Snapshots.v
MarketSync.v
MarketSyncProps.v
ObSync.v
EventSync.v
Disconnect.v
Reconnect.v
Transport.v
Drive.v
Worker.v
WorkerProps.v
WorkerCoverage.v
Recovery.v
Disk.v
Leaf.v
Columnar.v
ColumnarProps.v
Sinks.v
SinksProps.v
Flusher.v
FlusherProps.v
Json.v
Venue.v
Binance.v
Okx.v
Bybit.v
Kraken.v
Gateio.v
Bitget.v
Poloniex.v
Upbit.v
Htx.v
Kucoin.v
Bitso.v
Coinbase.v
Hyperliquid.v
Registry.v
Settlements.v
SyncFlush.v
Gaps.v
Sign.v
Codec.v
ObjectStore.v
ObjectStoreProps.v
Entrepot.v
EntrepotProps.v
LocalSource.v
Config.v
Launch.v
DataWorker.v
Validate.v
ValidateProps.v
