(* ===== verification/Prelude.v ===== *)
(** * Verification of the market-data engine

    This library models the core of the market-data engine of the repository in Rocq and
    proves the properties that make it correct.  The engine turns the decoded messages
    of crypto-currency venues into reconstructed order books, trades and other market
    events, samples them on a uniform time grid and archives the rows in Parquet files.

    ** The program and the part of it that is modelled

    A connection to a venue is a chain of stages.  A transport reads frames off the
    socket, a decoder and a normalizer turn them into [DomainEvent]s; the reconstruction
    runtime drives one book and one trade log per trading pair from them, seeds the books
    from REST snapshots and emits [ReconstructedEvent]s; the market worker feeds these to
    a synchronizer that makes rows of a time grid, and hands the rows to its sinks; a
    buffered sink flushes them through a flusher into the leaves of an archive.  The worker
    reconnects after a loss, records the gap, and lets a reconciler recover the trades.
    The files below follow this chain, from the data types up.

    - [Prelude] (this file): results, machine integers, list operations of the standard
      collections, the hint database [aetelier] and its tactic [lib].
    - [Bytes], [BTree], [Strings], [Numeric]: the parts of the Rust standard library the
      code relies on (bytes, [BTreeMap], [str]) and the interface of the [rust_decimal]
      crate.
    - [Budget]: [connect/framework/budget.rs], the shared counters of a source and the
      lock-free minting of connection epochs, with its interleavings.
    - [Pairs]: [types/exchanges.rs], [types/trading_pair.rs],
      [connect/framework/symbol.rs]: venues, pairs, wire symbols.
    - [Types]: [types/time.rs], [errors.rs], [trades.rs], [funding.rs],
      [open_interest.rs], [liquidations.rs].  [Trades]: their builders, and the identity,
      deduplication and aggregation of trades.
    - [Delta]: [types/orderbooks/delta.rs]: the incremental order book, with the theorems
      about it; [Checksum]: [connect/framework/checksum.rs].
    - [Book], [BookProps]: [types/orders.rs], [levels.rs], [orderbooks/core.rs] and
      [capture_levels] of [connect/synchronizers/ob_sync.rs]: the book that is emitted.
    - [Model], [ModelProps], [L3Props]: [connect/framework/model.rs]: the reconstruction
      models, the book state machine with its continuity predicates, the per-order book,
      the trade log.
    - [Feed]: [connect/framework/feed.rs]: the life cycle of a subscription.
    - [Runtime], [RuntimeProps], [RuntimeSpec], [RuntimeTrace]:
      [connect/framework/runtime.rs] and the declared set of
      [types/config/markets/market_config.rs]: the select loop with its seed tasks, and
      what it guarantees.
    - [Reconcile], [ReconcileProps], [Rehydrate], [RehydrateProps]:
      [connect/framework/reconcile.rs] (trades of a venue over REST after a position) and
      [io/rehydrate.rs] (the repair of the trade files of a directory).
    - [Snapshots], [MarketSync], [MarketSyncProps], [ObSync], [EventSync]:
      [types/snapshots/market.rs], [types/synchronizers.rs] and
      [connect/synchronizers/].
    - [Disconnect], [Reconnect]: [connect/clients/]: exit reasons, backoff and circuit
      breaker, connection states.
    - [Transport], [Drive]: [connect/framework/protocol.rs], [transport.rs],
      [driver.rs]: one connection, from the frames of the socket to the events of the
      runtime, as two interleaved tasks around a channel.
    - [Json], [Venue]: the parts of [serde_json] the venues use, and
      [connect/framework/registry.rs]: the interface of an adapter with what it promises.
    - [Binance], [Okx], [Bybit], [Kraken], [Gateio], [Bitget], [Poloniex], [Upbit], [Htx],
      [Kucoin], [Bitso], [Coinbase], [Hyperliquid]: one venue each, from
      [connect/framework/adapters/] and [connect/sources/]; [Settlements]: the hourly
      funding settlements of Hyperliquid.
    - [Registry]: the registered venues, and the theorems about all of them.
    - [Worker], [WorkerProps], [WorkerCoverage], [Recovery]:
      [connect/workers/market_worker.rs] with the records of its neighbours: connection after
      connection, rows, the coverage record, and the reconciler task.
    - [Gaps]: [connect/workers/gap_detector.rs] and [gap_ledger.rs]: silences per topic, and
      the file of the gap records.
    - [Disk], [Leaf]: the file system, [io/naming.rs] and [io/leaf_index.rs]: file names,
      the index of a leaf, staging and publication.
    - [Columnar], [ColumnarProps]: the Parquet writers and readers of [io/trades/],
      [liquidations/], [funding/], [open_interest/], [orderbooks/].
    - [Sinks], [SinksProps]: [connect/workers/topic_publisher.rs] and
      [connect/workers/output/mod.rs].
    - [Flusher], [FlusherProps]: [io/snapshots/decompose.rs] and [io/sink.rs]: the flusher
      of the archive, and its composition with the buffered sink on a disk that fails.
      [SyncFlush]: [io/flush.rs], the flush of a synchronizer without a sink.

    - [Sign], [Codec], [ObjectStore], [ObjectStoreProps]: [entrepot/]: the client of an object
      store, with its signatures, its retries, its listings and its checks, and the
      container of an archive object.
    - [Entrepot], [EntrepotProps]: [connect/framework/entrepot.rs]: the adapter that replays
      an archive from such a store, with its cursor.
    - [LocalSource]: [entrepot/source.rs], [download.rs]: a directory as a source of objects, and
      the download of an object into a file.
    - [Config], [Launch], [DataWorker]: [types/config/markets/] and [connect/config/workers/],
      the construction of the market worker, its choice of a path and the setup at the head
      of that path, and [connect/workers/data_worker.rs], the worker that publishes the
      events of a venue without sampling them.
    - [Validate], [ValidateProps]: [sdk/bin/validate.rs]: the program that checks an archive.

    ([types/], [connect/] and [io/] stand for [src/aetelier-types/src/],
    [src/aetelier-connect/src/] and [src/aetelier-io/src/], [entrepot/] for
    [src/aetelier-entrepot/src/], [sdk/] for [src/aetelier-sdk/src/].)  Definitions keep the names of
    the source; a name that several types share is prefixed by its type
    ([SourceRuntime_new], [Orderbook_best_bid], [tb_apply], [ob_drain], [es_on_trade]).

    ** How code is rendered

    - A struct is a [Record], an enum an [Inductive] with the source's variants, a trait a
      type class.  A method with [&mut self] is a function that returns the new state next
      to its result, also when the result is an error, because a frame that fails half way
      leaves its first half applied.
    - The handlers of the runtime are written in a state-and-error monad [M] over a
      [World]: the runtime, the number of fetches in flight, the spawned fetches, the
      events sent, the room left at the receiver, the number of clock reads.  The
      only error is a closed output.  An iteration of the loop is [select_arm] on an
      [Input]; [select_enabled] says which arms may be taken.  The code polls its arms in
      a fixed order; the model takes them in any order, so what is proved holds of
      every schedule.  [loop_step] is the step relation, [run_loop] the executable loop.
      The transport, the drive loop, the worker and the reconciler are step functions of the
      same kind, and their systems step relations over every interleaving.
    - The file code runs in a monad [IO] over a disk on which any call may fail, and a
      failed write leaves a prefix of its bytes behind.
    - [u64] values are [N]; additions that may leave the range are written [u64_add] and
      so on, and wrap as in a release build.  Assertions that exist in debug builds only are
      not modelled; an [assert!] that is always present is a hypothesis of the theorems.
    - A [HashMap] is a [gmap], and where the code iterates over one, the order is that of
      [map_to_list].  A [BTreeMap] is the list of its entries in key order ([BTree]), under
      an order whose equality may be coarser than identity: 1.0 and 1.00 are the same key.
    - Locks are never poisoned, memory is unbounded, and log lines are not modelled.

    ** Parameters

    What is not code of the repository is a type class or an argument: the decimals
    ([Numeric], with the laws the theorems need in [NumericLaws], [NumericText],
    [NumericExact] and [NumericDiv]), CRC32 ([Crc32]), identifiers ([Uuid]), the clocks
    ([Clocks]), the date parsers of [chrono], the errors of [tungstenite], the HTTP answers
    of a venue, gzip, the failures of the disk, the calendar, SHA-256, the JSON form
    of an index line, Parquet, and the broadcast channels and callbacks behind the
    sinks.  The JSON reader and the readers of the wire
    records ([SerdeJson], [FromJson]), the text of a float ([FloatText]), and the clock and
    jitter a venue's code reads are parameters of the venues.  What the REST client answers and when is an input of the loop.  [Numeric] ends
    with an executable instance, on which the witnesses of the theorems are evaluated, and
    with the proof that it satisfies all the laws; every other parameter is instantiated in
    the witnesses that need it.

    ** What is shown

    - Reconstruction ([ModelProps], [L3Props], [Checksum]): an apply either succeeds with
      a synchronized, uncrossed, depth-bounded book at the frame's id, or reports
      a resync; a sequenced book accepts exactly the continuous frames, and an
      accepted run skips no id; a checksummed book that reports success agrees with the
      venue; every size the price book of a per-order venue shows is the exact sum of the open
      orders there, and none is missing unless a depth prunes it; trade losses are counted
      exactly.
    - Runtime ([RuntimeSpec], [RuntimeTrace]): every book that is emitted is the result of a
      snapshot and an accepted run of frames received; no book waits without a fetch in
      flight or an armed deadline; seeds reconcile with the buffered deltas, and a gap in
      the replay keeps what can still be used; re-seeds, buffers and fetches are bounded;
      the drain at stream end terminates.
    - Connection ([Transport], [Drive]): every frame read is delivered, answered or counted
      under exactly one heading; the exit reason matches its cause; what reaches the
      runtime is the stamped normalization of a prefix of the ingested events.
    - Venues ([Registry], over what each venue's file shows of it): every print of a data
      frame is sent on or counted as dropped, through any interleaving of the connection; the
      replay of a recorded frame reproduces the live events; the preview is what is
      subscribed; a frame taken for an acknowledgement carries no data.  The gaps the
      trackers of Bitso and Coinbase report add up ([Bitso], [Coinbase]); the settlement
      poller leaves no hour out ([Settlements]).
    - Reconnection ([Reconnect]): the backoff schedule, the rate the circuit breaker
      allows, when the policy stops trying.
    - Synchronizers ([MarketSyncProps], [ObSync], [EventSync]): before the end of a stream rows
      contain exactly the events of their period and labels never repeat, the row of the end
      holds what is pending, and every event is, unaltered, delivered once, pending, or
      counted as late.
    - Worker ([WorkerProps], [WorkerCoverage], [Recovery]): the rows it emits are those
      of the synchronizer on the events of its connections; the coverage record agrees
      with an abstract account of the outages; a worker that stops has a cause, and reconnects
      without one; when a recovery reaches back over an outage
      and when it does not.
    - Trades over REST ([ReconcileProps], [RehydrateProps], [Trades]): a fetch returns the
      prints after its position, once and in order; a repaired directory holds every print
      of its range; deduplication keeps one of each identity.
    - Archive ([Leaf], [ColumnarProps], [SinksProps], [FlusherProps]): a file reads back as
      the rows written; a published file is listed and a listed file is published, whatever
      call of the disk fails; a flush keeps the archive and adds exactly the batch; a row
      that enters the buffered sink is archived, still buffered, or counted as shed; a
      synchronizer flushed without a sink loses no row ([SyncFlush]).
    - Gap records ([Gaps]): the silences a detector reports and their statistics; what the
      ledger keeps when an append fails.
    - Object store ([Sign], [Codec], [ObjectStoreProps]): a request ends within the attempts of
      its policy and its counters add up; an object that is returned passed its checks; a
      listing is its pages, and a page is read as it was written; equal canonical requests
      are equal requests; the lines put into an object are read back.
    - Archive replay ([EntrepotProps]): every key is accounted for and its events are sent in
      order; a run taken up again goes on exactly where the last one ended; the edge is the
      last day the archive has.
    - Configuration and start ([Config], [Launch]): the period of a configuration in
      microseconds; exactly the acceptable configurations become workers; from a
      configuration to the path a worker takes and the setup it starts with.
    - Data worker ([DataWorker]): the calls of the sinks are one for each event
      received, on its topic, in order, and all of them are published; what is lost
      when the worker leaves the adapter on a full channel.
    - Files ([LocalSource]): a listing of a directory is what can be fetched from it, links
      listed with their own length; a download is all or nothing at its destination.
    - Archive checker ([ValidateProps]): a run passes exactly when the archive is sound, and
      why no archive of this engine passes.
    - Incremental book ([Delta]): the effect of every frame on every price as
      last-update-wins, the errors and what they leave behind, sortedness and depth, and
      the round trip through its own snapshots.
    - Symbols ([Pairs]): what is subscribed with parses back to the same pair.
    - Shared state ([Budget], [Feed]): epochs are unique under interleaving; terminal feeds
      absorb every call.

    Where the code and its documentation disagree, a lemma next to the theorems shows the
    behaviour ([gapped_book_resyncs], [held_back_events_rehomed],
    [order_id_accessors_swapped], [usd_quote_shadowed], [gap_ended_by_trade_loses],
    [set_flush_never_fails], [parse_index_glued], [lost_heartbeat_reported], [join_strands], [fallback_drops], [archive_names_rejected] and others).

    ** Bounds

    Loops over data are structural; the compare-and-swap loop is a step relation; the
    select loops run over the list of their inputs, and [drain_terminates] bounds the seed
    results the runtime takes after the stream has ended by nine per pair (eight re-seeds and
    the first fetch).  The paging loops of the fetchers and of the rehydration run at most
    [MAX_PAGES] = 5 and [MAX_FETCH_ROUNDS] = 200 times, as in the code.  A request
    runs once more than [max_retries] at most, and an edge is looked for on [EDGE_PROBE_CAP] = 45
    days.  A listing has no bound in the code, so [list_objects] takes fuel, and
    [listing_is_its_pages] says for which listings enough of it exists.  Fuel is used twice
    more: the search for a free file name has one try more than the leaf has files, so it finds one
    ([unique_path]), and the UTF-8 check has the length of its input ([utf8_valid]).
    The caps of the code keep their values: 100000 buffered deltas, 8 re-seeds, 10000
    rows of a gap, 200000 orders of a per-order book, 200000 buffered snapshots shed 8192
    at a time.

    ** What is not modelled

    Sockets, HTTP clients and task spawning are calls into third-party crates.
    The text of a
    configuration file is read by a parameter (the TOML reader).  Status messages, telemetry,
    the other command-line programs, and the writers of raw captures (delta Parquet, CSV, JSON) are
    left out, as are floating-point statistics ([MarketAggregate], [describe]), random
    generators and the legacy ingestion path of the workers, for venues without an adapter. *)
From Stdlib Require Import Sorting.Sorted.
From stdpp Require Export base tactics numbers list strings option gmap pretty.
From Stdlib Require Export Lia.

#[export] Set Default Goal Selector "!".

(** ** Results: Rust's [Result<A, E>] *)

Inductive Result (A E : Type) : Type :=
| Ok (a : A)
| Err (e : E).
Arguments Ok {A E} a.
Arguments Err {A E} e.

Definition is_ok {A E} (r : Result A E) : bool :=
  match r with Ok _ => true | Err _ => false end.

(** [r.ok()] *)
Definition result_ok {A E} (r : Result A E) : option A :=
  match r with Ok a => Some a | Err _ => None end.

(** [r.map_err(f)] *)
Definition map_err {A E F} (f : E -> F) (r : Result A E) : Result A F :=
  match r with Ok a => Ok a | Err e => Err (f e) end.

(** [o.ok_or(e)] *)
Definition ok_or {A E} (e : E) (o : option A) : Result A E :=
  match o with Some a => Ok a | None => Err e end.

Declare Scope result_scope.
Delimit Scope result_scope with result.
(** Rust's [?] on a pure expression. *)
Notation "'let?' x := r 'in' k" :=
  (match r with Ok x => k | Err e => Err e end)
  (at level 10, x pattern, r at level 100, k at level 200) : result_scope.

(** ** Machine integers: [u64] as [N] with the wrap-around of a release build *)

Definition u64_modulus : N := 18446744073709551616.
Definition u64_max : N := 18446744073709551615.
Definition is_u64 (a : N) : Prop := (a < u64_modulus)%N.

(** [a + b], [a - b], [a * b] with overflow checks off. *)
Definition u64_add (a b : N) : N := ((a + b) mod u64_modulus)%N.
Definition u64_sub (a b : N) : N := ((a + u64_modulus - b) mod u64_modulus)%N.
Definition u64_mul (a b : N) : N := ((a * b) mod u64_modulus)%N.
(** [a.saturating_add(b)], [a.saturating_sub(b)] *)
Definition u64_saturating_add (a b : N) : N := N.min (a + b) u64_max.
Definition u64_saturating_sub (a b : N) : N := (a - b)%N.

Declare Scope u64_scope.
Delimit Scope u64_scope with u64.
Infix "+w" := u64_add (at level 50, left associativity) : u64_scope.
Infix "-w" := u64_sub (at level 50, left associativity) : u64_scope.
Infix "*w" := u64_mul (at level 40, left associativity) : u64_scope.

Lemma u64_add_small a b : (a + b < u64_modulus)%N -> u64_add a b = (a + b)%N.
Proof. intros H. unfold u64_add. by apply N.mod_small. Qed.

Lemma u64_sub_small a b :
  (b <= a)%N -> (a < u64_modulus)%N -> u64_sub a b = (a - b)%N.
Proof.
  intros Hle Ha. unfold u64_sub.
  replace (a + u64_modulus - b)%N with ((a - b) + 1 * u64_modulus)%N by lia.
  rewrite N.Div0.mod_add. apply N.mod_small. lia.
Qed.

Lemma u64_mul_small a b : (a * b < u64_modulus)%N -> u64_mul a b = (a * b)%N.
Proof. intros H. unfold u64_mul. by apply N.mod_small. Qed.

Lemma u64_add_is_u64 a b : is_u64 (u64_add a b).
Proof. apply N.mod_lt. done. Qed.

Lemma u64_add_assoc_acc a b c :
  u64_add (u64_add a b) c = u64_add a (b + c)%N.
Proof.
  unfold u64_add. rewrite N.Div0.add_mod_idemp_l. f_equal. lia.
Qed.

Lemma u64_add_wrapped a b n : a = (n mod u64_modulus)%N -> u64_add a b = ((n + b) mod u64_modulus)%N.
Proof. intros ->. unfold u64_add. by rewrite N.Div0.add_mod_idemp_l. Qed.

(** ** Tactics shared by the development *)

(** Expose the boolean tests of a goal as propositions. *)
Ltac reflect_bools :=
  repeat match goal with
  | H : (_ <? _)%N = true |- _ => apply N.ltb_lt in H
  | H : (_ <? _)%N = false |- _ => apply N.ltb_ge in H
  | H : (_ <=? _)%N = true |- _ => apply N.leb_le in H
  | H : (_ <=? _)%N = false |- _ => apply N.leb_gt in H
  | H : (_ =? _)%N = true |- _ => apply N.eqb_eq in H
  | H : (_ =? _)%N = false |- _ => apply N.eqb_neq in H
  | H : (_ =? _) = true |- _ => apply Nat.eqb_eq in H
  | H : (_ =? _) = false |- _ => apply Nat.eqb_neq in H
  | H : (_ <? _) = true |- _ => apply Nat.ltb_lt in H
  | H : (_ <? _) = false |- _ => apply Nat.ltb_ge in H
  | H : (_ <=? _) = true |- _ => apply Nat.leb_le in H
  | H : (_ <=? _) = false |- _ => apply Nat.leb_gt in H
  | H : (_ && _)%bool = true |- _ => apply andb_true_iff in H as [? ?]
  | H : (_ || _)%bool = false |- _ => apply orb_false_iff in H as [? ?]
  | H : negb _ = true |- _ => apply negb_true_iff in H
  | H : negb _ = false |- _ => apply negb_false_iff in H
  end.

(** Split every [match]/[if] of the goal and of the hypotheses, closing the
    contradictory branches. *)
Ltac crush_match := repeat (case_match; simplify_eq/=); try done.

Create HintDb aetelier discriminated.
#[export] Hint Resolve u64_add_is_u64 : aetelier.

(** The hints of the components, with their class arguments. *)
Ltac lib := auto with aetelier typeclass_instances.

(** ** Lists *)

(** [while v.len() > max { v.pop_front() }] on the list of a queue. *)
Fixpoint pop_front_to {A} (max : nat) (l : list A) : list A :=
  if length l <=? max then l
  else match l with
       | [] => []
       | _ :: l' => pop_front_to max l'
       end.

(** [while v.len() > max { v.pop_back() }]; one unit of fuel per pop. *)
Fixpoint pop_back_to {A} (fuel max : nat) (l : list A) : list A :=
  if length l <=? max then l
  else match fuel with
       | O => l
       | S fuel' => pop_back_to fuel' max (removelast l)
       end.

Lemma pop_front_to_drop {A} max (l : list A) :
  pop_front_to max l = drop (length l - max) l.
Proof.
  induction l as [|x l IH]; [done|]; cbn [pop_front_to length].
  case_match eqn:E; reflect_bools.
  - by replace (S (length l) - max) with 0 by lia.
  - rewrite IH. by replace (S (length l) - max) with (S (length l - max)) by lia.
Qed.

Lemma length_removelast {A} (l : list A) : length (removelast l) = length l - 1.
Proof.
  induction l as [|x [|y l] IH]; [done|done|].
  change (removelast (x :: y :: l)) with (x :: removelast (y :: l)).
  cbn [length]. rewrite IH. cbn [length]. lia.
Qed.

Lemma take_removelast {A} n (l : list A) :
  n < length l -> take n (removelast l) = take n l.
Proof.
  revert n. induction l as [|x [|y l] IH]; intros n Hn; [done| |].
  - simpl in *. by replace n with 0 by lia.
  - change (removelast (x :: y :: l)) with (x :: removelast (y :: l)).
    destruct n as [|n]; [done|]. cbn [take]. f_equal.
    apply IH. cbn [length] in *. lia.
Qed.

Lemma pop_back_to_take {A} fuel max (l : list A) :
  length l <= max + fuel -> pop_back_to fuel max l = take max l.
Proof.
  revert l. induction fuel as [|fuel IH]; intros l Hl; cbn [pop_back_to];
    case_match eqn:E; reflect_bools.
  - by rewrite take_ge.
  - lia.
  - by rewrite take_ge.
  - rewrite IH by (rewrite length_removelast; lia). apply take_removelast. lia.
Qed.

Lemma length_pop_front_to {A} max (l : list A) :
  length (pop_front_to max l) = Nat.min (length l) max.
Proof. rewrite pop_front_to_drop, length_drop. lia. Qed.

(** ** Stable sorting: [v.sort()], [v.sort_by(..)] *)

Section Sorting.
Context {A : Type} (leb : A -> A -> bool).

Fixpoint insert_by (x : A) (l : list A) : list A :=
  match l with
  | [] => [x]
  | y :: l' => if leb x y then x :: l else y :: insert_by x l'
  end.

(** Elements are inserted from the last to the first, each before its equals. *)
Definition sort_by (l : list A) : list A := foldr insert_by [] l.

Lemma insert_by_perm x l : insert_by x l ≡ₚ x :: l.
Proof.
  induction l as [|y l IH]; simpl; [done|]. case_match; [done|]. rewrite IH. constructor.
Qed.

Lemma sort_by_perm l : sort_by l ≡ₚ l.
Proof. induction l as [|x l IH]; simpl; [done|]. by rewrite insert_by_perm, IH. Qed.

Hypothesis leb_total : forall x y, leb x y = false -> leb y x = true.
Hypothesis leb_trans : forall x y z, leb x y = true -> leb y z = true -> leb x z = true.

Lemma insert_by_sorted x l :
  StronglySorted (fun x y => leb x y = true) l ->
  StronglySorted (fun x y => leb x y = true) (insert_by x l).
Proof.
  induction 1 as [|y l Hs IH Hy]; simpl; [by repeat constructor|]. case_match eqn:E.
  - constructor; [by constructor|]. constructor; [done|].
    eapply Forall_impl; [exact Hy|]. eauto.
  - constructor; [done|]. rewrite insert_by_perm. constructor; [by apply leb_total|done].
Qed.

Lemma sort_by_sorted l : StronglySorted (fun x y => leb x y = true) (sort_by l).
Proof. induction l as [|x l IH]; simpl; [constructor|by apply insert_by_sorted]. Qed.

(** A sorted list is left alone. *)
Lemma sort_by_id l :
  StronglySorted (fun x y => leb x y = true) l -> sort_by l = l.
Proof.
  induction 1 as [|x l Hs IH Hx]; simpl; [done|]. rewrite IH.
  destruct l as [|y l]; simpl; [done|]. apply Forall_cons in Hx as [-> _]. done.
Qed.
End Sorting.

Lemma last_cons_default {A} (d x : A) l : List.last (x :: l) d = List.last l x.
Proof.
  revert d x. induction l as [|y l IH]; intros d x; [done|].
  transitivity (List.last (y :: l) d); [done|]. by rewrite !IH.
Qed.

Lemma fmap_option_list {A B} (f : A -> B) (o : option A) :
  f <$> option_list o = option_list (f <$> o).
Proof. by destruct o. Qed.

(** What a list of keyed values has under one key, in its order. *)
Definition of_key {K A} `{EqDecision K} (k : K) (l : list (K * A)) : list A :=
  snd <$> filter (fun x => x.1 = k) l.

Section OfKey.
Context {K A : Type} `{EqDecision K}.
Implicit Types (k : K) (l : list (K * A)).

Lemma of_key_app k l l' : of_key k (l ++ l') = of_key k l ++ of_key k l'.
Proof. unfold of_key. by rewrite filter_app, fmap_app. Qed.

Lemma of_key_hit k a l : of_key k ((k, a) :: l) = a :: of_key k l.
Proof. unfold of_key. by rewrite filter_cons_True. Qed.

Lemma of_key_miss k k' a l : k' <> k -> of_key k ((k', a) :: l) = of_key k l.
Proof. intros H. unfold of_key. by rewrite filter_cons_False. Qed.
End OfKey.
