(* ===== verification/Bytes.v ===== *)
(** * Bytes

    The byte strings of the standard library the code relies on: the little-endian
    encoding of a [u64], with its round trip, and the bytes of a string. *)
From Stdlib Require Import Ascii String Strings.Byte.
From S2P Require Import Prelude.
Local Open Scope N_scope.

(** [u64::to_le_bytes] and [u64::from_le_bytes] *)
Fixpoint le_split (n : nat) (w : N) : list byte :=
  match n with
  | O => []
  | S n => default x00 (Byte.of_N (w mod 256)) :: le_split n (w / 256)
  end.

Fixpoint le_combine (bs : list byte) : N :=
  match bs with [] => 0 | b :: bs => Byte.to_N b + 256 * le_combine bs end.

Definition string_of_bytes (bs : list byte) : string :=
  string_of_list_ascii (ascii_of_byte <$> bs).

(** [s.as_bytes()] *)
Definition bytes_of_string (s : string) : list byte := byte_of_ascii <$> list_ascii_of_string s.

Lemma le_combine_split n w : le_combine (le_split n w) = w mod 256 ^ N.of_nat n.
Proof.
  revert w. induction n as [|n IH]; intros w; [by rewrite N.mod_1_r|].
  cbn [le_split le_combine]. rewrite IH, Nat2N.inj_succ, N.pow_succ_r', N.Div0.mod_mul_r. f_equal.
  destruct (Byte.of_N (w mod 256)) as [b|] eqn:E; simpl.
  - by apply Byte.to_of_N.
  - apply Byte.of_N_None_iff in E. pose proof (N.mod_upper_bound w 256 ltac:(done)). lia.
Qed.

Lemma length_le_split n w : length (le_split n w) = n.
Proof. revert w. induction n as [|n IH]; intros w; simpl; [done|by rewrite IH]. Qed.

