(* ===== verification/Budget.v ===== *)
(** * Source metrics

    [src/aetelier-connect/src/framework/budget.rs]: the per-source counters that
    transport, runtime and worker share, and the minting of connection epochs.
    The counters are independent relaxed atomics, modelled as one map from counter
    to value; an update is one atomic step.  The epoch is a compare-and-swap loop
    on a shared cell, modelled with its interleavings. *)

From Stdlib Require Import Sorting.Sorted.
From stdpp Require Import relations.
From S2P Require Import Prelude.
Local Open Scope N_scope.

(** ** Budgets *)

(** [Duration], in nanoseconds. *)
Definition Duration : Type := N.
Definition seconds (n : N) : Duration := n * 1000000000.
Definition millis (n : N) : Duration := n * 1000000.

Record RateWindow := { rw_max : N; rw_per : Duration }.

Record ConnectionBudget := {
  max_connections : option N;
  max_streams_per_socket : option N;
  subscribe_rate : list RateWindow;
  connect_attempt_rate : option RateWindow;
  connection_lifetime : option Duration
}.

Inductive BufferOverflow := DropOldestCount | ResyncBook | BlockSource.

Record StreamBudget := { capacity : N; on_overflow : BufferOverflow }.

(** ** Counters *)

(** The fields of [SourceMetricsInner]. *)
Inductive Counter :=
| C_conn_epoch_us | C_msgs | C_decode_err | C_dropped_frames | C_reconnects | C_gaps
| C_resyncs | C_checksum_fail | C_flush_failures | C_trade_gaps | C_trades_lost
| C_trade_gap_incidents | C_trade_gap_window_us | C_possible_dropped_trades
| C_trade_loss_confidence | C_book_gap_incidents | C_book_gap_window_us
| C_deltas_missed_exact | C_trades_recovered | C_reconcile_fetches
| C_reconcile_failures | C_reseed_exhausted | C_undeclared_dropped | C_seeds_abandoned
| C_ack_timeouts | C_replay_duplicates | C_out_of_order_frames | C_ingest_backpressure
| C_source_exhausted | C_gaps_beyond_edge | C_ver_rejected | C_integrity_fail
| C_republished.

#[export] Instance Counter_eq_dec : EqDecision Counter.
Proof. solve_decision. Defined.

Definition SourceMetrics : Type := Counter -> N.
Definition SourceMetrics_default : SourceMetrics := fun _ => 0.

(** [fetch_add(n)] and [store(v)]. *)
Definition fetch_add (c : Counter) (n : N) (m : SourceMetrics) : SourceMetrics :=
  fun c' => if decide (c' = c) then u64_add (m c) n else m c'.
Definition store (c : Counter) (v : N) (m : SourceMetrics) : SourceMetrics :=
  fun c' => if decide (c' = c) then v else m c'.

Inductive TradeLossConfidence := Estimated | Exact.

Definition bump_msgs : SourceMetrics -> SourceMetrics := fetch_add C_msgs 1.
Definition bump_decode_err : SourceMetrics -> SourceMetrics := fetch_add C_decode_err 1.
Definition add_dropped_frames (n : N) : SourceMetrics -> SourceMetrics := fetch_add C_dropped_frames n.
Definition bump_ack_timeouts : SourceMetrics -> SourceMetrics := fetch_add C_ack_timeouts 1.
Definition bump_replay_duplicates : SourceMetrics -> SourceMetrics := fetch_add C_replay_duplicates 1.
Definition bump_out_of_order_frames : SourceMetrics -> SourceMetrics := fetch_add C_out_of_order_frames 1.
Definition bump_ingest_backpressure : SourceMetrics -> SourceMetrics := fetch_add C_ingest_backpressure 1.
Definition bump_reconnects : SourceMetrics -> SourceMetrics := fetch_add C_reconnects 1.
Definition bump_gaps : SourceMetrics -> SourceMetrics := fetch_add C_gaps 1.
Definition bump_resyncs : SourceMetrics -> SourceMetrics := fetch_add C_resyncs 1.
Definition bump_checksum_fail : SourceMetrics -> SourceMetrics := fetch_add C_checksum_fail 1.
Definition bump_flush_failures : SourceMetrics -> SourceMetrics := fetch_add C_flush_failures 1.
Definition bump_gaps_beyond_edge : SourceMetrics -> SourceMetrics := fetch_add C_gaps_beyond_edge 1.
Definition bump_ver_rejected : SourceMetrics -> SourceMetrics := fetch_add C_ver_rejected 1.
Definition bump_integrity_fail : SourceMetrics -> SourceMetrics := fetch_add C_integrity_fail 1.
Definition bump_republished : SourceMetrics -> SourceMetrics := fetch_add C_republished 1.
Definition bump_trade_gaps : SourceMetrics -> SourceMetrics := fetch_add C_trade_gaps 1.
Definition add_trades_lost (missed : N) : SourceMetrics -> SourceMetrics := fetch_add C_trades_lost missed.
Definition add_deltas_missed (n : N) : SourceMetrics -> SourceMetrics := fetch_add C_deltas_missed_exact n.
Definition add_trades_recovered (n : N) : SourceMetrics -> SourceMetrics := fetch_add C_trades_recovered n.
Definition bump_reconcile_fetches : SourceMetrics -> SourceMetrics := fetch_add C_reconcile_fetches 1.
Definition bump_reconcile_failures : SourceMetrics -> SourceMetrics := fetch_add C_reconcile_failures 1.
Definition bump_undeclared_dropped : SourceMetrics -> SourceMetrics := fetch_add C_undeclared_dropped 1.
Definition bump_reseed_exhausted : SourceMetrics -> SourceMetrics := fetch_add C_reseed_exhausted 1.
Definition add_seeds_abandoned (n : N) : SourceMetrics -> SourceMetrics := fetch_add C_seeds_abandoned n.
Definition mark_source_exhausted : SourceMetrics -> SourceMetrics :=
  store C_source_exhausted 1.

Definition record_trade_suspicion (window_us estimate : N) (m : SourceMetrics)
    : SourceMetrics :=
  fetch_add C_possible_dropped_trades estimate
    (fetch_add C_trade_gap_window_us window_us (fetch_add C_trade_gap_incidents 1 m)).

Definition set_trade_loss_confidence (c : TradeLossConfidence) : SourceMetrics -> SourceMetrics :=
  store C_trade_loss_confidence (match c with Estimated => 0 | Exact => 1 end).

Definition record_book_gap_incident (window_us : N) (m : SourceMetrics) : SourceMetrics :=
  fetch_add C_book_gap_window_us window_us (fetch_add C_book_gap_incidents 1 m).

Record SourceMetricsSnapshot := {
  snap_msgs : N;
  snap_decode_err : N;
  snap_dropped_frames : N;
  snap_reconnects : N;
  snap_gaps : N;
  snap_resyncs : N;
  snap_checksum_fail : N;
  snap_flush_failures : N;
  snap_trade_gaps : N;
  snap_trades_lost : N;
  snap_trade_gap_incidents : N;
  snap_trade_gap_window_us : N;
  snap_possible_dropped_trades : N;
  snap_trade_loss_confidence : N;
  snap_book_gap_incidents : N;
  snap_book_gap_window_us : N;
  snap_deltas_missed_exact : N;
  snap_trades_recovered : N;
  snap_reconcile_fetches : N;
  snap_reconcile_failures : N;
  snap_reseed_exhausted : N;
  snap_undeclared_dropped : N;
  snap_seeds_abandoned : N;
  snap_ack_timeouts : N;
  snap_replay_duplicates : N;
  snap_out_of_order_frames : N;
  snap_ingest_backpressure : N;
  snap_source_exhausted : N;
  snap_gaps_beyond_edge : N;
  snap_ver_rejected : N;
  snap_integrity_fail : N;
  snap_republished : N
}.

Definition SourceMetrics_snapshot (m : SourceMetrics) : SourceMetricsSnapshot := {|
  snap_msgs := m C_msgs;
  snap_decode_err := m C_decode_err;
  snap_dropped_frames := m C_dropped_frames;
  snap_reconnects := m C_reconnects;
  snap_gaps := m C_gaps;
  snap_resyncs := m C_resyncs;
  snap_checksum_fail := m C_checksum_fail;
  snap_flush_failures := m C_flush_failures;
  snap_trade_gaps := m C_trade_gaps;
  snap_trades_lost := m C_trades_lost;
  snap_trade_gap_incidents := m C_trade_gap_incidents;
  snap_trade_gap_window_us := m C_trade_gap_window_us;
  snap_possible_dropped_trades := m C_possible_dropped_trades;
  snap_trade_loss_confidence := m C_trade_loss_confidence;
  snap_book_gap_incidents := m C_book_gap_incidents;
  snap_book_gap_window_us := m C_book_gap_window_us;
  snap_deltas_missed_exact := m C_deltas_missed_exact;
  snap_trades_recovered := m C_trades_recovered;
  snap_reconcile_fetches := m C_reconcile_fetches;
  snap_reconcile_failures := m C_reconcile_failures;
  snap_reseed_exhausted := m C_reseed_exhausted;
  snap_undeclared_dropped := m C_undeclared_dropped;
  snap_seeds_abandoned := m C_seeds_abandoned;
  snap_ack_timeouts := m C_ack_timeouts;
  snap_replay_duplicates := m C_replay_duplicates;
  snap_out_of_order_frames := m C_out_of_order_frames;
  snap_ingest_backpressure := m C_ingest_backpressure;
  snap_source_exhausted := m C_source_exhausted;
  snap_gaps_beyond_edge := m C_gaps_beyond_edge;
  snap_ver_rejected := m C_ver_rejected;
  snap_integrity_fail := m C_integrity_fail;
  snap_republished := m C_republished
|}.

(** ** Connection epochs *)

(** A thread inside [next_conn_epoch_us]: before its load, holding the value it
    loaded, or returned. *)
Inductive epoch_pc := EpochStart (now : N) | EpochLoaded (now prev : N) | EpochDone (next : N).

(** The shared cell, the threads, and the values installed, latest first. *)
Record epoch_state := {
  epoch_cell : N;
  epoch_threads : list epoch_pc;
  epoch_issued : list N
}.

(** [now.max(prev.saturating_add(1))] *)
Definition next_epoch (now prev : N) : N := N.max now (u64_saturating_add prev 1).

Definition set_thread (i : nat) (pc : epoch_pc) (s : epoch_state) : epoch_state := {|
  epoch_cell := epoch_cell s;
  epoch_threads := <[i := pc]> (epoch_threads s);
  epoch_issued := epoch_issued s
|}.

Inductive epoch_step : epoch_state -> epoch_state -> Prop :=
| epoch_load s i now :
  epoch_threads s !! i = Some (EpochStart now) ->
  epoch_step s (set_thread i (EpochLoaded now (epoch_cell s)) s)
| epoch_cas_ok s i now prev :
  epoch_threads s !! i = Some (EpochLoaded now prev) ->
  epoch_cell s = prev ->
  epoch_step s {| epoch_cell := next_epoch now prev;
                  epoch_threads := <[i := EpochDone (next_epoch now prev)]> (epoch_threads s);
                  epoch_issued := next_epoch now prev :: epoch_issued s |}
| epoch_cas_fail s i now prev :
  (** the weak exchange may also fail on an equal value *)
  epoch_threads s !! i = Some (EpochLoaded now prev) ->
  epoch_step s (set_thread i (EpochLoaded now (epoch_cell s)) s).

Definition epoch_init (nows : list N) : epoch_state :=
  {| epoch_cell := 0; epoch_threads := map EpochStart nows; epoch_issued := [] |}.

(** The whole call, run alone. *)
Definition next_conn_epoch_us (now : N) (m : SourceMetrics) : SourceMetrics * N :=
  let next := next_epoch now (m C_conn_epoch_us) in (store C_conn_epoch_us next m, next).

Definition conn_epoch_us (m : SourceMetrics) : N := m C_conn_epoch_us.

(** ** Properties *)

Lemma fetch_add_eq c n m : fetch_add c n m c = u64_add (m c) n.
Proof. unfold fetch_add. by rewrite decide_True. Qed.
Lemma fetch_add_ne c c' n m : c' <> c -> fetch_add c n m c' = m c'.
Proof. intros. unfold fetch_add. by rewrite decide_False. Qed.
Lemma store_eq c v m : store c v m c = v.
Proof. unfold store. by rewrite decide_True. Qed.
Lemma store_ne c c' v m : c' <> c -> store c v m c' = m c'.
Proof. intros. unfold store. by rewrite decide_False. Qed.

Lemma next_epoch_gt now prev : prev < u64_max -> prev < next_epoch now prev.
Proof. unfold next_epoch, u64_saturating_add. lia. Qed.

Lemma next_epoch_bounds now prev :
  now <= u64_max -> prev <= u64_max ->
  prev <= next_epoch now prev /\ now <= next_epoch now prev /\ next_epoch now prev <= u64_max.
Proof. unfold next_epoch, u64_saturating_add. lia. Qed.

(** The value a call has returned. *)
Definition epoch_returned (pc : epoch_pc) : option N :=
  match pc with EpochDone e => Some e | _ => None end.

Definition epoch_now_ok (pc : epoch_pc) : Prop :=
  match pc with EpochStart now | EpochLoaded now _ => now <= u64_max | EpochDone _ => True end.

(** Issued values strictly decrease down the log as long as the cell has not
    reached its maximum, and they are the returned values. *)
Record epoch_inv (s : epoch_state) : Prop := {
  epoch_cell_u64 : epoch_cell s <= u64_max;
  epoch_nows : Forall epoch_now_ok (epoch_threads s);
  epoch_bound : Forall (fun e => e <= epoch_cell s) (epoch_issued s);
  epoch_sorted : epoch_cell s < u64_max -> StronglySorted (fun a b => b < a) (epoch_issued s);
  epoch_log : omap epoch_returned (epoch_threads s) ≡ₚ epoch_issued s
}.

Lemma omap_insert_None (l : list epoch_pc) i pc pc' :
  l !! i = Some pc -> epoch_returned pc = None ->
  omap epoch_returned (<[i := pc']> l) ≡ₚ
  (match epoch_returned pc' with Some e => [e] | None => [] end) ++ omap epoch_returned l.
Proof.
  revert i. induction l as [|x l IH]; intros [|i] Hi Hn; simplify_eq/=.
  - rewrite Hn. by destruct (epoch_returned pc').
  - specialize (IH _ Hi Hn). destruct (epoch_returned x); [|done].
    rewrite IH. by apply Permutation_middle.
Qed.

Lemma epoch_inv_reload s i now pc :
  epoch_inv s -> epoch_threads s !! i = Some pc -> epoch_returned pc = None ->
  now <= u64_max -> epoch_inv (set_thread i (EpochLoaded now (epoch_cell s)) s).
Proof.
  intros [Hu Hn Hb Hs Hl] Hi Hpc Hnow. split; simpl; try done.
  - by apply Forall_insert.
  - by rewrite (omap_insert_None _ _ _ _ Hi Hpc).
Qed.

Lemma epoch_step_inv s s' : epoch_inv s -> epoch_step s s' -> epoch_inv s'.
Proof.
  intros Hinv Hstep. pose proof Hinv as [Hu Hn Hb Hs Hl].
  destruct Hstep as [s i now Hi|s i now prev Hi Heq|s i now prev Hi].
  - pose proof (Forall_lookup_1 _ _ _ _ Hn Hi). by eapply epoch_inv_reload.
  - pose proof (Forall_lookup_1 _ _ _ _ Hn Hi) as Hnow. simpl in Hnow. subst prev.
    destruct (next_epoch_bounds _ _ Hnow Hu) as (Hge & _ & Hle).
    split; simpl; [done|by apply Forall_insert| | |].
    + constructor; [lia|]. eapply Forall_impl; [exact Hb|]. simpl. lia.
    + intros Hlt. assert (epoch_cell s < u64_max) as Hc by (by eapply N.le_lt_trans).
      constructor; [by apply Hs|]. pose proof (next_epoch_gt now _ Hc).
      eapply Forall_impl; [exact Hb|]. simpl. lia.
    + rewrite (omap_insert_None _ _ _ _ Hi eq_refl). simpl. by rewrite Hl.
  - pose proof (Forall_lookup_1 _ _ _ _ Hn Hi). by eapply epoch_inv_reload.
Qed.

Lemma epoch_init_inv nows : Forall is_u64 nows -> epoch_inv (epoch_init nows).
Proof.
  intros Hnows. split; simpl; [done| |constructor|constructor|].
  - apply Forall_map. eapply Forall_impl; [exact Hnows|].
    intros n Hn. unfold is_u64 in Hn. unfold epoch_now_ok, compose. unfold u64_modulus in Hn. unfold u64_max. lia.
  - induction Hnows; simpl; done.
Qed.

Lemma epoch_reachable_inv s s' : epoch_inv s -> rtc epoch_step s s' -> epoch_inv s'.
Proof. intros Hs. induction 1; eauto using epoch_step_inv. Qed.

(** Connection epochs are never issued twice: whatever the interleaving of calls
    on the shared handle and whatever their clocks read (also when a clock steps
    back), the values installed strictly increase in the order of installation and
    no two calls return the same one, until the counter is exhausted at its
    maximum. *)
Theorem conn_epochs_unique nows s :
  Forall is_u64 nows -> rtc epoch_step (epoch_init nows) s -> epoch_cell s < u64_max ->
  StronglySorted (fun a b => b < a) (epoch_issued s) /\
  forall i j e, epoch_threads s !! i = Some (EpochDone e) ->
    epoch_threads s !! j = Some (EpochDone e) -> i = j.
Proof.
  intros Hnows Hreach Hlt.
  pose proof (epoch_reachable_inv _ _ (epoch_init_inv _ Hnows) Hreach) as [_ _ _ Hs Hl].
  specialize (Hs Hlt). split; [done|].
  assert (NoDup (omap epoch_returned (epoch_threads s))) as Hnd.
  { rewrite Hl. clear -Hs. induction Hs as [|e l Hs IH Hall]; constructor; [|done].
    intros Hin. rewrite Forall_forall in Hall. apply Hall in Hin. lia. }
  clear -Hnd. induction (epoch_threads s) as [|pc l IH]; intros i j e Hi Hj; [done|].
  assert (forall k, l !! k = Some (EpochDone e) -> e ∈ omap epoch_returned l) as Hin.
  { intros k Hk. apply list_elem_of_omap. exists (EpochDone e).
    split; [by eapply list_elem_of_lookup_2|done]. }
  destruct i as [|i], j as [|j]; simpl in Hi, Hj; simplify_eq; try done.
  - apply NoDup_cons in Hnd as [Hnd _]. by destruct (Hnd (Hin _ Hj)).
  - apply NoDup_cons in Hnd as [Hnd _]. by destruct (Hnd (Hin _ Hi)).
  - f_equal. eapply IH; [|done..]. simpl in Hnd.
    destruct (epoch_returned pc); [|done]. by apply NoDup_cons in Hnd as [_ Hnd].
Qed.

Lemma conn_epochs_unique_witness :
  exists s, rtc epoch_step (epoch_init [100; 50]) s /\ epoch_issued s = [101; 100] /\
    StronglySorted (fun a b => b < a) (epoch_issued s).
Proof.
  set (s := {| epoch_cell := 101; epoch_threads := [EpochDone 100; EpochDone 101];
               epoch_issued := [101; 100] |}).
  assert (rtc epoch_step (epoch_init [100; 50]) s) as Hrun.
  { eapply rtc_l; [by apply (epoch_load _ 0)|].
    eapply rtc_l; [by apply (epoch_load _ 1)|].
    eapply rtc_l; [by apply (epoch_cas_ok _ 0 100 0)|].
    eapply rtc_l; [by apply (epoch_cas_fail _ 1 50 0)|].
    eapply rtc_l; [by apply (epoch_cas_ok _ 1 50 100)|]. apply rtc_refl. }
  exists s. split_and!; [exact Hrun|reflexivity|].
  exact (proj1 (conn_epochs_unique [100; 50] s ltac:(repeat constructor) Hrun eq_refl)).
Defined.
