(* ===== verification/BTree.v ===== *)
(** * [std::collections::BTreeMap]

    The books keep their sides in a [BTreeMap<Decimal, _>] and the grid
    synchronizer keeps a [BTreeMap<u64, Orderbook>].  A tree is modelled by the
    list of its entries in ascending key order; keys are compared by [cmp], an
    order whose equality may be coarser than Leibniz equality (decimals 1.0 and
    1.00 are equal keys), and an insertion at an equal key keeps the old key and
    replaces the value, as the standard library documents. *)

From Stdlib Require Import Sorting.Sorted.
From S2P Require Import Prelude.

(** ** Ordered keys *)

Class Cmp (K : Type) := cmp : K -> K -> comparison.

Class CmpLaws (K : Type) `{Cmp K} : Prop := {
  cmp_refl a : cmp a a = Eq;
  cmp_antisym a b : cmp b a = CompOpp (cmp a b);
  cmp_lt_trans a b c : cmp a b = Lt -> cmp b c = Lt -> cmp a c = Lt;
  cmp_eq_l a b c : cmp a b = Eq -> cmp a c = cmp b c
}.

#[export] Instance N_cmp : Cmp N := N.compare.
#[export] Instance N_cmp_laws : CmpLaws N.
Proof.
  split; unfold cmp, N_cmp.
  - apply N.compare_refl.
  - intros. apply N.compare_antisym.
  - intros a b c. rewrite !N.compare_lt_iff. lia.
  - intros a b c ->%N.compare_eq_iff. done.
Qed.

#[export] Instance bool_cmp : Cmp bool := Bool.compare.
#[export] Instance bool_cmp_laws : CmpLaws bool.
Proof.
  split; intros;
    repeat match goal with b : bool |- _ => destruct b end; done.
Qed.

(** Rust compares tuples lexicographically. *)
#[export] Instance prod_cmp {A B} `{Cmp A, Cmp B} : Cmp (A * B) :=
  fun x y => match cmp x.1 y.1 with Eq => cmp x.2 y.2 | c => c end.

#[export] Instance prod_cmp_laws {A B} `{CmpLaws A, CmpLaws B} : CmpLaws (A * B).
Proof.
  split; change (@cmp (A * B) _) with (@prod_cmp A B _ _); unfold prod_cmp.
  - intros [a b]. simpl. by rewrite !cmp_refl.
  - intros [a b] [a' b']. simpl.
    rewrite (cmp_antisym a). destruct (cmp a a'); simpl; auto using cmp_antisym.
  - intros [a b] [a' b'] [a'' b'']. simpl.
    destruct (cmp a a') eqn:E; [| |done].
    + rewrite (cmp_eq_l _ _ _ E). intros Hb. destruct (cmp a' a''); [|done|done].
      by apply cmp_lt_trans.
    + intros _. destruct (cmp a' a'') eqn:E'; [| |done]; intros _.
      * assert (cmp a'' a = Gt) as Hg.
        { rewrite cmp_antisym in E'. destruct (cmp a'' a') eqn:E''; try done.
          rewrite (cmp_eq_l _ _ _ E''), cmp_antisym, E. done. }
        by rewrite cmp_antisym, Hg.
      * by rewrite (cmp_lt_trans _ _ _ E E').
  - intros [a b] [a' b'] [a'' b'']. simpl.
    destruct (cmp a a') eqn:E; [|done..]. intros Hb.
    rewrite (cmp_eq_l _ _ _ E). destruct (cmp a' a''); [|done..]. by apply cmp_eq_l.
Qed.

Definition key_eq {K} `{Cmp K} (a b : K) : Prop := cmp a b = Eq.

Definition btree (K V : Type) : Type := list (K * V).

Section Operations.
Context {K V : Type} `{Cmp K}.
Implicit Types m : btree K V.

Fixpoint bt_get (k : K) (m : btree K V) : option V :=
  match m with
  | [] => None
  | (k', v) :: m' =>
    match cmp k k' with Lt => None | Eq => Some v | Gt => bt_get k m' end
  end.

Fixpoint bt_insert (k : K) (v : V) (m : btree K V) : btree K V :=
  match m with
  | [] => [(k, v)]
  | (k', v') :: m' =>
    match cmp k k' with
    | Lt => (k, v) :: m
    | Eq => (k', v) :: m'
    | Gt => (k', v') :: bt_insert k v m'
    end
  end.

Fixpoint bt_remove (k : K) (m : btree K V) : btree K V :=
  match m with
  | [] => []
  | (k', v') :: m' =>
    match cmp k k' with
    | Lt => m
    | Eq => m'
    | Gt => (k', v') :: bt_remove k m'
    end
  end.

(** [first_key_value], [last_key_value] *)
Definition bt_first m : option (K * V) := head m.
Definition bt_last m : option (K * V) := last m.

(** [range(lo..)], [range(..=hi)], [range(..hi)], ascending *)
Definition bt_from (lo : K) m : btree K V :=
  List.filter (fun e => match cmp e.1 lo with Lt => false | _ => true end) m.
Definition bt_upto (hi : K) m : btree K V :=
  List.filter (fun e => match cmp e.1 hi with Gt => false | _ => true end) m.
Definition bt_below (hi : K) m : btree K V :=
  List.filter (fun e => match cmp e.1 hi with Lt => true | _ => false end) m.

(** [iter.collect::<BTreeMap<_, _>>()]: later entries replace earlier ones. *)
Definition bt_collect (l : list (K * V)) : btree K V :=
  fold_left (fun m e => bt_insert e.1 e.2 m) l [].

Definition bt_lt (a b : K * V) : Prop := cmp a.1 b.1 = Lt.
Definition bt_wf m : Prop := StronglySorted bt_lt m.
End Operations.

Section Laws.
Context {K V : Type} `{CmpLaws K}.
Implicit Types (m : btree K V) (k : K) (v : V).

#[export] Instance key_eq_equiv : Equivalence (key_eq (K:=K)).
Proof.
  unfold key_eq. split.
  - intros a. apply cmp_refl.
  - intros a b E. by rewrite cmp_antisym, E.
  - intros a b c E1 E2. by rewrite (cmp_eq_l _ _ _ E1).
Qed.

#[export] Instance cmp_proper :
  Proper (key_eq ==> key_eq ==> eq) (cmp (K:=K)).
Proof.
  intros a a' Ea b b' Eb. rewrite (cmp_eq_l _ _ b Ea).
  rewrite (cmp_antisym b a'), (cmp_antisym b' a').
  f_equal. by apply cmp_eq_l.
Qed.

#[export] Instance bt_get_proper :
  Proper (key_eq ==> eq ==> eq) (bt_get (K:=K) (V:=V)).
Proof.
  intros k k' Ek m ? <-. induction m as [|[k0 v0] m IH]; simpl; [done|].
  rewrite Ek. by rewrite IH.
Qed.

Lemma cmp_eq_r a b c : cmp (K:=K) b c = Eq -> cmp a b = cmp a c.
Proof. intros E. by rewrite (E : key_eq b c). Qed.

Lemma cmp_gt_lt a b : cmp (K:=K) a b = Gt <-> cmp b a = Lt.
Proof. rewrite (cmp_antisym a b). by destruct (cmp a b). Qed.

Lemma bt_get_insert_eq k k' v m :
  key_eq k k' -> bt_get k' (bt_insert k v m) = Some v.
Proof.
  intros Ek. rewrite <- Ek. clear k' Ek.
  induction m as [|[k0 v0] m IH]; simpl.
  - by rewrite cmp_refl.
  - destruct (cmp k k0) eqn:E; simpl; rewrite ?cmp_refl, ?E; done.
Qed.

Lemma bt_get_insert_ne k k' v m :
  ~ key_eq k k' -> bt_get k' (bt_insert k v m) = bt_get k' m.
Proof.
  unfold key_eq. intros Hne.
  assert (cmp k' k <> Eq) as Hne'.
  { rewrite cmp_antisym. by destruct (cmp k k'). }
  induction m as [|[k0 v0] m IH]; simpl.
  - by destruct (cmp k' k).
  - destruct (cmp k k0) eqn:E; simpl.
    + rewrite <- E in Hne. destruct (cmp k' k0) eqn:E'; try done.
      contradict Hne'. rewrite (cmp_antisym k), (cmp_eq_l _ _ k' E).
      rewrite cmp_antisym, E'. done.
    + destruct (cmp k' k) eqn:E'; try done.
      by rewrite (cmp_lt_trans _ _ _ E' E).
    + destruct (cmp k' k0); done.
Qed.

Lemma bt_get_insert k k' v m :
  bt_get k' (bt_insert k v m) =
  match cmp k k' with Eq => Some v | _ => bt_get k' m end.
Proof.
  destruct (cmp k k') eqn:E.
  - by apply bt_get_insert_eq.
  - apply bt_get_insert_ne. unfold key_eq. congruence.
  - apply bt_get_insert_ne. unfold key_eq. congruence.
Qed.

Lemma bt_insert_insert k v v' m : bt_insert k v (bt_insert k v' m) = bt_insert k v m.
Proof.
  induction m as [|[k0 v0] m IH]; simpl.
  - by rewrite cmp_refl.
  - destruct (cmp k k0) eqn:E; simpl; rewrite ?E, ?cmp_refl; [done..|by rewrite IH].
Qed.

(** A tree whose keys all exceed [k] has no entry at or below [k]. *)
Lemma bt_get_below k k' m :
  Forall (fun e => cmp k e.1 = Lt) m -> cmp k' k <> Gt -> bt_get k' m = None.
Proof.
  intros Hall Hk. destruct m as [|[k0 v0] m]; [done|].
  apply Forall_cons in Hall as [Hk0 _]; simpl in *.
  destruct (cmp k' k) eqn:E; [| |done].
  - by rewrite (cmp_eq_l _ _ _ E), Hk0.
  - by rewrite (cmp_lt_trans _ _ _ E Hk0).
Qed.

Lemma bt_wf_cons k v m :
  bt_wf ((k, v) :: m) <-> bt_wf m /\ Forall (fun e => cmp k e.1 = Lt) m.
Proof.
  unfold bt_wf. split.
  - intros Hs. by apply StronglySorted_inv in Hs.
  - intros [? ?]. by constructor.
Qed.

Lemma Forall_bt_insert (P : K * V -> Prop) k v m :
  (forall k', key_eq k k' -> P (k', v)) ->
  Forall P m -> Forall P (bt_insert k v m).
Proof.
  intros Hk. induction 1 as [|[k0 v0] m Hhd Hm IH]; simpl.
  - repeat constructor. by apply Hk.
  - destruct (cmp k k0) eqn:E; repeat constructor; try done.
    + by apply Hk.
    + by apply Hk.
Qed.

Lemma Forall_bt_remove (P : K * V -> Prop) k m :
  Forall P m -> Forall P (bt_remove k m).
Proof.
  induction 1 as [|[k0 v0] m Hhd Hm IH]; simpl; [constructor|].
  destruct (cmp k k0); [done|by constructor|by constructor].
Qed.

Lemma bt_insert_wf k v m : bt_wf m -> bt_wf (bt_insert k v m).
Proof.
  induction m as [|[k0 v0] m IH]; intros Hwf; simpl.
  - repeat constructor.
  - pose proof Hwf as [Hm Hk0]%bt_wf_cons.
    destruct (cmp k k0) eqn:E; apply bt_wf_cons.
    + done.
    + split; [done|]. constructor; [done|].
      eapply Forall_impl; [exact Hk0|]. intros e He. by eapply cmp_lt_trans.
    + split; [by apply IH|].
      apply Forall_bt_insert; [|done]. intros k' <-. by apply cmp_gt_lt.
Qed.

Lemma bt_remove_wf k m : bt_wf m -> bt_wf (bt_remove k m).
Proof.
  induction m as [|[k0 v0] m IH]; intros Hwf; simpl; [done|].
  pose proof Hwf as [Hm Hk0]%bt_wf_cons.
  destruct (cmp k k0); [done|done|].
  apply bt_wf_cons. split; [by apply IH|by apply Forall_bt_remove].
Qed.

Lemma bt_get_remove k k' m :
  bt_wf m ->
  bt_get k' (bt_remove k m) =
  match cmp k k' with Eq => None | _ => bt_get k' m end.
Proof.
  intros Hwf. induction m as [|[k0 v0] m IH]; simpl; [by destruct (cmp k k')|].
  apply bt_wf_cons in Hwf as [Hm Hk0]. specialize (IH Hm).
  destruct (cmp k k0) eqn:E; simpl.
  - rewrite <- (cmp_eq_r k' _ _ E), (cmp_antisym k k').
    destruct (cmp k k') eqn:E'; simpl; [|done|].
    + apply (bt_get_below k0); [done|].
      by rewrite <- (cmp_eq_l _ _ k0 E'), E.
    + apply (bt_get_below k0); [done|].
      by rewrite <- (cmp_eq_r k' _ _ E), (cmp_antisym k k'), E'.
  - destruct (cmp k k') eqn:E'; [|done|done].
    by rewrite <- (cmp_eq_l _ _ k0 E'), E.
  - rewrite IH. destruct (cmp k k') eqn:E'; [|done|done].
    by rewrite <- (cmp_eq_l _ _ k0 E'), E.
Qed.

(** Lookups read the entry of an equal key. *)
Lemma bt_get_elem k v m :
  bt_wf m -> bt_get k m = Some v <-> exists k', key_eq k k' /\ (k', v) ∈ m.
Proof.
  unfold key_eq. intros Hwf. induction m as [|[k0 v0] m IH]; simpl.
  { split; [done|]. intros (? & _ & Hin). by apply not_elem_of_nil in Hin. }
  apply bt_wf_cons in Hwf as [Hm Hk0]. specialize (IH Hm).
  setoid_rewrite elem_of_cons. rewrite Forall_forall in Hk0.
  destruct (cmp k k0) eqn:E.
  - split; [intros [= <-]; exists k0; by auto|].
    intros (k' & E' & [?|Hin]); [by simplify_eq|].
    specialize (Hk0 _ Hin); simpl in Hk0.
    rewrite <- (cmp_eq_l _ _ k' E) in Hk0. congruence.
  - split; [done|]. intros (k' & E' & [?|Hin]); [simplify_eq; congruence|].
    specialize (Hk0 _ Hin); simpl in Hk0.
    pose proof (cmp_lt_trans _ _ _ E Hk0). congruence.
  - rewrite IH. split; [intros (k' & ? & ?); exists k'; by auto|].
    intros (k' & E' & [?|Hin]); [simplify_eq; congruence|eauto].
Qed.

Lemma bt_get_lookup k v m : bt_wf m -> (k, v) ∈ m -> bt_get k m = Some v.
Proof. intros Hwf Hin. apply bt_get_elem; [done|]. by exists k. Qed.

(** ** The ends of the tree *)

Lemma bt_first_min k v m k' v' :
  bt_wf m -> bt_first m = Some (k, v) -> (k', v') ∈ m -> cmp k k' <> Gt.
Proof.
  destruct m as [|[k0 v0] m]; [done|]. intros [_ Hk0]%bt_wf_cons ?.
  simplify_eq/=. intros [?|Hin]%elem_of_cons.
  - simplify_eq. by rewrite cmp_refl.
  - rewrite Forall_forall in Hk0. specialize (Hk0 _ Hin). simpl in Hk0. by rewrite Hk0.
Qed.

Lemma bt_last_max k v m k' v' :
  bt_wf m -> bt_last m = Some (k, v) -> (k', v') ∈ m -> cmp k' k <> Gt.
Proof.
  unfold bt_last. revert k' v'.
  induction m as [|[k0 v0] m IH]; intros k' v' Hwf Hlast Hin; [done|].
  apply bt_wf_cons in Hwf as [Hm Hk0].
  destruct m as [|e m].
  - simplify_eq/=. apply list_elem_of_singleton in Hin. simplify_eq.
    by rewrite cmp_refl.
  - change (last (e :: m) = Some (k, v)) in Hlast.
    apply elem_of_cons in Hin as [?|Hin]; [|by eapply IH].
    simplify_eq. rewrite Forall_forall in Hk0.
    apply last_Some_elem_of in Hlast. specialize (Hk0 _ Hlast). simpl in Hk0. by rewrite Hk0.
Qed.

Lemma bt_first_elem e m : bt_first m = Some e -> e ∈ m.
Proof. destruct m; [done|]. intros [= ->]. by left. Qed.

Lemma bt_last_elem e m : bt_last m = Some e -> e ∈ m.
Proof. apply last_Some_elem_of. Qed.

Lemma bt_first_None m : bt_first m = None <-> m = [].
Proof. by destruct m. Qed.

Lemma bt_last_None m : bt_last m = None <-> m = [].
Proof. apply last_None. Qed.

(** ** Contiguous parts and filters of a tree are trees *)

Lemma bt_wf_drop n m : bt_wf m -> bt_wf (drop n m).
Proof.
  revert n. induction m as [|[k v] m IH]; intros [|n] Hwf; try done.
  apply IH. by apply bt_wf_cons in Hwf as [? _].
Qed.

Lemma bt_wf_take n m : bt_wf m -> bt_wf (take n m).
Proof.
  revert n. induction m as [|[k v] m IH]; intros [|n] Hwf; try constructor.
  - apply IH. by apply bt_wf_cons in Hwf as [? _].
  - apply bt_wf_cons in Hwf as [_ ?]. by apply Forall_take.
Qed.

Lemma bt_wf_filter f m : bt_wf m -> bt_wf (List.filter f m).
Proof.
  induction m as [|[k v] m IH]; intros Hwf; simpl; [done|].
  apply bt_wf_cons in Hwf as [Hm Hk]. destruct (f (k, v)); [|by apply IH].
  apply bt_wf_cons. split; [by apply IH|].
  rewrite Forall_forall in *. intros e He. apply Hk.
  rewrite list_elem_of_In in *. by apply filter_In in He as [? _].
Qed.

Lemma bt_wf_nil : bt_wf ([] : btree K V).
Proof. constructor. Qed.

Lemma bt_wf_collect l : bt_wf (bt_collect (K:=K) (V:=V) l).
Proof.
  unfold bt_collect. assert (bt_wf ([] : btree K V)) as Hwf by constructor.
  revert Hwf. generalize ([] : btree K V).
  induction l as [|[k v] l IH]; intros m Hm; simpl; [done|].
  apply IH. by apply bt_insert_wf.
Qed.

(** An entry of the lower part is below every entry of the upper part. *)
Lemma bt_wf_split n m e e' :
  bt_wf m -> e ∈ take n m -> e' ∈ drop n m -> cmp e.1 e'.1 = Lt.
Proof.
  revert n. induction m as [|[k v] m IH]; intros [|n] Hwf He He'.
  - by apply not_elem_of_nil in He.
  - by apply not_elem_of_nil in He.
  - by apply not_elem_of_nil in He.
  - apply bt_wf_cons in Hwf as [Hm Hk]. simpl in *.
    apply elem_of_cons in He as [->|He]; [|by eapply IH].
    rewrite Forall_forall in Hk. apply Hk.
    rewrite <- (take_drop n m). apply elem_of_app. by right.
Qed.

(** ** Collecting a tree gives it back *)

Definition bt_map {W} (f : V -> W) m : btree K W := map (fun e => (e.1, f e.2)) m.

Lemma bt_insert_below k v m :
  Forall (fun e => cmp k e.1 = Lt) m -> bt_insert k v m = (k, v) :: m.
Proof. destruct m as [|[k' v'] m]; [done|]. simpl. by intros [Hk _]%Forall_cons; simpl in Hk; rewrite Hk. Qed.

Lemma bt_insert_above k v m :
  Forall (fun e => cmp e.1 k = Lt) m -> bt_insert k v m = m ++ [(k, v)].
Proof.
  induction 1 as [|[k' v'] m Hk Hm IH]; simpl; [done|].
  apply cmp_gt_lt in Hk. simpl in Hk. by rewrite Hk, IH.
Qed.

Lemma bt_collect_app l l' :
  bt_collect (l ++ l') = fold_left (fun m e => bt_insert e.1 e.2 m) l' (bt_collect (K:=K) (V:=V) l).
Proof. apply fold_left_app. Qed.

Lemma bt_collect_rev m : bt_wf m -> bt_collect (rev m) = m.
Proof.
  induction m as [|[k v] m IH]; intros Hwf; [done|].
  apply bt_wf_cons in Hwf as [Hm Hk]. simpl. rewrite bt_collect_app, IH by done. simpl.
  by apply bt_insert_below.
Qed.

Lemma bt_wf_app_inv m m' :
  bt_wf (m ++ m') -> bt_wf m /\ bt_wf m' /\
  forall e e', e ∈ m -> e' ∈ m' -> cmp e.1 e'.1 = Lt.
Proof.
  induction m as [|[k v] m IH]; simpl; intros Hwf.
  { split_and!; [constructor|done|]. intros e e' He. by apply not_elem_of_nil in He. }
  apply bt_wf_cons in Hwf as [Hm Hk]. destruct (IH Hm) as (Hm1 & Hm2 & Hlt).
  apply Forall_app in Hk as [Hk1 Hk2]. split_and!; [by apply bt_wf_cons|done|].
  intros e e' [->|He]%elem_of_cons He'; [|by apply Hlt].
  rewrite Forall_forall in Hk2. by apply Hk2.
Qed.

Lemma bt_collect_sorted m : bt_wf m -> bt_collect m = m.
Proof.
  induction m as [|[k v] m IH] using rev_ind; intros Hwf; [done|].
  apply bt_wf_app_inv in Hwf as (Hm & _ & Hlt).
  rewrite bt_collect_app, IH by done. simpl. apply bt_insert_above, Forall_forall.
  intros e He. apply (Hlt e (k, v) He). by left.
Qed.

(** ** Sizes *)

Lemma length_bt_insert k v m :
  length (bt_insert k v m) =
  match bt_get k m with
  | Some _ => length m
  | None => S (length m)
  end.
Proof.
  induction m as [|[k0 v0] m IH]; simpl; [done|].
  destruct (cmp k k0); simpl; [done|done|]. rewrite IH. by case_match.
Qed.

Lemma length_bt_remove k m :
  length (bt_remove k m) =
  match bt_get k m with
  | Some _ => pred (length m)
  | None => length m
  end.
Proof.
  induction m as [|[k0 v0] m IH]; simpl; [done|].
  destruct (cmp k k0); simpl; [done|done|]. rewrite IH.
  destruct (bt_get k m) eqn:E; [|done]. by destruct m.
Qed.
End Laws.

Lemma bt_map_insert {K V W} `{Cmp K} (f : V -> W) (k : K) (v : V) (m : btree K V) :
  bt_map f (bt_insert k v m) = bt_insert k (f v) (bt_map f m).
Proof.
  induction m as [|[k' v'] m IH]; simpl; [done|].
  destruct (cmp k k'); simpl; [done|done|]. by rewrite <- IH.
Qed.

Lemma bt_map_collect {K V W} `{Cmp K} (f : V -> W) (l : list (K * V)) :
  bt_map f (bt_collect l) = bt_collect (bt_map f l).
Proof.
  unfold bt_collect. change ([] : btree K W) with (bt_map f ([] : btree K V)) at 2.
  generalize ([] : btree K V) as m.
  induction l as [|[k v] l IH]; intros m; simpl; [done|]. by rewrite IH, bt_map_insert.
Qed.

#[export] Hint Resolve bt_wf_nil bt_insert_wf bt_remove_wf bt_wf_drop bt_wf_take
  bt_wf_filter bt_wf_collect : aetelier.
