(* ===== verification/Strings.v ===== *)
(** * Strings

    The [str] methods the program uses, on Rocq's byte strings.  Case mapping
    and trimming follow the ASCII part of the Unicode tables: symbols, venue
    names and decimal literals are ASCII on every venue's wire.  Bytes outside
    ASCII are left as they are. *)

From Stdlib Require Import Ascii String.
From Stdlib Require OrderedTypeEx.
From S2P Require Import Prelude BTree.
Local Open Scope nat_scope.
Local Open Scope string_scope.

Definition code (c : ascii) : N := N_of_ascii c.
Definition in_range (lo hi : N) (c : ascii) : bool := ((lo <=? code c) && (code c <=? hi))%N.

Definition ascii_upper (c : ascii) : ascii :=
  if in_range 97 122 c then ascii_of_N (code c - 32) else c.
Definition ascii_lower (c : ascii) : ascii :=
  if in_range 65 90 c then ascii_of_N (code c + 32) else c.
Definition is_whitespace (c : ascii) : bool :=
  in_range 9 13 c || (code c =? 32)%N.
Definition is_ascii_alphanumeric (c : ascii) : bool :=
  in_range 48 57 c || in_range 65 90 c || in_range 97 122 c.

Fixpoint str_map (f : ascii -> ascii) (s : string) : string :=
  match s with "" => "" | String c s' => String (f c) (str_map f s') end.
Fixpoint str_all (f : ascii -> bool) (s : string) : bool :=
  match s with "" => true | String c s' => f c && str_all f s' end.

Definition to_uppercase (s : string) : string := str_map ascii_upper s.
Definition to_lowercase (s : string) : string := str_map ascii_lower s.

(** [s.contains([c, ...])] *)
Definition contains_any (cs : list ascii) (s : string) : bool :=
  negb (str_all (fun c => negb (existsb (Ascii.eqb c) cs)) s).

Definition is_empty (s : string) : bool := match s with "" => true | _ => false end.

Fixpoint trim_start (s : string) : string :=
  match s with
  | "" => ""
  | String c s' => if is_whitespace c then trim_start s' else s
  end.

Fixpoint trim_end (s : string) : string :=
  match s with
  | "" => ""
  | String c s' =>
    match trim_end s' with
    | "" => if is_whitespace c then "" else String c ""
    | t => String c t
    end
  end.

Definition trim (s : string) : string := trim_end (trim_start s).

(** [s.parse::<u64>()]: digits with an optional plus sign, within the width. *)
Fixpoint parse_digits (acc : N) (s : string) : option N :=
  match s with
  | "" => Some acc
  | String c s' =>
    if in_range 48 57 c then parse_digits (acc * 10 + (code c - 48))%N s' else None
  end.

Definition parse_u64 (s : string) : option N :=
  let digits := match s with String c s' => if (c =? "+")%char then s' else s | "" => s end in
  if is_empty digits then None
  else n ← parse_digits 0 digits; if (n <? u64_modulus)%N then Some n else None.

(** [s.split_once(sep)]: at the first occurrence. *)
Fixpoint split_once (sep : ascii) (s : string) : option (string * string) :=
  match s with
  | "" => None
  | String c s' =>
    if Ascii.eqb c sep then Some ("", s')
    else match split_once sep s' with
         | Some (a, b) => Some (String c a, b)
         | None => None
         end
  end.

(** [s.strip_suffix(suffix)] *)
Fixpoint strip_suffix (suffix s : string) : option string :=
  if String.eqb s suffix then Some ""
  else match s with
       | "" => None
       | String c s' =>
         match strip_suffix suffix s' with
         | Some t => Some (String c t)
         | None => None
         end
       end.

(** [parts.join(sep)] *)
Fixpoint join (sep : string) (parts : list string) : string :=
  match parts with
  | [] => ""
  | [p] => p
  | p :: ps => p ++ sep ++ join sep ps
  end.

(** [s.contains(needle)] *)
Fixpoint str_contains (needle s : string) : bool :=
  String.prefix needle s || match s with "" => false | String _ s' => str_contains needle s' end.

(** [s.replace(c, "d")] *)
Definition replace_char (c d : ascii) (s : string) : string :=
  str_map (fun x => if Ascii.eqb x c then d else x) s.

(** [s.replace(['/', ':'], "-")] *)
Definition replace_separators (s : string) : string :=
  str_map (fun c => if Ascii.eqb c "/" || Ascii.eqb c ":" then "-"%char else c) s.

(** [s.replace(pat, by)] for a non-empty pattern; [skip] bytes belong to the last match. *)
Fixpoint str_replace_from (pat by_ s : string) (skip : nat) : string :=
  match s with
  | "" => ""
  | String c s' =>
    match skip with
    | S skip => str_replace_from pat by_ s' skip
    | O =>
      if String.prefix pat s then by_ ++ str_replace_from pat by_ s' (String.length pat - 1)
      else String c (str_replace_from pat by_ s' 0)
    end
  end.

Definition str_replace (pat by_ s : string) : string := str_replace_from pat by_ s 0.

(** [String] keys are compared byte by byte. *)
#[export] Instance string_cmp : Cmp string := String.compare.

(** ** Lemmas *)

#[export] Instance string_cmp_laws : CmpLaws string.
Proof.
  split; unfold cmp, string_cmp.
  - intros a. by apply OrderedTypeEx.String_as_OT.cmp_eq.
  - intros a b. apply String.compare_antisym.
  - intros a b c. rewrite !OrderedTypeEx.String_as_OT.cmp_lt.
    apply OrderedTypeEx.String_as_OT.lt_trans.
  - intros a b c ->%String.compare_eq_iff. done.
Qed.

Lemma string_app_nil_l s : "" ++ s = s.
Proof. done. Qed.

Lemma string_app_cons c s t : String c s ++ t = String c (s ++ t).
Proof. done. Qed.

Lemma string_app_assoc a b c : (a ++ b) ++ c = a ++ b ++ c.
Proof. induction a as [|x a IH]; [done|]. rewrite !string_app_cons. by rewrite IH. Qed.

Lemma string_app_nil_r s : s ++ "" = s.
Proof. induction s as [|c s IH]; [done|]. by rewrite string_app_cons, IH. Qed.

Lemma str_map_app f s t : str_map f (s ++ t) = str_map f s ++ str_map f t.
Proof.
  induction s as [|c s IH]; [done|].
  change (String c s ++ t) with (String c (s ++ t)). simpl. by rewrite IH.
Qed.

Lemma str_all_app f s t : str_all f (s ++ t) = str_all f s && str_all f t.
Proof.
  induction s as [|c s IH]; [done|].
  change (String c s ++ t) with (String c (s ++ t)). simpl.
  rewrite IH. by destruct (f c).
Qed.

Lemma str_all_impl (f g : ascii -> bool) s :
  (forall c, f c = true -> g c = true) -> str_all f s = true -> str_all g s = true.
Proof.
  intros Hfg. induction s as [|c s IH]; simpl; [done|].
  rewrite !andb_true_iff. intros [Hc Hs]. auto.
Qed.

Lemma str_map_id f s :
  (forall c, f c = c) -> str_map f s = s.
Proof. intros Hf. induction s; simpl; congruence. Qed.

Lemma str_map_id_on (g : ascii -> bool) f s :
  (forall c, g c = true -> f c = c) -> str_all g s = true -> str_map f s = s.
Proof.
  intros Hf. induction s as [|c s IH]; simpl; [done|].
  intros [Hc Hs]%andb_true_iff. by rewrite Hf, IH.
Qed.

Lemma str_map_comp f g h s :
  (forall c, f (g c) = h c) -> str_map f (str_map g s) = str_map h s.
Proof. intros Hf. induction s; simpl; congruence. Qed.

Lemma is_empty_map f s : is_empty (str_map f s) = is_empty s.
Proof. by destruct s. Qed.

(** Facts on single characters hold by enumeration. *)
Ltac by_ascii c := destruct c as [[] [] [] [] [] [] [] []]; vm_compute; congruence.

Lemma ascii_upper_upper c : ascii_upper (ascii_upper c) = ascii_upper c.
Proof. by_ascii c. Qed.
Lemma ascii_lower_lower c : ascii_lower (ascii_lower c) = ascii_lower c.
Proof. by_ascii c. Qed.
Lemma ascii_lower_upper c : ascii_lower (ascii_upper c) = ascii_lower c.
Proof. by_ascii c. Qed.
Lemma ascii_upper_lower c : ascii_upper (ascii_lower c) = ascii_upper c.
Proof. by_ascii c. Qed.
Lemma is_whitespace_upper c : is_whitespace (ascii_upper c) = is_whitespace c.
Proof. by_ascii c. Qed.
Lemma is_whitespace_lower c : is_whitespace (ascii_lower c) = is_whitespace c.
Proof. by_ascii c. Qed.

Lemma to_uppercase_idem s : to_uppercase (to_uppercase s) = to_uppercase s.
Proof. apply str_map_comp, ascii_upper_upper. Qed.
Lemma to_lowercase_idem s : to_lowercase (to_lowercase s) = to_lowercase s.
Proof. apply str_map_comp, ascii_lower_lower. Qed.
Lemma to_uppercase_lower s : to_uppercase (to_lowercase s) = to_uppercase s.
Proof. apply str_map_comp, ascii_upper_lower. Qed.
Lemma to_lowercase_upper s : to_lowercase (to_uppercase s) = to_lowercase s.
Proof. apply str_map_comp, ascii_lower_upper. Qed.

Lemma trim_start_map f s :
  (forall c, is_whitespace (f c) = is_whitespace c) ->
  trim_start (str_map f s) = str_map f (trim_start s).
Proof.
  intros Hf. induction s as [|c s IH]; simpl; [done|]. rewrite Hf. by case_match.
Qed.

Lemma trim_end_map f s :
  (forall c, is_whitespace (f c) = is_whitespace c) ->
  trim_end (str_map f s) = str_map f (trim_end s).
Proof.
  intros Hf. induction s as [|c s IH]; simpl; [done|].
  rewrite IH, Hf. destruct (trim_end s); simpl; [by case_match|done].
Qed.

Lemma trim_map f s :
  (forall c, is_whitespace (f c) = is_whitespace c) ->
  trim (str_map f s) = str_map f (trim s).
Proof. intros Hf. unfold trim. by rewrite trim_start_map, trim_end_map. Qed.

Lemma trim_end_idem s : trim_end (trim_end s) = trim_end s.
Proof.
  induction s as [|c s IH]; simpl; [done|].
  destruct (trim_end s) as [|c' t] eqn:E.
  - destruct (is_whitespace c) eqn:Ec; simpl; [done|]. by rewrite Ec.
  - simpl in *. by rewrite IH.
Qed.

Lemma trim_start_trim_end s :
  trim_start s = s -> trim_start (trim_end s) = trim_end s.
Proof.
  destruct s as [|c s]; simpl; [done|]. destruct (is_whitespace c) eqn:Ec.
  - intros E. exfalso. assert (String.length (trim_start s) <= String.length s)%nat as Hlen.
    { clear. induction s as [|c s IH]; simpl; [done|]. case_match; simpl; lia. }
    rewrite E in Hlen. simpl in Hlen. lia.
  - intros _. destruct (trim_end s); simpl; by rewrite Ec.
Qed.

Lemma trim_start_idem s : trim_start (trim_start s) = trim_start s.
Proof.
  induction s as [|c s IH]; simpl; [done|]. destruct (is_whitespace c) eqn:Ec; [done|].
  simpl. by rewrite Ec.
Qed.

Lemma trim_idem s : trim (trim s) = trim s.
Proof.
  unfold trim. rewrite trim_start_trim_end by apply trim_start_idem.
  apply trim_end_idem.
Qed.

Lemma trim_no_whitespace s :
  str_all (fun c => negb (is_whitespace c)) s = true -> trim s = s.
Proof.
  intros Hs. unfold trim.
  assert (trim_start s = s) as ->.
  { destruct s as [|c s]; simpl in *; [done|].
    apply andb_true_iff in Hs as [Hc%negb_true_iff _]. by rewrite Hc. }
  induction s as [|c s IH]; simpl in *; [done|].
  apply andb_true_iff in Hs as [Hc%negb_true_iff Hs]. rewrite IH, Hc by done.
  by destruct s.
Qed.

Definition lacks (sep : ascii) (s : string) : bool :=
  str_all (fun c => negb (Ascii.eqb c sep)) s.

Lemma lacks_app sep s t : lacks sep (s ++ t) = lacks sep s && lacks sep t.
Proof. apply str_all_app. Qed.

Lemma split_once_app sep a b :
  lacks sep a = true -> split_once sep (a ++ String sep b) = Some (a, b).
Proof.
  unfold lacks. induction a as [|c a IH]; simpl.
  - intros _. change ("" ++ ?t) with t. simpl. by rewrite Ascii.eqb_refl.
  - intros [Hc%negb_true_iff Ha]%andb_true_iff.
    change (String c a ++ ?t) with (String c (a ++ t)). simpl.
    by rewrite Hc, IH.
Qed.

Lemma split_once_Some sep s a b :
  split_once sep s = Some (a, b) -> s = a ++ String sep b /\ lacks sep a = true.
Proof.
  unfold lacks. revert a b. induction s as [|c s IH]; intros a b; simpl; [done|].
  destruct (Ascii.eqb_spec c sep) as [->|Hc].
  - intros [= <- <-]. done.
  - destruct (split_once sep s) as [[a' b']|]; [|done]. intros [= <- <-].
    destruct (IH a' b') as [-> Ha]; [done|]. split; [done|]. simpl.
    rewrite Ha. by destruct (Ascii.eqb_spec c sep).
Qed.

Lemma split_once_None sep s : split_once sep s = None <-> lacks sep s = true.
Proof.
  unfold lacks. induction s as [|c s IH]; simpl; [done|].
  destruct (Ascii.eqb c sep); simpl; [done|].
  rewrite <- IH.
  destruct (split_once sep s) as [[]|]; done.
Qed.

Lemma strip_suffix_Some suf s t : strip_suffix suf s = Some t -> s = t ++ suf.
Proof.
  revert t. induction s as [|c s IH]; intros t; cbn [strip_suffix].
  - destruct (String.eqb_spec "" suf) as [E|]; [|done]. by intros [= <-].
  - destruct (String.eqb_spec (String c s) suf) as [E|]; [by intros [= <-]|].
    destruct (strip_suffix suf s) as [t'|]; [|done]. intros [= <-].
    change (String c t' ++ suf) with (String c (t' ++ suf)). f_equal. by apply IH.
Qed.

Lemma string_length_app s t : String.length (s ++ t) = (String.length s + String.length t)%nat.
Proof.
  induction s as [|c s IH]; [done|].
  change (String c s ++ t) with (String c (s ++ t)). simpl. by rewrite IH.
Qed.

Lemma strip_suffix_app t suf : strip_suffix suf (t ++ suf) = Some t.
Proof.
  induction t as [|c t IH].
  - change ("" ++ suf) with suf. destruct suf; cbn [strip_suffix]; by rewrite String.eqb_refl.
  - change (String c t ++ suf) with (String c (t ++ suf)).
    cbn [strip_suffix]. destruct (String.eqb_spec (String c (t ++ suf)) suf) as [E|_]; [|by rewrite IH].
    apply (f_equal String.length) in E. simpl in E. rewrite string_length_app in E. lia.
Qed.

Lemma str_all_trim f s : str_all f s = true -> str_all f (trim s) = true.
Proof.
  intros Hs. unfold trim.
  assert (str_all f (trim_start s) = true) as Ht.
  { induction s as [|c s IH]; simpl in *; [done|].
    case_match; [|done]. apply IH. by apply andb_true_iff in Hs as [_ ?]. }
  clear Hs. revert Ht. generalize (trim_start s) as t. clear s.
  induction t as [|c t IH]; simpl; [done|].
  intros [Hc Ht]%andb_true_iff. specialize (IH Ht).
  destruct (trim_end t); simpl in *; [case_match; simpl; by rewrite ?Hc|].
  by rewrite Hc.
Qed.

Lemma lacks_trim sep s : lacks sep s = true -> lacks sep (trim s) = true.
Proof. apply str_all_trim. Qed.

Lemma length_str_map f s : String.length (str_map f s) = String.length s.
Proof. induction s; simpl; auto. Qed.

Lemma length_trim_end s : (String.length (trim_end s) <= String.length s)%nat.
Proof.
  induction s as [|c s IH]; simpl; [done|].
  destruct (trim_end s); simpl in *; [case_match; simpl; lia|lia].
Qed.

Lemma length_trim_start s : (String.length (trim_start s) <= String.length s)%nat.
Proof. induction s as [|c s IH]; simpl; [done|]. case_match; simpl; lia. Qed.

Lemma trim_length_eq s : String.length (trim s) = String.length s -> trim s = s.
Proof.
  unfold trim. intros E.
  pose proof (length_trim_end (trim_start s)). pose proof (length_trim_start s).
  assert (trim_start s = s) as Hs.
  { destruct s as [|c s]; simpl in *; [done|]. destruct (is_whitespace c); [|done].
    pose proof (length_trim_start s). lia. }
  rewrite Hs in *. clear Hs H H0. induction s as [|c s IH]; simpl in *; [done|].
  pose proof (length_trim_end s). destruct (trim_end s) as [|c' t] eqn:Et.
  - destruct (is_whitespace c); simpl in *; [done|]. f_equal. apply IH. lia.
  - simpl in *. f_equal. apply IH. lia.
Qed.

(** Being trimmed does not depend on case. *)
Lemma trim_case_eq t s :
  to_lowercase s = to_lowercase t -> trim t = t -> trim s = s.
Proof.
  intros E Ht. apply trim_length_eq.
  rewrite <- (length_str_map ascii_lower (trim s)), <- trim_map
    by apply is_whitespace_lower.
  unfold to_lowercase in E. rewrite E, trim_map by apply is_whitespace_lower.
  by rewrite Ht, <- E, length_str_map.
Qed.

Create Rewrite HintDb strings.
#[export] Hint Rewrite to_uppercase_idem to_lowercase_idem to_uppercase_lower
  to_lowercase_upper trim_idem : strings.

(** ** A printed number parses back *)

Lemma pretty_N_char_code d : (d < 10)%N -> code (pretty_N_char d) = (48 + d)%N.
Proof.
  intros H.
  assert (d ∈ [0; 1; 2; 3; 4; 5; 6; 7; 8; 9])%N as Hd.
  { rewrite !elem_of_cons. lia. }
  clear H. revert d Hd. apply Forall_forall. by repeat constructor.
Qed.

Lemma parse_pretty_go x s : parse_digits 0 (pretty_N_go x s) = parse_digits x s.
Proof.
  revert s. induction (N.lt_wf_0 x) as [x _ IH]. intros s.
  destruct (decide (0 < x)%N) as [Hx|Hx].
  - rewrite pretty_N_go_step by done. rewrite IH; [|by apply N.div_lt].
    assert (x mod 10 < 10)%N as Hm by (apply N.mod_lt; done).
    cbn [parse_digits]. unfold in_range. rewrite pretty_N_char_code by done.
    rewrite (proj2 (N.leb_le 48 (48 + x mod 10)) (N.le_add_r _ _)).
    rewrite (proj2 (N.leb_le (48 + x mod 10) 57)) by (clear -Hm; generalize dependent (x mod 10)%N; intros; lia). cbn [andb]. f_equal.
    rewrite (N.add_comm 48), N.add_sub, N.mul_comm. symmetry. by apply N.div_mod.
  - replace x with 0%N by lia. by rewrite pretty_N_go_0.
Qed.

Lemma parse_pretty n : parse_digits 0 (pretty n) = Some n.
Proof.
  unfold pretty, pretty_N. case_decide as E; [by rewrite E|]. by rewrite parse_pretty_go.
Qed.

Lemma parse_u64_pretty n : is_u64 n -> parse_u64 (pretty n) = Some n.
Proof.
  intros Hn. pose proof (parse_pretty n) as H. unfold parse_u64.
  destruct (pretty n) as [|c s] eqn:E.
  - injection H as <-. done.
  - destruct (c =? "+")%char eqn:Ec.
    + apply Ascii.eqb_eq in Ec as ->. discriminate H.
    + cbn [is_empty]. rewrite H. simpl. apply N.ltb_lt in Hn. by rewrite Hn.
Qed.
