(* ===== verification/Numeric.v ===== *)
(** * Decimals ([rust_decimal]) and floats

    Prices and sizes are [rust_decimal::Decimal] values.  The crate is not part
    of the repository, so its operations are a parameter of the development: the
    class [Numeric].  What the program relies on is stated in further
    classes, from the weakest to the strongest:
    - [NumericLaws]: comparison is the comparison of the numbers represented;
    - [NumericText]: parsing a printed decimal gives an equal decimal;
    - [NumericExact]: addition, subtraction and multiplication are exact, which
      holds of [Decimal] as long as results fit its 96-bit coefficient (beyond
      that the crate rounds or panics);
    - [NumericCanonical]: equal numbers have one normal form;
    - [NumericDiv]: halving is exact (same proviso) and a rounded quotient stays
      within integer bounds of the exact one.
    The module ends with an executable instance, coefficient-and-scale decimals,
    on which the witnesses of the theorems are evaluated. *)

From Stdlib Require Import QArith Qabs Ascii String.
From S2P Require Import Prelude BTree Strings.
Local Open Scope nat_scope.

Class Numeric := {
  Dec : Type;
  dcmp : Dec -> Dec -> comparison;
  dzero : Dec;
  (** [Decimal::from(i64)]; [Decimal::TWO] is [dfrom 2] *)
  dfrom : Z -> Dec;
  dadd : Dec -> Dec -> Dec;
  dsub : Dec -> Dec -> Dec;
  dmul : Dec -> Dec -> Dec;
  ddiv : Dec -> Dec -> Dec;
  dabs : Dec -> Dec;
  dmin : Dec -> Dec -> Dec;
  dmax : Dec -> Dec -> Dec;
  (** [Decimal::from_str], with the text of its error *)
  dparse : string -> Result Dec string;
  (** [Decimal::from_str_exact] *)
  dparse_exact : string -> Result Dec string;
  (** [Decimal::to_string] *)
  dshow : Dec -> string;
  (** [Decimal::round_dp] *)
  dround : N -> Dec -> Dec;
  (** [Decimal::normalize]: without trailing zeros *)
  dnormalize : Dec -> Dec;
  (** [f64] values are only carried and converted, never computed with. *)
  F64 : Type;
  f64_zero : F64;
  dfrom_f64 : F64 -> option Dec;
  dto_f64 : Dec -> option F64
}.

#[export] Instance Dec_cmp `{Numeric} : Cmp Dec := dcmp.

(** The comparison operators of [Decimal]. *)
Definition dltb `{Numeric} (a b : Dec) : bool :=
  match dcmp a b with Lt => true | _ => false end.
Definition dleb `{Numeric} (a b : Dec) : bool :=
  match dcmp a b with Gt => false | _ => true end.
Definition deqb `{Numeric} (a b : Dec) : bool :=
  match dcmp a b with Eq => true | _ => false end.

(** [src/aetelier-types/src/orderbooks/core.rs] *)
Definition decimal_to_f64 `{Numeric} (d : Dec) : F64 := default f64_zero (dto_f64 d).
Definition f64_to_decimal `{Numeric} (v : F64) : Dec := default dzero (dfrom_f64 v).

(** [iter.sum::<Decimal>()] *)
Definition dsum `{Numeric} (l : list Dec) : Dec := fold_left dadd l dzero.

Class NumericLaws (NU : Numeric) := {
  dval : Dec -> Q;
  dcmp_val a b : dcmp a b = Qcompare (dval a) (dval b);
  dval_zero : (dval dzero == 0)%Q;
  dval_abs a : (dval (dabs a) == Qabs (dval a))%Q;
  dmin_cases a b : dmin a b = a /\ (dval a <= dval b)%Q \/ dmin a b = b /\ (dval b <= dval a)%Q;
  dmax_cases a b : dmax a b = a /\ (dval b <= dval a)%Q \/ dmax a b = b /\ (dval a <= dval b)%Q
}.

(** [Decimal::normalize] gives equal numbers one representation. *)
Class NumericCanonical (NU : Numeric) (NL : NumericLaws NU) : Prop :=
  dnormalize_canonical a b : (dval a == dval b)%Q -> dnormalize a = dnormalize b.

Class NumericText (NU : Numeric) (NL : NumericLaws NU) : Prop := {
  dparse_show d : exists d', dparse (dshow d) = Ok d' /\ (dval d' == dval d)%Q
}.

Class NumericExact (NU : Numeric) (NL : NumericLaws NU) : Prop := {
  dval_from z : (dval (dfrom z) == inject_Z z)%Q;
  dval_add a b : (dval (dadd a b) == dval a + dval b)%Q;
  dval_sub a b : (dval (dsub a b) == dval a - dval b)%Q;
  dval_mul a b : (dval (dmul a b) == dval a * dval b)%Q
}.

Class NumericDiv (NU : Numeric) (NL : NumericLaws NU) : Prop := {
  dval_half a : (dval (ddiv a (dfrom 2)) == dval a / inject_Z 2)%Q;
  ddiv_bounds a b lo hi :
    (0 < dval b)%Q ->
    (inject_Z lo * dval b <= dval a)%Q -> (dval a <= inject_Z hi * dval b)%Q ->
    (inject_Z lo <= dval (ddiv a b))%Q /\ (dval (ddiv a b) <= inject_Z hi)%Q
}.

(** ** Coefficient-and-scale decimals *)

Record decimal := Decimal { d_coeff : Z; d_scale : nat }.

Fixpoint pow10 (n : nat) : positive :=
  match n with O => 1%positive | S n' => (10 * pow10 n')%positive end.

Definition decimal_val (d : decimal) : Q := (d_coeff d # pow10 (d_scale d))%Q.

Definition decimal_align (s : nat) (d : decimal) : Z :=
  (d_coeff d * Zpos (pow10 (s - d_scale d)))%Z.

Definition decimal_cmp (a b : decimal) : comparison :=
  (d_coeff a * Zpos (pow10 (d_scale b)) ?= d_coeff b * Zpos (pow10 (d_scale a)))%Z.

Definition decimal_add (a b : decimal) : decimal :=
  let s := Nat.max (d_scale a) (d_scale b) in
  Decimal (decimal_align s a + decimal_align s b) s.

Definition decimal_sub (a b : decimal) : decimal :=
  let s := Nat.max (d_scale a) (d_scale b) in
  Decimal (decimal_align s a - decimal_align s b) s.

Definition decimal_mul (a b : decimal) : decimal :=
  Decimal (d_coeff a * d_coeff b) (d_scale a + d_scale b).

(** Truncated 28 digits beyond the dividend's. *)
Definition decimal_div (a b : decimal) : decimal :=
  Decimal (Z.quot (d_coeff a * Zpos (pow10 (28 + d_scale b)))
                  (d_coeff b)) (28 + d_scale a).

Definition decimal_round (n : N) (d : decimal) : decimal :=
  let s := N.to_nat n in
  if d_scale d <=? s then d
  else Decimal (Z.quot (d_coeff d) (Zpos (pow10 (d_scale d - s)))) s.

Fixpoint decimal_strip (scale : nat) (coeff : Z) : decimal :=
  match scale with
  | O => Decimal coeff 0
  | S scale' =>
    if (Z.rem coeff 10 =? 0)%Z then decimal_strip scale' (Z.quot coeff 10)
    else Decimal coeff scale
  end.

Definition digit_char (d : N) : ascii := Ascii.ascii_of_N (48 + d).
Definition char_digit (c : ascii) : option N :=
  let n := Ascii.N_of_ascii c in
  if ((48 <=? n) && (n <=? 57))%N then Some (n - 48)%N else None.

(** The digits of a number, most significant first, at least [k] of them. *)
Fixpoint digits_of (fuel k : nat) (n : N) (acc : list N) : list N :=
  match fuel with
  | O => acc
  | S fuel' =>
    if (n =? 0)%N && (k =? 0) then acc
    else digits_of fuel' (pred k) (n / 10)%N ((n mod 10)%N :: acc)
  end.

Definition digits_value (a : N) (ds : list N) : N :=
  fold_left (fun a d => (10 * a + d)%N) ds a.

Definition digits_string (ds : list N) : string :=
  string_of_list_ascii (map digit_char ds).

Definition decimal_show (d : decimal) : string :=
  let n := Z.abs_N (d_coeff d) in
  let ds := digits_of (N.to_nat (N.log2 n) + S (S (d_scale d))) (S (d_scale d)) n [] in
  let i := length ds - d_scale d in
  ((if (d_coeff d <? 0)%Z then "-" else "") ++ digits_string (take i ds) ++
   (if (d_scale d =? 0)%nat then "" else "." ++ digits_string (drop i ds)))%string.

(** Coefficient, digits seen after the point (if a point was seen). *)
Fixpoint parse_digits (s : string) (n : N) (frac : option nat) : option (N * option nat) :=
  match s with
  | EmptyString => Some (n, frac)
  | String c s' =>
    match char_digit c with
    | Some d => parse_digits s' (10 * n + d)%N (option_map S frac)
    | None =>
      if Ascii.eqb c "."%char
      then match frac with
           | None => parse_digits s' n (Some O)
           | Some _ => None
           end
      else None
    end
  end.

Definition decimal_parse (s : string) : Result decimal string :=
  let '(neg, body) :=
    match s with
    | String c s' =>
      if Ascii.eqb c "-" then (true, s')
      else if Ascii.eqb c "+" then (false, s') else (false, s)
    | EmptyString => (false, s)
    end in
  match body with
  | EmptyString => Err "Invalid decimal: empty"%string
  | _ =>
    match parse_digits body 0 None with
    | Some (n, frac) =>
      Ok (Decimal (if neg : bool then - Z.of_N n else Z.of_N n)%Z (default O frac))
    | None => Err "Invalid decimal: unknown character"%string
    end
  end.

Definition decimal_numeric : Numeric := {|
  Dec := decimal;
  dcmp := decimal_cmp;
  dzero := Decimal 0 0;
  dfrom z := Decimal z 0;
  dadd := decimal_add;
  dsub := decimal_sub;
  dmul := decimal_mul;
  ddiv := decimal_div;
  dabs d := Decimal (Z.abs (d_coeff d)) (d_scale d);
  dmin a b := match decimal_cmp a b with Gt => b | _ => a end;
  dmax a b := match decimal_cmp a b with Lt => b | _ => a end;
  dparse := decimal_parse;
  dparse_exact := decimal_parse;
  dshow := decimal_show;
  dround := decimal_round;
  dnormalize d := decimal_strip (d_scale d) (d_coeff d);
  F64 := decimal;
  f64_zero := Decimal 0 0;
  dfrom_f64 := Some;
  dto_f64 := Some
|}.

(** ** Consequences of the laws *)

Section Laws.
Context {NU : Numeric} {NL : NumericLaws NU}.
Implicit Types a b c : Dec.
Local Open Scope Q_scope.

#[export] Instance Dec_cmp_laws : CmpLaws Dec.
Proof.
  split; unfold cmp, Dec_cmp; intros *; rewrite !dcmp_val.
  - by apply Qeq_alt.
  - symmetry. apply Qcompare_antisym.
  - rewrite <- !Qlt_alt. apply Qlt_trans.
  - rewrite <- Qeq_alt. by intros ->.
Qed.

Lemma dltb_lt a b : dltb a b = true <-> dval a < dval b.
Proof. unfold dltb. rewrite dcmp_val, Qlt_alt. by destruct (_ ?= _). Qed.

Lemma dleb_le a b : dleb a b = true <-> dval a <= dval b.
Proof.
  unfold dleb. rewrite dcmp_val, Qle_alt. by destruct (_ ?= _).
Qed.

Lemma deqb_eq a b : deqb a b = true <-> dval a == dval b.
Proof. unfold deqb. rewrite dcmp_val, Qeq_alt. by destruct (_ ?= _). Qed.

Lemma dltb_ge a b : dltb a b = false <-> dval b <= dval a.
Proof.
  rewrite <- not_true_iff_false, dltb_lt. split; [apply Qnot_lt_le|apply Qle_not_lt].
Qed.

Lemma dleb_gt a b : dleb a b = false <-> dval b < dval a.
Proof.
  rewrite <- not_true_iff_false, dleb_le. split; [apply Qnot_le_lt|apply Qlt_not_le].
Qed.

Lemma deqb_neq a b : deqb a b = false <-> ~ dval a == dval b.
Proof. by rewrite <- not_true_iff_false, deqb_eq. Qed.

Lemma key_eq_val a b : key_eq a b <-> dval a == dval b.
Proof. unfold key_eq, cmp, Dec_cmp. by rewrite dcmp_val, Qeq_alt. Qed.

Lemma dleb_refl a : dleb a a = true.
Proof. apply dleb_le. apply Qle_refl. Qed.
End Laws.

Definition qsum (l : list Q) : Q := fold_right Qplus 0%Q l.

Section Exact.
Context {NU : Numeric} {NL : NumericLaws NU} {NE : NumericExact NU NL}.
Local Open Scope Q_scope.

Lemma dval_fold_add l a :
  dval (fold_left dadd l a) == dval a + qsum (map dval l).
Proof.
  revert a. induction l as [|x l IH]; intros a; simpl.
  - by rewrite Qplus_0_r.
  - rewrite IH, dval_add. by rewrite Qplus_assoc.
Qed.

Lemma dval_sum l : dval (dsum l) == qsum (map dval l).
Proof. unfold dsum. by rewrite dval_fold_add, dval_zero, Qplus_0_l. Qed.
End Exact.

(** ** The instance satisfies the laws *)

Lemma pow10_add a b : pow10 (a + b) = (pow10 a * pow10 b)%positive.
Proof. induction a as [|a IH]; cbn [pow10 Nat.add]; [done|]. rewrite IH. lia. Qed.

Lemma decimal_cmp_val a b : decimal_cmp a b = (decimal_val a ?= decimal_val b)%Q.
Proof. done. Qed.

#[export] Instance decimal_laws : NumericLaws decimal_numeric.
Proof.
  exists decimal_val; [done|done| | |]; simpl.
  - intros [m s]. done.
  - intros a b. rewrite decimal_cmp_val.
    destruct (decimal_val a ?= decimal_val b)%Q eqn:E; [left|left|right]; split; try done.
    + apply Qeq_alt in E. rewrite E. apply Qle_refl.
    + apply Qlt_le_weak. by apply Qlt_alt.
    + apply Qlt_le_weak. by apply Qgt_alt.
  - intros a b. rewrite decimal_cmp_val.
    destruct (decimal_val a ?= decimal_val b)%Q eqn:E; [left|right|left]; split; try done.
    + apply Qeq_alt in E. rewrite E. apply Qle_refl.
    + apply Qlt_le_weak. by apply Qlt_alt.
    + apply Qlt_le_weak. by apply Qgt_alt.
Defined.

Lemma decimal_align_val s d :
  d_scale d <= s -> (decimal_align s d # pow10 s == decimal_val d)%Q.
Proof.
  intros Hs. unfold decimal_align, decimal_val, Qeq; simpl.
  replace (pow10 s) with (pow10 (s - d_scale d) * pow10 (d_scale d))%positive
    by (rewrite <- pow10_add; f_equal; lia). lia.
Qed.

#[export] Instance decimal_exact : NumericExact decimal_numeric decimal_laws.
Proof.
  split; simpl.
  - intros z. unfold decimal_val, inject_Z, Qeq; simpl. lia.
  - intros a b. unfold decimal_add. set (s := Nat.max _ _).
    rewrite <- (decimal_align_val s a), <- (decimal_align_val s b) by lia.
    unfold decimal_val, Qeq; simpl. lia.
  - intros a b. unfold decimal_sub. set (s := Nat.max _ _).
    rewrite <- (decimal_align_val s a), <- (decimal_align_val s b) by lia.
    unfold decimal_val, Qeq; simpl. lia.
  - intros a b. unfold decimal_val, decimal_mul, Qeq; simpl.
    rewrite pow10_add. lia.
Qed.

Lemma Qdiv_mult_swap a b c : (0 < b -> a * b == c -> a == c / b)%Q.
Proof. intros Hb <-. field. intros E. rewrite E in Hb. by apply Qlt_irrefl in Hb. Qed.

(** ** Normal forms *)

Lemma pow10_split a b : a <= b -> pow10 b = (pow10 (b - a) * pow10 a)%positive.
Proof. intros H. rewrite <- pow10_add. f_equal. lia. Qed.

Lemma decimal_strip_spec scale coeff :
  exists c s, decimal_strip scale coeff = Decimal c s /\ s <= scale /\
    coeff = (c * Zpos (pow10 (scale - s)))%Z /\ (s = 0 \/ Z.rem c 10 <> 0%Z).
Proof.
  revert coeff. induction scale as [|k IH]; intros coeff; cbn [decimal_strip].
  - exists coeff, 0. split_and!; [done|done|simpl; lia|by left].
  - destruct (Z.rem coeff 10 =? 0)%Z eqn:E.
    + apply Z.eqb_eq in E. destruct (IH (Z.quot coeff 10)) as (c & s & -> & Hs & Hc & Hz).
      exists c, s. split_and!; [done|lia| |done].
      replace (S k - s) with (S (k - s)) by lia. cbn [pow10].
      pose proof (Z.quot_rem' coeff 10). lia.
    + apply Z.eqb_neq in E. exists coeff, (S k). split_and!; [done|done| |by right].
      rewrite Nat.sub_diag. simpl. lia.
Qed.

Lemma stripped_unique c s c' s' :
  s <= s' -> (c * Zpos (pow10 s') = c' * Zpos (pow10 s))%Z -> s' = 0 \/ Z.rem c' 10 <> 0%Z ->
  c = c' /\ s = s'.
Proof.
  intros Hs E Hz. rewrite (pow10_split s s') in E by done.
  assert (c * Zpos (pow10 (s' - s)) = c')%Z as Ec by nia.
  destruct (s' - s) as [|k] eqn:Ek; [simpl in Ec; lia|].
  destruct Hz as [?|Hz]; [lia|]. destruct Hz. rewrite <- Ec. cbn [pow10].
  replace (c * Zpos (10 * pow10 k))%Z with ((c * Zpos (pow10 k)) * 10)%Z by lia.
  by apply Z.rem_mul.
Qed.

#[export] Instance decimal_canonical : NumericCanonical decimal_numeric decimal_laws.
Proof.
  intros [m s] [n t]. simpl. unfold decimal_val, Qeq. cbn [Qnum Qden d_coeff d_scale]. intros E.
  destruct (decimal_strip_spec s m) as (c & s1 & -> & Hs & -> & Hz).
  destruct (decimal_strip_spec t n) as (c' & t1 & -> & Ht & -> & Hz').
  assert (c * Zpos (pow10 t1) = c' * Zpos (pow10 s1))%Z as E'.
  { rewrite (pow10_split t1 t), (pow10_split s1 s) in E by done.
    apply (Z.mul_reg_r _ _ (Zpos (pow10 (t - t1)) * Zpos (pow10 (s - s1)))); lia. }
  destruct (Nat.le_ge_cases s1 t1) as [Hle|Hle].
  - by destruct (stripped_unique c s1 c' t1) as [-> ->].
  - by destruct (stripped_unique c' t1 c s1) as [-> ->].
Qed.

#[export] Instance decimal_div_laws : NumericDiv decimal_numeric decimal_laws.
Proof.
  split; simpl.
  - intros [m s]. apply Qdiv_mult_swap; [done|].
    unfold decimal_div, decimal_val, inject_Z, Qeq; cbn [Qmult Qnum Qden d_coeff d_scale].
    rewrite !pow10_add. change (pow10 0) with 1%positive.
    set (K := pow10 28).
    assert (exists h, Zpos K = h * 2)%Z as [h Hh] by (by exists 5000000000000000000000000000%Z).
    replace (m * Zpos (K * 1))%Z with (m * h * 2)%Z by lia.
    rewrite Z.quot_mul by lia. nia.
  - intros [m s] [n t] lo hi.
    unfold decimal_div, decimal_val, inject_Z, Qlt, Qle; cbn [Qmult Qnum Qden d_coeff d_scale].
    rewrite !pow10_add. set (K := pow10 28). set (S' := pow10 s). set (T := pow10 t).
    intros Hn Hlo Hhi.
    assert (0 < n)%Z as Hn' by lia.
    split.
    + assert (lo * Zpos (K * S') <= Z.quot (m * Zpos (K * T)) n)%Z; [|lia].
      rewrite <- (Z.quot_mul (lo * Zpos (K * S')) n) by lia.
      apply Z.quot_le_mono; [lia|]. nia.
    + assert (Z.quot (m * Zpos (K * T)) n <= hi * Zpos (K * S'))%Z; [|lia].
      rewrite <- (Z.quot_mul (hi * Zpos (K * S')) n) by lia.
      apply Z.quot_le_mono; [lia|]. nia.
Qed.

Lemma digits_of_value fuel k n acc :
  (n < 2 ^ N.of_nat fuel)%N -> k <= fuel ->
  digits_value 0 (digits_of fuel k n acc) = digits_value n acc.
Proof.
  revert k n acc. induction fuel as [|fuel IH]; intros k n acc Hn Hk; cbn [digits_of].
  - simpl in Hn. by replace n with 0%N by lia.
  - case_match eqn:E; reflect_bools; subst; [done|].
    assert (n / 10 < 2 ^ N.of_nat fuel)%N.
    { replace (N.of_nat (S fuel)) with (N.succ (N.of_nat fuel)) in Hn by lia.
      rewrite N.pow_succ_r' in Hn. apply N.Div0.div_lt_upper_bound; lia. }
    rewrite IH by lia. unfold digits_value. cbn [fold_left].
    f_equal. symmetry. apply N.div_mod'.
Qed.

Lemma digits_of_digits fuel k n acc :
  Forall (fun d => d < 10)%N acc -> Forall (fun d => d < 10)%N (digits_of fuel k n acc).
Proof.
  revert k n acc. induction fuel as [|fuel IH]; intros k n acc Hacc; [done|].
  cbn [digits_of]. case_match; [done|]. apply IH. constructor; [|done].
  by apply N.mod_lt.
Qed.

Lemma length_digits_of fuel k n acc :
  k <= fuel -> k + length acc <= length (digits_of fuel k n acc).
Proof.
  revert k n acc. induction fuel as [|fuel IH]; intros k n acc Hk; cbn [digits_of].
  - lia.
  - case_match eqn:E; reflect_bools; [lia|].
    etrans; [|apply IH; lia]. cbn [length]. lia.
Qed.

Lemma digit_cases d :
  (d < 10)%N -> d ∈ [0; 1; 2; 3; 4; 5; 6; 7; 8; 9]%N.
Proof. intros Hd. rewrite !elem_of_cons. lia. Qed.

Lemma char_digit_char d : (d < 10)%N -> char_digit (digit_char d) = Some d.
Proof.
  intros Hd%digit_cases.
  by repeat (apply elem_of_cons in Hd as [->|Hd]; [reflexivity|]);
    apply not_elem_of_nil in Hd.
Qed.

Lemma parse_digits_string ds rest n frac :
  Forall (fun d => d < 10)%N ds ->
  parse_digits (digits_string ds ++ rest) n frac =
  parse_digits rest (digits_value n ds) (option_map (Nat.add (length ds)) frac).
Proof.
  intros Hds. revert n frac. induction Hds as [|d ds Hd Hds IH]; intros n frac.
  - by destruct frac.
  - simpl. rewrite char_digit_char by done. rewrite IH.
    cbn [digits_value fold_left]. f_equal. destruct frac as [f|]; simpl; [|done].
    f_equal. lia.
Qed.

Lemma digits_value_app a ds ds' :
  digits_value a (ds ++ ds') = digits_value (digits_value a ds) ds'.
Proof. apply fold_left_app. Qed.

(** A printed decimal body: digits with an optional fraction. *)
Definition decimal_body (s : nat) (ds : list N) : string :=
  (digits_string (take (length ds - s) ds) ++
   (if (s =? 0)%nat then "" else "." ++ digits_string (drop (length ds - s) ds)))%string.

Lemma parse_decimal_body s ds :
  Forall (fun d => d < 10)%N ds -> s < length ds ->
  exists frac, parse_digits (decimal_body s ds) 0 None = Some (digits_value 0 ds, frac)
    /\ default O frac = s.
Proof.
  intros Hds Hs. unfold decimal_body.
  rewrite parse_digits_string by by apply Forall_take. simpl.
  case_match eqn:E; reflect_bools.
  - subst. exists None. split; [|done]. simpl. by rewrite Nat.sub_0_r, firstn_all.
  - exists (Some s). split; [|done]. simpl.
    rewrite <- (string_app_nil_r (digits_string _)).
    change ("" ++ ?b)%string with b. rewrite parse_digits_string by by apply Forall_drop. simpl.
    rewrite <- digits_value_app, take_drop, length_drop. do 3 f_equal. lia.
Qed.

(** The first character of a printed body is a digit, so no sign is read. *)
Lemma decimal_parse_body (s : string) c n frac :
  (c < 10)%N -> parse_digits (String (digit_char c) s) 0 None = Some (n, frac) ->
  decimal_parse (String (digit_char c) s) = Ok (Decimal (Z.of_N n) (default O frac)).
Proof.
  intros Hc Hp. unfold decimal_parse.
  assert (Ascii.eqb (digit_char c) "-" = false /\
          Ascii.eqb (digit_char c) "+" = false) as [-> ->]; [|by rewrite Hp].
  apply digit_cases in Hc.
  by repeat (apply elem_of_cons in Hc as [->|Hc]; [done|]);
    apply not_elem_of_nil in Hc.
Qed.

Lemma decimal_show_body d :
  exists ds, decimal_show d = ((if (d_coeff d <? 0)%Z then "-" else "") ++
                               decimal_body (d_scale d) ds)%string
    /\ Forall (fun x => x < 10)%N ds /\ d_scale d < length ds
    /\ digits_value 0 ds = Z.abs_N (d_coeff d).
Proof.
  unfold decimal_show. set (n := Z.abs_N _). eexists. split; [reflexivity|].
  split_and!.
  - by apply digits_of_digits.
  - eapply Nat.lt_le_trans; [|apply length_digits_of]; simpl; lia.
  - rewrite digits_of_value; [done| |lia].
    destruct (decide (n = 0%N)) as [->|Hn]; [apply N.neq_0_lt_0, N.pow_nonzero; lia|].
    eapply N.lt_le_trans; [apply N.log2_spec; lia|].
    apply N.pow_le_mono_r; lia.
Qed.

Lemma decimal_parse_show d : decimal_parse (decimal_show d) = Ok d.
Proof.
  destruct (decimal_show_body d) as (ds & -> & Hds & Hlen & Hval).
  destruct (parse_decimal_body (d_scale d) ds) as (frac & Hp & Hfrac); [done..|].
  destruct d as [m s]; simpl in *. subst s.
  destruct (Z.ltb_spec m 0) as [Hm|Hm].
  - change ("-" ++ ?b)%string with (String "-" b). unfold decimal_parse.
    rewrite Ascii.eqb_refl. rewrite Hp. destruct (decimal_body _ ds) eqn:E.
    + simpl in Hp. injection Hp as Hp _. lia.
    + do 2 f_equal. lia.
  - change ("" ++ ?b)%string with b.
    destruct (take (length ds - default 0 frac) ds) as [|c ds'] eqn:E.
    { apply (f_equal length) in E. rewrite length_take in E. simpl in E. lia. }
    assert (c < 10)%N as Hc.
    { apply (Forall_take _ (length ds - default 0 frac)) in Hds. rewrite E in Hds.
      by apply Forall_cons in Hds as [? _]. }
    revert Hp. unfold decimal_body. rewrite E.
    change (digits_string (c :: ds')) with (String (digit_char c) (digits_string ds')).
    change (String ?a ?b ++ ?t)%string with (String a (b ++ t))%string.
    intros Hp. rewrite (decimal_parse_body _ _ _ _ Hc Hp). do 2 f_equal. lia.
Qed.

#[export] Instance decimal_text : NumericText decimal_numeric decimal_laws.
Proof. split. intros d. exists d. split; [apply decimal_parse_show|done]. Qed.

(** Literals for the concrete runs. *)
Definition dec (m : Z) (s : nat) : @Dec decimal_numeric := Decimal m s.
Definition flt (m : Z) (s : nat) : @F64 decimal_numeric := Decimal m s.
