(* ===== verification/Pairs.v ===== *)
(** * Venues, trading pairs and symbol codecs

    [src/aetelier-types/src/exchanges.rs], [src/aetelier-types/src/trading_pair.rs]
    and [src/aetelier-connect/src/framework/symbol.rs]. *)

From Stdlib Require Import Ascii String.
From S2P Require Import Prelude Strings.
Local Open Scope nat_scope.
Local Open Scope string_scope.

(** ** exchanges.rs *)

Inductive MarketType := Spot | Perpetual | Inverse.
Inductive VenueEnvironment := Production | Testnet.
Inductive Exchange :=
| Bybit | Coinbase | Kraken | Binance | Okx | Gateio | Upbit | Poloniex | Htx
| Kucoin | Bitget | Bitso | Hyperliquid.

#[export] Instance MarketType_eq_dec : EqDecision MarketType.
Proof. solve_decision. Defined.
#[export] Instance VenueEnvironment_eq_dec : EqDecision VenueEnvironment.
Proof. solve_decision. Defined.
#[export] Instance Exchange_eq_dec : EqDecision Exchange.
Proof. solve_decision. Defined.

Definition VenueEnvironment_fmt (e : VenueEnvironment) : string :=
  match e with Production => "production" | Testnet => "testnet" end.

Definition MarketType_fmt (m : MarketType) : string :=
  match m with
  | Spot => "spot" | Perpetual => "perpetual" | Inverse => "inverse"
  end.

Definition MarketType_from_str_loose (s : string) : option MarketType :=
  let s := to_lowercase s in
  if s =? "spot" then Some Spot
  else if (s =? "perpetual") || (s =? "perp") || (s =? "linear") then Some Perpetual
  else if (s =? "inverse") || (s =? "coin") then Some Inverse
  else None.

Definition MarketType_from_str (s : string) : Result MarketType string :=
  ok_or ("unsupported market type: " ++ s) (MarketType_from_str_loose s).

Definition Exchange_fmt (e : Exchange) : string :=
  match e with
  | Bybit => "bybit" | Coinbase => "coinbase" | Kraken => "kraken"
  | Binance => "binance" | Okx => "okx" | Gateio => "gateio" | Upbit => "upbit"
  | Poloniex => "poloniex" | Htx => "htx" | Kucoin => "kucoin"
  | Bitget => "bitget" | Bitso => "bitso" | Hyperliquid => "hyperliquid"
  end.

Definition Exchange_all : list Exchange :=
  [Bybit; Coinbase; Kraken; Binance; Okx; Gateio; Upbit; Poloniex; Htx; Kucoin;
   Bitget; Bitso; Hyperliquid].

Definition Exchange_from_str_loose (s : string) : option Exchange :=
  let s := to_lowercase s in
  if s =? "bybit" then Some Bybit
  else if s =? "coinbase" then Some Coinbase
  else if s =? "kraken" then Some Kraken
  else if s =? "binance" then Some Binance
  else if (s =? "okx") || (s =? "okex") then Some Okx
  else if (s =? "gateio") || (s =? "gate") || (s =? "gate.io") then Some Gateio
  else if s =? "upbit" then Some Upbit
  else if s =? "poloniex" then Some Poloniex
  else if (s =? "htx") || (s =? "huobi") then Some Htx
  else if s =? "kucoin" then Some Kucoin
  else if s =? "bitget" then Some Bitget
  else if s =? "bitso" then Some Bitso
  else if s =? "hyperliquid" then Some Hyperliquid
  else None.

Definition Exchange_from_str (s : string) : Result Exchange string :=
  ok_or ("unsupported exchange: " ++ s) (Exchange_from_str_loose s).

(** ** trading_pair.rs *)

Definition KNOWN_QUOTES : list string :=
  ["USDT"; "USDC"; "BUSD"; "TUSD"; "FDUSD"; "USDD";
   "USD"; "BTC"; "ETH"; "EUR"; "GBP"; "DAI"; "BNB"].

Record TradingPair := { base : string; quote : string }.

#[export] Instance TradingPair_eq_dec : EqDecision TradingPair.
Proof. solve_decision. Defined.
#[export] Instance TradingPair_countable : Countable TradingPair.
Proof.
  apply (inj_countable' (fun p => (base p, quote p))
           (fun x => {| base := x.1; quote := x.2 |})).
  by intros [].
Defined.

Definition normalize_asset (asset : string) : string :=
  match split_once ":" asset with
  | Some (dex, ticker) =>
    if negb (is_empty dex) && negb (is_empty ticker)
    then to_lowercase dex ++ ":" ++ to_uppercase ticker
    else to_uppercase asset
  | None => to_uppercase asset
  end.

Definition TradingPair_new (b q : string) : TradingPair :=
  {| base := normalize_asset (trim b); quote := normalize_asset (trim q) |}.

Definition from_canonical (s : string) : option TradingPair :=
  match split_once "/" s with
  | None => None
  | Some (b, q) =>
    let b := trim b in
    let q := trim q in
    if is_empty b || is_empty q then None
    else Some {| base := normalize_asset b; quote := normalize_asset q |}
  end.

Definition from_bare_coin (raw : string) : option TradingPair :=
  let coin := trim raw in
  if is_empty coin || contains_any [":"; "@"; "/"; "-"; "_"]%char coin then None
  else Some {| base := to_uppercase coin; quote := "USDC" |}.

Definition from_quote_first_hyphen (raw : string) : option TradingPair :=
  match split_once "-" raw with
  | None => None
  | Some (q, b) =>
    let b := trim b in
    let q := trim q in
    if is_empty b || is_empty q then None
    else Some {| base := to_uppercase b; quote := to_uppercase q |}
  end.

Definition from_hyphenated (raw : string) : option TradingPair :=
  match split_once "-" raw with
  | None => None
  | Some (b, q) =>
    let b := trim b in
    let q := trim q in
    if is_empty b || is_empty q then None
    else Some {| base := to_uppercase b; quote := to_uppercase q |}
  end.

Definition from_underscore (raw : string) : option TradingPair :=
  match split_once "_" raw with
  | None => None
  | Some (b, q) =>
    let b := trim b in
    let q := trim q in
    if is_empty b || is_empty q then None
    else Some {| base := to_uppercase b; quote := to_uppercase q |}
  end.

(** The loop of [from_concatenated] over the quote table. *)
Fixpoint match_known_quote (upper : string) (quotes : list string) : option TradingPair :=
  match quotes with
  | [] => None
  | q :: quotes' =>
    match strip_suffix q upper with
    | Some b =>
      if is_empty b then match_known_quote upper quotes'
      else Some {| base := b; quote := q |}
    | None => match_known_quote upper quotes'
    end
  end.

Definition from_concatenated (raw : string) : option TradingPair :=
  match_known_quote (to_uppercase raw) KNOWN_QUOTES.

Definition from_exchange_symbol (raw : string) (e : Exchange) : option TradingPair :=
  let raw := trim raw in
  if is_empty raw then None
  else match e with
       | Coinbase | Okx | Kucoin => from_hyphenated raw
       | Kraken => from_canonical raw
       | Gateio | Poloniex | Bitso => from_underscore raw
       | Bybit | Binance | Htx | Bitget => from_concatenated raw
       | Upbit => from_quote_first_hyphen raw
       | Hyperliquid => from_bare_coin raw
       end.

Definition to_canonical (p : TradingPair) : string := base p ++ "/" ++ quote p.

Definition to_exchange_symbol (p : TradingPair) (e : Exchange) : string :=
  match e with
  | Bybit => base p ++ quote p
  | Binance => to_lowercase (base p ++ quote p)
  | Coinbase => base p ++ "-" ++ quote p
  | Kraken => base p ++ "/" ++ quote p
  | Okx => base p ++ "-" ++ quote p
  | Gateio => base p ++ "_" ++ quote p
  | Kucoin => base p ++ "-" ++ quote p
  | Poloniex => base p ++ "_" ++ quote p
  | Bitso => to_lowercase (base p ++ "_" ++ quote p)
  | Htx => to_lowercase (base p ++ quote p)
  | Bitget => base p ++ quote p
  | Upbit => quote p ++ "-" ++ base p
  | Hyperliquid => base p
  end.

Definition to_normalized (p : TradingPair) : string :=
  to_lowercase (base p ++ quote p).

(** [Option::or_else] on a computed alternative *)
Definition or_else {A} (o o' : option A) : option A :=
  match o with Some _ => o | None => o' end.

Definition TradingPair_from_str (s : string) : Result TradingPair string :=
  ok_or ("cannot parse trading pair: '" ++ s ++ "'")
    (or_else (or_else (from_canonical s) (from_hyphenated s)) (from_concatenated s)).

(** ** symbol.rs *)

Inductive SymbolCodec :=
| Concat (upper : bool)
| Hyphen
| Slash
| Underscore (upper : bool)
| QuoteFirst (sep : ascii)
| BareCoin (q : string).

Definition codec_case (s : string) (upper : bool) : string :=
  if upper then to_uppercase s else to_lowercase s.

Definition encode (c : SymbolCodec) (p : TradingPair) : string :=
  match c with
  | Concat upper => codec_case (base p ++ quote p) upper
  | Hyphen => base p ++ "-" ++ quote p
  | Slash => base p ++ "/" ++ quote p
  | Underscore upper => codec_case (base p ++ "_" ++ quote p) upper
  | QuoteFirst sep => quote p ++ String sep "" ++ base p
  | BareCoin _ => base p
  end.

(** [Some(TradingPair::new(base, quote))] on the parts of a split *)
Definition new_of_split (parts : option (string * string)) : option TradingPair :=
  match parts with Some (b, q) => Some (TradingPair_new b q) | None => None end.

Definition decode (c : SymbolCodec) (raw : string) : option TradingPair :=
  let up := to_uppercase raw in
  match c with
  | Hyphen => new_of_split (split_once "-" up)
  | Slash => new_of_split (split_once "/" up)
  | Underscore _ => new_of_split (split_once "_" up)
  | QuoteFirst sep =>
    match split_once sep up with
    | Some (q, b) => Some (TradingPair_new b q)
    | None => None
    end
  | Concat _ => from_concatenated up
  | BareCoin q =>
    let bare := trim raw in
    match split_once ":" bare with
    | Some (dex, ticker) =>
      if is_empty dex || is_empty ticker || negb (str_all is_ascii_alphanumeric dex)
         || negb (str_all is_ascii_alphanumeric ticker)
      then None
      else Some (TradingPair_new bare q)
    | None =>
      if is_empty up || contains_any ["@"; "/"; "-"; "_"]%char up then None
      else Some (TradingPair_new up q)
    end
  end.

(** ** Which pairs survive which wire *)

(** Upper-case letters and digits, as venues spell plain assets. *)
Definition plain_char (c : ascii) : bool := in_range 48 57 c || in_range 65 90 c.
Definition plain (s : string) : bool := negb (is_empty s) && str_all plain_char s.
Definition plain_pair (p : TradingPair) : bool := plain (base p) && plain (quote p).

Definition ends_with (suf s : string) : bool :=
  match strip_suffix suf s with Some _ => true | None => false end.

(** The quote is in the table, and a base quoted in USD does not end with the
    letters that make one of the longer dollar quotes. *)
Definition concat_safe (p : TradingPair) : bool :=
  existsb (String.eqb (quote p)) KNOWN_QUOTES &&
  (negb (quote p =? "USD") ||
   negb (ends_with "B" (base p) || ends_with "T" (base p) || ends_with "FD" (base p))).

Definition wire_ok (p : TradingPair) (e : Exchange) : bool :=
  plain_pair p &&
  match e with
  | Bybit | Binance | Htx | Bitget => concat_safe p
  | Hyperliquid => quote p =? "USDC"
  | _ => true
  end.

Definition codec_ok (p : TradingPair) (c : SymbolCodec) : bool :=
  plain_pair p &&
  match c with
  | Concat _ => concat_safe p
  | QuoteFirst sep => negb (plain_char sep) && Ascii.eqb (ascii_upper sep) sep
  | BareCoin q => quote p =? q
  | _ => true
  end.

(** ** Lemmas *)

Lemma str_map_id_plain f s :
  (forall c, plain_char c = true -> f c = c) -> plain s = true -> str_map f s = s.
Proof.
  unfold plain. intros Hf [_ Hs]%andb_true_iff. by apply (str_map_id_on plain_char).
Qed.

Lemma plain_upper s : plain s = true -> to_uppercase s = s.
Proof. apply str_map_id_plain. intros c. by_ascii c. Qed.

Lemma plain_trim s : plain s = true -> trim s = s.
Proof.
  unfold plain. intros [_ Hs]%andb_true_iff. apply trim_no_whitespace.
  revert Hs. apply str_all_impl. intros c. by_ascii c.
Qed.

Lemma plain_nonempty s : plain s = true -> is_empty s = false.
Proof. unfold plain. by intros [?%negb_true_iff _]%andb_true_iff. Qed.

Lemma plain_lacks sep s : plain_char sep = false -> plain s = true -> lacks sep s = true.
Proof.
  unfold plain. intros Hsep [_ Hs]%andb_true_iff. revert Hs. apply str_all_impl.
  intros c Hc. destruct (Ascii.eqb_spec c sep) as [->|]; [congruence|done].
Qed.

Lemma lacks_split sep s : lacks sep s = true -> split_once sep s = None.
Proof. apply split_once_None. Qed.

Lemma plain_normalize s : plain s = true -> normalize_asset s = s.
Proof.
  intros Hs. unfold normalize_asset. rewrite lacks_split by by apply plain_lacks.
  by apply plain_upper.
Qed.

Lemma plain_app s t : plain s = true -> plain t = true -> plain (s ++ t) = true.
Proof.
  unfold plain. intros [Hs0 Hs]%andb_true_iff [Ht0 Ht]%andb_true_iff.
  rewrite str_all_app, Hs, Ht. by destruct s.
Qed.

Lemma lacks_map sep f s :
  (forall c, f c = sep -> c = sep) -> lacks sep s = true -> lacks sep (str_map f s) = true.
Proof.
  intros Hf. unfold lacks. induction s as [|c s IH]; simpl; [done|].
  rewrite !andb_true_iff, !negb_true_iff. intros [Hc Hs]. split; [|by apply IH].
  destruct (Ascii.eqb_spec (f c) sep) as [E%Hf|]; [|done].
  by rewrite E, Ascii.eqb_refl in Hc.
Qed.

Lemma lacks_slash_normalize s : lacks "/" s = true -> lacks "/" (normalize_asset s) = true.
Proof.
  intros Hs.
  assert (forall t, lacks "/" t = true -> lacks "/" (to_uppercase t) = true) as Hu.
  { intros t. apply lacks_map. intros c. by_ascii c. }
  unfold normalize_asset. destruct (split_once ":" s) as [[a b]|] eqn:E; [|by apply Hu].
  case_match; [|by apply Hu].
  apply split_once_Some in E as [-> _]. unfold lacks in *.
  rewrite !str_all_app in *. simpl in *.
  apply andb_true_iff in Hs as [Ha Hb].
  apply andb_true_iff. split; [|by apply Hu].
  revert Ha. apply lacks_map. intros c. by_ascii c.
Qed.

Lemma is_empty_app s t : is_empty (s ++ t) = is_empty s && is_empty t.
Proof. by destruct s. Qed.

Lemma lacks_colon_case f s :
  f = ascii_upper \/ f = ascii_lower ->
  lacks ":" s = true -> lacks ":" (str_map f s) = true.
Proof. intros [-> | ->]; apply lacks_map; intros c; by_ascii c. Qed.

(** Normalizing twice is normalizing once. *)
Lemma normalize_asset_idem s : normalize_asset (normalize_asset s) = normalize_asset s.
Proof.
  unfold normalize_asset at 2 3.
  destruct (split_once ":" s) as [[a b]|] eqn:E.
  - apply split_once_Some in E as [-> Ha].
    destruct (negb (is_empty a) && negb (is_empty b)) eqn:Eab; unfold normalize_asset.
    + change (":" ++ ?t) with (String ":" t).
      rewrite split_once_app by (apply lacks_colon_case; auto).
      unfold to_lowercase at 1, to_uppercase at 1. rewrite !is_empty_map, Eab.
      by rewrite to_lowercase_idem, to_uppercase_idem.
    + unfold to_uppercase at 1. rewrite str_map_app. simpl.
      change (ascii_upper ":") with ":"%char.
      rewrite split_once_app by (apply lacks_colon_case; auto).
      rewrite !is_empty_map, Eab. apply to_uppercase_idem.
  - apply split_once_None in E. unfold normalize_asset.
    rewrite lacks_split by (apply lacks_colon_case; auto). apply to_uppercase_idem.
Qed.

Lemma to_lowercase_normalize s : to_lowercase (normalize_asset s) = to_lowercase s.
Proof.
  unfold normalize_asset. destruct (split_once ":" s) as [[a b]|] eqn:E.
  - case_match; [|apply to_lowercase_upper].
    apply split_once_Some in E as [-> _]. unfold to_lowercase at 1 3.
    rewrite !str_map_app. simpl. f_equal; [apply to_lowercase_idem|].
    change (":" ++ ?t) with (String ":" t). simpl. f_equal. apply to_lowercase_upper.
  - apply to_lowercase_upper.
Qed.

Lemma trim_normalize s : trim s = s -> trim (normalize_asset s) = normalize_asset s.
Proof. intros Hs. by apply (trim_case_eq s); [rewrite to_lowercase_normalize|]. Qed.

Lemma is_empty_normalize s : is_empty (normalize_asset s) = is_empty s.
Proof.
  pose proof (to_lowercase_normalize s) as E%(f_equal is_empty).
  unfold to_lowercase in E. by rewrite !is_empty_map in E.
Qed.

(** *** Splitting printed pairs *)

Section Plain.
Context (p : TradingPair) (Hp : plain_pair p = true).

Lemma plain_base : plain (base p) = true.
Proof using Hp. unfold plain_pair in Hp. by apply andb_true_iff in Hp as [? _]. Qed.

Lemma plain_quote : plain (quote p) = true.
Proof using Hp. unfold plain_pair in Hp. by apply andb_true_iff in Hp as [_ ?]. Qed.

Lemma plain_upper_lower s : plain s = true -> to_uppercase (to_lowercase s) = s.
Proof using. intros Hs. by rewrite to_uppercase_lower, plain_upper. Qed.

Lemma upper_joined sep :
  ascii_upper sep = sep ->
  to_uppercase (base p ++ String sep (quote p)) = base p ++ String sep (quote p).
Proof using Hp.
  intros Hsep. unfold to_uppercase. rewrite str_map_app. simpl.
  rewrite Hsep. do 2 f_equal; apply plain_upper; [apply plain_base|apply plain_quote].
Qed.

Lemma split_joined sep :
  plain_char sep = false ->
  split_once sep (base p ++ String sep (quote p)) = Some (base p, quote p) /\
  split_once sep (quote p ++ String sep (base p)) = Some (quote p, base p).
Proof using Hp.
  intros Hsep. split; apply split_once_app, plain_lacks;
    auto using plain_base, plain_quote.
Qed.

Lemma trim_joined sep :
  is_whitespace sep = false ->
  trim (base p ++ String sep (quote p)) = base p ++ String sep (quote p) /\
  trim (quote p ++ String sep (base p)) = quote p ++ String sep (base p).
Proof using Hp.
  intros Hsep.
  assert (forall s, plain s = true -> str_all (fun c => negb (is_whitespace c)) s = true)
    as Hw.
  { unfold plain. intros s [_ Hs]%andb_true_iff. revert Hs. apply str_all_impl.
    intros c. by_ascii c. }
  split; apply trim_no_whitespace; rewrite str_all_app; simpl;
    rewrite !Hw, Hsep by auto using plain_base, plain_quote; done.
Qed.

Lemma TradingPair_new_plain : TradingPair_new (base p) (quote p) = p.
Proof using Hp.
  unfold TradingPair_new.
  rewrite !plain_trim, !plain_normalize by auto using plain_base, plain_quote.
  by destruct p.
Qed.

Lemma pair_of_parts :
  {| base := to_uppercase (trim (base p)); quote := to_uppercase (trim (quote p)) |} = p.
Proof using Hp.
  rewrite !plain_trim, !plain_upper by auto using plain_base, plain_quote.
  by destruct p.
Qed.
End Plain.

(** *** The quote table *)

Lemma app_suffix_comparable b q t q' :
  b ++ q = t ++ q' ->
  (exists u, q = u ++ q') \/ (exists u, q' = u ++ q /\ b = t ++ u).
Proof.
  revert t. induction b as [|c b IH]; intros t E.
  - left. by exists t.
  - destruct t as [|c' t].
    + right. exists (String c b). by split.
    + change (String c (b ++ q) = String c' (t ++ q')) in E.
      injection E as -> E. destruct (IH _ E) as [?|(u & ? & ->)]; [by left|].
      right. by exists u.
Qed.

Lemma ends_with_app t suf : ends_with suf (t ++ suf) = true.
Proof. unfold ends_with. by rewrite strip_suffix_app. Qed.

(** A table entry that neither is a suffix of the quote nor extends it by a
    suffix of the base does not match. *)
Lemma strip_suffix_other b q q' :
  ends_with q' q = false ->
  match strip_suffix q q' with Some u => ends_with u b = false | None => True end ->
  strip_suffix q' (b ++ q) = None.
Proof.
  intros Hq Hq'. destruct (strip_suffix q' (b ++ q)) as [t|] eqn:E; [|done].
  apply strip_suffix_Some in E.
  apply app_suffix_comparable in E as [[u ->]|(u & -> & ->)].
  - by rewrite ends_with_app in Hq.
  - by rewrite strip_suffix_app, ends_with_app in Hq'.
Qed.

(** No table entry before [q] matches a base [b] quoted in [q]. *)
Fixpoint unshadowed (b q : string) (quotes : list string) : bool :=
  match quotes with
  | [] => false
  | q' :: quotes' =>
    if q' =? q then true
    else negb (ends_with q' q) &&
         match strip_suffix q q' with Some u => negb (ends_with u b) | None => true end &&
         unshadowed b q quotes'
  end.

Lemma match_unshadowed b q quotes :
  is_empty b = false -> unshadowed b q quotes = true ->
  match_known_quote (b ++ q) quotes = Some {| base := b; quote := q |}.
Proof.
  intros Hb. induction quotes as [|q' quotes IH]; simpl; [done|].
  destruct (String.eqb_spec q' q) as [->|].
  - intros _. by rewrite strip_suffix_app, Hb.
  - rewrite !andb_true_iff. intros [[Hq%negb_true_iff Hq'] Hrest].
    rewrite strip_suffix_other; [by apply IH|done|].
    destruct (strip_suffix q q'); [by apply negb_true_iff|done].
Qed.

Lemma concat_safe_unshadowed p :
  concat_safe p = true -> unshadowed (base p) (quote p) KNOWN_QUOTES = true.
Proof.
  destruct p as [b q]; unfold concat_safe; cbn [base quote].
  intros [Hq Hu]%andb_true_iff.
  apply existsb_exists in Hq as (q' & Hin & Hq). apply String.eqb_eq in Hq. subst q'.
  unfold KNOWN_QUOTES in Hin.
  repeat (destruct Hin as [<-|Hin]; [try (vm_compute; reflexivity)|]); [|done].
  apply negb_true_iff, orb_false_iff in Hu as [[HB HT]%orb_false_iff HFD].
  vm_compute in HB, HT, HFD. vm_compute. rewrite HB, HT, HFD. done.
Qed.

Lemma from_concatenated_safe p :
  plain (base p) = true -> concat_safe p = true ->
  match_known_quote (base p ++ quote p) KNOWN_QUOTES = Some p.
Proof.
  intros Hb Hc. rewrite match_unshadowed; [by destruct p|by apply plain_nonempty|].
  by apply concat_safe_unshadowed.
Qed.

(** The first table entry that leaves a non-empty base wins. *)
Lemma match_known_quote_spec upper quotes p :
  match_known_quote upper quotes = Some p <->
  exists pre post, quotes = (pre ++ quote p :: post)%list /\ upper = base p ++ quote p
    /\ base p <> "" /\ Forall (fun q => forall b, upper = b ++ q -> b = "") pre.
Proof.
  induction quotes as [|q quotes IH]; simpl.
  { split; [done|]. intros (pre & post & E & _). by destruct pre. }
  assert ((exists b, upper = b ++ q /\ b <> "" /\ strip_suffix q upper = Some b) \/
          (forall b, upper = b ++ q -> b = "") /\
          (forall b, strip_suffix q upper = Some b -> b = "")) as [(b & -> & Hb & E)|[Hq Hs]].
  { destruct (strip_suffix q upper) as [b|] eqn:E.
    - apply strip_suffix_Some in E as E'. subst upper. destruct b as [|c b].
      + right. split; intros b Hb; [|by simplify_eq].
        apply (f_equal String.length) in Hb. rewrite !string_length_app in Hb.
        destruct b; [done|simpl in Hb; lia].
      + left. by exists (String c b).
    - right. split; [|done]. intros b ->. by rewrite strip_suffix_app in E. }
  - rewrite E. replace (is_empty b) with false by by destruct b.
    split.
    + intros [= <-]. by exists [], quotes.
    + intros (pre & post & Eq & Eu & Hne & Hall). f_equal.
      destruct pre as [|q' pre]; simplify_eq/=.
      * assert (strip_suffix (quote p) (base p ++ quote p) = Some b) as E' by by rewrite <- Eu.
        rewrite strip_suffix_app in E'. simplify_eq. by destruct p.
      * apply Forall_cons in Hall as [Hq' _]. by specialize (Hq' b eq_refl).
  - assert ((match strip_suffix q upper with
             | Some b => if is_empty b then match_known_quote upper quotes
                         else Some {| base := b; quote := q |}
             | None => match_known_quote upper quotes
             end) = match_known_quote upper quotes) as ->.
    { destruct (strip_suffix q upper) as [b|]; [|done]. by rewrite (Hs b). }
    rewrite IH. split.
    + intros (pre & post & -> & Eu & Hne & Hall). exists (q :: pre), post.
      split_and!; try done. by constructor.
    + intros (pre & post & Eq & Eu & Hne & Hall).
      destruct pre as [|q' pre]; simplify_eq/=.
      * by destruct (Hne (Hq _ eq_refl)).
      * apply Forall_cons in Hall as [_ Hall]. by exists pre, post.
Qed.

(** *** Parsing what was printed *)

Definition nonws (c : ascii) : bool := negb (is_whitespace c).

Lemma plain_nonws s : plain s = true -> str_all nonws s = true.
Proof.
  unfold plain. intros [_ Hs]%andb_true_iff. revert Hs. apply str_all_impl.
  intros c. by_ascii c.
Qed.

Lemma nonws_lower s : str_all nonws s = true -> str_all nonws (to_lowercase s) = true.
Proof.
  unfold to_lowercase. induction s as [|c s IH]; simpl; [done|].
  intros [Hc Hs]%andb_true_iff. unfold nonws at 1. rewrite is_whitespace_lower.
  unfold nonws in Hc at 1. by rewrite Hc, IH.
Qed.

Lemma nonws_wire p e :
  plain_pair p = true -> str_all nonws (to_exchange_symbol p e) = true.
Proof.
  intros Hp. pose proof (plain_nonws _ (plain_base p Hp)) as Hb.
  pose proof (plain_nonws _ (plain_quote p Hp)) as Hq.
  destruct e; simpl; try apply nonws_lower; rewrite ?str_all_app; simpl;
    rewrite ?str_all_app, ?Hb, ?Hq; done.
Qed.

Lemma nonempty_wire p e :
  plain_pair p = true -> is_empty (to_exchange_symbol p e) = false.
Proof.
  intros Hp. pose proof (plain_nonempty _ (plain_base p Hp)) as Hb.
  pose proof (plain_nonempty _ (plain_quote p Hp)) as Hq.
  destruct e; simpl; unfold to_lowercase; rewrite ?is_empty_map, ?is_empty_app, ?Hb, ?Hq; done.
Qed.

Lemma to_lowercase_joined sep b q :
  ascii_lower sep = sep ->
  to_lowercase (b ++ String sep q) = to_lowercase b ++ String sep (to_lowercase q).
Proof. intros Hs. unfold to_lowercase. rewrite str_map_app. simpl. by rewrite Hs. Qed.

Lemma lower_lacks_underscore s :
  plain s = true -> lacks "_" (to_lowercase s) = true.
Proof.
  intros Hs. apply lacks_map; [intros c; by_ascii c|]. by apply plain_lacks.
Qed.

Lemma plain_lower_trim s : plain s = true -> trim (to_lowercase s) = to_lowercase s.
Proof.
  intros Hs. unfold to_lowercase. rewrite trim_map by apply is_whitespace_lower.
  by rewrite plain_trim.
Qed.

Section Parsers.
Context (p : TradingPair) (Hp : plain_pair p = true).

Local Ltac parts :=
  rewrite ?plain_trim, ?plain_nonempty, ?plain_upper, ?plain_normalize
    by auto using plain_base, plain_quote; by destruct p.

Lemma from_hyphenated_plain : from_hyphenated (base p ++ String "-" (quote p)) = Some p.
Proof using Hp.
  unfold from_hyphenated. rewrite (proj1 (split_joined p Hp "-" eq_refl)). parts.
Qed.

Lemma from_underscore_plain : from_underscore (base p ++ String "_" (quote p)) = Some p.
Proof using Hp.
  unfold from_underscore. rewrite (proj1 (split_joined p Hp "_" eq_refl)). parts.
Qed.

Lemma from_canonical_plain : from_canonical (base p ++ String "/" (quote p)) = Some p.
Proof using Hp.
  unfold from_canonical. rewrite (proj1 (split_joined p Hp "/" eq_refl)). parts.
Qed.

Lemma from_quote_first_plain :
  from_quote_first_hyphen (quote p ++ String "-" (base p)) = Some p.
Proof using Hp.
  unfold from_quote_first_hyphen. rewrite (proj2 (split_joined p Hp "-" eq_refl)). parts.
Qed.

Lemma from_underscore_lower :
  from_underscore (to_lowercase (base p ++ String "_" (quote p))) = Some p.
Proof using Hp.
  pose proof (plain_base p Hp) as Hb. pose proof (plain_quote p Hp) as Hq.
  unfold from_underscore. rewrite to_lowercase_joined by done.
  rewrite split_once_app by by apply lower_lacks_underscore.
  rewrite !plain_lower_trim by done. unfold to_lowercase at 1 2.
  rewrite !is_empty_map, !plain_nonempty by done. simpl.
  rewrite !to_uppercase_lower, !plain_upper by done. by destruct p.
Qed.

Lemma from_bare_coin_plain :
  quote p = "USDC" -> from_bare_coin (base p) = Some p.
Proof using Hp.
  pose proof (plain_base p Hp) as Hb. intros Hq.
  unfold from_bare_coin. rewrite plain_trim, plain_nonempty, plain_upper by done.
  assert (contains_any [":"; "@"; "/"; "-"; "_"]%char (base p) = false) as ->.
  { unfold contains_any. apply negb_false_iff. unfold plain in Hb.
    apply andb_true_iff in Hb as [_ Hb]. revert Hb. apply str_all_impl.
    intros c. by_ascii c. }
  simpl. rewrite <- Hq. by destruct p.
Qed.

Lemma from_concatenated_plain :
  concat_safe p = true -> from_concatenated (base p ++ quote p) = Some p.
Proof using Hp.
  intros Hc. unfold from_concatenated.
  rewrite plain_upper by auto using plain_app, plain_base, plain_quote.
  apply from_concatenated_safe; auto using plain_base.
Qed.

Lemma from_concatenated_lower raw :
  from_concatenated (to_lowercase raw) = from_concatenated raw.
Proof using. unfold from_concatenated. by rewrite to_uppercase_lower. Qed.
End Parsers.

Lemma from_exchange_symbol_wire p e :
  plain_pair p = true ->
  from_exchange_symbol (to_exchange_symbol p e) e =
  match e with
  | Coinbase | Okx | Kucoin => from_hyphenated (to_exchange_symbol p e)
  | Kraken => from_canonical (to_exchange_symbol p e)
  | Gateio | Poloniex | Bitso => from_underscore (to_exchange_symbol p e)
  | Bybit | Binance | Htx | Bitget => from_concatenated (to_exchange_symbol p e)
  | Upbit => from_quote_first_hyphen (to_exchange_symbol p e)
  | Hyperliquid => from_bare_coin (to_exchange_symbol p e)
  end.
Proof.
  intros Hp. unfold from_exchange_symbol.
  rewrite trim_no_whitespace by by apply nonws_wire. by rewrite nonempty_wire.
Qed.

(** *** Codecs *)

Lemma to_uppercase_codec_case s up : to_uppercase (codec_case s up) = to_uppercase s.
Proof. destruct up; [apply to_uppercase_idem|apply to_uppercase_lower]. Qed.

Lemma from_concatenated_upper raw :
  from_concatenated (to_uppercase raw) = from_concatenated raw.
Proof. unfold from_concatenated. by rewrite to_uppercase_idem. Qed.

Lemma upper_joined_quote_first p sep :
  plain_pair p = true -> ascii_upper sep = sep ->
  to_uppercase (quote p ++ String sep (base p)) = quote p ++ String sep (base p).
Proof.
  intros Hp Hs. unfold to_uppercase. rewrite str_map_app. simpl. rewrite Hs.
  do 2 f_equal; apply plain_upper; [by apply plain_quote|by apply plain_base].
Qed.

Lemma decode_bare_plain p :
  plain_pair p = true -> decode (BareCoin (quote p)) (base p) = Some p.
Proof.
  intros Hp. pose proof (plain_base p Hp) as Hb. unfold decode.
  rewrite plain_trim, plain_upper, plain_nonempty, lacks_split
    by auto using plain_lacks.
  assert (contains_any ["@"; "/"; "-"; "_"]%char (base p) = false) as ->.
  { unfold contains_any. apply negb_false_iff. unfold plain in Hb.
    apply andb_true_iff in Hb as [_ Hb]. revert Hb. apply str_all_impl.
    intros c. by_ascii c. }
  simpl. by rewrite TradingPair_new_plain.
Qed.

Lemma decode_joined p sep :
  plain_pair p = true -> plain_char sep = false -> ascii_upper sep = sep ->
  new_of_split (split_once sep (to_uppercase (base p ++ String sep (quote p)))) = Some p.
Proof.
  intros Hp Hs Hu. rewrite upper_joined, (proj1 (split_joined p Hp _ Hs)) by done.
  simpl. by rewrite TradingPair_new_plain.
Qed.

(** ** Properties *)

(** Every pair read from a canonical string is in canonical form: printing it and
    reading it back gives the same pair, whatever casing, spacing or dex prefix
    the original string had. *)
Theorem from_canonical_to_canonical s p :
  from_canonical s = Some p -> from_canonical (to_canonical p) = Some p.
Proof.
  unfold from_canonical, to_canonical.
  destruct (split_once "/" s) as [[b q]|] eqn:E; [|done].
  apply split_once_Some in E as [_ Hb].
  destruct (is_empty (trim b) || is_empty (trim q)) eqn:Ee; [done|].
  intros [= <-]. simpl. change ("/" ++ ?t) with (String "/" t).
  rewrite split_once_app by by apply lacks_slash_normalize, lacks_trim.
  rewrite !trim_normalize by apply trim_idem.
  rewrite !is_empty_normalize, Ee. by rewrite !normalize_asset_idem.
Qed.

(** A pair of plain upper-case assets survives the trip over each venue's wire:
    the symbol the SDK subscribes with parses back to the same pair, for all
    thirteen venues. *)
Theorem exchange_symbol_roundtrip p e :
  wire_ok p e = true -> from_exchange_symbol (to_exchange_symbol p e) e = Some p.
Proof.
  unfold wire_ok. intros [Hp He]%andb_true_iff.
  rewrite from_exchange_symbol_wire by done.
  destruct e; simpl in *; rewrite ?from_concatenated_lower;
    first
    [ by apply from_concatenated_plain
    | by apply from_hyphenated_plain
    | by apply from_underscore_plain
    | by apply from_underscore_lower
    | by apply from_canonical_plain
    | by apply from_quote_first_plain
    | by apply from_bare_coin_plain; [|apply String.eqb_eq] ].
Qed.

Lemma exchange_symbol_roundtrip_witness :
  let p := {| base := "BTC"; quote := "USDT" |} in
  from_exchange_symbol (to_exchange_symbol p Binance) Binance = Some p.
Proof. exact (exchange_symbol_roundtrip {| base := "BTC"; quote := "USDT" |} Binance eq_refl). Defined.

(** Each venue codec of the transport registry decodes what it encodes. *)
Theorem codec_roundtrip p c :
  codec_ok p c = true -> decode c (encode c p) = Some p.
Proof.
  unfold codec_ok. intros [Hp Hc]%andb_true_iff.
  destruct c as [up| | |up|sep|q]; unfold decode, encode.
  - rewrite to_uppercase_codec_case, from_concatenated_upper.
    by apply from_concatenated_plain.
  - by apply decode_joined.
  - by apply decode_joined.
  - rewrite to_uppercase_codec_case. by apply decode_joined.
  - apply andb_true_iff in Hc as [Hs%negb_true_iff Hu%Ascii.eqb_eq].
    change (String sep "" ++ base p) with (String sep (base p)).
    rewrite upper_joined_quote_first, (proj2 (split_joined p Hp _ Hs)) by done.
    by rewrite TradingPair_new_plain.
  - apply String.eqb_eq in Hc. subst q. by apply decode_bare_plain.
Qed.

Lemma codec_roundtrip_witness :
  let p := {| base := "SOL"; quote := "USDT" |} in
  decode (Underscore false) (encode (Underscore false) p) = Some p.
Proof.
  exact (codec_roundtrip {| base := "SOL"; quote := "USDT" |} (Underscore false) eq_refl).
Defined.

(** A symbol without separator is split at the first entry of the quote table
    that is a proper suffix of it: the parts spell the upper-cased symbol, the base
    is not empty, and no earlier entry would have left one.  Conversely every such
    split is the one returned. *)
Theorem from_concatenated_spec raw p :
  from_concatenated raw = Some p <->
  exists pre post, KNOWN_QUOTES = (pre ++ quote p :: post)%list
    /\ to_uppercase raw = base p ++ quote p /\ base p <> ""
    /\ Forall (fun q => forall b, to_uppercase raw = b ++ q -> b = "") pre.
Proof. apply match_known_quote_spec. Qed.

(** Venue names parse back: [Display] then [FromStr] is the identity on every
    venue, and [Exchange::all] lists each venue once. *)
Theorem exchange_name_roundtrip e :
  Exchange_from_str (Exchange_fmt e) = Ok e /\ e ∈ Exchange_all /\ NoDup Exchange_all.
Proof.
  split_and!; [by destruct e| |].
  - apply (bool_decide_unpack _). by destruct e.
  - apply (bool_decide_unpack _). by vm_compute.
Qed.

(** The dollar quotes shadow plain USD: BNB quoted in USD reads back as BN quoted
    in BUSD. *)
Lemma usd_quote_shadowed :
  let p := {| base := "BNB"; quote := "USD" |} in
  from_exchange_symbol (to_exchange_symbol p Bybit) Bybit =
  Some {| base := "BN"; quote := "BUSD" |}.
Proof. reflexivity. Qed.
