(* ===== verification/Types.v ===== *)
(** * Market data types

    The records and enums of [src/aetelier-types/src] that the books, the runtime
    and the synchronizers exchange: timestamps ([time.rs]), errors ([errors.rs]),
    trades ([trades.rs]), funding ([funding.rs]), open interest
    ([open_interest.rs]), liquidations ([liquidations.rs]) and orders
    ([orders.rs]).  A field keeps its source name, prefixed by its type where two
    types share it. *)

From Stdlib Require Import Ascii String.
From S2P Require Import Prelude Strings Numeric Pairs.
Local Open Scope nat_scope.
Local Open Scope string_scope.

(** ** time.rs *)

(** [TimestampUs] is a transparent wrapper of [u64]. *)
Definition TimestampUs : Type := N.
Definition from_micros (us : N) : TimestampUs := us.
Definition from_millis (ms : N) : TimestampUs := N.min (ms * 1000) u64_max.
Definition from_nanos (ns : N) : TimestampUs := (ns / 1000)%N.
Definition from_secs (s : N) : TimestampUs := N.min (s * 1000000) u64_max.
Definition as_micros (t : TimestampUs) : N := t.
Definition as_millis (t : TimestampUs) : N := (t / 1000)%N.
Definition saturating_since (t earlier : TimestampUs) : N := u64_saturating_sub t earlier.

(** ** errors.rs *)

Inductive OrderbookError :=
| NotInitialized
| SequenceGap (expected received : N)
| SymbolMismatch (expected received : string)
| ParseError (e : string)
| ContentsError (e : string)
| LevelNotFound (price : string)
| OrderNotFound (order_ts_us : N)
| InvalidInput (e : string)
| BuilderError (e : string)
| TimestampError (e : string).

Definition OrderbookError_fmt (e : OrderbookError) : string :=
  match e with
  | NotInitialized => "Orderbook not initialized, waiting for snapshot"
  | SequenceGap expected received =>
    "Sequence gap: expected " ++ pretty expected ++ ", received " ++ pretty received
  | SymbolMismatch expected received =>
    "Symbol mismatch: expected " ++ expected ++ ", received " ++ received
  | ParseError e => "Parse error: " ++ e
  | ContentsError e => "Orderbook contents error: " ++ e
  | LevelNotFound price => "Level not found at price " ++ price
  | OrderNotFound ts => "Order not found with timestamp " ++ pretty ts
  | InvalidInput e => "Invalid input: " ++ e
  | BuilderError e => "Order builder error: " ++ e
  | TimestampError e => "Timestamp error: " ++ e
  end.

Inductive BuildError :=
| MissingField (field : string)
| InvalidField (field reason : string).

(** The errors of other crates by their text. *)
Inductive PersistError :=
| PersistIo (m : string)
| PersistJson (m : string)
| PersistParse (m : string)
| UnsupportedFormat (m : string).

#[export] Instance PersistError_eq_dec : EqDecision PersistError.
Proof. solve_decision. Defined.

(** ** trades.rs *)

Inductive TradeSide := Buy | Sell.
Inductive TradeOrigin := Ws | Rest.

#[export] Instance TradeSide_eq_dec : EqDecision TradeSide.
Proof. solve_decision. Defined.
#[export] Instance TradeOrigin_eq_dec : EqDecision TradeOrigin.
Proof. solve_decision. Defined.

Definition TradeSide_as_str (s : TradeSide) : string :=
  match s with Buy => "buy" | Sell => "sell" end.

Definition TradeSide_from_str_loose (s : string) : option TradeSide :=
  let s := to_lowercase s in
  if s =? "buy" then Some Buy else if s =? "sell" then Some Sell else None.

Definition TradeSide_from_str (s : string) : Result TradeSide string :=
  ok_or ("unsupported trade side: " ++ s) (TradeSide_from_str_loose s).

Definition TradeOrigin_as_str (o : TradeOrigin) : string :=
  match o with Ws => "ws" | Rest => "rest" end.

Definition TradeOrigin_from_str (s : string) : Result TradeOrigin string :=
  if s =? "ws" then Ok Ws
  else if s =? "rest" then Ok Rest
  else Err ("unknown trade origin '" ++ s ++ "'").

Record Trade `{Numeric} := {
  source_trade_ts_us : N;
  local_trade_ts_us : N;
  source_trade_rtt_us : N;
  trade_pair : TradingPair;
  trade_side : TradeSide;
  trade_amount : Dec;
  trade_price : Dec;
  trade_exchange : string;
  trade_id : string;
  trade_origin : TradeOrigin
}.

(** ** funding.rs *)

Record FundingRate `{Numeric} := {
  funding_rate_ts_us : N;
  local_funding_ts_us : N;
  funding_recv_seq : N;
  funding_conn_epoch_us : N;
  funding_pair : TradingPair;
  funding_rate : Dec;
  funding_premium : option Dec;
  interval_hours : N;
  next_funding_ts_us : N;
  funding_exchange : string
}.

Definition FundingRate_effective_ts_us `{Numeric} (f : FundingRate) : N :=
  if (0 <? funding_rate_ts_us f)%N then funding_rate_ts_us f else local_funding_ts_us f.

Record FundingSettlement `{Numeric} := {
  funding_time_us : N;
  settlement_local_ts_us : N;
  settlement_rtt_us : N;
  settlement_pair : TradingPair;
  settlement_rate : Dec;
  settlement_premium : option Dec;
  settlement_exchange : string
}.

(** ** open_interest.rs *)

Record OpenInterest `{Numeric} := {
  open_interest_ts_us : N;
  local_oi_ts_us : N;
  oi_recv_seq : N;
  oi_conn_epoch_us : N;
  oi_pair : TradingPair;
  open_interest : Dec;
  open_interest_value : option Dec;
  mark_px : option Dec;
  oi_exchange : string
}.

Definition OpenInterest_effective_ts_us `{Numeric} (o : OpenInterest) : N :=
  if (0 <? open_interest_ts_us o)%N then open_interest_ts_us o else local_oi_ts_us o.

(** ** liquidations.rs *)

Record Liquidation `{Numeric} := {
  liquidation_ts_us : N;
  liquidation_pair : TradingPair;
  liquidation_side : TradeSide;
  liquidation_amount : Dec;
  liquidation_price : Dec;
  liquidation_exchange : string
}.
