(* ===== verification/Trades.v ===== *)
(** * Trades: construction, identity, deduplication, aggregation

    The second half of [src/aetelier-types/src/trades.rs] and the builders of
    [funding.rs], [open_interest.rs] and [liquidations.rs].  A builder is the record of the
    fields set so far; its setters are updates of that record.  The map of
    [dedup_by_identity] is a [gmap] from identities to fingerprints.  [usize] counters count
    rows of a vector and stay within range. *)
From Stdlib Require Import QArith Qabs Lqa Ascii String Strings.Byte.
From stdpp Require Import gmap strings.
From S2P Require Import Prelude Bytes BTree Strings Numeric Pairs Types.
Local Open Scope string_scope.
Local Open Scope N_scope.

(** ** Builders *)

Section Builders.
Context {NU : Numeric}.
Local Open Scope result_scope.

Record TradeBuilder := {
  trb_source_trade_ts_us : option N;
  trb_pair : option TradingPair;
  trb_side : option TradeSide;
  trb_amount : option F64;
  trb_price : option F64;
  trb_exchange : option string;
  trb_id : option string
}.

Definition TradeBuilder_new : TradeBuilder :=
  {| trb_source_trade_ts_us := None; trb_pair := None; trb_side := None; trb_amount := None;
     trb_price := None; trb_exchange := None; trb_id := None |}.

Definition required {A} (field : string) (o : option A) : Result A BuildError :=
  ok_or (MissingField field) o.

Definition TradeBuilder_build (b : TradeBuilder) : Result Trade BuildError :=
  let? ts := required "source_trade_ts_us" (trb_source_trade_ts_us b) in
  let? p := required "pair" (trb_pair b) in
  let? side := required "side" (trb_side b) in
  let? amount := required "amount" (trb_amount b) in
  let? price := required "price" (trb_price b) in
  let? exchange := required "exchange" (trb_exchange b) in
  let? id := required "id" (trb_id b) in
  Ok {| source_trade_ts_us := ts; local_trade_ts_us := 0; source_trade_rtt_us := 0;
        trade_pair := p; trade_side := side; trade_amount := f64_to_decimal amount;
        trade_price := f64_to_decimal price; trade_exchange := exchange; trade_id := id;
        trade_origin := Ws |}.

Record FundingRateBuilder := {
  frb_funding_rate_ts_us : option N;
  frb_local_funding_ts_us : option N;
  frb_recv_seq : option N;
  frb_conn_epoch_us : option N;
  frb_pair : option TradingPair;
  frb_funding_rate : option Dec;
  frb_premium : option Dec;
  frb_interval_hours : option N;
  frb_next_funding_ts_us : option N;
  frb_exchange : option string
}.

Definition FundingRateBuilder_build (b : FundingRateBuilder) : Result FundingRate BuildError :=
  let ts := default 0 (frb_funding_rate_ts_us b) in
  let local := default 0 (frb_local_funding_ts_us b) in
  if (ts =? 0) && (local =? 0) then Err (MissingField "ts")
  else
    let? p := required "pair" (frb_pair b) in
    let? rate := required "funding_rate" (frb_funding_rate b) in
    let? hours := required "interval_hours" (frb_interval_hours b) in
    if hours =? 0 then Err (MissingField "interval_hours")
    else
      let? exchange := required "exchange" (frb_exchange b) in
      Ok {| funding_rate_ts_us := ts; local_funding_ts_us := local;
            funding_recv_seq := default 0 (frb_recv_seq b);
            funding_conn_epoch_us := default 0 (frb_conn_epoch_us b); funding_pair := p;
            funding_rate := rate; funding_premium := frb_premium b; interval_hours := hours;
            next_funding_ts_us := default 0 (frb_next_funding_ts_us b);
            funding_exchange := exchange |}.

Record FundingSettlementBuilder := {
  fsb_funding_time_us : option N;
  fsb_local_ts_us : option N;
  fsb_rtt_us : option N;
  fsb_pair : option TradingPair;
  fsb_funding_rate : option Dec;
  fsb_premium : option Dec;
  fsb_exchange : option string
}.

Definition FundingSettlementBuilder_build (b : FundingSettlementBuilder)
    : Result FundingSettlement BuildError :=
  let? time := required "funding_time_us" (fsb_funding_time_us b) in
  if time =? 0 then Err (MissingField "funding_time_us")
  else
    let? p := required "pair" (fsb_pair b) in
    let? rate := required "funding_rate" (fsb_funding_rate b) in
    let? exchange := required "exchange" (fsb_exchange b) in
    Ok {| funding_time_us := time; settlement_local_ts_us := default 0 (fsb_local_ts_us b);
          settlement_rtt_us := default 0 (fsb_rtt_us b); settlement_pair := p;
          settlement_rate := rate; settlement_premium := fsb_premium b;
          settlement_exchange := exchange |}.

Record OpenInterestBuilder := {
  oib_open_interest_ts_us : option N;
  oib_local_oi_ts_us : option N;
  oib_recv_seq : option N;
  oib_conn_epoch_us : option N;
  oib_pair : option TradingPair;
  oib_open_interest : option Dec;
  oib_open_interest_value : option Dec;
  oib_mark_px : option Dec;
  oib_exchange : option string
}.

Definition OpenInterestBuilder_build (b : OpenInterestBuilder) : Result OpenInterest BuildError :=
  let ts := default 0 (oib_open_interest_ts_us b) in
  let local := default 0 (oib_local_oi_ts_us b) in
  if (ts =? 0) && (local =? 0) then Err (MissingField "ts")
  else
    let? p := required "pair" (oib_pair b) in
    let? oi := required "open_interest" (oib_open_interest b) in
    let? exchange := required "exchange" (oib_exchange b) in
    Ok {| open_interest_ts_us := ts; local_oi_ts_us := local;
          oi_recv_seq := default 0 (oib_recv_seq b);
          oi_conn_epoch_us := default 0 (oib_conn_epoch_us b); oi_pair := p; open_interest := oi;
          open_interest_value := oib_open_interest_value b; mark_px := oib_mark_px b;
          oi_exchange := exchange |}.

Record LiquidationBuilder := {
  lb_liquidation_ts_us : option N;
  lb_pair : option TradingPair;
  lb_side : option TradeSide;
  lb_amount : option F64;
  lb_price : option F64;
  lb_exchange : option string
}.

Definition LiquidationBuilder_build (b : LiquidationBuilder) : Result Liquidation BuildError :=
  let? ts := required "ts" (lb_liquidation_ts_us b) in
  let? p := required "pair" (lb_pair b) in
  let? side := required "side" (lb_side b) in
  let? amount := required "amount" (lb_amount b) in
  let? price := required "price" (lb_price b) in
  let? exchange := required "exchange" (lb_exchange b) in
  Ok {| liquidation_ts_us := ts; liquidation_pair := p; liquidation_side := side;
        liquidation_amount := f64_to_decimal amount; liquidation_price := f64_to_decimal price;
        liquidation_exchange := exchange |}.
End Builders.

(** ** Identity and fingerprint *)

Record TradeIdentity := {
  ident_exchange : string;
  ident_pair : TradingPair;
  ident_id : string
}.

#[export] Instance TradeIdentity_eq_dec : EqDecision TradeIdentity.
Proof. solve_decision. Defined.
#[export] Instance TradeIdentity_countable : Countable TradeIdentity.
Proof.
  apply (inj_countable' (fun i => (ident_exchange i, ident_pair i, ident_id i))
           (fun x => {| ident_exchange := x.1.1; ident_pair := x.1.2; ident_id := x.2 |})).
  by intros [].
Defined.

Definition FNV_OFFSET : N := 0xcbf29ce484222325.
Definition FNV_PRIME : N := 0x00000100000001b3.

(** One pass of [eat] over the bytes. *)
Definition fnv_eat (h : N) (bytes : list byte) : N :=
  fold_left (fun h b => u64_mul (N.lxor h (Byte.to_N b)) FNV_PRIME) bytes h.

Record TradeDedupReport := { removed : nat; conflicts : nat }.

Definition AGGREGATION_RULE_VERSION : string := "trade-aggregation-v0.11".

Inductive TradeOrderEvidence := VenueSequence | NumericId | LexicographicId | ArrivalIndex.

Definition is_venue_reported (e : TradeOrderEvidence) : bool :=
  match e with VenueSequence | NumericId => true | _ => false end.

Inductive TradeSplitReason := Single | SamePrice | Swept | DirectionSplit.

Section Trades.
Context {NU : Numeric}.

Definition identity (t : Trade) : TradeIdentity :=
  {| ident_exchange := trade_exchange t; ident_pair := trade_pair t; ident_id := trade_id t |}.

Definition fingerprint (t : Trade) : N :=
  let h := fnv_eat FNV_OFFSET (le_split 8 (source_trade_ts_us t)) in
  let h := fnv_eat h (bytes_of_string (TradeSide_as_str (trade_side t))) in
  let h := fnv_eat h (bytes_of_string (dshow (dnormalize (trade_price t)))) in
  fnv_eat h (bytes_of_string (dshow (dnormalize (trade_amount t)))).

(** ** Deduplication *)

(** The closure of [retain]: the map and the report it updates, and whether the row stays. *)
Definition dedup_row (t : Trade) (seen : gmap TradeIdentity N) (report : TradeDedupReport)
    : bool * gmap TradeIdentity N * TradeDedupReport :=
  let id := identity t in
  let f := fingerprint t in
  match seen !! id with
  | Some kept =>
    (false, seen, {| removed := S (removed report);
                     conflicts := (if (kept =? f)%N then 0 else 1) + conflicts report |}%nat)
  | None => (true, <[id := f]> seen, report)
  end.

Fixpoint dedup_loop (trades : list Trade) (seen : gmap TradeIdentity N)
    (report : TradeDedupReport) : list Trade * TradeDedupReport :=
  match trades with
  | [] => ([], report)
  | t :: trades =>
    let '(keep, seen, report) := dedup_row t seen report in
    let '(rest, report) := dedup_loop trades seen report in
    (if keep then t :: rest else rest, report)
  end.

Definition dedup_by_identity (trades : list Trade) : list Trade * TradeDedupReport :=
  dedup_loop trades ∅ {| removed := 0; conflicts := 0 |}.

(** ** Aggregation *)

Record TradeAggregate := {
  agg_ts_us : N;
  agg_bucket_us : N;
  agg_w_us : N;
  agg_exchange : string;
  agg_pair : TradingPair;
  agg_side : TradeSide;
  agg_n_fills : nat;
  agg_qty : Dec;
  agg_notional : Dec;
  agg_vwap : Dec;
  agg_px_first : Dec;
  agg_px_last : Dec;
  agg_px_min : Dec;
  agg_px_max : Dec;
  agg_sweep_depth : Dec;
  agg_id_first : string;
  agg_id_last : string;
  agg_order_evidence : TradeOrderEvidence;
  agg_split_reason : TradeSplitReason;
  agg_rule_version : string
}.

Definition same_taker (first f : Trade) : bool :=
  bool_decide (trade_side f = trade_side first) &&
  String.eqb (trade_exchange f) (trade_exchange first) &&
  bool_decide (trade_pair f = trade_pair first).

(** The loop over the fills: quantity, notional, lowest and highest price. *)
Definition sum_fill (acc : Dec * Dec * Dec * Dec) (f : Trade) : Dec * Dec * Dec * Dec :=
  let '(qty, notional, px_min, px_max) := acc in
  (dadd qty (trade_amount f), dadd notional (dmul (trade_price f) (trade_amount f)),
   dmin px_min (trade_price f), dmax px_max (trade_price f)).

Definition from_fills (fills : list Trade) (bucket_us w_us : N) (split_reason : TradeSplitReason)
    (order_evidence : TradeOrderEvidence) : Result TradeAggregate BuildError :=
  match fills with
  | [] => Err (InvalidField "fills" "an aggregate needs at least one fill")
  | first :: _ =>
    if w_us =? 0 then Err (InvalidField "w_us" "bucket width must be positive")
    else if negb (forallb (same_taker first) fills)
    then Err (InvalidField "fills" "fills of one taker share side, exchange and pair")
    else
      let '(qty, notional, px_min, px_max) :=
        fold_left sum_fill fills (dzero, dzero, trade_price first, trade_price first) in
      if dleb qty dzero
      then Err (InvalidField "qty" ("aggregate quantity must be positive, got " ++ dshow qty)%string)
      else
        let last := default first (list.last fills) in
        let px_first := trade_price first in
        let px_last := trade_price last in
        Ok {| agg_ts_us := bucket_us; agg_bucket_us := bucket_us; agg_w_us := w_us;
              agg_exchange := trade_exchange first; agg_pair := trade_pair first;
              agg_side := trade_side first; agg_n_fills := length fills; agg_qty := qty;
              agg_notional := notional; agg_vwap := ddiv notional qty; agg_px_first := px_first;
              agg_px_last := px_last; agg_px_min := px_min; agg_px_max := px_max;
              agg_sweep_depth := dabs (dsub px_last px_first); agg_id_first := trade_id first;
              agg_id_last := trade_id last; agg_order_evidence := order_evidence;
              agg_split_reason := split_reason; agg_rule_version := AGGREGATION_RULE_VERSION |}
  end.

Definition place_at (ts_us : N) (a : TradeAggregate) : TradeAggregate :=
  {| agg_ts_us := ts_us; agg_bucket_us := agg_bucket_us a; agg_w_us := agg_w_us a;
     agg_exchange := agg_exchange a; agg_pair := agg_pair a; agg_side := agg_side a;
     agg_n_fills := agg_n_fills a; agg_qty := agg_qty a; agg_notional := agg_notional a;
     agg_vwap := agg_vwap a; agg_px_first := agg_px_first a; agg_px_last := agg_px_last a;
     agg_px_min := agg_px_min a; agg_px_max := agg_px_max a;
     agg_sweep_depth := agg_sweep_depth a; agg_id_first := agg_id_first a;
     agg_id_last := agg_id_last a; agg_order_evidence := agg_order_evidence a;
     agg_split_reason := agg_split_reason a; agg_rule_version := agg_rule_version a |}.

Definition is_venue_ordered (a : TradeAggregate) : bool := is_venue_reported (agg_order_evidence a).
End Trades.

(** ** Deduplication keeps the first row of every identity *)

Section DedupProps.
Context {NU : Numeric}.
Local Open Scope nat_scope.
Implicit Types (seen : gmap TradeIdentity N) (kept trades : list Trade).

(** The fingerprint of the row kept for each identity. *)
Definition prints (kept : list Trade) : gmap TradeIdentity N :=
  list_to_map ((fun k => (identity k, fingerprint k)) <$> kept).

(** A row of [kept] has the identity of [t] and another content. *)
Definition restates (kept : list Trade) (t : Trade) : bool :=
  existsb (fun k => bool_decide (identity k = identity t) &&
                    negb (fingerprint k =? fingerprint t)%N) kept.

Definition disagrees seen (t : Trade) : bool :=
  negb (bool_decide (seen !! identity t = Some (fingerprint t))).

Lemma dedup_loop_kept trades seen r kept r' :
  dedup_loop trades seen r = (kept, r') ->
  kept `sublist_of` trades /\ NoDup (identity <$> kept) /\
  Forall (fun t => seen !! identity t = None) kept /\
  removed r' + length kept = removed r + length trades.
Proof.
  revert seen r kept r'. induction trades as [|t trades IH]; intros seen r kept r'; cbn [dedup_loop].
  - intros [= <- <-]. split_and!; [done|constructor|constructor|simpl; lia].
  - unfold dedup_row. destruct (seen !! identity t) as [f|] eqn:Hs;
      destruct (dedup_loop _ _ _) as [rest r1] eqn:E; intros [= <- <-];
      apply IH in E as (Hsub & Hnd & Hf & Hl); simpl in *.
    + split_and!; [by constructor|done|done|lia].
    + split_and!; [by constructor| |constructor; [done|]|lia].
      * constructor; [|done]. intros (k & Hk & Hin)%list_elem_of_fmap.
        rewrite Forall_forall in Hf. specialize (Hf k Hin). by rewrite <- Hk, lookup_insert_eq in Hf.
      * eapply Forall_impl; [exact Hf|]. intros k Hk.
        by apply lookup_insert_None in Hk as [? _].
Qed.

Lemma dedup_loop_first trades seen r kept r' pre t post :
  dedup_loop trades seen r = (kept, r') ->
  trades = (pre ++ t :: post)%list -> seen !! identity t = None ->
  identity t ∉ identity <$> pre -> t ∈ kept.
Proof.
  revert seen r kept r' pre. induction trades as [|x trades IH]; intros seen r kept r' pre; cbn [dedup_loop].
  - intros _ Ht. by destruct pre.
  - unfold dedup_row. destruct pre as [|y pre]; intros E [= -> Ht] Hs Hni.
    + rewrite Hs in E. destruct (dedup_loop _ _ _). injection E as <- <-. left.
    + rewrite fmap_cons, not_elem_of_cons in Hni. destruct Hni as [Hne Hni].
      destruct (seen !! identity y) as [f|] eqn:Hy;
        destruct (dedup_loop _ _ _) as [rest r1] eqn:E1; injection E as <- <-.
      * by eapply IH.
      * right. eapply IH; [exact E1|done| |done]. by rewrite lookup_insert_ne.
Qed.

Lemma prints_fresh seen kept :
  Forall (fun t => seen !! identity t = None) kept ->
  forall t, t ∈ kept -> (seen ∪ prints kept) !! identity t = prints kept !! identity t.
Proof.
  rewrite Forall_forall. intros H t Ht. apply lookup_union_r. by apply H.
Qed.

Lemma dedup_loop_conflicts trades seen r kept r' :
  dedup_loop trades seen r = (kept, r') ->
  conflicts r' = conflicts r + length (List.filter (disagrees (seen ∪ prints kept)) trades).
Proof.
  revert seen r kept r'. induction trades as [|t trades IH]; intros seen r kept r'; cbn [dedup_loop].
  - intros [= <- <-]. simpl. lia.
  - unfold dedup_row. destruct (seen !! identity t) as [f|] eqn:Hs;
      destruct (dedup_loop _ _ _) as [rest r1] eqn:E; intros [= <- <-];
      apply IH in E; rewrite E; cbn [List.filter conflicts].
    + unfold disagrees at 2. rewrite (lookup_union_Some_l _ _ _ _ Hs).
      destruct (N.eqb_spec f (fingerprint t)) as [->|Hne].
      * rewrite bool_decide_true by done. simpl. lia.
      * rewrite bool_decide_false by congruence. simpl. lia.
    + unfold prints. rewrite fmap_cons, list_to_map_cons. fold (prints rest).
      rewrite <- insert_union_l, insert_union_r by done.
      unfold disagrees at 2. rewrite lookup_union_r by done.
      rewrite lookup_insert_eq, bool_decide_true by done. done.
Qed.

Lemma prints_lookup kept k :
  NoDup (identity <$> kept) -> k ∈ kept -> prints kept !! identity k = Some (fingerprint k).
Proof.
  intros Hnd Hk. apply elem_of_list_to_map_1.
  - by rewrite <- list_fmap_compose.
  - by apply (list_elem_of_fmap_2 (fun k => (identity k, fingerprint k))).
Qed.

Lemma disagrees_restates kept t :
  NoDup (identity <$> kept) -> identity t ∈ identity <$> kept ->
  disagrees (prints kept) t = restates kept t.
Proof.
  intros Hnd (k & Hk & Hin)%list_elem_of_fmap. apply eq_true_iff_eq. unfold disagrees, restates.
  rewrite Hk, (prints_lookup _ _ Hnd Hin), negb_true_iff, bool_decide_eq_false, existsb_exists.
  split.
  - intros Hne. exists k. split; [by apply list_elem_of_In|].
    rewrite bool_decide_true by done. apply negb_true_iff, N.eqb_neq. congruence.
  - intros (k' & Hin' & [Hi Hf]%andb_true_iff) [= E]. apply bool_decide_eq_true in Hi.
    apply list_elem_of_In in Hin'. apply negb_true_iff, N.eqb_neq in Hf.
    assert (prints kept !! identity k' = prints kept !! identity k) as El by (by rewrite Hi).
    rewrite !prints_lookup in El by done. congruence.
Qed.

Lemma first_occurrence {A B} `{EqDecision B} (f : A -> B) (l : list A) x :
  x ∈ l -> exists pre y post, l = (pre ++ y :: post)%list /\ f y = f x /\ f x ∉ f <$> pre.
Proof.
  induction l as [|z l IH]; [by intros ?%elem_of_nil|].
  intros Hx. destruct (decide (f z = f x)) as [E|E].
  - exists [], z, l. split_and!; [done|done|apply not_elem_of_nil].
  - apply elem_of_cons in Hx as [->|Hx]; [done|]. destruct (IH Hx) as (pre & y & post & -> & Ey & Hni).
    exists (z :: pre), y, post. split_and!; [done|done|]. rewrite fmap_cons, not_elem_of_cons.
    by split.
Qed.

Lemma dedup_loop_fresh trades seen r :
  NoDup (identity <$> trades) -> Forall (fun t => seen !! identity t = None) trades ->
  dedup_loop trades seen r = (trades, r).
Proof.
  revert seen. induction trades as [|t trades IH]; intros seen; cbn [dedup_loop]; [done|].
  rewrite fmap_cons. intros [Hni Hnd]%NoDup_cons [Hs Hf]%Forall_cons.
  unfold dedup_row. rewrite Hs, IH; [done|done|].
  rewrite Forall_forall in *. intros k Hk. rewrite lookup_insert_ne; [by apply Hf|].
  intros E. apply Hni. rewrite E. by apply list_elem_of_fmap_2.
Qed.

(** Deduplication keeps, in their order, exactly the first row of every identity
    ([exchange], [pair], [id]); it counts every other row as removed, and as a conflict
    exactly when its fingerprint is not that of the row kept; a second pass changes nothing. *)
Theorem dedup_exact (trades : list Trade) :
  let '(kept, report) := dedup_by_identity trades in
  kept `sublist_of` trades /\ NoDup (identity <$> kept) /\
  (forall pre t post, trades = (pre ++ t :: post)%list -> identity t ∉ identity <$> pre -> t ∈ kept) /\
  removed report + length kept = length trades /\
  conflicts report = length (List.filter (restates kept) trades) /\
  dedup_by_identity kept = (kept, {| removed := 0; conflicts := 0 |}).
Proof.
  unfold dedup_by_identity. destruct (dedup_loop trades _ _) as [kept r] eqn:E.
  pose proof (dedup_loop_kept _ _ _ _ _ E) as (Hsub & Hnd & _ & Hl).
  pose proof (dedup_loop_conflicts _ _ _ _ _ E) as Hc.
  assert (forall pre t post, trades = (pre ++ t :: post)%list ->
                             identity t ∉ identity <$> pre -> t ∈ kept) as Hfirst.
  { intros pre t post Ht Hni. by eapply dedup_loop_first. }
  split_and!; [done|done|done|simpl in Hl; lia| |by apply dedup_loop_fresh; [|apply Forall_true]].
  rewrite Hc, map_empty_union. simpl. f_equal. apply filter_ext_in. intros t Ht%list_elem_of_In.
  apply disagrees_restates; [done|].
  destruct (first_occurrence identity trades t Ht) as (pre & y & post & Hp & <- & Hni).
  apply list_elem_of_fmap_2. by eapply Hfirst.
Qed.
End DedupProps.

(** ** The fingerprint is a function of the content *)

Section FingerprintProps.
Context {NU : Numeric} {NL : NumericLaws NU} {NC : NumericCanonical NU NL}.

Lemma fingerprint_eq (t t' : Trade) :
  source_trade_ts_us t = source_trade_ts_us t' -> trade_side t = trade_side t' ->
  (dval (trade_price t) == dval (trade_price t'))%Q ->
  (dval (trade_amount t) == dval (trade_amount t'))%Q ->
  fingerprint t = fingerprint t'.
Proof.
  intros Ht Hs Hp Ha. unfold fingerprint.
  by rewrite Ht, Hs, (dnormalize_canonical _ _ Hp), (dnormalize_canonical _ _ Ha).
Qed.

Lemma fnv_eat_is_u64 h bs : is_u64 h -> is_u64 (fnv_eat h bs).
Proof.
  unfold fnv_eat. revert h. induction bs as [|b bs IH]; intros h Hh; simpl; [done|].
  apply IH. by apply N.mod_lt.
Qed.

(** A row restated with other trailing zeros, or with another receipt time, round trip or
    provenance, is a repetition and not a conflict. *)
Lemma restates_same_content kept (t : Trade) :
  Forall (fun k => identity k = identity t ->
                   source_trade_ts_us k = source_trade_ts_us t /\ trade_side k = trade_side t /\
                   (dval (trade_price k) == dval (trade_price t))%Q /\
                   (dval (trade_amount k) == dval (trade_amount t))%Q) kept ->
  restates kept t = false.
Proof.
  induction 1 as [|k kept Hk _ IH]; simpl; [done|]. rewrite IH, orb_false_r.
  destruct (decide (identity k = identity t)) as [E|E].
  - rewrite bool_decide_true by done. destruct (Hk E) as (? & ? & ? & ?).
    by rewrite (fingerprint_eq k t), N.eqb_refl.
  - by rewrite bool_decide_false.
Qed.
End FingerprintProps.

(** ** An aggregate summarizes its fills *)

Section AggregateProps.
Context {NU : Numeric} {NL : NumericLaws NU} {NE : NumericExact NU NL}.
Local Open Scope Q_scope.

Definition amounts (fills : list Trade) : list Q := map (fun f => dval (trade_amount f)) fills.
Definition values (fills : list Trade) : list Q :=
  map (fun f => dval (trade_price f) * dval (trade_amount f)) fills.

Lemma sum_fill_sums fills q n lo hi :
  let '(q', n', _, _) := fold_left sum_fill fills (q, n, lo, hi) in
  dval q' == dval q + qsum (amounts fills) /\ dval n' == dval n + qsum (values fills).
Proof.
  revert q n lo hi. induction fills as [|f fills IH]; intros q n lo hi; simpl.
  - by rewrite !Qplus_0_r.
  - specialize (IH (dadd q (trade_amount f)) (dadd n (dmul (trade_price f) (trade_amount f)))
                  (dmin lo (trade_price f)) (dmax hi (trade_price f))).
    destruct (fold_left _ _ _) as [[[q' n'] lo'] hi']. destruct IH as [-> ->].
    rewrite !dval_add, dval_mul. split; ring.
Qed.

(** The extremes bound the fills and are attained, or are the initial values. *)
Lemma sum_fill_extremes fills q n lo hi :
  let '(_, _, lo', hi') := fold_left sum_fill fills (q, n, lo, hi) in
  dval lo' <= dval lo /\ dval hi <= dval hi' /\
  Forall (fun f => dval lo' <= dval (trade_price f) <= dval hi') fills /\
  (lo' = lo \/ exists f, f ∈ fills /\ lo' = trade_price f) /\
  (hi' = hi \/ exists f, f ∈ fills /\ hi' = trade_price f).
Proof.
  revert q n lo hi. induction fills as [|f fills IH]; intros q n lo hi; cbn [fold_left].
  - split_and!; [apply Qle_refl|apply Qle_refl|constructor|by left|by left].
  - unfold sum_fill at 2.
    specialize (IH (dadd q (trade_amount f)) (dadd n (dmul (trade_price f) (trade_amount f)))
                  (dmin lo (trade_price f)) (dmax hi (trade_price f))).
    destruct (fold_left _ _ _) as [[[q' n'] lo'] hi'].
    destruct IH as (Hlo & Hhi & Hf & Alo & Ahi).
    assert (dval lo' <= dval lo /\ dval lo' <= dval (trade_price f)) as [? ?].
    { destruct (dmin_cases lo (trade_price f)) as [[E ?]|[E ?]]; rewrite E in Hlo;
        split; eauto using Qle_trans. }
    assert (dval hi <= dval hi' /\ dval (trade_price f) <= dval hi') as [? ?].
    { destruct (dmax_cases hi (trade_price f)) as [[E ?]|[E ?]]; rewrite E in Hhi;
        split; eauto using Qle_trans. }
    split_and!; [done|done|by constructor| |].
    + destruct Alo as [->|(g & ? & ->)]; [|right; exists g; by split; [right|]].
      destruct (dmin_cases lo (trade_price f)) as [[-> ?]|[-> ?]]; [by left|].
      right; exists f; by split; [left|].
    + destruct Ahi as [->|(g & ? & ->)]; [|right; exists g; by split; [right|]].
      destruct (dmax_cases hi (trade_price f)) as [[-> ?]|[-> ?]]; [by left|].
      right; exists f; by split; [left|].
Qed.

Lemma values_between lo hi fills :
  Forall (fun f => lo <= dval (trade_price f) <= hi) fills ->
  Forall (fun f => 0 <= dval (trade_amount f)) fills ->
  lo * qsum (amounts fills) <= qsum (values fills) <= hi * qsum (amounts fills).
Proof.
  induction 1 as [|f fills [H1 H2] _ IH]; intros Ha; simpl.
  - rewrite !Qmult_0_r. split; apply Qle_refl.
  - apply Forall_cons in Ha as [H0 Ha]. destruct (IH Ha) as [I1 I2].
    pose proof (Qmult_le_compat_r _ _ _ H1 H0). pose proof (Qmult_le_compat_r _ _ _ H2 H0).
    split; lra.
Qed.
Definition one_taker (fills : list Trade) : Prop :=
  forall f g, f ∈ fills -> g ∈ fills ->
    trade_side f = trade_side g /\ trade_exchange f = trade_exchange g /\ trade_pair f = trade_pair g.

Lemma same_taker_true (first f : Trade) :
  same_taker first f = true <->
  trade_side f = trade_side first /\ trade_exchange f = trade_exchange first /\
  trade_pair f = trade_pair first.
Proof.
  unfold same_taker. rewrite !andb_true_iff, !bool_decide_eq_true, String.eqb_eq. tauto.
Qed.

Lemma one_taker_iff first rest :
  forallb (same_taker first) (first :: rest) = true <-> one_taker (first :: rest).
Proof.
  rewrite forallb_forall. setoid_rewrite same_taker_true. setoid_rewrite <- list_elem_of_In. split.
  - intros H f g Hf Hg. destruct (H f Hf) as (-> & -> & ->), (H g Hg) as (-> & -> & ->). done.
  - intros H f Hf. apply H; [done|left].
Qed.

(** The fills as the aggregate reports them. *)
Record summarizes (fills : list Trade) (a : TradeAggregate) : Prop := {
  sum_count : agg_n_fills a = length fills;
  sum_qty : dval (agg_qty a) == qsum (amounts fills);
  sum_notional : dval (agg_notional a) == qsum (values fills);
  sum_vwap : agg_vwap a = ddiv (agg_notional a) (agg_qty a);
  sum_range : Forall (fun f => dval (agg_px_min a) <= dval (trade_price f) <= dval (agg_px_max a)) fills;
  sum_min : exists f, f ∈ fills /\ agg_px_min a = trade_price f;
  sum_max : exists f, f ∈ fills /\ agg_px_max a = trade_price f;
  sum_ends : exists f g, head fills = Some f /\ list.last fills = Some g /\
    agg_px_first a = trade_price f /\ agg_id_first a = trade_id f /\
    agg_px_last a = trade_price g /\ agg_id_last a = trade_id g /\
    dval (agg_sweep_depth a) == Qabs (dval (trade_price g) - dval (trade_price f));
  sum_taker : Forall (fun f => agg_side a = trade_side f /\ agg_exchange a = trade_exchange f /\
                               agg_pair a = trade_pair f) fills
}.

Lemma from_fills_ok first rest b w sr oe :
  w <> 0%N -> one_taker (first :: rest) -> 0 < qsum (amounts (first :: rest)) ->
  exists a, from_fills (first :: rest) b w sr oe = Ok a /\ summarizes (first :: rest) a.
Proof.
  intros Hw Ht Hq. apply N.eqb_neq in Hw. pose proof Ht as Ht'. apply one_taker_iff in Ht'.
  unfold from_fills. rewrite Hw, Ht'. cbn [negb].
  pose proof (sum_fill_sums (first :: rest) dzero dzero (trade_price first) (trade_price first)) as Hs.
  pose proof (sum_fill_extremes (first :: rest) dzero dzero (trade_price first) (trade_price first)) as He.
  destruct (fold_left sum_fill _ _) as [[[q n] lo] hi]. destruct Hs as [Eq En].
  rewrite dval_zero, Qplus_0_l in Eq, En. destruct He as (_ & _ & Hf & Hlo & Hhi).
  destruct (list.last (first :: rest)) as [g|] eqn:El; [|by apply last_None in El].
  destruct (dleb q dzero) eqn:Ez.
  { apply dleb_le in Ez. rewrite Eq, dval_zero in Ez. by apply Qle_not_lt in Ez. }
  eexists. split; [done|].
  split; cbn [agg_n_fills agg_qty agg_notional agg_vwap agg_px_min agg_px_max agg_px_first
              agg_id_first agg_px_last agg_id_last agg_sweep_depth agg_side agg_exchange agg_pair];
    [done|done|done|done|done| | | |].
  - destruct Hlo as [->|?]; [|done]. exists first. by split; [left|].
  - destruct Hhi as [->|?]; [|done]. exists first. by split; [left|].
  - exists first, g. split_and!; try done. simpl. by rewrite dval_abs, dval_sub.
  - apply Forall_forall. intros f Hin. by apply (Ht first f); [left|].
Qed.

(** Fills reduce to an aggregate exactly when there are some, the bucket has a width, they
    share side, exchange and pair, and their amounts add up to something; the aggregate then has
    their exact total quantity and value, its extremes are the tightest bounds of their prices, the
    ends and the depth of the sweep are those of the first and last fill with the depth within the
    extremes, and for non-negative amounts the value lies between quantity at the lowest and at the
    highest price. *)
Theorem aggregate_summarizes (fills : list Trade) (b w : N) sr oe :
  (is_ok (from_fills fills b w sr oe) = true <->
   fills <> [] /\ w <> 0%N /\ one_taker fills /\ 0 < qsum (amounts fills)) /\
  (forall a, from_fills fills b w sr oe = Ok a ->
   summarizes fills a /\ 0 < dval (agg_qty a) /\
   dval (agg_sweep_depth a) <= dval (agg_px_max a) - dval (agg_px_min a) /\
   (Forall (fun f => 0 <= dval (trade_amount f)) fills ->
    dval (agg_px_min a) * dval (agg_qty a) <= dval (agg_notional a) <=
    dval (agg_px_max a) * dval (agg_qty a))).
Proof.
  assert (forall a, from_fills fills b w sr oe = Ok a ->
          fills <> [] /\ w <> 0%N /\ one_taker fills /\ 0 < qsum (amounts fills)) as Hok.
  { intros a. destruct fills as [|first rest]; [done|]. unfold from_fills.
    case_match eqn:Ew; [done|]. apply N.eqb_neq in Ew.
    case_match eqn:Et; [done|]. apply negb_false_iff, one_taker_iff in Et.
    pose proof (sum_fill_sums (first :: rest) dzero dzero (trade_price first) (trade_price first)) as Hs.
    destruct (fold_left sum_fill _ _) as [[[q n] lo] hi]. destruct Hs as [Eq _].
    rewrite dval_zero, Qplus_0_l in Eq. case_match eqn:Ez; [done|]. intros _.
    apply dleb_gt in Ez. rewrite Eq, dval_zero in Ez. done. }
  split; [split|].
  - destruct (from_fills _ _ _ _ _) as [a|e]; [|done]. intros _. by apply (Hok a).
  - intros (Hne & Hw & Ht & Hq). destruct fills as [|first rest]; [done|].
    by destruct (from_fills_ok first rest b w sr oe Hw Ht Hq) as (a & -> & _).
  - intros a Ea. destruct (Hok a Ea) as (Hne & Hw & Ht & Hq). destruct fills as [|first rest]; [done|].
    destruct (from_fills_ok first rest b w sr oe Hw Ht Hq) as (a' & Ea' & Hs).
    replace a' with a in Hs by congruence. split; [done|]. pose proof Hs as [? Hqt Hn ? Hr _ _ Hends _].
    split; [by rewrite Hqt|]. split; [|intros Ha; rewrite Hqt, Hn; by apply values_between].
    destruct Hends as (f & g & Hf & Hg & _ & _ & _ & _ & ->).
    rewrite Forall_forall in Hr.
    destruct (Hr f) as [? ?]; [by injection Hf as ->; left|].
    destruct (Hr g) as [? ?]; [by apply last_Some_elem_of|].
    apply Qabs_Qle_condition. split; lra.
Qed.
End AggregateProps.

(** ** Examples *)

Local Existing Instance decimal_numeric.

Definition ex_fill (id : string) (price : Z) (scale : nat) : Trade :=
  {| source_trade_ts_us := 1700000000000000; local_trade_ts_us := 0; source_trade_rtt_us := 0;
     trade_pair := {| base := "BTC"; quote := "USDT" |}; trade_side := Buy;
     trade_amount := Decimal 5 1; trade_price := Decimal price scale;
     trade_exchange := "binance"; trade_id := id; trade_origin := Ws |}.

Example dedup_counts_conflicts :
  (dedup_by_identity [ex_fill "1" 100 0; ex_fill "2" 100 0; ex_fill "1" 1000 1; ex_fill "2" 101 0]).2
  = {| removed := 2; conflicts := 1 |}.
Proof. vm_compute. reflexivity. Qed.

Lemma aggregate_summarizes_witness :
  is_ok (from_fills [ex_fill "1" 100 0; ex_fill "2" 1015 1] 0 1000 Swept NumericId) = true.
Proof.
  refine (proj2 (proj1 (aggregate_summarizes _ 0 1000 Swept NumericId)) _).
  split_and!; [done|done| |done]. apply one_taker_iff. reflexivity.
Defined.
