(* ===== verification/Delta.v ===== *)
(** * The incremental order book

    [src/aetelier-types/src/orderbooks/delta.rs] (with the result types of
    [target.rs] and the snapshot record of [persist.rs]).  [OrderbookDelta] keeps
    both sides of a book in maps from price to size; [process] applies a snapshot
    or a delta of decimal strings.  An operation returns the updated book next to
    its result, because a parse error in the middle of a frame leaves the levels
    before it applied. *)

From Stdlib Require Import QArith Lqa.
From S2P Require Import Prelude BTree Strings Numeric Pairs Types.
Local Open Scope nat_scope.

(** ** Data *)

Record L3Order := {
  order_id : string;
  l3_is_ask : bool;
  l3_price : string;
  l3_size : string;
  removed : bool
}.

Record NormalizedDelta := {
  symbol : string;
  nd_bids : list (string * string);
  nd_asks : list (string * string);
  update_id : N;
  nd_sequence : N;
  source_orderbook_ts_us : N;
  local_orderbook_ts_us : N;
  source_orderbook_rtt_us : N;
  checksum : option Z;
  orders : list L3Order;
  is_snapshot : bool
}.

Inductive OrderbookUpdateType := UpdateSnapshot | UpdateDelta.

Record OrderbookUpdate := {
  update_type : OrderbookUpdateType;
  bids_modified : nat;
  asks_modified : nat;
  levels_deleted : nat;
  levels_inserted : nat;
  was_reset : bool
}.

Section OrderbookDelta.
Context {NU : Numeric}.

Record OrderbookDelta := {
  bids : btree Dec Dec;
  asks : btree Dec Dec;
  last_update_id : N;
  sequence : N;
  pair : TradingPair;
  exchange : string;
  initialized : bool;
  delta_count : N;
  max_depth : option nat
}.

Record OrderbookSnapshot := {
  os_timestamp_us : N;
  os_pair : TradingPair;
  os_update_id : N;
  os_sequence : N;
  os_delta_count : N;
  os_bid_depth : nat;
  os_ask_depth : nat;
  os_mid_price : option string;
  os_spread : option string;
  os_spread_bps : option string;
  os_volume_imbalance : option string;
  os_total_bid_volume : string;
  os_total_ask_volume : string;
  os_bids : list (string * string);
  os_asks : list (string * string)
}.

(** ** Construction *)

Definition OrderbookDelta_new (p : TradingPair) : OrderbookDelta := {|
  bids := []; asks := []; last_update_id := 0; sequence := 0; pair := p;
  exchange := ""; initialized := false; delta_count := 0; max_depth := None
|}.

Definition with_max_depth (depth : option nat) (b : OrderbookDelta) : OrderbookDelta := {|
  bids := bids b; asks := asks b; last_update_id := last_update_id b;
  sequence := sequence b; pair := pair b; exchange := exchange b;
  initialized := initialized b; delta_count := delta_count b; max_depth := depth
|}.

(** The two sides, replaced. *)
Definition with_sides (bs az : btree Dec Dec) (b : OrderbookDelta) : OrderbookDelta := {|
  bids := bs; asks := az; last_update_id := last_update_id b;
  sequence := sequence b; pair := pair b; exchange := exchange b;
  initialized := initialized b; delta_count := delta_count b; max_depth := max_depth b
|}.

(** The sequencing fields, replaced. *)
Definition with_ids (uid sq : N) (init : bool) (count : N) (b : OrderbookDelta)
    : OrderbookDelta := {|
  bids := bids b; asks := asks b; last_update_id := uid;
  sequence := sq; pair := pair b; exchange := exchange b;
  initialized := init; delta_count := count; max_depth := max_depth b
|}.

Definition from_maps (p : TradingPair) (e : string) (bs az : btree Dec Dec)
    : OrderbookDelta := {|
  bids := bs; asks := az; last_update_id := 0; sequence := 0; pair := p;
  exchange := e; initialized := (0 <? length bs) || (0 <? length az);
  delta_count := 0; max_depth := None
|}.

Definition from_snapshot (p : TradingPair) (e : string) (bs az : btree Dec Dec)
    (uid sq count : N) : OrderbookDelta := {|
  bids := bs; asks := az; last_update_id := uid; sequence := sq; pair := p;
  exchange := e; initialized := (0 <? length bs) || (0 <? length az);
  delta_count := count; max_depth := None
|}.

Definition from_levels (p : TradingPair) (e : string) (bs az : list (Dec * Dec))
    : OrderbookDelta := from_maps p e (bt_collect bs) (bt_collect az).

(** ** Applying frames *)

Definition parse_decimal (s : string) : Result Dec OrderbookError :=
  map_err ParseError (dparse s).

(** [prune_to_depth]: the lowest bids and the highest asks go. *)
Definition prune_to_depth (b : OrderbookDelta) : OrderbookDelta :=
  match max_depth b with
  | None => b
  | Some max =>
    with_sides (pop_front_to max (bids b))
               (pop_back_to (length (asks b)) max (asks b)) b
  end.

(** The changed side, whether a level was deleted, whether one was inserted. *)
Definition apply_level (side : btree Dec Dec) (price size : Dec)
    : btree Dec Dec * (bool * bool) :=
  if deqb size dzero then
    let existed := match bt_get price side with Some _ => true | None => false end in
    (bt_remove price side, (existed, false))
  else
    match bt_get price side with
    | Some _ => (bt_insert price size side, (false, false))
    | None => (bt_insert price size side, (false, true))
    end.

(** One side of [apply_snapshot]: the loop, with the count of kept levels. *)
Fixpoint snapshot_levels (levels : list (string * string)) (side : btree Dec Dec)
    (modified : nat) : btree Dec Dec * Result nat OrderbookError :=
  match levels with
  | [] => (side, Ok modified)
  | (price_str, size_str) :: levels' =>
    match parse_decimal price_str, parse_decimal size_str with
    | Err e, _ => (side, Err e)
    | Ok _, Err e => (side, Err e)
    | Ok price, Ok size =>
      if dltb dzero size
      then snapshot_levels levels' (bt_insert price size side) (S modified)
      else snapshot_levels levels' side modified
    end
  end.

Definition apply_snapshot (d : NormalizedDelta) (b : OrderbookDelta)
    : OrderbookDelta * Result OrderbookUpdate OrderbookError :=
  let '(bs, rb) := snapshot_levels (nd_bids d) [] 0 in
  match rb with
  | Err e => (with_sides bs [] b, Err e)
  | Ok bids_modified =>
    let '(az, ra) := snapshot_levels (nd_asks d) [] 0 in
    match ra with
    | Err e => (with_sides bs az b, Err e)
    | Ok asks_modified =>
      let b := with_sides bs az b in
      let b := with_ids (update_id d) (nd_sequence d) true 0 b in
      (prune_to_depth b,
       Ok {| update_type := UpdateSnapshot;
             bids_modified := bids_modified;
             asks_modified := asks_modified;
             levels_deleted := 0;
             levels_inserted := bids_modified + asks_modified;
             was_reset := true |})
    end
  end.

(** Levels modified, deleted, inserted. *)
Record level_counts := { n_modified : nat; n_deleted : nat; n_inserted : nat }.

Definition count_level (deleted inserted : bool) (c : level_counts) : level_counts := {|
  n_modified := S (n_modified c);
  n_deleted := n_deleted c + Nat.b2n deleted;
  n_inserted := n_inserted c + Nat.b2n inserted
|}.

(** One side of [apply_delta]. *)
Fixpoint delta_levels (levels : list (string * string)) (side : btree Dec Dec)
    (c : level_counts) : btree Dec Dec * Result level_counts OrderbookError :=
  match levels with
  | [] => (side, Ok c)
  | (price_str, size_str) :: levels' =>
    match parse_decimal price_str, parse_decimal size_str with
    | Err e, _ => (side, Err e)
    | Ok _, Err e => (side, Err e)
    | Ok price, Ok size =>
      let '(side', (deleted, inserted)) := apply_level side price size in
      delta_levels levels' side' (count_level deleted inserted c)
    end
  end.

Definition apply_delta (d : NormalizedDelta) (b : OrderbookDelta)
    : OrderbookDelta * Result OrderbookUpdate OrderbookError :=
  if negb (initialized b) then (b, Err NotInitialized)
  else
    let c0 := {| n_modified := 0; n_deleted := 0; n_inserted := 0 |} in
    let '(bs, rb) := delta_levels (nd_bids d) (bids b) c0 in
    match rb with
    | Err e => (with_sides bs (asks b) b, Err e)
    | Ok cb =>
      let '(az, ra) := delta_levels (nd_asks d) (asks b) c0 in
      match ra with
      | Err e => (with_sides bs az b, Err e)
      | Ok ca =>
        let b := with_sides bs az b in
        let b := with_ids (update_id d) (nd_sequence d) (initialized b)
                          (u64_add (delta_count b) 1) b in
        (prune_to_depth b,
         Ok {| update_type := UpdateDelta;
               bids_modified := n_modified cb;
               asks_modified := n_modified ca;
               levels_deleted := n_deleted cb + n_deleted ca;
               levels_inserted := n_inserted cb + n_inserted ca;
               was_reset := false |})
      end
    end.

Definition process (d : NormalizedDelta) (b : OrderbookDelta)
    : OrderbookDelta * Result OrderbookUpdate OrderbookError :=
  let apply := if is_snapshot d then apply_snapshot d b else apply_delta d b in
  match TradingPair_from_str (symbol d) with
  | Ok delta_pair =>
    if bool_decide (delta_pair = pair b) then apply
    else (b, Err (SymbolMismatch (to_canonical (pair b)) (symbol d)))
  | Err _ => apply
  end.

(** ** Accessors *)

Definition best_bid (b : OrderbookDelta) : option (Dec * Dec) := bt_last (bids b).
Definition best_ask (b : OrderbookDelta) : option (Dec * Dec) := bt_first (asks b).

Definition bbo (b : OrderbookDelta) : option (Dec * Dec * Dec * Dec) :=
  match best_bid b, best_ask b with
  | Some (bp, bs), Some (ap, az) => Some (bp, bs, ap, az)
  | _, _ => None
  end.

Definition mid_price (b : OrderbookDelta) : option Dec :=
  match best_bid b, best_ask b with
  | Some (bid, _), Some (ask, _) => Some (ddiv (dadd bid ask) (dfrom 2))
  | _, _ => None
  end.

Definition spread (b : OrderbookDelta) : option Dec :=
  match best_bid b, best_ask b with
  | Some (bid, _), Some (ask, _) => Some (dsub ask bid)
  | _, _ => None
  end.

Definition spread_bps (b : OrderbookDelta) : option Dec :=
  match spread b, mid_price b with
  | Some spread, Some mid =>
    if dltb dzero mid then Some (dmul (ddiv spread mid) (dfrom 10000)) else None
  | _, _ => None
  end.

Definition bid_depth (b : OrderbookDelta) : nat := length (bids b).
Definition ask_depth (b : OrderbookDelta) : nat := length (asks b).

Definition total_bid_volume (b : OrderbookDelta) : Dec := dsum (map snd (bids b)).
Definition total_ask_volume (b : OrderbookDelta) : Dec := dsum (map snd (asks b)).

Definition volume_imbalance (b : OrderbookDelta) : option Dec :=
  let bid_vol := total_bid_volume b in
  let ask_vol := total_ask_volume b in
  let total := dadd bid_vol ask_vol in
  if dltb dzero total then Some (ddiv (dsub bid_vol ask_vol) total) else None.

Definition top_bids (n : nat) (b : OrderbookDelta) : list (Dec * Dec) :=
  take n (rev (bids b)).
Definition top_asks (n : nat) (b : OrderbookDelta) : list (Dec * Dec) :=
  take n (asks b).

Definition bid_volume_within (depth : Dec) (b : OrderbookDelta) : Dec :=
  match best_bid b with
  | None => dzero
  | Some (best, _) => dsum (map snd (bt_from (dsub best depth) (bids b)))
  end.

Definition ask_volume_within (depth : Dec) (b : OrderbookDelta) : Dec :=
  match best_ask b with
  | None => dzero
  | Some (best, _) => dsum (map snd (bt_upto (dadd best depth) (asks b)))
  end.

Definition show_level (l : Dec * Dec) : string * string := (dshow l.1, dshow l.2).

(** [now] is the capture time. *)
Definition produce_snapshot (now : N) (b : OrderbookDelta) : OrderbookSnapshot := {|
  os_timestamp_us := now;
  os_pair := pair b;
  os_update_id := last_update_id b;
  os_sequence := sequence b;
  os_delta_count := delta_count b;
  os_bid_depth := bid_depth b;
  os_ask_depth := ask_depth b;
  os_mid_price := option_map (fun d => dshow (dround 8 d)) (mid_price b);
  os_spread := option_map (fun d => dshow (dround 8 d)) (spread b);
  os_spread_bps := option_map (fun d => dshow (dround 4 d)) (spread_bps b);
  os_volume_imbalance := option_map (fun d => dshow (dround 6 d)) (volume_imbalance b);
  os_total_bid_volume := dshow (dround 8 (total_bid_volume b));
  os_total_ask_volume := dshow (dround 8 (total_ask_volume b));
  os_bids := map show_level (top_bids (bid_depth b) b);
  os_asks := map show_level (top_asks (ask_depth b) b)
|}.
End OrderbookDelta.

(** ** Specification *)

Section Spec.
Context {NU : Numeric}.

(** The numeric levels of a frame, when every string parses. *)
Fixpoint parse_levels (levels : list (string * string)) : option (list (Dec * Dec)) :=
  match levels with
  | [] => Some []
  | (p, s) :: levels' =>
    match parse_decimal p, parse_decimal s, parse_levels levels' with
    | Ok price, Ok size, Some l => Some ((price, size) :: l)
    | _, _, _ => None
    end
  end.

(** The size the last update at price [k] carries. *)
Fixpoint last_size (k : Dec) (l : list (Dec * Dec)) : option Dec :=
  match l with
  | [] => None
  | (p, s) :: l' =>
    match last_size k l' with
    | Some s' => Some s'
    | None => if deqb p k then Some s else None
    end
  end.

(** What a delta makes of the size at price [k]: the last update wins, and a zero
    size clears the level. *)
Definition updated_size (l : list (Dec * Dec)) (old : Dec -> option Dec) (k : Dec)
    : option Dec :=
  match last_size k l with
  | Some s => if deqb s dzero then None else Some s
  | None => old k
  end.

Definition positive_levels (l : list (Dec * Dec)) : list (Dec * Dec) :=
  List.filter (fun x => dltb dzero x.2) l.

(** [kept] is the best [depth] levels of [full] (all of it without a cap). *)
Definition best_bids_of (depth : option nat) (full : btree Dec Dec) : btree Dec Dec :=
  match depth with None => full | Some n => drop (length full - n) full end.
Definition best_asks_of (depth : option nat) (full : btree Dec Dec) : btree Dec Dec :=
  match depth with None => full | Some n => take n full end.

(** Sides sorted by price, no empty level. *)
Record book_ok (b : OrderbookDelta) : Prop := {
  book_bids_wf : bt_wf (bids b);
  book_asks_wf : bt_wf (asks b);
  book_bids_nonzero : Forall (fun e => deqb e.2 dzero = false) (bids b);
  book_asks_nonzero : Forall (fun e => deqb e.2 dzero = false) (asks b)
}.

Definition book_bounded (b : OrderbookDelta) : Prop :=
  match max_depth b with
  | None => True
  | Some n => length (bids b) <= n /\ length (asks b) <= n
  end.

(** The [let (Some(bid), Some(ask)) && bid >= ask] test of the callers. *)
Definition crossed (b : OrderbookDelta) : bool :=
  match best_bid b, best_ask b with
  | Some (bid, _), Some (ask, _) => dleb ask bid
  | _, _ => false
  end.
End Spec.

(** ** Lemmas *)

Section Lemmas.
Context {NU : Numeric} {NL : NumericLaws NU}.
Implicit Types (b : OrderbookDelta) (d : NormalizedDelta) (side : btree Dec Dec).

Lemma key_eq_deqb a k : key_eq a k <-> deqb a k = true.
Proof. rewrite key_eq_val, deqb_eq. done. Qed.

Lemma cmp_deqb (A : Type) (x y : A) (a k : Dec) :
  match cmp a k with Eq => x | _ => y end = if deqb a k then x else y.
Proof. unfold cmp, Dec_cmp, deqb. by destruct (dcmp a k). Qed.

(** *** One level *)

Lemma apply_level_wf side price size : bt_wf side -> bt_wf (apply_level side price size).1.
Proof. unfold apply_level. intros. crush_match; simpl; [by apply bt_remove_wf|by apply bt_insert_wf..]. Qed.

Lemma apply_level_get side price size k :
  bt_wf side ->
  bt_get k (apply_level side price size).1 =
  updated_size [(price, size)] (fun k => bt_get k side) k.
Proof.
  intros Hwf. unfold updated_size, apply_level. simpl.
  destruct (deqb size dzero) eqn:Ez; simpl.
  - rewrite bt_get_remove, cmp_deqb by done. destruct (deqb price k); by rewrite ?Ez.
  - assert (bt_get k (bt_insert price size side) =
            if deqb price k then Some size else bt_get k side) as E.
    { by rewrite bt_get_insert, cmp_deqb. }
    destruct (bt_get price side); simpl; rewrite E; destruct (deqb price k); by rewrite ?Ez.
Qed.

Lemma apply_level_nonzero side price size :
  Forall (fun e => deqb e.2 dzero = false) side ->
  Forall (fun e => deqb e.2 dzero = false) (apply_level side price size).1.
Proof.
  intros Hs. unfold apply_level. destruct (deqb size dzero) eqn:Ez; simpl.
  - by apply Forall_bt_remove.
  - case_match; simpl; by apply Forall_bt_insert.
Qed.

Lemma apply_level_count side price size :
  let '(side', (deleted, inserted)) := apply_level side price size in
  length side' + Nat.b2n deleted = length side + Nat.b2n inserted.
Proof.
  unfold apply_level. destruct (deqb size dzero) eqn:Ez.
  - rewrite length_bt_remove. destruct (bt_get price side) eqn:E; simpl; [|lia].
    destruct side; simpl in *; [done|lia].
  - destruct (bt_get price side) eqn:E; rewrite length_bt_insert, E; simpl; lia.
Qed.

(** *** The loop of a delta *)

Definition apply_levels (side : btree Dec Dec) (l : list (Dec * Dec)) : btree Dec Dec :=
  fold_left (fun s e => (apply_level s e.1 e.2).1) l side.

Lemma last_size_cons k p s l :
  last_size k ((p, s) :: l) =
  match last_size k l with
  | Some s' => Some s'
  | None => last_size k [(p, s)]
  end.
Proof. done. Qed.

Lemma apply_levels_get side l k :
  bt_wf side ->
  bt_get k (apply_levels side l) = updated_size l (fun k => bt_get k side) k.
Proof.
  revert side. induction l as [|[p s] l IH]; intros side Hwf; [done|].
  unfold apply_levels; cbn [fold_left]. change (fold_left _ l ?x) with (apply_levels x l).
  rewrite IH by by apply apply_level_wf. unfold updated_size.
  rewrite last_size_cons. destruct (last_size k l); [done|].
  by rewrite apply_level_get.
Qed.

Lemma apply_levels_wf side l : bt_wf side -> bt_wf (apply_levels side l).
Proof.
  revert side. induction l as [|e l IH]; intros side Hwf; [done|].
  apply IH. by apply apply_level_wf.
Qed.

(** A frame that parses runs through; the counters record what happened. *)
Lemma delta_levels_parsed levels l side c :
  parse_levels levels = Some l ->
  exists c', delta_levels levels side c = (apply_levels side l, Ok c') /\
    n_modified c' = n_modified c + length levels /\
    length (apply_levels side l) + n_deleted c' + n_inserted c =
    length side + n_inserted c' + n_deleted c.
Proof.
  revert l side c. induction levels as [|[p s] levels IH]; intros l side c Hl; simpl in Hl.
  { simplify_eq. exists c. simpl. split_and!; [done|lia|lia]. }
  destruct (parse_decimal p) as [price|] eqn:Ep; [|done].
  destruct (parse_decimal s) as [size|] eqn:Es; [|done].
  destruct (parse_levels levels) as [l'|]; [|done]. simplify_eq. cbn [delta_levels].
  rewrite Ep, Es. pose proof (apply_level_count side price size) as Hc.
  destruct (apply_level side price size) as [side' [del ins]] eqn:Ea.
  destruct (IH l' side' (count_level del ins c)) as (c' & -> & Hm & Hn); [done|].
  unfold apply_levels in *; cbn [fold_left fst snd]. rewrite Ea. cbn [fst].
  exists c'. simpl in *. split_and!; [done|lia|lia].
Qed.

(** It runs through only if everything parses. *)
Lemma delta_levels_ok levels side c side' c' :
  delta_levels levels side c = (side', Ok c') -> exists l, parse_levels levels = Some l.
Proof.
  revert side c. induction levels as [|[p s] levels IH]; intros side c; simpl; [eauto|].
  destruct (parse_decimal p) as [price|] eqn:Ep; [|done].
  destruct (parse_decimal s) as [size|] eqn:Es; [|done].
  destruct (apply_level side price size) as [side1 [del ins]].
  intros [l ->]%IH. eauto.
Qed.

(** Whatever the outcome, sides stay sorted and without empty levels. *)
Lemma delta_levels_inv levels side c :
  bt_wf side -> Forall (fun e => deqb e.2 dzero = false) side ->
  bt_wf (delta_levels levels side c).1 /\
  Forall (fun e => deqb e.2 dzero = false) (delta_levels levels side c).1.
Proof.
  revert side c. induction levels as [|[p s] levels IH]; intros side c Hwf Hnz; simpl; [done|].
  destruct (parse_decimal p) as [price|]; [|done].
  destruct (parse_decimal s) as [size|]; [|done].
  pose proof (apply_level_wf side price size Hwf).
  pose proof (apply_level_nonzero side price size Hnz).
  destruct (apply_level side price size) as [side1 [del ins]]. by apply IH.
Qed.

(** *** The loop of a snapshot *)

Definition insert_levels (side : btree Dec Dec) (l : list (Dec * Dec)) : btree Dec Dec :=
  fold_left (fun s e => bt_insert e.1 e.2 s) l side.

Lemma snapshot_levels_parsed levels l side n :
  parse_levels levels = Some l ->
  snapshot_levels levels side n =
  (insert_levels side (positive_levels l), Ok (n + length (positive_levels l))).
Proof.
  revert l side n. induction levels as [|[p s] levels IH]; intros l side n Hl; simpl in Hl.
  { simplify_eq. simpl. by rewrite Nat.add_0_r. }
  destruct (parse_decimal p) as [price|] eqn:Ep; [|done].
  destruct (parse_decimal s) as [size|] eqn:Es; [|done].
  destruct (parse_levels levels) as [l'|]; [|done]. simplify_eq. cbn [snapshot_levels].
  rewrite Ep, Es. unfold positive_levels in *; cbn [List.filter snd].
  destruct (dltb dzero size); rewrite (IH l') by done; simpl; do 2 f_equal; lia.
Qed.

Lemma snapshot_levels_ok levels side n side' n' :
  snapshot_levels levels side n = (side', Ok n') -> exists l, parse_levels levels = Some l.
Proof.
  revert side n. induction levels as [|[p s] levels IH]; intros side n; simpl; [eauto|].
  destruct (parse_decimal p) as [price|] eqn:Ep; [|done].
  destruct (parse_decimal s) as [size|] eqn:Es; [|done].
  case_match; intros [l ->]%IH; eauto.
Qed.

Lemma dltb_nonzero s : dltb dzero s = true -> deqb s dzero = false.
Proof.
  rewrite dltb_lt, deqb_neq. intros Hlt E. rewrite E in Hlt.
  by apply Qlt_irrefl in Hlt.
Qed.

Lemma snapshot_levels_inv levels side n :
  bt_wf side -> Forall (fun e => deqb e.2 dzero = false) side ->
  bt_wf (snapshot_levels levels side n).1 /\
  Forall (fun e => deqb e.2 dzero = false) (snapshot_levels levels side n).1.
Proof.
  revert side n. induction levels as [|[p s] levels IH]; intros side n Hwf Hnz; simpl; [done|].
  destruct (parse_decimal p) as [price|]; [|done].
  destruct (parse_decimal s) as [size|]; [|done].
  destruct (dltb dzero size) eqn:Ez; apply IH; lib.
  apply Forall_bt_insert; [|done]. intros k' _. by apply dltb_nonzero.
Qed.

Lemma insert_levels_get side l k :
  bt_get k (insert_levels side l) =
  match last_size k l with Some s => Some s | None => bt_get k side end.
Proof.
  revert side. induction l as [|[p s] l IH]; intros side; [done|].
  unfold insert_levels; cbn [fold_left fst snd].
  change (fold_left _ l ?x) with (insert_levels x l). rewrite IH, last_size_cons.
  destruct (last_size k l); [done|]. simpl.
  rewrite bt_get_insert, cmp_deqb. by destruct (deqb p k).
Qed.

Lemma insert_levels_wf side l : bt_wf side -> bt_wf (insert_levels side l).
Proof.
  revert side. induction l as [|e l IH]; intros side Hwf; [done|].
  apply IH. lib.
Qed.

(** *** Pruning *)

Lemma prune_bids b : bids (prune_to_depth b) = best_bids_of (max_depth b) (bids b).
Proof.
  unfold prune_to_depth, best_bids_of. destruct (max_depth b); [|done]. simpl.
  apply pop_front_to_drop.
Qed.

Lemma prune_asks b : asks (prune_to_depth b) = best_asks_of (max_depth b) (asks b).
Proof.
  unfold prune_to_depth, best_asks_of. destruct (max_depth b); [|done]. simpl.
  apply pop_back_to_take. lia.
Qed.

Lemma prune_meta b :
  last_update_id (prune_to_depth b) = last_update_id b /\
  sequence (prune_to_depth b) = sequence b /\
  pair (prune_to_depth b) = pair b /\
  initialized (prune_to_depth b) = initialized b /\
  delta_count (prune_to_depth b) = delta_count b /\
  max_depth (prune_to_depth b) = max_depth b.
Proof. unfold prune_to_depth. by destruct (max_depth b) eqn:E. Qed.

Lemma best_bids_of_wf n side : bt_wf side -> bt_wf (best_bids_of n side).
Proof. destruct n; simpl; lib. Qed.
Lemma best_asks_of_wf n side : bt_wf side -> bt_wf (best_asks_of n side).
Proof. destruct n; simpl; lib. Qed.

Lemma prune_ok b : book_ok b -> book_ok (prune_to_depth b).
Proof.
  intros [Hb Ha Hbz Haz]. split; rewrite ?prune_bids, ?prune_asks.
  - by apply best_bids_of_wf.
  - by apply best_asks_of_wf.
  - destruct (max_depth b); simpl; [by apply Forall_drop|done].
  - destruct (max_depth b); simpl; [by apply Forall_take|done].
Qed.

Lemma prune_bounded b : book_bounded (prune_to_depth b).
Proof.
  unfold book_bounded. rewrite prune_bids, prune_asks.
  destruct (prune_meta b) as (_ & _ & _ & _ & _ & ->).
  destruct (max_depth b) as [n|]; [|done]. simpl.
  rewrite length_drop, length_take. lia.
Qed.

(** *** Frames *)

Definition pair_accepts (d : NormalizedDelta) (b : OrderbookDelta) : bool :=
  match TradingPair_from_str (symbol d) with
  | Ok p => bool_decide (p = pair b)
  | Err _ => true
  end.

Lemma process_eq d b :
  process d b =
  if pair_accepts d b then (if is_snapshot d then apply_snapshot d b else apply_delta d b)
  else (b, Err (SymbolMismatch (to_canonical (pair b)) (symbol d))).
Proof.
  unfold process, pair_accepts. destruct (TradingPair_from_str _); [|done].
  by case_bool_decide.
Qed.

Lemma apply_snapshot_parsed d b lb la :
  parse_levels (nd_bids d) = Some lb -> parse_levels (nd_asks d) = Some la ->
  apply_snapshot d b =
  (prune_to_depth (with_ids (update_id d) (nd_sequence d) true 0
     (with_sides (insert_levels [] (positive_levels lb))
                 (insert_levels [] (positive_levels la)) b)),
   Ok {| update_type := UpdateSnapshot;
         bids_modified := length (positive_levels lb);
         asks_modified := length (positive_levels la);
         levels_deleted := 0;
         levels_inserted := length (positive_levels lb) + length (positive_levels la);
         was_reset := true |}).
Proof.
  intros Hb Ha. unfold apply_snapshot.
  rewrite (snapshot_levels_parsed _ _ _ _ Hb). cbv beta iota zeta.
  by rewrite (snapshot_levels_parsed _ _ _ _ Ha).
Qed.

Lemma apply_snapshot_ok d b b' u :
  apply_snapshot d b = (b', Ok u) ->
  exists lb la, parse_levels (nd_bids d) = Some lb /\ parse_levels (nd_asks d) = Some la.
Proof.
  unfold apply_snapshot.
  destruct (snapshot_levels (nd_bids d) [] 0) as [bs [nb|]] eqn:Eb; [|done].
  destruct (snapshot_levels (nd_asks d) [] 0) as [az [na|]] eqn:Ea; [|done].
  apply snapshot_levels_ok in Eb as [lb ?]. apply snapshot_levels_ok in Ea as [la ?].
  eauto.
Qed.

Lemma apply_delta_parsed d b lb la :
  initialized b = true ->
  parse_levels (nd_bids d) = Some lb -> parse_levels (nd_asks d) = Some la ->
  exists u,
  apply_delta d b =
  (prune_to_depth (with_ids (update_id d) (nd_sequence d) true (u64_add (delta_count b) 1)
     (with_sides (apply_levels (bids b) lb) (apply_levels (asks b) la) b)), Ok u) /\
  update_type u = UpdateDelta /\ was_reset u = false /\
  bids_modified u = length (nd_bids d) /\ asks_modified u = length (nd_asks d) /\
  length (apply_levels (bids b) lb) + length (apply_levels (asks b) la) + levels_deleted u =
  length (bids b) + length (asks b) + levels_inserted u.
Proof.
  intros Hi Hb Ha. unfold apply_delta. rewrite Hi. simpl.
  set (c0 := {| n_modified := 0; n_deleted := 0; n_inserted := 0 |}).
  destruct (delta_levels_parsed _ _ (bids b) c0 Hb) as (cb & -> & Hbm & Hbn).
  destruct (delta_levels_parsed _ _ (asks b) c0 Ha) as (ca & -> & Ham & Han).
  eexists. split; [by rewrite ?Hi|]. simpl in *. split_and!; lia || done.
Qed.

Lemma apply_delta_ok d b b' u :
  apply_delta d b = (b', Ok u) ->
  initialized b = true /\
  exists lb la, parse_levels (nd_bids d) = Some lb /\ parse_levels (nd_asks d) = Some la.
Proof.
  unfold apply_delta. destruct (initialized b) eqn:Hi; simpl; [|done].
  destruct (delta_levels (nd_bids d) _ _) as [bs [nb|]] eqn:Eb; [|done].
  destruct (delta_levels (nd_asks d) _ _) as [az [na|]] eqn:Ea; [|done].
  apply delta_levels_ok in Eb as [lb ?]. apply delta_levels_ok in Ea as [la ?]. eauto.
Qed.

Lemma snapshot_levels_err levels side n s e :
  snapshot_levels levels side n = (s, Err e) -> exists m, e = ParseError m.
Proof.
  revert side n. induction levels as [|[p sz] levels IH]; intros side n; simpl; [done|].
  unfold parse_decimal.
  destruct (dparse p), (dparse sz); simpl; try (intros; simplify_eq; by eauto).
  case_match; eauto.
Qed.

Lemma delta_levels_err levels side c s e :
  delta_levels levels side c = (s, Err e) -> exists m, e = ParseError m.
Proof.
  revert side c. induction levels as [|[p sz] levels IH]; intros side c; simpl; [done|].
  unfold parse_decimal.
  destruct (dparse p), (dparse sz); simpl; try (intros; simplify_eq; by eauto).
  destruct (apply_level _ _ _) as [? []]. eauto.
Qed.

Lemma apply_snapshot_err d b b' e :
  apply_snapshot d b = (b', Err e) ->
  exists bs az m, b' = with_sides bs az b /\ e = ParseError m.
Proof.
  unfold apply_snapshot.
  destruct (snapshot_levels (nd_bids d) [] 0) as [bs [nb|e1]] eqn:Eb.
  - destruct (snapshot_levels (nd_asks d) [] 0) as [az [na|e2]] eqn:Ea; [done|].
    apply snapshot_levels_err in Ea as [m ->]. intros [= <- <-]. eauto.
  - apply snapshot_levels_err in Eb as [m ->]. intros [= <- <-]. eauto.
Qed.

Lemma apply_delta_err d b b' e :
  apply_delta d b = (b', Err e) ->
  (b' = b /\ e = NotInitialized) \/
  exists bs az m, b' = with_sides bs az b /\ e = ParseError m.
Proof.
  unfold apply_delta. destruct (initialized b); simpl; [|intros [= <- <-]; by left].
  destruct (delta_levels (nd_bids d) _ _) as [bs [nb|e1]] eqn:Eb.
  - destruct (delta_levels (nd_asks d) _ _) as [az [na|e2]] eqn:Ea; [done|].
    apply delta_levels_err in Ea as [m ->]. intros [= <- <-]. eauto 6.
  - apply delta_levels_err in Eb as [m ->]. intros [= <- <-]. eauto 6.
Qed.

Lemma process_ok_accepts d b b' u : process d b = (b', Ok u) -> pair_accepts d b = true.
Proof. rewrite process_eq. by destruct (pair_accepts d b). Qed.

(** The fields outside the sides after an accepted frame. *)
Lemma process_ok_meta d b b' u :
  process d b = (b', Ok u) ->
  last_update_id b' = update_id d /\ sequence b' = nd_sequence d /\
  initialized b' = true /\ pair b' = pair b /\ max_depth b' = max_depth b /\
  delta_count b' = (if is_snapshot d then 0 else u64_add (delta_count b) 1)%N.
Proof.
  intros Hp. pose proof (process_ok_accepts _ _ _ _ Hp) as Hacc.
  rewrite process_eq, Hacc in Hp. destruct (is_snapshot d).
  - destruct (apply_snapshot_ok _ _ _ _ Hp) as (lb & la & Hb & Ha).
    rewrite (apply_snapshot_parsed _ _ _ _ Hb Ha) in Hp. injection Hp as <- <-.
    match goal with |- context [prune_to_depth ?x] =>
      destruct (prune_meta x) as (-> & -> & -> & -> & -> & ->) end. done.
  - destruct (apply_delta_ok _ _ _ _ Hp) as (Hi & lb & la & Hb & Ha).
    destruct (apply_delta_parsed _ _ _ _ Hi Hb Ha) as (u' & E & _).
    rewrite E in Hp. injection Hp as <- <-.
    match goal with |- context [prune_to_depth ?x] =>
      destruct (prune_meta x) as (-> & -> & -> & -> & -> & ->) end. done.
Qed.

Lemma process_pair_depth d b :
  pair (process d b).1 = pair b /\ max_depth (process d b).1 = max_depth b.
Proof.
  destruct (process d b) as [b' [u|e]] eqn:Hp.
  { apply process_ok_meta in Hp. simpl. tauto. }
  rewrite process_eq in Hp. destruct (pair_accepts d b); [|by simplify_eq].
  destruct (is_snapshot d).
  - unfold apply_snapshot in Hp. crush_match; by simplify_eq.
  - unfold apply_delta in Hp. crush_match; by simplify_eq.
Qed.

Lemma with_ids_ok uid sq i c b : book_ok b -> book_ok (with_ids uid sq i c b).
Proof. by intros []. Qed.

Lemma apply_snapshot_inv d b : book_ok (apply_snapshot d b).1.
Proof.
  unfold apply_snapshot.
  pose proof (snapshot_levels_inv (nd_bids d) [] 0) as Hb.
  pose proof (snapshot_levels_inv (nd_asks d) [] 0) as Ha.
  destruct (snapshot_levels (nd_bids d) [] 0) as [bs [nb|]];
    destruct Hb as [Hb Hbz]; [by lib|done| |by lib|done|].
  - destruct (snapshot_levels (nd_asks d) [] 0) as [az [na|]];
      destruct Ha as [Ha Haz]; [by lib|done| |by lib|done|]; simpl.
    + by apply prune_ok.
    + done.
  - split; simpl; [done|constructor|done|constructor].
Qed.

Lemma apply_delta_inv d b : book_ok b -> book_ok (apply_delta d b).1.
Proof.
  intros Hok. destruct (Hok) as [Hb Ha Hbz Haz]. unfold apply_delta.
  destruct (initialized b); [|done]. simpl.
  set (c0 := {| n_modified := 0; n_deleted := 0; n_inserted := 0 |}).
  destruct (delta_levels_inv (nd_bids d) (bids b) c0 Hb Hbz) as [Hb' Hbz'].
  destruct (delta_levels_inv (nd_asks d) (asks b) c0 Ha Haz) as [Ha' Haz'].
  destruct (delta_levels (nd_bids d) _ _) as [bs [nb|]]; [|done].
  destruct (delta_levels (nd_asks d) _ _) as [az [na|]]; [|done].
  by apply prune_ok.
Qed.

Lemma process_inv d b : book_ok b -> book_ok (process d b).1.
Proof.
  intros Hok. rewrite process_eq. destruct (pair_accepts d b); [|done].
  destruct (is_snapshot d); [apply apply_snapshot_inv|by apply apply_delta_inv].
Qed.

Lemma process_all_inv ds b :
  book_ok b ->
  let b' := fold_left (fun b d => (process d b).1) ds b in
  book_ok b' /\ pair b' = pair b /\ max_depth b' = max_depth b.
Proof.
  revert b. induction ds as [|d ds IH]; intros b Hok; [done|]. cbn [fold_left].
  destruct (process_pair_depth d b) as [<- <-]. apply IH. by apply process_inv.
Qed.

Lemma with_max_depth_ok depth p : book_ok (with_max_depth depth (OrderbookDelta_new p)).
Proof. by repeat constructor. Qed.

Lemma OrderbookDelta_new_ok p : book_ok (OrderbookDelta_new p).
Proof. by repeat constructor. Qed.

Lemma process_ok_bounded d b b' u : process d b = (b', Ok u) -> book_bounded b'.
Proof.
  intros Hp. pose proof (process_ok_accepts _ _ _ _ Hp) as Hacc.
  rewrite process_eq, Hacc in Hp. destruct (is_snapshot d).
  - destruct (apply_snapshot_ok _ _ _ _ Hp) as (lb & la & Hb & Ha).
    rewrite (apply_snapshot_parsed _ _ _ _ Hb Ha) in Hp. injection Hp as <- <-.
    apply prune_bounded.
  - destruct (apply_delta_ok _ _ _ _ Hp) as (Hi & lb & la & Hb & Ha).
    destruct (apply_delta_parsed _ _ _ _ Hi Hb Ha) as (u' & E & _).
    rewrite E in Hp. injection Hp as <- <-. apply prune_bounded.
Qed.
End Lemmas.

(** ** Properties *)

Lemma last_drop {A} n (l : list A) : n < length l -> last (drop n l) = last l.
Proof.
  revert n. induction l as [|x l IH]; intros n Hn; simpl in Hn; [lia|].
  destruct n as [|n]; [done|]. cbn [drop]. rewrite IH by lia.
  destruct l; [simpl in *; lia|done].
Qed.

Section Properties.
Context {NU : Numeric} {NL : NumericLaws NU}.
Implicit Types (b : OrderbookDelta) (d : NormalizedDelta).

(** C37: An accepted delta updates the book by the last-update-wins rule: at every
    price the size of the last update in the frame replaces the old size (a zero
    clears the level), untouched prices keep theirs; of the result the best
    [max_depth] levels per side are kept.  The identifiers are the frame's, and the
    reported counters account exactly for the change in the number of levels. *)
Theorem process_delta_spec d b b' u :
  is_snapshot d = false -> bt_wf (bids b) -> bt_wf (asks b) ->
  process d b = (b', Ok u) ->
  exists lb la fb fa,
    parse_levels (nd_bids d) = Some lb /\ parse_levels (nd_asks d) = Some la /\
    bt_wf fb /\ bt_wf fa /\
    (forall k, bt_get k fb = updated_size lb (fun k => bt_get k (bids b)) k) /\
    (forall k, bt_get k fa = updated_size la (fun k => bt_get k (asks b)) k) /\
    bids b' = best_bids_of (max_depth b) fb /\
    asks b' = best_asks_of (max_depth b) fa /\
    last_update_id b' = update_id d /\ sequence b' = nd_sequence d /\
    delta_count b' = u64_add (delta_count b) 1 /\
    bids_modified u = length (nd_bids d) /\ asks_modified u = length (nd_asks d) /\
    length fb + length fa + levels_deleted u =
    length (bids b) + length (asks b) + levels_inserted u.
Proof.
  intros Hd Hwb Hwa Hp. destruct (process_ok_meta _ _ _ _ Hp) as (Hid & Hsq & _ & _ & _ & Hc).
  pose proof (process_ok_accepts _ _ _ _ Hp) as Hacc.
  rewrite process_eq, Hacc, Hd in Hp. rewrite Hd in Hc.
  destruct (apply_delta_ok _ _ _ _ Hp) as (Hi & lb & la & Hb & Ha).
  destruct (apply_delta_parsed _ _ _ _ Hi Hb Ha) as (u' & E & _ & _ & Hbm & Ham & Hn).
  rewrite E in Hp. injection Hp as <- <-.
  exists lb, la, (apply_levels (bids b) lb), (apply_levels (asks b) la).
  rewrite prune_bids, prune_asks.
  split_and!; auto using apply_levels_wf, apply_levels_get.
Qed.

(** An accepted snapshot resets the book: what it holds afterwards is a function
    of the frame alone (the last positive size at each price), whatever levels the
    book held before. *)
Theorem process_snapshot_spec d b b' u :
  is_snapshot d = true -> process d b = (b', Ok u) ->
  exists lb la fb fa,
    parse_levels (nd_bids d) = Some lb /\ parse_levels (nd_asks d) = Some la /\
    bt_wf fb /\ bt_wf fa /\
    (forall k, bt_get k fb = last_size k (positive_levels lb)) /\
    (forall k, bt_get k fa = last_size k (positive_levels la)) /\
    bids b' = best_bids_of (max_depth b) fb /\
    asks b' = best_asks_of (max_depth b) fa /\
    last_update_id b' = update_id d /\ sequence b' = nd_sequence d /\
    initialized b' = true /\ delta_count b' = 0%N /\ was_reset u = true.
Proof.
  intros Hd Hp. destruct (process_ok_meta _ _ _ _ Hp) as (Hid & Hsq & Hi & _ & _ & Hc).
  pose proof (process_ok_accepts _ _ _ _ Hp) as Hacc.
  rewrite process_eq, Hacc, Hd in Hp. rewrite Hd in Hc.
  destruct (apply_snapshot_ok _ _ _ _ Hp) as (lb & la & Hb & Ha).
  rewrite (apply_snapshot_parsed _ _ _ _ Hb Ha) in Hp. injection Hp as <- <-.
  exists lb, la, (insert_levels [] (positive_levels lb)), (insert_levels [] (positive_levels la)).
  rewrite prune_bids, prune_asks.
  split_and!; try done; try (apply insert_levels_wf; lib).
  - intros k. rewrite insert_levels_get. by destruct (last_size _ _).
  - intros k. rewrite insert_levels_get. by destruct (last_size _ _).
Qed.

(** Which frames are rejected, and why: a frame naming another pair, a delta
    before any snapshot, a level that does not parse; every other frame is
    accepted. *)
Theorem process_ok_iff d b :
  is_ok (process d b).2 = true <->
  pair_accepts d b = true /\ (is_snapshot d = true \/ initialized b = true) /\
  is_Some (parse_levels (nd_bids d)) /\ is_Some (parse_levels (nd_asks d)).
Proof.
  rewrite process_eq. destruct (pair_accepts d b); simpl;
    [|by split; [|intros (? & _)]].
  split.
  - destruct (is_snapshot d).
    + destruct (apply_snapshot d b) as [b' [u|]] eqn:E; [|done]. intros _.
      destruct (apply_snapshot_ok _ _ _ _ E) as (lb & la & -> & ->).
      split_and!; [done|by left|by eexists..].
    + destruct (apply_delta d b) as [b' [u|]] eqn:E; [|done]. intros _.
      destruct (apply_delta_ok _ _ _ _ E) as (Hi & lb & la & -> & ->).
      split_and!; [done|by right|by eexists..].
  - intros (_ & Hs & [lb Hb] & [la Ha]). destruct (is_snapshot d).
    + by rewrite (apply_snapshot_parsed _ _ _ _ Hb Ha).
    + destruct Hs as [?|Hi]; [done|].
      by destruct (apply_delta_parsed _ _ _ _ Hi Hb Ha) as (u & -> & _).
Qed.

(** A rejected frame never moves the sequencing fields; a frame rejected for its
    pair, or a delta before a snapshot, leaves the whole book as it was.  (A level
    that does not parse leaves the levels before it applied.) *)
Theorem process_error_frame d b b' e :
  process d b = (b', Err e) ->
  last_update_id b' = last_update_id b /\ sequence b' = sequence b /\
  initialized b' = initialized b /\ delta_count b' = delta_count b /\
  pair b' = pair b /\ max_depth b' = max_depth b /\
  match e with ParseError _ => True | _ => b' = b end.
Proof.
  rewrite process_eq. destruct (pair_accepts d b); [|by intros [= <- <-]].
  destruct (is_snapshot d); intros E.
  - by apply apply_snapshot_err in E as (bs & az & m & -> & ->).
  - by apply apply_delta_err in E as [[-> ->]|(bs & az & m & -> & ->)].
Qed.

(** Every reachable book is sorted on both sides and holds no empty level,
    whether frames are accepted or rejected; after an accepted frame each side is
    within [max_depth]. *)
Theorem process_invariant ds p depth :
  let b0 := with_max_depth depth (OrderbookDelta_new p) in
  let b := fold_left (fun b d => (process d b).1) ds b0 in
  book_ok b /\ pair b = p /\ max_depth b = depth /\
  (forall d, is_ok (process d b).2 = true -> book_bounded (process d b).1).
Proof.
  intros b0 b.
  destruct (process_all_inv ds b0) as (Hok & Hpair & Hdep); [apply with_max_depth_ok|].
  split_and!; [done..|]. intros d. destruct (process d b) as [b' [u|e]] eqn:E; [|done].
  intros _. by eapply process_ok_bounded.
Qed.

(** Pruning keeps the top of the book: a bid that was dropped is below every bid
    kept, a dropped ask above every ask kept, and as long as the cap is not zero
    the best bid and the best ask are unchanged. *)
Theorem prune_keeps_best b :
  bt_wf (bids b) -> bt_wf (asks b) ->
  (forall e e', e ∈ bids b -> e ∉ bids (prune_to_depth b) ->
     e' ∈ bids (prune_to_depth b) -> cmp e.1 e'.1 = Lt) /\
  (forall e e', e ∈ asks b -> e ∉ asks (prune_to_depth b) ->
     e' ∈ asks (prune_to_depth b) -> cmp e'.1 e.1 = Lt) /\
  (max_depth b <> Some 0 ->
     best_bid (prune_to_depth b) = best_bid b /\ best_ask (prune_to_depth b) = best_ask b).
Proof.
  intros Hb Ha. unfold best_bid, best_ask. rewrite prune_bids, prune_asks.
  unfold best_bids_of, best_asks_of. destruct (max_depth b) as [n|]; [|by split_and!].
  split_and!.
  - intros e e' He Hn He'. eapply bt_wf_split; [exact Hb| |exact He'].
    rewrite <- (take_drop (length (bids b) - n) (bids b)) in He.
    by apply elem_of_app in He as [?|?].
  - intros e e' He Hn He'. eapply bt_wf_split; [exact Ha|exact He'|].
    rewrite <- (take_drop n (asks b)) in He. by apply elem_of_app in He as [?|?].
  - intros Hn. assert (n <> 0) by congruence. split.
    + unfold bt_last. destruct (decide (bids b = [])) as [->|Hne]; [by rewrite drop_nil|].
      apply last_drop. destruct (bids b); [done|]. simpl. lia.
    + unfold bt_first. by destruct (asks b), n.
Qed.
End Properties.

(** *** Derived quantities *)

Section Quantities.
Context {NU : Numeric} {NL : NumericLaws NU} {NE : NumericExact NU NL} {ND : NumericDiv NU NL}.
Implicit Types (b : OrderbookDelta).
Local Open Scope Q_scope.

(** No size is negative: true of books built from snapshots; a delta may carry a
    negative size, which [apply_level] stores like any other. *)
Definition sizes_nonneg (side : btree Dec Dec) : Prop :=
  Forall (fun e => 0 <= dval e.2) side.

Lemma qsum_nonneg (l : list Q) : Forall (Qle 0) l -> 0 <= qsum l.
Proof.
  induction 1 as [|x l Hx Hl IH]; simpl; [done|]. lra.
Qed.

Lemma dsum_nonneg side : sizes_nonneg side -> 0 <= dval (dsum (map snd side)).
Proof.
  intros Hs. rewrite dval_sum. apply qsum_nonneg.
  rewrite !Forall_map. done.
Qed.

(** The volume imbalance lies in [-1, 1], as its documentation says, on every
    book without negative sizes; it is absent exactly when the book has no volume. *)
Theorem volume_imbalance_bounds b :
  sizes_nonneg (bids b) -> sizes_nonneg (asks b) ->
  match volume_imbalance b with
  | Some i => inject_Z (-1) <= dval i /\ dval i <= inject_Z 1
  | None => dval (total_bid_volume b) == 0 /\ dval (total_ask_volume b) == 0
  end.
Proof.
  intros Hb%dsum_nonneg Ha%dsum_nonneg. unfold volume_imbalance, total_bid_volume, total_ask_volume.
  set (vb := dsum (map snd (bids b))) in *. set (va := dsum (map snd (asks b))) in *.
  destruct (dltb dzero (dadd vb va)) eqn:Ht.
  - apply dltb_lt in Ht. rewrite dval_zero in Ht.
    pose proof (dval_add vb va). pose proof (dval_sub vb va).
    apply ddiv_bounds; [done|..]; unfold inject_Z; lra.
  - apply dltb_ge in Ht. rewrite dval_add, dval_zero in Ht. lra.
Qed.

(** On an uncrossed book with both sides the mid price lies strictly between the
    best bid and the best ask and the spread is positive. *)
Theorem mid_price_between b bid bs ask az :
  best_bid b = Some (bid, bs) -> best_ask b = Some (ask, az) -> crossed b = false ->
  exists mid sp, mid_price b = Some mid /\ spread b = Some sp /\
    dval bid < dval mid /\ dval mid < dval ask /\ 0 < dval sp.
Proof.
  unfold crossed, mid_price, spread. intros -> -> Hc%dleb_gt.
  assert (dval (ddiv (dadd bid ask) (dfrom 2)) * 2 == dval bid + dval ask) as Hm.
  { rewrite dval_half, dval_add. unfold inject_Z. field. }
  do 2 eexists. split_and!; [done..|lra|lra|]. rewrite dval_sub. lra.
Qed.
End Quantities.

(** *** Printing a book and reading it back *)

Section RoundTrip.
Context {NU : Numeric} {NL : NumericLaws NU} {NT : NumericText NU NL}.
Implicit Types (b : OrderbookDelta) (d : NormalizedDelta).

Definition same_val (x y : option Dec) : Prop :=
  option_Forall2 (fun a c => (dval a == dval c)%Q) x y.

Definition same_level (x y : Dec * Dec) : Prop :=
  (dval x.1 == dval y.1)%Q /\ (dval x.2 == dval y.2)%Q.

Lemma parse_levels_shown l :
  exists l', parse_levels (map show_level l) = Some l' /\ Forall2 same_level l' l.
Proof using NT.
  induction l as [|[p s] l (l' & IH & HF)]; simpl; [by exists []|].
  unfold parse_decimal.
  destruct (dparse_show p) as (p' & -> & Hp). destruct (dparse_show s) as (s' & -> & Hs).
  simpl. rewrite IH. eexists. split; [done|]. by constructor.
Qed.

Lemma deqb_val a a' k : (dval a == dval a')%Q -> deqb a k = deqb a' k.
Proof using NL.
  intros E. apply eq_bool_prop_intro. rewrite !Is_true_true, !deqb_eq. by rewrite E.
Qed.

Lemma last_size_same k l l' :
  Forall2 same_level l l' -> same_val (last_size k l) (last_size k l').
Proof using NL.
  induction 1 as [|[p s] [p' s'] l l' [Hp Hs] Hl IH]; simpl; [constructor|].
  destruct IH as [x y ?|]; [by constructor|].
  simpl in Hp, Hs. rewrite (deqb_val _ _ _ Hp). destruct (deqb p' k); by constructor.
Qed.

Lemma positive_levels_same l l' :
  Forall2 same_level l l' -> Forall2 same_level (positive_levels l) (positive_levels l').
Proof using NL.
  induction 1 as [|[p s] [p' s'] l l' Hx Hl IH]; simpl; [constructor|].
  unfold positive_levels in *; cbn [List.filter snd].
  assert (dltb dzero s = dltb dzero s') as ->.
  { destruct Hx as [_ Hs]. simpl in Hs. apply eq_bool_prop_intro.
    rewrite !Is_true_true, !dltb_lt. by rewrite Hs. }
  case_match; [by constructor|done].
Qed.

Lemma positive_levels_all l :
  Forall (fun e => dltb dzero e.2 = true) l -> positive_levels l = l.
Proof using.
  induction 1 as [|e l He Hl IH]; [done|].
  unfold positive_levels in *; cbn [List.filter]. by rewrite He, IH.
Qed.

Lemma last_size_None k l :
  last_size k l = None <-> forall e, e ∈ l -> deqb e.1 k = false.
Proof using.
  induction l as [|[p s] l IH]; simpl.
  { split; [|done]. intros _ e He. by apply not_elem_of_nil in He. }
  setoid_rewrite elem_of_cons. destruct (last_size k l) as [s'|].
  - split; [done|]. intros Hall. apply IH. intros e He. apply Hall. by right.
  - destruct (deqb p k) eqn:E.
    + split; [done|]. intros Hall. specialize (Hall (p, s) (or_introl eq_refl)).
      simpl in Hall. congruence.
    + split; [|done]. intros _ e [->|He]; [done|]. by apply IH.
Qed.

Lemma last_size_Some k l s : last_size k l = Some s -> exists p, (p, s) ∈ l /\ deqb p k = true.
Proof using.
  induction l as [|[p s'] l IH]; simpl; [done|]. destruct (last_size k l) as [x|].
  - intros [= ->]. destruct IH as (p' & ? & ?); [done|]. exists p'. split; [by right|done].
  - destruct (deqb p k) eqn:E; [|done]. intros [= ->]. exists p. split; [by left|done].
Qed.

(** The levels of a sorted side, in any order, give its sizes. *)
Lemma last_size_tree k l side :
  bt_wf side -> (forall e, e ∈ l <-> e ∈ side) -> last_size k l = bt_get k side.
Proof using NL.
  intros Hwf Heq. destruct (last_size k l) as [s|] eqn:E.
  - apply last_size_Some in E as (p & Hin & Hp). symmetry. apply bt_get_elem; [done|].
    exists p. split; [|by apply Heq].
    apply key_eq_equiv. by apply key_eq_deqb.
  - symmetry. destruct (bt_get k side) as [s|] eqn:E'; [|done].
    apply bt_get_elem in E' as (p & Hk & Hin); [|done].
    rewrite last_size_None in E. apply Heq in Hin. specialize (E _ Hin). simpl in E.
    symmetry in Hk. apply key_eq_deqb in Hk. congruence.
Qed.

(** One side: printed top-first, parsed, inserted into an empty side. *)
Lemma side_roundtrip side l k :
  bt_wf side -> Forall (fun e => dltb dzero e.2 = true) side ->
  (forall e, e ∈ l <-> e ∈ side) ->
  exists l', parse_levels (map show_level l) = Some l' /\
    same_val (last_size k (positive_levels l')) (bt_get k side).
Proof using NT.
  intros Hwf Hpos Heq. destruct (parse_levels_shown l) as (l' & Hl' & HF).
  exists l'. split; [done|].
  rewrite <- (last_size_tree k l side Hwf Heq).
  rewrite <- (positive_levels_all l); [by apply last_size_same, positive_levels_same|].
  rewrite Forall_forall in *. intros e He. by apply Hpos, Heq.
Qed.

(** Printing a book and applying the printed levels as a snapshot, to any book of
    the pair, restores every level: the sizes at each price are numerically the
    same and no level appears or disappears. *)
Theorem produce_snapshot_roundtrip now b b0 d :
  book_ok b ->
  Forall (fun e => dltb dzero e.2 = true) (bids b) ->
  Forall (fun e => dltb dzero e.2 = true) (asks b) ->
  nd_bids d = os_bids (produce_snapshot now b) ->
  nd_asks d = os_asks (produce_snapshot now b) ->
  is_snapshot d = true -> pair_accepts d b0 = true -> max_depth b0 = None ->
  exists b' u, process d b0 = (b', Ok u) /\
    (forall k, same_val (bt_get k (bids b')) (bt_get k (bids b))) /\
    (forall k, same_val (bt_get k (asks b')) (bt_get k (asks b))).
Proof using NT.
  intros [Hwb Hwa _ _] Hpb Hpa Hb Ha Hd Hacc Hdep. simpl in Hb, Ha.
  unfold top_bids, bid_depth in Hb. unfold top_asks, ask_depth in Ha.
  rewrite firstn_all2 in Hb by (rewrite length_rev; lia). rewrite firstn_all in Ha.
  assert (forall e, e ∈ rev (bids b) <-> e ∈ bids b) as Hrev.
  { intros e. rewrite !list_elem_of_In. symmetry. apply in_rev. }
  destruct (parse_levels_shown (rev (bids b))) as (lb & Hlb & _).
  destruct (parse_levels_shown (asks b)) as (la & Hla & _).
  rewrite <- Hb in Hlb. rewrite <- Ha in Hla.
  rewrite process_eq, Hacc, Hd, (apply_snapshot_parsed _ _ _ _ Hlb Hla).
  do 2 eexists. split; [reflexivity|].
  rewrite prune_bids, prune_asks; simpl. rewrite Hdep. simpl.
  split; intros k; rewrite insert_levels_get; simpl.
  - destruct (side_roundtrip (bids b) (rev (bids b)) k) as (l' & Hl' & Hs); [done..|].
    rewrite <- Hb in Hl'. simplify_eq. by destruct (last_size _ _).
  - destruct (side_roundtrip (asks b) (asks b) k) as (l' & Hl' & Hs); [done..|].
    rewrite <- Ha in Hl'. simplify_eq. by destruct (last_size _ _).
Qed.
End RoundTrip.

(** ** Concrete runs *)

Section Runs.
Local Existing Instance decimal_numeric.
Local Open Scope string_scope.

Definition ex_pair : TradingPair := {| base := "BTC"; quote := "USDT" |}.

Definition ex_frame (snapshot : bool) (uid sq : N) (bs az : list (string * string))
    : NormalizedDelta := {|
  symbol := "BTC/USDT"; nd_bids := bs; nd_asks := az; update_id := uid; nd_sequence := sq;
  source_orderbook_ts_us := 0; local_orderbook_ts_us := 0; source_orderbook_rtt_us := 0;
  checksum := None; orders := []; is_snapshot := snapshot
|}.

Definition ex_seed : NormalizedDelta :=
  ex_frame true 7 0 [("99.5", "2"); ("100", "1.50"); ("98", "4")] [("101", "3"); ("102.25", "1")].

Definition ex_book : OrderbookDelta :=
  (process ex_seed (with_max_depth (Some 2) (OrderbookDelta_new ex_pair))).1.

Definition ex_delta : NormalizedDelta :=
  ex_frame false 8 8 [("100.0", "0"); ("99", "5")] [("101.5", "2")].

Lemma ex_book_ok : book_ok ex_book.
Proof. apply process_inv, with_max_depth_ok. Defined.

Lemma process_delta_spec_witness :
  exists b' u, process ex_delta ex_book = (b', Ok u) /\ delta_count b' = 1%N.
Proof.
  eexists _, _. split; [reflexivity|].
  destruct (process_delta_spec ex_delta ex_book _ _ eq_refl (book_bids_wf _ ex_book_ok)
              (book_asks_wf _ ex_book_ok) eq_refl)
    as (lb & la & fb & fa & _ & _ & _ & _ & _ & _ & _ & _ & _ & _ & Hc & _).
  exact Hc.
Defined.

Lemma process_snapshot_spec_witness :
  exists b' u, process ex_seed ex_book = (b', Ok u) /\ last_update_id b' = 7%N.
Proof.
  eexists _, _. split; [reflexivity|].
  destruct (process_snapshot_spec ex_seed ex_book _ _ eq_refl eq_refl)
    as (lb & la & fb & fa & _ & _ & _ & _ & _ & _ & _ & _ & Hid & _).
  exact Hid.
Defined.

Lemma process_error_frame_witness :
  exists e, process (ex_frame false 9 9 [("abc", "1")] []) ex_book = (ex_book, Err e) /\
            last_update_id ex_book = last_update_id ex_book.
Proof.
  eexists. split; [reflexivity|].
  exact (proj1 (process_error_frame (ex_frame false 9 9 [("abc", "1")] []) ex_book ex_book _
                  eq_refl)).
Defined.

Lemma prune_keeps_best_witness :
  best_bid (prune_to_depth (with_max_depth (Some 1) ex_book)) = best_bid ex_book.
Proof.
  exact (proj1 (proj2 (proj2 (prune_keeps_best (with_max_depth (Some 1) ex_book)
    (book_bids_wf _ ex_book_ok) (book_asks_wf _ ex_book_ok))) ltac:(discriminate))).
Defined.

Lemma volume_imbalance_bounds_witness :
  match volume_imbalance ex_book with
  | Some i => (inject_Z (-1) <= decimal_val i)%Q /\ (decimal_val i <= inject_Z 1)%Q
  | None => False
  end.
Proof.
  exact (volume_imbalance_bounds ex_book ltac:(repeat constructor; discriminate)
           ltac:(repeat constructor; discriminate)).
Defined.

Lemma mid_price_between_witness :
  exists bid bs ask az mid, best_bid ex_book = Some (bid, bs) /\
    best_ask ex_book = Some (ask, az) /\ mid_price ex_book = Some mid /\
    (decimal_val bid < decimal_val mid)%Q.
Proof.
  do 4 eexists.
  destruct (mid_price_between ex_book _ _ _ _ eq_refl eq_refl eq_refl)
    as (mid & sp & Hm & _ & Hlt & _).
  exists mid. split_and!; [reflexivity|reflexivity|exact Hm|exact Hlt].
Defined.

Lemma produce_snapshot_roundtrip_witness :
  let s := produce_snapshot 0 ex_book in
  let d := ex_frame true 1 1 (os_bids s) (os_asks s) in
  exists b' u, process d (OrderbookDelta_new ex_pair) = (b', Ok u).
Proof.
  intros s d.
  destruct (produce_snapshot_roundtrip 0 ex_book (OrderbookDelta_new ex_pair) d ex_book_ok
    ltac:(repeat constructor) ltac:(repeat constructor) eq_refl eq_refl eq_refl eq_refl eq_refl)
    as (b' & u & Hp & _).
  exists b', u. exact Hp.
Defined.
End Runs.
