(* ===== verification/Checksum.v ===== *)
(** * Book checksums

    [src/aetelier-connect/src/framework/checksum.rs]: the CRC32 recipes of the
    venues that publish a checksum with their book.  The CRC itself is the
    [crc32fast] crate's, a parameter. *)

From Stdlib Require Import Ascii String.
From S2P Require Import Prelude BTree Strings Numeric Pairs Types Delta.
Local Open Scope nat_scope.

(** [crc32fast::hash], a [u32]. *)
Class Crc32 := crc32 : string -> N.

(** model.rs *)
Inductive ChecksumFmt := OkxTop25 | KrakenTop10 | BitgetBidFirstTop25.

(** [x as i32 as i64] for a [u32] *)
Definition u32_as_i32 (x : N) : Z :=
  if (x <? 2147483648)%N then Z.of_N x else (Z.of_N x - 4294967296)%Z.

Section Checksum.
Context {NU : Numeric} {CRC : Crc32}.

(** One rank of the OKX recipe: the bid, then the ask, if there. *)
Definition okx_rank (bs az : list (Dec * Dec)) (i : nat) : list string :=
  match bs !! i with Some (p, s) => [dshow p; dshow s] | None => [] end ++
  match az !! i with Some (p, s) => [dshow p; dshow s] | None => [] end.

Definition okx_text (b : OrderbookDelta) : string :=
  let bs := top_bids 25 b in
  let az := top_asks 25 b in
  join ":" (List.concat (map (okx_rank bs az) (seq 0 25))).

Definition okx_top25 (b : OrderbookDelta) : Z := u32_as_i32 (crc32 (okx_text b)).

(** The loop of [push_kraken] over the characters of a decimal. *)
Fixpoint kraken_digits (s : string) (started : bool) : string * bool :=
  match s with
  | EmptyString => (EmptyString, started)
  | String c s' =>
    if Ascii.eqb c "." then kraken_digits s' started
    else if negb started && Ascii.eqb c "0" then kraken_digits s' started
    else let '(t, st) := kraken_digits s' true in (String c t, st)
  end.

Definition push_kraken (d : Dec) : string :=
  let '(t, started) := kraken_digits (dshow d) false in
  if started then t else "0"%string.

Definition kraken_text (b : OrderbookDelta) : string :=
  fold_left (fun out l => (out ++ push_kraken l.1 ++ push_kraken l.2)%string)
            (top_asks 10 b ++ top_bids 10 b) EmptyString.

Definition kraken_top10 (b : OrderbookDelta) : Z := Z.of_N (crc32 (kraken_text b)).

Definition book_checksum (fmt : ChecksumFmt) (b : OrderbookDelta) : Z :=
  match fmt with
  | OkxTop25 | BitgetBidFirstTop25 => okx_top25 b
  | KrakenTop10 => kraken_top10 b
  end.

(** The depth a recipe reads. *)
Definition checksum_depth (fmt : ChecksumFmt) : nat :=
  match fmt with OkxTop25 | BitgetBidFirstTop25 => 25 | KrakenTop10 => 10 end.

(** ** Properties *)

Lemma book_checksum_top fmt b b' :
  top_bids (checksum_depth fmt) b = top_bids (checksum_depth fmt) b' ->
  top_asks (checksum_depth fmt) b = top_asks (checksum_depth fmt) b' ->
  book_checksum fmt b = book_checksum fmt b'.
Proof.
  unfold book_checksum, okx_top25, okx_text, kraken_top10, kraken_text.
  destruct fmt; simpl; by intros -> ->.
Qed.

Lemma take_rev_drop {A} n k (l : list A) :
  k <= n -> take k (rev (drop (length l - n) l)) = take k (rev l).
Proof.
  intros Hk. destruct (decide (length l <= n)).
  { by replace (length l - n) with 0 by lia. }
  rewrite <- (take_drop (length l - n) l) at 3.
  rewrite rev_app_distr, take_app_le; [done|].
  rewrite length_rev, length_drop. lia.
Qed.

(** Pruning a book to at least the recipe's depth (25 levels for OKX and Bitget,
    10 for Kraken) leaves its checksum unchanged, so the depth a Kraken book is
    held at is enough to verify it. *)
Theorem checksum_prune_invariant fmt depth b :
  checksum_depth fmt <= depth ->
  book_checksum fmt (prune_to_depth (with_max_depth (Some depth) b)) = book_checksum fmt b.
Proof.
  intros Hd. apply book_checksum_top; unfold top_bids, top_asks.
  - rewrite prune_bids. simpl. by rewrite take_rev_drop.
  - rewrite prune_asks. simpl. rewrite take_take. f_equal. lia.
Qed.

(** The text hashed for Kraken has no decimal point, and a number loses its
    leading zeros but not its last digit. *)
Lemma kraken_digits_no_point s started :
  lacks "." (kraken_digits s started).1 = true.
Proof.
  unfold lacks. revert started. induction s as [|c s IH]; intros started; simpl; [done|].
  destruct (Ascii.eqb c ".") eqn:Ec; [apply IH|].
  destruct (negb started && Ascii.eqb c "0"); [apply IH|].
  specialize (IH true). destruct (kraken_digits s true) as [t st]. simpl in *.
  by rewrite Ec, IH.
Qed.

Lemma push_kraken_no_point d : lacks "." (push_kraken d) = true /\ push_kraken d <> ""%string.
Proof.
  unfold push_kraken. pose proof (kraken_digits_no_point (dshow d) false) as Hp.
  assert (forall s, (kraken_digits s false).2 = true -> (kraken_digits s false).1 <> ""%string) as Hne.
  { induction s as [|c s IH]; simpl; [done|].
    destruct (Ascii.eqb c "."); [done|]. destruct (Ascii.eqb c "0"); simpl; [done|].
    by destruct (kraken_digits s true). }
  specialize (Hne (dshow d)). destruct (kraken_digits (dshow d) false) as [t st].
  destruct st; simpl in *; auto.
Qed.
End Checksum.

Lemma checksum_prune_invariant_witness :
  let b := from_levels (NU:=decimal_numeric) ex_pair "okx"
             [(Decimal 1 0, Decimal 5 1); (Decimal 2 0, Decimal 1 0)] [(Decimal 3 0, Decimal 1 0)] in
  book_checksum (CRC:=fun _ => 7%N) OkxTop25 (prune_to_depth (with_max_depth (Some 25) b)) = 7%Z.
Proof.
  exact (checksum_prune_invariant (NU:=decimal_numeric) (CRC:=fun _ => 7%N) OkxTop25 25 _
           (le_n 25)).
Defined.
