(* ===== verification/Book.v ===== *)
(** * Orders, levels and the level book

    [src/aetelier-types/src/orders.rs], [levels.rs] and [orderbooks/core.rs]: the
    order id encoding, the order builder and [Orderbook], the book of levels that
    the runtime emits and the synchronizers sample.  The random generators and
    [describe] (a vector of floats) are not modelled.  Where an operation reads
    the clock, the time is an argument. *)

From Stdlib Require Import Ascii String.
From S2P Require Import Prelude BTree Strings Numeric Pairs Types Delta.
Local Open Scope nat_scope.
Local Open Scope result_scope.

(** ** orders.rs *)

Inductive OrderSide := Bids | Asks.
Inductive OrderType := Market | Limit.

#[export] Instance OrderSide_eq_dec : EqDecision OrderSide.
Proof. solve_decision. Defined.
#[export] Instance OrderType_eq_dec : EqDecision OrderType.
Proof. solve_decision. Defined.

Definition OrderSide_as_str (s : OrderSide) : string :=
  match s with Bids => "bid" | Asks => "ask" end.

Definition OrderSide_from_str_loose (s : string) : option OrderSide :=
  let s := to_lowercase s in
  if (s =? "bid")%string || (s =? "bids")%string || (s =? "buy")%string then Some Bids
  else if (s =? "ask")%string || (s =? "asks")%string || (s =? "sell")%string
          || (s =? "offer")%string then Some Asks
  else None.

(** [order_side as u64], [order_type as u64] *)
Definition side_bit (s : OrderSide) : N := match s with Bids => 0 | Asks => 1 end.
Definition type_bit (t : OrderType) : N := match t with Market => 0 | Limit => 1 end.

(** [OrderId], a transparent [u64]. *)
Definition TIME_MASK : N := 0x0FFFFFFFFFFFFFFF.

Definition OrderId_new (ts : N) (side : OrderSide) (ty : OrderType) : N :=
  let val := N.land ts TIME_MASK in
  let val := N.lor val (N.shiftl (side_bit side) 63) in
  N.lor val (N.shiftl (type_bit ty) 62).

Definition OrderId_timestamp (id : N) : N := N.land id TIME_MASK.

Definition OrderId_side (id : N) : OrderSide :=
  if (N.land (N.shiftr id 62) 1 =? 0)%N then Bids else Asks.

Definition OrderId_order (id : N) : OrderType :=
  if (N.land (N.shiftr id 63) 1 =? 0)%N then Market else Limit.

(** [x << n] on a [u64]: bits shifted out are lost. *)
Definition u64_shl (x n : N) : N := N.land (N.shiftl x n) u64_max.

Definition encode_order_id (side : OrderSide) (ty : OrderType) (order_ts_us : N) : N :=
  let side_bit := u64_shl (side_bit side) 63 in
  let type_bit := u64_shl (type_bit ty) 62 in
  let timestamp_bits := u64_shl (N.land order_ts_us (N.shiftl 1 60 - 1)) 2 in
  N.lor (N.lor side_bit type_bit) timestamp_bits.

Definition decode_order_id (order_id : N) : OrderSide * OrderType * N :=
  let order_side := if (N.land (N.shiftr order_id 63) 1 =? 0)%N then Bids else Asks in
  let order_type := if (N.land (N.shiftr order_id 62) 1 =? 0)%N then Market else Limit in
  let order_ts_us := N.land (N.shiftr order_id 2) (N.shiftl 1 60 - 1) in
  (order_side, order_type, order_ts_us).

Section Orders.
Context {NU : Numeric}.

Record Order := {
  ord_id : N;
  ord_ts_us : N;
  ord_type : OrderType;
  ord_side : OrderSide;
  ord_price : option F64;
  ord_amount : option F64
}.

Record OrderBuilder := {
  ob_ts_us : option N;
  ob_type : option OrderType;
  ob_side : option OrderSide;
  ob_price : option F64;
  ob_amount : option F64
}.

Definition OrderBuilder_new : OrderBuilder :=
  {| ob_ts_us := None; ob_type := None; ob_side := None; ob_price := None; ob_amount := None |}.

Definition set_side (s : OrderSide) (b : OrderBuilder) : OrderBuilder :=
  {| ob_ts_us := ob_ts_us b; ob_type := ob_type b; ob_side := Some s;
     ob_price := ob_price b; ob_amount := ob_amount b |}.
Definition set_order_type (t : OrderType) (b : OrderBuilder) : OrderBuilder :=
  {| ob_ts_us := ob_ts_us b; ob_type := Some t; ob_side := ob_side b;
     ob_price := ob_price b; ob_amount := ob_amount b |}.
Definition set_order_ts_us (ts : N) (b : OrderBuilder) : OrderBuilder :=
  {| ob_ts_us := Some ts; ob_type := ob_type b; ob_side := ob_side b;
     ob_price := ob_price b; ob_amount := ob_amount b |}.
Definition set_price (p : F64) (b : OrderBuilder) : OrderBuilder :=
  {| ob_ts_us := ob_ts_us b; ob_type := ob_type b; ob_side := ob_side b;
     ob_price := Some p; ob_amount := ob_amount b |}.
Definition set_amount (a : F64) (b : OrderBuilder) : OrderBuilder :=
  {| ob_ts_us := ob_ts_us b; ob_type := ob_type b; ob_side := ob_side b;
     ob_price := ob_price b; ob_amount := Some a |}.

(** [now] is read only when no timestamp was set. *)
Definition OrderBuilder_build (now : N) (b : OrderBuilder) : Result Order BuildError :=
  let? order_side := ok_or (MissingField "side") (ob_side b) in
  let? order_type := ok_or (MissingField "order_type") (ob_type b) in
  let order_ts_us := default now (ob_ts_us b) in
  Ok {| ord_id := encode_order_id order_side order_type order_ts_us;
        ord_ts_us := order_ts_us; ord_type := order_type; ord_side := order_side;
        ord_price := ob_price b; ord_amount := ob_amount b |}.

(** ** levels.rs *)

Record Level := {
  level_id : N;
  level_side : OrderSide;
  level_price : Dec;
  level_volume : Dec;
  level_orders : list Order
}.

(** ** core.rs *)

Record Orderbook := {
  orderbook_id : N;
  orderbook_ts_us : N;
  ob_source_ts_us : N;
  ob_local_ts_us : N;
  ob_rtt_us : N;
  ob_pair : TradingPair;
  ob_exchange : string;
  ob_bids : btree Dec Level;
  ob_asks : btree Dec Level
}.

Definition Orderbook_new (id ts : N) (p : TradingPair) (e : string) (bs az : btree Dec Level)
    : Orderbook := {|
  orderbook_id := id; orderbook_ts_us := ts; ob_source_ts_us := 0; ob_local_ts_us := 0;
  ob_rtt_us := 0; ob_pair := p; ob_exchange := e; ob_bids := bs; ob_asks := az
|}.

Definition by_price (l : Level) : Dec * Level := (level_price l, l).

Definition Orderbook_from_levels (id ts : N) (p : TradingPair) (e : string)
    (bs az : list Level) : Orderbook :=
  Orderbook_new id ts p e (bt_collect (map by_price bs)) (bt_collect (map by_price az)).

Definition Orderbook_empty (p : TradingPair) (e : string) : Orderbook :=
  Orderbook_new 0 0 p e [] [].

(** Re-stamped to a grid period. *)
Definition with_ts (ts : N) (o : Orderbook) : Orderbook := {|
  orderbook_id := orderbook_id o; orderbook_ts_us := ts;
  ob_source_ts_us := ob_source_ts_us o; ob_local_ts_us := ob_local_ts_us o;
  ob_rtt_us := ob_rtt_us o; ob_pair := ob_pair o; ob_exchange := ob_exchange o;
  ob_bids := ob_bids o; ob_asks := ob_asks o
|}.

Definition with_book_sides (bs az : btree Dec Level) (o : Orderbook) : Orderbook := {|
  orderbook_id := orderbook_id o; orderbook_ts_us := orderbook_ts_us o;
  ob_source_ts_us := ob_source_ts_us o; ob_local_ts_us := ob_local_ts_us o;
  ob_rtt_us := ob_rtt_us o; ob_pair := ob_pair o; ob_exchange := ob_exchange o;
  ob_bids := bs; ob_asks := az
|}.

Definition Orderbook_best_bid (o : Orderbook) : option Dec := option_map fst (bt_last (ob_bids o)).
Definition Orderbook_best_ask (o : Orderbook) : option Dec := option_map fst (bt_first (ob_asks o)).

Definition Orderbook_mid_price (o : Orderbook) : option Dec :=
  match Orderbook_best_bid o, Orderbook_best_ask o with
  | Some b, Some a => Some (ddiv (dadd b a) (dfrom 2))
  | _, _ => None
  end.

Definition Orderbook_spread (o : Orderbook) : option Dec :=
  match Orderbook_best_bid o, Orderbook_best_ask o with
  | Some b, Some a => Some (dsub a b)
  | _, _ => None
  end.

Definition find_level (price : Dec) (o : Orderbook) : Result (OrderSide * Level) OrderbookError :=
  match bt_get price (ob_bids o) with
  | Some l => Ok (Bids, l)
  | None =>
    match bt_get price (ob_asks o) with
    | Some l => Ok (Asks, l)
    | None => Err (LevelNotFound (dshow price))
    end
  end.

Definition retrieve_level (price : Dec) (o : Orderbook) : Result Level OrderbookError :=
  match find_level price o with Ok (_, l) => Ok l | Err e => Err e end.

Definition delete_level (price : Dec) (o : Orderbook) : Orderbook * Result unit OrderbookError :=
  match bt_get price (ob_bids o), bt_get price (ob_asks o) with
  | Some _, _ => (with_book_sides (bt_remove price (ob_bids o)) (ob_asks o) o, Ok tt)
  | None, Some _ => (with_book_sides (ob_bids o) (bt_remove price (ob_asks o)) o, Ok tt)
  | None, None => (o, Err (LevelNotFound (dshow price)))
  end.

(** A replaced level keeps its id. *)
Definition insert_into (l : Level) (side : btree Dec Level) : btree Dec Level :=
  let id := match bt_get (level_price l) side with
            | Some existing => level_id existing
            | None => level_id l
            end in
  bt_insert (level_price l)
    {| level_id := id; level_side := level_side l; level_price := level_price l;
       level_volume := level_volume l; level_orders := level_orders l |} side.

Definition insert_level (l : Level) (o : Orderbook) : Orderbook * Result unit OrderbookError :=
  match level_side l with
  | Bids => (with_book_sides (insert_into l (ob_bids o)) (ob_asks o) o, Ok tt)
  | Asks => (with_book_sides (ob_bids o) (insert_into l (ob_asks o)) o, Ok tt)
  end.

(** [slice::binary_search_by] on the creation times: halving of [lo, hi). *)
Fixpoint binary_search (fuel : nat) (os : list Order) (ts : N) (lo hi : nat) : option nat :=
  match fuel with
  | O => None
  | S fuel' =>
    if hi <=? lo then None
    else
      let mid := lo + (hi - lo) / 2 in
      match os !! mid with
      | None => None
      | Some o =>
        match N.compare (ord_ts_us o) ts with
        | Eq => Some mid
        | Lt => binary_search fuel' os ts (S mid) hi
        | Gt => binary_search fuel' os ts lo mid
        end
      end
  end.

Definition search_order (os : list Order) (ts : N) : option nat :=
  binary_search (S (length os)) os ts 0 (length os).

Definition find_order (price : Dec) (ts : N) (o : Orderbook)
    : Result (OrderSide * Level * nat) OrderbookError :=
  match find_level price o with
  | Err e => Err e
  | Ok (side, l) =>
    match level_orders l with
    | [] => Err (OrderNotFound ts)
    | os =>
      match search_order os ts with
      | Some i => Ok (side, l, i)
      | None => Err (OrderNotFound ts)
      end
    end
  end.

Definition retrieve_order (price : Dec) (ts : N) (o : Orderbook) : Result Order OrderbookError :=
  match find_order price ts o with
  | Err e => Err e
  | Ok (_, l, i) =>
    match level_orders l !! i with Some x => Ok x | None => Err (OrderNotFound ts) end
  end.

Definition with_orders (os : list Order) (l : Level) : Level := {|
  level_id := level_id l; level_side := level_side l; level_price := level_price l;
  level_volume := level_volume l; level_orders := os
|}.

(** [self.<side>.get_mut(&price).unwrap()], changed by [f]. *)
Definition update_level (side : OrderSide) (price : Dec) (f : Level -> Level) (o : Orderbook)
    : Orderbook :=
  let upd m := match bt_get price m with Some l => bt_insert price (f l) m | None => m end in
  match side with
  | Bids => with_book_sides (upd (ob_bids o)) (ob_asks o) o
  | Asks => with_book_sides (ob_bids o) (upd (ob_asks o)) o
  end.

Definition delete_order (price : Dec) (ts : N) (o : Orderbook)
    : Orderbook * Result unit OrderbookError :=
  match find_order price ts o with
  | Err e => (o, Err e)
  | Ok (side, _, i) =>
    (update_level side price (fun l => with_orders (delete i (level_orders l)) l) o, Ok tt)
  end.

Definition BuildError_fmt (e : BuildError) : string :=
  match e with
  | MissingField f => ("missing required field: " ++ f)%string
  | InvalidField f r => ("invalid " ++ f ++ ": " ++ r)%string
  end.

Definition insert_order (now : N) (price : Dec) (amount : F64) (o : Orderbook)
    : Orderbook * Result unit OrderbookError :=
  match find_level price o with
  | Err e => (o, Err e)
  | Ok (side, _) =>
    let builder := set_amount amount (set_price (decimal_to_f64 price)
      (set_side side (set_order_type Limit (set_order_ts_us now OrderBuilder_new)))) in
    match OrderBuilder_build now builder with
    | Err e => (o, Err (BuilderError (BuildError_fmt e)))
    | Ok order =>
      (update_level side price (fun l => with_orders (level_orders l ++ [order]) l) o, Ok tt)
    end
  end.

Definition modify_order (now ts : N) (price : Dec) (amount : F64) (o : Orderbook)
    : Orderbook * Result Order OrderbookError :=
  match find_order price ts o with
  | Err e => (o, Err e)
  | Ok (side, l, i) =>
    match level_orders l !! i with
    | None => (o, Err (OrderNotFound ts))
    | Some old =>
      match ord_price old with
      | None => (o, Err (InvalidInput "Cannot modify order: price is None"))
      | Some order_price =>
        let builder := set_amount amount (set_price order_price
          (set_order_ts_us (ord_ts_us old)
            (set_order_type (ord_type old) (set_side (ord_side old) OrderBuilder_new)))) in
        match OrderBuilder_build now builder with
        | Err e => (o, Err (BuilderError (BuildError_fmt e)))
        | Ok order =>
          (update_level side price (fun l => with_orders (<[i := order]> (level_orders l)) l) o,
           Ok order)
        end
      end
    end
  end.

(** One side of [from_normalized_snapshot]; [what] is ["bid"] or ["ask"]. *)
Fixpoint parse_book_levels (what : string) (side : OrderSide) (i : N)
    (levels : list (string * string)) (m : btree Dec Level)
    : Result (btree Dec Level) OrderbookError :=
  match levels with
  | [] => Ok m
  | (p, s) :: levels' =>
    match dparse p with
    | Err e => Err (ParseError (what ++ " price '" ++ p ++ "': " ++ e)%string)
    | Ok price =>
      match dparse s with
      | Err e => Err (ParseError (what ++ " size '" ++ s ++ "': " ++ e)%string)
      | Ok sz =>
        parse_book_levels what side (i + 1) levels'
          (bt_insert price {| level_id := i mod 4294967296; level_side := side; level_price := price;
                              level_volume := sz; level_orders := [] |} m)
      end
    end
  end.

Definition from_normalized_snapshot (d : NormalizedDelta) (e : string) (ts : N)
    : Result Orderbook OrderbookError :=
  let hinted := match Exchange_from_str_loose e with
                | Some ex => from_exchange_symbol (symbol d) ex
                | None => None
                end in
  match or_else hinted (result_ok (TradingPair_from_str (symbol d))) with
  | None => Err (ParseError ("cannot parse trading pair from '" ++ symbol d ++
                             "' (exchange: " ++ e ++ ")")%string)
  | Some p =>
    match parse_book_levels "bid" Bids 0 (nd_bids d) [] with
    | Err err => Err err
    | Ok bs =>
      match parse_book_levels "ask" Asks 0 (nd_asks d) [] with
      | Err err => Err err
      | Ok az => Ok (Orderbook_new 0 ts p e bs az)
      end
    end
  end.

(** ob_sync.rs: the levels of a delta book, best first, numbered. *)
Definition number_levels (side : OrderSide) (levels : list (Dec * Dec)) : list Level :=
  imap (fun i l => {| level_id := N.of_nat i mod 4294967296; level_side := side;
                      level_price := l.1; level_volume := l.2; level_orders := [] |}) levels.

Definition capture_levels (b : OrderbookDelta) : list Level * list Level :=
  (number_levels Bids (top_bids (bid_depth b) b), number_levels Asks (top_asks (ask_depth b) b)).

(** core.rs [capture_levels] *)
Definition Orderbook_capture_levels (b : OrderbookDelta) (o : Orderbook) : Orderbook :=
  Orderbook_new 0 (orderbook_ts_us o) (ob_pair o) (ob_exchange o)
    (bt_collect (map by_price (number_levels Bids (top_bids (bid_depth b) b))))
    (bt_collect (map by_price (number_levels Asks (top_asks (ask_depth b) b)))).
End Orders.
