(* ===== verification/BookProps.v ===== *)
(** * Properties of order ids and level books *)

From Stdlib Require Import QArith Ascii String.
From S2P Require Import Prelude BTree Strings Numeric Pairs Types Delta Book.
Local Open Scope nat_scope.

(** ** Order ids *)

Lemma bit_of a k : N.land (N.shiftr a k) 1 = N.b2n (N.testbit a k).
Proof.
  change 1%N with (N.ones 1). rewrite N.land_ones, N.shiftr_div_pow2.
  change (2 ^ 1)%N with 2%N. symmetry. apply N.testbit_spec'.
Qed.

Lemma b2n_zero (b : bool) : (N.b2n b =? 0)%N = negb b.
Proof. by destruct b. Qed.

Lemma u64_shl_spec x n m :
  N.testbit (u64_shl x n) m = (n <=? m)%N && N.testbit x (m - n) && (m <? 64)%N.
Proof.
  unfold u64_shl. change u64_max with (N.ones 64). rewrite N.land_spec.
  assert (N.testbit (N.ones 64) m = (m <? 64)%N) as ->.
  { destruct (N.ltb_spec m 64); [by apply N.ones_spec_low|by apply N.ones_spec_high]. }
  f_equal. destruct (N.leb_spec n m).
  - by rewrite N.shiftl_spec_high'.
  - by rewrite N.shiftl_spec_low.
Qed.

Lemma side_bit_spec s m : N.testbit (side_bit s) m = (m =? 0)%N && bool_decide (s = Asks).
Proof. by destruct s, m as [|[]]. Qed.

Lemma type_bit_spec t m : N.testbit (type_bit t) m = (m =? 0)%N && bool_decide (t = Limit).
Proof. by destruct t, m as [|[]]. Qed.

(** The encoded id, bit by bit: side at 63, type at 62, the low 60 bits of the
    timestamp at 2..61. *)
Lemma encode_order_id_spec s t ts m :
  N.testbit (encode_order_id s t ts) m =
  ((m =? 63)%N && bool_decide (s = Asks)) || ((m =? 62)%N && bool_decide (t = Limit)) ||
  ((2 <=? m)%N && (m <? 62)%N && N.testbit ts (m - 2)).
Proof.
  unfold encode_order_id. rewrite !N.lor_spec, !u64_shl_spec, side_bit_spec, type_bit_spec.
  change (N.shiftl 1 60 - 1)%N with (N.ones 60). rewrite N.land_spec.
  assert (N.testbit (N.ones 60) (m - 2) = (m - 2 <? 60)%N) as ->.
  { destruct (N.ltb_spec (m - 2) 60); [by apply N.ones_spec_low|by apply N.ones_spec_high]. }
  destruct (N.leb_spec 63 m), (N.leb_spec 62 m), (N.leb_spec 2 m), (N.ltb_spec m 64),
    (N.ltb_spec m 62), (N.eqb_spec m 63), (N.eqb_spec m 62), (N.eqb_spec (m - 63) 0),
    (N.eqb_spec (m - 62) 0), (N.ltb_spec (m - 2) 60); try lia;
    destruct (bool_decide (s = Asks)), (bool_decide (t = Limit)),
      (N.testbit ts (m - 2)); done.
Qed.

(** Order ids decode to what they encode: side, type and the low 60 bits of the
    timestamp, for all sides, types and timestamps; so below 2^60 us the encoding
    is injective. *)
Theorem order_id_roundtrip s t ts :
  decode_order_id (encode_order_id s t ts) = (s, t, (ts mod 2 ^ 60)%N).
Proof.
  unfold decode_order_id. rewrite !bit_of, !b2n_zero, !encode_order_id_spec. simpl.
  assert (N.land (N.shiftr (encode_order_id s t ts) 2) (N.shiftl 1 60 - 1) = ts mod 2 ^ 60)%N
    as ->.
  { rewrite <- N.land_ones. change (N.shiftl 1 60 - 1)%N with (N.ones 60).
    apply N.bits_inj. intros m. rewrite !N.land_spec, N.shiftr_spec', encode_order_id_spec.
    destruct (N.ltb_spec m 60).
    - rewrite N.ones_spec_low by done. rewrite N.add_sub.
      destruct (N.eqb_spec (m + 2) 63), (N.eqb_spec (m + 2) 62), (N.leb_spec 2 (m + 2)),
        (N.ltb_spec (m + 2) 62); try lia. done.
    - rewrite N.ones_spec_high by done. by rewrite !andb_false_r. }
  by destruct s, t.
Qed.

(** [OrderId]'s accessors read each other's bit: an ask that is a market order reads
    back as a bid limit order. *)
Lemma order_id_accessors_swapped ts :
  OrderId_side (OrderId_new ts Asks Market) = Bids /\
  OrderId_order (OrderId_new ts Asks Market) = Limit.
Proof.
  unfold OrderId_side, OrderId_order, OrderId_new, TIME_MASK.
  rewrite !bit_of, !b2n_zero, !N.lor_spec, !N.land_spec.
  by rewrite !(N.ones_spec_high 60), !andb_false_r.
Qed.

(** ** Captured books *)

Section Capture.
Context {NU : Numeric} {NL : NumericLaws NU}.

Lemma numbered_entries side (id : nat -> N) l :
  bt_map level_volume (map by_price
    (imap (fun i x => {| level_id := id i; level_side := side; level_price := x.1;
                         level_volume := x.2; level_orders := [] |}) l)) = l.
Proof.
  revert id. induction l as [|[p s] l IH]; intros id; [done|].
  rewrite imap_cons. simpl. f_equal. apply (IH (fun i => id (S i))).
Qed.

Lemma number_levels_entries side l :
  bt_map level_volume (map by_price (number_levels side l)) = l.
Proof. apply (numbered_entries side (fun i => N.of_nat i mod 4294967296)%N). Qed.

Lemma bt_last_fst {V W} (f : V -> W) (m : btree Dec V) :
  option_map fst (bt_last (bt_map f m)) = option_map fst (bt_last m).
Proof.
  unfold bt_last, bt_map. rewrite fmap_last. by destruct (last m) as [[k v]|].
Qed.

Lemma bt_first_fst {V W} (f : V -> W) (m : btree Dec V) :
  option_map fst (bt_first (bt_map f m)) = option_map fst (bt_first m).
Proof. by destruct m as [|[k v] m]. Qed.

Lemma capture_bids id ts p e b :
  bt_wf (bids b) ->
  bt_map level_volume (ob_bids (Orderbook_from_levels id ts p e (capture_levels b).1
                                  (capture_levels b).2)) = bids b.
Proof.
  intros Hb. simpl. rewrite bt_map_collect, number_levels_entries. unfold top_bids, bid_depth.
  rewrite firstn_all2 by (rewrite length_rev; lia). by apply bt_collect_rev.
Qed.

Lemma capture_asks id ts p e b :
  bt_wf (asks b) ->
  bt_map level_volume (ob_asks (Orderbook_from_levels id ts p e (capture_levels b).1
                                  (capture_levels b).2)) = asks b.
Proof.
  intros Ha. simpl. rewrite bt_map_collect, number_levels_entries. unfold top_asks, ask_depth.
  rewrite firstn_all. by apply bt_collect_sorted.
Qed.

Lemma capture_best id ts p e b :
  bt_wf (bids b) -> bt_wf (asks b) ->
  let o := Orderbook_from_levels id ts p e (capture_levels b).1 (capture_levels b).2 in
  Orderbook_best_bid o = option_map fst (best_bid b) /\
  Orderbook_best_ask o = option_map fst (best_ask b).
Proof.
  intros Hb Ha. split.
  - unfold Orderbook_best_bid, best_bid.
    by rewrite <- (bt_last_fst level_volume), capture_bids.
  - unfold Orderbook_best_ask, best_ask.
    by rewrite <- (bt_first_fst level_volume), capture_asks.
Qed.

(** The book that is emitted is the book that was reconstructed: capturing a
    sorted delta book into levels keeps every price with its size, in order, and
    hence the best bid and the best ask. *)
Theorem capture_faithful id ts p e b :
  bt_wf (bids b) -> bt_wf (asks b) ->
  let o := Orderbook_from_levels id ts p e (capture_levels b).1 (capture_levels b).2 in
  bt_map level_volume (ob_bids o) = bids b /\
  bt_map level_volume (ob_asks o) = asks b /\
  Orderbook_best_bid o = option_map fst (best_bid b) /\
  Orderbook_best_ask o = option_map fst (best_ask b).
Proof.
  intros Hb Ha. cbv zeta. rewrite capture_bids, capture_asks by done.
  destruct (capture_best id ts p e b Hb Ha). done.
Qed.
End Capture.

Lemma capture_faithful_witness :
  let o := Orderbook_from_levels (NU:=decimal_numeric) 0 9 ex_pair "okx"
             (capture_levels ex_book).1 (capture_levels ex_book).2 in
  bt_map level_volume (ob_bids o) = bids ex_book.
Proof.
  exact (proj1 (capture_faithful 0 9 ex_pair "okx" ex_book (book_bids_wf _ ex_book_ok)
                  (book_asks_wf _ ex_book_ok))).
Defined.

(** ** Orders within a level *)

Section OrderSearch.
Context {NU : Numeric} {NL : NumericLaws NU}.
Implicit Types (os : list Order).

(** Orders in a level are kept in the order of their creation times. *)
Definition orders_sorted os : Prop :=
  forall i j x y, i < j -> os !! i = Some x -> os !! j = Some y -> (ord_ts_us x <= ord_ts_us y)%N.

Lemma binary_search_sound fuel os ts lo hi i :
  binary_search fuel os ts lo hi = Some i ->
  exists x, os !! i = Some x /\ ord_ts_us x = ts.
Proof.
  revert lo hi. induction fuel as [|fuel IH]; intros lo hi; cbn [binary_search]; [done|].
  destruct (hi <=? lo); [done|]. cbv zeta.
  destruct (os !! (lo + (hi - lo) / 2)) as [x|] eqn:Hx; [|done].
  destruct (N.compare_spec (ord_ts_us x) ts); [|by apply IH..].
  intros [= <-]. by exists x.
Qed.

Lemma binary_search_complete fuel os ts lo hi i x :
  orders_sorted os -> hi <= length os -> hi - lo < fuel ->
  lo <= i < hi -> os !! i = Some x -> ord_ts_us x = ts ->
  is_Some (binary_search fuel os ts lo hi).
Proof.
  intros Hsort. revert lo hi. induction fuel as [|fuel IH]; intros lo hi Hhi Hf Hi Hx Hts; [lia|].
  cbn [binary_search]. destruct (Nat.leb_spec hi lo); [lia|]. cbv zeta.
  assert (lo + (hi - lo) / 2 < hi) as Hmid.
  { pose proof (Nat.div_lt (hi - lo) 2). lia. }
  set (mid := lo + (hi - lo) / 2) in *.
  destruct (os !! mid) as [y|] eqn:Hy; [|apply lookup_ge_None in Hy; lia].
  destruct (N.compare_spec (ord_ts_us y) ts) as [E|Hlt|Hgt]; [done| |].
  - apply IH; try done; [lia|]. split; [|lia].
    destruct (decide (S mid <= i)); [done|]. exfalso.
    destruct (decide (i = mid)) as [->|]; [simplify_eq; lia|].
    pose proof (Hsort i mid x y ltac:(lia) Hx Hy). lia.
  - apply IH; try done; [lia..|]. split; [lia|].
    destruct (decide (i < mid)); [done|]. exfalso.
    destruct (decide (i = mid)) as [->|]; [simplify_eq; lia|].
    pose proof (Hsort mid i y x ltac:(lia) Hy Hx). lia.
Qed.

Lemma search_order_spec os ts :
  orders_sorted os ->
  (exists i, search_order os ts = Some i) <-> exists x, x ∈ os /\ ord_ts_us x = ts.
Proof.
  intros Hs. unfold search_order. split.
  - intros [i Hi]. apply binary_search_sound in Hi as (x & Hx & <-).
    exists x. split; [by eapply list_elem_of_lookup_2|done].
  - intros (x & [i Hi]%list_elem_of_lookup_1 & Hts).
    destruct (binary_search_complete (S (length os)) os ts 0 (length os) i x) as [j ->];
      try done; [lia| |by eauto].
    apply lookup_lt_Some in Hi. lia.
Qed.

Lemma find_level_side price o side l :
  find_level price o = Ok (side, l) ->
  bt_get price (match side with Bids => ob_bids o | Asks => ob_asks o end) = Some l.
Proof.
  unfold find_level. destruct (bt_get price (ob_bids o)) eqn:E; [by intros [= <- <-]|].
  destruct (bt_get price (ob_asks o)) eqn:E'; [by intros [= <- <-]|done].
Qed.

(** The levels of one side. *)
Definition side_of (side : OrderSide) (o : Orderbook) : btree Dec Level :=
  match side with Bids => ob_bids o | Asks => ob_asks o end.

Lemma update_level_get side price f o side' k l :
  bt_get price (side_of side o) = Some l ->
  bt_get k (side_of side' (update_level side price f o)) =
  if bool_decide (side = side') && deqb price k then Some (f l) else bt_get k (side_of side' o).
Proof.
  intros Hl. unfold update_level.
  destruct side, side'; simpl in *; try done; rewrite Hl, bt_get_insert; by rewrite cmp_deqb.
Qed.

(** An order is found exactly when its level holds one with its creation time
    (levels keep their orders in creation order); deleting it removes that one
    order and touches no other order, level or side. *)
Theorem delete_order_spec price ts o side l :
  find_level price o = Ok (side, l) -> orders_sorted (level_orders l) ->
  (is_ok (delete_order price ts o).2 = true <->
     exists x, x ∈ level_orders l /\ ord_ts_us x = ts) /\
  (is_ok (delete_order price ts o).2 = true ->
     exists i x, level_orders l !! i = Some x /\ ord_ts_us x = ts /\
       forall side' k, bt_get k (side_of side' (delete_order price ts o).1) =
         if bool_decide (side = side') && deqb price k
         then Some (with_orders (delete i (level_orders l)) l)
         else bt_get k (side_of side' o)).
Proof.
  intros Hl Hs. pose proof (search_order_spec _ ts Hs) as Hspec.
  pose proof (find_level_side _ _ _ _ Hl) as Hget.
  unfold delete_order, find_order. rewrite Hl.
  destruct (level_orders l) as [|o1 os] eqn:Eos.
  { simpl. split; [|done]. split; [done|]. intros (x & Hx & _). by apply not_elem_of_nil in Hx. }
  destruct (search_order (o1 :: os) ts) as [i|] eqn:Ei; simpl.
  - split; [split; [by intros _; apply Hspec; exists i|done]|]. intros _.
    apply binary_search_sound in Ei as (x & Hx & Hts). exists i, x.
    split_and!; [done|done|]. intros side' k.
    rewrite (update_level_get _ _ _ _ _ _ l) by (by destruct side). by rewrite Eos.
  - split; [|done]. split; [done|]. intros Hx. apply Hspec in Hx as [i Hi]. done.
Qed.
End OrderSearch.

Section ConcreteBook.
Local Existing Instance decimal_numeric.

Definition ex_ord (ts : N) : Order :=
  {| ord_id := encode_order_id Bids Limit ts; ord_ts_us := ts; ord_type := Limit;
     ord_side := Bids; ord_price := Some (flt 5 0); ord_amount := None |}.

Definition ex_level : Level :=
  {| level_id := 0; level_side := Bids; level_price := (dec 5 0);
     level_volume := (dec 2 0); level_orders := [ex_ord 3; ex_ord 8; ex_ord 9] |}.

Definition ex_orderbook : Orderbook := Orderbook_from_levels 0 0 ex_pair "okx" [ex_level] [].

Lemma delete_order_spec_witness :
  is_ok (delete_order (dec 5 0) 8 ex_orderbook).2 = true.
Proof.
  apply (proj1 (delete_order_spec (dec 5 0) 8 ex_orderbook Bids ex_level eq_refl
    ltac:(intros [|[|[|i]]] [|[|[|j]]] x y Hij Hx Hy; try lia; simpl in *; simplify_eq/=;
          done))).
  exists (ex_ord 8). split; [right; left|reflexivity].
Defined.
End ConcreteBook.
