(* ===== verification/Model.v ===== *)
(** * Book and tradebook reconstruction

    [src/aetelier-connect/src/framework/model.rs]: the normalized market event,
    the reconstruction models and their continuity predicates, and the two
    state machines that rebuild an order book ([SourcedOrderbook]) and account
    for a trade log ([SourcedTradebook]).  Log lines are not modelled. *)

From Stdlib Require Import Ascii String.
From stdpp Require Import gmap strings.
From S2P Require Import Prelude BTree Strings Numeric Pairs Types Delta Checksum.
Local Open Scope nat_scope.

(** ** Events *)

Inductive DomainEvent `{Numeric} :=
| Book (d : NormalizedDelta)
| TradeEvent (trade : Trade) (seq : option N)
| ConnectionGap (dropped : N)
| FundingRateEvent (fr : FundingRate)
| OpenInterestEvent (oi : OpenInterest)
| FundingSettlementEvent (fs : FundingSettlement).

Section Stamp.
Context {NU : Numeric}.

Definition stamp_book (local_us rtt_us : N) (d : NormalizedDelta) : NormalizedDelta := {|
  symbol := symbol d; nd_bids := nd_bids d; nd_asks := nd_asks d;
  update_id := update_id d; nd_sequence := nd_sequence d;
  source_orderbook_ts_us := source_orderbook_ts_us d;
  local_orderbook_ts_us := local_us;
  source_orderbook_rtt_us := rtt_us;
  checksum := checksum d; orders := orders d; is_snapshot := is_snapshot d
|}.

Definition stamp_trade (local_us rtt_us : N) (t : Trade) : Trade := {|
  source_trade_ts_us := source_trade_ts_us t;
  local_trade_ts_us := local_us;
  source_trade_rtt_us := rtt_us;
  trade_pair := trade_pair t; trade_side := trade_side t; trade_amount := trade_amount t;
  trade_price := trade_price t; trade_exchange := trade_exchange t; trade_id := trade_id t;
  trade_origin := trade_origin t
|}.

Definition stamp_funding (local_us recv_seq conn_epoch_us : N) (f : FundingRate)
    : FundingRate := {|
  funding_rate_ts_us := funding_rate_ts_us f;
  local_funding_ts_us := local_us;
  funding_recv_seq := recv_seq;
  funding_conn_epoch_us := conn_epoch_us;
  funding_pair := funding_pair f; funding_rate := funding_rate f;
  funding_premium := funding_premium f; interval_hours := interval_hours f;
  next_funding_ts_us := next_funding_ts_us f; funding_exchange := funding_exchange f
|}.

Definition stamp_oi (local_us recv_seq conn_epoch_us : N) (o : OpenInterest)
    : OpenInterest := {|
  open_interest_ts_us := open_interest_ts_us o;
  local_oi_ts_us := local_us;
  oi_recv_seq := recv_seq;
  oi_conn_epoch_us := conn_epoch_us;
  oi_pair := oi_pair o; open_interest := open_interest o;
  open_interest_value := open_interest_value o; mark_px := mark_px o;
  oi_exchange := oi_exchange o
|}.

Definition stamp_settlement (local_us : N) (s : FundingSettlement) : FundingSettlement := {|
  funding_time_us := funding_time_us s;
  settlement_local_ts_us :=
    if (settlement_local_ts_us s =? 0)%N then local_us else settlement_local_ts_us s;
  settlement_rtt_us := settlement_rtt_us s; settlement_pair := settlement_pair s;
  settlement_rate := settlement_rate s; settlement_premium := settlement_premium s;
  settlement_exchange := settlement_exchange s
|}.

Definition stamp_local (local_us rtt_us recv_seq conn_epoch_us : N) (e : DomainEvent)
    : DomainEvent :=
  match e with
  | Book d => Book (stamp_book local_us rtt_us d)
  | TradeEvent t sq => TradeEvent (stamp_trade local_us rtt_us t) sq
  | FundingRateEvent f => FundingRateEvent (stamp_funding local_us recv_seq conn_epoch_us f)
  | OpenInterestEvent o => OpenInterestEvent (stamp_oi local_us recv_seq conn_epoch_us o)
  | FundingSettlementEvent s => FundingSettlementEvent (stamp_settlement local_us s)
  | ConnectionGap n => ConnectionGap n
  end.
End Stamp.

Definition epoch_to_us (v : N) : N :=
  if (v =? 0)%N then 0%N
  else if (100000000000000000 <=? v)%N then (v / 1000)%N
  else if (100000000000000 <=? v)%N then v
  else if (100000000000 <=? v)%N then u64_mul v 1000
  else u64_mul v 1000000.

(** ** Reconstruction models *)

Inductive OrderBookState := BookEmpty | BookSynced | BookGapped | BookClosed.
Inductive TradeBookState := TradesEmpty | TradesSynced | TradesClosed.

Inductive TradeApply :=
| TradeApplied
| TradeDuplicate
| TradeGappedApplied (missed : N).

Inductive SeqPredicate := RangeInclusive | ExactPrev | Monotonic.
Inductive SnapshotSource := RestSnapshot | ReqOnSocket | WssSelfSeed.
Inductive RecoveryAction := RecoverResubscribe | RecoverRestSnapshot | RecoverReqOnSocket.

Inductive ReconstructionModel :=
| FullRefresh
| SeqDelta (predicate : SeqPredicate) (source : SnapshotSource)
| ChecksumDelta (fmt : ChecksumFmt)
| L3 (source : SnapshotSource).

#[export] Instance OrderBookState_eq_dec : EqDecision OrderBookState.
Proof. solve_decision. Defined.
#[export] Instance TradeBookState_eq_dec : EqDecision TradeBookState.
Proof. solve_decision. Defined.
#[export] Instance SnapshotSource_eq_dec : EqDecision SnapshotSource.
Proof. solve_decision. Defined.

Definition snapshot_source (m : ReconstructionModel) : option SnapshotSource :=
  match m with
  | SeqDelta _ source | L3 source => Some source
  | FullRefresh | ChecksumDelta _ => None
  end.

Definition class_label (m : ReconstructionModel) : string :=
  match m with
  | FullRefresh => "full_refresh"
  | SeqDelta _ _ => "seq_delta"
  | ChecksumDelta _ => "checksum_delta"
  | L3 _ => "l3"
  end.

Definition book_level (m : ReconstructionModel) : string :=
  match m with L3 _ => "L3" | _ => "L2" end.

Definition needs_rest (m : ReconstructionModel) : bool :=
  bool_decide (snapshot_source m = Some RestSnapshot).

Definition seeds_out_of_band (m : ReconstructionModel) : bool :=
  match snapshot_source m with
  | Some RestSnapshot | Some ReqOnSocket => true
  | _ => false
  end.

Definition seq_is_connection_scoped (m : ReconstructionModel) : bool :=
  match m with SeqDelta Monotonic _ => true | _ => false end.

Definition replay_dedup_sound (m : ReconstructionModel) : bool :=
  match snapshot_source m with Some _ => true | None => false end && negb (seq_is_connection_scoped m).

Definition supports_in_band_reseed (m : ReconstructionModel) : bool :=
  match snapshot_source m with Some ReqOnSocket => true | _ => false end.

Definition recovery_action (m : ReconstructionModel) : RecoveryAction :=
  if needs_rest m then RecoverRestSnapshot else RecoverResubscribe.

Definition L3_MAX_ORDERS : N := 200000.

Inductive ResyncReason :=
| ReasonChecksum (m : string)
| ReasonOther (m : string).

Definition is_checksum (r : ResyncReason) : bool :=
  match r with ReasonChecksum _ => true | ReasonOther _ => false end.

Definition ResyncReason_fmt (r : ResyncReason) : string :=
  match r with ReasonChecksum m | ReasonOther m => m end.

Record ResyncNeeded := { reason : ResyncReason; action : RecoveryAction }.

Inductive BookOutput := OutApplied | OutSnapshot.

(** ** SourcedOrderbook *)

Section SourcedOrderbook.
Context {NU : Numeric} {CRC : Crc32}.

Record L3Pos := { pos_is_ask : bool; pos_price : Dec; pos_size : Dec }.

Record SourcedOrderbook := {
  book : OrderbookDelta;
  model : ReconstructionModel;
  recovery : RecoveryAction;
  state : OrderBookState;
  last : option N;
  l3_orders : gmap string L3Pos;
  l3_levels : btree (bool * Dec) Dec
}.

Definition SourcedOrderbook_new (p : TradingPair) (m : ReconstructionModel)
    (r : RecoveryAction) : SourcedOrderbook := {|
  book := match m with
          | ChecksumDelta KrakenTop10 => with_max_depth (Some 10) (OrderbookDelta_new p)
          | _ => OrderbookDelta_new p
          end;
  model := m; recovery := r; state := BookEmpty; last := None;
  l3_orders := ∅; l3_levels := []
|}.

Definition with_book (b : OrderbookDelta) (s : SourcedOrderbook) : SourcedOrderbook := {|
  book := b; model := model s; recovery := recovery s; state := state s;
  last := last s; l3_orders := l3_orders s; l3_levels := l3_levels s
|}.
Definition with_state (st : OrderBookState) (s : SourcedOrderbook) : SourcedOrderbook := {|
  book := book s; model := model s; recovery := recovery s; state := st;
  last := last s; l3_orders := l3_orders s; l3_levels := l3_levels s
|}.
Definition with_last (l : option N) (s : SourcedOrderbook) : SourcedOrderbook := {|
  book := book s; model := model s; recovery := recovery s; state := state s;
  last := l; l3_orders := l3_orders s; l3_levels := l3_levels s
|}.
Definition with_l3 (os : gmap string L3Pos) (ls : btree (bool * Dec) Dec)
    (s : SourcedOrderbook) : SourcedOrderbook := {|
  book := book s; model := model s; recovery := recovery s; state := state s;
  last := last s; l3_orders := os; l3_levels := ls
|}.

Definition arm_config_depth (depth : option nat) (s : SourcedOrderbook) : SourcedOrderbook :=
  match model s with
  | ChecksumDelta _ => s
  | _ => with_book (with_max_depth depth (book s)) s
  end.

Definition close (s : SourcedOrderbook) : SourcedOrderbook := with_state BookClosed s.

(** [gap]: the state is [Gapped], the result an error with the recovery action. *)
Definition gap (r : ResyncReason) (s : SourcedOrderbook)
    : SourcedOrderbook * Result BookOutput ResyncNeeded :=
  (with_state BookGapped s, Err {| reason := r; action := recovery s |}).

Definition force_gap (s : SourcedOrderbook) : SourcedOrderbook := {|
  book := with_sides [] [] (book s); model := model s; recovery := recovery s;
  state := BookGapped; last := None; l3_orders := ∅; l3_levels := []
|}.

(** [self.book.process(&d).map_err(|e| self.gap(e.to_string()))?] followed by the
    continuation [k] on the updated book. *)
Definition process_or_gap (d : NormalizedDelta) (s : SourcedOrderbook)
    (k : SourcedOrderbook -> SourcedOrderbook * Result BookOutput ResyncNeeded)
    : SourcedOrderbook * Result BookOutput ResyncNeeded :=
  match process d (book s) with
  | (b, Ok _) => k (with_book b s)
  | (b, Err e) => gap (ReasonOther (OrderbookError_fmt e)) (with_book b s)
  end.

(** [self.last = Some(update_id); self.state = Synced; Ok(out)] *)
Definition accept (uid : N) (out : BookOutput) (s : SourcedOrderbook)
    : SourcedOrderbook * Result BookOutput ResyncNeeded :=
  (with_state BookSynced (with_last (Some uid) s), Ok out).

Definition force_snapshot (d : NormalizedDelta) : NormalizedDelta := {|
  symbol := symbol d; nd_bids := nd_bids d; nd_asks := nd_asks d;
  update_id := update_id d; nd_sequence := nd_sequence d;
  source_orderbook_ts_us := source_orderbook_ts_us d;
  local_orderbook_ts_us := local_orderbook_ts_us d;
  source_orderbook_rtt_us := source_orderbook_rtt_us d;
  checksum := checksum d; orders := orders d; is_snapshot := true
|}.

Definition apply_full_refresh (d : NormalizedDelta) (s : SourcedOrderbook)
    : SourcedOrderbook * Result BookOutput ResyncNeeded :=
  process_or_gap (force_snapshot d) s (accept (update_id d) OutSnapshot).

Definition continuous (p : SeqPredicate) (last : N) (d : NormalizedDelta) : bool :=
  match p with
  | RangeInclusive => (nd_sequence d <=? u64_add last 1)%N && (last <? update_id d)%N
  | ExactPrev => (nd_sequence d =? last)%N
  | Monotonic => (last <? update_id d)%N
  end.

Definition seq_gap_text (last : N) (d : NormalizedDelta) : string :=
  ("seq gap: last=" ++ pretty last ++ " update_id=" ++ pretty (update_id d) ++
   " sequence=" ++ pretty (nd_sequence d))%string.

Definition apply_seq_delta (p : SeqPredicate) (d : NormalizedDelta) (s : SourcedOrderbook)
    : SourcedOrderbook * Result BookOutput ResyncNeeded :=
  if is_snapshot d then process_or_gap d s (accept (update_id d) OutSnapshot)
  else
    match last s with
    | None => gap (ReasonOther "delta received before snapshot") s
    | Some l =>
      if continuous p l d then process_or_gap d s (accept (update_id d) OutApplied)
      else gap (ReasonOther (seq_gap_text l d)) s
    end.

Definition out_of (snapshot : bool) : BookOutput :=
  if snapshot then OutSnapshot else OutApplied.

(** The checksum is verified on the book the frame produced; [last] has moved by
    then, the state has not. *)
Definition apply_checksummed (fmt : ChecksumFmt) (d : NormalizedDelta)
    (s : SourcedOrderbook) : SourcedOrderbook * Result BookOutput ResyncNeeded :=
  process_or_gap d s (fun s =>
    let s := with_last (Some (update_id d)) s in
    match checksum d with
    | Some expected =>
      let computed := book_checksum fmt (book s) in
      if (computed =? expected)%Z
      then (with_state BookSynced s, Ok (out_of (is_snapshot d)))
      else gap (ReasonChecksum ("checksum mismatch: computed=" ++ pretty computed ++
                                " expected=" ++ pretty expected)%string) s
    | None =>
      if is_snapshot d then (with_state BookSynced s, Ok OutSnapshot)
      else gap (ReasonChecksum "checksum absent on a checksum-model delta frame") s
    end).

(** *** The per-order model *)

Definition level_key_eqb (a b : bool * Dec) : bool := Bool.eqb a.1 b.1 && deqb a.2 b.2.

(** [touch]: append unless already there. *)
Definition touch (touched : list (bool * Dec)) (key : bool * Dec) : list (bool * Dec) :=
  if existsb (fun k => level_key_eqb k key) touched then touched else touched ++ [key].

Definition l3_state : Type :=
  gmap string L3Pos * btree (bool * Dec) Dec * list (bool * Dec).

(** The first half of the loop body: an order already known leaves its level. *)
Definition l3_remove_old (o : L3Order) (st : l3_state) : l3_state :=
  let '(os, ls, touched) := st in
  match os !! order_id o with
  | None => st
  | Some old =>
    let key := (pos_is_ask old, pos_price old) in
    let ls :=
      match bt_get key ls with
      | Some total =>
        let total := dsub total (pos_size old) in
        if dleb total dzero then bt_remove key ls else bt_insert key total ls
      | None => ls
      end in
    (delete (order_id o) os, ls, touch touched key)
  end.

(** The second half: an open order joins its level. *)
Definition l3_add_new (o : L3Order) (st : l3_state) : l3_state :=
  let '(os, ls, touched) := st in
  if removed o then st
  else
    match dparse_exact (l3_price o), dparse_exact (l3_size o) with
    | Ok price, Ok size =>
      if dleb size dzero then st
      else
        let key := (l3_is_ask o, price) in
        let total := default dzero (bt_get key ls) in
        (<[order_id o := {| pos_is_ask := l3_is_ask o; pos_price := price; pos_size := size |}]> os,
         bt_insert key (dadd total size) ls,
         touch touched key)
    | _, _ => st
    end.

Definition l3_order (st : l3_state) (o : L3Order) : l3_state := l3_add_new o (l3_remove_old o st).

(** The touched levels of one side, as the strings handed to the book. *)
Definition l3_level_strings (ask : bool) (ls : btree (bool * Dec) Dec)
    (touched : list (bool * Dec)) : list (string * string) :=
  map (fun key => (dshow key.2, dshow (default dzero (bt_get key ls))))
      (List.filter (fun key => Bool.eqb key.1 ask) touched).

Definition l3_level_delta (d : NormalizedDelta) (ls : btree (bool * Dec) Dec)
    (touched : list (bool * Dec)) : NormalizedDelta := {|
  symbol := symbol d;
  nd_bids := l3_level_strings false ls touched;
  nd_asks := l3_level_strings true ls touched;
  update_id := update_id d; nd_sequence := nd_sequence d;
  source_orderbook_ts_us := source_orderbook_ts_us d;
  local_orderbook_ts_us := 0; source_orderbook_rtt_us := 0;
  checksum := None; orders := []; is_snapshot := is_snapshot d
|}.

Definition apply_l3 (d : NormalizedDelta) (s : SourcedOrderbook)
    : SourcedOrderbook * Result BookOutput ResyncNeeded :=
  let s := if is_snapshot d then with_l3 ∅ [] s else s in
  let '(os, ls, touched) := fold_left l3_order (orders d) (l3_orders s, l3_levels s, []) in
  let s := with_l3 os ls s in
  if (L3_MAX_ORDERS <? N.of_nat (size os))%N
  then gap (ReasonOther "l3 order map exceeded 200000 entries; re-seeding") s
  else process_or_gap (l3_level_delta d ls touched) s
         (accept (update_id d) (out_of (is_snapshot d))).

(** *** The apply of every model *)

Definition apply_model (d : NormalizedDelta) (s : SourcedOrderbook)
    : SourcedOrderbook * Result BookOutput ResyncNeeded :=
  match model s with
  | FullRefresh => apply_full_refresh d s
  | SeqDelta predicate _ => apply_seq_delta predicate d s
  | ChecksumDelta fmt => apply_checksummed fmt d s
  | L3 _ => apply_l3 d s
  end.

Definition crossed_text (bid ask : Dec) : string :=
  ("book crossed after apply: best_bid " ++ dshow bid ++ " >= best_ask " ++ dshow ask)%string.

Definition apply (d : NormalizedDelta) (s : SourcedOrderbook)
    : SourcedOrderbook * Result BookOutput ResyncNeeded :=
  match apply_model d s with
  | (s, Err e) => (s, Err e)
  | (s, Ok output) =>
    match best_bid (book s), best_ask (book s) with
    | Some (bid, _), Some (ask, _) =>
      if dleb ask bid then gap (ReasonOther (crossed_text bid ask)) s else (s, Ok output)
    | _, _ => (s, Ok output)
    end
  end.
End SourcedOrderbook.

(** ** SourcedTradebook *)

Record SourcedTradebook := {
  tb_pair : TradingPair;
  last_seq : option N;
  tb_state : TradeBookState;
  count : N;
  gap_events : N;
  trades_lost : N
}.

Definition SourcedTradebook_new (p : TradingPair) : SourcedTradebook := {|
  tb_pair := p; last_seq := None; tb_state := TradesEmpty;
  count := 0; gap_events := 0; trades_lost := 0
|}.

Definition with_last_seq (l : option N) (t : SourcedTradebook) : SourcedTradebook := {|
  tb_pair := tb_pair t; last_seq := l; tb_state := tb_state t;
  count := count t; gap_events := gap_events t; trades_lost := trades_lost t
|}.

Definition tb_close (t : SourcedTradebook) : SourcedTradebook := {|
  tb_pair := tb_pair t; last_seq := last_seq t; tb_state := TradesClosed;
  count := count t; gap_events := gap_events t; trades_lost := trades_lost t
|}.

(** Append with [missed] prints lost before this one ([None]: continuity held). *)
Definition tb_append (sq : option N) (missed : option N) (t : SourcedTradebook)
    : SourcedTradebook := {|
  tb_pair := tb_pair t;
  last_seq := match sq with Some s => Some s | None => last_seq t end;
  tb_state := TradesSynced;
  count := u64_add (count t) 1;
  gap_events := match missed with Some _ => u64_add (gap_events t) 1 | None => gap_events t end;
  trades_lost := match missed with Some m => u64_add (trades_lost t) m | None => trades_lost t end
|}.

(** The print itself only travels on to the caller. *)
Definition tb_apply (sq : option N) (t : SourcedTradebook) : SourcedTradebook * TradeApply :=
  match sq, last_seq t with
  | Some s, Some l =>
    if (s <=? l)%N then (t, TradeDuplicate)
    else if (u64_add l 1 <? s)%N
    then let missed := u64_sub (u64_sub s l) 1 in
         (tb_append sq (Some missed) t, TradeGappedApplied missed)
    else (tb_append sq None t, TradeApplied)
  | _, _ => (tb_append sq None t, TradeApplied)
  end.
