(* ===== verification/ModelProps.v ===== *)
(** * Properties of the reconstruction state machines

    Theorems on the definitions of [Model]: outcomes of an apply, continuity of
    accepted runs, checksum agreement, gaps, trade accounting, timestamps.  The
    per-order model has its own file, [L3Props]. *)

From Stdlib Require Import QArith Ascii String.
From stdpp Require Import gmap strings.
From S2P Require Import Prelude BTree Strings Numeric Pairs Types Delta Checksum Model.
Local Open Scope nat_scope.

(** ** Lemmas *)

Section Apply.
Context {NU : Numeric} {CRC : Crc32} {NL : NumericLaws NU}.
Implicit Types (s : SourcedOrderbook) (d : NormalizedDelta).

(** What every apply leaves alone. *)
Definition same_config s s' : Prop :=
  model s' = model s /\ recovery s' = recovery s /\
  pair (book s') = pair (book s) /\ max_depth (book s') = max_depth (book s).

#[export] Instance same_config_refl : Reflexive same_config.
Proof. by intros s. Qed.
#[export] Instance same_config_trans : Transitive same_config.
Proof. unfold same_config. intros a b c. intros (-> & -> & -> & ->). tauto. Qed.

(** An apply ends either [Synced] at the frame's id, or [Gapped] with an error
    that carries the recovery action. *)
Definition outcome_ok (uid : N) s (r : SourcedOrderbook * Result BookOutput ResyncNeeded)
    : Prop :=
  same_config s r.1 /\
  match r.2 with
  | Ok _ => state r.1 = BookSynced /\ last r.1 = Some uid /\ book_bounded (book r.1)
  | Err e => state r.1 = BookGapped /\ action e = recovery s
  end.

Lemma same_config_process d s :
  same_config s (with_book (process d (book s)).1 s).
Proof.
  destruct (process_pair_depth d (book s)) as [Hp Hm]. by split_and!.
Qed.

Lemma process_or_gap_outcome uid d s k :
  (forall s', same_config s s' -> book_bounded (book s') -> outcome_ok uid s' (k s')) ->
  outcome_ok uid s (process_or_gap d s k).
Proof.
  intros Hk. unfold process_or_gap. pose proof (same_config_process d s) as Hc.
  destruct (process d (book s)) as [b [u|e]] eqn:Hp; simpl in Hc.
  - apply process_ok_bounded in Hp. destruct (Hk _ Hc Hp) as [Hc' Hr].
    split; [by etrans|]. destruct (k _) as [s' [o|e]]; simpl in *; [done|].
    by destruct Hr as [? ->].
  - by split.
Qed.

Lemma accept_outcome uid out s :
  book_bounded (book s) -> outcome_ok uid s (accept uid out s).
Proof. intros Hb. by split_and!. Qed.

Lemma apply_model_outcome d s : outcome_ok (update_id d) s (apply_model d s).
Proof.
  unfold apply_model. destruct (model s) as [|p src|fmt|src].
  - apply process_or_gap_outcome. intros. by apply accept_outcome.
  - unfold apply_seq_delta. destruct (is_snapshot d).
    { apply process_or_gap_outcome. intros. by apply accept_outcome. }
    destruct (last s) as [l|]; [|by split].
    destruct (continuous p l d); [|by split].
    apply process_or_gap_outcome. intros. by apply accept_outcome.
  - apply process_or_gap_outcome. intros s' _ Hb. simpl.
    destruct (checksum d) as [c|].
    + destruct (book_checksum fmt _ =? c)%Z; by split_and!.
    + destruct (is_snapshot d); by split_and!.
  - unfold apply_l3. set (s0 := if is_snapshot d then _ else _).
    assert (same_config s s0) as Hc0 by (unfold s0; by destruct (is_snapshot d)).
    destruct (fold_left _ _ _) as [[os ls] touched].
    assert (same_config s (with_l3 os ls s0)) as Hc by (etrans; [exact Hc0|by split_and!]).
    destruct (L3_MAX_ORDERS <? _)%N; [split; simpl; [exact Hc|]; split; [done|apply Hc]|].
    assert (outcome_ok (update_id d) (with_l3 os ls s0)
              (process_or_gap (l3_level_delta d ls touched) (with_l3 os ls s0)
                 (accept (update_id d) (out_of (is_snapshot d))))) as [Hc' Hr].
    { apply process_or_gap_outcome. intros. by apply accept_outcome. }
    split; [by etrans|]. destruct (process_or_gap _ _ _) as [s' [o|e]]; simpl in *; [done|].
    destruct Hr as [? ->]. split; [done|]. apply Hc.
Qed.

Lemma apply_eq d s :
  apply d s =
  match (apply_model d s).2 with
  | Err e => ((apply_model d s).1, Err e)
  | Ok output =>
    match best_bid (book (apply_model d s).1), best_ask (book (apply_model d s).1) with
    | Some (bid, _), Some (ask, _) =>
      if dleb ask bid then gap (ReasonOther (crossed_text bid ask)) (apply_model d s).1
      else ((apply_model d s).1, Ok output)
    | _, _ => ((apply_model d s).1, Ok output)
    end
  end.
Proof. unfold apply. by destruct (apply_model d s) as [s' [o|e]]. Qed.

(** A successful apply is the model's, on a book that is not crossed. *)
Lemma apply_ok_iff d s s' o :
  apply d s = (s', Ok o) <->
  apply_model d s = (s', Ok o) /\ crossed (book s') = false.
Proof.
  unfold apply, crossed. destruct (apply_model d s) as [s1 [o1|e]]; [|by split; [|intros [? _]]].
  destruct (best_bid (book s1)) as [[bid ?]|] eqn:Eb;
    destruct (best_ask (book s1)) as [[ask ?]|] eqn:Ea.
  - destruct (dleb ask bid) eqn:Hx.
    + split; [done|]. intros [[= <- <-] Hc]. rewrite Eb, Ea in Hc. congruence.
    + split; [|by intros [? _]]. intros [= <- <-]. by rewrite Eb, Ea.
  - split; [|by intros [? _]]. intros [= <- <-]. by rewrite Eb, Ea.
  - split; [|by intros [? _]]. intros [= <- <-]. by rewrite Eb.
  - split; [|by intros [? _]]. intros [= <- <-]. by rewrite Eb.
Qed.

Lemma apply_is_ok d s :
  is_ok (apply d s).2 = true <->
  is_ok (apply_model d s).2 = true /\ crossed (book (apply_model d s).1) = false.
Proof.
  destruct (apply d s) as [s' [o|e]] eqn:E; simpl.
  - apply apply_ok_iff in E as [-> ?]. done.
  - split; [done|]. intros [Ho Hc].
    destruct (apply_model d s) as [s1 [o1|]] eqn:Em; [|done].
    assert (apply d s = (s1, Ok o1)) by (by apply apply_ok_iff). congruence.
Qed.

Lemma apply_outcome_ok d s : outcome_ok (update_id d) s (apply d s).
Proof.
  pose proof (apply_model_outcome d s) as [Hc Hr]. rewrite apply_eq.
  destruct (apply_model d s) as [s1 [o|e]]; simpl in *; [|by split].
  destruct (best_bid (book s1)) as [[bid ?]|]; [|by split].
  destruct (best_ask (book s1)) as [[ask ?]|]; [|by split].
  destruct (dleb ask bid); [|by split]. split; [done|]. split; [done|]. apply Hc.
Qed.

Lemma apply_same_config d s : same_config s (apply d s).1.
Proof. apply apply_outcome_ok. Qed.

(** The book of every outcome is sorted and without empty levels. *)
Lemma process_or_gap_book d s k :
  (forall s', book (k s').1 = book s') ->
  book (process_or_gap d s k).1 = (process d (book s)).1.
Proof.
  intros Hk. unfold process_or_gap. destruct (process d (book s)) as [b [u|e]]; [|done].
  by rewrite Hk.
Qed.

Lemma apply_model_book d s :
  book (apply_model d s).1 = book s \/
  exists d', book (apply_model d s).1 = (process d' (book s)).1.
Proof.
  unfold apply_model. destruct (model s) as [|p src|fmt|src].
  - right. eexists. by apply process_or_gap_book.
  - unfold apply_seq_delta. destruct (is_snapshot d); [right; eexists; by apply process_or_gap_book|].
    destruct (last s) as [l|]; [|by left]. destruct (continuous p l d); [|by left].
    right. eexists. by apply process_or_gap_book.
  - right. eexists. apply process_or_gap_book. intros s'.
    simpl. destruct (checksum d) as [c|]; [|by destruct (is_snapshot d)].
    by destruct (book_checksum fmt (book s') =? c)%Z.
  - unfold apply_l3. set (s0 := if is_snapshot d then _ else _).
    assert (book s0 = book s) as E by (unfold s0; by destruct (is_snapshot d)).
    destruct (fold_left _ _ _) as [[os ls] touched].
    destruct (L3_MAX_ORDERS <? _)%N; [by left|].
    right. eexists. rewrite process_or_gap_book; [|done]. simpl. by rewrite E.
Qed.

Lemma apply_book d s : book (apply d s).1 = book (apply_model d s).1.
Proof.
  rewrite apply_eq. destruct (apply_model d s) as [s1 [o|e]]; simpl; [|done].
  destruct (best_bid (book s1)) as [[bid ?]|]; [|done].
  destruct (best_ask (book s1)) as [[ask ?]|]; [|done]. by destruct (dleb ask bid).
Qed.

Lemma apply_book_ok d s : book_ok (book s) -> book_ok (book (apply d s).1).
Proof.
  intros Hok. rewrite apply_book. destruct (apply_model_book d s) as [-> | [d' ->]]; [done|].
  by apply process_inv.
Qed.
End Apply.

(** ** Properties of the order book *)

Section BookProperties.
Context {NU : Numeric} {CRC : Crc32} {NL : NumericLaws NU}.
Implicit Types (s : SourcedOrderbook) (d : NormalizedDelta).

(** C1: An apply never drops a frame silently.  Either it succeeds: the book is
    [Synced] at the frame's update id, within its depth cap and not crossed.  Or it
    raises the resync signal with the venue's recovery action and the book is
    [Gapped].  Sides stay sorted and without empty levels in both cases, and the
    pair, the model and the recovery action never change. *)
Theorem apply_outcome d s :
  book_ok (book s) ->
  let '(s', r) := apply d s in
  same_config s s' /\ book_ok (book s') /\
  match r with
  | Ok _ => state s' = BookSynced /\ last s' = Some (update_id d) /\
            book_bounded (book s') /\ crossed (book s') = false
  | Err e => state s' = BookGapped /\ action e = recovery s
  end.
Proof.
  intros Hok. pose proof (apply_outcome_ok d s) as [Hc Hr].
  pose proof (apply_book_ok d s Hok) as Hb.
  destruct (apply d s) as [s' [o|e]] eqn:E; simpl in *; [|done].
  apply apply_ok_iff in E as [_ Hx]. tauto.
Qed.

Lemma process_or_gap_accept d s uid out :
  (exists b u, process d (book s) = (b, Ok u) /\
     process_or_gap d s (accept uid out) =
     (with_state BookSynced (with_last (Some uid) (with_book b s)), Ok out)) \/
  (exists b e, process d (book s) = (b, Err e) /\
     process_or_gap d s (accept uid out) =
     gap (ReasonOther (OrderbookError_fmt e)) (with_book b s)).
Proof.
  unfold process_or_gap, accept. destruct (process d (book s)) as [b [u|e]]; eauto 6.
Qed.

(** When a sequenced book accepts a delta: exactly when a previous id is known,
    the frame continues it under the venue's predicate, the frame itself applies,
    and the result is not crossed.  In particular no continuous frame is refused
    and no discontinuous frame is applied. *)
Theorem seq_delta_accepts_iff p src d s :
  model s = SeqDelta p src -> is_snapshot d = false ->
  is_ok (apply d s).2 = true <->
  exists l, last s = Some l /\ continuous p l d = true /\
    is_ok (process d (book s)).2 = true /\ crossed (process d (book s)).1 = false.
Proof.
  intros Hm Hd. rewrite apply_is_ok. unfold apply_model. rewrite Hm.
  unfold apply_seq_delta. rewrite Hd.
  destruct (last s) as [l|]; simpl; [|by split; [intros [? _]|intros (? & ? & _)]].
  destruct (continuous p l d) eqn:Hc; simpl;
    [|split; [by intros [? _]|intros (? & ? & Hc' & _); simplify_eq; congruence]].
  destruct (process_or_gap_accept d s (update_id d) OutApplied)
    as [(b & u & Hp & ->)|(b & e & Hp & ->)]; rewrite Hp; simpl.
  - split; [intros [_ ?]; eauto 6|]. by intros (? & _ & _ & _ & ?).
  - split; [by intros [? _]|]. by intros (? & _ & _ & ? & _).
Qed.
End BookProperties.

(** ** Runs of frames *)

Section Runs.
Context {NU : Numeric} {CRC : Crc32} {NL : NumericLaws NU}.
Implicit Types (s : SourcedOrderbook) (d : NormalizedDelta).

(** Apply frames in order as long as they are accepted. *)
Fixpoint apply_all (ds : list NormalizedDelta) (s : SourcedOrderbook)
    : option SourcedOrderbook :=
  match ds with
  | [] => Some s
  | d :: ds' => match apply d s with (s', Ok _) => apply_all ds' s' | (_, Err _) => None end
  end.

(** Each frame's previous-id pointer is the id before it. *)
Fixpoint chained (l : N) (ds : list NormalizedDelta) : Prop :=
  match ds with
  | [] => True
  | d :: ds' => nd_sequence d = l /\ chained (update_id d) ds'
  end.

Fixpoint increasing (l : N) (ds : list NormalizedDelta) : Prop :=
  match ds with
  | [] => True
  | d :: ds' => (l < update_id d)%N /\ increasing (update_id d) ds'
  end.

Definition is_delta d : Prop := is_snapshot d = false.

(** One accepted delta of a sequenced book. *)
Lemma seq_delta_accepted p src d s :
  model s = SeqDelta p src -> is_delta d -> is_ok (apply d s).2 = true ->
  exists l, last s = Some l /\ continuous p l d = true.
Proof.
  intros Hm Hd. rewrite apply_is_ok. unfold apply_model. rewrite Hm.
  unfold apply_seq_delta. rewrite Hd.
  destruct (last s) as [l|]; simpl; [|by intros [? _]].
  destruct (continuous p l d) eqn:Hc; simpl; [eauto|by intros [? _]].
Qed.

Lemma seq_delta_step p src d s s' o :
  model s = SeqDelta p src -> is_delta d -> apply d s = (s', Ok o) ->
  exists l, last s = Some l /\ continuous p l d = true /\
    last s' = Some (update_id d) /\ model s' = SeqDelta p src.
Proof.
  intros Hm Hd E.
  assert (is_ok (apply d s).2 = true) as Hok by by rewrite E.
  apply (seq_delta_accepted p src) in Hok as (l & Hl & Hc); [|done..].
  pose proof (apply_outcome_ok d s) as [(Hm' & _) Hr]. rewrite E in Hm', Hr. simpl in *.
  destruct Hr as (_ & ? & _). exists l. split_and!; [done..|congruence].
Qed.

(** No id is lost in an accepted run of a range-sequenced book (Binance): the
    final ids strictly increase, and every id between the starting point and the
    last frame's final id lies in the range of some frame of the run. *)
Theorem range_inclusive_no_gap src ds s s' l :
  model s = SeqDelta RangeInclusive src -> last s = Some l -> Forall is_delta ds ->
  apply_all ds s = Some s' ->
  exists l', last s' = Some l' /\ (l <= l')%N /\ increasing l ds /\
    forall n, (l < n)%N -> (n <= l')%N ->
      exists d, d ∈ ds /\ (nd_sequence d <= n)%N /\ (n <= update_id d)%N.
Proof.
  intros Hm Hl Hds. revert s l Hm Hl.
  induction Hds as [|d ds Hd Hds IH]; intros s l Hm Hl Hrun; simpl in Hrun.
  { simplify_eq. exists l. split_and!; [done|lia|done|lia]. }
  destruct (apply d s) as [s1 [o|e]] eqn:E; [|done].
  destruct (seq_delta_step _ _ _ _ _ _ Hm Hd E) as (l0 & Hl0 & Hc & Hl1 & Hm1).
  simplify_eq. simpl in Hc. apply andb_true_iff in Hc as [Hlo%N.leb_le Hhi%N.ltb_lt].
  assert (u64_add l 1 <= l + 1)%N by (apply N.Div0.mod_le).
  destruct (IH _ _ Hm1 Hl1 Hrun) as (l' & Hl' & Hle & Hinc & Hcov).
  exists l'. split_and!; [done|lia|done|].
  intros n Hn1 Hn2. destruct (decide (n <= update_id d)%N) as [Hn|Hn].
  - exists d. split_and!; [by left|lia|done].
  - destruct (Hcov n) as (d' & Hin & ?); [lia|done|]. exists d'. split; [by right|done].
Qed.

(** In an accepted run of a pointer-sequenced book (HTX, Poloniex) every frame
    points at the id of the frame before it, the first at the book's last id. *)
Theorem exact_prev_chain src ds s s' l :
  model s = SeqDelta ExactPrev src -> last s = Some l -> Forall is_delta ds ->
  apply_all ds s = Some s' -> chained l ds.
Proof.
  intros Hm Hl Hds. revert s l Hm Hl.
  induction Hds as [|d ds Hd Hds IH]; intros s l Hm Hl Hrun; simpl in *; [done|].
  destruct (apply d s) as [s1 [o|e]] eqn:E; [|done].
  destruct (seq_delta_step _ _ _ _ _ _ Hm Hd E) as (l0 & Hl0 & Hc & Hl1 & Hm1).
  simplify_eq. simpl in Hc. split; [by apply N.eqb_eq|]. by eapply IH.
Qed.

(** A checksum-validated book that reports success agrees with the venue: the
    checksum the frame carries is the checksum of the book as it now stands, and a
    delta without a checksum is never accepted. *)
Theorem checksum_delta_agrees fmt d s s' o :
  model s = ChecksumDelta fmt -> apply d s = (s', Ok o) ->
  match checksum d with
  | Some c => book_checksum fmt (book s') = c
  | None => is_snapshot d = true
  end.
Proof.
  intros Hm [E _]%apply_ok_iff. unfold apply_model in E. rewrite Hm in E.
  unfold apply_checksummed, process_or_gap in E.
  destruct (process d (book s)) as [b [u|e]]; [|done]. simpl in E.
  destruct (checksum d) as [c|].
  - destruct (book_checksum fmt b =? c)%Z eqn:Hc; [|done]. simplify_eq. simpl.
    by apply Z.eqb_eq.
  - by destruct (is_snapshot d).
Qed.

(** A forced gap invalidates a sequenced book until it is re-seeded: whatever
    deltas follow, all are refused, the book stays [Gapped] and empty. *)
Theorem force_gap_blocks_deltas p src ds s :
  model s = SeqDelta p src -> Forall is_delta ds ->
  let s' := fold_left (fun s d => (apply d s).1) ds (force_gap s) in
  state s' = BookGapped /\ last s' = None /\ bids (book s') = [] /\ asks (book s') = [] /\
  forall d, is_delta d -> is_ok (apply d s').2 = false.
Proof.
  intros Hm Hds. cbv zeta.
  assert (forall d s, model s = SeqDelta p src -> last s = None -> is_delta d ->
            apply d s = gap (ReasonOther "delta received before snapshot") s) as Hgap.
  { intros d s1 Hm1 Hl1 Hd. unfold apply, apply_model. rewrite Hm1.
    unfold apply_seq_delta. by rewrite Hd, Hl1. }
  assert (model (force_gap s) = SeqDelta p src) as H1 by done.
  assert (state (force_gap s) = BookGapped /\ last (force_gap s) = None /\
          bids (book (force_gap s)) = [] /\ asks (book (force_gap s)) = []) as H2 by done.
  revert H1 H2. generalize (force_gap s). clear s Hm.
  induction Hds as [|d ds Hd Hds IH]; intros s Hm (Hst & Hl & Hb & Ha); simpl.
  - split_and!; try done. intros d Hd. by rewrite Hgap.
  - rewrite Hgap by done. by apply IH.
Qed.
End Runs.

(** ** Properties of the trade log *)

Section Trades.
Implicit Types (t : SourcedTradebook).

Definition tb_run (seqs : list N) (t : SourcedTradebook) : SourcedTradebook :=
  fold_left (fun t sq => (tb_apply (Some sq) t).1) seqs t.

(** Every id since [l0] is either counted or accounted as lost. *)
Definition tb_accounts (l0 l : N) t : Prop :=
  last_seq t = Some l /\ (l < u64_modulus)%N /\ l = (l0 + count t + trades_lost t)%N /\
  (gap_events t <= trades_lost t)%N /\ (gap_events t <= count t)%N.

Lemma tb_apply_accounts l0 l sq t :
  tb_accounts l0 l t -> is_u64 sq ->
  tb_accounts l0 (N.max l sq) (tb_apply (Some sq) t).1.
Proof.
  intros (Hl & Hlu & Hsum & Hg1 & Hg2) Hsq. unfold is_u64 in Hsq.
  unfold tb_apply. rewrite Hl. destruct (N.leb_spec sq l) as [Hle|Hgt].
  { simpl. rewrite N.max_l by done. by split_and!. }
  rewrite u64_add_small by (unfold u64_modulus in *; lia).
  rewrite N.max_r by lia. destruct (N.ltb_spec (l + 1) sq); simpl.
  - rewrite (u64_sub_small sq l) by lia.
    rewrite (u64_sub_small (sq - l) 1) by lia.
    unfold tb_accounts; simpl. rewrite !u64_add_small by lia.
    split_and!; [done|lia..].
  - unfold tb_accounts; simpl. rewrite u64_add_small by lia. split_and!; [done|lia..].
Qed.

(** Trade accounting is exact across any run of venue sequence numbers, in any
    order and with repeats, starting from the carry of a previous connection: the
    last sequence is the largest seen, every number since the carry is either
    counted or in [trades_lost], and a gap event is one counted print with a
    positive loss before it.  No counter wraps. *)
Theorem tradebook_accounting p l0 seqs :
  is_u64 l0 -> Forall is_u64 seqs ->
  let t := tb_run seqs (with_last_seq (Some l0) (SourcedTradebook_new p)) in
  tb_accounts l0 (fold_left N.max seqs l0) t.
Proof.
  intros Hl0 Hseqs. cbv zeta.
  assert (tb_accounts l0 l0 (with_last_seq (Some l0) (SourcedTradebook_new p))) as H0.
  { split_and!; simpl; lia || done. }
  revert H0. generalize (with_last_seq (Some l0) (SourcedTradebook_new p)).
  generalize l0 at 2 4. clear Hl0.
  induction Hseqs as [|sq seqs Hsq Hseqs IH]; intros l t Ht; simpl; [done|].
  apply IH. by apply tb_apply_accounts.
Qed.

Lemma tradebook_accounting_witness :
  trades_lost (tb_run [6; 9; 9; 12]%N (with_last_seq (Some 5%N) (SourcedTradebook_new ex_pair))) = 4%N
  /\ tb_accounts 5 12 (tb_run [6; 9; 9; 12]%N
       (with_last_seq (Some 5%N) (SourcedTradebook_new ex_pair))).
Proof.
  split; [reflexivity|].
  exact (tradebook_accounting ex_pair 5 [6; 9; 9; 12]%N eq_refl ltac:(repeat constructor)).
Defined.
End Trades.

(** ** Timestamps *)

(** The unit of a venue timestamp is recovered by magnitude: an instant given in
    seconds, milliseconds, microseconds or nanoseconds maps to the same instant in
    microseconds, for every instant whose seconds are below 10^11 and whose
    milliseconds are at least 10^11 (years 1973 to 5138), and no product wraps. *)
Theorem epoch_to_us_units us :
  (100000000000000 <= us < 100000000000000000)%N ->
  epoch_to_us (us / 1000000) = (us / 1000000 * 1000000)%N /\
  epoch_to_us (us / 1000) = (us / 1000 * 1000)%N /\
  epoch_to_us us = us /\
  (forall ns, (ns < 1000)%N -> epoch_to_us (us * 1000 + ns) = us).
Proof.
  intros [Hlo Hhi]. unfold epoch_to_us.
  pose proof (N.Div0.div_lt_upper_bound us 1000000 100000000000 ltac:(lia)).
  pose proof (N.div_le_lower_bound us 1000000 100000000 ltac:(done) ltac:(lia)).
  pose proof (N.Div0.div_lt_upper_bound us 1000 100000000000000 ltac:(lia)).
  pose proof (N.div_le_lower_bound us 1000 100000000000 ltac:(done) ltac:(lia)).
  split_and!.
  - crush_match; reflect_bools; try lia. apply u64_mul_small. unfold u64_modulus. lia.
  - crush_match; reflect_bools; try lia. apply u64_mul_small. unfold u64_modulus. lia.
  - crush_match; reflect_bools; lia.
  - intros ns Hns. crush_match; reflect_bools; try lia.
    symmetry. apply (N.div_unique _ _ _ ns); lia.
Qed.

Lemma epoch_to_us_units_witness :
  epoch_to_us (1700000000123456 / 1000) = 1700000000123000%N.
Proof.
  exact (proj1 (proj2 (epoch_to_us_units 1700000000123456 ltac:(split; [discriminate|reflexivity])))).
Defined.

(** ** Concrete runs *)

Section ConcreteRuns.
Local Existing Instance decimal_numeric.
Local Instance ex_crc : Crc32 := fun _ => 7%N.
Local Open Scope string_scope.

Definition ex_sourced (m : ReconstructionModel) : SourcedOrderbook :=
  (apply ex_seed (SourcedOrderbook_new ex_pair m (recovery_action m))).1.

Definition ex_binance : ReconstructionModel := SeqDelta RangeInclusive RestSnapshot.
Definition ex_htx : ReconstructionModel := SeqDelta ExactPrev ReqOnSocket.

(** Two deltas, 8..10 and 11..11. *)
Definition ex_deltas : list NormalizedDelta :=
  [ex_frame false 10 8 [("99", "5")] []; ex_frame false 11 11 [] [("101.5", "2")]].

Lemma apply_outcome_witness :
  let '(s', r) := apply (ex_frame false 20 15 [] []) (ex_sourced ex_binance) in
  same_config (ex_sourced ex_binance) s' /\ book_ok (book s') /\
  match r with
  | Ok _ => state s' = BookSynced /\ last s' = Some 20%N /\
            book_bounded (book s') /\ crossed (book s') = false
  | Err e => state s' = BookGapped /\ action e = recovery (ex_sourced ex_binance)
  end.
Proof.
  exact (apply_outcome (ex_frame false 20 15 [] []) (ex_sourced ex_binance)
           (apply_book_ok ex_seed (SourcedOrderbook_new ex_pair ex_binance RecoverRestSnapshot)
              (OrderbookDelta_new_ok ex_pair))).
Defined.

Definition ex_next : NormalizedDelta := ex_frame false 10 8 [("99", "5")] [].

Lemma seq_delta_accepts_iff_witness : is_ok (apply ex_next (ex_sourced ex_binance)).2 = true.
Proof.
  apply (seq_delta_accepts_iff RangeInclusive RestSnapshot ex_next (ex_sourced ex_binance)
           eq_refl eq_refl).
  exists 7%N. repeat split; vm_compute; reflexivity.
Defined.

Lemma range_inclusive_no_gap_witness :
  exists s', apply_all ex_deltas (ex_sourced ex_binance) = Some s' /\
    exists l', last s' = Some l'.
Proof.
  assert (match apply_all ex_deltas (ex_sourced ex_binance) with
          | Some _ => true | None => false end = true) as Hrun by (vm_compute; reflexivity).
  destruct (apply_all ex_deltas (ex_sourced ex_binance)) as [s'|] eqn:E; [|discriminate].
  destruct (range_inclusive_no_gap RestSnapshot ex_deltas (ex_sourced ex_binance) s' 7
              ltac:(vm_compute; reflexivity) ltac:(vm_compute; reflexivity)
              ltac:(repeat constructor) E) as (l' & Hl' & _).
  exists s'. split; [reflexivity|]. exists l'. exact Hl'.
Defined.

Definition ex_pointed : list NormalizedDelta :=
  [ex_frame false 9 7 [("99", "5")] []; ex_frame false 12 9 [] [("101.5", "2")]].

Lemma exact_prev_chain_witness : chained 7 ex_pointed.
Proof.
  assert (match apply_all ex_pointed (ex_sourced ex_htx) with
          | Some _ => true | None => false end = true) as Hrun by (vm_compute; reflexivity).
  destruct (apply_all ex_pointed (ex_sourced ex_htx)) as [s'|] eqn:E; [|discriminate].
  exact (exact_prev_chain ReqOnSocket ex_pointed (ex_sourced ex_htx) s' 7
           ltac:(vm_compute; reflexivity) ltac:(vm_compute; reflexivity)
           ltac:(repeat constructor) E).
Defined.

Definition ex_summed (c : Z) : NormalizedDelta := {|
  symbol := "BTC/USDT"; nd_bids := [("99", "1")]; nd_asks := [("101", "2")];
  update_id := 3; nd_sequence := 3; source_orderbook_ts_us := 0; local_orderbook_ts_us := 0;
  source_orderbook_rtt_us := 0; checksum := Some c; orders := []; is_snapshot := true
|}.

Lemma checksum_delta_agrees_witness :
  let s := SourcedOrderbook_new ex_pair (ChecksumDelta OkxTop25) RecoverResubscribe in
  book_checksum OkxTop25 (book (apply (ex_summed 7) s).1) = 7%Z.
Proof.
  exact (checksum_delta_agrees OkxTop25 (ex_summed 7)
           (SourcedOrderbook_new ex_pair (ChecksumDelta OkxTop25) RecoverResubscribe) _ _
           eq_refl eq_refl).
Defined.

Lemma force_gap_blocks_deltas_witness :
  state (fold_left (fun s d => (apply d s).1) ex_deltas (force_gap (ex_sourced ex_binance))) =
  BookGapped.
Proof.
  exact (proj1 (force_gap_blocks_deltas RangeInclusive RestSnapshot ex_deltas
           (ex_sourced ex_binance) eq_refl ltac:(repeat constructor))).
Defined.

(** A [Gapped] book is not inert: a delta that continues the last accepted id takes
    it back to [Synced] without a re-seed. *)
Lemma gapped_book_resyncs :
  let s := (apply (ex_frame false 20 15 [] []) (ex_sourced ex_binance)).1 in
  state s = BookGapped /\
  state (apply (ex_frame false 8 8 [("99", "5")] []) s).1 = BookSynced.
Proof. by split. Qed.

(** A closed book is not inert either. *)
Lemma closed_book_reopens :
  state (apply ex_seed (close (ex_sourced ex_binance))).1 = BookSynced.
Proof. done. Qed.
End ConcreteRuns.
