(* ===== verification/L3Props.v ===== *)
(** * The per-order book (L3)

    [apply_l3] keeps a map from order ids to positions and, incrementally, the
    total size per price level, and writes the touched levels into the price
    book.  This file shows that the incremental totals are the sums of the open
    orders, and that the price book is their projection. *)

From Stdlib Require Import QArith Lqa Ascii String.
From stdpp Require Import gmap strings.
From S2P Require Import Prelude BTree Strings Numeric Pairs Types Delta Checksum Model ModelProps.
Local Open Scope nat_scope.

Section L3.
Context {NU : Numeric} {NL : NumericLaws NU} {NE : NumericExact NU NL}.
Local Open Scope Q_scope.

(** ** Sums of open orders *)

Definition pos_key (p : L3Pos) : bool * Dec := (pos_is_ask p, pos_price p).

Definition contribution (k : bool * Dec) (p : L3Pos) : Q :=
  if level_key_eqb (pos_key p) k then dval (pos_size p) else 0.

(** The size resting at a level. *)
Definition level_sum (k : bool * Dec) (os : gmap string L3Pos) : Q :=
  qsum (map (fun e => contribution k e.2) (map_to_list os)).

(** Every position has a positive size, and the totals are the sums of the
    positions: a level with orders has their sum, a level without has no entry. *)
Record l3_ok (os : gmap string L3Pos) (ls : btree (bool * Dec) Dec) : Prop := {
  l3_wf : bt_wf ls;
  l3_positive : map_Forall (fun _ p => 0 < dval (pos_size p)) os;
  l3_totals k :
    match bt_get k ls with
    | Some total => 0 < dval total /\ dval total == level_sum k os
    | None => level_sum k os == 0
    end
}.

Lemma qsum_perm (l l' : list Q) : l ≡ₚ l' -> qsum l == qsum l'.
Proof.
  induction 1 as [|x l l' _ IH|x y l|l1 l2 l3 _ IH1 _ IH2]; simpl.
  - done.
  - by rewrite IH.
  - lra.
  - by rewrite IH1.
Qed.

Lemma level_sum_insert k id p os :
  os !! id = None -> level_sum k (<[id := p]> os) == contribution k p + level_sum k os.
Proof.
  intros Hid. unfold level_sum.
  rewrite (qsum_perm _ (map (fun e => contribution k e.2) ((id, p) :: map_to_list os))).
  - done.
  - apply Permutation_map. by apply map_to_list_insert.
Qed.

Lemma level_sum_delete k id p os :
  os !! id = Some p -> level_sum k os == contribution k p + level_sum k (delete id os).
Proof.
  intros Hid. rewrite <- (insert_delete_id os id p Hid) at 1.
  apply level_sum_insert. apply lookup_delete_eq.
Qed.

Lemma contribution_nonneg k p : 0 < dval (pos_size p) -> 0 <= contribution k p.
Proof. unfold contribution. intros. case_match; lra. Qed.

Lemma level_sum_nonneg k os :
  map_Forall (fun _ p => 0 < dval (pos_size p)) os -> 0 <= level_sum k os.
Proof.
  intros Hos. apply qsum_nonneg. rewrite Forall_map. apply Forall_forall.
  intros [id p] Hin%elem_of_map_to_list. apply contribution_nonneg. by eapply Hos.
Qed.

(** ** Keys *)

Lemma level_key_eqb_key a k : level_key_eqb a k = true <-> key_eq a k.
Proof.
  destruct a as [x a], k as [y k]. unfold level_key_eqb, key_eq.
  change (cmp (x, a) (y, k)) with (prod_cmp (x, a) (y, k)).
  unfold prod_cmp, deqb; simpl. unfold cmp, bool_cmp, Dec_cmp.
  destruct x, y; simpl; try done; by destruct (dcmp a k).
Qed.

Lemma level_key_eqb_cmp (A : Type) (a k : bool * Dec) (x y : A) :
  match cmp a k with Eq => x | _ => y end = if level_key_eqb a k then x else y.
Proof.
  destruct (level_key_eqb a k) eqn:E.
  - apply level_key_eqb_key in E. unfold key_eq in E. by rewrite E.
  - destruct (cmp a k) eqn:Ec; [|done..].
    assert (level_key_eqb a k = true) by (by apply level_key_eqb_key). congruence.
Qed.

Lemma bt_get_level a k (ls : btree (bool * Dec) Dec) :
  level_key_eqb a k = true -> bt_get k ls = bt_get a ls.
Proof. intros Hk%level_key_eqb_key. by rewrite Hk. Qed.

Lemma contribution_key k p :
  contribution k p =
  if level_key_eqb (pos_key p) k then dval (pos_size p) else 0.
Proof. done. Qed.

(** ** One order change *)

Implicit Types (o : L3Order).

Lemma l3_remove_old_ok o os ls touched os' ls' touched' :
  l3_ok os ls -> l3_remove_old o (os, ls, touched) = (os', ls', touched') ->
  l3_ok os' ls' /\ os' !! order_id o = None.
Proof.
  intros [Hwf Hpos Htot]. unfold l3_remove_old.
  destruct (os !! order_id o) as [old|] eqn:Hold; [|by intros [= <- <- <-]].
  cbv zeta. intros [= <- <- <-]. split; [|apply lookup_delete_eq].
  change (pos_is_ask old, pos_price old) with (pos_key old).
  assert (0 < dval (pos_size old)) as Hsz by by eapply Hpos.
  assert (map_Forall (fun _ p => 0 < dval (pos_size p)) (delete (order_id o) os)) as Hpos'
    by by apply map_Forall_delete.
  split; [|done|].
  - destruct (bt_get _ ls); [|done]. case_match; lib.
  - intros k. pose proof (Htot k) as Hk.
    pose proof (level_sum_delete k _ _ _ Hold) as Hsum. rewrite contribution_key in Hsum.
    pose proof (level_sum_nonneg k _ Hpos') as Hnn.
    destruct (level_key_eqb (pos_key old) k) eqn:Ek.
    + rewrite (bt_get_level _ _ _ Ek) in Hk.
      destruct (bt_get (pos_key old) ls) as [total|] eqn:Hg; [|exfalso; lra].
      destruct (dleb (dsub total (pos_size old)) dzero) eqn:Hz.
      * rewrite bt_get_remove, level_key_eqb_cmp, Ek by done.
        apply dleb_le in Hz. rewrite dval_sub, dval_zero in Hz. lra.
      * rewrite bt_get_insert, level_key_eqb_cmp, Ek.
        apply dleb_gt in Hz. rewrite dval_zero in Hz. split; [done|].
        rewrite dval_sub. lra.
    + assert (bt_get k (match bt_get (pos_key old) ls with
              | Some total => if dleb (dsub total (pos_size old)) dzero
                              then bt_remove (pos_key old) ls
                              else bt_insert (pos_key old) (dsub total (pos_size old)) ls
              | None => ls end) = bt_get k ls) as ->.
      { destruct (bt_get (pos_key old) ls) as [total|]; [|done].
        destruct (dleb (dsub total (pos_size old)) dzero).
        - by rewrite bt_get_remove, level_key_eqb_cmp, Ek.
        - by rewrite bt_get_insert, level_key_eqb_cmp, Ek. }
      destruct (bt_get k ls); lra.
Qed.

Lemma l3_add_new_ok o os ls touched os' ls' touched' :
  l3_ok os ls -> os !! order_id o = None ->
  l3_add_new o (os, ls, touched) = (os', ls', touched') -> l3_ok os' ls'.
Proof.
  intros [Hwf Hpos Htot] Hid. unfold l3_add_new.
  destruct (removed o); [by intros [= <- <- <-]|].
  destruct (dparse_exact (l3_price o)) as [price|]; [|by intros [= <- <- <-]].
  destruct (dparse_exact (l3_size o)) as [sz|]; [|by intros [= <- <- <-]].
  destruct (dleb sz dzero) eqn:Hz; [by intros [= <- <- <-]|].
  apply dleb_gt in Hz. rewrite dval_zero in Hz. intros [= <- <- <-].
  split; [lib| |].
  - apply map_Forall_insert_2; [done|done].
  - intros k. set (p := {| pos_is_ask := _ |}).
    pose proof (level_sum_insert k (order_id o) p os Hid) as Hsum.
    rewrite contribution_key in Hsum. change (pos_key p) with (l3_is_ask o, price) in Hsum.
    rewrite bt_get_insert, level_key_eqb_cmp.
    pose proof (Htot k) as Hk. pose proof (level_sum_nonneg k _ Hpos).
    destruct (level_key_eqb (l3_is_ask o, price) k) eqn:Ek; simpl in Hsum.
    + rewrite <- (bt_get_level _ _ ls Ek).
      pose proof (dval_add (default dzero (bt_get k ls)) sz) as Hadd.
      destruct (bt_get k ls); simpl in *; [|rewrite dval_zero in Hadd]; lra.
    + destruct (bt_get k ls); lra.
Qed.

Lemma l3_fold_ok os_list os ls touched os' ls' touched' :
  l3_ok os ls -> fold_left l3_order os_list (os, ls, touched) = (os', ls', touched') ->
  l3_ok os' ls'.
Proof.
  revert os ls touched. induction os_list as [|o os_list IH]; intros os ls touched Hok; simpl.
  { by intros [= <- <- <-]. }
  unfold l3_order at 2. destruct (l3_remove_old o (os, ls, touched)) as [[os1 ls1] t1] eqn:E1.
  destruct (l3_add_new o (os1, ls1, t1)) as [[os2 ls2] t2] eqn:E2.
  apply IH. destruct (l3_remove_old_ok _ _ _ _ _ _ _ Hok E1) as [Hok1 Hnone].
  by eapply l3_add_new_ok.
Qed.

Lemma l3_empty_ok : l3_ok ∅ [].
Proof.
  split; [lib|apply map_Forall_empty|]. intros k. simpl.
  unfold level_sum. by rewrite map_to_list_empty.
Qed.

(** ** The touched levels *)

Definition is_touched (k : bool * Dec) (touched : list (bool * Dec)) : bool :=
  existsb (fun t => level_key_eqb t k) touched.

Lemma level_key_eqb_trans a t k :
  level_key_eqb a t = true -> level_key_eqb a k = level_key_eqb t k.
Proof.
  intros E%level_key_eqb_key. apply eq_bool_prop_intro.
  rewrite !Is_true_true, !level_key_eqb_key. by rewrite E.
Qed.

Lemma is_touched_touch k touched key :
  is_touched k (touch touched key) = is_touched k touched || level_key_eqb key k.
Proof.
  unfold touch, is_touched. destruct (existsb _ touched) eqn:E.
  - apply existsb_exists in E as (t & Hin & Ht).
    destruct (level_key_eqb key k) eqn:Ek; [|by rewrite orb_false_r].
    rewrite orb_true_r. apply existsb_exists. exists t. split; [done|].
    by rewrite (level_key_eqb_trans _ _ _ Ht).
  - rewrite existsb_app. simpl. by rewrite orb_false_r.
Qed.

(** Levels that are not touched keep the total they had in [ls0]. *)
Definition touched_ok (ls0 ls : btree (bool * Dec) Dec) (touched : list (bool * Dec)) : Prop :=
  forall k, is_touched k touched = false -> bt_get k ls = bt_get k ls0.

Lemma l3_remove_old_touched o os ls0 ls touched os' ls' touched' :
  bt_wf ls -> touched_ok ls0 ls touched ->
  l3_remove_old o (os, ls, touched) = (os', ls', touched') -> touched_ok ls0 ls' touched'.
Proof.
  intros Hwf Ht. unfold l3_remove_old.
  destruct (os !! order_id o) as [old|]; [|by intros [= <- <- <-]].
  cbv zeta. intros [= <- <- <-] k. rewrite is_touched_touch.
  intros [Hk Hne]%orb_false_iff. rewrite <- (Ht k Hk).
  destruct (bt_get _ ls) as [total|]; [|done]. destruct (dleb _ _).
  - by rewrite bt_get_remove, level_key_eqb_cmp, Hne.
  - by rewrite bt_get_insert, level_key_eqb_cmp, Hne.
Qed.

Lemma l3_add_new_touched o os ls0 ls touched os' ls' touched' :
  touched_ok ls0 ls touched ->
  l3_add_new o (os, ls, touched) = (os', ls', touched') -> touched_ok ls0 ls' touched'.
Proof.
  intros Ht. unfold l3_add_new.
  destruct (removed o); [by intros [= <- <- <-]|].
  destruct (dparse_exact (l3_price o)) as [price|]; [|by intros [= <- <- <-]].
  destruct (dparse_exact (l3_size o)) as [sz|]; [|by intros [= <- <- <-]].
  destruct (dleb sz dzero); [by intros [= <- <- <-]|].
  intros [= <- <- <-] k. rewrite is_touched_touch. intros [Hk Hne]%orb_false_iff.
  by rewrite bt_get_insert, level_key_eqb_cmp, Hne, Ht.
Qed.

Lemma l3_fold_touched os_list os ls0 ls touched os' ls' touched' :
  l3_ok os ls -> touched_ok ls0 ls touched ->
  fold_left l3_order os_list (os, ls, touched) = (os', ls', touched') ->
  touched_ok ls0 ls' touched'.
Proof.
  revert os ls touched. induction os_list as [|o os_list IH]; intros os ls touched Hok Ht; simpl.
  { by intros [= <- <- <-]. }
  unfold l3_order at 2. destruct (l3_remove_old o (os, ls, touched)) as [[os1 ls1] t1] eqn:E1.
  destruct (l3_add_new o (os1, ls1, t1)) as [[os2 ls2] t2] eqn:E2.
  destruct (l3_remove_old_ok _ _ _ _ _ _ _ Hok E1) as [Hok1 Hnone].
  apply IH; [by eapply l3_add_new_ok|].
  eapply l3_add_new_touched; [|exact E2].
  eapply l3_remove_old_touched; [by apply Hok|exact Ht|exact E1].
Qed.

(** ** The price book as projection *)

Definition level_entry (ls : btree (bool * Dec) Dec) (key : bool * Dec) : Dec * Dec :=
  (key.2, default dzero (bt_get key ls)).

Definition of_side (ask : bool) (keys : list (bool * Dec)) : list (bool * Dec) :=
  List.filter (fun key => Bool.eqb key.1 ask) keys.

Lemma l3_level_strings_show ask ls touched :
  l3_level_strings ask ls touched = map show_level (map (level_entry ls) (of_side ask touched)).
Proof. unfold l3_level_strings. by rewrite map_map. Qed.

Lemma is_touched_of_side ask p keys :
  is_touched (ask, p) (of_side ask keys) = is_touched (ask, p) keys.
Proof.
  unfold is_touched, of_side. induction keys as [|[x q] keys IH]; simpl; [done|].
  destruct (Bool.eqb x ask) eqn:E; simpl; rewrite IH; [done|].
  unfold level_key_eqb; simpl. by rewrite E.
Qed.

Lemma last_size_entries ls ask p keys :
  Forall (fun key => key.1 = ask) keys ->
  last_size p (map (level_entry ls) keys) =
  if is_touched (ask, p) keys then Some (default dzero (bt_get (ask, p) ls)) else None.
Proof.
  unfold is_touched. induction 1 as [|[x q] keys Hx Hkeys IH]; simpl; [done|].
  simpl in Hx. subst x. rewrite IH.
  destruct (existsb _ keys); [by rewrite orb_true_r|]. rewrite orb_false_r.
  assert (level_key_eqb (ask, q) (ask, p) = deqb q p) as E.
  { unfold level_key_eqb; simpl. by rewrite eqb_reflx. }
  rewrite E. destruct (deqb q p); [|done].
  do 2 f_equal. symmetry. by apply bt_get_level.
Qed.

Lemma of_side_forall ask keys : Forall (fun key => key.1 = ask) (of_side ask keys).
Proof.
  apply Forall_forall. intros key Hin%list_elem_of_In.
  apply filter_In in Hin as [_ Hin]. by apply eqb_prop.
Qed.

Lemma positive_entries ls keys :
  positive_levels (map (level_entry ls) keys) =
  map (level_entry ls)
    (List.filter (fun key => dltb dzero (default dzero (bt_get key ls))) keys).
Proof.
  unfold positive_levels. induction keys as [|key keys IH]; simpl; [done|].
  destruct (dltb _ _); simpl; by rewrite IH.
Qed.

Lemma is_touched_filter ls k keys :
  is_touched k (List.filter (fun key => dltb dzero (default dzero (bt_get key ls))) keys) =
  is_touched k keys && dltb dzero (default dzero (bt_get k ls)).
Proof.
  unfold is_touched. induction keys as [|key keys IH]; simpl; [done|].
  destruct (level_key_eqb key k) eqn:Ek.
  - rewrite (bt_get_level _ _ _ Ek) in *. destruct (dltb _ _) eqn:Ez; simpl.
    + by rewrite Ek.
    + rewrite IH. by rewrite andb_false_r.
  - destruct (dltb dzero (default dzero (bt_get key ls))); simpl; by rewrite ?Ek, IH.
Qed.

(** A level of the price book shows the resting size [q] of an order set. *)
Definition shows (x : option Dec) (q : Q) : Prop :=
  match x with
  | Some size => 0 < dval size /\ dval size == q
  | None => q == 0
  end.

(** What a side shows of a total: the total, or, unless it is kept in [full], nothing. *)
Definition shown_same (full : bool) (x y : option Dec) : Prop :=
  same_val x y \/ full = false /\ x = None.

(** The price book is the projection of the totals, or of those its depth has kept. *)
Definition projected (full : bool) (b : OrderbookDelta) (ls : btree (bool * Dec) Dec) : Prop :=
  (forall p, shown_same full (bt_get p (bids b)) (bt_get (false, p) ls)) /\
  (forall p, shown_same full (bt_get p (asks b)) (bt_get (true, p) ls)).

(** What a part of a side has, the side has. *)
Lemma bt_get_part (part m : btree Dec Dec) k v :
  bt_wf part -> bt_wf m -> (forall e, e ∈ part -> e ∈ m) -> bt_get k part = Some v -> bt_get k m = Some v.
Proof.
  intros Hwp Hwf Hsub Hk. apply bt_get_elem in Hk as (k' & E & Hin); [|done].
  apply bt_get_elem; [done|]. eauto.
Qed.

Lemma shown_part full (part m : btree Dec Dec) k y :
  full = false -> bt_wf part -> bt_wf m -> (forall e, e ∈ part -> e ∈ m) ->
  shown_same full (bt_get k m) y -> shown_same full (bt_get k part) y.
Proof.
  intros Hf Hwp Hwf Hsub H. destruct (bt_get k part) as [v|] eqn:E; [|by right].
  by rewrite (bt_get_part _ _ _ _ Hwp Hwf Hsub E) in H.
Qed.

Lemma shown_bids full n (m : btree Dec Dec) k y :
  n = None \/ full = false -> bt_wf m ->
  shown_same full (bt_get k m) y -> shown_same full (bt_get k (best_bids_of n m)) y.
Proof.
  intros Hn Hwf H. destruct n as [n|]; [|done]. destruct Hn as [?|Hf]; [done|].
  apply (shown_part full _ m); try done; [by apply (best_bids_of_wf (Some n))|].
  intros e. apply subseteq_drop.
Qed.

Lemma shown_asks full n (m : btree Dec Dec) k y :
  n = None \/ full = false -> bt_wf m ->
  shown_same full (bt_get k m) y -> shown_same full (bt_get k (best_asks_of n m)) y.
Proof.
  intros Hn Hwf H. destruct n as [n|]; [|done]. destruct Hn as [?|Hf]; [done|].
  apply (shown_part full _ m); try done; [by apply (best_asks_of_wf (Some n))|].
  intros e. apply subseteq_take.
Qed.

Section Project.
Context {NT : NumericText NU NL}.

Lemma totals_default os ls k :
  l3_ok os ls ->
  match bt_get k ls with
  | Some t => dltb dzero t = true /\ deqb t dzero = false
  | None => True
  end.
Proof using NL.
  intros [_ _ Htot]. specialize (Htot k). destruct (bt_get k ls) as [t|]; [|done].
  destruct Htot as [Ht _]. rewrite dltb_lt, deqb_neq, dval_zero. split; [done|lra].
Qed.

Lemma deqb_same_zero t t' : dval t == dval t' -> deqb t dzero = deqb t' dzero.
Proof using NL. apply deqb_val. Qed.

(** A delta's touched levels, printed and applied to a side that showed the old
    totals, give a side that shows the new ones. *)
Lemma delta_side_projects full ask os ls0 ls touched side levels :
  l3_ok os ls -> touched_ok ls0 ls touched -> bt_wf side ->
  parse_levels (l3_level_strings ask ls touched) = Some levels ->
  (forall p, shown_same full (bt_get p side) (bt_get (ask, p) ls0)) ->
  forall p, shown_same full (bt_get p (apply_levels side levels)) (bt_get (ask, p) ls).
Proof using NT.
  intros Hok Ht Hwf Hl Hold p. rewrite l3_level_strings_show in Hl.
  destruct (parse_levels_shown (map (level_entry ls) (of_side ask touched)))
    as (levels' & Hl' & HF). simplify_eq.
  rewrite apply_levels_get by done. unfold updated_size.
  pose proof (last_size_same p _ _ HF) as Hs.
  rewrite (last_size_entries ls ask p), is_touched_of_side in Hs by apply of_side_forall.
  destruct (is_touched (ask, p) touched) eqn:Etouch.
  - left. inversion Hs as [t' t Htt' E1 E2|]; subst. rewrite <- E1 in *.
    rewrite (deqb_same_zero _ _ Htt').
    pose proof (totals_default _ _ (ask, p) Hok) as Hd.
    destruct (bt_get (ask, p) ls) as [t|]; simpl in *.
    + destruct Hd as [_ ->]. by constructor.
    + rewrite (proj2 (deqb_eq dzero dzero)); [constructor|done].
  - inversion Hs as [|E1 E2]. rewrite (Ht _ Etouch). apply Hold.
Qed.

Lemma snapshot_side_projects ask os ls touched levels :
  l3_ok os ls -> touched_ok [] ls touched ->
  parse_levels (l3_level_strings ask ls touched) = Some levels ->
  forall p, same_val (bt_get p (insert_levels [] (positive_levels levels)))
                     (bt_get (ask, p) ls).
Proof using NT.
  intros Hok Ht Hl p. rewrite l3_level_strings_show in Hl.
  destruct (parse_levels_shown (map (level_entry ls) (of_side ask touched)))
    as (levels' & Hl' & HF). simplify_eq.
  rewrite insert_levels_get.
  pose proof (last_size_same p _ _ (positive_levels_same _ _ HF)) as Hs.
  rewrite positive_entries, (last_size_entries ls ask p), is_touched_filter,
    (is_touched_of_side ask p touched) in Hs.
  - pose proof (totals_default _ _ (ask, p) Hok) as Hd.
    destruct (is_touched (ask, p) touched) eqn:Etouch; simpl in Hs.
    + destruct (bt_get (ask, p) ls) as [t|]; simpl in *.
      * destruct Hd as [Hd _]. rewrite Hd in Hs. by destruct (last_size p _).
      * assert (dltb dzero dzero = false) as E by (by apply dltb_ge, Qle_refl).
        rewrite E in Hs. inversion Hs. constructor.
    + rewrite (Ht _ Etouch). inversion Hs. constructor.
  - apply Forall_forall. intros key Hin%list_elem_of_In.
    apply filter_In in Hin as [Hin%list_elem_of_In _].
    by apply (proj1 (Forall_forall _ _) (of_side_forall ask touched)).
Qed.
End Project.
End L3.

(** ** Properties *)

Section L3Properties.
Context {NU : Numeric} {CRC : Crc32} {NL : NumericLaws NU} {NE : NumericExact NU NL}.
Implicit Types (s : SourcedOrderbook) (d : NormalizedDelta).
Local Open Scope Q_scope.

Definition totals_ok s : Prop := l3_ok (l3_orders s) (l3_levels s).

Lemma process_or_gap_l3 d s k :
  (forall s', l3_orders (k s').1 = l3_orders s' /\ l3_levels (k s').1 = l3_levels s') ->
  l3_orders (process_or_gap d s k).1 = l3_orders s /\
  l3_levels (process_or_gap d s k).1 = l3_levels s.
Proof.
  intros Hk. unfold process_or_gap. destruct (process d (book s)) as [b [u|e]]; [|done].
  exact (Hk (with_book b s)).
Qed.

Lemma apply_l3_fields d s :
  l3_orders (apply d s).1 = l3_orders (apply_model d s).1 /\
  l3_levels (apply d s).1 = l3_levels (apply_model d s).1.
Proof.
  rewrite apply_eq. destruct (apply_model d s) as [s1 [o|e]]; simpl; [|done].
  destruct (best_bid (book s1)) as [[bid ?]|]; [|done].
  destruct (best_ask (book s1)) as [[ask ?]|]; [|done]. by destruct (dleb ask bid).
Qed.

Lemma apply_l3_totals d s : totals_ok s -> totals_ok (apply_l3 d s).1.
Proof.
  unfold totals_ok. intros Hok. unfold apply_l3. set (s0 := if is_snapshot d then _ else _).
  assert (l3_ok (l3_orders s0) (l3_levels s0)) as Hok0.
  { unfold s0. destruct (is_snapshot d); [apply l3_empty_ok|done]. }
  destruct (fold_left l3_order _ _) as [[os ls] touched] eqn:E.
  apply l3_fold_ok in E; [|done].
  destruct (L3_MAX_ORDERS <? _)%N; [done|].
  match goal with |- context [process_or_gap ?a ?b ?c] =>
    destruct (process_or_gap_l3 a b c) as [-> ->]; [done|] end. done.
Qed.

(** The incremental totals of an L3 book are always the sums of its open orders,
    at every price and side, whatever frames arrive (duplicate ids, removals of
    unknown orders, unparseable or empty orders) and whether they are accepted or
    refused. *)
Theorem l3_totals_invariant src ds p r :
  let s := fold_left (fun s d => (apply d s).1) ds (SourcedOrderbook_new p (L3 src) r) in
  totals_ok s.
Proof.
  cbv zeta. set (s0 := SourcedOrderbook_new p (L3 src) r).
  assert (model s0 = L3 src /\ totals_ok s0) as H0 by (split; [done|apply l3_empty_ok]).
  revert H0. generalize s0. clear s0.
  induction ds as [|d ds IH]; intros s [Hm Hok]; simpl; [done|].
  apply IH. destruct (apply_same_config d s) as [-> _]. split; [done|].
  unfold totals_ok. destruct (apply_l3_fields d s) as [-> ->].
  unfold apply_model. rewrite Hm. by apply apply_l3_totals.
Qed.

Section Projection.
Context {NT : NumericText NU NL}.

(** One accepted frame: a snapshot establishes the projection, a delta keeps it. *)
Lemma apply_l3_projects full src d s s' o :
  model s = L3 src -> max_depth (book s) = None \/ full = false -> book_ok (book s) -> totals_ok s ->
  (is_snapshot d = true \/ projected full (book s) (l3_levels s)) ->
  apply d s = (s', Ok o) -> projected full (book s') (l3_levels s').
Proof using NT NE.
  intros Hm Hdep [Hwb Hwa _ _] Hok Hprev [E _]%apply_ok_iff.
  unfold apply_model in E. rewrite Hm in E. unfold apply_l3 in E.
  set (s0 := if is_snapshot d then _ else _) in E.
  assert (l3_ok (l3_orders s0) (l3_levels s0) /\ book s0 = book s) as [Hok0 Hb0].
  { unfold s0. destruct (is_snapshot d); [split; [apply l3_empty_ok|done]|done]. }
  destruct (fold_left l3_order _ _) as [[os ls] touched] eqn:Ef.
  pose proof (l3_fold_ok _ _ _ _ _ _ _ Hok0 Ef) as Hok1.
  assert (touched_ok (l3_levels s0) ls touched) as Ht
    by by eapply l3_fold_touched; [exact Hok0| |exact Ef].
  destruct (L3_MAX_ORDERS <? _)%N; [done|].
  unfold process_or_gap in E. simpl in E. rewrite Hb0 in E.
  destruct (process (l3_level_delta d ls touched) (book s)) as [b [u|e]] eqn:Hp; [|done].
  unfold accept in E. simplify_eq. simpl.
  pose proof (process_ok_accepts _ _ _ _ Hp) as Hacc. rewrite process_eq, Hacc in Hp.
  simpl in Hp. unfold s0 in Ht. destruct (is_snapshot d) eqn:Hs.
  - destruct (apply_snapshot_ok _ _ _ _ Hp) as (lb & la & Hlb & Hla).
    rewrite (apply_snapshot_parsed _ _ _ _ Hlb Hla) in Hp. injection Hp as <- <-.
    split; intros p; rewrite ?prune_bids, ?prune_asks;
      [apply shown_bids|apply shown_asks]; try done; try (apply insert_levels_wf; constructor);
      left; by eapply snapshot_side_projects.
  - destruct Hprev as [?|[Hpb Hpa]]; [done|].
    destruct (apply_delta_ok _ _ _ _ Hp) as (Hi & lb & la & Hlb & Hla).
    destruct (apply_delta_parsed _ _ _ _ Hi Hlb Hla) as (u' & Hd & _).
    rewrite Hd in Hp. injection Hp as <- <-.
    split; intros p; rewrite ?prune_bids, ?prune_asks;
      [apply shown_bids|apply shown_asks]; try done; try (by apply apply_levels_wf);
      by eapply delta_side_projects.
Qed.

Lemma shows_of_same x ls os k :
  l3_ok os ls -> same_val x (bt_get k ls) -> shows x (level_sum k os).
Proof using NL.
  intros [_ _ Htot] Hs. specialize (Htot k). unfold shows.
  inversion Hs as [a c Hac E1 E2|E1 E2]; subst; rewrite <- E2 in Htot; [|done].
  rewrite Hac. done.
Qed.

Lemma apply_all_projects full src ds s s' :
  model s = L3 src -> max_depth (book s) = None \/ full = false -> book_ok (book s) -> totals_ok s ->
  projected full (book s) (l3_levels s) -> apply_all ds s = Some s' ->
  totals_ok s' /\ projected full (book s') (l3_levels s').
Proof using NT NE.
  revert s. induction ds as [|d ds IH]; intros s1 Hm Hdep Hb Ht Hp Hrun; simpl in Hrun.
  { by simplify_eq. }
  destruct (apply d s1) as [s1' [o|e]] eqn:E; [|done].
  pose proof (apply_same_config d s1) as (Hm' & _ & _ & Hdep').
  pose proof (apply_book_ok d s1 Hb) as Hb'.
  assert (totals_ok (apply d s1).1) as Ht'.
  { unfold totals_ok. destruct (apply_l3_fields d s1) as [-> ->].
    unfold apply_model. rewrite Hm. by apply apply_l3_totals. }
  pose proof (apply_l3_projects _ _ _ _ _ _ Hm Hdep Hb Ht (or_intror Hp) E) as Hp'.
  rewrite E in *. simpl in *. eapply IH; [..|exact Hrun]; try done; congruence.
Qed.

(** The book of an L3 venue as a runtime starts it. *)
Definition l3_start (p : TradingPair) (src : SnapshotSource) (r : RecoveryAction) (depth : option nat)
    : SourcedOrderbook :=
  arm_config_depth depth (SourcedOrderbook_new p (L3 src) r).

Lemma l3_run_projects full p src r depth d0 ds s :
  depth = None \/ full = false -> is_snapshot d0 = true ->
  apply_all (d0 :: ds) (l3_start p src r depth) = Some s ->
  totals_ok s /\ projected full (book s) (l3_levels s).
Proof using NT NE.
  intros Hf Hd0 Hrun. simpl in Hrun. set (s0 := l3_start p src r depth) in *.
  assert (book_ok (book s0)) as Hok0 by (destruct (OrderbookDelta_new_ok p); by split).
  destruct (apply d0 s0) as [s1 [o|e]] eqn:E; [|done].
  pose proof (apply_same_config d0 s0) as (Hm' & _ & _ & Hdep').
  pose proof (apply_book_ok d0 s0 Hok0) as Hb'.
  assert (totals_ok (apply d0 s0).1) as Ht'.
  { unfold totals_ok. destruct (apply_l3_fields d0 s0) as [-> ->].
    apply (apply_l3_totals d0 s0), l3_empty_ok. }
  pose proof (apply_l3_projects full src d0 s0 _ _ eq_refl Hf Hok0 l3_empty_ok (or_introl Hd0) E) as Hp'.
  rewrite E in *. simpl in *. eapply (apply_all_projects full src ds s1 s); try done.
  by rewrite Hdep'.
Qed.

(** C35: The price book of an L3 venue shows its open orders.  After a snapshot and any accepted run
    of deltas, whatever depth the book is armed with, the size shown at a price of either side is
    the exact, positive sum of the sizes of the orders open there.  A book armed without a depth
    is their whole projection: a price without a shown size has no open orders.  With a depth,
    levels may be missing, pruned and not touched again since, but no shown size is wrong. *)
Theorem l3_book_is_order_sum src p r depth d0 ds s :
  is_snapshot d0 = true ->
  apply_all (d0 :: ds) (l3_start p src r depth) = Some s ->
  (forall price size, bt_get price (bids (book s)) = Some size ->
     0 < dval size /\ dval size == level_sum (false, price) (l3_orders s)) /\
  (forall price size, bt_get price (asks (book s)) = Some size ->
     0 < dval size /\ dval size == level_sum (true, price) (l3_orders s)) /\
  (depth = None ->
   (forall price, shows (bt_get price (bids (book s))) (level_sum (false, price) (l3_orders s))) /\
   (forall price, shows (bt_get price (asks (book s))) (level_sum (true, price) (l3_orders s)))).
Proof using NT NE.
  intros Hd0 Hrun.
  destruct (l3_run_projects false p src r depth d0 ds s (or_intror eq_refl) Hd0 Hrun) as [Ht [Hb Ha]].
  assert (forall x k, shown_same false x (bt_get k (l3_levels s)) -> forall size, x = Some size ->
    0 < dval size /\ dval size == level_sum k (l3_orders s)) as Hshown.
  { intros x k [Hx|[_ ?]] size E; [|congruence]. subst x.
    exact (shows_of_same (Some size) _ _ _ Ht Hx). }
  split_and!; [intros price size; by apply Hshown..|]. intros Hn.
  destruct (l3_run_projects true p src r depth d0 ds s (or_introl Hn) Hd0 Hrun) as [_ [Hb' Ha']].
  split; intros price.
  - destruct (Hb' price) as [H|[? _]]; [|done]. by eapply shows_of_same.
  - destruct (Ha' price) as [H|[? _]]; [|done]. by eapply shows_of_same.
Qed.
End Projection.
End L3Properties.

(** ** A concrete run *)

Section ConcreteL3.
Local Existing Instance decimal_numeric.
Local Existing Instance ex_crc.
Local Open Scope string_scope.

Definition ex_order (id : string) (ask : bool) (price sz : string) (gone : bool) : L3Order :=
  {| order_id := id; l3_is_ask := ask; l3_price := price; l3_size := sz; removed := gone |}.

Definition ex_l3_frame (snapshot : bool) (uid : N) (os : list L3Order) : NormalizedDelta := {|
  symbol := "BTC/USDT"; nd_bids := []; nd_asks := []; update_id := uid; nd_sequence := uid;
  source_orderbook_ts_us := 0; local_orderbook_ts_us := 0; source_orderbook_rtt_us := 0;
  checksum := None; orders := os; is_snapshot := snapshot
|}.

Definition ex_l3_seed : NormalizedDelta :=
  ex_l3_frame true 1 [ex_order "a" false "100" "1.5" false; ex_order "b" false "100.0" "2" false;
                      ex_order "c" true "101" "4" false].
Definition ex_l3_deltas : list NormalizedDelta :=
  [ex_l3_frame false 2 [ex_order "a" false "99" "1" false];
   ex_l3_frame false 3 [ex_order "c" true "" "" true; ex_order "d" true "102" "7" false]].

(** The lower bid of two is pruned at depth one, and the shown one is the sum of its orders. *)
Lemma l3_book_is_order_sum_witness :
  exists s, apply_all (ex_l3_seed :: ex_l3_deltas)
              (l3_start ex_pair RestSnapshot RecoverRestSnapshot None) = Some s /\
    shows (bt_get (K:=Dec) (Decimal 100 0) (bids (book s)))
          (level_sum (false, Decimal 100 0 : Dec) (l3_orders s)) /\
  exists s', apply_all (ex_l3_seed :: ex_l3_deltas)
              (l3_start ex_pair RestSnapshot RecoverRestSnapshot (Some 1%nat)) = Some s' /\
    forall size, bt_get (K:=Dec) (Decimal 100 0) (bids (book s')) = Some size ->
      (0 < dval size)%Q /\ (dval size == level_sum (false, Decimal 100 0 : Dec) (l3_orders s'))%Q.
Proof.
  assert (forall depth, match apply_all (ex_l3_seed :: ex_l3_deltas)
                  (l3_start ex_pair RestSnapshot RecoverRestSnapshot depth) with
          | Some s => (length (bids (book s)) =? match depth with Some n => n | None => 2%nat end)%nat
          | None => false end = true -> exists s, apply_all (ex_l3_seed :: ex_l3_deltas)
                  (l3_start ex_pair RestSnapshot RecoverRestSnapshot depth) = Some s) as Hrun.
  { intros depth H. destruct (apply_all _ _) as [s|]; [by exists s|discriminate H]. }
  destruct (Hrun None) as [s E]; [vm_compute; reflexivity|].
  destruct (Hrun (Some 1%nat)) as [s' E']; [vm_compute; reflexivity|].
  exists s. split; [exact E|]. split.
  - exact (proj1 (proj2 (proj2 (l3_book_is_order_sum RestSnapshot ex_pair RecoverRestSnapshot None
      ex_l3_seed ex_l3_deltas s eq_refl E)) eq_refl) (Decimal 100 0)).
  - exists s'. split; [exact E'|].
    exact (proj1 (l3_book_is_order_sum RestSnapshot ex_pair RecoverRestSnapshot (Some 1%nat)
      ex_l3_seed ex_l3_deltas s' eq_refl E') (Decimal 100 0)).
Defined.

Lemma l3_totals_invariant_witness :
  totals_ok (fold_left (fun s d => (apply d s).1) (ex_l3_deltas ++ ex_l3_seed :: ex_l3_deltas)
               (SourcedOrderbook_new ex_pair (L3 RestSnapshot) RecoverRestSnapshot)).
Proof.
  exact (l3_totals_invariant RestSnapshot (ex_l3_deltas ++ ex_l3_seed :: ex_l3_deltas) ex_pair
           RecoverRestSnapshot).
Defined.
End ConcreteL3.
