(* ===== verification/Feed.v ===== *)
(** * Feed lifecycle

    [src/aetelier-connect/src/framework/feed.rs]: one [Feed] is the subscription to
    one [(venue, instrument, datatype)] stream, a [FeedSet] is the feeds of one
    connection.  The setters of a feed assert the transition graph in debug builds
    only: here, as in a release build, they record the state unconditionally, and the
    graph [can_transition_to] is a function of its own.  The identifier type is a
    parameter ([Uuid]), and a fresh identifier is an argument. *)

From Stdlib Require Import String.
From stdpp Require Import relations.
From S2P Require Import Prelude Strings Numeric Pairs.
Local Open Scope nat_scope.

(** The third-party identifier and its display. *)
Class Uuid := { uuid : Type; uuid_fmt : uuid -> string }.

Inductive FeedDatatype := Orders | Trades | FundingRates | OpenInterests.

Inductive FeedState :=
| Requested | Subscribing | Live | Stale | Resubscribing | Reconnecting
| Draining | Closed | Rejected | Failed.

#[export] Instance FeedDatatype_eq_dec : EqDecision FeedDatatype.
Proof. solve_decision. Defined.
#[export] Instance FeedState_eq_dec : EqDecision FeedState.
Proof. solve_decision. Defined.
#[export] Instance FeedDatatype_countable : Countable FeedDatatype.
Proof.
  refine (inj_countable'
    (fun d => match d with Orders => 0 | Trades => 1 | FundingRates => 2 | OpenInterests => 3 end)
    (fun n => match n with 0 => Orders | 1 => Trades | 2 => FundingRates | _ => OpenInterests end) _).
  by intros [].
Defined.

Definition is_terminal (s : FeedState) : bool :=
  match s with Closed | Rejected | Failed => true | _ => false end.

Definition can_transition_to (s next : FeedState) : bool :=
  match s, next with
  | Requested, (Subscribing | Draining) => true
  | Subscribing, (Live | Resubscribing | Reconnecting | Draining) => true
  | Live, (Stale | Resubscribing | Reconnecting | Draining) => true
  | Stale, (Live | Resubscribing | Reconnecting | Draining) => true
  | Resubscribing, (Live | Reconnecting | Draining) => true
  | Reconnecting, (Subscribing | Rejected | Failed | Draining) => true
  | Draining, Closed => true
  | _, _ => false
  end.

(** ** Feeds *)

Section Feeds.
Context {UU : Uuid}.

Record Feed := {
  feed_id : uuid;
  venue : Exchange;
  instrument : TradingPair;
  datatype : FeedDatatype;
  feed_state : FeedState;
  closed_partial : bool;
  terminal_reason : option string
}.

Definition Feed_new (fresh : uuid) (v : Exchange) (p : TradingPair) (d : FeedDatatype) : Feed := {|
  feed_id := fresh; venue := v; instrument := p; datatype := d;
  feed_state := Requested; closed_partial := false; terminal_reason := None
|}.

Definition transition (next : FeedState) (f : Feed) : Feed := {|
  feed_id := feed_id f; venue := venue f; instrument := instrument f; datatype := datatype f;
  feed_state := next; closed_partial := closed_partial f; terminal_reason := terminal_reason f
|}.

Definition to_subscribing : Feed -> Feed := transition Subscribing.
Definition to_stale : Feed -> Feed := transition Stale.
Definition to_live : Feed -> Feed := transition Live.
Definition to_resubscribing : Feed -> Feed := transition Resubscribing.
Definition to_reconnecting : Feed -> Feed := transition Reconnecting.
Definition to_draining : Feed -> Feed := transition Draining.
Definition to_closed : Feed -> Feed := transition Closed.

Definition to_closed_partial (f : Feed) : Feed :=
  let f := transition Closed f in {|
  feed_id := feed_id f; venue := venue f; instrument := instrument f; datatype := datatype f;
  feed_state := feed_state f; closed_partial := true; terminal_reason := terminal_reason f
|}.

(** [self.transition(next); self.terminal_reason = Some(reason.to_string())] *)
Definition transition_because (next : FeedState) (reason : string) (f : Feed) : Feed :=
  let f := transition next f in {|
  feed_id := feed_id f; venue := venue f; instrument := instrument f; datatype := datatype f;
  feed_state := feed_state f; closed_partial := closed_partial f; terminal_reason := Some reason
|}.
Definition to_rejected (reason : string) : Feed -> Feed := transition_because Rejected reason.
Definition to_failed (reason : string) : Feed -> Feed := transition_because Failed reason.

(** ** Feed sets *)

Definition FeedSet : Type := list Feed.

Definition each_live_mut (f : Feed -> Feed) (fs : FeedSet) : FeedSet :=
  map (fun x => if is_terminal (feed_state x) then x else f x) fs.

Definition feed_matches (p : TradingPair) (d : FeedDatatype) (f : Feed) : bool :=
  bool_decide (instrument f = p) && bool_decide (datatype f = d).

(** [if let Some(f) = self.get_mut(..)] and an update of that first match. *)
Fixpoint update_get_mut (p : TradingPair) (d : FeedDatatype) (g : Feed -> Feed) (fs : FeedSet)
    : FeedSet :=
  match fs with
  | [] => []
  | f :: fs' => if feed_matches p d f then g f :: fs' else f :: update_get_mut p d g fs'
  end.

Definition mark_all_subscribing : FeedSet -> FeedSet := each_live_mut to_subscribing.
Definition mark_all_reconnecting : FeedSet -> FeedSet := each_live_mut to_reconnecting.

Definition mark_live (p : TradingPair) (d : FeedDatatype) : FeedSet -> FeedSet :=
  update_get_mut p d (fun f =>
    if negb (is_terminal (feed_state f)) && negb (bool_decide (feed_state f = Live))
    then to_live f else f).

Definition mark_stale (p : TradingPair) (d : FeedDatatype) : FeedSet -> FeedSet :=
  update_get_mut p d (fun f => if bool_decide (feed_state f = Live) then to_stale f else f).

Definition mark_resubscribing (p : TradingPair) (d : FeedDatatype) : FeedSet -> FeedSet :=
  update_get_mut p d (fun f =>
    if negb (is_terminal (feed_state f)) && negb (bool_decide (feed_state f = Resubscribing))
    then to_resubscribing f else f).

Definition mark_all_draining : FeedSet -> FeedSet := each_live_mut to_draining.

Definition mark_all_closed (partial : bool) : FeedSet -> FeedSet :=
  each_live_mut (fun f => if partial then to_closed_partial f else to_closed f).

Definition mark_all_rejected (reason : string) : FeedSet -> FeedSet :=
  each_live_mut (to_rejected reason).
Definition mark_all_failed (reason : string) : FeedSet -> FeedSet :=
  each_live_mut (to_failed reason).

Record FeedSnapshot := {
  fs_id : string;
  fs_instrument : string;
  fs_datatype : FeedDatatype;
  fs_state : FeedState;
  fs_partial : bool;
  fs_reason : option string
}.

Definition feeds_snapshot (fs : FeedSet) : list FeedSnapshot :=
  map (fun f => {| fs_id := uuid_fmt (feed_id f); fs_instrument := to_canonical (instrument f);
                   fs_datatype := datatype f; fs_state := feed_state f;
                   fs_partial := closed_partial f; fs_reason := terminal_reason f |}) fs.

(** ** Runs *)

(** The calls on a shared feed set; each holds the lock throughout, so that a
    concurrent history is a list of them. *)
Inductive FeedOp :=
| MarkAllSubscribing | MarkAllReconnecting | MarkAllDraining
| MarkLive (p : TradingPair) (d : FeedDatatype)
| MarkStale (p : TradingPair) (d : FeedDatatype)
| MarkResubscribing (p : TradingPair) (d : FeedDatatype)
| MarkAllClosed (partial : bool)
| MarkAllRejected (reason : string)
| MarkAllFailed (reason : string).

Definition feed_op (o : FeedOp) : FeedSet -> FeedSet :=
  match o with
  | MarkAllSubscribing => mark_all_subscribing
  | MarkAllReconnecting => mark_all_reconnecting
  | MarkAllDraining => mark_all_draining
  | MarkLive p d => mark_live p d
  | MarkStale p d => mark_stale p d
  | MarkResubscribing p d => mark_resubscribing p d
  | MarkAllClosed partial => mark_all_closed partial
  | MarkAllRejected reason => mark_all_rejected reason
  | MarkAllFailed reason => mark_all_failed reason
  end.

Definition feed_run (ops : list FeedOp) (fs : FeedSet) : FeedSet :=
  fold_left (fun fs o => feed_op o fs) ops fs.

(** What a call does to one feed: a terminal feed is untouched, another keeps its
    identity and either is untouched, or moves to [next] with its marks set
    according to that state. *)
Definition marks_ok (f : Feed) : Prop :=
  (closed_partial f = true -> feed_state f = Closed) /\
  (terminal_reason f <> None <-> feed_state f = Rejected \/ feed_state f = Failed).

Record feed_step (f f' : Feed) : Prop := {
  step_id : feed_id f' = feed_id f;
  step_venue : venue f' = venue f;
  step_instrument : instrument f' = instrument f;
  step_datatype : datatype f' = datatype f;
  step_terminal : is_terminal (feed_state f) = true -> f' = f;
  step_marks : marks_ok f -> marks_ok f'
}.

#[export] Instance feed_step_refl : Reflexive feed_step.
Proof. by intros f. Qed.
#[export] Instance feed_step_trans : Transitive feed_step.
Proof.
  intros f g h [] []. split; try congruence; [|auto].
  intros Ht. rewrite <- (step_terminal0 Ht) in Ht |- *. auto.
Qed.

Lemma feed_step_transition next f :
  is_terminal (feed_state f) = false -> next <> Rejected -> next <> Failed ->
  feed_step f (transition next f).
Proof.
  intros Ht H1 H2. split; simpl; try done; [congruence|].
  intros [Hp Hr]. split; simpl.
  - intros Hc. rewrite (Hp Hc) in Ht. done.
  - rewrite Hr. split; [|by intros []]. intros [E|E]; by rewrite E in Ht.
Qed.

Lemma feed_step_closed_partial f :
  is_terminal (feed_state f) = false -> feed_step f (to_closed_partial f).
Proof.
  intros Ht. split; simpl; try done; [congruence|].
  intros [Hp Hr]. split; simpl; [done|].
  rewrite Hr. split; [|by intros []]. intros [E|E]; by rewrite E in Ht.
Qed.

Lemma feed_step_because next reason f :
  is_terminal (feed_state f) = false -> next = Rejected \/ next = Failed ->
  feed_step f (transition_because next reason f).
Proof.
  intros Ht Hn. split; simpl; try done; [congruence|].
  intros [Hp Hr]. split; simpl; [|done].
  intros Hc. rewrite (Hp Hc) in Ht. done.
Qed.

Lemma each_live_mut_step g fs :
  (forall f, is_terminal (feed_state f) = false -> feed_step f (g f)) ->
  Forall2 feed_step fs (each_live_mut g fs).
Proof.
  intros Hg. induction fs as [|f fs IH]; constructor; [|done].
  destruct (is_terminal _) eqn:E; [done|auto].
Qed.

Lemma update_get_mut_step p d g fs :
  (forall f, feed_step f (g f)) -> Forall2 feed_step fs (update_get_mut p d g fs).
Proof.
  intros Hg. induction fs as [|f fs IH]; simpl; [done|].
  destruct (feed_matches p d f); by constructor.
Qed.

Lemma feed_op_step o fs : Forall2 feed_step fs (feed_op o fs).
Proof.
  destruct o; simpl.
  1-3: apply each_live_mut_step; intros; by apply feed_step_transition.
  1-3: apply update_get_mut_step; intros f;
    first [ destruct (is_terminal (feed_state f)) eqn:Ht; [done|];
            simpl; case_bool_decide; [done|by apply feed_step_transition]
          | case_bool_decide as E; [|done]; apply feed_step_transition; [by rewrite E|done..] ].
  - apply each_live_mut_step. intros f Ht.
    destruct partial; [by apply feed_step_closed_partial|by apply feed_step_transition].
  - apply each_live_mut_step. intros. by apply feed_step_because; [|left].
  - apply each_live_mut_step. intros. by apply feed_step_because; [|right].
Qed.

Lemma feed_run_step ops fs : Forall2 feed_step fs (feed_run ops fs).
Proof.
  revert fs. induction ops as [|o ops IH]; intros fs; simpl; [done|].
  etrans; [apply feed_op_step|apply IH].
Qed.

(** ** Properties *)

(** Terminal feeds absorb: whatever calls reach a shared feed set, in any order,
    a [Closed], [Rejected] or [Failed] feed keeps its whole record, no feed changes
    its identity, and a feed carries a reason exactly in [Rejected]/[Failed] and the
    partial mark only in [Closed]. *)
Theorem feeds_terminal_absorb ops fs :
  Forall marks_ok fs ->
  Forall marks_ok (feed_run ops fs) /\
  map feed_id (feed_run ops fs) = map feed_id fs /\
  forall i f, fs !! i = Some f -> is_terminal (feed_state f) = true ->
    feed_run ops fs !! i = Some f.
Proof.
  intros Hm. pose proof (feed_run_step ops fs) as Hs. split_and!.
  - induction Hs as [|f f' fs fs' Hf Hs IH]; inversion Hm; constructor; [|auto].
    by apply Hf.
  - clear Hm. induction Hs as [|f f' fs fs' Hf Hs IH]; simpl; [done|].
    by rewrite IH, (step_id _ _ Hf).
  - intros i f Hi Ht. destruct (Forall2_lookup_l _ _ _ _ _ Hs Hi) as (f' & Hf' & Hstep).
    etrans; [exact Hf'|]. f_equal. by apply step_terminal.
Qed.

(** The edges of the graph a call can ask for that the graph does not have: a debug
    build stops on them. *)
Definition op_edge_ok (o : FeedOp) (s : FeedState) : bool :=
  match o with
  | MarkAllSubscribing => bool_decide (s = Requested \/ s = Reconnecting)
  | MarkAllReconnecting => negb (bool_decide (s = Requested \/ s = Reconnecting \/ s = Draining))
  | MarkAllDraining => negb (bool_decide (s = Draining))
  | MarkLive _ _ => negb (bool_decide (s = Requested \/ s = Reconnecting \/ s = Draining))
  | MarkStale _ _ => true
  | MarkResubscribing _ _ => negb (bool_decide (s = Requested \/ s = Reconnecting \/ s = Draining))
  | MarkAllClosed _ => bool_decide (s = Draining)
  | MarkAllRejected _ | MarkAllFailed _ => bool_decide (s = Reconnecting)
  end.

Definition edge_legal (f f' : Feed) : Prop :=
  f' = f \/ can_transition_to (feed_state f) (feed_state f') = true.

Lemma each_live_mut_edge g fs :
  (forall f, f ∈ fs -> is_terminal (feed_state f) = false -> edge_legal f (g f)) ->
  Forall2 edge_legal fs (each_live_mut g fs).
Proof.
  intros Hg. induction fs as [|f fs IH]; constructor.
  - destruct (is_terminal _) eqn:E; [by left|]. apply Hg; [by left|done].
  - apply IH. intros x Hx. apply Hg. by right.
Qed.

Lemma update_get_mut_edge p d g fs :
  (forall f, f ∈ fs -> edge_legal f (g f)) -> Forall2 edge_legal fs (update_get_mut p d g fs).
Proof.
  intros Hg. induction fs as [|f fs IH]; simpl; [done|].
  assert (Forall2 edge_legal fs fs) as Hrefl.
  { clear. induction fs; constructor; [by left|done]. }
  destruct (feed_matches p d f); constructor; [apply Hg; by left|done|by left|].
  apply IH. intros x Hx. apply Hg. by right.
Qed.

(** The state-machine graph is respected by every call whose precondition holds:
    if each feed that is not terminal is in a state the call is meant for, then every
    feed either keeps its record or moves along an edge of [can_transition_to].  (The
    precondition matters: [to_live] on a [Requested] feed, for one, has no edge.) *)
Theorem feed_edges_legal o fs :
  Forall (fun f => is_terminal (feed_state f) = false -> op_edge_ok o (feed_state f) = true) fs ->
  Forall2 edge_legal fs (feed_op o fs).
Proof.
  intros Hok. rewrite Forall_forall in Hok.
  destruct o; simpl in *;
    [apply each_live_mut_edge|apply each_live_mut_edge|apply each_live_mut_edge
    |apply update_get_mut_edge|apply update_get_mut_edge|apply update_get_mut_edge
    |apply each_live_mut_edge|apply each_live_mut_edge|apply each_live_mut_edge];
    intros f Hf; specialize (Hok f Hf); unfold edge_legal; simpl;
    try destruct partial; simpl; destruct (feed_state f) eqn:E; simpl in *; auto;
    intros; try discriminate; specialize (Hok eq_refl); vm_compute in Hok; discriminate.
Qed.

(** The graph itself: terminal states are exactly the ones without an edge out,
    every other state can be drained to [Closed] within two edges, and only
    [Reconnecting] leads to [Rejected] or [Failed]. *)
Theorem feed_graph_drains s :
  (is_terminal s = true <-> forall s', can_transition_to s s' = false) /\
  (is_terminal s = false ->
     can_transition_to s Closed = true \/
     can_transition_to s Draining = true /\ can_transition_to Draining Closed = true) /\
  (forall s', can_transition_to s s' = true -> s' = Rejected \/ s' = Failed -> s = Reconnecting).
Proof.
  split_and!.
  - split; [by destruct s, s' || (intros; by destruct s, s')|].
    intros H. destruct s; try done.
    + by specialize (H Draining).
    + by specialize (H Draining).
    + by specialize (H Draining).
    + by specialize (H Draining).
    + by specialize (H Draining).
    + by specialize (H Draining).
    + by specialize (H Closed).
  - destruct s; auto; done.
  - intros s' H [-> | ->]; by destruct s.
Qed.
End Feeds.

(** ** Witnesses *)

Definition ex_uuid : Uuid := {| uuid := N; uuid_fmt := pretty |}.

Definition ex_feeds : @FeedSet ex_uuid :=
  let p := {| base := "BTC"; quote := "USDT" |} in
  [@Feed_new ex_uuid 1%N Binance p Orders; @Feed_new ex_uuid 2%N Binance p Trades].

Lemma feeds_terminal_absorb_witness :
  let fs := @feed_run ex_uuid [MarkAllSubscribing; MarkAllDraining; MarkAllClosed true] ex_feeds in
  Forall marks_ok (@feed_run ex_uuid [MarkAllFailed "x"; MarkAllReconnecting] fs).
Proof.
  intros fs. refine (proj1 (@feeds_terminal_absorb ex_uuid _ fs _)).
  repeat constructor; intros; try done; simpl in *;
    repeat match goal with H : _ \/ _ |- _ => destruct H end; done.
Defined.

Lemma feed_edges_legal_witness :
  Forall2 (@edge_legal ex_uuid) ex_feeds (@feed_op ex_uuid MarkAllSubscribing ex_feeds).
Proof.
  apply (@feed_edges_legal ex_uuid). repeat constructor.
Defined.
