(* ===== verification/Runtime.v ===== *)
(** * Reconstruction runtime

    [src/aetelier-connect/src/framework/runtime.rs] and the declared set of
    [src/aetelier-types/src/config/markets/market_config.rs]: the loop that drives one
    book and one tradebook per pair from the decoded events of a socket, seeds and
    re-seeds the books over REST, and emits reconstructed events.

    The handlers run to completion inside the loop (the only waits in them are sends on
    the output), so the loop is a step function on a [World]: the runtime itself, the
    local variables of [run] and what the environment sees, namely the sends on the
    output (with the number of sends the receiver will still take, [None] without a
    bound) and the seed tasks in flight.  Clocks are parameters, the [k]-th read of the
    process being the [k]-th element.  Log lines are not modelled, and a lock is never
    poisoned. *)

From Stdlib Require Import Ascii String.
From stdpp Require Import gmap strings.
From S2P Require Import Prelude Budget BTree Strings Numeric Pairs Types Delta Checksum Book Model Feed.
Local Open Scope nat_scope.

(** ** Declared datatypes *)

Inductive DeclaredDatatype :=
| DeclOrderbook | DeclTrades | DeclLiquidations | DeclFundingRates | DeclOpenInterest.

#[export] Instance DeclaredDatatype_eq_dec : EqDecision DeclaredDatatype.
Proof. solve_decision. Defined.
#[export] Instance DeclaredDatatype_countable : Countable DeclaredDatatype.
Proof.
  refine (inj_countable'
    (fun d => match d with DeclOrderbook => 0 | DeclTrades => 1 | DeclLiquidations => 2
                         | DeclFundingRates => 3 | DeclOpenInterest => 4 end)
    (fun n => match n with 0 => DeclOrderbook | 1 => DeclTrades | 2 => DeclLiquidations
                         | 3 => DeclFundingRates | _ => DeclOpenInterest end) _).
  by intros [].
Defined.

Definition DeclaredDatatype_ALL : list DeclaredDatatype :=
  [DeclOrderbook; DeclTrades; DeclLiquidations; DeclFundingRates; DeclOpenInterest].

Definition DeclaredDatatype_id (d : DeclaredDatatype) : string :=
  match d with
  | DeclOrderbook => "orderbook"
  | DeclTrades => "trades"
  | DeclLiquidations => "liquidations"
  | DeclFundingRates => "funding_rates"
  | DeclOpenInterest => "open_interest"
  end.

Definition DeclaredSet : Type := gset DeclaredDatatype.

(** The [enabled] flags of a [DataTypesSection]. *)
Record DataTypesSection := {
  sec_orderbook : bool; sec_trades : bool; sec_liquidations : bool;
  sec_funding_rates : bool; sec_open_interest : bool
}.

Definition from_section (s : DataTypesSection) : DeclaredSet :=
  fold_left (fun enabled dt =>
    let on := match dt with
              | DeclOrderbook => sec_orderbook s
              | DeclTrades => sec_trades s
              | DeclLiquidations => sec_liquidations s
              | DeclFundingRates => sec_funding_rates s
              | DeclOpenInterest => sec_open_interest s
              end in
    if on then {[dt]} ∪ enabled else enabled) DeclaredDatatype_ALL ∅.

Definition declared_all : DeclaredSet := list_to_set DeclaredDatatype_ALL.
Definition declared_only (dt : DeclaredDatatype) : DeclaredSet := {[dt]}.
Definition declared_without (dt : DeclaredDatatype) (s : DeclaredSet) : DeclaredSet := s ∖ {[dt]}.
Definition declared_contains (dt : DeclaredDatatype) (s : DeclaredSet) : bool :=
  bool_decide (dt ∈ s).

(** ** Constants *)

Definition MAX_BUFFERED_DELTAS : N := 100000.
Definition MAX_RESEEDS : N := 8.
(** Durations in nanoseconds. *)
Definition SEED_RETRY_BASE : Duration := 250000000%N.
Definition SEED_RETRY_CAP : Duration := 2000000000%N.
Definition IN_BAND_SEED_DEADLINE : Duration := 10000000000%N.
Definition STALE_CADENCE_MULTIPLE : N := 2.

(** errors.rs; the errors of other crates by their text. *)
Inductive ExchangeError :=
| WebSocketError (m : string)
| UrlParseError (m : string)
| JsonError (m : string)
| ChannelSendError
| IoError (m : string)
| SnapshotUnavailable (m : string)
| Unsupported (m : string).

(** The [k]-th reading of the monotonic clock (ns) and of the wall clock (us). *)
Class Clocks := { instant_at : nat -> N; wall_at : nat -> N }.

Section Runtime.
Context {NU : Numeric} {CRC : Crc32} {UU : Uuid} {CL : Clocks}.

(** ** State *)

Inductive ReconstructedEvent :=
| EvBook (p : TradingPair) (ts_us : N) (b : Orderbook)
| EvTrade (t : Trade)
| EvFundingRate (fr : FundingRate)
| EvOpenInterest (oi : OpenInterest)
| EvFundingSettlement (fs : FundingSettlement).

Inductive RuntimeOutcome := Finished | ResyncRequired.

Inductive Phase := Buffering (buf : list NormalizedDelta) | Passthrough.

Record PairBook := {
  wire : string;
  pb_book : SourcedOrderbook;
  pb_trades : SourcedTradebook;
  phase : Phase;
  buffering_since : option N;
  buffer_overflowed : bool;
  seeding : bool;
  reseeds : N;
  last_ts : N;
  last_local_ts : N;
  last_rtt : N
}.

Record SourceRuntime := {
  exchange : string;
  codec : SymbolCodec;
  rt_needs_rest : bool;
  rt_seeds_out_of_band : bool;
  declared : DeclaredSet;
  undeclared_warned : gset DeclaredDatatype;
  books : gmap TradingPair PairBook;
  metrics : SourceMetrics;
  feeds : option FeedSet;
  live_orders : gset TradingPair;
  live_trades : gset TradingPair;
  live_funding : gset TradingPair;
  live_oi : gset TradingPair;
  trade_seq_carry : option (gmap TradingPair N);
  datatype_cadence : gmap FeedDatatype Duration;
  last_seen : gmap (TradingPair * FeedDatatype) N
}.

(** A spawned seed fetch. *)
Record SeedTask := { task_pair : TradingPair; task_wire : string; task_delay : Duration }.

(** The runtime with the locals of [run]: whether a seeder was given, the count of
    fetches in flight; the fetches themselves; the output; the clock readings so far. *)
Record World := {
  rt : SourceRuntime;
  seeder : bool;
  in_flight : nat;
  spawned : list SeedTask;
  sent : list ReconstructedEvent;
  sends_left : option nat;
  reads : nat
}.

Definition with_pb_book (s : SourcedOrderbook) (x : PairBook) : PairBook := {|
  wire := wire x; pb_book := s; pb_trades := pb_trades x; phase := phase x;
  buffering_since := buffering_since x; buffer_overflowed := buffer_overflowed x;
  seeding := seeding x; reseeds := reseeds x; last_ts := last_ts x;
  last_local_ts := last_local_ts x; last_rtt := last_rtt x
|}.
Definition with_pb_trades (t : SourcedTradebook) (x : PairBook) : PairBook := {|
  wire := wire x; pb_book := pb_book x; pb_trades := t; phase := phase x;
  buffering_since := buffering_since x; buffer_overflowed := buffer_overflowed x;
  seeding := seeding x; reseeds := reseeds x; last_ts := last_ts x;
  last_local_ts := last_local_ts x; last_rtt := last_rtt x
|}.
Definition with_phase (ph : Phase) (x : PairBook) : PairBook := {|
  wire := wire x; pb_book := pb_book x; pb_trades := pb_trades x; phase := ph;
  buffering_since := buffering_since x; buffer_overflowed := buffer_overflowed x;
  seeding := seeding x; reseeds := reseeds x; last_ts := last_ts x;
  last_local_ts := last_local_ts x; last_rtt := last_rtt x
|}.
Definition with_since (t : option N) (x : PairBook) : PairBook := {|
  wire := wire x; pb_book := pb_book x; pb_trades := pb_trades x; phase := phase x;
  buffering_since := t; buffer_overflowed := buffer_overflowed x; seeding := seeding x;
  reseeds := reseeds x; last_ts := last_ts x; last_local_ts := last_local_ts x;
  last_rtt := last_rtt x
|}.
Definition with_overflowed (v : bool) (x : PairBook) : PairBook := {|
  wire := wire x; pb_book := pb_book x; pb_trades := pb_trades x; phase := phase x;
  buffering_since := buffering_since x; buffer_overflowed := v; seeding := seeding x;
  reseeds := reseeds x; last_ts := last_ts x; last_local_ts := last_local_ts x;
  last_rtt := last_rtt x
|}.
Definition with_seeding (v : bool) (x : PairBook) : PairBook := {|
  wire := wire x; pb_book := pb_book x; pb_trades := pb_trades x; phase := phase x;
  buffering_since := buffering_since x; buffer_overflowed := buffer_overflowed x;
  seeding := v; reseeds := reseeds x; last_ts := last_ts x; last_local_ts := last_local_ts x;
  last_rtt := last_rtt x
|}.
Definition with_reseeds (n : N) (x : PairBook) : PairBook := {|
  wire := wire x; pb_book := pb_book x; pb_trades := pb_trades x; phase := phase x;
  buffering_since := buffering_since x; buffer_overflowed := buffer_overflowed x;
  seeding := seeding x; reseeds := n; last_ts := last_ts x; last_local_ts := last_local_ts x;
  last_rtt := last_rtt x
|}.
Definition with_stamps (ts local rtt : N) (x : PairBook) : PairBook := {|
  wire := wire x; pb_book := pb_book x; pb_trades := pb_trades x; phase := phase x;
  buffering_since := buffering_since x; buffer_overflowed := buffer_overflowed x;
  seeding := seeding x; reseeds := reseeds x; last_ts := ts; last_local_ts := local;
  last_rtt := rtt
|}.
Definition with_books (bs : gmap TradingPair PairBook) (x : SourceRuntime) : SourceRuntime := {|
  exchange := exchange x; codec := codec x; rt_needs_rest := rt_needs_rest x;
  rt_seeds_out_of_band := rt_seeds_out_of_band x; declared := declared x;
  undeclared_warned := undeclared_warned x; books := bs; metrics := metrics x;
  feeds := feeds x; live_orders := live_orders x; live_trades := live_trades x;
  live_funding := live_funding x; live_oi := live_oi x; trade_seq_carry := trade_seq_carry x;
  datatype_cadence := datatype_cadence x; last_seen := last_seen x
|}.
Definition with_metrics (m : SourceMetrics) (x : SourceRuntime) : SourceRuntime := {|
  exchange := exchange x; codec := codec x; rt_needs_rest := rt_needs_rest x;
  rt_seeds_out_of_band := rt_seeds_out_of_band x; declared := declared x;
  undeclared_warned := undeclared_warned x; books := books x; metrics := m; feeds := feeds x;
  live_orders := live_orders x; live_trades := live_trades x; live_funding := live_funding x;
  live_oi := live_oi x; trade_seq_carry := trade_seq_carry x;
  datatype_cadence := datatype_cadence x; last_seen := last_seen x
|}.
Definition with_warned (w : gset DeclaredDatatype) (x : SourceRuntime) : SourceRuntime := {|
  exchange := exchange x; codec := codec x; rt_needs_rest := rt_needs_rest x;
  rt_seeds_out_of_band := rt_seeds_out_of_band x; declared := declared x;
  undeclared_warned := w; books := books x; metrics := metrics x; feeds := feeds x;
  live_orders := live_orders x; live_trades := live_trades x; live_funding := live_funding x;
  live_oi := live_oi x; trade_seq_carry := trade_seq_carry x;
  datatype_cadence := datatype_cadence x; last_seen := last_seen x
|}.
Definition set_feeds (fs : option FeedSet) (x : SourceRuntime) : SourceRuntime := {|
  exchange := exchange x; codec := codec x; rt_needs_rest := rt_needs_rest x;
  rt_seeds_out_of_band := rt_seeds_out_of_band x; declared := declared x;
  undeclared_warned := undeclared_warned x; books := books x; metrics := metrics x;
  feeds := fs; live_orders := live_orders x; live_trades := live_trades x;
  live_funding := live_funding x; live_oi := live_oi x; trade_seq_carry := trade_seq_carry x;
  datatype_cadence := datatype_cadence x; last_seen := last_seen x
|}.
Definition with_carry (c : option (gmap TradingPair N)) (x : SourceRuntime) : SourceRuntime := {|
  exchange := exchange x; codec := codec x; rt_needs_rest := rt_needs_rest x;
  rt_seeds_out_of_band := rt_seeds_out_of_band x; declared := declared x;
  undeclared_warned := undeclared_warned x; books := books x; metrics := metrics x;
  feeds := feeds x; live_orders := live_orders x; live_trades := live_trades x;
  live_funding := live_funding x; live_oi := live_oi x; trade_seq_carry := c;
  datatype_cadence := datatype_cadence x; last_seen := last_seen x
|}.
Definition with_cadences (c : gmap FeedDatatype Duration) (x : SourceRuntime) : SourceRuntime := {|
  exchange := exchange x; codec := codec x; rt_needs_rest := rt_needs_rest x;
  rt_seeds_out_of_band := rt_seeds_out_of_band x; declared := declared x;
  undeclared_warned := undeclared_warned x; books := books x; metrics := metrics x;
  feeds := feeds x; live_orders := live_orders x; live_trades := live_trades x;
  live_funding := live_funding x; live_oi := live_oi x; trade_seq_carry := trade_seq_carry x;
  datatype_cadence := c; last_seen := last_seen x
|}.
Definition with_last_seen (l : gmap (TradingPair * FeedDatatype) N) (x : SourceRuntime) : SourceRuntime := {|
  exchange := exchange x; codec := codec x; rt_needs_rest := rt_needs_rest x;
  rt_seeds_out_of_band := rt_seeds_out_of_band x; declared := declared x;
  undeclared_warned := undeclared_warned x; books := books x; metrics := metrics x;
  feeds := feeds x; live_orders := live_orders x; live_trades := live_trades x;
  live_funding := live_funding x; live_oi := live_oi x; trade_seq_carry := trade_seq_carry x;
  datatype_cadence := datatype_cadence x; last_seen := l
|}.
Definition with_live_sets (o t f i : gset TradingPair) (x : SourceRuntime) : SourceRuntime := {|
  exchange := exchange x; codec := codec x; rt_needs_rest := rt_needs_rest x;
  rt_seeds_out_of_band := rt_seeds_out_of_band x; declared := declared x;
  undeclared_warned := undeclared_warned x; books := books x; metrics := metrics x;
  feeds := feeds x; live_orders := o; live_trades := t; live_funding := f; live_oi := i;
  trade_seq_carry := trade_seq_carry x; datatype_cadence := datatype_cadence x;
  last_seen := last_seen x
|}.
Definition with_rt (r : SourceRuntime) (x : World) : World := {|
  rt := r; seeder := seeder x; in_flight := in_flight x; spawned := spawned x;
  sent := sent x; sends_left := sends_left x; reads := reads x
|}.
Definition with_seeds (n : nat) (l : list SeedTask) (x : World) : World := {|
  rt := rt x; seeder := seeder x; in_flight := n; spawned := l; sent := sent x;
  sends_left := sends_left x; reads := reads x
|}.
Definition with_sent (l : list ReconstructedEvent) (k : option nat) (x : World) : World := {|
  rt := rt x; seeder := seeder x; in_flight := in_flight x; spawned := spawned x; sent := l;
  sends_left := k; reads := reads x
|}.
Definition with_reads (n : nat) (x : World) : World := {|
  rt := rt x; seeder := seeder x; in_flight := in_flight x; spawned := spawned x;
  sent := sent x; sends_left := sends_left x; reads := n
|}.
(** ** Construction *)

Definition PairBook_new (p : TradingPair) (w : string) (m : ReconstructionModel)
    (r : RecoveryAction) (out_of_band : bool) (now : N) : PairBook := {|
  wire := w;
  pb_book := SourcedOrderbook_new p m r;
  pb_trades := SourcedTradebook_new p;
  phase := if out_of_band then Buffering [] else Passthrough;
  buffering_since := if out_of_band then Some now else None;
  buffer_overflowed := false; seeding := false; reseeds := 0;
  last_ts := 0; last_local_ts := 0; last_rtt := 0
|}.

(** [now k] is the clock when the [k]-th symbol is added. *)
Definition new_books (c : SymbolCodec) (m : ReconstructionModel) (r : RecoveryAction)
    (out_of_band : bool) (now : nat -> N) (wire_symbols : list string)
    : gmap TradingPair PairBook :=
  fold_left (fun bs kw =>
    match decode c kw.2 with
    | None => bs
    | Some p => <[p := PairBook_new p kw.2 m r out_of_band (now kw.1)]> bs
    end) (imap (fun k w => (k, w)) wire_symbols) ∅.

Definition SourceRuntime_new (ex : string) (c : SymbolCodec) (wire_symbols : list string)
    (m : ReconstructionModel) (r : RecoveryAction) (mx : SourceMetrics) (ds : DeclaredSet)
    (now : nat -> N) : SourceRuntime :=
  let book_active := declared_contains DeclOrderbook ds in
  let out_of_band := seeds_out_of_band m && book_active in {|
  exchange := ex; codec := c;
  rt_needs_rest := needs_rest m && book_active;
  rt_seeds_out_of_band := out_of_band;
  declared := ds; undeclared_warned := ∅;
  books := new_books c m r out_of_band now wire_symbols;
  metrics := mx; feeds := None;
  live_orders := ∅; live_trades := ∅; live_funding := ∅; live_oi := ∅;
  trade_seq_carry := None; datatype_cadence := ∅; last_seen := ∅
|}.

Definition with_datatype_cadence (cadences : list (FeedDatatype * Duration)) (x : SourceRuntime)
    : SourceRuntime :=
  with_cadences (fold_left (fun m c => <[c.1 := c.2]> m) cadences (datatype_cadence x)) x.

Definition with_feeds (fs : FeedSet) (x : SourceRuntime) : SourceRuntime :=
  set_feeds (Some fs) x.

Definition with_trade_seq_carry (carry : gmap TradingPair N) (x : SourceRuntime) : SourceRuntime :=
  with_carry (Some carry)
    (with_books (map_imap (fun p b =>
       Some (with_pb_trades (with_last_seq (carry !! p) (SourcedTradebook_new p)) b)) (books x)) x).

Definition runtime_with_max_depth (depth : option nat) (x : SourceRuntime) : SourceRuntime :=
  with_books ((fun b => with_pb_book (arm_config_depth depth (pb_book b)) b) <$> books x) x.

Definition runtime_len (x : SourceRuntime) : nat := size (books x).
Definition runtime_is_empty (x : SourceRuntime) : bool := bool_decide (books x = ∅).

(** ** The effects of a handler: state, and [Err ()] when the output is closed *)

Definition M (A : Type) : Type := World -> World * Result A unit.

#[export] Instance M_ret : MRet M := fun _ a w => (w, Ok a).
#[export] Instance M_bind : MBind M := fun _ _ k m w =>
  match m w with
  | (w, Ok a) => k a w
  | (w, Err e) => (w, Err e)
  end.

Definition gets {A} (f : World -> A) : M A := fun w => (w, Ok (f w)).
Definition modify (f : World -> World) : M unit := fun w => (f w, Ok tt).
Definition modify_rt (f : SourceRuntime -> SourceRuntime) : M unit :=
  modify (fun w => with_rt (f (rt w)) w).
Definition metric (f : SourceMetrics -> SourceMetrics) : M unit :=
  modify_rt (fun x => with_metrics (f (metrics x)) x).
Definition when (c : bool) (m : M unit) : M unit := if c then m else mret tt.

Definition put_book (p : TradingPair) (b : PairBook) : M unit :=
  modify_rt (fun x => with_books (<[p := b]> (books x)) x).

Definition instant_now : M N := fun w => (with_reads (S (reads w)) w, Ok (instant_at (reads w))).
Definition now_us : M N := fun w => (with_reads (S (reads w)) w, Ok (wall_at (reads w))).

(** [out.send(e).await.map_err(|_| ())] *)
Definition send (e : ReconstructedEvent) : M unit := fun w =>
  match sends_left w with
  | Some 0 => (w, Err tt)
  | Some (S k) => (with_sent (sent w ++ [e]) (Some k) w, Ok tt)
  | None => (with_sent (sent w ++ [e]) None w, Ok tt)
  end.

(** ** Emission *)

Definition book_ts (b : PairBook) : M N :=
  if (0 <? last_ts b)%N then mret (last_ts b) else now_us.

Definition stamped_book (ex : string) (p : TradingPair) (ts : N) (b : PairBook) : Orderbook :=
  let '(bs, az) := capture_levels (book (pb_book b)) in
  let ob := Orderbook_from_levels 0 ts p ex bs az in {|
  orderbook_id := orderbook_id ob; orderbook_ts_us := orderbook_ts_us ob;
  ob_source_ts_us := last_ts b; ob_local_ts_us := last_local_ts b; ob_rtt_us := last_rtt b;
  ob_pair := ob_pair ob; ob_exchange := ob_exchange ob; ob_bids := ob_bids ob; ob_asks := ob_asks ob
|}.

Definition emit_book (p : TradingPair) (b : PairBook) : M unit :=
  ts ← book_ts b;
  ex ← gets (fun w => exchange (rt w));
  send (EvBook p ts (stamped_book ex p ts b)).

(** The stamps of an applied frame: an unknown (zero) event time keeps the last one. *)
Definition note_applied (d : NormalizedDelta) (b : PairBook) : PairBook :=
  with_stamps (if (0 <? source_orderbook_ts_us d)%N then source_orderbook_ts_us d else last_ts b)
    (local_orderbook_ts_us d) (source_orderbook_rtt_us d) b.

(** ** Feed notes *)

Definition live_set (dt : FeedDatatype) (x : SourceRuntime) : gset TradingPair :=
  match dt with
  | Orders => live_orders x
  | Trades => live_trades x
  | FundingRates => live_funding x
  | OpenInterests => live_oi x
  end.

Definition live_insert (p : TradingPair) (dt : FeedDatatype) (x : SourceRuntime) : SourceRuntime :=
  let ins d s := if bool_decide (d = dt) then {[p]} ∪ s else s in
  with_live_sets (ins Orders (live_orders x)) (ins Trades (live_trades x))
    (ins FundingRates (live_funding x)) (ins OpenInterests (live_oi x)) x.

Definition note_live (p : TradingPair) (dt : FeedDatatype) : M unit :=
  x ← gets rt;
  let cadence_watched := bool_decide (is_Some (datatype_cadence x !! dt)) in
  when cadence_watched
    (now ← instant_now;
     modify_rt (fun x => with_last_seen (<[(p, dt) := now]> (last_seen x)) x));;
  match feeds x with
  | None => mret tt
  | Some _ =>
    let first_data := bool_decide (p ∉ live_set dt x) in
    modify_rt (live_insert p dt);;
    when (first_data || cadence_watched)
      (modify_rt (fun x => set_feeds (mark_live p dt <$> feeds x) x))
  end.

Definition note_resubscribing (p : TradingPair) : M unit :=
  modify_rt (fun x =>
    match feeds x with
    | None => x
    | Some fs =>
      set_feeds (Some (mark_resubscribing p Orders fs))
        (with_live_sets (live_orders x ∖ {[p]}) (live_trades x) (live_funding x) (live_oi x) x)
    end).

Definition is_overdue (x : SourceRuntime) (now : N) (seen : TradingPair * FeedDatatype * N) : bool :=
  match datatype_cadence x !! seen.1.2 with
  | Some cadence => (cadence * STALE_CADENCE_MULTIPLE <? now - seen.2)%N
  | None => false
  end.

Definition sweep_stale_datatypes : M unit :=
  x ← gets rt;
  match feeds x with
  | None => mret tt
  | Some fs =>
    if bool_decide (datatype_cadence x = ∅) then mret tt
    else
      now ← instant_now;
      let overdue := map fst (List.filter (is_overdue x now) (map_to_list (last_seen x))) in
      modify_rt (set_feeds (Some (fold_left (fun fs k => mark_stale k.1 k.2 fs) overdue fs)))
  end.

(** ** Seeds *)

Definition spawn_seed (p : TradingPair) (w : string) (delay : Duration) : M unit :=
  modify (fun x => with_seeds (in_flight x)
    (spawned x ++ [{| task_pair := p; task_wire := w; task_delay := delay |}]) x).

(** What the spawned task reports: the fetched snapshot with the wall-clock time just
    before the request. *)
Definition seed_result (pre_get_us : N) (fetched : Result NormalizedDelta ExchangeError)
    : Result NormalizedDelta ExchangeError :=
  match fetched with
  | Ok d => Ok (stamp_book pre_get_us (source_orderbook_rtt_us d) d)
  | Err e => Err e
  end.

Definition bump_in_flight : M unit :=
  modify (fun w => with_seeds (S (in_flight w)) (spawned w) w).

Definition request_reseed (p : TradingPair) (delay : Duration) : M unit :=
  has ← gets seeder;
  if negb has then mret tt
  else
    x ← gets rt;
    match books x !! p with
    | Some b =>
      if negb (seeding b) && (reseeds b <? MAX_RESEEDS)%N
      then put_book p (with_reseeds (reseeds b + 1) (with_seeding true b));;
           spawn_seed p (wire b) delay;;
           bump_in_flight
      else mret tt
    | None => mret tt
    end.

Definition with_symbol (sym : string) (d : NormalizedDelta) : NormalizedDelta := {|
  symbol := sym; nd_bids := nd_bids d; nd_asks := nd_asks d;
  update_id := update_id d; nd_sequence := nd_sequence d;
  source_orderbook_ts_us := source_orderbook_ts_us d;
  local_orderbook_ts_us := local_orderbook_ts_us d;
  source_orderbook_rtt_us := source_orderbook_rtt_us d;
  checksum := checksum d; orders := orders d; is_snapshot := is_snapshot d
|}.

(** Gaps and, if the checksum was the reason, checksum failures. *)
Definition count_gap (e : ResyncNeeded) : M unit :=
  metric bump_gaps;; when (is_checksum (reason e)) (metric bump_checksum_fail).

Inductive ReplayEnd := ReplayClean | ReplayReseed | ReplayResync.

(** The replay loop over the buffered deltas, on the book of the pair. *)
Fixpoint replay (p : TradingPair) (snap_id : N) (can_reseed : bool) (buf : list NormalizedDelta)
    (b : PairBook) : M (PairBook * ReplayEnd) :=
  match buf with
  | [] => mret (b, ReplayClean)
  | d :: tail =>
    if (update_id d <=? snap_id)%N then replay p snap_id can_reseed tail b
    else
      match apply d (pb_book b) with
      | (sb, Ok _) =>
        let b := note_applied d (with_pb_book sb b) in
        put_book p b;; emit_book p b;; replay p snap_id can_reseed tail b
      | (sb, Err e) =>
        let b := with_pb_book sb b in
        count_gap e;;
        metric bump_resyncs;;
        if can_reseed && (reseeds b <? MAX_RESEEDS)%N
        then now ← instant_now;
             let b := with_since (Some now)
                        (with_phase (Buffering (pop_front_to (N.to_nat MAX_BUFFERED_DELTAS) (d :: tail))) b) in
             put_book p b;; mret (b, ReplayReseed)
        else put_book p b;; metric bump_reseed_exhausted;; mret (b, ReplayResync)
      end
  end.

(** The [else] branch of [apply_seed]: the seed is on the book. *)
Definition seed_applied (p : TradingPair) (snap : NormalizedDelta) (can_reseed : bool) (b : PairBook)
    : M ReplayEnd :=
  let b := note_applied snap b in
  put_book p b;;
  emit_book p b;;
  let buffered := match phase b with Buffering buf => buf | Passthrough => [] end in
  let b := with_overflowed false (with_since None (with_phase Passthrough b)) in
  put_book p b;;
  r ← replay p (update_id snap) can_reseed buffered b;
  match r.2 with
  | ReplayClean => put_book p (with_reseeds 0 r.1);; mret ReplayClean
  | _ => mret r.2
  end.

(** [Ok true]: the socket must be reconnected. *)
Definition apply_seed (p : TradingPair) (snapshot : NormalizedDelta) : M bool :=
  let snapshot := with_symbol (to_canonical p) snapshot in
  can_reseed ← gets seeder;
  x ← gets rt;
  match books x !! p with
  | None => mret false
  | Some b =>
    match apply snapshot (pb_book b) with
    | (sb, Err _) =>
      put_book p (with_pb_book sb b);;
      metric bump_resyncs;;
      if can_reseed && (reseeds b <? MAX_RESEEDS)%N
      then note_resubscribing p;; request_reseed p 0%N;; mret false
      else metric bump_reseed_exhausted;; mret true
    | (sb, Ok _) =>
      e ← seed_applied p snapshot can_reseed (with_pb_book sb b);
      note_live p Orders;;
      match e with
      | ReplayClean => mret false
      | ReplayReseed => note_resubscribing p;; request_reseed p 0%N;; mret false
      | ReplayResync => mret true
      end
    end
  end.

(** ** Events *)

(** An event of a datatype the configuration did not declare. *)
Definition drop_undeclared (dt : DeclaredDatatype) : M bool :=
  metric bump_undeclared_dropped;;
  modify_rt (fun x => with_warned ({[dt]} ∪ undeclared_warned x) x);;
  mret false.

(** A delta while the pair waits for its seed. *)
Definition push_buffered (d : NormalizedDelta) (buf : list NormalizedDelta) (b : PairBook) : PairBook :=
  if (MAX_BUFFERED_DELTAS <=? N.of_nat (length buf))%N
  then with_phase (Buffering (tail buf ++ [d])) (with_overflowed true b)
  else with_phase (Buffering (buf ++ [d])) b.

(** A delta of a streaming pair.  The last two arms of the source differ in their log
    line only. *)
Definition apply_passthrough (p : TradingPair) (d : NormalizedDelta) (b : PairBook) : M bool :=
  can_reseed ← gets seeder;
  match apply d (pb_book b) with
  | (sb, Ok _) =>
    let b := note_applied d (with_pb_book sb b) in
    put_book p b;; emit_book p b;; note_live p Orders;; mret false
  | (sb, Err e) =>
    let b := with_pb_book sb b in
    count_gap e;;
    metric bump_resyncs;;
    if can_reseed && (reseeds b <? MAX_RESEEDS)%N
    then now ← instant_now;
         put_book p (with_since (Some now) (with_phase (Buffering [d]) b));;
         note_resubscribing p;; request_reseed p 0%N;; mret false
    else put_book p b;; mret true
  end.

Definition is_buffering (b : PairBook) : bool :=
  match phase b with Buffering _ => true | Passthrough => false end.

Definition handle_book (d : NormalizedDelta) : M bool :=
  x ← gets rt;
  if negb (declared_contains DeclOrderbook (declared x)) then drop_undeclared DeclOrderbook
  else
    match decode (codec x) (symbol d) with
    | None => mret false
    | Some p =>
      let d := with_symbol (to_canonical p) d in
      match books x !! p with
      | None => mret false
      | Some b =>
        if is_snapshot d && is_buffering b then apply_seed p d
        else
          match phase b with
          | Buffering buf => put_book p (push_buffered d buf b);; mret false
          | Passthrough => apply_passthrough p d b
          end
      end
    end.

Definition handle_connection_gap (dropped : N) : M bool :=
  metric bump_gaps;;
  metric bump_resyncs;;
  metric (add_deltas_missed dropped);;
  modify_rt (fun x => with_books
    ((fun b => with_since None (with_phase Passthrough (with_pb_book (force_gap (pb_book b)) b)))
       <$> books x) x);;
  mret true.

(** The continuity position for the next connection. *)
Definition persist_carry (p : TradingPair) (t : SourcedTradebook) (x : SourceRuntime) : SourceRuntime :=
  match trade_seq_carry x, last_seq t with
  | Some carry, Some l => with_carry (Some (<[p := l]> carry)) x
  | _, _ => x
  end.

Definition handle_trade (t : Trade) (sq : option N) : M bool :=
  x ← gets rt;
  if negb (declared_contains DeclTrades (declared x)) then drop_undeclared DeclTrades
  else
    let p := trade_pair t in
    match books x !! p with
    | None => mret false
    | Some b =>
      when (bool_decide (is_Some sq)) (metric (set_trade_loss_confidence Exact));;
      let '(tb, outcome) := tb_apply sq (pb_trades b) in
      put_book p (with_pb_trades tb b);;
      match outcome with
      | TradeGappedApplied missed => metric bump_trade_gaps;; metric (add_trades_lost missed)
      | _ => mret tt
      end;;
      modify_rt (persist_carry p tb);;
      send (EvTrade t);;
      note_live p Trades;;
      mret false
    end.

Definition handle_funding_rate (fr : FundingRate) : M bool :=
  x ← gets rt;
  if negb (declared_contains DeclFundingRates (declared x)) then drop_undeclared DeclFundingRates
  else send (EvFundingRate fr);; note_live (funding_pair fr) FundingRates;; mret false.

Definition handle_open_interest (oi : OpenInterest) : M bool :=
  x ← gets rt;
  if negb (declared_contains DeclOpenInterest (declared x)) then drop_undeclared DeclOpenInterest
  else send (EvOpenInterest oi);; note_live (oi_pair oi) OpenInterests;; mret false.

(** No warning is recorded for an undeclared settlement. *)
Definition handle_settlement (fs : FundingSettlement) : M bool :=
  x ← gets rt;
  if negb (declared_contains DeclFundingRates (declared x))
  then metric bump_undeclared_dropped;; mret false
  else send (EvFundingSettlement fs);; mret false.

Definition handle_event (ev : DomainEvent) : M bool :=
  match ev with
  | Model.Book d => handle_book d
  | ConnectionGap dropped => handle_connection_gap dropped
  | TradeEvent t sq => handle_trade t sq
  | FundingRateEvent fr => handle_funding_rate fr
  | OpenInterestEvent oi => handle_open_interest oi
  | FundingSettlementEvent fs => handle_settlement fs
  end.

(** ** The loop of [run] *)

Fixpoint scan_seed_deadlines (bs : list PairBook) (expired : bool) : M bool :=
  match bs with
  | [] => mret expired
  | b :: bs' =>
    match buffering_since b with
    | Some since =>
      if is_buffering b
      then now ← instant_now;
           scan_seed_deadlines bs' (expired || (IN_BAND_SEED_DEADLINE <? now - since)%N)
      else scan_seed_deadlines bs' expired
    | None => scan_seed_deadlines bs' expired
    end
  end.

Definition in_band_seed_expired : M bool :=
  x ← gets rt;
  expired ← scan_seed_deadlines (map snd (map_to_list (books x))) false;
  when expired (metric bump_resyncs);;
  mret expired.

(** The initial seed of one pair. *)
Definition start_seed (pw : TradingPair * string) : M unit :=
  spawn_seed pw.1 pw.2 0%N;;
  modify_rt (fun x => with_books (alter (with_seeding true) pw.1 (books x)) x);;
  bump_in_flight.

Fixpoint start_seeds (l : list (TradingPair * string)) : M unit :=
  match l with
  | [] => mret tt
  | pw :: l' => start_seed pw;; start_seeds l'
  end.

Definition start : M unit :=
  x ← gets rt;
  has ← gets seeder;
  if rt_needs_rest x then
    if negb has
    then modify_rt (fun x => with_books (with_phase Passthrough <$> books x) x)
    else start_seeds (map (fun pb : TradingPair * PairBook => (pb.1, wire pb.2))
                        (map_to_list (books x)))
  else mret tt.

Definition run_start (x : SourceRuntime) (has_seeder : bool) (receiver : option nat) : World :=
  (start {| rt := x; seeder := has_seeder; in_flight := 0; spawned := [];
            sent := []; sends_left := receiver; reads := 0 |}).1.

Definition awaits_in_band_seed (x : SourceRuntime) : bool :=
  rt_seeds_out_of_band x && negb (rt_needs_rest x).

(** What the loop selects. *)
Inductive Input :=
| InShutdown (flag : bool)
| InSweep
| InHeartbeat
| InEvent (ev : DomainEvent)
| InEventsClosed
| InSeed (task : SeedTask) (pre_get_us : N) (fetched : Result NormalizedDelta ExchangeError)
| InDeadline.

Definition retry_delay (attempts : N) : Duration :=
  N.min (SEED_RETRY_BASE * (attempts + 1)) SEED_RETRY_CAP.

(** The arm of a seed result: the bookkeeping of the fetch, then what it brought. *)
Definition on_seed_result (p : TradingPair) (result : Result NormalizedDelta ExchangeError) : M bool :=
  match result with
  | Ok snapshot => apply_seed p snapshot
  | Err _ =>
    metric bump_resyncs;;
    x ← gets rt;
    let attempts := match books x !! p with Some b => reseeds b | None => MAX_RESEEDS end in
    if (attempts <? MAX_RESEEDS)%N
    then request_reseed p (retry_delay attempts);; mret false
    else metric bump_reseed_exhausted;; mret true
  end.

Definition on_seed (p : TradingPair) (result : Result NormalizedDelta ExchangeError) : M bool :=
  modify (fun w => with_seeds (in_flight w - 1) (spawned w) w);;
  modify_rt (fun x => with_books (alter (with_seeding false) p (books x)) x);;
  on_seed_result p result.

(** How an iteration ends. *)
Inductive LoopEnd := Continue | Break (resync : bool) | OutputClosed.

Definition break_if (m : M bool) (w : World) : World * LoopEnd :=
  match m w with
  | (w, Ok true) => (w, Break true)
  | (w, Ok false) => (w, Continue)
  | (w, Err _) => (w, OutputClosed)
  end.

(** The removal of a finished task. *)
Fixpoint remove_task (t : TradingPair) (l : list SeedTask) : list SeedTask :=
  match l with
  | [] => []
  | x :: l' => if bool_decide (task_pair x = t) then l' else x :: remove_task t l'
  end.

Record LoopState := { world : World; events_done : bool }.

Definition select_arm (i : Input) (s : LoopState) : LoopState * LoopEnd :=
  let on m := let '(w, e) := break_if m (world s) in
              ({| world := w; events_done := events_done s |}, e) in
  match i with
  | InShutdown flag => (s, if flag then Break false else Continue)
  | InSweep => on (sweep_stale_datatypes;; mret false)
  | InHeartbeat => (s, Continue)
  | InEvent ev => on (handle_event ev)
  | InEventsClosed => ({| world := world s; events_done := true |}, Continue)
  | InSeed task pre_get_us fetched =>
    on (modify (fun w => with_seeds (in_flight w) (remove_task (task_pair task) (spawned w)) w);;
        on_seed (task_pair task) (seed_result pre_get_us fetched))
  | InDeadline => on in_band_seed_expired
  end.

(** An arm can be selected: its guard holds, and a seed result comes from a task. *)
Definition select_enabled (i : Input) (s : LoopState) : Prop :=
  match i with
  | InEvent _ | InEventsClosed => events_done s = false
  | InSeed task _ _ => task ∈ spawned (world s)
  | InDeadline => awaits_in_band_seed (rt (world s)) = true
  | _ => True
  end.

(** [if events_done && in_flight == 0 { break; }] at the top of the loop. *)
Definition loop_done (s : LoopState) : bool := events_done s && (in_flight (world s) =? 0).

(** After the loop. *)
Definition finish (resync : bool) (w : World) : World * RuntimeOutcome :=
  let w := if 0 <? in_flight w
           then with_rt (with_metrics (add_seeds_abandoned (N.of_nat (in_flight w)) (metrics (rt w)))
                           (rt w)) w
           else w in
  (w, if resync then ResyncRequired else Finished).

(** The loop on the arms selected in turn; [None]: it has not ended. *)
Fixpoint run_loop (inputs : list Input) (s : LoopState) : LoopState * option RuntimeOutcome :=
  if loop_done s
  then let '(w, o) := finish false (world s) in
       ({| world := w; events_done := events_done s |}, Some o)
  else
    match inputs with
    | [] => (s, None)
    | i :: inputs' =>
      match select_arm i s with
      | (s, Continue) => run_loop inputs' s
      | (s, Break resync) =>
        let '(w, o) := finish resync (world s) in
        ({| world := w; events_done := events_done s |}, Some o)
      | (s, OutputClosed) => (s, Some Finished)
      end
    end.

(** One iteration that does not end the loop. *)
Inductive loop_step : LoopState -> LoopState -> Prop :=
| loop_iter i s s' :
    loop_done s = false -> select_enabled i s -> select_arm i s = (s', Continue) ->
    loop_step s s'.

Definition loop_start (x : SourceRuntime) (has_seeder : bool) (receiver : option nat) : LoopState :=
  {| world := run_start x has_seeder receiver; events_done := false |}.
End Runtime.
