(* ===== verification/RuntimeProps.v ===== *)
(** * Properties of the reconstruction runtime

    Theorems on the definitions of [Runtime].  The invariants are carried through the
    handlers with a weakest-precondition calculus for their effect monad; an effect
    that leaves the books, the seeds and the output alone is [quiet]. *)

From Stdlib Require Import Ascii String.
From stdpp Require Import gmap strings relations.
From S2P Require Import Prelude Budget BTree Strings Numeric Pairs Types Delta Checksum Book BookProps Model ModelProps Feed Runtime.
Local Open Scope nat_scope.

Section Calculus.
Context {NU : Numeric} {CRC : Crc32} {UU : Uuid} {CL : Clocks}.

(** ** Weakest preconditions *)

(** [m] from [w] ends normally in [Q] or, the output being closed, in [E]. *)
Definition wp {A} (m : M A) (Q : A -> World -> Prop) (E : World -> Prop) (w : World) : Prop :=
  match m w with
  | (w', Ok a) => Q a w'
  | (w', Err _) => E w'
  end.

Lemma wp_ret {A} (a : A) (Q : A -> World -> Prop) E w : Q a w -> wp (mret a) Q E w.
Proof. done. Qed.

Lemma wp_bind {A B} (m : M A) (k : A -> M B) Q E w :
  wp m (fun a => wp (k a) Q E) E w -> wp (m ≫= k) Q E w.
Proof. unfold wp, mbind, M_bind. by destruct (m w) as [w' [a|u]]. Qed.

Lemma wp_mono {A} (m : M A) (Q Q' : A -> World -> Prop) (E E' : World -> Prop) w :
  wp m Q E w -> (forall a w', Q a w' -> Q' a w') -> (forall w', E w' -> E' w') -> wp m Q' E' w.
Proof. unfold wp. destruct (m w) as [w' [a|u]]; auto. Qed.

Lemma wp_gets {A} (f : World -> A) Q E w : Q (f w) w -> wp (gets f) Q E w.
Proof. done. Qed.

Lemma wp_modify f (Q : unit -> World -> Prop) E w : Q tt (f w) -> wp (modify f) Q E w.
Proof. done. Qed.

(** ** What the environment and the other handlers see *)

Record Core := {
  c_books : gmap TradingPair PairBook;
  c_spawned : list SeedTask;
  c_in_flight : nat;
  c_sent : list ReconstructedEvent;
  c_left : option nat;
  c_seeder : bool;
  c_rest : bool;
  c_oob : bool
}.

Definition core (w : World) : Core := {|
  c_books := books (rt w); c_spawned := spawned w; c_in_flight := in_flight w;
  c_sent := sent w; c_left := sends_left w; c_seeder := seeder w;
  c_rest := rt_needs_rest (rt w); c_oob := rt_seeds_out_of_band (rt w)
|}.

Definition quiet {A} (m : M A) : Prop :=
  forall w, match m w with (w', Ok _) => core w' = core w | (_, Err _) => False end.

Lemma wp_quiet {A} (m : M A) (Q : A -> World -> Prop) E w :
  quiet m -> (forall a w', core w' = core w -> Q a w') -> wp m Q E w.
Proof.
  intros Hm HQ. specialize (Hm w). unfold wp. destruct (m w) as [w' [a|u]]; [auto|done].
Qed.

Lemma quiet_ret {A} (a : A) : quiet (mret a).
Proof. by intros w. Qed.
Lemma quiet_gets {A} (f : World -> A) : quiet (gets f).
Proof. by intros w. Qed.
Lemma quiet_bind {A B} (m : M A) (k : A -> M B) :
  quiet m -> (forall a, quiet (k a)) -> quiet (m ≫= k).
Proof.
  intros Hm Hk w. specialize (Hm w). unfold mbind, M_bind. destruct (m w) as [w' [a|u]]; [|done].
  specialize (Hk a w'). destruct (k a w') as [w2 [b|u]]; [congruence|done].
Qed.
Lemma quiet_modify_rt f :
  (forall x, books (f x) = books x /\ rt_needs_rest (f x) = rt_needs_rest x /\
             rt_seeds_out_of_band (f x) = rt_seeds_out_of_band x) ->
  quiet (modify_rt f).
Proof.
  intros Hf w. destruct (Hf (rt w)) as (H1 & H2 & H3). unfold core. simpl. congruence.
Qed.
Lemma quiet_metric f : quiet (metric f).
Proof. by intros w. Qed.
Lemma quiet_when c m : quiet m -> quiet (when c m).
Proof. by destruct c. Qed.
Lemma quiet_instant_now : quiet instant_now.
Proof. by intros w. Qed.
Lemma quiet_now_us : quiet now_us.
Proof. by intros w. Qed.

Create HintDb quiet discriminated.
#[local] Hint Resolve quiet_ret quiet_gets quiet_bind quiet_metric quiet_when
  quiet_instant_now quiet_now_us : quiet.

Lemma quiet_count_gap e : quiet (count_gap e).
Proof. unfold count_gap. auto with quiet. Qed.

Lemma quiet_drop_undeclared dt : quiet (drop_undeclared dt).
Proof. by intros w. Qed.

Lemma quiet_note_live p dt : quiet (note_live p dt).
Proof.
  unfold note_live. apply quiet_bind; [auto with quiet|]. intros x.
  apply quiet_bind.
  - apply quiet_when, quiet_bind; [auto with quiet|]. intros now. by apply quiet_modify_rt.
  - intros _. destruct (feeds x); [|auto with quiet]. apply quiet_bind; [by apply quiet_modify_rt|].
    intros _. apply quiet_when. by apply quiet_modify_rt.
Qed.

Lemma quiet_note_resubscribing p : quiet (note_resubscribing p).
Proof. apply quiet_modify_rt. intros x. by destruct (feeds x). Qed.

Lemma quiet_sweep : quiet sweep_stale_datatypes.
Proof.
  unfold sweep_stale_datatypes. apply quiet_bind; [auto with quiet|]. intros x.
  destruct (feeds x); [|auto with quiet]. case_bool_decide; [auto with quiet|].
  apply quiet_bind; [auto with quiet|]. intros now. by apply quiet_modify_rt.
Qed.

Lemma quiet_book_ts b : quiet (book_ts b).
Proof. unfold book_ts. destruct (0 <? last_ts b)%N; auto with quiet. Qed.

Lemma quiet_persist_carry p t : quiet (modify_rt (persist_carry p t)).
Proof.
  apply quiet_modify_rt. intros x. unfold persist_carry.
  destruct (trade_seq_carry x), (last_seq t); done.
Qed.

Lemma quiet_scan bs e : quiet (scan_seed_deadlines bs e).
Proof.
  revert e. induction bs as [|b bs IH]; intros e; simpl; [auto with quiet|].
  destruct (buffering_since b); [|auto]. destruct (is_buffering b); [|auto].
  apply quiet_bind; auto with quiet.
Qed.

Lemma quiet_in_band_seed_expired : quiet in_band_seed_expired.
Proof.
  unfold in_band_seed_expired. apply quiet_bind; [auto with quiet|]. intros x.
  apply quiet_bind; [apply quiet_scan|]. auto with quiet.
Qed.
End Calculus.

(** ** The invariant of the loop *)

Section Invariant.
Context {NU : Numeric} {CRC : Crc32} {UU : Uuid} {CL : Clocks} {NL : NumericLaws NU}.
Implicit Types (p : TradingPair) (b : PairBook) (w : World) (c : Core).

(** One pair: a sorted book of that pair, the re-seed budget, the buffer cap, and a
    deadline clock that runs while it buffers. *)
Definition pb_inv p b : Prop :=
  book_ok (book (pb_book b)) /\ pair (book (pb_book b)) = p /\
  (reseeds b <= MAX_RESEEDS)%N /\
  match phase b with
  | Buffering buf => (N.of_nat (length buf) <= MAX_BUFFERED_DELTAS)%N /\ is_Some (buffering_since b)
  | Passthrough => True
  end.

(** The fetches in flight are one per pair that is seeding; none without a seeder. *)
Definition seeds_inv (sd : bool) (bs : gmap TradingPair PairBook) (l : list SeedTask) (n : nat)
    : Prop :=
  (sd = false -> l = []) /\ n = length l /\ NoDup (map task_pair l) /\
  forall p, p ∈ map task_pair l <-> exists b, bs !! p = Some b /\ seeding b = true.

(** An emitted book is of its pair, sorted, not crossed, and stamped with its event
    time unless that is unknown. *)
Definition event_ok (e : ReconstructedEvent) : Prop :=
  match e with
  | EvBook p ts ob =>
    ob_pair ob = p /\ orderbook_ts_us ob = ts /\
    (ob_source_ts_us ob <> 0%N -> ts = ob_source_ts_us ob) /\
    match Orderbook_best_bid ob, Orderbook_best_ask ob with
    | Some bid, Some ask => dltb bid ask = true
    | _, _ => True
    end
  | _ => True
  end.

Definition core_inv c : Prop :=
  map_Forall pb_inv (c_books c) /\ seeds_inv (c_seeder c) (c_books c) (c_spawned c) (c_in_flight c) /\
  Forall event_ok (c_sent c).

(** A pair that waits for its seed has a fetch in flight, unless its venue seeds on the
    socket. *)
Definition waits_ok c b : Prop :=
  is_buffering b = true -> seeding b = true \/ (c_oob c = true /\ c_rest c = false).

Definition waiting (ex : option TradingPair) c : Prop :=
  forall p b, c_books c !! p = Some b -> Some p <> ex -> waits_ok c b.

(** The invariant, with the pair [ex] between two handler steps. *)
Definition Inv (sd : bool) (ex : option TradingPair) w : Prop :=
  core_inv (core w) /\ waiting ex (core w) /\ seeder w = sd.

Lemma Inv_core sd ex w w' : core w' = core w -> Inv sd ex w -> Inv sd ex w'.
Proof.
  intros E [H1 [H2 H3]]. split_and!; [by rewrite E|by rewrite E|].
  by rewrite <- H3; change (c_seeder (core w') = c_seeder (core w)); rewrite E.
Qed.

Lemma Inv_weaken sd ex w : Inv sd None w -> Inv sd ex w.
Proof. intros (H1 & H2 & H3). split_and!; [done| |done]. intros p b Hb _. by eapply H2. Qed.

Definition set_core_book p b c : Core := {|
  c_books := <[p := b]> (c_books c); c_spawned := c_spawned c; c_in_flight := c_in_flight c;
  c_sent := c_sent c; c_left := c_left c; c_seeder := c_seeder c; c_rest := c_rest c;
  c_oob := c_oob c
|}.

(** Rewriting one pair's record without touching its seeding flag. *)
Lemma core_inv_put p b b0 c :
  core_inv c -> c_books c !! p = Some b0 -> seeding b = seeding b0 -> pb_inv p b ->
  core_inv (set_core_book p b c).
Proof.
  intros (Hb & (Hz & Hn & Hnd & Hs) & He) Hp Hsd Hi. split_and!; simpl; [|split_and!|done].
  - by apply map_Forall_insert_2.
  - done.
  - done.
  - done.
  - intros q. rewrite Hs. destruct (decide (q = p)) as [->|Hq].
    + rewrite lookup_insert_eq. split; intros (? & ? & ?); simplify_eq; eauto with congruence.
    + by rewrite lookup_insert_ne.
Qed.

Lemma waiting_put ex p b c :
  waiting ex c -> (Some p = ex \/ waits_ok c b) -> waiting ex (set_core_book p b c).
Proof.
  intros Hw Hb q b' Hq Hne. simpl in Hq. destruct (decide (q = p)) as [->|Hqp].
  - rewrite lookup_insert_eq in Hq. simplify_eq. destruct Hb as [<-|Hb]; done.
  - rewrite lookup_insert_ne in Hq by done. by eapply Hw.
Qed.

Lemma waiting_put_all p b c :
  waiting (Some p) c -> waits_ok c b -> waiting None (set_core_book p b c).
Proof.
  intros Hw Hb q b' Hq _. simpl in Hq. destruct (decide (q = p)) as [->|Hqp].
  - rewrite lookup_insert_eq in Hq. by simplify_eq.
  - rewrite lookup_insert_ne in Hq by done. eapply Hw; [done|congruence].
Qed.

Lemma wp_put sd ex p b b0 (Q : unit -> World -> Prop) E w :
  Inv sd ex w -> books (rt w) !! p = Some b0 -> seeding b = seeding b0 -> pb_inv p b ->
  (Some p = ex \/ waits_ok (core w) b) ->
  (forall w', Inv sd ex w' -> books (rt w') !! p = Some b -> Q tt w') ->
  wp (put_book p b) Q E w.
Proof.
  intros (H1 & H2 & H3) Hp Hs Hi Hw HQ. apply wp_modify, HQ.
  - split_and!; [by apply (core_inv_put p b b0 (core w))
                |by apply (waiting_put ex p b (core w))|done].
  - apply lookup_insert_eq.
Qed.

Lemma wp_quiet_inv {A} sd ex (m : M A) (Q : A -> World -> Prop) E w :
  quiet m -> Inv sd ex w ->
  (forall a w', Inv sd ex w' -> books (rt w') = books (rt w) -> Q a w') -> wp m Q E w.
Proof.
  intros Hm Hi HQ. apply wp_quiet; [done|]. intros a w' Hc. apply HQ; [by eapply Inv_core|].
  change (c_books (core w') = c_books (core w)). by rewrite Hc.
Qed.

(** ** Emission *)

Lemma stamped_event_ok ex p ts b :
  pb_inv p b -> crossed (book (pb_book b)) = false ->
  (last_ts b <> 0%N -> ts = last_ts b) -> event_ok (EvBook p ts (stamped_book ex p ts b)).
Proof.
  intros (Hok & _) Hx Hts. unfold stamped_book. simpl.
  pose proof (capture_best 0 ts p ex _ (book_bids_wf _ Hok) (book_asks_wf _ Hok)) as [Hb Ha].
  split_and!; [done..|]. unfold crossed in Hx.
  unfold Orderbook_best_bid, Orderbook_best_ask in *. simpl in *. rewrite Hb, Ha.
  destruct (best_bid _) as [[bid ?]|], (best_ask _) as [[ask ?]|]; simpl; try done.
  by apply dltb_lt, dleb_gt.
Qed.

Lemma wp_emit sd ex p b (Q : unit -> World -> Prop) (E : World -> Prop) w :
  Inv sd ex w -> pb_inv p b -> crossed (book (pb_book b)) = false ->
  (forall w', Inv sd ex w' -> books (rt w') = books (rt w) -> Q tt w') ->
  (forall w', Inv sd ex w' -> E w') ->
  wp (emit_book p b) Q E w.
Proof.
  intros HI Hb Hx HQ HE. unfold emit_book. apply wp_bind.
  assert (wp (book_ts b) (fun ts w' => core w' = core w /\ (last_ts b <> 0%N -> ts = last_ts b)) E w)
    as Hts.
  { unfold book_ts. destruct (0 <? last_ts b)%N eqn:Et; reflect_bools; [by apply wp_ret|].
    split; [done|]. lia. }
  eapply wp_mono; [exact Hts| |done]. clear Hts. intros ts w' [Hc Hts].
  apply wp_bind, wp_gets. pose proof (Inv_core _ _ _ _ Hc HI) as (H1 & H2 & H3).
  assert (books (rt w') = books (rt w)) as Eb.
  { change (c_books (core w') = c_books (core w)). by rewrite Hc. }
  unfold wp, send. set (e := EvBook p ts _).
  assert (event_ok e) as He by by apply stamped_event_ok.
  assert (forall k, Inv sd ex (with_sent (sent w' ++ [e]) k w')) as Hk.
  { intros k. split_and!; [|exact H2|exact H3]. destruct H1 as (? & ? & Hs).
    split_and!; [done..|]. simpl. apply Forall_app. split; [exact Hs|by constructor]. }
  destruct (sends_left w') as [[|k]|].
  - apply HE. by split_and!.
  - apply HQ; [apply Hk|done].
  - apply HQ; [apply Hk|done].
Qed.

(** ** Updates of one pair *)

Lemma pb_inv_phase p b :
  pb_inv p b -> forall sb, book_ok (book sb) -> pair (book sb) = p -> pb_inv p (with_pb_book sb b).
Proof. by intros (H1 & H2 & H3 & H4) sb Hok Hp. Qed.

Lemma pb_inv_apply p b d :
  pb_inv p b -> pb_inv p (with_pb_book (apply d (pb_book b)).1 b).
Proof.
  intros Hi. pose proof Hi as (H1 & H2 & _). apply (pb_inv_phase p b Hi); [by apply apply_book_ok|].
  pose proof (apply_same_config d (pb_book b)) as (_ & _ & Hp & _). congruence.
Qed.

Lemma apply_ok_uncrossed d s s' o : apply d s = (s', Ok o) -> crossed (book s') = false.
Proof. by intros [_ ?]%apply_ok_iff. Qed.

Lemma pb_inv_applied p b d sb o :
  pb_inv p b -> apply d (pb_book b) = (sb, Ok o) ->
  pb_inv p (note_applied d (with_pb_book sb b)).
Proof. intros Hi E. pose proof (pb_inv_apply p b d Hi) as H. by rewrite E in H. Qed.
End Invariant.

(** ** The handlers keep the invariant *)

Section Handlers.
Context {NU : Numeric} {CRC : Crc32} {UU : Uuid} {CL : Clocks} {NL : NumericLaws NU}.
Implicit Types (p : TradingPair) (b : PairBook) (w : World).

Lemma seeds_inv_spawn bs l n p b b' t :
  seeds_inv true bs l n -> bs !! p = Some b -> seeding b = false -> seeding b' = true ->
  task_pair t = p -> seeds_inv true (<[p := b']> bs) (l ++ [t]) (S n).
Proof.
  intros (_ & Hn & Hnd & Hs) Hp Hf Ht <-. assert (task_pair t ∉ map task_pair l) as Hni.
  { rewrite Hs. intros (? & ? & ?). congruence. }
  split_and!; [done|..].
  - rewrite length_app. simpl. lia.
  - rewrite map_app. simpl. apply NoDup_app. split_and!; [done| |by apply NoDup_singleton].
    intros q Hq Hq'. apply list_elem_of_singleton in Hq' as ->. done.
  - intros q. rewrite map_app, elem_of_app, Hs. simpl. rewrite list_elem_of_singleton.
    destruct (decide (q = task_pair t)) as [->|Hq].
    + rewrite lookup_insert_eq. split; [by eauto|intros _; by right].
    + rewrite lookup_insert_ne by done. split; [by intros [?|?]|intros H; by left].
Qed.

Lemma wp_request_reseed sd p delay (Q : unit -> World -> Prop) E w :
  Inv sd (Some p) w ->
  (forall b, books (rt w) !! p = Some b -> is_buffering b = true ->
     seeding b = true \/ (sd = true /\ (reseeds b < MAX_RESEEDS)%N) \/
     (c_oob (core w) = true /\ c_rest (core w) = false)) ->
  (forall w', Inv sd None w' -> Q tt w') ->
  wp (request_reseed p delay) Q E w.
Proof.
  intros (H1 & H2 & H3) Hwait HQ. unfold request_reseed. apply wp_bind, wp_gets. rewrite H3.
  assert ((forall b, books (rt w) !! p = Some b -> waits_ok (core w) b) -> Inv sd None w) as Hsame.
  { intros Hb. split_and!; [done| |done]. intros q b Hq _.
    destruct (decide (q = p)) as [->|]; [by apply Hb|]. eapply H2; [done|congruence]. }
  destruct sd; simpl.
  2: { apply HQ, Hsame. intros b Hb Hbuf. destruct (Hwait b Hb Hbuf) as [?|[[? _]|?]]; [by left|done|by right]. }
  apply wp_bind, wp_gets. destruct (books (rt w) !! p) as [b|] eqn:Hp.
  2: { apply HQ, Hsame. congruence. }
  destruct (negb (seeding b) && (reseeds b <? MAX_RESEEDS)%N) eqn:Hgo.
  - apply andb_true_iff in Hgo as [Hns Hlt]. reflect_bools.
    apply HQ. pose proof H1 as (Hb & Hs & He). split_and!; [split_and!| |done]; simpl.
    + apply map_Forall_insert_2; [|done]. specialize (Hb p b Hp). simpl in Hb.
      destruct Hb as (? & ? & ? & ?). split_and!; simpl; [done|done|lia|done].
    + rewrite H3. change (c_seeder (core w)) with (seeder w) in Hs. rewrite H3 in Hs.
      eapply seeds_inv_spawn; [exact Hs|exact Hp|done..].
    + done.
    + apply (waiting_put_all p _ (core w)); [done|by left].
  - apply HQ, Hsame. intros b' Hb' Hbuf. simplify_eq.
    destruct (Hwait b' eq_refl Hbuf) as [?|[[_ Hlt]|?]]; [by left| |by right].
    left. apply N.ltb_lt in Hlt. rewrite Hlt, andb_true_r in Hgo. by apply negb_false_iff in Hgo.
Qed.

Lemma wp_replay sd p id buf b (Q : PairBook * ReplayEnd -> World -> Prop) E w :
  Inv sd (Some p) w -> books (rt w) !! p = Some b -> pb_inv p b -> phase b = Passthrough ->
  (forall r w', Inv sd (Some p) w' -> books (rt w') !! p = Some r.1 -> pb_inv p r.1 ->
     match r.2 with
     | ReplayClean => phase r.1 = Passthrough
     | ReplayReseed => sd = true /\ (reseeds r.1 < MAX_RESEEDS)%N
     | ReplayResync => True
     end -> Q r w') ->
  (forall w', Inv sd (Some p) w' -> E w') ->
  wp (replay p id sd buf b) Q E w.
Proof.
  intros HI Hp Hb Hph HQ HE. revert b w HI Hp Hb Hph.
  induction buf as [|d buf IH]; intros b w HI Hp Hb Hph; cbn [replay].
  { by apply wp_ret, HQ. }
  destruct (update_id d <=? id)%N; [by apply IH|].
  destruct (apply d (pb_book b)) as [sb [o|e]] eqn:Ea.
  - pose proof (pb_inv_applied _ _ _ _ _ Hb Ea) as Hb'. apply wp_bind.
    eapply wp_put; [exact HI|exact Hp|done|exact Hb'|by left|]. intros w1 H1 Hp1.
    apply wp_bind. eapply wp_emit; [exact H1|exact Hb'|by eapply apply_ok_uncrossed| |done].
    intros w2 H2 E2. apply IH; [done| |done|done]. by rewrite E2.
  - pose proof (pb_inv_apply p b d Hb) as Hb'. rewrite Ea in Hb'. simpl in Hb'.
    apply wp_bind. eapply wp_quiet_inv; [apply quiet_count_gap|exact HI|]. intros _ w1 H1 E1.
    apply wp_bind. eapply wp_quiet_inv; [apply quiet_metric|exact H1|]. intros _ w2 H2 E2.
    rewrite E1 in E2. destruct (sd && _) eqn:Hcan.
    + apply andb_true_iff in Hcan as [-> Hlt]. reflect_bools.
      apply wp_bind. eapply wp_quiet_inv; [apply quiet_instant_now|exact H2|].
      intros now w3 H3 E3. rewrite E2 in E3.
      assert (pb_inv p (with_since (Some now) (with_phase (Buffering (pop_front_to
                (N.to_nat MAX_BUFFERED_DELTAS) (d :: buf))) (with_pb_book sb b)))) as Hb3.
      { destruct Hb' as (? & ? & ? & _). split_and!; [done..|]. cbn [phase with_since with_phase].
        split; [|done]. rewrite length_pop_front_to. lia. }
      apply wp_bind. eapply wp_put; [exact H3|by rewrite E3|done|exact Hb3|by left|].
      intros w4 H4 Hp4. by apply wp_ret, HQ.
    + apply wp_bind. eapply wp_put; [exact H2|by rewrite E2|done|exact Hb'|by left|].
      intros w3 H3 Hp3. apply wp_bind. eapply wp_quiet_inv; [apply quiet_metric|exact H3|].
      intros _ w4 H4 E4. apply wp_ret, HQ; [done|by rewrite E4|done|done].
Qed.

Lemma pb_inv_passthrough p b o t :
  pb_inv p b -> pb_inv p (with_overflowed o (with_since t (with_phase Passthrough b))).
Proof. by intros (? & ? & ? & _). Qed.

Lemma wp_seed_applied sd p snap b b0 (Q : ReplayEnd -> World -> Prop) (E : World -> Prop) w :
  Inv sd (Some p) w -> books (rt w) !! p = Some b0 -> seeding b = seeding b0 ->
  pb_inv p b -> crossed (book (pb_book b)) = false ->
  (forall r w', Inv sd (Some p) w' ->
     (forall b', books (rt w') !! p = Some b' ->
        match r with
        | ReplayClean => phase b' = Passthrough
        | ReplayReseed => sd = true /\ (reseeds b' < MAX_RESEEDS)%N
        | ReplayResync => True
        end) -> Q r w') ->
  (forall w', Inv sd (Some p) w' -> E w') ->
  wp (seed_applied p snap sd b) Q E w.
Proof.
  intros HI Hp Hsd Hb Hx HQ HE. unfold seed_applied. cbv zeta.
  assert (pb_inv p (note_applied snap b)) as Hb1 by exact Hb.
  apply wp_bind. eapply wp_put; [exact HI|exact Hp|exact Hsd|exact Hb1|by left|]. intros w1 H1 Hp1.
  apply wp_bind. eapply wp_emit; [exact H1|exact Hb1|exact Hx| |done]. intros w2 H2 E2.
  pose proof (pb_inv_passthrough p _ false None Hb1) as Hb2.
  apply wp_bind. eapply wp_put; [exact H2|by rewrite E2|done|exact Hb2|by left|]. intros w3 H3 Hp3.
  apply wp_bind. eapply wp_replay; [exact H3|exact Hp3|exact Hb2|done| |done].
  intros [b4 e] w4 H4 Hp4 Hb4 He. simpl in *. destruct e; simpl.
  - apply wp_bind. eapply wp_put; [exact H4|exact Hp4|done| |by left|].
    { destruct Hb4 as (? & ? & ? & ?). split_and!; simpl; [done|done|lia|done]. }
    intros w5 H5 Hp5. apply wp_ret, HQ; [done|]. intros b' Hb'. by simplify_eq.
  - apply wp_ret, HQ; [done|]. intros b' Hb'. by simplify_eq.
  - by apply wp_ret, HQ.
Qed.

Lemma Inv_settle sd p w :
  Inv sd (Some p) w -> (forall b, books (rt w) !! p = Some b -> waits_ok (core w) b) -> Inv sd None w.
Proof.
  intros (H1 & H2 & H3) Hb. split_and!; [done| |done]. intros q b Hq _.
  destruct (decide (q = p)) as [->|]; [by apply Hb|]. eapply H2; [done|congruence].
Qed.

(** [note_resubscribing] and [request_reseed], the budget being there. *)
Lemma wp_reseed sd p (Q : bool -> World -> Prop) E w :
  Inv sd (Some p) w ->
  (forall b, books (rt w) !! p = Some b -> sd = true /\ (reseeds b < MAX_RESEEDS)%N) ->
  (forall w', Inv sd None w' -> Q false w') ->
  wp (note_resubscribing p;; request_reseed p 0%N;; mret false) Q E w.
Proof.
  intros HI Hb HQ. apply wp_bind. eapply wp_quiet_inv; [apply quiet_note_resubscribing|exact HI|].
  intros _ w1 H1 E1. apply wp_bind. eapply wp_request_reseed; [exact H1| |].
  - intros b Hp _. right. left. apply Hb. by rewrite <- E1.
  - intros w2 H2. by apply wp_ret, HQ.
Qed.

(** After a handler: the invariant, and no pair left behind unless the loop ends. *)
Definition handler_post (sd : bool) (resync : bool) w : Prop :=
  if resync then core_inv (core w) else Inv sd None w.

Lemma wp_apply_seed sd p snap w :
  Inv sd (Some p) w ->
  wp (apply_seed p snap) (handler_post sd) (fun w' => core_inv (core w')) w.
Proof.
  intros HI. unfold apply_seed. cbv zeta. set (s := with_symbol _ _).
  apply wp_bind, wp_gets. apply wp_bind, wp_gets.
  replace (seeder w) with sd by (by destruct HI as (_ & _ & ?)).
  destruct (books (rt w) !! p) as [b|] eqn:Hp.
  2: { apply wp_ret. apply (Inv_settle sd p w HI). congruence. }
  assert (pb_inv p b) as Hb by (destruct HI as ((H & _) & _); by apply H).
  destruct (apply s (pb_book b)) as [sb [o|e]] eqn:Ea.
  - apply wp_bind. pose proof (pb_inv_apply p b s Hb) as Hb'. rewrite Ea in Hb'.
    eapply wp_seed_applied; [exact HI|exact Hp|done|exact Hb'|by eapply apply_ok_uncrossed| |].
    2: { intros w' H. apply H. }
    intros r w1 H1 Hr. apply wp_bind. eapply wp_quiet_inv; [apply quiet_note_live|exact H1|].
    intros _ w2 H2 E2. destruct r.
    + apply wp_ret. apply (Inv_settle sd p w2 H2). intros b' Hb2. rewrite E2 in Hb2.
      intros Hbuf. unfold is_buffering in Hbuf. by rewrite (Hr b' Hb2) in Hbuf.
    + eapply wp_reseed; [exact H2| |done]. intros b' Hb2. apply Hr. by rewrite <- E2.
    + apply wp_ret. apply H2.
  - pose proof (pb_inv_apply p b s Hb) as Hb'. rewrite Ea in Hb'. simpl in Hb'.
    apply wp_bind. eapply wp_put; [exact HI|exact Hp|done|exact Hb'|by left|]. intros w1 H1 Hp1.
    apply wp_bind. eapply wp_quiet_inv; [apply quiet_metric|exact H1|]. intros _ w2 H2 E2.
    destruct (sd && _) eqn:Hcan.
    + apply andb_true_iff in Hcan as [-> Hlt]. reflect_bools.
      eapply wp_reseed; [exact H2| |done]. intros b' Hb2. rewrite E2, Hp1 in Hb2.
      simplify_eq. done.
    + apply wp_bind. eapply wp_quiet_inv; [apply quiet_metric|exact H2|]. intros _ w3 H3 E3.
      apply wp_ret. apply H3.
Qed.
End Handlers.

Section Events.
Context {NU : Numeric} {CRC : Crc32} {UU : Uuid} {CL : Clocks} {NL : NumericLaws NU}.
Implicit Types (p : TradingPair) (b : PairBook) (w : World).

Lemma wp_send sd ex e (Q : unit -> World -> Prop) (E : World -> Prop) w :
  Inv sd ex w -> event_ok e ->
  (forall w', Inv sd ex w' -> books (rt w') = books (rt w) -> Q tt w') ->
  (forall w', Inv sd ex w' -> E w') -> wp (send e) Q E w.
Proof.
  intros (H1 & H2 & H3) He HQ HE. unfold wp, send.
  assert (forall k, Inv sd ex (with_sent (sent w ++ [e]) k w)) as Hk.
  { intros k. split_and!; [|exact H2|exact H3]. destruct H1 as (? & ? & Hs).
    split_and!; [done..|]. simpl. apply Forall_app. split; [exact Hs|by constructor]. }
  destruct (sends_left w) as [[|k]|]; [by apply HE|by apply HQ..].
Qed.

Lemma wp_quiet_post sd (m : M bool) E w :
  quiet m -> Inv sd None w -> (forall w', wp m (fun r _ => r = false) (fun _ => True) w') ->
  wp m (handler_post sd) E w.
Proof.
  intros Hm HI Hr. specialize (Hr w). unfold wp in *. specialize (Hm w).
  destruct (m w) as [w' [r|u]]; [|done]. subst r. by eapply Inv_core.
Qed.

Lemma wp_drop_undeclared sd dt E w :
  Inv sd None w -> wp (drop_undeclared dt) (handler_post sd) E w.
Proof. intros HI. by apply wp_quiet_post; [apply quiet_drop_undeclared| |]. Qed.

Lemma pb_inv_push p b d buf :
  pb_inv p b -> phase b = Buffering buf -> pb_inv p (push_buffered d buf b).
Proof.
  intros (H1 & H2 & H3 & H4) Hph. rewrite Hph in H4. destruct H4 as [Hlen Hs].
  unfold push_buffered. case_match eqn:E; reflect_bools.
  - split_and!; [done..|]. cbn [phase with_phase]. split; [|done].
    rewrite length_app. destruct buf as [|x buf]; simpl in *; unfold MAX_BUFFERED_DELTAS in *; lia.
  - split_and!; [done..|]. cbn [phase with_phase]. split; [|done].
    rewrite length_app. simpl. lia.
Qed.

Lemma push_buffered_seeding d buf b :
  seeding (push_buffered d buf b) = seeding b /\ is_buffering (push_buffered d buf b) = true.
Proof. unfold push_buffered. by case_match. Qed.

Lemma wp_apply_passthrough sd p d b w :
  Inv sd None w -> books (rt w) !! p = Some b -> phase b = Passthrough ->
  wp (apply_passthrough p d b) (handler_post sd) (fun w' => core_inv (core w')) w.
Proof.
  intros HI Hp Hph. unfold apply_passthrough. apply wp_bind, wp_gets.
  replace (seeder w) with sd by (by destruct HI as (_ & _ & ?)).
  assert (pb_inv p b) as Hb by (destruct HI as ((H & _) & _); by apply H).
  pose proof (pb_inv_apply p b d Hb) as Hb'.
  destruct (apply d (pb_book b)) as [sb [o|e]] eqn:Ea; simpl in Hb'.
  - apply wp_bind. eapply wp_put; [exact HI|exact Hp|done|exact Hb'| |].
    { right. intros Hbuf. unfold is_buffering in Hbuf. simpl in Hbuf. by rewrite Hph in Hbuf. }
    intros w1 H1 Hp1. apply wp_bind.
    eapply wp_emit; [exact H1|exact Hb'|by eapply apply_ok_uncrossed| |].
    2: { intros w' H. apply H. }
    intros w2 H2 E2. apply wp_bind. eapply wp_quiet_inv; [apply quiet_note_live|exact H2|].
    intros _ w3 H3 E3. by apply wp_ret.
  - apply wp_bind. eapply wp_quiet_inv; [apply quiet_count_gap|exact HI|]. intros _ w1 H1 E1.
    apply wp_bind. eapply wp_quiet_inv; [apply quiet_metric|exact H1|]. intros _ w2 H2 E2.
    rewrite E1 in E2. destruct (sd && _) eqn:Hcan.
    + apply andb_true_iff in Hcan as [-> Hlt]. reflect_bools.
      apply wp_bind. eapply wp_quiet_inv; [apply quiet_instant_now|exact H2|].
      intros now w3 H3 E3. rewrite E2 in E3. apply wp_bind.
      eapply (wp_put true (Some p)); [by apply Inv_weaken|by rewrite E3|done| |by left|].
      { destruct Hb' as (? & ? & ? & _). split_and!; [done..|].
        cbn [phase with_since with_phase buffering_since]. split; [|done].
        unfold MAX_BUFFERED_DELTAS. simpl. lia. }
      intros w4 H4 Hp4. eapply wp_reseed; [exact H4| |done].
      intros b' Hb4. rewrite Hp4 in Hb4. by simplify_eq.
    + apply wp_bind. eapply wp_put; [exact H2|by rewrite E2|done|exact Hb'| |].
      { right. intros Hbuf. unfold is_buffering in Hbuf. simpl in Hbuf. by rewrite Hph in Hbuf. }
      intros w3 H3 Hp3. apply wp_ret. apply H3.
Qed.

Lemma wp_handle_book sd d w :
  Inv sd None w -> wp (handle_book d) (handler_post sd) (fun w' => core_inv (core w')) w.
Proof.
  intros HI. unfold handle_book. apply wp_bind, wp_gets.
  destruct (declared_contains _ _); simpl; [|by apply wp_drop_undeclared].
  destruct (decode _ _) as [p|]; [|by apply wp_ret].
  destruct (books (rt w) !! p) as [b|] eqn:Hp; [|by apply wp_ret].
  cbv zeta. destruct (_ && is_buffering b); [by apply wp_apply_seed, Inv_weaken|].
  destruct (phase b) as [buf|] eqn:Hph; [|by apply wp_apply_passthrough].
  assert (pb_inv p b) as Hb by (destruct HI as ((H & _) & _); by apply H).
  apply wp_bind. eapply wp_put; [exact HI|exact Hp|by apply push_buffered_seeding
    |by apply pb_inv_push| |].
  - right. intros _. destruct HI as (_ & Hw & _).
    destruct (Hw p b Hp) as [Hs|?]; [done|by unfold is_buffering; rewrite Hph| |by right].
    left. etrans; [apply push_buffered_seeding|done].
  - intros w1 H1 _. by apply wp_ret.
Qed.

Lemma seeds_inv_fmap sd bs l n (f : PairBook -> PairBook) :
  (forall b, seeding (f b) = seeding b) -> seeds_inv sd bs l n -> seeds_inv sd (f <$> bs) l n.
Proof.
  intros Hf (Hz & Hn & Hnd & Hs). split_and!; [done..|]. intros p. rewrite Hs, lookup_fmap.
  destruct (bs !! p) as [b|]; simpl; split; intros (b' & Hb & ?); simplify_eq.
  - eexists. split; [done|]. by rewrite Hf.
  - eexists. split; [done|]. by rewrite <- Hf.
Qed.

Lemma wp_handle_connection_gap sd n E w :
  Inv sd None w -> wp (handle_connection_gap n) (handler_post sd) E w.
Proof.
  intros ((Hb & Hs & He) & _). unfold handle_connection_gap.
  do 3 (apply wp_bind, wp_modify). apply wp_bind, wp_modify, wp_ret. simpl.
  split_and!; [|by apply seeds_inv_fmap|done]. simpl.
  intros p b' Hp. rewrite lookup_fmap in Hp. destruct (books (rt w) !! p) as [b|] eqn:E'; [|done].
  simplify_eq/=. destruct (Hb p b E') as (_ & ? & ? & _).
  split_and!; simpl; [|done..]. split; constructor.
Qed.

Lemma wp_handle_trade sd t sq w :
  Inv sd None w -> wp (handle_trade t sq) (handler_post sd) (fun w' => core_inv (core w')) w.
Proof.
  intros HI. unfold handle_trade. apply wp_bind, wp_gets.
  destruct (declared_contains _ _); simpl; [|by apply wp_drop_undeclared].
  destruct (books (rt w) !! trade_pair t) as [b|] eqn:Hp; [|by apply wp_ret].
  assert (pb_inv (trade_pair t) b) as Hb by (destruct HI as ((H & _) & _); by apply H).
  assert (waits_ok (core w) b) as Hwb by (destruct HI as (_ & Hw & _); by eapply Hw).
  apply wp_bind. eapply wp_quiet_inv; [apply quiet_when, quiet_metric|exact HI|]. intros _ w1 H1 E1.
  destruct (tb_apply sq (pb_trades b)) as [tb outcome]. apply wp_bind.
  eapply wp_put; [exact H1|by rewrite E1|done|exact Hb| |].
  { right. destruct H1 as (_ & Hw & _). intros Hbuf. eapply (Hw (trade_pair t) b); [|done|exact Hbuf].
    change (books (rt w1) !! trade_pair t = Some b). by rewrite E1. }
  intros w2 H2 _. apply wp_bind.
  eapply wp_quiet_inv; [|exact H2|].
  { destruct outcome; [apply quiet_ret|apply quiet_ret|].
    apply quiet_bind; [apply quiet_metric|intros _; apply quiet_metric]. }
  intros _ w3 H3 _. apply wp_bind.
  eapply wp_quiet_inv; [apply quiet_persist_carry|exact H3|]. intros _ w4 H4 _.
  apply wp_bind. eapply wp_send; [exact H4|done| |by intros w' H; apply H]. intros w5 H5 _.
  apply wp_bind. eapply wp_quiet_inv; [apply quiet_note_live|exact H5|]. intros _ w6 H6 _.
  by apply wp_ret.
Qed.

Lemma wp_handle_event sd ev w :
  Inv sd None w -> wp (handle_event ev) (handler_post sd) (fun w' => core_inv (core w')) w.
Proof.
  intros HI. destruct ev as [d|t sq|n|fr|oi|fs]; simpl;
    [by apply wp_handle_book|by apply wp_handle_trade|by apply wp_handle_connection_gap| | |];
    [unfold handle_funding_rate|unfold handle_open_interest|unfold handle_settlement];
    (apply wp_bind, wp_gets; destruct (declared_contains _ _); cbn [negb];
      [|first [by apply wp_drop_undeclared
              |by apply wp_quiet_post; [apply quiet_bind; [apply quiet_metric|intros _; apply quiet_ret]| |]]];
      apply wp_bind; eapply wp_send; [exact HI|done| |by intros w' H; apply H]; intros w1 H1 _).
  - apply wp_bind. eapply wp_quiet_inv; [apply quiet_note_live|exact H1|]. intros _ w2 H2 _.
    by apply wp_ret.
  - apply wp_bind. eapply wp_quiet_inv; [apply quiet_note_live|exact H1|]. intros _ w2 H2 _.
    by apply wp_ret.
  - by apply wp_ret.
Qed.
End Events.

(** ** The invariant of the loop, from its start *)

Section Loop.
Context {NU : Numeric} {CRC : Crc32} {UU : Uuid} {CL : Clocks} {NL : NumericLaws NU}.
Implicit Types (p : TradingPair) (b : PairBook) (w : World) (s : LoopState).

Lemma remove_task_pairs p l :
  NoDup (map task_pair l) ->
  NoDup (map task_pair (remove_task p l)) /\
  (forall q, q ∈ map task_pair (remove_task p l) <-> q ∈ map task_pair l /\ q <> p) /\
  (p ∈ map task_pair l -> S (length (remove_task p l)) = length l).
Proof.
  induction l as [|t l IH]; simpl; intros Hnd.
  { split_and!; [constructor| |by intros ?%not_elem_of_nil].
    intros q. split; [by intros ?%not_elem_of_nil|by intros [?%not_elem_of_nil _]]. }
  apply NoDup_cons in Hnd as [Hni Hnd]. destruct (IH Hnd) as (H1 & H2 & H3).
  case_bool_decide as Ht; simpl.
  - subst p. split_and!; [done| |done]. intros q. rewrite elem_of_cons. split.
    + intros Hq. split; [by right|]. by intros ->.
    + by intros [[->|Hq] Hne].
  - split_and!.
    + apply NoDup_cons. split; [|done]. by rewrite H2; intros [? _].
    + intros q. rewrite !elem_of_cons, H2. split; [intros [->|[? ?]]|intros [[->|?] ?]]; auto.
    + rewrite elem_of_cons. intros [->|Hp]; [done|]. by rewrite <- H3.
Qed.

Lemma seeds_inv_done sd bs l n p :
  seeds_inv sd bs l n -> p ∈ map task_pair l ->
  seeds_inv sd (alter (with_seeding false) p bs) (remove_task p l) (n - 1).
Proof.
  intros (Hz & Hn & Hnd & Hs) Hp. destruct (remove_task_pairs p l Hnd) as (H1 & H2 & H3).
  specialize (H3 Hp). split_and!; [|lia|done|].
  { intros Hsd. by rewrite (Hz Hsd) in Hp; apply not_elem_of_nil in Hp. }
  intros q. rewrite H2, Hs.
  destruct (decide (q = p)) as [->|Hq].
  - rewrite lookup_alter_eq. split; [by intros [_ ?]|].
    intros (b & Hb & Ht). apply Hs in Hp as (b0 & Hb0 & _). by rewrite Hb0 in Hb; simplify_eq/=.
  - rewrite lookup_alter_ne by done. split; [by intros [? _]|by intros ?].
Qed.

Lemma wp_on_seed sd task pre fetched w :
  Inv sd None w -> task ∈ spawned w ->
  wp (modify (fun w => with_seeds (in_flight w) (remove_task (task_pair task) (spawned w)) w);;
      on_seed (task_pair task) (seed_result pre fetched))
     (handler_post sd) (fun w' => core_inv (core w')) w.
Proof.
  intros ((Hb & Hs & He) & Hw & Hsd) Ht. set (p := task_pair task).
  unfold on_seed. do 3 (apply wp_bind, wp_modify).
  set (w1 := with_rt _ _).
  assert (Inv sd (Some p) w1) as H1.
  { split_and!; [split_and!| |done]; simpl.
    - intros q b Hq. destruct (decide (q = p)) as [->|Hne].
      + rewrite lookup_alter_eq in Hq. destruct (books (rt w) !! p) as [b0|] eqn:E0; [|done].
        simplify_eq/=. by apply (Hb p b0).
      + rewrite lookup_alter_ne in Hq by done. by apply (Hb q b).
    - apply seeds_inv_done; [done|]. by apply list_elem_of_fmap_2.
    - done.
    - intros q b Hq Hne. simpl in Hq. rewrite lookup_alter_ne in Hq by congruence. by eapply Hw. }
  destruct fetched as [snap|err]; simpl; [by apply wp_apply_seed|].
  apply wp_bind. eapply wp_quiet_inv; [apply quiet_metric|exact H1|]. intros _ w2 H2 E2.
  apply wp_bind, wp_gets. cbv zeta. case_match eqn:Hlt; reflect_bools.
  - apply wp_bind. eapply wp_request_reseed; [exact H2| |].
    + intros b Hp Hbuf. rewrite Hp in Hlt. right; left. split; [|done].
      destruct sd; [done|]. destruct Hs as (Hz & _). specialize (Hz Hsd). simpl in Hz.
      rewrite Hz in Ht. by apply not_elem_of_nil in Ht.
    + intros w3 H3. by apply wp_ret.
  - apply wp_bind. eapply wp_quiet_inv; [apply quiet_metric|exact H2|]. intros _ w3 H3 _.
    apply wp_ret. apply H3.
Qed.

(** *** Iterations *)

Definition loop_inv (sd : bool) s : Prop := Inv sd None (world s).

Lemma break_if_post sd (m : M bool) w :
  wp m (handler_post sd) (fun w' => core_inv (core w')) w ->
  match break_if m w with
  | (w', Continue) => Inv sd None w'
  | (w', _) => core_inv (core w')
  end.
Proof.
  unfold wp, break_if. destruct (m w) as [w' [[|]|u]]; simpl; auto.
Qed.

Lemma select_arm_inv sd i s :
  loop_inv sd s -> select_enabled i s ->
  match select_arm i s with
  | (s', Continue) => loop_inv sd s'
  | (s', _) => core_inv (core (world s'))
  end.
Proof.
  intros HI Hen. unfold loop_inv in *.
  assert (forall m, wp m (handler_post sd) (fun w' => core_inv (core w')) (world s) ->
            match (let '(w, e) := break_if m (world s) in
                   ({| world := w; events_done := events_done s |}, e)) with
            | (s', Continue) => Inv sd None (world s')
            | (s', _) => core_inv (core (world s'))
            end) as Hon.
  { intros m Hm. apply break_if_post in Hm. by destruct (break_if m (world s)) as [w' []]. }
  destruct i as [flag| | |ev| |task pre fetched|]; simpl in *.
  - destruct flag; [apply HI|done].
  - apply Hon, wp_bind. eapply wp_quiet_inv; [apply quiet_sweep|exact HI|]. intros _ w' H' _.
    by apply wp_ret.
  - done.
  - by apply Hon, wp_handle_event.
  - done.
  - by apply Hon, wp_on_seed.
  - apply Hon. unfold in_band_seed_expired. apply wp_bind, wp_gets, wp_bind.
    eapply wp_quiet_inv; [apply quiet_scan|exact HI|]. intros e w1 H1 _.
    apply wp_bind. eapply wp_quiet_inv; [apply quiet_when, quiet_metric|exact H1|].
    intros _ w2 H2 _. apply wp_ret. destruct e; [apply H2|done].
Qed.

Lemma loop_step_inv sd s s' : loop_inv sd s -> loop_step s s' -> loop_inv sd s'.
Proof.
  intros HI Hst. destruct Hst as [i s1 s2 _ Hen Harm]. pose proof (select_arm_inv sd i s1 HI Hen) as H.
  by rewrite Harm in H.
Qed.

Lemma loop_reach_inv sd s s' : loop_inv sd s -> rtc loop_step s s' -> loop_inv sd s'.
Proof. intros HI. induction 1; eauto using loop_step_inv. Qed.

(** *** The start *)

(** A runtime before its run: nothing seeds, a pair buffers only where the venue seeds
    out of band. *)
Definition ready (x : SourceRuntime) : Prop :=
  (rt_needs_rest x = true -> rt_seeds_out_of_band x = true) /\
  forall p b, books x !! p = Some b ->
    pb_inv p b /\ seeding b = false /\ (is_buffering b = true -> rt_seeds_out_of_band x = true).

Lemma pb_inv_new p wr m r oob now : pb_inv p (PairBook_new p wr m r oob now).
Proof.
  split_and!; simpl.
  - destruct m as [| |[]|]; apply with_max_depth_ok || apply OrderbookDelta_new_ok.
  - by destruct m as [| |[]|].
  - done.
  - destruct oob; simpl; [|done]. split; [done|by eexists].
Qed.

Lemma SourceRuntime_new_ready ex c ws m r mx ds now :
  ready (SourceRuntime_new ex c ws m r mx ds now).
Proof.
  split; simpl.
  - unfold needs_rest, seeds_out_of_band. case_bool_decide as E; [by rewrite E|done].
  - unfold new_books. set (oob := (_ && _)). set (l := imap _ _).
    assert (forall bs : gmap TradingPair PairBook,
      (forall p b, bs !! p = Some b -> pb_inv p b /\ seeding b = false /\
         (is_buffering b = true -> oob = true)) ->
      forall p b, fold_left (fun bs kw => match decode c kw.2 with
                  | None => bs
                  | Some p => <[p := PairBook_new p kw.2 m r oob (now kw.1)]> bs end) l bs !! p
                = Some b -> pb_inv p b /\ seeding b = false /\ (is_buffering b = true -> oob = true))
      as H.
    { induction l as [|kw l IH]; intros bs Hbs; simpl; [done|]. apply IH.
      destruct (decode c kw.2) as [q|]; [|done]. intros p b.
      destruct (decide (p = q)) as [->|Hne];
        [rewrite lookup_insert_eq|rewrite lookup_insert_ne by done; apply Hbs].
      intros [= <-]. split_and!; [apply pb_inv_new|done|]. by destruct oob. }
    apply H. intros p b. by rewrite lookup_empty.
Qed.

Lemma pb_inv_arm p b depth :
  pb_inv p b -> pb_inv p (with_pb_book (arm_config_depth depth (pb_book b)) b).
Proof.
  intros Hi. pose proof Hi as (H1 & H2 & _). apply (pb_inv_phase p b Hi); unfold arm_config_depth.
  - destruct H1 as [? ? ? ?]. destruct (model _); by split.
  - by destruct (model _).
Qed.

Lemma builders_ready x depth carry fs cadences :
  ready x ->
  ready (runtime_with_max_depth depth x) /\ ready (with_trade_seq_carry carry x) /\
  ready (with_feeds fs x) /\ ready (with_datatype_cadence cadences x).
Proof.
  intros [Hr Hb]. split_and!; [..|by split|by split]; split; try done; simpl; intros p b.
  - rewrite lookup_fmap. destruct (books x !! p) as [b0|] eqn:E; [|done]. intros [= <-].
    destruct (Hb p b0 E) as (H1 & H2 & H3). split_and!; [by apply pb_inv_arm|done|done].
  - rewrite map_lookup_imap. destruct (books x !! p) as [b0|] eqn:E; [|done]. intros [= <-].
    by apply (Hb p b0 E).
Qed.

Lemma wp_start_seeds l w :
  core_inv (core w) -> seeder w = true -> NoDup (map fst l) ->
  (forall p, p ∈ map fst l -> exists b, books (rt w) !! p = Some b /\ seeding b = false) ->
  (forall p b, books (rt w) !! p = Some b -> p ∉ map fst l -> waits_ok (core w) b) ->
  wp (start_seeds l) (fun _ => Inv true None) (fun _ => False) w.
Proof.
  revert w. induction l as [|[p wr] l IH]; intros w H1 Hsd Hnd Hl Hrest; cbn [start_seeds].
  { apply wp_ret. split_and!; [done| |done]. intros p b Hp _. apply (Hrest p b Hp).
    by apply not_elem_of_nil. }
  apply NoDup_cons in Hnd as [Hni Hnd]. simpl in Hni.
  destruct (Hl p) as (b & Hp & Hs); [by left|].
  apply wp_bind. unfold start_seed. do 2 apply wp_bind, wp_modify. apply wp_modify.
  apply IH; simpl; [|done|done| |].
  - destruct H1 as (Hb & Hseeds & He). simpl in *. split_and!; simpl; [..|done].
    + intros q b' Hq. destruct (decide (q = p)) as [->|Hne].
      * rewrite lookup_alter_eq, Hp in Hq. simplify_eq/=. by apply (Hb p b).
      * rewrite lookup_alter_ne in Hq by done. by apply Hb.
    + rewrite Hsd in *.
      replace (alter (with_seeding true) p (books (rt w)))
        with (<[p := with_seeding true b]> (books (rt w))).
      { by eapply seeds_inv_spawn. }
      apply map_eq. intros q. destruct (decide (q = p)) as [->|Hne].
      * by rewrite lookup_insert_eq, lookup_alter_eq, Hp.
      * by rewrite lookup_insert_ne, lookup_alter_ne.
  - intros q Hq. rewrite lookup_alter_ne by (intros <-; done). apply Hl. by right.
  - intros q b' Hq Hnin. destruct (decide (q = p)) as [->|Hne].
    + rewrite lookup_alter_eq, Hp in Hq. simplify_eq/=. intros _. by left.
    + rewrite lookup_alter_ne in Hq by done. apply (Hrest q b' Hq).
      simpl. rewrite elem_of_cons. by intros [?|?].
Qed.

Lemma loop_start_inv x sd k : ready x -> loop_inv sd (loop_start x sd k).
Proof.
  intros [Hr Hb]. unfold loop_inv, loop_start, run_start, start. simpl.
  set (w := {| rt := x |}).
  assert (core_inv (core w)) as Hc.
  { split_and!; simpl; [| |constructor].
    - intros p b Hp. by apply Hb.
    - split_and!; [done..|constructor|]. intros p. split; [by intros ?%not_elem_of_nil|].
      intros (b & Hp & Ht). destruct (Hb p b Hp) as (_ & Hf & _). congruence. }
  assert (rt_needs_rest x = false -> Inv sd None w) as Hsock.
  { intros Hn. split_and!; [done| |done]. intros p b Hp _ Hbuf. right.
    split; [by eapply Hb|done]. }
  unfold mbind at 1, M_bind. simpl. unfold mbind at 1, M_bind. simpl.
  destruct (rt_needs_rest x) eqn:Hn; [|by apply Hsock].
  destruct sd; simpl.
  - pose proof (wp_start_seeds (map (fun pb : TradingPair * PairBook => (pb.1, wire pb.2))
      (map_to_list (books x))) w Hc eq_refl) as H.
    assert (map fst (map (fun pb : TradingPair * PairBook => (pb.1, wire pb.2))
              (map_to_list (books x))) = map fst (map_to_list (books x))) as Em.
    { rewrite map_map. by apply map_ext. }
    rewrite Em in H.
    enough (wp (start_seeds (map (fun pb : TradingPair * PairBook => (pb.1, wire pb.2))
              (map_to_list (books x)))) (fun _ => Inv true None) (fun _ => False) w) as Hw.
    { unfold wp in Hw. by destruct (start_seeds _ w) as [w' [u|u]]. }
    apply H.
    + apply NoDup_fst_map_to_list.
    + intros p Hp. apply list_elem_of_fmap in Hp as ([q b] & -> & Hq).
      apply elem_of_map_to_list in Hq. exists b. split; [done|by eapply Hb].
    + intros p b Hp []. apply list_elem_of_fmap. exists (p, b).
      split; [done|by apply elem_of_map_to_list].
  - split_and!; [split_and!| |done]; simpl.
    + intros p b' Hp. rewrite lookup_fmap in Hp. destruct (books x !! p) as [b|] eqn:E; [|done].
      simplify_eq/=. destruct (Hb p b E) as ((? & ? & ? & _) & _). by split_and!.
    + apply seeds_inv_fmap; [done|]. apply Hc.
    + constructor.
    + intros p b' Hp _ Hbuf. simpl in Hp. rewrite lookup_fmap in Hp.
      destruct (books x !! p) as [b|]; [|done]. by simplify_eq/=.
Qed.
End Loop.
