(* ===== verification/RuntimeSpec.v ===== *)
(** * What the reconstruction runtime guarantees

    Safety of the loop (no book is left waiting without a fetch, bounds, emitted
    books), reconciliation of a seed with the buffered deltas, termination of the
    drain, and the treatment of the other events.  The invariants are those of
    [RuntimeProps]. *)

From Stdlib Require Import Ascii String.
From stdpp Require Import gmap strings relations.
From S2P Require Import Prelude Budget BTree Strings Numeric Pairs Types Delta Checksum Book BookProps Model ModelProps Feed Runtime RuntimeProps.
Local Open Scope nat_scope.
#[local] Opaque MAX_BUFFERED_DELTAS.

(** ** Safety *)

Section Safety.
Context {NU : Numeric} {CRC : Crc32} {UU : Uuid} {CL : Clocks} {NL : NumericLaws NU}.
Implicit Types (p : TradingPair) (b : PairBook) (w : World) (s : LoopState).

(** Where keys are distinct, the elements of one key are that element alone. *)
Lemma filter_key_unique {A K} `{EqDecision K} (key : A -> K) (l : list A) x :
  NoDup (map key l) -> x ∈ l -> filter (fun y => key y = key x) l = [x].
Proof.
  induction l as [|y l IH]; simpl; [by intros _ ?%not_elem_of_nil|].
  intros [Hy Hnd]%NoDup_cons [->|Hx]%elem_of_cons.
  - rewrite filter_cons_True by done. f_equal. apply elem_of_nil_inv. intros z [E Hz]%list_elem_of_filter.
    apply Hy. rewrite <- E. by apply list_elem_of_fmap_2.
  - rewrite filter_cons_False; [by apply IH|].
    intros E. apply Hy. rewrite E. by apply list_elem_of_fmap_2.
Qed.

(** C3: A book is never stranded.  At every point of every run, a pair that buffers
    its deltas has exactly one seed fetch in flight: of the spawned fetches, those for
    the pair are one.  The only exception is a venue that seeds on the socket, where
    the deadline arm of the loop is armed and the pair's waiting clock runs. *)
Theorem runtime_never_strands x sd k s p b :
  ready x -> rtc loop_step (loop_start x sd k) s ->
  books (rt (world s)) !! p = Some b -> is_buffering b = true ->
  (exists t, filter (fun t => task_pair t = p) (spawned (world s)) = [t]) \/
  (awaits_in_band_seed (rt (world s)) = true /\ is_Some (buffering_since b)).
Proof.
  intros Hx Hs Hp Hbuf.
  pose proof (loop_reach_inv sd _ _ (loop_start_inv x sd k Hx) Hs) as ((Hb & Hsd & _) & Hw & _).
  destruct (Hw p b Hp) as [Hseed|[Ho Hr]]; [done|done| |].
  - left. destruct Hsd as (_ & _ & Hnd & Hin).
    assert (p ∈ map task_pair (c_spawned (core (world s)))) as Hin' by (apply Hin; eauto).
    apply list_elem_of_fmap in Hin' as (t & -> & Ht). exists t. by apply filter_key_unique.
  - right. unfold awaits_in_band_seed. simpl in Ho, Hr. rewrite Ho, Hr. split; [done|].
    destruct (Hb p b Hp) as (_ & _ & _ & H). unfold is_buffering in Hbuf.
    destruct (phase b); [apply H|done].
Qed.

(** C38: Bounds of a run: at every point the count of fetches in flight is the number of
    fetches, they are for distinct pairs (so at most one per book), no pair has used
    more than 8 re-seeds since its last clean reconcile, and no buffer holds more than
    100000 deltas. *)
Theorem runtime_bounds x sd k s :
  ready x -> rtc loop_step (loop_start x sd k) s ->
  in_flight (world s) = length (spawned (world s)) /\
  NoDup (map task_pair (spawned (world s))) /\
  in_flight (world s) <= size (books (rt (world s))) /\
  forall p b, books (rt (world s)) !! p = Some b ->
    (reseeds b <= 8)%N /\
    match phase b with Buffering buf => (N.of_nat (length buf) <= 100000)%N | Passthrough => True end.
Proof.
  intros Hx Hs.
  pose proof (loop_reach_inv sd _ _ (loop_start_inv x sd k Hx) Hs) as ((Hb & Hsd & _) & _ & _).
  destruct Hsd as (_ & Hn & Hnd & Hin). simpl in *. split_and!; [done|done| |].
  - rewrite Hn, <- (length_map task_pair), <- (size_dom (D:=gset TradingPair)).
    rewrite <- (size_list_to_set (C:=gset TradingPair) _ Hnd).
    apply subseteq_size. intros p Hp%elem_of_list_to_set. apply elem_of_dom.
    apply Hin in Hp as (b & -> & _). by eexists.
  - intros p b Hp. destruct (Hb p b Hp) as (_ & _ & Hr & Hph). split; [exact Hr|].
    destruct (phase b); [|done]. apply Hph.
Qed.

(** What leaves the runtime is consistent: whatever is selected next, every book
    emitted so far is a book of its pair, its bids are below its asks, and it is
    stamped with the exchange event time it reports unless that is unknown. *)
Theorem runtime_output_consistent x sd k s i s' e :
  ready x -> rtc loop_step (loop_start x sd k) s -> select_enabled i s ->
  select_arm i s = (s', e) -> Forall event_ok (sent (world s')).
Proof.
  intros Hx Hs Hen Harm.
  pose proof (loop_reach_inv sd _ _ (loop_start_inv x sd k Hx) Hs) as HI.
  pose proof (select_arm_inv sd i s HI Hen) as H. rewrite Harm in H. destruct e; apply H.
Qed.

Lemma scan_expired bs e w t b :
  b ∈ bs -> is_buffering b = true -> buffering_since b = Some t ->
  (forall k, reads w <= k -> (t + IN_BAND_SEED_DEADLINE < instant_at k)%N) ->
  wp (scan_seed_deadlines bs e) (fun r _ => r = true) (fun _ => False) w.
Proof.
  assert (forall bs w, wp (scan_seed_deadlines bs true) (fun r _ => r = true) (fun _ => False) w)
    as Htrue.
  { clear. induction bs as [|b bs IH]; intros w; simpl; [done|].
    destruct (buffering_since b); [|apply IH]. destruct (is_buffering b); [|apply IH].
    apply wp_bind. simpl. apply IH. }
  revert e w. induction bs as [|b' bs IH]; intros e w Hin Hbuf Hsince Hk;
    [by apply not_elem_of_nil in Hin|].
  cbn [scan_seed_deadlines]. apply elem_of_cons in Hin as [<-|Hin].
  - rewrite Hsince, Hbuf. apply wp_bind. unfold wp at 1, instant_now. simpl.
    assert ((IN_BAND_SEED_DEADLINE <? instant_at (reads w) - t)%N = true) as ->.
    { apply N.ltb_lt. specialize (Hk (reads w)). lia. }
    rewrite orb_true_r. apply Htrue.
  - destruct (buffering_since b'); [|by apply IH]. destruct (is_buffering b'); [|by apply IH].
    apply wp_bind. unfold wp at 1, instant_now. simpl. apply IH; [done..|]. simpl. intros k Hr.
    apply Hk. lia.
Qed.

(** A venue that never sends its snapshot on the socket does not hang the source:
    once a pair has been buffering for more than ten seconds by the monotonic clock,
    the deadline arm ends the loop with a request to reconnect, and it is counted. *)
Theorem in_band_deadline_breaks s p b t :
  books (rt (world s)) !! p = Some b -> is_buffering b = true -> buffering_since b = Some t ->
  (forall k, reads (world s) <= k -> (t + IN_BAND_SEED_DEADLINE < instant_at k)%N) ->
  exists s', select_arm InDeadline s = (s', Break true) /\
    metrics (rt (world s')) C_resyncs = u64_add (metrics (rt (world s)) C_resyncs) 1.
Proof.
  intros Hp Hbuf Hsince Hk. simpl. unfold in_band_seed_expired, break_if.
  set (bs := map snd (map_to_list (books (rt (world s))))).
  assert (b ∈ bs) as Hin.
  { apply list_elem_of_fmap. exists (p, b). split; [done|by apply elem_of_map_to_list]. }
  pose proof (scan_expired bs false (world s) t b Hin Hbuf Hsince Hk) as Hscan.
  assert (forall bs e w, match scan_seed_deadlines bs e w with (w', _) => rt w' = rt w end) as Hrt.
  { clear. induction bs as [|b bs IH]; intros e w; simpl; [done|].
    destruct (buffering_since b); [|apply IH]. destruct (is_buffering b); [|apply IH].
    exact (IH _ (with_reads (S (reads w)) w)). }
  specialize (Hrt bs false (world s)). unfold mbind, M_bind, gets. fold bs.
  unfold wp in Hscan. destruct (scan_seed_deadlines bs false (world s)) as [w' [r|u]]; [|done].
  subst r. simpl. eexists. split; [done|]. simpl. rewrite Hrt. unfold bump_resyncs, fetch_add.
  by rewrite decide_True.
Qed.
End Safety.

(** ** Reconciling a seed with the buffer *)

Section Reconcile.
Context {NU : Numeric} {CRC : Crc32} {UU : Uuid} {CL : Clocks} {NL : NumericLaws NU}.
Implicit Types (p : TradingPair) (b : PairBook) (w : World).

Lemma bind_ok {A B} (m : M A) (k : A -> M B) w w' a :
  m w = (w', Ok a) -> (m ≫= k) w = k a w'.
Proof. intros E. unfold mbind, M_bind. by rewrite E. Qed.

(** The effect of a handler on one pair, the receiver being open: its new record and
    the events it sent. *)
Record Eff p w w' b' (evs : list ReconstructedEvent) : Prop := {
  eff_books : books (rt w') = <[p := b']> (books (rt w));
  eff_sent : sent w' = sent w ++ evs;
  eff_left : sends_left w' = None;
  eff_spawned : spawned w' = spawned w;
  eff_flight : in_flight w' = in_flight w;
  eff_seeder : seeder w' = seeder w
}.

Lemma Eff_trans p w w1 w2 b1 b2 e1 e2 :
  Eff p w w1 b1 e1 -> Eff p w1 w2 b2 e2 -> Eff p w w2 b2 (e1 ++ e2).
Proof.
  intros [A1 A2 A3 A4 A5 A6] [B1 B2 B3 B4 B5 B6].
  split; try congruence; [by rewrite B1, A1, insert_insert_eq|by rewrite B2, A2, app_assoc].
Qed.

Lemma Eff_lookup p w w' b' evs : Eff p w w' b' evs -> books (rt w') !! p = Some b'.
Proof. intros []. rewrite eff_books0. apply lookup_insert_eq. Qed.

Lemma Eff_core p w w' b :
  core w' = core w -> books (rt w) !! p = Some b -> sends_left w = None -> Eff p w w' b [].
Proof.
  intros E Hp Hl. unfold core in E. injection E as E1 E2 E3 E4 E5 E6 _ _.
  split; try congruence; [by rewrite insert_id|by rewrite app_nil_r].
Qed.

Lemma put_eff p b w :
  sends_left w = None -> exists w', put_book p b w = (w', Ok tt) /\ Eff p w w' b [].
Proof. intros Hl. eexists. split; [done|]. split; try done. simpl. by rewrite app_nil_r. Qed.

Lemma quiet_eff {A} p b (m : M A) w :
  quiet m -> books (rt w) !! p = Some b -> sends_left w = None ->
  exists a w', m w = (w', Ok a) /\ Eff p w w' b [].
Proof.
  intros Hm Hp Hl. specialize (Hm w). destruct (m w) as [w' [a|u]]; [|done].
  exists a, w'. split; [done|by apply Eff_core].
Qed.

(** An event that shows a reconstructed book, as captured for the pair. *)
Definition event_shows p (sb : SourcedOrderbook) (ev : ReconstructedEvent) : Prop :=
  exists ts ex b, ev = EvBook p ts (stamped_book ex p ts b) /\ pb_book b = sb.

Lemma emit_eff p b w :
  books (rt w) !! p = Some b -> sends_left w = None ->
  exists w' ev, emit_book p b w = (w', Ok tt) /\ Eff p w w' b [ev] /\ event_shows p (pb_book b) ev.
Proof.
  intros Hp Hl. destruct (quiet_eff p b (book_ts b) w) as (ts & w1 & E1 & H1); [|done..|].
  { apply quiet_book_ts. }
  unfold emit_book. erewrite bind_ok by exact E1. erewrite bind_ok by reflexivity.
  unfold send. rewrite (eff_left _ _ _ _ _ H1). eexists _, _. split; [done|]. split.
  - apply (Eff_trans p w w1 _ b b [] _ H1).
    split; try done; simpl; [by rewrite insert_id by by eapply Eff_lookup].
  - by eexists _, _, _.
Qed.

(** The successive books of a run of frames. *)
Fixpoint apply_trace (ds : list NormalizedDelta) (sb : SourcedOrderbook) : list SourcedOrderbook :=
  match ds with
  | [] => []
  | d :: ds' => (apply d sb).1 :: apply_trace ds' (apply d sb).1
  end.

(** The buffered deltas a snapshot does not cover. *)
Definition uncovered (id : N) (buf : list NormalizedDelta) : list NormalizedDelta :=
  List.filter (fun d => (id <? update_id d)%N) buf.

Definition same_marks b b' : Prop :=
  phase b' = phase b /\ seeding b' = seeding b /\ reseeds b' = reseeds b.

Lemma replay_clean p id sd buf b w sb' :
  books (rt w) !! p = Some b -> sends_left w = None ->
  apply_all (uncovered id buf) (pb_book b) = Some sb' ->
  exists w' b' evs, replay p id sd buf b w = (w', Ok (b', ReplayClean)) /\
    Eff p w w' b' evs /\ pb_book b' = sb' /\ same_marks b b' /\
    Forall2 (event_shows p) (apply_trace (uncovered id buf) (pb_book b)) evs.
Proof.
  revert b w. induction buf as [|d buf IH]; intros b w Hp Hl Hall.
  { injection Hall as <-. exists w, b, []. split_and!; try done. by apply Eff_core. }
  cbn [replay uncovered List.filter] in *. unfold uncovered in *. cbn [List.filter] in *.
  rewrite N.ltb_antisym in *. destruct (update_id d <=? id)%N; cbn [negb] in *; [by apply IH|].
  cbn [apply_all apply_trace] in *.
  destruct (apply d (pb_book b)) as [sb [o|e]]; [|done]. cbn [fst].
  set (b1 := note_applied d (with_pb_book sb b)).
  destruct (put_eff p b1 w Hl) as (w1 & E1 & H1). erewrite bind_ok by exact E1.
  destruct (emit_eff p b1 w1) as (w2 & ev & E2 & H2 & Hev);
    [by eapply Eff_lookup|by eapply eff_left|].
  erewrite bind_ok by exact E2.
  destruct (IH b1 w2) as (w3 & b3 & evs & E3 & H3 & Hb3 & Hm & Hevs);
    [by eapply Eff_lookup|by eapply eff_left|done|].
  exists w3, b3, (ev :: evs). split_and!; [exact E3| |done|done|by constructor].
  apply (Eff_trans p w w2 w3 b1 b3 [ev] evs); [|done].
  by apply (Eff_trans p w w1 w2 b1 b1 [] [ev]).
Qed.

Lemma replay_app p id sd pre rest b w w' b' :
  replay p id sd pre b w = (w', Ok (b', ReplayClean)) ->
  replay p id sd (pre ++ rest) b w = replay p id sd rest b' w'.
Proof.
  revert b w. induction pre as [|d pre IH]; intros b w E.
  { by injection E as <- <-. }
  cbn [replay app] in *. destruct (update_id d <=? id)%N; [by apply IH|].
  destruct (apply d (pb_book b)) as [sb [o|e]].
  - unfold mbind, M_bind in *. destruct (put_book _ _ w) as [w1 [[]|u]]; [|done].
    destruct (emit_book _ _ w1) as [w2 [[]|u]]; [|done]. by apply IH.
  - exfalso. revert E. generalize (pop_front_to (N.to_nat MAX_BUFFERED_DELTAS) (d :: pre)).
    intros q. unfold mbind, M_bind. destruct (count_gap e w) as [w1 [[]|u]]; [|done].
    destruct (sd && _);
      unfold instant_now, put_book, metric, modify_rt, modify; intros E; discriminate E.
Qed.

Lemma replay_gap p id d tail b w sb e :
  books (rt w) !! p = Some b -> sends_left w = None -> (id < update_id d)%N ->
  apply d (pb_book b) = (sb, Err e) -> (reseeds b < MAX_RESEEDS)%N ->
  exists w' b' , replay p id true (d :: tail) b w = (w', Ok (b', ReplayReseed)) /\
    Eff p w w' b' [] /\ pb_book b' = sb /\
    phase b' = Buffering (pop_front_to (N.to_nat MAX_BUFFERED_DELTAS) (d :: tail)) /\
    seeding b' = seeding b /\ reseeds b' = reseeds b.
Proof.
  intros Hp Hl Hid Ea Hlt. cbn [replay].
  destruct (N.leb_spec (update_id d) id); [lia|]. rewrite Ea. apply N.ltb_lt in Hlt.
  destruct (quiet_eff p b (count_gap e) w) as (u1 & w1 & E1 & H1); [apply quiet_count_gap|done..|].
  erewrite bind_ok by exact E1.
  destruct (quiet_eff p b (metric bump_resyncs) w1) as (u2 & w2 & E2 & H2);
    [apply quiet_metric|by eapply Eff_lookup|by eapply eff_left|].
  erewrite bind_ok by exact E2. cbn [reseeds with_pb_book]. rewrite Hlt. cbn [andb].
  destruct (quiet_eff p b instant_now w2) as (now & w3 & E3 & H3);
    [apply quiet_instant_now|by eapply Eff_lookup|by eapply eff_left|].
  erewrite bind_ok by exact E3. cbv zeta.
  set (b4 := with_since _ _).
  destruct (put_eff p b4 w3) as (w4 & E4 & H4); [by eapply eff_left|].
  erewrite bind_ok by exact E4. exists w4, b4. split_and!; try done.
  apply (Eff_trans p w w3 w4 b b4 [] []); [|done].
  apply (Eff_trans p w w2 w3 b b [] []); [|done]. by apply (Eff_trans p w w1 w2 b b [] []).
Qed.

(** The seed is on the book: what is left is the replay, from the streaming record. *)
Lemma seed_applied_start p snap b0 b w :
  books (rt w) !! p = Some b0 -> sends_left w = None ->
  let buffered := match phase b with Buffering buf => buf | Passthrough => [] end in
  exists w1 b1 ev,
    seed_applied p snap (seeder w) b w =
      (r ← replay p (update_id snap) (seeder w) buffered b1;
       match r.2 with
       | ReplayClean => put_book p (with_reseeds 0 r.1);; mret ReplayClean
       | _ => mret r.2
       end) w1 /\
    Eff p w w1 b1 [ev] /\ event_shows p (pb_book b) ev /\ pb_book b1 = pb_book b /\
    phase b1 = Passthrough /\ seeding b1 = seeding b /\ reseeds b1 = reseeds b.
Proof.
  intros Hp Hl buffered. unfold seed_applied. cbv zeta.
  set (b1 := note_applied snap b).
  destruct (put_eff p b1 w Hl) as (w1 & E1 & H1). erewrite bind_ok by exact E1.
  destruct (emit_eff p b1 w1) as (w2 & ev & E2 & H2 & Hev);
    [by eapply Eff_lookup|by eapply eff_left|].
  erewrite bind_ok by exact E2. set (b3 := with_overflowed _ _).
  destruct (put_eff p b3 w2) as (w3 & E3 & H3); [by eapply eff_left|].
  erewrite bind_ok by exact E3. exists w3, b3, ev. split_and!; try done.
  apply (Eff_trans p w w2 w3 b1 b3 [ev] []); [|done]. by apply (Eff_trans p w w1 w2 b1 b1 [] [ev]).
Qed.

(** C4: A seed reconciles with the deltas received while it was fetched: the snapshot
    and then, in order of arrival, exactly the buffered deltas beyond its id are
    applied, and if all of them are accepted the pair streams: the book is the result
    of that run, one event per applied frame was emitted showing the book after it,
    the buffer is gone, the re-seed budget is restored, and no other pair, fetch or
    event is touched. *)
Theorem seed_reconciles p snap w b buf sb' :
  let s := with_symbol (to_canonical p) snap in
  books (rt w) !! p = Some b -> phase b = Buffering buf -> sends_left w = None ->
  apply_all (s :: uncovered (update_id snap) buf) (pb_book b) = Some sb' ->
  exists w' b' evs, apply_seed p snap w = (w', Ok false) /\ Eff p w w' b' evs /\
    pb_book b' = sb' /\ phase b' = Passthrough /\ reseeds b' = 0%N /\ seeding b' = seeding b /\
    Forall2 (event_shows p) (apply_trace (s :: uncovered (update_id snap) buf) (pb_book b)) evs.
Proof.
  intros s Hp Hph Hl Hall. unfold apply_seed. cbv zeta. fold s.
  erewrite bind_ok by reflexivity. erewrite bind_ok by reflexivity. rewrite Hp.
  cbn [apply_all apply_trace] in *.
  destruct (apply s (pb_book b)) as [sb [o|e]] eqn:Ea; [|done]. cbn [fst].
  destruct (seed_applied_start p s b (with_pb_book sb b) w Hp Hl)
    as (w1 & b1 & ev & E1 & H1 & Hev & Hb1 & Hph1 & Hs1 & Hr1).
  cbn [phase with_pb_book pb_book seeding reseeds] in *. rewrite Hph in E1.
  destruct (replay_clean p (update_id s) (seeder w) buf b1 w1 sb')
    as (w2 & b2 & evs & E2 & H2 & Hb2 & (Hph2 & Hs2 & Hr2) & Hevs);
    [by eapply Eff_lookup|by eapply eff_left|by rewrite Hb1|].
  erewrite (bind_ok (replay _ _ _ _ _)) in E1 by exact E2. cbn [snd fst] in E1.
  destruct (put_eff p (with_reseeds 0 b2) w2) as (w3 & E3 & H3); [by eapply eff_left|].
  erewrite (bind_ok (put_book _ _)) in E1 by exact E3.
  erewrite bind_ok by exact E1.
  destruct (quiet_eff p (with_reseeds 0 b2) (note_live p Orders) w3) as (u & w4 & E4 & H4);
    [apply quiet_note_live|by eapply Eff_lookup|by eapply eff_left|].
  erewrite bind_ok by exact E4. exists w4, (with_reseeds 0 b2), (ev :: evs).
  split_and!; try done; [|simpl; congruence|simpl; congruence|].
  - replace (ev :: evs) with (([ev] ++ evs) ++ []) by by rewrite app_nil_r.
    apply (Eff_trans p w w3 w4 (with_reseeds 0 b2)); [|done].
    replace ([ev] ++ evs) with (([ev] ++ evs) ++ []) by by rewrite app_nil_r.
    apply (Eff_trans p w w2 w3 b2); [|done]. by apply (Eff_trans p w w1 w2 b1).
  - constructor; [done|]. by rewrite Hb1 in Hevs.
Qed.
End Reconcile.

Section ReplayGap.
Context {NU : Numeric} {CRC : Crc32} {UU : Uuid} {CL : Clocks} {NL : NumericLaws NU}.
Implicit Types (p : TradingPair) (b : PairBook) (w : World).

Lemma request_reseed_spawns p delay b w :
  seeder w = true -> books (rt w) !! p = Some b -> seeding b = false ->
  (reseeds b < MAX_RESEEDS)%N ->
  exists w', request_reseed p delay w = (w', Ok tt) /\
    books (rt w') = <[p := with_reseeds (reseeds b + 1) (with_seeding true b)]> (books (rt w)) /\
    spawned w' = spawned w ++ [{| task_pair := p; task_wire := wire b; task_delay := delay |}] /\
    in_flight w' = S (in_flight w) /\ sent w' = sent w /\ seeder w' = true.
Proof.
  intros Hs Hp Hf Hlt. unfold request_reseed.
  erewrite bind_ok by reflexivity. rewrite Hs. cbn [negb]. erewrite bind_ok by reflexivity.
  rewrite Hp, Hf. apply N.ltb_lt in Hlt. rewrite Hlt. cbn [negb andb].
  eexists. split; [reflexivity|]. by split_and!.
Qed.

(** C5: A gap found while the buffer is replayed loses nothing that could still be
    used: the frame that does not connect and everything after it stay buffered, in
    order (the oldest beyond the cap excepted), one fresh fetch is in flight for the
    pair, and one re-seed of the budget is spent; the frames before the gap have been
    emitted, each with its book. *)
Theorem seed_replay_gap p snap w b pre d tail s1 s2 e :
  let s := with_symbol (to_canonical p) snap in
  books (rt w) !! p = Some b -> phase b = Buffering (pre ++ d :: tail) -> sends_left w = None ->
  seeder w = true -> seeding b = false -> (reseeds b < MAX_RESEEDS)%N ->
  apply_all (s :: uncovered (update_id snap) pre) (pb_book b) = Some s1 ->
  (update_id snap < update_id d)%N -> apply d s1 = (s2, Err e) ->
  exists w' b' evs, apply_seed p snap w = (w', Ok false) /\
    books (rt w') = <[p := b']> (books (rt w)) /\
    pb_book b' = s2 /\ seeding b' = true /\ reseeds b' = (reseeds b + 1)%N /\
    phase b' = Buffering (pop_front_to (N.to_nat MAX_BUFFERED_DELTAS) (d :: tail)) /\
    map task_pair (spawned w') = map task_pair (spawned w) ++ [p] /\
    in_flight w' = S (in_flight w) /\ sent w' = sent w ++ evs /\
    Forall2 (event_shows p) (apply_trace (s :: uncovered (update_id snap) pre) (pb_book b)) evs.
Proof.
  intros s Hp Hph Hl Hsd Hns Hlt Hall Hid Hgap. unfold apply_seed. cbv zeta. fold s.
  erewrite bind_ok by reflexivity. erewrite bind_ok by reflexivity. rewrite Hp.
  cbn [apply_all apply_trace] in *.
  destruct (apply s (pb_book b)) as [sb [o|e']] eqn:Ea; [|done]. cbn [fst].
  destruct (seed_applied_start p s b (with_pb_book sb b) w Hp Hl)
    as (w1 & b1 & ev & E1 & H1 & Hev & Hb1 & Hph1 & Hs1 & Hr1).
  cbn [phase with_pb_book pb_book seeding reseeds] in *. rewrite Hph, Hsd in E1.
  destruct (replay_clean p (update_id s) true pre b1 w1 s1)
    as (w2 & b2 & evs & E2 & H2 & Hb2 & (Hph2 & Hs2 & Hr2) & Hevs);
    [by eapply Eff_lookup|by eapply eff_left|by rewrite Hb1|].
  destruct (replay_gap p (update_id s) d tail b2 w2 s2 e) as (w3 & b3 & E3 & H3 & Hb3 & Hph3 & Hs3 & Hr3);
    [by eapply Eff_lookup|by eapply eff_left|done|by rewrite Hb2|congruence|].
  rewrite <- (replay_app _ _ _ pre) with (1 := E2) in E3.
  erewrite (bind_ok (replay _ _ _ _ _)) in E1 by exact E3. cbn [snd] in E1.
  rewrite Hsd. erewrite bind_ok by exact E1.
  destruct (quiet_eff p b3 (note_live p Orders) w3) as (u & w4 & E4 & H4);
    [apply quiet_note_live|by eapply Eff_lookup|by eapply eff_left|].
  erewrite bind_ok by exact E4.
  destruct (quiet_eff p b3 (note_resubscribing p) w4) as (u' & w5 & E5 & H5);
    [apply quiet_note_resubscribing|by eapply Eff_lookup|by eapply eff_left|].
  erewrite bind_ok by exact E5.
  assert (Eff p w w5 b3 ([ev] ++ evs)) as HE.
  { replace ([ev] ++ evs) with ((([ev] ++ evs) ++ []) ++ [] ++ []) by by rewrite !app_nil_r.
    apply (Eff_trans p w w3 w5 b3); [|by apply (Eff_trans p w3 w4 w5 b3)].
    apply (Eff_trans p w w2 w3 b2); [|done]. by apply (Eff_trans p w w1 w2 b1). }
  destruct (request_reseed_spawns p 0%N b3 w5) as (w6 & E6 & B6 & S6 & I6 & N6 & _);
    [by rewrite (eff_seeder _ _ _ _ _ HE)|by eapply Eff_lookup|congruence|
     rewrite Hr3, Hr2, Hr1; done|].
  erewrite bind_ok by exact E6. exists w6, (with_reseeds (reseeds b3 + 1) (with_seeding true b3)),
    (ev :: evs).
  split_and!; simpl; try done.
  - by rewrite B6, (eff_books _ _ _ _ _ HE), insert_insert_eq.
  - congruence.
  - by rewrite S6, (eff_spawned _ _ _ _ _ HE), map_app.
  - by rewrite I6, (eff_flight _ _ _ _ _ HE).
  - by rewrite N6, (eff_sent _ _ _ _ _ HE).
  - constructor; [done|]. by rewrite Hb1 in Hevs.
Qed.
End ReplayGap.

(** ** The drain terminates *)

Section Drain.
Context {NU : Numeric} {CRC : Crc32} {UU : Uuid} {CL : Clocks} {NL : NumericLaws NU}.
Implicit Types (p : TradingPair) (b : PairBook) (w : World) (s : LoopState).

(** From [w0] on, only the record of [p] has changed, to [b]. *)
Definition touched p w0 b w : Prop :=
  books (rt w) = <[p := b]> (books (rt w0)) /\ seeder w = seeder w0.

Lemma touched_quiet {A} p w0 b (m : M A) (Q : A -> World -> Prop) E w :
  quiet m -> touched p w0 b w -> (forall a w', touched p w0 b w' -> Q a w') -> wp m Q E w.
Proof.
  intros Hm [H1 H2] HQ. apply wp_quiet; [done|]. intros a w' Hc. apply HQ.
  split; [by etrans; [|exact H1]; change (c_books (core w') = c_books (core w)); rewrite Hc|].
  etrans; [|exact H2]. change (c_seeder (core w') = c_seeder (core w)). by rewrite Hc.
Qed.

Lemma touched_put p w0 b b' (Q : unit -> World -> Prop) E w :
  touched p w0 b w -> (forall w', touched p w0 b' w' -> Q tt w') -> wp (put_book p b') Q E w.
Proof.
  intros [H1 H2] HQ. apply wp_modify, HQ. split; [|done]. simpl. by rewrite H1, insert_insert_eq.
Qed.

Lemma touched_emit p w0 b b' (Q : unit -> World -> Prop) (E : World -> Prop) w :
  touched p w0 b w -> (forall w', touched p w0 b w' -> Q tt w') -> (forall w', E w') ->
  wp (emit_book p b') Q E w.
Proof.
  intros Ht HQ HE. unfold emit_book. apply wp_bind.
  eapply touched_quiet; [apply quiet_book_ts|exact Ht|]. intros ts w1 H1.
  apply wp_bind, wp_gets. unfold wp, send. destruct (sends_left w1) as [[|k]|]; auto.
Qed.

Lemma touched_replay p w0 id sd buf b (Q : PairBook * ReplayEnd -> World -> Prop)
    (E : World -> Prop) w :
  touched p w0 b w ->
  (forall r w', touched p w0 r.1 w' -> seeding r.1 = seeding b -> reseeds r.1 = reseeds b -> Q r w') ->
  (forall w', E w') -> wp (replay p id sd buf b) Q E w.
Proof.
  intros Ht HQ HE.
  assert (forall b1 w, touched p w0 b1 w -> seeding b1 = seeding b -> reseeds b1 = reseeds b ->
            wp (replay p id sd buf b1) Q E w) as H; [|by apply H].
  clear Ht w. induction buf as [|d buf IH]; intros b1 w Ht Hs Hr; cbn [replay].
  { by apply wp_ret, HQ. }
  destruct (update_id d <=? id)%N; [by apply IH|].
  destruct (apply d (pb_book b1)) as [sb [o|e]].
  - apply wp_bind. eapply touched_put; [exact Ht|]. intros w1 H1. apply wp_bind.
    eapply touched_emit; [exact H1| |done]. intros w2 H2. by apply IH.
  - apply wp_bind. eapply touched_quiet; [apply quiet_count_gap|exact Ht|]. intros _ w1 H1.
    apply wp_bind. eapply touched_quiet; [apply quiet_metric|exact H1|]. intros _ w2 H2.
    destruct (sd && _).
    + apply wp_bind. eapply touched_quiet; [apply quiet_instant_now|exact H2|]. intros now w3 H3.
      apply wp_bind. eapply touched_put; [exact H3|]. intros w4 H4. by apply wp_ret, HQ.
    + apply wp_bind. eapply touched_put; [exact H2|]. intros w3 H3.
      apply wp_bind. eapply touched_quiet; [apply quiet_metric|exact H3|]. intros _ w4 H4.
      by apply wp_ret, HQ.
Qed.

(** After a seed result the pair is not seeding, or one more re-seed is spent. *)
Definition spent b b' : Prop :=
  seeding b' = false \/
  (reseeds b' = reseeds b + 1)%N /\ (reseeds b < MAX_RESEEDS)%N.

Lemma touched_request p w0 delay b (Q : unit -> World -> Prop) E w :
  touched p w0 b w -> seeding b = false ->
  (forall b' w', touched p w0 b' w' -> spent b b' -> Q tt w') ->
  wp (request_reseed p delay) Q E w.
Proof.
  intros Ht Hs HQ. unfold request_reseed. apply wp_bind, wp_gets. destruct (seeder w) eqn:Hsd; simpl.
  2: { apply (HQ b); [done|by left]. }
  apply wp_bind, wp_gets. destruct Ht as [H1 H2]. rewrite H1, lookup_insert_eq, Hs. cbn [negb andb].
  destruct (reseeds b <? MAX_RESEEDS)%N eqn:Hlt; reflect_bools.
  - apply wp_bind, wp_modify. apply wp_bind, wp_modify, wp_modify.
    apply (HQ (with_reseeds (reseeds b + 1) (with_seeding true b))); [|by right].
    split; [|done]. simpl. by rewrite H1, insert_insert_eq.
  - apply (HQ b); [by split|by left].
Qed.

Lemma touched_apply_seed p w0 snap b w (E : World -> Prop) :
  touched p w0 b w -> seeding b = false -> (forall w', E w') ->
  wp (apply_seed p snap)
     (fun r w' => r = false -> exists b', touched p w0 b' w' /\ spent b b') E w.
Proof.
  intros Ht Hs HE. unfold apply_seed. cbv zeta. apply wp_bind, wp_gets. apply wp_bind, wp_gets.
  pose proof Ht as [H1 _]. rewrite H1, lookup_insert_eq. set (s := with_symbol _ _).
  assert (forall b1 w1, touched p w0 b1 w1 -> seeding b1 = false -> reseeds b1 = reseeds b ->
    wp (note_resubscribing p;; request_reseed p 0%N;; mret false)
      (fun r w' => r = false -> exists b', touched p w0 b' w' /\ spent b b') E w1) as Hre.
  { intros b1 w1 Ht1 Hs1 Hr1. apply wp_bind.
    eapply touched_quiet; [apply quiet_note_resubscribing|exact Ht1|]. intros _ w2 H2.
    apply wp_bind. eapply touched_request; [exact H2|exact Hs1|]. intros b' w' Hb' Hsp.
    apply wp_ret. intros _. exists b'. split; [done|]. unfold spent in *. by rewrite <- Hr1. }
  destruct (apply s (pb_book b)) as [sb [o|e]].
  - apply wp_bind. unfold seed_applied. cbv zeta. apply wp_bind.
    eapply touched_put; [exact Ht|]. intros w1 Ht1.
    apply wp_bind. eapply touched_emit; [exact Ht1| |done]. intros w2 Ht2.
    apply wp_bind. eapply touched_put; [exact Ht2|]. intros w3 Ht3.
    apply wp_bind. eapply touched_replay; [exact Ht3| |done]. intros [b4 e] w4 Ht4 Hs4 Hr4.
    simpl in *. destruct e; simpl.
    + apply wp_bind. eapply touched_put; [exact Ht4|]. intros w5 Ht5. apply wp_ret, wp_bind.
      eapply touched_quiet; [apply quiet_note_live|exact Ht5|]. intros _ w6 Ht6. apply wp_ret.
      intros _. eexists. split; [exact Ht6|]. left. simpl. congruence.
    + apply wp_ret, wp_bind.
      eapply touched_quiet; [apply quiet_note_live|exact Ht4|]. intros _ w6 Ht6.
      apply (Hre b4); [done|congruence|done].
    + apply wp_ret, wp_bind.
      eapply touched_quiet; [apply quiet_note_live|exact Ht4|]. intros _ w6 Ht6. by apply wp_ret.
  - apply wp_bind. eapply touched_put; [exact Ht|]. intros w1 Ht1.
    apply wp_bind. eapply touched_quiet; [apply quiet_metric|exact Ht1|]. intros _ w2 Ht2.
    destruct (seeder w && _); [by eapply Hre|].
    apply wp_bind. eapply touched_quiet; [apply quiet_metric|exact Ht2|]. intros _ w3 Ht3.
    by apply wp_ret.
Qed.

Definition pair_fuel b : nat := if seeding b then 9 - N.to_nat (reseeds b) else 0.
Definition seed_fuel (bs : gmap TradingPair PairBook) : nat :=
  sum_list_with (fun pb => pair_fuel pb.2) (map_to_list bs).

Lemma sum_list_with_perm {A} (f : A -> nat) l l' : l ≡ₚ l' -> sum_list_with f l = sum_list_with f l'.
Proof. induction 1; simpl; lia. Qed.

Lemma seed_fuel_delete bs p b :
  bs !! p = Some b -> seed_fuel bs = pair_fuel b + seed_fuel (delete p bs).
Proof.
  intros Hp. unfold seed_fuel.
  by rewrite <- (sum_list_with_perm _ _ _ (map_to_list_delete bs p b Hp)).
Qed.

Lemma seed_fuel_insert bs p b b' :
  bs !! p = Some b -> pair_fuel b' < pair_fuel b -> seed_fuel (<[p := b']> bs) < seed_fuel bs.
Proof.
  intros Hp Hlt. rewrite (seed_fuel_delete _ p b Hp).
  rewrite (seed_fuel_delete (<[p := b']> bs) p b') by apply lookup_insert_eq.
  rewrite delete_insert_eq. lia.
Qed.

Lemma seed_fuel_bound bs : seed_fuel bs <= 9 * size bs.
Proof.
  unfold seed_fuel. rewrite <- length_map_to_list. induction (map_to_list bs) as [|[p b] l IH]; [done|].
  cbn [sum_list_with length snd]. unfold pair_fuel at 1. destruct (seeding b); lia.
Qed.

Definition is_seed_input (i : Input) : bool := match i with InSeed _ _ _ => true | _ => false end.

(** Once the event stream is closed: a seed result burns fuel, nothing else adds any. *)
Lemma drain_step sd i s s' :
  loop_inv sd s -> events_done s = true -> select_enabled i s -> select_arm i s = (s', Continue) ->
  events_done s' = true /\ size (books (rt (world s'))) = size (books (rt (world s))) /\
  (if is_seed_input i then 1 else 0) + seed_fuel (books (rt (world s')))
    <= seed_fuel (books (rt (world s))).
Proof.
  intros HI Hd Hen Harm.
  assert (forall m, quiet m ->
    (let '(w, e) := break_if m (world s) in
     ({| world := w; events_done := events_done s |}, e)) = (s', Continue) ->
    events_done s' = true /\ books (rt (world s')) = books (rt (world s))) as Hq.
  { intros m Hm E. unfold break_if in E. specialize (Hm (world s)).
    destruct (m (world s)) as [w' [[|]|u]]; try done. injection E as <-. split; [done|].
    simpl. change (c_books (core w') = c_books (core (world s))). by rewrite Hm. }
  destruct i as [flag| | |ev| |task pre fetched|]; simpl in *; try congruence.
  - destruct flag; [done|]. injection Harm as <-. by split_and!.
  - apply Hq in Harm as [? ->]; [by split_and!|]. apply quiet_bind; [apply quiet_sweep|].
    intros; apply quiet_ret.
  - injection Harm as <-. by split_and!.
  - set (p := task_pair task) in *. destruct HI as ((Hb & (_ & _ & _ & Hin) & _) & _).
    assert (exists b, books (rt (world s)) !! p = Some b /\ seeding b = true) as (b & Hp & Hseed).
    { apply Hin. by apply list_elem_of_fmap_2. }
    assert (reseeds b <= MAX_RESEEDS)%N as Hle by by apply (Hb p b).
    set (w1 := with_rt (with_books (alter (with_seeding false) p (books (rt (world s))))
                          (rt (world s)))
                 (with_seeds (in_flight (world s) - 1) (remove_task p (spawned (world s))) (world s))).
    assert (wp (on_seed_result p (seed_result pre fetched))
      (fun r w' => r = false -> exists b', touched p (world s) b' w' /\ spent b b')
      (fun _ => True) w1) as Hwp.
    { assert (touched p (world s) (with_seeding false b) w1) as Ht.
      { split; [|done]. simpl. apply map_eq. intros q. destruct (decide (q = p)) as [->|Hne].
        - by rewrite lookup_alter_eq, lookup_insert_eq, Hp.
        - by rewrite lookup_alter_ne, lookup_insert_ne. }
      destruct fetched as [snap|err]; simpl.
      { by apply (touched_apply_seed p (world s) _ (with_seeding false b)). }
      apply wp_bind. eapply touched_quiet; [apply quiet_metric|exact Ht|]. intros _ w2 H2.
      apply wp_bind, wp_gets. cbv zeta. destruct (_ <? MAX_RESEEDS)%N.
      - apply wp_bind. eapply touched_request; [exact H2|done|]. intros b' w' Hb' Hsp.
        apply wp_ret. intros _. by exists b'.
      - apply wp_bind. eapply touched_quiet; [apply quiet_metric|exact H2|]. intros _ w3 H3.
        by apply wp_ret. }
    change (break_if _ (world s)) with (break_if (on_seed_result p (seed_result pre fetched)) w1)
      in Harm.
    unfold wp in Hwp. unfold break_if in Harm.
    destruct (on_seed_result p (seed_result pre fetched) w1) as [w' [[|]|u]]; [done| |done].
    injection Harm as <-. destruct (Hwp eq_refl) as (b' & [Hbs _] & Hsp). cbn [world events_done].
    rewrite Hbs. split_and!; [done| |].
    + by rewrite map_size_insert, Hp.
    + apply (seed_fuel_insert _ p b b'); [done|]. unfold pair_fuel. rewrite Hseed.
      unfold MAX_RESEEDS in *. destruct Hsp as [->|[-> ?]]; [lia|]. destruct (seeding b'); lia.
  - apply Hq in Harm as [? ->]; [by split_and!|apply quiet_in_band_seed_expired].
Qed.

(** A run by its inputs. *)
Inductive loop_trace : LoopState -> list Input -> LoopState -> Prop :=
| trace_nil s : loop_trace s [] s
| trace_cons s i s1 ins s2 :
    loop_done s = false -> select_enabled i s -> select_arm i s = (s1, Continue) ->
    loop_trace s1 ins s2 -> loop_trace s (i :: ins) s2.

(** C32: Shutdown by stream end terminates.  Once the event stream has closed, a run
    that does not end receives at most nine seed results per pair, whatever the
    fetches answer; and as long as the loop has not ended there is a fetch to wait
    for, so it is never stuck. *)
Theorem drain_terminates x sd k s ins s' :
  ready x -> rtc loop_step (loop_start x sd k) s -> events_done s = true -> loop_trace s ins s' ->
  length (List.filter is_seed_input ins) <= 9 * size (books (rt (world s))) /\
  (loop_done s' = false ->
     exists task, forall pre fetched, select_enabled (InSeed task pre fetched) s').
Proof.
  intros Hx Hs Hd Htr.
  pose proof (loop_reach_inv sd _ _ (loop_start_inv x sd k Hx) Hs) as HI. clear Hx Hs.
  assert (length (List.filter is_seed_input ins) + seed_fuel (books (rt (world s')))
            <= seed_fuel (books (rt (world s))) /\ events_done s' = true /\ loop_inv sd s') as H.
  { induction Htr as [s|s i s1 ins s2 Hnd Hen Harm Htr IH]; simpl; [done|].
    destruct (drain_step sd i s s1 HI Hd Hen Harm) as (Hd1 & _ & Hf).
    pose proof (select_arm_inv sd i s HI Hen) as HI1. rewrite Harm in HI1.
    destruct (IH Hd1 HI1) as (Hf2 & Hd2 & HI2). split_and!; [|done|done].
    destruct (is_seed_input i); simpl; lia. }
  destruct H as (Hf & Hd' & HI'). split.
  - pose proof (seed_fuel_bound (books (rt (world s)))). lia.
  - unfold loop_done. rewrite Hd'. intros Hz. apply Nat.eqb_neq in Hz.
    destruct HI' as ((_ & (_ & Hn & _) & _) & _). simpl in Hn.
    destruct (spawned (world s')) as [|t l] eqn:E; [by rewrite Hn in Hz|].
    exists t. intros pre fetched. simpl. rewrite E. by left.
Qed.
End Drain.

(** ** The other events *)

Section OtherEvents.
Context {NU : Numeric} {CRC : Crc32} {UU : Uuid} {CL : Clocks} {NL : NumericLaws NU}.
Implicit Types (p : TradingPair) (b : PairBook) (w : World).

(** The declaration an event needs; none for the gap of a connection. *)
Definition event_datatype (ev : DomainEvent) : option DeclaredDatatype :=
  match ev with
  | Model.Book _ => Some DeclOrderbook
  | TradeEvent _ _ => Some DeclTrades
  | FundingRateEvent _ | FundingSettlementEvent _ => Some DeclFundingRates
  | OpenInterestEvent _ => Some DeclOpenInterest
  | ConnectionGap _ => None
  end.

(** The declared set is a gate: an event of a datatype the configuration does not
    declare changes no book, feed, seed or output; it is counted, once, in the counter
    of undeclared drops and in no other. *)
Theorem undeclared_only_counted ev dt w :
  event_datatype ev = Some dt -> dt ∉ declared (rt w) ->
  exists w', handle_event ev w = (w', Ok false) /\ core w' = core w /\
    feeds (rt w') = feeds (rt w) /\ last_seen (rt w') = last_seen (rt w) /\
    trade_seq_carry (rt w') = trade_seq_carry (rt w) /\
    forall c, metrics (rt w') c =
      if decide (c = C_undeclared_dropped) then u64_add (metrics (rt w) c) 1 else metrics (rt w) c.
Proof.
  intros Hev Hdt.
  assert (declared_contains dt (declared (rt w)) = false) as Hf.
  { unfold declared_contains. by rewrite bool_decide_false. }
  assert (forall c, fetch_add C_undeclared_dropped 1 (metrics (rt w)) c =
    if decide (c = C_undeclared_dropped) then u64_add (metrics (rt w) c) 1 else metrics (rt w) c) as Hm.
  { intros c. unfold fetch_add. case_decide; [by subst|done]. }
  destruct ev; simplify_eq/=;
    [unfold handle_book|unfold handle_trade|unfold handle_funding_rate
    |unfold handle_open_interest|unfold handle_settlement];
    (erewrite bind_ok by reflexivity); rewrite Hf; cbn [negb];
    (eexists; split; [reflexivity|split_and!; [done..|exact Hm]]).
Qed.

Lemma note_live_frame p dt w :
  exists w', note_live p dt w = (w', Ok tt) /\ core w' = core w /\
    metrics (rt w') = metrics (rt w) /\ trade_seq_carry (rt w') = trade_seq_carry (rt w).
Proof.
  pose proof (quiet_note_live p dt w) as Hq.
  assert (match note_live p dt w with
          | (w', _) => metrics (rt w') = metrics (rt w) /\
                       trade_seq_carry (rt w') = trade_seq_carry (rt w) end) as Hm.
  { unfold note_live. erewrite bind_ok by reflexivity. cbv zeta.
    by destruct (bool_decide (is_Some _)), (feeds (rt w)) as [fs|],
      (bool_decide (p ∉ live_set dt (rt w))). }
  destruct (note_live p dt w) as [w' [[]|u]]; [|done]. exists w'. tauto.
Qed.

(** A declared trade of a tracked pair is forwarded exactly once and unchanged,
    whatever the continuity check says of it (a duplicate too); the check only moves
    the tradebook of its pair and the loss counters, and no book or fetch is touched. *)
Theorem trade_forwarded t sq w b :
  DeclTrades ∈ declared (rt w) -> books (rt w) !! trade_pair t = Some b -> sends_left w = None ->
  let tb := tb_apply sq (pb_trades b) in
  exists w', handle_event (TradeEvent t sq) w = (w', Ok false) /\
    sent w' = sent w ++ [EvTrade t] /\
    books (rt w') = <[trade_pair t := with_pb_trades tb.1 b]> (books (rt w)) /\
    spawned w' = spawned w /\
    metrics (rt w') C_trades_lost =
      match tb.2 with
      | TradeGappedApplied missed => u64_add (metrics (rt w) C_trades_lost) missed
      | _ => metrics (rt w) C_trades_lost
      end /\
    trade_seq_carry (rt w') =
      match trade_seq_carry (rt w), last_seq tb.1 with
      | Some carry, Some l => Some (<[trade_pair t := l]> carry)
      | c, _ => c
      end.
Proof.
  intros Hd Hp Hl tb. simpl. unfold handle_trade. erewrite bind_ok by reflexivity.
  assert (declared_contains DeclTrades (declared (rt w)) = true) as ->.
  { unfold declared_contains. by rewrite bool_decide_true. }
  cbn [negb]. rewrite Hp. unfold tb. destruct (tb_apply sq (pb_trades b)) as [tb1 outcome].
  destruct (bool_decide (is_Some sq)), outcome as [| |missed]; cbn [when];
    repeat (erewrite bind_ok by reflexivity);
    (erewrite bind_ok by (unfold send; simpl; rewrite Hl; reflexivity));
    (match goal with |- context [(note_live ?q ?dt ≫= _) ?w3] =>
       destruct (note_live_frame q dt w3) as (w4 & En & Hc & Hm1 & Hm2) end);
    (erewrite bind_ok by exact En); exists w4; (split; [reflexivity|]);
    injection Hc as E1 E2 _ E3 _ _ _ _; rewrite E1, E2, E3, Hm1, Hm2;
    unfold persist_carry; simpl;
    destruct (trade_seq_carry (rt w)) eqn:Ec, (last_seq tb1);
    split_and!; first [done|exact Ec].
Qed.

(** A proven loss on the connection makes every book on it suspect: all of them are
    emptied, marked [Gapped] and stop waiting for seeds, nothing is emitted, the lost
    count enters the coverage ledger, and the loop is told to reconnect. *)
Theorem connection_gap_empties dropped w :
  exists w', handle_event (ConnectionGap dropped) w = (w', Ok true) /\
    sent w' = sent w /\ spawned w' = spawned w /\
    metrics (rt w') C_deltas_missed_exact = u64_add (metrics (rt w) C_deltas_missed_exact) dropped /\
    dom (books (rt w')) = dom (books (rt w)) /\
    forall p b, books (rt w') !! p = Some b ->
      state (pb_book b) = BookGapped /\ last (pb_book b) = None /\
      bids (book (pb_book b)) = [] /\ asks (book (pb_book b)) = [] /\ is_buffering b = false.
Proof.
  eexists. split; [reflexivity|]. split_and!; try done.
  - simpl. by rewrite dom_fmap_L.
  - intros p b Hp. simpl in Hp. rewrite lookup_fmap in Hp.
    destruct (books (rt w) !! p) as [b0|]; [|done]. by simplify_eq/=.
Qed.

Lemma mark_stale_spec p dt (fs : FeedSet) :
  Forall2 (fun f f' => f' = f \/
    (feed_state f = Live /\ feed_matches p dt f = true /\ f' = to_stale f)) fs (mark_stale p dt fs).
Proof.
  unfold mark_stale. induction fs as [|f fs IH]; simpl; [done|].
  assert (forall l : FeedSet, Forall2 (fun f f' => f' = f \/
    (feed_state f = Live /\ feed_matches p dt f = true /\ f' = to_stale f)) l l) as Hrefl.
  { intros l. induction l; constructor; auto. }
  destruct (feed_matches p dt f) eqn:E; constructor; auto.
  case_bool_decide; auto.
Qed.

(** No feed is called stale without a guarantee broken: after a sweep every feed
    either keeps its record or moved from [Live] to [Stale], and then its venue
    declared a cadence for its datatype and more than two whole intervals have passed
    since its last event. *)
Theorem sweep_only_overdue fs w :
  feeds (rt w) = Some fs ->
  exists w' fs', sweep_stale_datatypes w = (w', Ok tt) /\ feeds (rt w') = Some fs' /\
    Forall2 (fun f f' => f' = f \/
      (feed_state f = Live /\ f' = to_stale f /\
       exists cadence seen,
         datatype_cadence (rt w) !! datatype f = Some cadence /\
         last_seen (rt w) !! (instrument f, datatype f) = Some seen /\
         (2 * cadence < instant_at (reads w) - seen)%N)) fs fs'.
Proof.
  intros Hfs. unfold sweep_stale_datatypes. erewrite bind_ok by reflexivity. rewrite Hfs.
  case_bool_decide as Hc.
  { exists w, fs. split_and!; [done|done|]. apply Forall2_same_length_lookup_2; [done|].
    intros i f f' H1 H2. left. congruence. }
  erewrite bind_ok by reflexivity. cbv zeta.
  set (overdue := map fst (List.filter _ _)). eexists _, _. split_and!; [reflexivity|reflexivity|].
  assert (forall k, k ∈ overdue -> exists cadence seen,
    datatype_cadence (rt w) !! k.2 = Some cadence /\ last_seen (rt w) !! k = Some seen /\
    (2 * cadence < instant_at (reads w) - seen)%N) as Hover.
  { intros k Hk. unfold overdue in Hk. apply list_elem_of_fmap in Hk as ([[p dt] seen] & -> & Hk).
    apply list_elem_of_In, filter_In in Hk as [Hin Ho].
    apply list_elem_of_In, elem_of_map_to_list in Hin. unfold is_overdue in Ho. simpl in *.
    destruct (datatype_cadence (rt w) !! dt) as [cadence|] eqn:Ed; [|done].
    unfold STALE_CADENCE_MULTIPLE in Ho. reflect_bools. exists cadence, seen.
    split_and!; [done|done|lia]. }
  clearbody overdue. clear Hfs Hc. revert fs. induction overdue as [|k l IH]; intros fs; simpl.
  { apply Forall2_same_length_lookup_2; [done|]. intros i f f' H1 H2. left. congruence. }
  assert (forall k, k ∈ l -> exists cadence seen,
    datatype_cadence (rt w) !! k.2 = Some cadence /\ last_seen (rt w) !! k = Some seen /\
    (2 * cadence < instant_at (reads w) - seen)%N) as Hl by (intros; apply Hover; by right).
  specialize (IH Hl (mark_stale k.1 k.2 fs)).
  pose proof (mark_stale_spec k.1 k.2 fs) as Hm.
  refine (Forall2_trans _ _ _ _ _ _ _ Hm IH). clear IH Hm.
  intros f f1 f2 [->|(Hlive & Hmatch & ->)] [->|(H1 & H2 & H3)]; auto; try done.
  right. split_and!; [done|done|]. unfold feed_matches in Hmatch. reflect_bools.
  destruct (Hover k) as (cadence & seen & Hk); [by left|]. exists cadence, seen.
  apply bool_decide_eq_true in H, H0. destruct k as [kp kd]. simpl in *.
  by rewrite H, H0.
Qed.
End OtherEvents.

(** ** Concrete runs *)

Section ConcreteRuntime.
Local Existing Instance decimal_numeric.
Local Existing Instance ex_crc.
Local Existing Instance ex_uuid.
Local Open Scope string_scope.

(** Twenty seconds between two readings. *)
Local Instance ex_clocks : Clocks :=
  {| instant_at := fun k => (20000000000 * (1 + N.of_nat k))%N; wall_at := fun k => (1000 + N.of_nat k)%N |}.

Definition ex_rt (m : ReconstructionModel) (ds : DeclaredSet) : SourceRuntime :=
  SourceRuntime_new "binance" Slash ["BTC/USDT"] m (recovery_action m) SourceMetrics_default ds
    (fun _ => 0%N).

Definition ex_loop (m : ReconstructionModel) : LoopState := loop_start (ex_rt m declared_all) true None.

Lemma ex_ready m ds : ready (ex_rt m ds).
Proof. apply SourceRuntime_new_ready. Qed.

Definition ex_book_of (w : World) : option PairBook := books (rt w) !! ex_pair.

Lemma runtime_never_strands_witness :
  exists b, ex_book_of (world (ex_loop ex_binance)) = Some b /\ is_buffering b = true /\
    ((exists t, filter (fun t => task_pair t = ex_pair) (spawned (world (ex_loop ex_binance))) = [t]) \/
     (awaits_in_band_seed (rt (world (ex_loop ex_binance))) = true /\ is_Some (buffering_since b))).
Proof.
  assert (match ex_book_of (world (ex_loop ex_binance)) with
          | Some b => is_buffering b | None => false end = true) as Hc by (vm_compute; reflexivity).
  destruct (ex_book_of (world (ex_loop ex_binance))) as [b|] eqn:E; [|discriminate].
  exists b. split_and!; [reflexivity|exact Hc|].
  exact (runtime_never_strands (ex_rt ex_binance declared_all) true None (ex_loop ex_binance)
           ex_pair b (ex_ready _ _) (rtc_refl _ _) E Hc).
Defined.

Lemma runtime_bounds_witness :
  in_flight (world (ex_loop ex_binance)) <= size (books (rt (world (ex_loop ex_binance)))).
Proof.
  exact (proj1 (proj2 (proj2 (runtime_bounds (ex_rt ex_binance declared_all) true None
    (ex_loop ex_binance) (ex_ready _ _) (rtc_refl _ _))))).
Defined.

Definition ex_task : SeedTask := {| task_pair := ex_pair; task_wire := "BTC/USDT"; task_delay := 0%N |}.

Lemma ex_task_spawned : spawned (world (ex_loop ex_binance)) = [ex_task].
Proof. vm_compute. reflexivity. Qed.

Lemma runtime_output_consistent_witness :
  Forall event_ok (sent (world (select_arm (InSeed ex_task 5 (Ok ex_seed)) (ex_loop ex_binance)).1)).
Proof.
  assert (select_enabled (InSeed ex_task 5 (Ok ex_seed)) (ex_loop ex_binance)) as Hen.
  { unfold select_enabled. rewrite ex_task_spawned. by left. }
  exact (runtime_output_consistent (ex_rt ex_binance declared_all) true None (ex_loop ex_binance) _ _ _
           (ex_ready _ _) (rtc_refl _ _) Hen (surjective_pairing _)).
Defined.

Lemma in_band_deadline_breaks_witness :
  exists s', select_arm InDeadline (ex_loop ex_htx) = (s', Break true).
Proof.
  assert (match ex_book_of (world (ex_loop ex_htx)) with
          | Some b => is_buffering b && bool_decide (buffering_since b = Some 0%N)
          | None => false end = true) as Hc by (vm_compute; reflexivity).
  destruct (ex_book_of (world (ex_loop ex_htx))) as [b|] eqn:E; [|discriminate].
  apply andb_true_iff in Hc as [Hb Hs]. apply bool_decide_eq_true in Hs.
  assert (forall k, reads (world (ex_loop ex_htx)) <= k ->
            (0 + IN_BAND_SEED_DEADLINE < instant_at k)%N) as Hk.
  { intros k _. cbn [instant_at ex_clocks]. unfold IN_BAND_SEED_DEADLINE. lia. }
  destruct (in_band_deadline_breaks (ex_loop ex_htx) ex_pair b 0%N E Hb Hs Hk) as (s' & Hs' & _).
  exists s'. exact Hs'.
Defined.

(** Two deltas arrive before the seed; the first is covered by it. *)
Definition ex_waiting (ds : list NormalizedDelta) : World :=
  fold_left (fun w d => (handle_event (Model.Book d) w).1) ds (world (ex_loop ex_binance)).

Definition ex_buffered : list NormalizedDelta :=
  [ex_frame false 6 5 [("97", "1")] []; ex_frame false 10 8 [("99", "5")] []].

Definition ex_buffer_is (l : list NormalizedDelta) (b : PairBook) : bool :=
  match phase b with Buffering buf => bool_decide (map update_id buf = map update_id l) | _ => false end.

Lemma seed_reconciles_witness :
  exists w' b', apply_seed ex_pair ex_seed (ex_waiting ex_buffered) = (w', Ok false) /\
    ex_book_of w' = Some b' /\ phase b' = Passthrough.
Proof.
  assert (match ex_book_of (ex_waiting ex_buffered) with
          | Some b =>
            match phase b with
            | Buffering buf =>
              match apply_all (with_symbol (to_canonical ex_pair) ex_seed
                               :: uncovered (update_id ex_seed) buf) (pb_book b) with
              | Some _ => true | None => false end
            | Passthrough => false end
          | None => false end = true) as Hc by (vm_compute; reflexivity).
  assert (match sends_left (ex_waiting ex_buffered) with None => true | _ => false end = true) as Hl
    by (vm_compute; reflexivity).
  revert Hc Hl. generalize (ex_waiting ex_buffered). intros w Hc Hl.
  destruct (ex_book_of w) as [b|] eqn:Eb; [|discriminate].
  destruct (phase b) as [buf|] eqn:Eph; [|discriminate].
  destruct (apply_all _ (pb_book b)) as [sb|] eqn:Ea; [|discriminate].
  destruct (sends_left w) eqn:El; [discriminate|].
  destruct (seed_reconciles ex_pair ex_seed w b buf sb Eb Eph El Ea)
    as (w' & b' & evs & E & HE & _ & Hph & _).
  exists w', b'. split_and!; [exact E|exact (Eff_lookup _ _ _ _ _ HE)|exact Hph].
Defined.

Definition ex_broken : list NormalizedDelta := ex_buffered ++ [ex_frame false 20 15 [] []].

Lemma seed_replay_gap_witness :
  exists w', apply_seed ex_pair ex_seed (with_rt (with_books (alter (with_seeding false) ex_pair
      (books (rt (ex_waiting ex_broken)))) (rt (ex_waiting ex_broken))) (ex_waiting ex_broken))
    = (w', Ok false) /\ in_flight w' = 2.
Proof.
  set (w := with_rt _ (ex_waiting ex_broken)).
  set (s := with_symbol (to_canonical ex_pair) ex_seed).
  assert (match ex_book_of w with
          | Some b =>
            match phase b with
            | Buffering [d1; d2; d3] =>
              match apply_all (s :: uncovered (update_id ex_seed) [d1; d2]) (pb_book b) with
              | Some s1 => negb (seeding b) && (reseeds b <? MAX_RESEEDS)%N && (7 <? update_id d3)%N &&
                           negb (is_ok (apply d3 s1).2)
              | None => false end
            | _ => false end
          | None => false end = true) as Hc by (vm_compute; reflexivity).
  assert (match sends_left w with None => true | _ => false end && seeder w && (in_flight w =? 1)%nat
          = true) as Hl by (vm_compute; reflexivity).
  clearbody w. destruct (ex_book_of w) as [b|] eqn:Eb; [|discriminate].
  destruct (phase b) as [[|d1 [|d2 [|d3 [|]]]]|] eqn:Eph; try discriminate.
  destruct (apply_all _ (pb_book b)) as [s1|] eqn:Ea; [|discriminate].
  apply andb_true_iff in Hc as [Hc He]. apply andb_true_iff in Hc as [Hc Hid].
  apply andb_true_iff in Hc as [Hseed Hr]. apply negb_true_iff in Hseed. apply N.ltb_lt in Hr, Hid.
  destruct (sends_left w) eqn:El; [discriminate|]. apply andb_true_iff in Hl as [Hsd Hn].
  apply Nat.eqb_eq in Hn.
  destruct (apply d3 s1) as [s2 [o|e]] eqn:Eg; [discriminate|].
  destruct (seed_replay_gap ex_pair ex_seed w b [d1; d2] d3 [] s1 s2 e Eb Eph El Hsd Hseed Hr Ea Hid Eg)
    as (w' & b' & evs & E & _ & _ & _ & _ & _ & _ & Hfl & _).
  exists w'. split; [exact E|]. rewrite Hfl, Hn. reflexivity.
Defined.

Lemma drain_terminates_witness :
  let s := {| world := world (ex_loop ex_binance); events_done := true |} in
  exists task, forall pre fetched, select_enabled (InSeed task pre fetched) s.
Proof.
  intros s.
  assert (loop_done (ex_loop ex_binance) = false) as H0 by (vm_compute; reflexivity).
  assert (loop_done s = false) as H1 by (vm_compute; reflexivity).
  exact (proj2 (drain_terminates (ex_rt ex_binance declared_all) true None s [] s (ex_ready _ _)
    (rtc_once _ _ (loop_iter InEventsClosed (ex_loop ex_binance) s H0 eq_refl eq_refl)) eq_refl
    (trace_nil s)) H1).
Defined.

Definition ex_trade : Trade := {|
  source_trade_ts_us := 9; local_trade_ts_us := 10; source_trade_rtt_us := 0; trade_pair := ex_pair;
  trade_side := Buy; trade_amount := dec 1 0; trade_price := dec 100 0; trade_exchange := "binance";
  trade_id := "t1"; trade_origin := Ws
|}.

Lemma undeclared_only_counted_witness :
  let w := run_start (ex_rt ex_binance (declared_only DeclOrderbook)) true None in
  exists w', handle_event (TradeEvent ex_trade None) w = (w', Ok false) /\ core w' = core w.
Proof.
  intros w.
  assert (bool_decide (DeclTrades ∉ declared (rt w)) = true) as Hd by (vm_compute; reflexivity).
  apply bool_decide_eq_true in Hd.
  destruct (undeclared_only_counted (TradeEvent ex_trade None) DeclTrades w eq_refl Hd)
    as (w' & E & Hc & _).
  exists w'. split; [exact E|exact Hc].
Defined.

Lemma trade_forwarded_witness :
  let w := world (ex_loop ex_binance) in
  exists w', handle_event (TradeEvent ex_trade (Some 4%N)) w = (w', Ok false) /\
    sent w' = (sent w ++ [EvTrade ex_trade])%list.
Proof.
  intros w.
  assert (bool_decide (DeclTrades ∈ declared (rt w)) && bool_decide (is_Some (ex_book_of w)) &&
          match sends_left w with None => true | _ => false end = true) as Hc
    by (vm_compute; reflexivity).
  apply andb_true_iff in Hc as [Hc Hl]. apply andb_true_iff in Hc as [Hd Hb].
  apply bool_decide_eq_true in Hd. apply bool_decide_eq_true in Hb as [b Hb].
  destruct (sends_left w) eqn:El; [discriminate|].
  destruct (trade_forwarded ex_trade (Some 4%N) w b Hd Hb El) as (w' & E & Hs & _).
  exists w'. split; [exact E|exact Hs].
Defined.

Lemma sweep_only_overdue_witness :
  let w := run_start (with_feeds ex_feeds (ex_rt ex_binance declared_all)) true None in
  exists w' fs', sweep_stale_datatypes w = (w', Ok tt) /\ feeds (rt w') = Some fs'.
Proof.
  intros w.
  assert (feeds (rt w) = Some ex_feeds) as Hf by (vm_compute; reflexivity).
  destruct (sweep_only_overdue ex_feeds w Hf) as (w' & fs' & E & Hfs & _).
  exists w', fs'. split; [exact E|exact Hfs].
Defined.
End ConcreteRuntime.
