(* ===== verification/RuntimeTrace.v ===== *)
(** * Every emitted book is a reconstruction

    A refinement of the runtime: whatever is selected in whatever order, a book that
    leaves the runtime is the result of applying, to the empty book of its pair, a frame
    that was received as a snapshot and then frames received for that pair, in order of
    arrival, each of them accepted. *)

From Stdlib Require Import Ascii String.
From stdpp Require Import gmap strings relations.
From S2P Require Import Prelude Budget BTree Strings Numeric Pairs Types Delta Checksum Book BookProps Model ModelProps Feed Runtime RuntimeProps RuntimeSpec.
Local Open Scope nat_scope.

(** ** A snapshot forgets the book it is applied to *)

Section Snapshots.
Context {NU : Numeric} {CRC : Crc32} {NL : NumericLaws NU}.
Implicit Types (s : SourcedOrderbook) (d : NormalizedDelta) (b : OrderbookDelta).

(** [b] is [b0] up to what a snapshot overwrites. *)
Definition same_frame b0 b : Prop :=
  pair b = pair b0 /\ Delta.exchange b = Delta.exchange b0 /\ max_depth b = max_depth b0.

Definition is_l3 (m : ReconstructionModel) : bool := match m with L3 _ => true | _ => false end.

(** The frames that replace the whole book. *)
Definition refreshes (m : ReconstructionModel) d : Prop :=
  is_snapshot d = true \/ m = FullRefresh.

Definition same_origin (s0 s : SourcedOrderbook) : Prop :=
  model s = model s0 /\ recovery s = recovery s0 /\ same_frame (book s0) (book s) /\
  (is_l3 (model s0) = false -> l3_orders s = l3_orders s0 /\ l3_levels s = l3_levels s0).

Lemma same_frame_process d b0 b : same_frame b0 b -> same_frame b0 (process d b).1.
Proof.
  intros (Hp & He & Hd). destruct (process_pair_depth d b) as [Hp' Hd'].
  split_and!; [congruence| |congruence]. rewrite <- He, process_eq.
  destruct (pair_accepts d b); [|done]. destruct (is_snapshot d).
  - unfold apply_snapshot, prune_to_depth. crush_match; done.
  - unfold apply_delta, prune_to_depth. crush_match; done.
Qed.

Lemma process_snapshot_forgets d b0 b b' u :
  same_frame b0 b -> is_snapshot d = true -> process d b = (b', Ok u) -> process d b0 = (b', Ok u).
Proof.
  intros (Hp & He & Hd) Hs. rewrite !process_eq, Hs. unfold pair_accepts. rewrite Hp.
  case_match; [|done]. unfold apply_snapshot.
  destruct (snapshot_levels (nd_bids d) [] 0) as [bs [n|e]]; [|done].
  destruct (snapshot_levels (nd_asks d) [] 0) as [az [n'|e]]; [|done].
  intros [= <- <-]. do 2 f_equal. unfold prune_to_depth, with_sides, with_ids. simpl.
  by rewrite Hp, He, Hd.
Qed.

Lemma same_origin_model d s0 s : same_origin s0 s -> same_origin s0 (apply_model d s).1.
Proof.
  intros (Hm & Hr & Hf & Hl).
  assert (forall d' s1 k, same_origin s0 s1 ->
    (forall s2, same_origin s0 s2 -> same_origin s0 (k s2).1) ->
    same_origin s0 (process_or_gap d' s1 k).1) as Hpog.
  { intros d' s1 k (? & ? & Hf' & ?) Hk. unfold process_or_gap.
    pose proof (same_frame_process d' _ _ Hf') as Hp.
    destruct (process d' (book s1)) as [b [u|e]]; [by apply Hk|by split_and!]. }
  unfold apply_model. rewrite Hm. destruct (model s0) as [|p src|fmt|src] eqn:Em.
  - apply Hpog; [by split_and!; rewrite ?Em|done].
  - unfold apply_seq_delta. destruct (is_snapshot d).
    { apply Hpog; [by split_and!; rewrite ?Em|done]. }
    destruct (last s); [|by split_and!; rewrite ?Em].
    destruct (continuous p n d); [|by split_and!; rewrite ?Em].
    apply Hpog; [by split_and!; rewrite ?Em|done].
  - apply Hpog; [by split_and!; rewrite ?Em|]. intros s2 H2. crush_match; exact H2.
  - unfold apply_l3. destruct (fold_left l3_order _ _) as [[os ls] t].
    assert (same_origin s0 (with_l3 os ls (if is_snapshot d then with_l3 ∅ [] s else s))) as H0.
    { destruct (is_snapshot d); split_and!; simpl; try done; rewrite ?Em; done. }
    destruct (L3_MAX_ORDERS <? _)%N; [exact H0|]. by apply Hpog.
Qed.

Lemma same_origin_apply d s0 s : same_origin s0 s -> same_origin s0 (apply d s).1.
Proof.
  intros Ho%(same_origin_model d). rewrite apply_eq.
  destruct (apply_model d s) as [s1 [o|e]]; simpl in *; [|done].
  crush_match; done.
Qed.

Lemma process_or_gap_ok d s s' o k :
  process_or_gap d s k = (s', Ok o) ->
  exists b u, process d (book s) = (b, Ok u) /\ k (with_book b s) = (s', Ok o).
Proof.
  unfold process_or_gap. destruct (process d (book s)) as [b [u|e]]; [|done]. eauto.
Qed.

Lemma process_or_gap_forgets d s0 s s' o k :
  same_origin s0 s -> is_snapshot d = true ->
  (forall b, k (with_book b s) = (s', Ok o) -> k (with_book b s0) = (s', Ok o)) ->
  process_or_gap d s k = (s', Ok o) -> process_or_gap d s0 k = (s', Ok o).
Proof.
  intros (_ & _ & Hf & _) Hs Hk (b & u & Hp & E)%process_or_gap_ok. unfold process_or_gap.
  rewrite (process_snapshot_forgets _ _ _ _ _ Hf Hs Hp). by apply Hk.
Qed.

Lemma apply_snapshot_forgets d s0 s s' o :
  same_origin s0 s -> refreshes (model s0) d -> apply d s = (s', Ok o) -> apply d s0 = (s', Ok o).
Proof.
  intros Ho Hd [E Hx]%apply_ok_iff. apply apply_ok_iff. split; [|done]. clear Hx.
  pose proof Ho as (Hm & Hr & Hf & Hl). unfold apply_model in *. rewrite Hm in E.
  assert (forall b uid out, accept uid out (with_book b s) = (s', Ok o) ->
            is_l3 (model s0) = false -> accept uid out (with_book b s0) = (s', Ok o)) as Hacc.
  { intros b uid out [= <- <-] [Ho1 Ho2]%Hl. unfold accept, with_state, with_last, with_book. simpl.
    by rewrite Hm, Hr, Ho1, Ho2. }
  destruct Hd as [Hd|Hd]; [|rewrite Hd in *;
    eapply process_or_gap_forgets; [done|done| |exact E]; intros b E'; by apply Hacc; rewrite ?Hd].
  destruct (model s0) as [|p src|fmt|src] eqn:Em.
  - eapply process_or_gap_forgets; [done|done| |exact E]. intros b E'. by apply Hacc.
  - unfold apply_seq_delta in *. rewrite Hd in *.
    eapply process_or_gap_forgets; [done|done| |exact E]. intros b E'. by apply Hacc.
  - eapply process_or_gap_forgets; [done|done| |exact E]. intros b E'. simpl in *.
    destruct Hl as [Ho1 Ho2]; [done|]. destruct (checksum d) as [c|].
    + destruct (book_checksum fmt b =? c)%Z; [|done]. injection E' as <- <-.
      unfold with_state, with_last, with_book. simpl. by rewrite Hm, Hr, Ho1, Ho2, Em.
    + rewrite Hd in *. injection E' as <- <-.
      unfold with_state, with_last, with_book. simpl. by rewrite Hm, Hr, Ho1, Ho2, Em.
  - unfold apply_l3 in *. rewrite Hd in *. cbn [l3_orders l3_levels with_l3] in *.
    destruct (fold_left l3_order _ _) as [[os ls] t]. destruct (L3_MAX_ORDERS <? _)%N; [done|].
    apply process_or_gap_ok in E as (b & u & Hp & E).
    apply (process_snapshot_forgets _ (book s0)) in Hp; [|done..].
    unfold process_or_gap. cbn [book with_l3]. rewrite Hp. injection E as <- <-.
    unfold accept, with_state, with_last, with_book, with_l3. simpl. by rewrite Hm, Hr, Em.
Qed.

(** On a book that was never fed only such a frame is accepted. *)
Lemma apply_unfed d s :
  initialized (book s) = false -> last s = None -> is_ok (apply d s).2 = true ->
  refreshes (model s) d.
Proof.
  intros Hi Hl. rewrite apply_is_ok. intros [Hok _]. unfold refreshes.
  destruct (is_snapshot d) eqn:Hd; [by left|right].
  assert (forall d' s1 k, is_snapshot d' = false -> book s1 = book s ->
            is_ok (process_or_gap d' s1 k).2 = false) as Hpog.
  { intros d' s1 k Hd' Hb. unfold process_or_gap. rewrite Hb.
    destruct (process d' (book s)) as [b' [u|e]] eqn:Hp; [|done].
    pose proof (process_ok_accepts _ _ _ _ Hp) as Ha. rewrite process_eq, Ha, Hd' in Hp.
    apply apply_delta_ok in Hp as [? _]. congruence. }
  unfold apply_model in Hok. destruct (model s) as [|p src|fmt|src]; [done|..].
  - unfold apply_seq_delta in Hok. by rewrite Hd, Hl in Hok.
  - unfold apply_checksummed in Hok. by rewrite Hpog in Hok.
  - unfold apply_l3 in Hok. rewrite Hd in Hok. destruct (fold_left _ _ _) as [[os ls] t].
    destruct (L3_MAX_ORDERS <? _)%N; [done|]. by rewrite Hpog in Hok.
Qed.

Lemma apply_all_snoc ds d s s1 s2 o :
  apply_all ds s = Some s1 -> apply d s1 = (s2, Ok o) -> apply_all (ds ++ [d]) s = Some s2.
Proof.
  intros H E. revert s H. induction ds as [|d0 ds IH]; intros s; simpl.
  - intros [= ->]. by rewrite E.
  - destruct (apply d0 s) as [s' [o'|e]]; [apply IH|done].
Qed.
End Snapshots.

(** ** The frames a run received *)

Section History.
Context {NU : Numeric} {CRC : Crc32} {UU : Uuid} {CL : Clocks}.
Implicit Types (p : TradingPair) (b : PairBook) (w : World) (s : LoopState).

(** What an input brings for a pair: a frame of the socket that decodes to it, or the
    snapshot of its fetch, under the pair's canonical symbol. *)
Definition frames_in (c : SymbolCodec) p (i : Input) : list NormalizedDelta :=
  match i with
  | InEvent (Model.Book d) =>
    if bool_decide (decode c (symbol d) = Some p) then [with_symbol (to_canonical p) d] else []
  | InSeed task pre (Ok d) =>
    if bool_decide (task_pair task = p)
    then [with_symbol (to_canonical p) (stamp_book pre (source_orderbook_rtt_us d) d)] else []
  | _ => []
  end.

Definition frames_of (c : SymbolCodec) p (ins : list Input) : list NormalizedDelta :=
  concat (map (frames_in c p) ins).

(** What the environment promises: a fetch answers with a snapshot, and a venue sends no
    snapshot on the socket for a pair whose fetch is under way. *)
Definition env_ok (i : Input) s : Prop :=
  match i with
  | InSeed _ _ (Ok d) => is_snapshot d = true
  | InEvent (Model.Book d) =>
    is_snapshot d = true -> forall p b, decode (codec (rt (world s))) (symbol d) = Some p ->
    books (rt (world s)) !! p = Some b -> seeding b = false
  | _ => True
  end.

Inductive env_run (s0 : LoopState) : list Input -> LoopState -> Prop :=
| env_start : env_run s0 [] s0
| env_step ins s i s' :
    env_run s0 ins s -> loop_done s = false -> select_enabled i s -> env_ok i s ->
    select_arm i s = (s', Continue) -> env_run s0 (ins ++ [i]) s'.

(** The book of a pair that was never fed, as a runtime of model [m] is built. *)
Definition empty_book (m : ReconstructionModel) (r : RecoveryAction) (depth : option nat) p
    : SourcedOrderbook := arm_config_depth depth (SourcedOrderbook_new p m r).

(** [sb] is reached by [f], a frame that refreshes the book, and then by [ds], each accepted, all of
    them among the frames [h], [ds] in their order. *)
Definition derived m r depth p (h : list NormalizedDelta) (sb : SourcedOrderbook) : Prop :=
  exists f ds, refreshes m f /\ f ∈ h /\ ds `sublist_of` h /\
    apply_all (f :: ds) (empty_book m r depth p) = Some sb.

Definition reconstructed m r depth p (h : list NormalizedDelta) (ob : Orderbook) : Prop :=
  exists sb, derived m r depth p h sb /\
    bt_map level_volume (ob_bids ob) = bids (book sb) /\
    bt_map level_volume (ob_asks ob) = asks (book sb).

(** A runtime before its run. *)
Definition unfed m r depth (x : SourceRuntime) : Prop :=
  forall p b, books x !! p = Some b ->
    pb_book b = empty_book m r depth p /\ seeding b = false /\
    (phase b = Buffering [] \/ phase b = Passthrough /\ rt_needs_rest x = false).
End History.

(** ** The codec never changes *)

Section Codec.
Context {NU : Numeric} {CRC : Crc32} {UU : Uuid} {CL : Clocks}.
Implicit Types (p : TradingPair) (b : PairBook) (w : World).

Definition keeps {A} (m : M A) : Prop := forall w, codec (rt (m w).1) = codec (rt w).

Lemma keeps_ret {A} (a : A) : keeps (mret a).
Proof. by intros w. Qed.
Lemma keeps_gets {A} (f : World -> A) : keeps (gets f).
Proof. by intros w. Qed.
Lemma keeps_bind {A B} (m : M A) (k : A -> M B) :
  keeps m -> (forall a, keeps (k a)) -> keeps (m ≫= k).
Proof.
  intros Hm Hk w. specialize (Hm w). unfold mbind, M_bind. destruct (m w) as [w' [a|u]]; [|done].
  simpl in Hm. by rewrite (Hk a w').
Qed.
Lemma keeps_modify f : (forall w, codec (rt (f w)) = codec (rt w)) -> keeps (modify f).
Proof. intros H w. apply H. Qed.
Lemma keeps_modify_rt f : (forall x, codec (f x) = codec x) -> keeps (modify_rt f).
Proof. intros H. apply keeps_modify. intros w. apply H. Qed.
Lemma keeps_when c m : keeps m -> keeps (when c m).
Proof. by destruct c. Qed.
Lemma keeps_send e : keeps (send e).
Proof. intros w. unfold send. by destruct (sends_left w) as [[|k]|]. Qed.

Create HintDb keeps discriminated.
#[local] Hint Resolve keeps_ret keeps_gets keeps_bind keeps_when keeps_send : keeps.

(** Decomposes a handler into its effects. *)
Ltac keeps :=
  repeat first
    [ progress (auto with keeps)
    | progress cbv zeta
    | apply keeps_when
    | match goal with
      | |- keeps (_ ≫= _) => apply keeps_bind; [|intros ?]
      | |- keeps (modify_rt _) => apply keeps_modify_rt; intros ?; repeat (case_match; try done); done
      | |- keeps (modify _) => apply keeps_modify; done
      | |- keeps (metric _) => by intros ?
      | |- keeps (put_book _ _) => by intros ?
      | |- keeps instant_now => by intros ?
      | |- keeps now_us => by intros ?
      | |- keeps (if ?c then _ else _) => destruct c
      | |- keeps (match ?c with _ => _ end) => destruct c
      end ].

Lemma keeps_emit p b : keeps (emit_book p b).
Proof. unfold emit_book, book_ts. keeps. Qed.
Lemma keeps_note_live p dt : keeps (note_live p dt).
Proof. unfold note_live. keeps. Qed.
Lemma keeps_resubscribing p : keeps (note_resubscribing p).
Proof. unfold note_resubscribing. keeps. Qed.
Lemma keeps_reseed p delay : keeps (request_reseed p delay).
Proof. unfold request_reseed, spawn_seed, bump_in_flight. keeps. Qed.
Lemma keeps_count_gap e : keeps (count_gap e).
Proof. unfold count_gap. keeps. Qed.
Lemma keeps_drop dt : keeps (drop_undeclared dt).
Proof. unfold drop_undeclared. keeps. Qed.
#[local] Hint Resolve keeps_emit keeps_note_live keeps_resubscribing keeps_reseed keeps_count_gap
  keeps_drop : keeps.

Lemma keeps_replay p id sd buf b : keeps (replay p id sd buf b).
Proof.
  revert b. induction buf as [|d buf IH]; intros b; cbn [replay]; [auto with keeps|].
  destruct (update_id d <=? id)%N; [apply IH|]. destruct (apply d (pb_book b)) as [sb [o|e]]; keeps.
Qed.
#[local] Hint Resolve keeps_replay : keeps.

Lemma keeps_apply_seed p d : keeps (apply_seed p d).
Proof. unfold apply_seed, seed_applied. keeps. Qed.
#[local] Hint Resolve keeps_apply_seed : keeps.

Lemma keeps_handle_event ev : keeps (handle_event ev).
Proof.
  destruct ev; simpl; [unfold handle_book, apply_passthrough|unfold handle_trade
    |unfold handle_connection_gap|unfold handle_funding_rate|unfold handle_open_interest
    |unfold handle_settlement]; keeps.
  apply keeps_modify_rt. intros x. unfold persist_carry. by repeat case_match.
Qed.

Lemma keeps_scan bs e : keeps (scan_seed_deadlines bs e).
Proof. revert e. induction bs as [|b bs IH]; intros e; simpl; keeps. Qed.
#[local] Hint Resolve keeps_scan : keeps.

Lemma keeps_break (m : M bool) w : keeps m -> codec (rt (break_if m w).1) = codec (rt w).
Proof.
  intros Hm. specialize (Hm w). unfold break_if. by destruct (m w) as [w' [[|]|u]].
Qed.

Lemma select_arm_codec i (s : LoopState) :
  codec (rt (world (select_arm i s).1)) = codec (rt (world s)).
Proof.
  destruct i as [flag| | |ev| |task pre fetched|]; simpl; try done;
    match goal with |- context [break_if ?m ?w] =>
      assert (keeps m) as Hm; [|apply (keeps_break m w) in Hm; by destruct (break_if m w)] end.
  - unfold sweep_stale_datatypes. keeps.
  - apply keeps_handle_event.
  - unfold on_seed, on_seed_result. keeps.
  - unfold in_band_seed_expired. keeps.
Qed.

Lemma start_codec x sd k : codec (rt (world (loop_start x sd k))) = codec x.
Proof.
  unfold loop_start, run_start. simpl.
  assert (keeps start) as Hk; [|by rewrite Hk].
  unfold start. apply keeps_bind; [auto with keeps|]. intros x'. apply keeps_bind; [auto with keeps|].
  intros has. destruct (rt_needs_rest x'); [|auto with keeps]. destruct has; simpl; [|keeps].
  generalize (map (fun pb : TradingPair * PairBook => (pb.1, wire pb.2)) (map_to_list (books x'))).
  intros l. induction l; simpl; unfold start_seed, spawn_seed, bump_in_flight; keeps.
Qed.
End Codec.

(** ** The refinement invariant *)

Section Refinement.
Context {NU : Numeric} {CRC : Crc32} {UU : Uuid} {CL : Clocks} {NL : NumericLaws NU}.
Context (m : ReconstructionModel) (r : RecoveryAction) (depth : option nat).
Implicit Types (p : TradingPair) (b : PairBook) (w : World).
Implicit Types (H : TradingPair -> list NormalizedDelta).

(** [derived] with the frames [rest] still to come. *)
Definition derived_before rest p h (sb : SourcedOrderbook) : Prop :=
  exists f ds, refreshes m f /\ f ∈ h /\ (ds ++ rest) `sublist_of` h /\
    apply_all (f :: ds) (empty_book m r depth p) = Some sb.

Lemma derived_before_nil p h sb : derived_before [] p h sb <-> derived m r depth p h sb.
Proof.
  unfold derived_before, derived. split; intros (f & ds & H1 & H2 & H3 & H4); exists f, ds;
    rewrite ?app_nil_r in *; done.
Qed.

Lemma derived_before_skip d rest p h sb :
  derived_before (d :: rest) p h sb -> derived_before rest p h sb.
Proof.
  intros (f & ds & H1 & H2 & H3 & H4). exists f, ds. split_and!; [done..| |done].
  etrans; [|exact H3]. by apply sublist_app, sublist_cons.
Qed.

Lemma derived_before_step d rest p h sb sb' o :
  derived_before (d :: rest) p h sb -> apply d sb = (sb', Ok o) -> derived_before rest p h sb'.
Proof.
  intros (f & ds & H1 & H2 & H3 & H4) E. exists f, (ds ++ [d]).
  split_and!; [done..| |].
  - by rewrite <- app_assoc.
  - rewrite app_comm_cons. by eapply apply_all_snoc.
Qed.

Lemma derived_snapshot d rest p h s s' o :
  same_origin (empty_book m r depth p) s -> refreshes m d -> d ∈ h -> rest `sublist_of` h ->
  apply d s = (s', Ok o) -> derived_before rest p h s'.
Proof.
  intros Ho Hd Hin Hrest E. exists d, []. split_and!; [done..|].
  assert (model (empty_book m r depth p) = m) as Hm.
  { unfold empty_book, arm_config_depth. by destruct m as [| |[]|]. }
  apply (apply_snapshot_forgets _ _ _ _ _ Ho) in E; [|by rewrite Hm].
  simpl. by rewrite E.
Qed.

Lemma derived_mono p h h' sb :
  h `sublist_of` h' -> derived m r depth p h sb -> derived m r depth p h' sb.
Proof.
  intros Hs (f & ds & H1 & H2 & H3 & H4). exists f, ds. split_and!; [done| | |done].
  - by eapply elem_of_submseteq, sublist_submseteq.
  - by etrans.
Qed.

Lemma empty_book_fields p :
  model (empty_book m r depth p) = m /\ last (empty_book m r depth p) = None /\
  initialized (book (empty_book m r depth p)) = false /\ book_ok (book (empty_book m r depth p)).
Proof.
  unfold empty_book, arm_config_depth.
  destruct m as [| |[]|]; split_and!; try done; apply with_max_depth_ok || apply OrderbookDelta_new_ok;
    apply OrderbookDelta_new_ok.
Qed.

Lemma derived_book_ok p h sb : derived m r depth p h sb -> book_ok (book sb).
Proof.
  intros (f & ds & _ & _ & _ & E). pose proof (empty_book_fields p) as (_ & _ & _ & Hok).
  revert Hok E. generalize (empty_book m r depth p). generalize (f :: ds).
  intros l. induction l as [|d l IH]; intros s Hok; simpl; [by intros [= <-]|].
  pose proof (apply_book_ok d s Hok) as Hok'. destruct (apply d s) as [s' [o|e]]; [|done].
  by apply IH.
Qed.

(** A streaming pair shows a derived book, or was never fed. *)
Definition sound p h sb : Prop := sb = empty_book m r depth p \/ derived m r depth p h sb.

Definition pair_ok H p b : Prop :=
  same_origin (empty_book m r depth p) (pb_book b) /\
  match phase b with
  | Buffering buf => buf `sublist_of` H p
  | Passthrough => seeding b = false /\ sound p (H p) (pb_book b)
  end.

Definition event_recon H (e : ReconstructedEvent) : Prop :=
  match e with EvBook p _ ob => reconstructed m r depth p (H p) ob | _ => True end.

Definition sent_ok H w : Prop := Forall (event_recon H) (sent w).
Definition TInv H w : Prop := map_Forall (pair_ok H) (books (rt w)) /\ sent_ok H w.
Definition trace_post H (resync : bool) w : Prop := if resync then sent_ok H w else TInv H w.

Lemma pair_ok_mono H H' p b : H p `sublist_of` H' p -> pair_ok H p b -> pair_ok H' p b.
Proof.
  intros Hs [Ho Hb]. split; [done|]. destruct (phase b); [by etrans|].
  destruct Hb as [? [?|?]]; (split; [done|]); [by left|right; by eapply derived_mono].
Qed.

Lemma TInv_mono H H' w : (forall p, H p `sublist_of` H' p) -> TInv H w -> TInv H' w.
Proof.
  intros Hs [Hb He]. split.
  - intros p b Hp. apply (pair_ok_mono H); [done|]. by apply Hb.
  - eapply Forall_impl; [exact He|]. intros [p ts ob|?|?|?|?]; simpl; try done.
    intros (sb & Hd & Hsides). exists sb. split; [|done]. by apply (derived_mono p (H p)).
Qed.

Lemma trace_put H p b (Q : unit -> World -> Prop) E w :
  TInv H w -> pair_ok H p b ->
  (forall w', TInv H w' -> books (rt w') !! p = Some b -> Q tt w') -> wp (put_book p b) Q E w.
Proof.
  intros [Hb He] Hp HQ. apply wp_modify, HQ; [|apply lookup_insert_eq].
  split; [|done]. by apply map_Forall_insert_2.
Qed.

Lemma trace_quiet {A} H (n : M A) (Q : A -> World -> Prop) E w :
  quiet n -> TInv H w ->
  (forall a w', TInv H w' -> books (rt w') = books (rt w) -> seeder w' = seeder w -> Q a w') ->
  wp n Q E w.
Proof.
  intros Hn [Hb He] HQ. apply wp_quiet; [done|]. intros a w' Hc.
  assert (books (rt w') = books (rt w)) as Eb by (change (c_books (core w') = c_books (core w)); by rewrite Hc).
  assert (sent w' = sent w) as Es by (change (c_sent (core w') = c_sent (core w)); by rewrite Hc).
  apply HQ; [|done|change (c_seeder (core w') = c_seeder (core w)); by rewrite Hc].
  split; [by rewrite Eb|]. unfold sent_ok. by rewrite Es.
Qed.

Lemma trace_send H e (Q : unit -> World -> Prop) (E : World -> Prop) w :
  TInv H w -> event_recon H e ->
  (forall w', TInv H w' -> books (rt w') = books (rt w) -> Q tt w') ->
  (forall w', sent_ok H w' -> E w') -> wp (send e) Q E w.
Proof.
  intros [Hb Hs] He HQ HE. unfold wp, send.
  assert (forall k, TInv H (with_sent (sent w ++ [e]) k w)) as Hk.
  { intros k. split; [done|]. apply Forall_app. split; [done|by constructor]. }
  destruct (sends_left w) as [[|k]|]; [by apply HE|by apply HQ..].
Qed.

Lemma trace_emit H p b (Q : unit -> World -> Prop) (E : World -> Prop) w :
  TInv H w -> derived m r depth p (H p) (pb_book b) ->
  (forall w', TInv H w' -> books (rt w') = books (rt w) -> Q tt w') ->
  (forall w', sent_ok H w' -> E w') -> wp (emit_book p b) Q E w.
Proof.
  intros HI Hd HQ HE. unfold emit_book. apply wp_bind.
  eapply trace_quiet; [apply quiet_book_ts|exact HI|]. intros ts w1 H1 E1 _. apply wp_bind, wp_gets.
  eapply trace_send; [exact H1| |by intros w' ? ?; apply HQ; congruence|done].
  exists (pb_book b). split; [done|]. apply derived_book_ok in Hd as Hok.
  split; [apply capture_bids, book_bids_wf, Hok|apply capture_asks, book_asks_wf, Hok].
Qed.
(** ** The handlers keep it *)

Lemma TInv_sent H w : TInv H w -> sent_ok H w.
Proof. by intros []. Qed.
#[local] Hint Resolve TInv_sent : core.

Lemma same_origin_applied d b p H sb res :
  pair_ok H p b -> apply d (pb_book b) = (sb, res) -> same_origin (empty_book m r depth p) sb.
Proof. intros [Ho _] E. apply (same_origin_apply d) in Ho. by rewrite E in Ho. Qed.

Lemma trace_request H p delay (Q : unit -> World -> Prop) E w :
  TInv H w -> (forall b, books (rt w) !! p = Some b -> is_buffering b = true) ->
  (forall w', TInv H w' -> Q tt w') -> wp (request_reseed p delay) Q E w.
Proof.
  intros [Hb He] Hbuf HQ. unfold request_reseed. apply wp_bind, wp_gets.
  destruct (seeder w); simpl; [|by apply wp_ret, HQ].
  apply wp_bind, wp_gets. destruct (books (rt w) !! p) as [b|] eqn:Hp; [|by apply wp_ret, HQ].
  destruct (_ && _); [|by apply wp_ret, HQ].
  apply HQ. split; [|done]. simpl. apply map_Forall_insert_2; [|done].
  destruct (Hb p b Hp) as [Ho Hph]. split; [done|]. specialize (Hbuf b eq_refl).
  unfold is_buffering in Hbuf. simpl. by destruct (phase b).
Qed.

Lemma trace_reseed H p (Q : bool -> World -> Prop) E w :
  TInv H w -> (forall b, books (rt w) !! p = Some b -> is_buffering b = true) ->
  (forall w', TInv H w' -> Q false w') ->
  wp (note_resubscribing p;; request_reseed p 0%N;; mret false) Q E w.
Proof.
  intros HI Hb HQ. apply wp_bind. eapply trace_quiet; [apply quiet_note_resubscribing|exact HI|].
  intros _ w1 H1 E1 _. apply wp_bind. eapply trace_request; [exact H1|by rewrite E1|].
  intros w2 H2. by apply wp_ret, HQ.
Qed.

Lemma trace_replay H p id sd buf b (Q : PairBook * ReplayEnd -> World -> Prop) (E : World -> Prop) w :
  TInv H w -> pair_ok H p b -> phase b = Passthrough -> derived_before buf p (H p) (pb_book b) ->
  (forall x w', sent_ok H w' ->
     match x.2 with
     | ReplayClean => TInv H w' /\ pair_ok H p x.1 /\ phase x.1 = Passthrough
     | ReplayReseed => TInv H w' /\ books (rt w') !! p = Some x.1 /\ is_buffering x.1 = true
     | ReplayResync => True
     end -> Q x w') ->
  (forall w', sent_ok H w' -> E w') ->
  wp (replay p id sd buf b) Q E w.
Proof.
  intros HI Hb Hph Hd HQ HE. revert b w HI Hb Hph Hd.
  induction buf as [|d buf IH]; intros b w HI Hb Hph Hd; cbn [replay].
  { apply wp_ret, HQ; [by eapply TInv_sent|]. by split_and!. }
  destruct (update_id d <=? id)%N; [apply IH; [done..|by eapply derived_before_skip]|].
  destruct (apply d (pb_book b)) as [sb [o|e]] eqn:Ea.
  - pose proof (derived_before_step _ _ _ _ _ _ _ Hd Ea) as Hd'.
    assert (derived m r depth p (H p) sb) as Hfull.
    { destruct Hd' as (f & ds & ? & ? & Hs & ?). exists f, ds. split_and!; [done..| |done].
      etrans; [|exact Hs]. apply sublist_inserts_r. done. }
    assert (pair_ok H p (note_applied d (with_pb_book sb b))) as Hb'.
    { split; [by eapply same_origin_applied|]. simpl. rewrite Hph.
      destruct Hb as [_ Hb]. rewrite Hph in Hb. split; [apply Hb|by right]. }
    apply wp_bind. eapply trace_put; [exact HI|exact Hb'|]. intros w1 H1 _.
    apply wp_bind. eapply trace_emit; [exact H1|exact Hfull| |done]. intros w2 H2 _. by apply IH.
  - apply wp_bind. eapply trace_quiet; [apply quiet_count_gap|exact HI|]. intros _ w1 H1 _ _.
    apply wp_bind. eapply trace_quiet; [apply quiet_metric|exact H1|]. intros _ w2 H2 _ _.
    destruct (sd && _).
    + apply wp_bind. eapply trace_quiet; [apply quiet_instant_now|exact H2|]. intros now w3 H3 _ _.
      apply wp_bind. eapply trace_put; [exact H3| |].
      { split; [by eapply same_origin_applied|]. cbn [phase with_since with_phase].
        destruct Hd as (_ & ds & _ & _ & Hs & _). rewrite pop_front_to_drop.
        etrans; [apply sublist_drop|]. etrans; [|exact Hs]. by apply sublist_inserts_l. }
      intros w4 H4 Hp4. apply wp_ret, HQ; [by eapply TInv_sent|]. by split_and!.
    + apply wp_bind. unfold put_book, modify_rt. apply wp_modify. apply wp_bind.
      apply wp_modify. apply wp_ret, HQ; [|done]. by destruct H2.
Qed.

Lemma trace_apply_seed H p snap w :
  let s := with_symbol (to_canonical p) snap in
  TInv H w -> is_snapshot snap = true -> s ∈ H p ->
  (forall b, books (rt w) !! p = Some b -> is_buffering b = true /\ seeding b = false) ->
  wp (apply_seed p snap) (trace_post H) (sent_ok H) w.
Proof.
  intros s HI Hs Hin Hw. unfold apply_seed. cbv zeta. fold s.
  apply wp_bind, wp_gets. apply wp_bind, wp_gets.
  destruct (books (rt w) !! p) as [b|] eqn:Hp; [|by apply wp_ret].
  destruct (Hw b eq_refl) as [Hbuf Hseed]. unfold is_buffering in Hbuf.
  destruct (phase b) as [buf|] eqn:Hph; [|done].
  assert (pair_ok H p b) as Hb by (destruct HI as [Hb _]; by apply Hb).
  destruct (apply s (pb_book b)) as [sb [o|e]] eqn:Ea.
  - assert (buf `sublist_of` H p) as Hsub by (destruct Hb as [_ Hb]; by rewrite Hph in Hb).
    pose proof (same_origin_applied _ _ _ _ _ _ Hb Ea) as Ho.
    assert (forall rest, rest `sublist_of` H p -> derived_before rest p (H p) sb) as Hd.
    { intros rest Hrest. apply (derived_snapshot s rest p (H p) (pb_book b) sb o);
        [apply Hb|by left|done..]. }
    assert (derived m r depth p (H p) sb) as Hfull.
    { apply derived_before_nil, Hd, sublist_nil_l. }
    apply wp_bind. unfold seed_applied. cbv zeta. cbn [phase note_applied with_stamps with_pb_book].
    rewrite Hph. apply wp_bind. eapply trace_put; [exact HI| |].
    { split; [exact Ho|]. simpl. by rewrite Hph. }
    intros w1 H1 _. apply wp_bind. eapply trace_emit; [exact H1|exact Hfull| |done].
    intros w2 H2 _. apply wp_bind. eapply trace_put; [exact H2| |].
    { split; [exact Ho|]. simpl. split; [exact Hseed|by right]. }
    intros w3 H3 _. apply wp_bind. eapply trace_replay; [exact H3| |done|by apply Hd| |done].
    { split; [exact Ho|]. simpl. split; [exact Hseed|by right]. }
    intros [b4 e] w4 Hs4 Hend. simpl in *. destruct e; simpl.
    + destruct Hend as (H4 & Hb4 & Hph4). apply wp_bind. eapply trace_put; [exact H4|exact Hb4|].
      intros w5 H5 _. apply wp_ret, wp_bind.
      eapply trace_quiet; [apply quiet_note_live|exact H5|]. intros _ w6 H6 _ _. by apply wp_ret.
    + destruct Hend as (H4 & Hp4 & Hbuf4). apply wp_ret, wp_bind.
      eapply trace_quiet; [apply quiet_note_live|exact H4|]. intros _ w6 H6 E6 _.
      eapply trace_reseed; [exact H6| |done]. rewrite E6, Hp4. intros b' [= <-]. done.
    + apply wp_ret, wp_bind. apply wp_quiet; [apply quiet_note_live|]. intros _ w6 Hc.
      apply wp_ret. unfold trace_post, sent_ok.
      change (sent w6) with (c_sent (core w6)). rewrite Hc. exact Hs4.
  - apply wp_bind. eapply trace_put; [exact HI| |].
    { split; [by eapply same_origin_applied|]. simpl. rewrite Hph.
      destruct Hb as [_ Hb]. by rewrite Hph in Hb. }
    intros w1 H1 Hp1. apply wp_bind. eapply trace_quiet; [apply quiet_metric|exact H1|].
    intros _ w2 H2 E2 _. destruct (_ && _).
    + eapply trace_reseed; [exact H2| |done]. rewrite E2, Hp1. intros b' [= <-].
      unfold is_buffering. simpl. by rewrite Hph.
    + apply wp_bind. eapply trace_quiet; [apply quiet_metric|exact H2|]. intros _ w3 H3 _ _.
      apply wp_ret. apply H3.
Qed.

Lemma trace_passthrough H p d b w :
  TInv H w -> books (rt w) !! p = Some b -> phase b = Passthrough -> d ∈ H p ->
  pb_book b = empty_book m r depth p \/ derived_before [d] p (H p) (pb_book b) ->
  wp (apply_passthrough p d b) (trace_post H) (sent_ok H) w.
Proof.
  intros HI Hp Hph Hin Hsrc. unfold apply_passthrough. apply wp_bind, wp_gets.
  assert (pair_ok H p b) as Hb by (destruct HI as [Hb _]; by apply Hb).
  assert (seeding b = false) as Hns by (destruct Hb as [_ Hb]; rewrite Hph in Hb; apply Hb).
  destruct (apply d (pb_book b)) as [sb [o|e]] eqn:Ea.
  - pose proof (same_origin_applied _ _ _ _ _ _ Hb Ea) as Ho.
    assert (derived m r depth p (H p) sb) as Hfull.
    { apply derived_before_nil. destruct Hsrc as [Hsrc|Hsrc]; [|by eapply derived_before_step].
      destruct (empty_book_fields p) as (Hm & Hl & Hi & _). destruct Hb as [Hob _].
      apply (derived_snapshot d [] p (H p) (pb_book b) sb o); [done| |done|apply sublist_nil_l|done].
      rewrite <- Hm. apply apply_unfed; [done|done|]. by rewrite <- Hsrc, Ea. }
    assert (pair_ok H p (note_applied d (with_pb_book sb b))) as Hb'.
    { split; [exact Ho|]. simpl. rewrite Hph. split; [done|by right]. }
    apply wp_bind. eapply trace_put; [exact HI|exact Hb'|]. intros w1 H1 _.
    apply wp_bind. eapply trace_emit; [exact H1|exact Hfull| |done]. intros w2 H2 _.
    apply wp_bind. eapply trace_quiet; [apply quiet_note_live|exact H2|]. intros _ w3 H3 _ _.
    by apply wp_ret.
  - apply wp_bind. eapply trace_quiet; [apply quiet_count_gap|exact HI|]. intros _ w1 H1 _ _.
    apply wp_bind. eapply trace_quiet; [apply quiet_metric|exact H1|]. intros _ w2 H2 _ _.
    destruct (seeder w && _).
    + apply wp_bind. eapply trace_quiet; [apply quiet_instant_now|exact H2|]. intros now w3 H3 _ _.
      apply wp_bind. eapply trace_put; [exact H3| |].
      { split; [by eapply same_origin_applied|]. simpl. by apply singleton_sublist_l. }
      intros w4 H4 Hp4. eapply trace_reseed; [exact H4| |done].
      rewrite Hp4. by intros b' [= <-].
    + apply wp_bind. unfold put_book, modify_rt. apply wp_modify. apply wp_ret. by destruct H2.
Qed.

Lemma trace_handle_book H H' d w :
  (forall p, H' p = H p ++ frames_in (codec (rt w)) p (InEvent (Model.Book d))) -> TInv H w ->
  (is_snapshot d = true -> forall p b, decode (codec (rt w)) (symbol d) = Some p ->
     books (rt w) !! p = Some b -> seeding b = false) ->
  wp (handle_book d) (trace_post H') (sent_ok H') w.
Proof.
  intros HH HI Henv.
  assert (TInv H' w) as HI'.
  { apply (TInv_mono H); [|done]. intros p. rewrite HH. by apply sublist_inserts_r. }
  unfold handle_book. apply wp_bind, wp_gets.
  destruct (declared_contains _ _); simpl; [|apply wp_quiet; [apply quiet_drop_undeclared|]].
  2: { intros a w' Hc. assert (TInv H' w') as H1.
       { destruct HI' as [Hb Hs]. split.
         - change (books (rt w')) with (c_books (core w')). by rewrite Hc.
         - unfold sent_ok. change (sent w') with (c_sent (core w')). by rewrite Hc. }
       by destruct a; [apply TInv_sent|]. }
  destruct (decode _ _) as [p|] eqn:Hdec; [|by apply wp_ret].
  destruct (books (rt w) !! p) as [b|] eqn:Hp; [|by apply wp_ret].
  set (d' := with_symbol (to_canonical p) d).
  assert (H' p = H p ++ [d']) as Hp'.
  { rewrite HH. simpl. by rewrite bool_decide_eq_true_2. }
  assert (d' ∈ H' p) as Hin by (rewrite Hp'; apply elem_of_app; right; by left).
  cbv zeta. destruct (_ && is_buffering b) eqn:Hsnap.
  { apply andb_true_iff in Hsnap as [Hsn Hbuf]. apply trace_apply_seed; [done|exact Hsn|exact Hin|].
    rewrite Hp. intros b' [= <-]. split; [done|]. by apply (Henv Hsn p b). }
  destruct HI as [Hb _]. destruct (Hb p b Hp) as [Ho Hph].
  destruct (phase b) as [buf|] eqn:Eph.
  - apply wp_bind. eapply trace_put; [exact HI'| |by intros w1 H1 _; apply wp_ret].
    split; [unfold push_buffered; by case_match|]. rewrite Hp'. unfold push_buffered.
    destruct (MAX_BUFFERED_DELTAS <=? _)%N; simpl; apply sublist_app; try done.
    destruct buf; [done|]. simpl. etrans; [|exact Hph]. by apply sublist_cons.
  - destruct Hph as [_ Hs]. eapply trace_passthrough; [exact HI'|done|done|exact Hin|].
    destruct Hs as [Hs|(f & ds & ? & ? & Hsub & ?)]; [by left|right].
    exists f, ds. rewrite Hp'. split_and!; [done| |by apply sublist_app|done].
    apply elem_of_app. by left.
Qed.

Lemma trace_handle_trade H t sq w :
  TInv H w -> wp (handle_trade t sq) (trace_post H) (sent_ok H) w.
Proof.
  intros HI. unfold handle_trade. apply wp_bind, wp_gets.
  destruct (declared_contains _ _); simpl.
  2: { eapply trace_quiet; [apply quiet_drop_undeclared|exact HI|].
       intros [] w' H1 _ _; [by apply TInv_sent|done]. }
  destruct (books (rt w) !! trade_pair t) as [b|] eqn:Hp; [|by apply wp_ret].
  apply wp_bind. eapply trace_quiet; [apply quiet_when, quiet_metric|exact HI|]. intros _ w1 H1 E1 _.
  destruct (tb_apply sq (pb_trades b)) as [tb outcome]. apply wp_bind.
  eapply trace_put; [exact H1| |].
  { destruct HI as [Hb _]. apply (Hb (trade_pair t) b Hp). }
  intros w2 H2 _. apply wp_bind. eapply trace_quiet; [|exact H2|].
  { destruct outcome; [apply quiet_ret|apply quiet_ret|].
    apply quiet_bind; [apply quiet_metric|intros _; apply quiet_metric]. }
  intros _ w3 H3 _ _. apply wp_bind.
  eapply trace_quiet; [apply quiet_persist_carry|exact H3|]. intros _ w4 H4 _ _.
  apply wp_bind. eapply trace_send; [exact H4|done| |done]. intros w5 H5 _.
  apply wp_bind. eapply trace_quiet; [apply quiet_note_live|exact H5|]. intros _ w6 H6 _ _.
  by apply wp_ret.
Qed.

Lemma trace_handle_event H H' ev s :
  (forall p, H' p = H p ++ frames_in (codec (rt (world s))) p (InEvent ev)) ->
  env_ok (InEvent ev) s -> TInv H (world s) ->
  wp (handle_event ev) (trace_post H') (sent_ok H') (world s).
Proof.
  intros HH Henv HI.
  assert (TInv H' (world s)) as HI'.
  { apply (TInv_mono H); [|done]. intros p. rewrite HH. by apply sublist_inserts_r. }
  destruct ev as [d|t sq|n|fr|oi|fs]; simpl.
  - by apply (trace_handle_book H).
  - by apply trace_handle_trade.
  - unfold handle_connection_gap, metric, modify_rt.
    do 4 (apply wp_bind, wp_modify). apply wp_ret. simpl. by destruct HI'.
  - unfold handle_funding_rate. apply wp_bind, wp_gets. destruct (declared_contains _ _); simpl.
    + apply wp_bind. eapply trace_send; [exact HI'|done| |done]. intros w1 H1 _.
      apply wp_bind. eapply trace_quiet; [apply quiet_note_live|exact H1|]. intros _ w2 H2 _ _.
      by apply wp_ret.
    + eapply trace_quiet; [apply quiet_drop_undeclared|exact HI'|].
      intros [] w' H1 _ _; [by apply TInv_sent|done].
  - unfold handle_open_interest. apply wp_bind, wp_gets. destruct (declared_contains _ _); simpl.
    + apply wp_bind. eapply trace_send; [exact HI'|done| |done]. intros w1 H1 _.
      apply wp_bind. eapply trace_quiet; [apply quiet_note_live|exact H1|]. intros _ w2 H2 _ _.
      by apply wp_ret.
    + eapply trace_quiet; [apply quiet_drop_undeclared|exact HI'|].
      intros [] w' H1 _ _; [by apply TInv_sent|done].
  - unfold handle_settlement. apply wp_bind, wp_gets. destruct (declared_contains _ _); simpl.
    + apply wp_bind. eapply trace_send; [exact HI'|done| |done]. intros w1 H1 _. by apply wp_ret.
    + apply wp_bind. eapply trace_quiet; [apply quiet_metric|exact HI'|]. intros _ w1 H1 _ _.
      by apply wp_ret.
Qed.

Lemma trace_on_seed H H' task pre fetched s :
  (forall p, H' p = H p ++ frames_in (codec (rt (world s))) p (InSeed task pre fetched)) ->
  env_ok (InSeed task pre fetched) s -> TInv H (world s) ->
  (forall b, books (rt (world s)) !! task_pair task = Some b -> seeding b = true) ->
  wp (modify (fun w => with_seeds (in_flight w) (remove_task (task_pair task) (spawned w)) w);;
      on_seed (task_pair task) (seed_result pre fetched)) (trace_post H') (sent_ok H') (world s).
Proof.
  intros HH Henv HI Hseed. set (p := task_pair task) in *.
  unfold on_seed. do 3 (apply wp_bind, wp_modify). set (w1 := with_rt _ _).
  assert (TInv H (world s)) as HI0 by done.
  assert (TInv H' w1 /\ forall b, books (rt w1) !! p = Some b -> is_buffering b = true /\ seeding b = false)
    as [H1 Hbuf].
  { apply (TInv_mono H H') in HI; [|intros q; rewrite HH; by apply sublist_inserts_r].
    destruct HI as [Hb Hs], HI0 as [Hb0 _]. split; [split; [|done]|]; simpl.
    - intros q b Hq. destruct (decide (q = p)) as [->|Hne].
      + rewrite lookup_alter_eq in Hq. destruct (books (rt (world s)) !! p) as [b0|] eqn:E0; [|done].
        simplify_eq/=. destruct (Hb p b0 E0) as [Ho Hph]. split; [done|]. simpl.
        destruct (phase b0); [done|]. split; [done|apply Hph].
      + rewrite lookup_alter_ne in Hq by done. by apply Hb.
    - intros b Hq. rewrite lookup_alter_eq in Hq.
      destruct (books (rt (world s)) !! p) as [b0|] eqn:E0; [|done]. simplify_eq/=.
      split; [|done]. destruct (Hb p b0 E0) as [_ Hph]. unfold is_buffering. simpl.
      destruct (phase b0); [done|]. destruct Hph as [Hf _]. specialize (Hseed b0 eq_refl). congruence. }
  clearbody w1. destruct fetched as [d|err]; simpl.
  - apply trace_apply_seed; [done|exact Henv| |done].
    rewrite HH. simpl. rewrite bool_decide_eq_true_2 by done. apply elem_of_app. right. by left.
  - apply wp_bind. eapply trace_quiet; [apply quiet_metric|exact H1|]. intros _ w2 H2 E2 _.
    apply wp_bind, wp_gets. cbv zeta. case_match.
    + apply wp_bind. eapply trace_request; [exact H2| |intros w3 H3; by apply wp_ret].
      rewrite E2. intros b Hb. by apply Hbuf.
    + apply wp_bind. eapply trace_quiet; [apply quiet_metric|exact H2|]. intros _ w3 H3 _ _.
      apply wp_ret. by apply TInv_sent.
Qed.

Lemma trace_break H (n : M bool) w :
  wp n (trace_post H) (sent_ok H) w ->
  match break_if n w with
  | (w', Continue) => TInv H w'
  | (w', _) => sent_ok H w'
  end.
Proof. unfold wp, break_if. by destruct (n w) as [w' [[|]|u]]. Qed.

Lemma trace_arm H H' sd i s :
  (forall p, H' p = H p ++ frames_in (codec (rt (world s))) p i) ->
  loop_inv sd s -> select_enabled i s -> env_ok i s -> TInv H (world s) ->
  match select_arm i s with
  | (s', Continue) => TInv H' (world s')
  | (s', _) => sent_ok H' (world s')
  end.
Proof.
  intros HH Hinv Hen Henv HI.
  assert (TInv H' (world s)) as HI'.
  { apply (TInv_mono H); [|done]. intros p. rewrite HH. by apply sublist_inserts_r. }
  assert (forall n, wp n (trace_post H') (sent_ok H') (world s) ->
            match (let '(w, e) := break_if n (world s) in
                   ({| world := w; events_done := events_done s |}, e)) with
            | (s', Continue) => TInv H' (world s')
            | (s', _) => sent_ok H' (world s')
            end) as Hon.
  { intros n Hn. apply trace_break in Hn. by destruct (break_if n (world s)) as [w' []]. }
  destruct i as [flag| | |ev| |task pre fetched|]; simpl in Hen |- *.
  - destruct flag; [by apply TInv_sent|done].
  - apply Hon, wp_bind. eapply trace_quiet; [apply quiet_sweep|exact HI'|]. intros _ w' H1 _ _.
    by apply wp_ret.
  - done.
  - by apply Hon, (trace_handle_event H).
  - done.
  - apply Hon, (trace_on_seed H); [done..|]. intros b Hb.
    destruct Hinv as ((_ & (_ & _ & _ & Hs) & _) & _ & _). simpl in Hs.
    assert (task_pair task ∈ map task_pair (spawned (world s))) as Hin by by apply list_elem_of_fmap_2.
    apply Hs in Hin as (b' & Hb' & ?). by rewrite Hb in Hb'; simplify_eq.
  - apply Hon. unfold in_band_seed_expired. apply wp_bind, wp_gets, wp_bind.
    eapply trace_quiet; [apply quiet_scan|exact HI'|]. intros e w1 H1 _ _.
    apply wp_bind. eapply trace_quiet; [apply quiet_when, quiet_metric|exact H1|].
    intros _ w2 H2 _ _. apply wp_ret. destruct e; [by apply TInv_sent|done].
Qed.

(** ** The start *)

Lemma trace_start_seeds l w :
  TInv (fun _ => []) w -> map_Forall (fun _ b => is_buffering b = true) (books (rt w)) ->
  wp (start_seeds l) (fun _ => TInv (fun _ => [])) (fun _ => False) w.
Proof.
  revert w. induction l as [|[p wr] l IH]; intros w [Hb Hs] Hbuf; cbn [start_seeds].
  { by apply wp_ret. }
  apply wp_bind. unfold start_seed. do 2 apply wp_bind, wp_modify. apply wp_modify.
  apply IH; [split; [|done]|]; intros q b Hq; simpl in Hq;
    (destruct (decide (q = p)) as [->|Hne];
      [rewrite lookup_alter_eq in Hq; destruct (books (rt w) !! p) as [b0|] eqn:E0; [|done]; simplify_eq/=
      |rewrite lookup_alter_ne in Hq by done]).
  - destruct (Hb p b0 E0) as [Ho Hph]. split; [done|]. simpl.
    specialize (Hbuf p b0 E0). unfold is_buffering in Hbuf. by destruct (phase b0).
  - by apply Hb.
  - apply (Hbuf p b0 E0).
  - apply (Hbuf q b Hq).
Qed.

Lemma same_origin_refl s : same_origin s s.
Proof. by split_and!. Qed.

Lemma trace_start x sd k :
  unfed m r depth x -> TInv (fun _ => []) (world (loop_start x sd k)).
Proof.
  intros Hx. unfold loop_start, run_start, start. simpl. set (w := {| rt := x |}).
  assert (TInv (fun _ => []) w) as HI.
  { split; [|constructor]. intros p b Hp. destruct (Hx p b Hp) as (Hb & Hs & Hph).
    split; [rewrite Hb; apply same_origin_refl|].
    destruct Hph as [->|[-> _]]; [done|]. split; [done|by left]. }
  unfold mbind at 1, M_bind. simpl. unfold mbind at 1, M_bind. simpl.
  destruct (rt_needs_rest x) eqn:Hn; [|done]. destruct sd; simpl.
  - assert (forall l, TInv (fun _ => []) (start_seeds l w).1) as Hl; [|apply Hl].
    intros l. pose proof (trace_start_seeds l w HI) as Hw. unfold wp in Hw.
    destruct (start_seeds l w) as [w' [u|u]]; [|exfalso]; apply Hw; intros p b Hp;
      destruct (Hx p b Hp) as (_ & _ & [Hph|[_ ?]]); try congruence; unfold is_buffering; by rewrite Hph.
  - split; [|constructor]. intros p b' Hp. simpl in Hp. rewrite lookup_fmap in Hp.
    destruct (books x !! p) as [b|] eqn:E; [|done]. simplify_eq/=.
    destruct (Hx p b E) as (Hb & Hs & _). split; simpl; [rewrite Hb; apply same_origin_refl|].
    split; [done|by left].
Qed.

Lemma trace_run x sd k ins s :
  ready x -> unfed m r depth x -> env_run (loop_start x sd k) ins s ->
  loop_inv sd s /\ codec (rt (world s)) = codec x /\
  TInv (fun p => frames_of (codec x) p ins) (world s).
Proof.
  intros Hr Hx Hrun. induction Hrun as [|ins s i s' Hrun (Hinv & Hc & HI) Hnd Hen Henv Harm].
  - split_and!; [by apply loop_start_inv|apply start_codec|by apply trace_start].
  - split_and!.
    + pose proof (select_arm_inv sd i s Hinv Hen) as H'. by rewrite Harm in H'.
    + rewrite <- Hc, <- (select_arm_codec i s). by rewrite Harm.
    + pose proof (trace_arm (fun p => frames_of (codec x) p ins)
      (fun p => frames_of (codec x) p (ins ++ [i])) sd i s) as H'.
      rewrite Harm in H'. eapply H'; [|done|done|done|exact HI].
      intros p. unfold frames_of. rewrite map_app, concat_app. simpl. by rewrite Hc, app_nil_r.
Qed.

(** C2: Every book that leaves the runtime is a reconstruction.  Whatever arms are
    selected in whatever order, the levels of an emitted book are those reached from
    the empty book of its pair by a frame that replaces the whole book and then
    frames received for that pair, in order of arrival, each of them
    accepted by the pair's model; frames of other pairs, refused frames and partial
    updates never show in an emitted book.  (The environment answers a fetch with a
    snapshot, and sends none on the socket for a pair whose fetch is under way.) *)
Theorem emitted_books_reconstructed x sd k ins s i s' e p ts ob :
  ready x -> unfed m r depth x -> env_run (loop_start x sd k) ins s ->
  select_enabled i s -> env_ok i s -> select_arm i s = (s', e) ->
  EvBook p ts ob ∈ sent (world s') ->
  reconstructed m r depth p (frames_of (codec x) p (ins ++ [i])) ob.
Proof.
  intros Hr Hx Hrun Hen Henv Harm Hob.
  destruct (trace_run x sd k ins s Hr Hx Hrun) as (Hinv & Hc & HI).
  pose proof (trace_arm (fun p => frames_of (codec x) p ins)
      (fun p => frames_of (codec x) p (ins ++ [i])) sd i s) as H'.
  assert (sent_ok (fun p => frames_of (codec x) p (ins ++ [i])) (world s')) as Hs.
  { rewrite Harm in H'. destruct e; [apply TInv_sent|..];
      (eapply H'; [|done|done|done|exact HI]);
      intros q; unfold frames_of; rewrite map_app, concat_app; simpl; by rewrite Hc, app_nil_r. }
  unfold sent_ok in Hs. rewrite Forall_forall in Hs. exact (Hs _ Hob).
Qed.
End Refinement.

(** ** Runtimes as they are built, and a concrete run *)

Section Built.
Context {NU : Numeric} {CRC : Crc32} {UU : Uuid} {CL : Clocks} {NL : NumericLaws NU}.

Lemma new_books_elem c m r oob now ws p b :
  new_books c m r oob now ws !! p = Some b -> exists w t, b = PairBook_new p w m r oob t.
Proof.
  unfold new_books. generalize (imap (fun k w => (k, w)) ws). intros l.
  assert (forall bs : gmap TradingPair PairBook,
    (forall p b, bs !! p = Some b -> exists w t, b = PairBook_new p w m r oob t) ->
    forall p b, fold_left (fun bs kw => match decode c kw.2 with
                | None => bs
                | Some p => <[p := PairBook_new p kw.2 m r oob (now kw.1)]> bs end) l bs !! p = Some b ->
      exists w t, b = PairBook_new p w m r oob t) as Hl.
  { induction l as [|kw l IH]; intros bs Hbs; simpl; [done|]. apply IH.
    destruct (decode c kw.2) as [q|]; [|done]. intros p' b'. destruct (decide (p' = q)) as [->|Hne].
    - rewrite lookup_insert_eq. intros [= <-]. eauto.
    - rewrite lookup_insert_ne by done. apply Hbs. }
  apply Hl. intros p' b'. by rewrite lookup_empty.
Qed.

Lemma SourceRuntime_new_unfed ex c ws m r mx ds now depth :
  unfed m r depth (runtime_with_max_depth depth (SourceRuntime_new ex c ws m r mx ds now)).
Proof.
  intros p b. simpl. rewrite lookup_fmap.
  destruct (new_books _ _ _ _ _ _ !! p) as [b0|] eqn:E; [|done]. intros [= <-].
  apply new_books_elem in E as (w & t & ->). split_and!; [done..|]. simpl.
  unfold seeds_out_of_band, needs_rest. destruct (declared_contains DeclOrderbook ds).
  - destruct (snapshot_source m) as [[]|]; simpl; [by left|by left|by right..].
  - right. by rewrite !andb_false_r.
Qed.
End Built.

Section ConcreteTrace.
Local Existing Instance decimal_numeric.
Local Existing Instance ex_crc.
Local Existing Instance ex_uuid.
Local Existing Instance ex_clocks.

Definition ex_built : SourceRuntime := runtime_with_max_depth (Some 50) (ex_rt ex_binance declared_all).
Definition ex_trace_start : LoopState := loop_start ex_built true None.

(** A delta arrives before the fetch answers. *)
Definition ex_early : Input := InEvent (Model.Book (ex_frame false 10 8 [("99", "5")] [])).
Definition ex_early_state : LoopState := (select_arm ex_early ex_trace_start).1.
Definition ex_answer : Input := InSeed ex_task 5 (Ok ex_seed).

Definition continues (e : LoopEnd) : bool := match e with Continue => true | _ => false end.

Lemma ex_arm_continues i s :
  continues (select_arm i s).2 = true -> select_arm i s = ((select_arm i s).1, Continue).
Proof. destruct (select_arm i s) as [s' []]; done. Qed.

Definition book_first p (l : list ReconstructedEvent) : bool :=
  match l with EvBook q _ _ :: _ => bool_decide (q = p) | _ => false end.

Lemma ex_first_book l p : book_first p l = true -> exists ts ob, EvBook p ts ob ∈ l.
Proof.
  destruct l as [|[q ts ob|?|?|?|?] l]; try done. intros ->%bool_decide_eq_true.
  exists ts, ob. by left.
Qed.

Lemma emitted_books_reconstructed_witness :
  exists ts ob, EvBook ex_pair ts ob ∈ sent (world (select_arm ex_answer ex_early_state).1) /\
    reconstructed ex_binance (recovery_action ex_binance) (Some 50) ex_pair
      (frames_of (codec ex_built) ex_pair [ex_early; ex_answer]) ob.
Proof.
  assert (continues (select_arm ex_early ex_trace_start).2 = true) as H1 by (vm_compute; reflexivity).
  assert (loop_done ex_trace_start = false) as H2 by (vm_compute; reflexivity).
  assert (spawned (world ex_early_state) = [ex_task]) as H3 by (vm_compute; reflexivity).
  assert (env_run ex_trace_start [ex_early] ex_early_state) as Hrun.
  { refine (env_step ex_trace_start [] ex_trace_start ex_early ex_early_state (env_start _) H2 _ _
              (ex_arm_continues ex_early ex_trace_start H1)); [unfold ex_early, select_enabled; reflexivity|].
    intros Hf. vm_compute in Hf. discriminate Hf. }
  assert (book_first ex_pair (sent (world (select_arm ex_answer ex_early_state).1)) = true) as H4
    by (vm_compute; reflexivity).
  destruct (ex_first_book _ _ H4) as (ts & ob & Hin). exists ts, ob. split; [exact Hin|].
  assert (ready ex_built) as Hr.
  { exact (proj1 (builders_ready _ (Some 50) ∅ [] [] (ex_ready ex_binance declared_all))). }
  assert (unfed ex_binance (recovery_action ex_binance) (Some 50) ex_built) as Hu by
    apply SourceRuntime_new_unfed.
  assert (select_enabled ex_answer ex_early_state) as Hen.
  { unfold select_enabled, ex_answer. rewrite H3. by left. }
  refine (emitted_books_reconstructed ex_binance (recovery_action ex_binance) (Some 50) ex_built true
    None [ex_early] ex_early_state ex_answer _ _ ex_pair ts ob Hr Hu Hrun Hen eq_refl
    (surjective_pairing _) Hin).
Defined.
End ConcreteTrace.
