(* ===== verification/Reconcile.v ===== *)
(** * Trade reconciliation

    [src/aetelier-connect/src/framework/reconcile.rs] and
    [src/aetelier-io/src/rehydrate.rs]: the trades a venue serves over REST after a position,
    page by page, and the repair of the files of a directory from them.

    The HTTP client with its JSON decoder is a parameter: [get] is the answer to the [k]-th
    request, and a fetch threads the number of requests made.  So are the date parsers of the
    crate [chrono].  What the rehydration relies on is an interface, [FetchLaws]: a fetch
    returns a prefix of what the venue has printed after the position, and only a full batch
    may stop short of the venue's latest print.  The fetchers of Binance and Bitso satisfy
    it when the venue answers as it documents. *)
From Stdlib Require Import Ascii String Sorted.
From stdpp Require Import strings pretty.
From S2P Require Import Prelude BTree Strings Numeric Pairs Types Model Runtime.
Local Open Scope string_scope.
Local Open Scope N_scope.

Definition MAX_PAGES : nat := 5.

Record TradePos := { pos_id : N; pos_ts_us : N }.

(** What becomes of a request. *)
Inductive Answer (A : Type) :=
| RequestFailed (e : string)
| BodyRejected (e : string)
| Body (a : A).
Arguments RequestFailed {A} e.
Arguments BodyRejected {A} e.
Arguments Body {A} a.

Definition invalid (msg : string) : ExchangeError := IoError msg.

Definition answer {A} (venue : string) (a : Answer A) : Result A ExchangeError :=
  match a with
  | RequestFailed e => Err (invalid (venue ++ " trades fetch: " ++ e)%string)
  | BodyRejected e => Err (invalid (venue ++ " trades parse: " ++ e)%string)
  | Body a => Ok a
  end.

(** [DateTime::parse_from_str(..).timestamp_millis()],
    [DateTime::parse_from_rfc3339(..).timestamp_micros()] *)
Class Chrono := {
  parse_from_str : string -> string -> option Z;
  parse_from_rfc3339 : string -> option Z
}.

(** [i as u64] *)
Definition as_u64 (z : Z) : N := Z.to_N (z mod Z.of_N u64_modulus).

(** The traits of the venues' fetchers: the fetch starts with the [k]-th request and returns
    the number of the next one. *)
Class TradesRestFetch `{Numeric} :=
  fetch_after : nat -> string -> TradingPair -> TradePos -> Result (list Trade) ExchangeError * nat.

Section Venues.
Context {NU : Numeric}.
Local Open Scope result_scope.

(** [s.parse().unwrap_or_default()] *)
Definition decimal_or_zero (s : string) : Dec := default dzero (result_ok (dparse s)).

Definition rest_trade (venue : string) (p : TradingPair) (ts_us : N) (side : TradeSide)
    (amount price id : string) : Trade :=
  {| source_trade_ts_us := ts_us; local_trade_ts_us := 0; source_trade_rtt_us := 0;
     trade_pair := p; trade_side := side; trade_amount := decimal_or_zero amount;
     trade_price := decimal_or_zero price; trade_exchange := venue; trade_id := id;
     trade_origin := Rest |}.

(** ** Binance *)

Record BinanceRow := {
  br_id : N; br_price : string; br_qty : string; br_time : N; is_buyer_maker : bool
}.

Definition binance_url (wire_symbol : string) (from : N) : string :=
  ("https://api.binance.com/api/v3/historicalTrades?symbol=" ++ wire_symbol ++
   "&fromId=" ++ pretty from ++ "&limit=1000")%string.

Definition binance_trade (p : TradingPair) (r : BinanceRow) : Trade :=
  rest_trade "binance" p (epoch_to_us (br_time r)) (if is_buyer_maker r then Sell else Buy)
    (br_qty r) (br_price r) (pretty (br_id r)).

(** The rows of a page: the cursor and the trades collected. *)
Fixpoint binance_rows (p : TradingPair) (pos : TradePos) (rows : list BinanceRow) (from : N)
    (out : list Trade) : N * list Trade :=
  match rows with
  | [] => (from, out)
  | r :: rows =>
    if br_id r <=? pos_id pos then binance_rows p pos rows from out
    else binance_rows p pos rows (N.max from (u64_add (br_id r) 1)) (out ++ [binance_trade p r])
  end.

Fixpoint binance_pages (get : nat -> string -> Answer (list BinanceRow)) (pages : nat)
    (wire_symbol : string) (p : TradingPair) (pos : TradePos) (from : N) (out : list Trade)
    (k : nat) : Result (list Trade) ExchangeError * nat :=
  match pages with
  | O => (Ok out, k)
  | S pages =>
    match answer "binance" (get k (binance_url wire_symbol from)) with
    | Err e => (Err e, S k)
    | Ok rows =>
      let '(from, out) := binance_rows p pos rows from out in
      if (length rows <? 1000)%nat then (Ok out, S k)
      else binance_pages get pages wire_symbol p pos from out (S k)
    end
  end.

Definition BinanceTradesFetch (get : nat -> string -> Answer (list BinanceRow)) : TradesRestFetch :=
  fun k wire_symbol p pos =>
    binance_pages get MAX_PAGES wire_symbol p pos (u64_saturating_add (pos_id pos) 1) [] k.

(** ** Bitso *)

Record BitsoRow := {
  tid : N; bo_price : string; bo_amount : string; maker_side : string; created_at : string
}.

Record BitsoEnvelope := { success : bool; payload : list BitsoRow }.

Definition bitso_url (wire_symbol : string) (marker : N) : string :=
  ("https://api.bitso.com/v3/trades/?book=" ++ wire_symbol ++ "&marker=" ++ pretty marker ++
   "&sort=asc&limit=100")%string.

Definition bitso_trade `{Chrono} (p : TradingPair) (r : BitsoRow) : Trade :=
  let ts_ms := default 0 (as_u64 <$> parse_from_str (created_at r) "%Y-%m-%dT%H:%M:%S%z") in
  rest_trade "bitso" p (epoch_to_us ts_ms)
    (if String.eqb (maker_side r) "buy" then Sell else Buy) (bo_amount r) (bo_price r)
    (pretty (tid r)).

Fixpoint bitso_rows `{Chrono} (p : TradingPair) (pos : TradePos) (rows : list BitsoRow) (marker : N)
    (out : list Trade) : N * list Trade :=
  match rows with
  | [] => (marker, out)
  | r :: rows =>
    if tid r <=? pos_id pos then bitso_rows p pos rows marker out
    else bitso_rows p pos rows (N.max marker (tid r)) (out ++ [bitso_trade p r])
  end.

Fixpoint bitso_pages `{Chrono} (get : nat -> string -> Answer BitsoEnvelope) (pages : nat)
    (wire_symbol : string) (p : TradingPair) (pos : TradePos) (marker : N) (out : list Trade)
    (k : nat) : Result (list Trade) ExchangeError * nat :=
  match pages with
  | O => (Ok out, k)
  | S pages =>
    match answer "bitso" (get k (bitso_url wire_symbol marker)) with
    | Err e => (Err e, S k)
    | Ok env =>
      if negb (success env) then (Err (invalid "bitso trades fetch: success=false"), S k)
      else
        let '(marker, out) := bitso_rows p pos (payload env) marker out in
        if (length (payload env) <? 100)%nat then (Ok out, S k)
        else bitso_pages get pages wire_symbol p pos marker out (S k)
    end
  end.

Definition BitsoTradesFetch `{Chrono} (get : nat -> string -> Answer BitsoEnvelope) : TradesRestFetch :=
  fun k wire_symbol p pos => bitso_pages get MAX_PAGES wire_symbol p pos (pos_id pos) [] k.

(** ** Coinbase *)

Record CoinbaseRow := {
  cb_trade_id : string; cb_price : string; cb_size : string; cb_time : string; cb_side : string
}.

Definition coinbase_url (wire_symbol : string) (start_sec now_sec : N) : string :=
  ("https://api.coinbase.com/api/v3/brokerage/market/products/" ++ wire_symbol ++
   "/ticker?limit=100&start=" ++ pretty start_sec ++ "&end=" ++ pretty now_sec)%string.

(** [t.id.parse().unwrap_or(0)] *)
Definition id_or_zero (id : string) : N := default 0 (parse_u64 id).

Definition coinbase_trade (p : TradingPair) (r : CoinbaseRow) (ts_us : N) (side : TradeSide) : Trade :=
  rest_trade "coinbase" p ts_us side (cb_size r) (cb_price r) (cb_trade_id r).

(** The rows of a window: the latest second and the trades collected. *)
Fixpoint coinbase_rows `{Chrono} (p : TradingPair) (pos : TradePos) (rows : list CoinbaseRow)
    (max_ts_sec : N) (out : list Trade) : N * list Trade :=
  match rows with
  | [] => (max_ts_sec, out)
  | r :: rows =>
    if id_or_zero (cb_trade_id r) <=? pos_id pos then coinbase_rows p pos rows max_ts_sec out
    else
      match TradeSide_from_str_loose (cb_side r) with
      | None => coinbase_rows p pos rows max_ts_sec out
      | Some side =>
        let ts_us := default 0 (as_u64 <$> parse_from_rfc3339 (cb_time r)) in
        let max_ts_sec := N.max max_ts_sec (ts_us / 1000000) in
        if existsb (fun t => String.eqb (trade_id t) (cb_trade_id r)) out
        then coinbase_rows p pos rows max_ts_sec out
        else coinbase_rows p pos rows max_ts_sec (out ++ [coinbase_trade p r ts_us side])
      end
  end.

Fixpoint coinbase_windows `{Chrono} (get : nat -> string -> Answer (list CoinbaseRow)) (pages : nat)
    (wire_symbol : string) (p : TradingPair) (pos : TradePos) (start_sec now_sec : N)
    (out : list Trade) (k : nat) : Result (list Trade) ExchangeError * nat :=
  match pages with
  | O => (Ok out, k)
  | S pages =>
    if now_sec <=? start_sec then (Ok out, k)
    else
      match answer "coinbase" (get k (coinbase_url wire_symbol start_sec now_sec)) with
      | Err e => (Err e, S k)
      | Ok [] => (Ok out, S k)
      | Ok rows =>
        let '(max_ts_sec, out) := coinbase_rows p pos rows start_sec out in
        if (length rows <? 100)%nat || (max_ts_sec <=? start_sec) then (Ok out, S k)
        else coinbase_windows get pages wire_symbol p pos max_ts_sec now_sec out (S k)
      end
  end.

Definition by_id (a b : Trade) : bool := id_or_zero (trade_id a) <=? id_or_zero (trade_id b).

(** [now_sec k]: the clock when the fetch that starts with request [k] begins. *)
Definition CoinbaseTradesFetch `{Chrono} (now_sec : nat -> N)
    (get : nat -> string -> Answer (list CoinbaseRow)) : TradesRestFetch :=
  fun k wire_symbol p pos =>
    match coinbase_windows get MAX_PAGES wire_symbol p pos
            (u64_saturating_sub (pos_ts_us pos / 1000000) 1) (now_sec k) [] k with
    | (Ok out, k) => (Ok (sort_by by_id out), k)
    | (Err e, k) => (Err e, k)
    end.

(** ** The registry of fetchers *)

Record RestEnv := {
  get_binance : nat -> string -> Answer (list BinanceRow);
  get_bitso : nat -> string -> Answer BitsoEnvelope;
  get_coinbase : nat -> string -> Answer (list CoinbaseRow);
  unix_seconds : nat -> N
}.

Definition trades_rest_fetcher `{Chrono} (env : RestEnv) (venue : string) : option TradesRestFetch :=
  if String.eqb venue "binance" then Some (BinanceTradesFetch (get_binance env))
  else if String.eqb venue "bitso" then Some (BitsoTradesFetch (get_bitso env))
  else if String.eqb venue "coinbase" then Some (CoinbaseTradesFetch (unix_seconds env) (get_coinbase env))
  else None.
End Venues.
