(* ===== verification/ReconcileProps.v ===== *)
(** * The fetchers page exactly

    The interface [FetchLaws] between the fetchers and their clients, the reference pager
    both id-anchored fetchers refine, and the proof that they satisfy the interface when the
    venue answers as it documents. *)
From Stdlib Require Import Ascii String Sorted.
From stdpp Require Import strings pretty.
From S2P Require Import Prelude BTree Strings Numeric Pairs Types Model Runtime Reconcile.
Local Open Scope list_scope.
Local Open Scope N_scope.

(** ** Reading an ascending log page by page *)

Section Paging.
Context {R : Type} (key : R -> N).
Implicit Types (l out rows : list R) (c : N).

Definition ascending l : Prop := StronglySorted (fun a b => key a < key b) l.

(** The rows after a position. *)
Definition above c l : list R := List.filter (fun r => c <? key r) l.

(** The position the rows read so far lead to. *)
Definition cursor c out : N := default c (key <$> list.last out).

Lemma above_all c l : Forall (fun r => c < key r) l -> above c l = l.
Proof.
  induction 1 as [|r l Hr _ IH]; simpl; [done|]. apply N.ltb_lt in Hr. by rewrite Hr, IH.
Qed.

Lemma above_none c l : Forall (fun r => key r <= c) l -> above c l = [].
Proof.
  induction 1 as [|r l Hr _ IH]; simpl; [done|]. apply N.ltb_ge in Hr. by rewrite Hr.
Qed.

Lemma above_above c c' l : c <= c' -> above c' (above c l) = above c' l.
Proof.
  intros Hc. induction l as [|r l IH]; simpl; [done|].
  destruct (c <? key r) eqn:E; simpl; [by rewrite IH|]. apply N.ltb_ge in E.
  destruct (c' <? key r) eqn:E'; [|done]. apply N.ltb_lt in E'. lia.
Qed.

Lemma above_app c l l' : above c (l ++ l') = above c l ++ above c l'.
Proof. apply List.filter_app. Qed.

Lemma above_in c l : Forall (fun r => c < key r) (above c l).
Proof.
  induction l as [|r l IH]; simpl; [constructor|]. case_match eqn:E; [|done].
  constructor; [by apply N.ltb_lt|done].
Qed.

Lemma above_prefix c l l' : l `prefix_of` l' -> above c l `prefix_of` above c l'.
Proof. intros [k ->]. rewrite above_app. by exists (above c k). Qed.

Lemma ascending_above c l : ascending l -> ascending (above c l).
Proof.
  induction 1 as [|r l Hl IH Hr]; simpl; [constructor|]. case_match; [|done].
  constructor; [done|]. rewrite Forall_forall in *. intros x Hx. apply Hr.
  by apply list_elem_of_In, filter_In in Hx as [Hx%list_elem_of_In _].
Qed.

Lemma ascending_app l l' :
  ascending (l ++ l') -> ascending l /\ ascending l' /\
  Forall (fun a => Forall (fun b => key a < key b) l') l.
Proof.
  induction l as [|r l IH]; simpl; [by repeat constructor|].
  intros [H Hr]%StronglySorted_inv. destruct (IH H) as (? & ? & ?).
  apply Forall_app in Hr as [? ?]. split_and!; [by constructor|done|by constructor].
Qed.

Lemma cursor_snoc c l r : cursor c (l ++ [r]) = key r.
Proof. unfold cursor. by rewrite last_snoc. Qed.

Lemma cursor_app c l l' : cursor (cursor c l) l' = cursor c (l ++ l').
Proof.
  destruct l' as [|r l' _] using rev_ind; [by rewrite app_nil_r|].
  by rewrite app_assoc, !cursor_snoc.
Qed.

Lemma above_cursor c out l :
  ascending l -> out `prefix_of` above c l ->
  above (cursor c out) l = drop (length out) (above c l).
Proof.
  intros Ha [rest E]. pose proof (ascending_above c l Ha) as Hs. pose proof (above_in c l) as Hin.
  rewrite E in *. rewrite drop_app_length.
  destruct out as [|r out _] using rev_ind; [done|]. rewrite cursor_snoc.
  apply Forall_app in Hin as [Hin _]. apply Forall_app in Hin as [_ Hr].
  rewrite Forall_singleton in Hr.
  rewrite <- (above_above c); [rewrite E|simpl in Hr; lia]. apply ascending_app in Hs as (Hs & _ & Hlt).
  apply ascending_app in Hs as (_ & _ & Hout).
  apply Forall_app in Hlt as [_ Hlt]. rewrite Forall_singleton in Hlt. rewrite above_app, above_none, above_all; [done|done|].
  apply Forall_app. split; [|by constructor].
  eapply Forall_impl; [exact Hout|]. intros x Hx. rewrite Forall_singleton in Hx. lia.
Qed.

(** The reference: pages of [limit] rows from a position on, until a page is short. *)
Fixpoint pager {E} (limit : nat) (request : nat -> N -> Result (list R) E) (pages : nat) c out
    (k : nat) : Result (list R) E * nat :=
  match pages with
  | O => (Ok out, k)
  | S pages =>
    match request k c with
    | Err e => (Err e, S k)
    | Ok rows =>
      if (length rows <? limit)%nat then (Ok (out ++ rows), S k)
      else pager limit request pages (cursor c rows) (out ++ rows) (S k)
    end
  end.

Lemma pager_spec {E} limit (request : nat -> N -> Result (list R) E) (printed : nat -> list R) c :
  (forall k, ascending (printed k)) ->
  (forall j k, (j <= k)%nat -> printed j `prefix_of` printed k) ->
  (forall k c rows, request k c = Ok rows -> rows = take limit (above c (printed k))) ->
  forall pages out k j l k',
    out `prefix_of` above c (printed j) -> (j <= k)%nat -> (pages = 0 -> j < k)%nat ->
    pager limit request pages (cursor c out) out k = (Ok l, k') ->
    exists j', (j <= j' < k')%nat /\ (k <= k')%nat /\ l `prefix_of` above c (printed j') /\
      ((length l < length out + pages * limit)%nat -> l = above c (printed j')).
Proof.
  intros Hasc Hgrow Hreq. induction pages as [|pages IH]; intros out k j l k' Hout Hjk Hp; cbn [pager].
  { intros [= <- <-]. exists j. split_and!; [lia|by apply Hp|lia|done|lia]. }
  destruct (request k _) as [rows|e] eqn:Er; [|done]. apply Hreq in Er.
  assert (out `prefix_of` above c (printed k)) as Hout'.
  { etrans; [exact Hout|]. by apply above_prefix, Hgrow. }
  rewrite (above_cursor c out) in Er by done.
  assert (out ++ drop (length out) (above c (printed k)) = above c (printed k)) as Hsplit.
  { destruct Hout' as [rest ->]. by rewrite drop_app_length. }
  assert (out ++ rows `prefix_of` above c (printed k)) as Hnext.
  { exists (drop limit (drop (length out) (above c (printed k)))).
    by rewrite <- app_assoc, Er, take_drop. }
  case_match eqn:El; reflect_bools.
  - intros [= <- <-]. exists k. split_and!; [lia|lia|lia|done|]. intros _.
    rewrite <- Hsplit. f_equal. rewrite Er. apply take_ge.
    rewrite Er, length_take in El. lia.
  - rewrite cursor_app. intros H. destruct (IH _ (S k) k l k' Hnext ltac:(lia) ltac:(lia) H)
      as (j' & ? & ? & ? & Hl). exists j'. split_and!; [lia|lia|lia|done|]. intros Hlt. apply Hl.
    rewrite length_app. assert (length rows = limit); [|lia].
    apply (f_equal length) in Er. rewrite length_take in Er. lia.
Qed.
End Paging.

(** ** The interface of a fetcher *)

Section Interface.
Context {NU : Numeric}.

Definition trade_num (t : Trade) : N := id_or_zero (trade_id t).

(** [log k]: what the venue has printed when it answers request [k]; [cap]: the size of a
    full batch. *)
Class FetchLaws (fetch : TradesRestFetch) (wire : string) (p : TradingPair) (cap : nat)
    (log : nat -> list Trade) : Prop := {
  log_ascending k : ascending trade_num (log k);
  log_grows j k : (j <= k)%nat -> log j `prefix_of` log k;
  log_numbered k :
    Forall (fun t => parse_u64 (trade_id t) = Some (trade_num t) /\ trade_num t < u64_max) (log k);
  fetch_served k pos l k' :
    pos_id pos < u64_max -> fetch k wire p pos = (Ok l, k') ->
    exists j, (k <= j < k')%nat /\ l `prefix_of` above trade_num (pos_id pos) (log j) /\
      ((length l < cap)%nat -> l = above trade_num (pos_id pos) (log j))
}.

Lemma trade_num_pretty venue p ts side amount price n :
  is_u64 n ->
  parse_u64 (trade_id (rest_trade venue p ts side amount price (pretty n))) = Some n /\
  trade_num (rest_trade venue p ts side amount price (pretty n)) = n.
Proof. intros Hn. unfold trade_num, id_or_zero. simpl. by rewrite parse_u64_pretty. Qed.
End Interface.

(** The prints of a venue: ascending, only ever extended, with identifiers below the last
    [u64]. *)
Record printed_log {R} (key : R -> N) (printed : nat -> list R) : Prop := {
  printed_ascending k : ascending key (printed k);
  printed_grows j k : (j <= k)%nat -> printed j `prefix_of` printed k;
  printed_small k : Forall (fun r => key r < u64_max) (printed k)
}.

Section Convert.
Context {NU : Numeric} {R : Type} (key : R -> N) (T : R -> Trade).
Hypothesis T_id : forall r, trade_id (T r) = pretty (key r).

Lemma trade_num_convert r : key r < u64_max -> trade_num (T r) = key r.
Proof.
  intros Hr. unfold trade_num, id_or_zero. rewrite T_id, parse_u64_pretty; [done|].
  unfold is_u64, u64_max, u64_modulus in *. lia.
Qed.

Lemma above_convert c l :
  Forall (fun r => key r < u64_max) l -> above trade_num c (map T l) = map T (above key c l).
Proof.
  induction 1 as [|r l Hr _ IH]; simpl; [done|]. rewrite trade_num_convert by done.
  case_match; simpl; by rewrite IH.
Qed.

Lemma ascending_convert l :
  Forall (fun r => key r < u64_max) l -> ascending key l -> ascending trade_num (map T l).
Proof.
  intros Hs Ha. induction Ha as [|r l Hl IH Hr]; simpl; [constructor|].
  apply Forall_cons in Hs as [Hr' Hs]. constructor; [by apply IH|].
  apply List.Forall_map, Forall_forall. intros x Hx. rewrite Forall_forall in Hr, Hs.
  rewrite !trade_num_convert; auto.
Qed.

Lemma prefix_map (l l' : list R) : l `prefix_of` l' -> map T l `prefix_of` map T l'.
Proof. intros [k ->]. rewrite map_app. by exists (map T k). Qed.

(** A fetcher that refines the reference pager satisfies the interface. *)
Lemma pager_fetch_laws (fetch : TradesRestFetch) wire p limit (printed : nat -> list R)
    (request : nat -> N -> Result (list R) ExchangeError) :
  printed_log key printed ->
  (forall k c rows, request k c = Ok rows -> rows = take limit (above key c (printed k))) ->
  (forall k pos l k', pos_id pos < u64_max -> fetch k wire p pos = (Ok l, k') ->
     exists rows, l = map T rows /\
       pager key limit request MAX_PAGES (pos_id pos) [] k = (Ok rows, k')) ->
  FetchLaws fetch wire p (MAX_PAGES * limit) (fun k => map T (printed k)).
Proof.
  intros [Hasc Hgrow Hsmall] Hreq Href. split.
  - intros k. by apply ascending_convert.
  - intros j k Hjk. by apply prefix_map, Hgrow.
  - intros k. apply List.Forall_map. eapply Forall_impl; [apply Hsmall|]. intros r Hr. simpl.
    rewrite trade_num_convert, T_id by done. split; [|done]. apply parse_u64_pretty.
    unfold is_u64, u64_max, u64_modulus in *. lia.
  - intros k pos l k' Hpos Hf. destruct (Href k pos l k' Hpos Hf) as (rows & -> & Hp).
    destruct (pager_spec key limit request printed (pos_id pos) Hasc Hgrow Hreq
                MAX_PAGES [] k k rows k' ltac:(apply prefix_nil) ltac:(lia) ltac:(done) Hp)
      as (j & Hj & _ & Hpre & Hl).
    exists j. rewrite above_convert by apply Hsmall. split; [lia|]. split; [by apply prefix_map|].
    rewrite length_map. intros Hlt. by rewrite Hl.
Qed.
End Convert.

(** The pages a venue serves are ascending, beyond the cursor and within the width. *)
Lemma served_rows {R} (key : R -> N) printed limit c k :
  printed_log key printed ->
  let rows := take limit (above key c (printed k)) in
  ascending key rows /\ Forall (fun r => c < key r) rows /\ Forall (fun r => key r < u64_max) rows.
Proof.
  intros [Hasc _ Hsmall]. simpl.
  pose proof (take_drop limit (above key c (printed k))) as E. split_and!.
  - pose proof (ascending_above key c _ (Hasc k)) as H. rewrite <- E in H.
    by apply ascending_app in H as [? _].
  - apply Forall_take, above_in.
  - apply Forall_take. apply Forall_forall. intros r Hr%list_elem_of_In%filter_In.
    pose proof (Hsmall k) as H. rewrite Forall_forall in H. apply H, list_elem_of_In, Hr.
Qed.

(** ** Binance and Bitso refine the reference pager *)

Section Venues.
Context {NU : Numeric}.

Definition pages_of {R} (T : R -> Trade) (x : Result (list R) ExchangeError * nat)
    : Result (list Trade) ExchangeError * nat :=
  match x with (Ok l, k) => (Ok (map T l), k) | (Err e, k) => (Err e, k) end.

(** [historicalTrades] returns the oldest 1000 trades from an identifier on. *)
Definition binance_serves (wire : string) (printed : nat -> list BinanceRow)
    (get : nat -> string -> Answer (list BinanceRow)) : Prop :=
  forall k from rows, get k (binance_url wire from) = Body rows ->
    rows = take 1000 (List.filter (fun r => from <=? br_id r) (printed k)).

Definition binance_request (get : nat -> string -> Answer (list BinanceRow)) (wire : string)
    (k : nat) (c : N) : Result (list BinanceRow) ExchangeError :=
  answer "binance" (get k (binance_url wire (c + 1))).

Lemma binance_request_serves wire printed get k c rows :
  binance_serves wire printed get -> binance_request get wire k c = Ok rows ->
  rows = take 1000 (above br_id c (printed k)).
Proof.
  unfold binance_request. intros Hs. destruct (get k _) eqn:E; simpl; try done. intros [= <-].
  apply Hs in E. rewrite E. unfold above. f_equal. apply filter_ext. intros r.
  destruct (N.leb_spec (c + 1) (br_id r)), (N.ltb_spec c (br_id r)); lia || done.
Qed.

Lemma binance_rows_cursor p pos rows c out :
  pos_id pos <= c -> ascending br_id rows -> Forall (fun r => c < br_id r) rows ->
  Forall (fun r => br_id r < u64_max) rows ->
  binance_rows p pos rows (c + 1) out =
  (cursor br_id c rows + 1, out ++ map (binance_trade p) rows).
Proof.
  intros Hc Ha. revert c out Hc.
  induction Ha as [|r rows Ha IH Hr]; intros c out Hc Hin Hsmall; simpl.
  - by rewrite app_nil_r.
  - apply Forall_cons in Hin as [Hcr Hin]. apply Forall_cons in Hsmall as [Hs Hsmall].
    destruct (N.leb_spec (br_id r) (pos_id pos)) as [?|_]; [lia|].
    rewrite u64_add_small by (unfold u64_max, u64_modulus in *; lia).
    replace (N.max (c + 1) (br_id r + 1)) with (br_id r + 1) by lia.
    rewrite IH; [|lia|done|done]. rewrite <- app_assoc. by rewrite (cursor_app br_id c [r] rows : cursor br_id (br_id r) rows = _).
Qed.

Lemma binance_pages_pager wire printed get p pos :
  printed_log br_id printed -> binance_serves wire printed get ->
  forall pages c out k, pos_id pos <= c ->
    binance_pages get pages wire p pos (c + 1) (map (binance_trade p) out) k =
    pages_of (binance_trade p) (pager br_id 1000 (binance_request get wire) pages c out k).
Proof.
  intros Hlog Hs. induction pages as [|pages IH]; intros c out k Hc; cbn [binance_pages pager]; [done|].
  fold (binance_request get wire k c).
  destruct (binance_request get wire k c) as [rows|e] eqn:Er; [|done].
  pose proof (binance_request_serves _ _ _ _ _ _ Hs Er) as ->.
  destruct (served_rows br_id printed 1000 c k Hlog) as (Ha & Hin & Hsmall).
  rewrite binance_rows_cursor by done. rewrite <- map_app.
  case_match; [done|]. apply IH. destruct (take _ _) as [|r rows _] using rev_ind; [done|].
  rewrite cursor_snoc. rewrite Forall_app, Forall_singleton in Hin. lia.
Qed.

Lemma saturating_succ n : n < u64_max -> u64_saturating_add n 1 = n + 1.
Proof. unfold u64_saturating_add. lia. Qed.

(** The fetcher of Binance satisfies the interface. *)
Lemma binance_laws wire p printed get
    (Hlog : printed_log br_id printed) (Hs : binance_serves wire printed get) :
  FetchLaws (BinanceTradesFetch get) wire p 5000 (fun k => map (binance_trade p) (printed k)).
Proof.
  apply (pager_fetch_laws br_id (binance_trade p) (fun _ => eq_refl) _ wire p 1000 printed
           (binance_request get wire) Hlog).
  - intros k c rows. by apply binance_request_serves.
  - intros k pos l k' Hpos. unfold BinanceTradesFetch. rewrite saturating_succ by done.
    change (@nil Trade) with (map (binance_trade p) []).
    rewrite (binance_pages_pager wire printed) by done.
    destruct (pager _ _ _ _ _ _ _) as [[rows|e] k1]; simpl; intros [= <- <-].
    by exists rows.
Qed.

Context {CH : Chrono}.

(** [trades] with [marker] and [sort=asc] returns the oldest 100 trades after the marker. *)
Definition bitso_serves (wire : string) (printed : nat -> list BitsoRow)
    (get : nat -> string -> Answer BitsoEnvelope) : Prop :=
  forall k marker env, get k (bitso_url wire marker) = Body env -> success env = true ->
    payload env = take 100 (above tid marker (printed k)).

Definition bitso_request (get : nat -> string -> Answer BitsoEnvelope) (wire : string)
    (k : nat) (c : N) : Result (list BitsoRow) ExchangeError :=
  match answer "bitso" (get k (bitso_url wire c)) with
  | Err e => Err e
  | Ok env => if success env then Ok (payload env)
              else Err (invalid "bitso trades fetch: success=false")
  end.

Lemma bitso_request_serves wire printed get k c rows :
  bitso_serves wire printed get -> bitso_request get wire k c = Ok rows ->
  rows = take 100 (above tid c (printed k)).
Proof.
  unfold bitso_request. intros Hs. destruct (get k _) as [|?|env] eqn:E; simpl; try done.
  destruct (success env) eqn:Eok; [|done]. intros [= <-]. by apply Hs.
Qed.

Lemma bitso_rows_cursor p pos rows c out :
  pos_id pos <= c -> ascending tid rows -> Forall (fun r => c < tid r) rows ->
  bitso_rows p pos rows c out = (cursor tid c rows, out ++ map (bitso_trade p) rows).
Proof.
  intros Hc Ha. revert c out Hc. induction Ha as [|r rows Ha IH Hr]; intros c out Hc Hin; simpl.
  - by rewrite app_nil_r.
  - apply Forall_cons in Hin as [Hcr Hin].
    destruct (N.leb_spec (tid r) (pos_id pos)) as [?|_]; [lia|].
    replace (N.max c (tid r)) with (tid r) by lia.
    rewrite IH; [|lia|done]. rewrite <- app_assoc. by rewrite (cursor_app tid c [r] rows : cursor tid (tid r) rows = _).
Qed.

Lemma bitso_pages_pager wire printed get p pos :
  printed_log tid printed -> bitso_serves wire printed get ->
  forall pages c out k, pos_id pos <= c ->
    bitso_pages get pages wire p pos c (map (bitso_trade p) out) k =
    pages_of (bitso_trade p) (pager tid 100 (bitso_request get wire) pages c out k).
Proof.
  intros Hlog Hs. induction pages as [|pages IH]; intros c out k Hc; cbn [bitso_pages pager]; [done|].
  pose proof (bitso_request_serves wire printed get k c) as Hreq. unfold bitso_request in *.
  destruct (answer "bitso" _) as [env|e]; [|done].
  destruct (success env); [|done]. cbn [negb]. specialize (Hreq _ Hs eq_refl).
  destruct (served_rows tid printed 100 c k Hlog) as (Ha & Hin & _). rewrite <- Hreq in Ha, Hin.
  rewrite bitso_rows_cursor by done. rewrite <- map_app.
  case_match; [done|]. apply IH. destruct (payload env) as [|r rows _] using rev_ind; [done|].
  rewrite cursor_snoc. rewrite Forall_app, Forall_singleton in Hin. lia.
Qed.

(** So does the fetcher of Bitso. *)
Lemma bitso_laws wire p printed get
    (Hlog : printed_log tid printed) (Hs : bitso_serves wire printed get) :
  FetchLaws (BitsoTradesFetch get) wire p 500 (fun k => map (bitso_trade p) (printed k)).
Proof.
  apply (pager_fetch_laws tid (bitso_trade p) (fun _ => eq_refl) _ wire p 100 printed
           (bitso_request get wire) Hlog).
  - intros k c rows. by apply bitso_request_serves.
  - intros k pos l k' Hpos. unfold BitsoTradesFetch.
    change (@nil Trade) with (map (bitso_trade p) []).
    rewrite (bitso_pages_pager wire printed) by done.
    destruct (pager _ _ _ _ _ _ _) as [[rows|e] k1]; simpl; intros [= <- <-].
    by exists rows.
Qed.

(** C24: when Binance and Bitso answer as they document - each page the oldest thousand trades from
    an identifier on, the oldest hundred after a marker - then, whatever is printed between the
    pages, a fetch that succeeds returns, converted and in order, an initial part of what the venue
    had printed after the position, without a gap or a repetition, and all of it unless all five pages
    came back full. *)
Theorem fetch_after_exact wire p printed get printed' get' k pos l k'
    (Hb : printed_log br_id printed) (Hbs : binance_serves wire printed get)
    (Ho : printed_log tid printed') (Hos : bitso_serves wire printed' get')
    (Hpos : pos_id pos < u64_max) :
  ((BinanceTradesFetch get) k wire p pos = (Ok l, k') ->
   exists j, (k <= j < k')%nat /\
     l `prefix_of` map (binance_trade p) (above br_id (pos_id pos) (printed j)) /\
     ((length l < 5000)%nat -> l = map (binance_trade p) (above br_id (pos_id pos) (printed j)))) /\
  ((BitsoTradesFetch get') k wire p pos = (Ok l, k') ->
   exists j, (k <= j < k')%nat /\
     l `prefix_of` map (bitso_trade p) (above tid (pos_id pos) (printed' j)) /\
     ((length l < 500)%nat -> l = map (bitso_trade p) (above tid (pos_id pos) (printed' j)))).
Proof.
  split; intros H.
  - destruct (fetch_served (FetchLaws := binance_laws wire p printed get Hb Hbs) k pos l k' Hpos H)
      as (j & Hj & Hl). exists j. split; [done|].
    rewrite (above_convert br_id) in Hl; [exact Hl|done|apply Hb].
  - destruct (fetch_served (FetchLaws := bitso_laws wire p printed' get' Ho Hos) k pos l k' Hpos H)
      as (j & Hj & Hl). exists j. split; [done|].
    rewrite (above_convert tid) in Hl; [exact Hl|done|apply Ho].
Qed.
End Venues.

(** ** Coinbase *)

Section Coinbase.
Context {NU : Numeric} {CH : Chrono}.

Definition new_prints (pos : TradePos) (out : list Trade) : Prop :=
  Forall (fun t => pos_id pos < trade_num t) out /\ NoDup (trade_id <$> out).

Lemma coinbase_rows_new p pos rows max_ts_sec out :
  new_prints pos out -> new_prints pos (coinbase_rows p pos rows max_ts_sec out).2.
Proof.
  revert max_ts_sec out. induction rows as [|r rows IH]; intros max_ts_sec out [Hf Hn]; simpl; [done|].
  destruct (N.leb_spec (id_or_zero (cb_trade_id r)) (pos_id pos)) as [?|Hlt]; [by apply IH|].
  destruct (TradeSide_from_str_loose _) as [side|]; [|by apply IH]. cbv zeta.
  destruct (existsb _ out) eqn:E; [by apply IH|]. apply IH. split.
  - apply Forall_app. split; [done|by constructor].
  - rewrite fmap_app. apply NoDup_app. split; [done|]. split; [|apply NoDup_singleton].
    intros id Hid [= ->]%list_elem_of_singleton. apply list_elem_of_fmap in Hid as (t & Ht & Hin).
    apply list_elem_of_In in Hin. assert (existsb (fun t => String.eqb (trade_id t) (cb_trade_id r)) out = true);
      [|congruence]. apply existsb_exists. exists t. split; [done|]. by apply String.eqb_eq.
Qed.

Lemma coinbase_windows_new get pages wire p pos start now out k l k' :
  new_prints pos out -> coinbase_windows get pages wire p pos start now out k = (Ok l, k') ->
  new_prints pos l.
Proof.
  revert start out k. induction pages as [|pages IH]; intros start out k Hout; cbn [coinbase_windows];
    [by intros [= <- _]|].
  destruct (now <=? start); [by intros [= <- _]|].
  destruct (answer _ _) as [[|r rows]|e]; [by intros [= <- _]| |done].
  pose proof (coinbase_rows_new p pos (r :: rows) start out Hout) as H.
  destruct (coinbase_rows p pos (r :: rows) start out) as [m out']. simpl in H.
  destruct (_ || _)%bool; [by intros [= <- _]|]. by apply IH.
Qed.

(** A fetch from Coinbase that succeeds returns prints after the position, ascending, each
    identifier once. *)
Theorem coinbase_fetch_sorted now get k wire p pos l k' :
  (CoinbaseTradesFetch now get) k wire p pos = (Ok l, k') ->
  StronglySorted (fun a b => trade_num a <= trade_num b) l /\ new_prints pos l.
Proof.
  unfold CoinbaseTradesFetch. destruct (coinbase_windows _ _ _ _ _ _ _ _ _) as [[out|e] k1] eqn:E; [|done].
  intros [= <- _]. apply coinbase_windows_new in E as [Hf Hn]; [|by split; constructor]. split.
  - assert (StronglySorted (fun a b => by_id a b = true) (sort_by by_id out)) as Hs.
    { apply sort_by_sorted; unfold by_id; intros *; rewrite ?N.leb_le, ?N.leb_gt; lia. }
    clear - Hs. induction Hs as [|t l Hl IH Ht]; constructor; [done|].
    eapply Forall_impl; [exact Ht|]. intros x Hx. by apply N.leb_le.
  - split; by rewrite sort_by_perm.
Qed.
End Coinbase.

(** ** A venue for the examples *)

(** Answers the urls of the positions below [bound] with their page, and any other with [rest]. *)
Definition serve {A} (url : N -> string) (page : N -> A) (rest : A) (bound : nat) (u : string) : Answer A :=
  match List.find (fun c => String.eqb u (url c)) (map N.of_nat (seq 0 bound)) with
  | Some c => Body (page c)
  | None => Body rest
  end.

Lemma serve_spec {A} (url : N -> string) (page : N -> A) rest bound c :
  (forall c c', url c = url c' -> c = c') -> (forall c, N.of_nat bound <= c -> page c = rest) ->
  serve url page rest bound (url c) = Body (page c).
Proof.
  intros Hinj Hrest. unfold serve. destruct (List.find _ _) as [c'|] eqn:E.
  - apply find_some in E as [_ E]. apply String.eqb_eq in E. by rewrite (Hinj _ _ E).
  - destruct (decide (N.of_nat bound <= c)) as [?|Hlt]; [by rewrite Hrest|].
    assert (In c (map N.of_nat (seq 0 bound))) as Hin.
    { apply in_map_iff. exists (N.to_nat c). split; [lia|]. apply in_seq. lia. }
    pose proof (find_none _ _ E c Hin) as H. simpl in H. by rewrite String.eqb_refl in H.
Qed.

Lemma append_inj_r s t u : (s ++ u)%string = (t ++ u)%string -> s = t.
Proof.
  revert t. induction s as [|a s IH]; intros [|b t] E; [done| | |].
  - apply (f_equal String.length) in E. rewrite !string_length_app in E. simpl in E. lia.
  - apply (f_equal String.length) in E. rewrite !string_length_app in E. simpl in E. lia.
  - simpl in E. injection E as -> E. by rewrite (IH t).
Qed.

Lemma binance_url_inj wire c c' : binance_url wire c = binance_url wire c' -> c = c'.
Proof.
  unfold binance_url. intros E. do 3 apply (inj (String.append _)) in E.
  apply append_inj_r in E. by apply (inj pretty) in E.
Qed.

Lemma bitso_url_inj wire c c' : bitso_url wire c = bitso_url wire c' -> c = c'.
Proof.
  unfold bitso_url. intros E. do 3 apply (inj (String.append _)) in E.
  apply append_inj_r in E. by apply (inj pretty) in E.
Qed.

Definition ex_binance_rows : list BinanceRow :=
  map (fun n => {| br_id := n; br_price := "100.5"; br_qty := "0.25"; br_time := 1700000000000 + n;
                   is_buyer_maker := true |}) [5; 6; 8].

Definition ex_binance_get (k : nat) : string -> Answer (list BinanceRow) :=
  serve (binance_url "BTCUSDT")
    (fun from => take 1000 (List.filter (fun r => from <=? br_id r) ex_binance_rows)) [] 9.

Definition ex_bitso_rows : list BitsoRow :=
  map (fun n => {| tid := n; bo_price := "100.5"; bo_amount := "0.25"; maker_side := "buy";
                   created_at := "2026-07-17T00:00:00+0000" |}) [5; 6; 8].

Definition ex_bitso_get (k : nat) : string -> Answer BitsoEnvelope :=
  serve (bitso_url "btc_mxn")
    (fun marker => {| success := true; payload := take 100 (above tid marker ex_bitso_rows) |})
    {| success := true; payload := [] |} 8.

Definition ex_chrono : Chrono := {|
  parse_from_str _ _ := Some 1784246400000%Z; parse_from_rfc3339 _ := Some 1784246400000000%Z
|}.

Lemma ex_binance_log : printed_log br_id (fun _ => ex_binance_rows).
Proof. split; [|done|]; intros; by repeat constructor. Qed.

Lemma ex_binance_serves : binance_serves "BTCUSDT" (fun _ => ex_binance_rows) ex_binance_get.
Proof.
  intros k from rows. unfold ex_binance_get. rewrite serve_spec.
  - by intros [= <-].
  - apply binance_url_inj.
  - intros c Hc. unfold ex_binance_rows. cbn [map List.filter br_id].
    by rewrite !(proj2 (N.leb_gt _ _)) by lia.
Qed.

Lemma ex_bitso_log : printed_log tid (fun _ => ex_bitso_rows).
Proof. split; [|done|]; intros; by repeat constructor. Qed.

Lemma ex_bitso_serves : bitso_serves "btc_mxn" (fun _ => ex_bitso_rows) ex_bitso_get.
Proof.
  intros k marker env. unfold ex_bitso_get. rewrite serve_spec.
  - by intros [= <-].
  - apply bitso_url_inj.
  - intros c Hc. rewrite above_none; [done|]. unfold ex_bitso_rows. cbn [map].
    repeat (constructor; [simpl; lia|]). constructor.
Qed.

Section Examples.
Local Existing Instances decimal_numeric ex_chrono.
Let ex_pair : TradingPair := {| base := "BTC"; quote := "USDT" |}.

Lemma ex_fetch :
  (BinanceTradesFetch ex_binance_get) 0%nat "BTCUSDT"%string ex_pair {| pos_id := 5; pos_ts_us := 0 |} =
  (Ok (map (binance_trade ex_pair) (tail ex_binance_rows)), 1%nat).
Proof. reflexivity. Qed.

Lemma fetch_after_exact_witness :
  exists j, (0 <= j < 1)%nat /\
    map (binance_trade ex_pair) (tail ex_binance_rows) `prefix_of`
    map (binance_trade ex_pair) (above br_id 5 ex_binance_rows).
Proof.
  destruct (proj1 (fetch_after_exact "BTCUSDT" ex_pair (fun _ => ex_binance_rows) ex_binance_get
    (fun _ => ex_bitso_rows) (fun _ _ => RequestFailed "down") 0 {| pos_id := 5; pos_ts_us := 0 |}
    (map (binance_trade ex_pair) (tail ex_binance_rows)) 1 ex_binance_log ex_binance_serves
    ex_bitso_log ltac:(intros ? ? ? [=]) ltac:(reflexivity)) ex_fetch)
    as (j & Hj & Hp & _).
  by exists j.
Defined.

Example binance_fetches_after :
  match (BinanceTradesFetch ex_binance_get) 0%nat "BTCUSDT"%string ex_pair {| pos_id := 5; pos_ts_us := 0 |} with
  | (Ok l, k) => map trade_id l = ["6"; "8"]%string /\ k = 1%nat
  | _ => False
  end.
Proof. vm_compute. by split. Qed.

(** The ticker serves the newest hundred prints of a window.  The walk goes on from the latest
    second it has seen, so the older prints of a window that holds more are never read: of the
    prints 1 to 150, one a second, the first 50 are missing. *)
Definition busy_row (n : nat) : CoinbaseRow := {|
  cb_trade_id := pretty (N.of_nat n); cb_price := "100.5"; cb_size := "0.25";
  cb_time := pretty (N.of_nat n); cb_side := "BUY" |}.

Definition busy_chrono : Chrono := {|
  parse_from_str _ _ := None;
  parse_from_rfc3339 s := (fun n => (Z.of_N n * 1000000)%Z) <$> parse_u64 s
|}.

Definition busy_get (k : nat) : string -> Answer (list CoinbaseRow) :=
  serve (fun start => coinbase_url "BTC-USD" start 200)
    (fun start => take 100 (map busy_row (rev (seq (Nat.max 1 (N.to_nat start)) (151 - Nat.max 1 (N.to_nat start))))))
    [] 151.

Example coinbase_skips_older_prints :
  match (CoinbaseTradesFetch (H := busy_chrono) (fun _ => 200) busy_get) 0%nat "BTC-USD"%string ex_pair
          {| pos_id := 0; pos_ts_us := 0 |} with
  | (Ok l, k) => map trade_num l = map N.of_nat (seq 51 100) /\ k = 2%nat
  | _ => False
  end.
Proof. vm_compute. by split. Qed.

Definition calm_get (k : nat) (url : string) : Answer (list CoinbaseRow) :=
  Body (map busy_row [7; 6; 5; 7]%nat).

Lemma calm_fetch :
  (CoinbaseTradesFetch (H := busy_chrono) (fun _ => 200) calm_get) 0%nat "BTC-USD"%string ex_pair
    {| pos_id := 5; pos_ts_us := 0 |} =
  (Ok (map (fun n => coinbase_trade ex_pair (busy_row n) (N.of_nat n * 1000000) Buy) [6; 7]%nat), 1%nat).
Proof. reflexivity. Qed.

Lemma coinbase_fetch_sorted_witness :
  new_prints {| pos_id := 5; pos_ts_us := 0 |}
    (map (fun n => coinbase_trade ex_pair (busy_row n) (N.of_nat n * 1000000) Buy) [6; 7]%nat).
Proof.
  exact (proj2 (coinbase_fetch_sorted (CH := busy_chrono) (fun _ => 200) calm_get 0 "BTC-USD" ex_pair
    {| pos_id := 5; pos_ts_us := 0 |} _ 1 calm_fetch)).
Defined.
End Examples.
