(* ===== verification/Rehydrate.v ===== *)
(** * Batch rehydration

    [rehydrate_trades_dir] of [src/aetelier-io/src/rehydrate.rs]: the trades of the Parquet
    files of a directory, the prints of the venue over the same range of identifiers, and the
    file that holds both.  The directory, the Parquet reader and writer and the clock that
    names the file are parameters; the fetcher is used through its interface
    [FetchLaws]. *)
From Stdlib Require Import Ascii String Sorted.
From stdpp Require Import strings pretty.
From S2P Require Import Prelude BTree Strings Numeric Pairs Types Model Runtime Reconcile ReconcileProps.
Local Open Scope list_scope.
Local Open Scope N_scope.

Definition MAX_FETCH_ROUNDS : nat := 200.

(** The text of an error of the fetch. *)
Definition ExchangeError_fmt (e : ExchangeError) : string :=
  match e with
  | WebSocketError m => "WebSocket connection error: " ++ m
  | UrlParseError m => "URL parsing error: " ++ m
  | JsonError m => "JSON deserialization error: " ++ m
  | ChannelSendError => "Channel send error"
  | IoError m => "An IO error occurred: " ++ m
  | SnapshotUnavailable m => "REST snapshot unavailable: " ++ m
  | Unsupported m => "unsupported: " ++ m
  end%string.

(** ** File names *)

(** At the last dot. *)
Fixpoint rsplit_dot (s : string) : option (string * string) :=
  match s with
  | EmptyString => None
  | String c s =>
    match rsplit_dot s with
    | Some (stem, ext) => Some (String c stem, ext)
    | None => if Ascii.eqb c "." then Some (EmptyString, s) else None
    end
  end.

(** [path.extension()] *)
Definition extension (name : string) : option string :=
  match rsplit_dot name with
  | Some (stem, ext) => if is_empty stem then None else Some ext
  | None => None
  end.

Definition is_trades_file (name : string) : bool :=
  bool_decide (extension name = Some "parquet"%string) && negb (str_contains "rehydrated" name).

Record RehydrateReport := {
  rr_exchange : string;
  rr_wire_symbol : string;
  files_scanned : nat;
  trades_read : nat;
  id_range : option (N * N);
  recovered : N;
  exhausted_before_range_end : bool;
  output_path : option string
}.

Section Rehydrate.
Context {NU : Numeric}.
Local Open Scope result_scope.

(** ** Reading the files *)

Definition present_row (t : Trade) (present : btree N Trade) : btree N Trade :=
  match parse_u64 (trade_id t) with
  | Some id => match bt_get id present with Some _ => present | None => bt_insert id t present end
  | None => present
  end.

Fixpoint list_files (entries : list (Result string PersistError)) : Result (list string) PersistError :=
  match entries with
  | [] => Ok []
  | entry :: entries =>
    let? name := entry in
    let? files := list_files entries in
    Ok (if is_trades_file name then name :: files else files)
  end.

Fixpoint read_files (read : string -> Result (list Trade) PersistError) (files : list string)
    (present : btree N Trade) (n : nat) : Result (btree N Trade * nat) PersistError :=
  match files with
  | [] => Ok (present, n)
  | f :: files =>
    let? trades := read f in
    read_files read files (fold_left (fun m t => present_row t m) trades present)
      (n + length trades)
  end.

(** ** The walk over the venue *)

Record Walk := {
  wa_pos : TradePos;
  wa_present : btree N Trade;
  wa_recovered : list Trade
}.

(** One print of a batch; whether the position advanced. *)
Definition walk_row (max_id : N) (t : Trade) (w : Walk) : Walk * bool :=
  match parse_u64 (trade_id t) with
  | None => (w, false)
  | Some id =>
    let advanced := pos_id (wa_pos w) <? id in
    let pos := if advanced then {| pos_id := id; pos_ts_us := source_trade_ts_us t |} else wa_pos w in
    if max_id <? id
    then ({| wa_pos := pos; wa_present := wa_present w; wa_recovered := wa_recovered w |}, advanced)
    else
      match bt_get id (wa_present w) with
      | Some _ =>
        ({| wa_pos := pos; wa_present := wa_present w; wa_recovered := wa_recovered w |}, advanced)
      | None =>
        ({| wa_pos := pos; wa_present := bt_insert id t (wa_present w);
            wa_recovered := wa_recovered w ++ [t] |}, advanced)
      end
  end.

Fixpoint walk_batch (max_id : N) (batch : list Trade) (w : Walk) (advanced : bool) : Walk * bool :=
  match batch with
  | [] => (w, advanced)
  | t :: batch =>
    let '(w, a) := walk_row max_id t w in
    walk_batch max_id batch w (advanced || a)
  end.

(** The rounds; whether the venue ran out before the end of the range. *)
Fixpoint walk_rounds (fetch : TradesRestFetch) (wire_symbol : string) (p : TradingPair) (max_id : N)
    (rounds : nat) (w : Walk) (k : nat) : Result (Walk * bool) PersistError * nat :=
  match rounds with
  | O => (Ok (w, false), k)
  | S rounds =>
    if max_id <=? pos_id (wa_pos w) then (Ok (w, false), k)
    else
      match fetch k wire_symbol p (wa_pos w) with
      | (Err e, k) => (Err (PersistParse ("rehydrate fetch: " ++ ExchangeError_fmt e)), k)
      | (Ok [], k) => (Ok (w, pos_id (wa_pos w) <? max_id), k)
      | (Ok batch, k) =>
        let '(w, advanced) := walk_batch max_id batch w false in
        if advanced then walk_rounds fetch wire_symbol p max_id rounds w k
        else (Ok (w, pos_id (wa_pos w) <? max_id), k)
      end
  end.

(** ** The run *)

Definition output_name (exchange wire_symbol stamp : string) : string :=
  (exchange ++ "_" ++ replace_separators wire_symbol ++ "_trades_rehydrated_" ++ stamp ++ ".parquet")%string.

(** The report, and the file written with its trades. *)
Definition rehydrate_trades_dir (entries : Result (list (Result string PersistError)) PersistError)
    (read : string -> Result (list Trade) PersistError)
    (write : string -> list Trade -> Result unit PersistError) (stamp : string)
    (exchange wire_symbol : string) (p : TradingPair) (fetch : TradesRestFetch) (k : nat)
    : Result RehydrateReport PersistError * option (string * list Trade) * nat :=
  match (let? entries := entries in
         let? files := list_files entries in
         let files := sort_by String.leb files in
         let? r := read_files read files [] 0 in
         Ok (files, r)) with
  | Err e => (Err e, None, k)
  | Ok (files, (present, n)) =>
    let report range recovered exhausted output :=
      {| rr_exchange := exchange; rr_wire_symbol := wire_symbol; files_scanned := length files;
         trades_read := n; id_range := range; recovered := recovered;
         exhausted_before_range_end := exhausted; output_path := output |} in
    match bt_first present, bt_last present with
    | Some (min_id, first), Some (max_id, _) =>
      let pos := {| pos_id := u64_saturating_sub min_id 1;
                    pos_ts_us := u64_saturating_sub (source_trade_ts_us first) 1000000 |} in
      match walk_rounds fetch wire_symbol p max_id MAX_FETCH_ROUNDS
              {| wa_pos := pos; wa_present := present; wa_recovered := [] |} k with
      | (Err e, k) => (Err e, None, k)
      | (Ok (w, exhausted), k) =>
        let range := Some (min_id, max_id) in
        let count := N.of_nat (length (wa_recovered w)) in
        match wa_recovered w with
        | [] => (Ok (report range count exhausted None), None, k)
        | _ =>
          let merged := map snd (wa_present w) in
          let out := output_name exchange wire_symbol stamp in
          match write out merged with
          | Err e => (Err e, Some (out, merged), k)
          | Ok _ => (Ok (report range count exhausted (Some out)), Some (out, merged), k)
          end
        end
      end
    | _, _ => (Ok (report None 0 false None), None, k)
    end
  end.
End Rehydrate.
