(* ===== verification/RehydrateProps.v ===== *)
(** * Rehydration completes the files

    The run of [rehydrate_trades_dir] against a fetcher that satisfies [FetchLaws]: what is
    written is, identifier by identifier, the first row of the files, or else the print of the
    venue. *)
From Stdlib Require Import Ascii String Sorted.
From stdpp Require Import strings pretty.
From S2P Require Import Prelude BTree Strings Numeric Pairs Types Model Runtime Reconcile ReconcileProps Rehydrate.
Local Open Scope list_scope.
Local Open Scope N_scope.

(** The first of two. *)
Definition or_else {A} (a b : option A) : option A := match a with Some _ => a | None => b end.

Lemma or_else_assoc {A} (a b c : option A) : or_else (or_else a b) c = or_else a (or_else b c).
Proof. by destruct a. Qed.

Lemma bt_get_insert_N {V} (k k' : N) (v : V) m :
  bt_get k' (bt_insert k v m) = if k =? k' then Some v else bt_get k' m.
Proof.
  rewrite bt_get_insert. unfold cmp, N_cmp. rewrite N.eqb_compare. by destruct (k ?= k').
Qed.

Lemma parse_u64_is_u64 s n : parse_u64 s = Some n -> is_u64 n.
Proof.
  unfold parse_u64. destruct (is_empty _); [done|].
  destruct (Strings.parse_digits 0 _) as [m|]; simpl; [|done].
  case_match eqn:E; [|done]. intros [= <-]. by apply N.ltb_lt.
Qed.

Section RehydrateProps.
Context {NU : Numeric}.
Implicit Types (l rows : list Trade) (present : btree N Trade).

(** The first row with an identifier. *)
Definition first_with (id : N) l : option Trade :=
  List.find (fun t => bool_decide (parse_u64 (trade_id t) = Some id)) l.

Definition numbered l : Prop :=
  Forall (fun t => parse_u64 (trade_id t) = Some (trade_num t) /\ trade_num t < u64_max) l.

(** The prints within the range of the files. *)
Definition in_range (lo hi : N) l : list Trade :=
  List.filter (fun t => (lo <=? trade_num t) && (trade_num t <=? hi)) l.

Lemma held_app id l l' : first_with id (l ++ l') = or_else (first_with id l) (first_with id l').
Proof. unfold first_with. induction l as [|t l IH]; simpl; [done|]. by case_match. Qed.

Lemma held_Some id l t : first_with id l = Some t -> t ∈ l /\ parse_u64 (trade_id t) = Some id.
Proof.
  intros [Hin H]%find_some. apply bool_decide_eq_true in H. by rewrite list_elem_of_In.
Qed.

Lemma held_none id l : numbered l -> Forall (fun t => trade_num t <> id) l -> first_with id l = None.
Proof.
  intros Hn Hl. destruct (first_with id l) as [t|] eqn:E; [|done].
  apply held_Some in E as [Hin Hp]. unfold numbered in Hn. rewrite Forall_forall in Hn, Hl.
  destruct (Hn t Hin) as [Hp' _]. destruct (Hl t Hin). congruence.
Qed.

Lemma held_filter id f l :
  numbered l -> (forall t, trade_num t = id -> f t = true) -> first_with id (List.filter f l) = first_with id l.
Proof.
  intros Hn Hf. induction Hn as [|t l [Hp _] _ IH]; simpl; [done|].
  destruct (f t) eqn:E; simpl; rewrite IH; [done|].
  rewrite bool_decide_false; [done|]. rewrite Hp. intros [= Ht]. rewrite Hf in E; done.
Qed.

Lemma numbered_app l l' : numbered (l ++ l') <-> numbered l /\ numbered l'.
Proof. apply Forall_app. Qed.

Lemma numbered_filter f l : numbered l -> numbered (List.filter f l).
Proof.
  unfold numbered. rewrite !Forall_forall. intros H t Ht%list_elem_of_In%filter_In.
  apply H, list_elem_of_In, Ht.
Qed.

Lemma in_range_spec lo hi l t : t ∈ in_range lo hi l <-> t ∈ l /\ lo <= trade_num t <= hi.
Proof.
  unfold in_range. rewrite !list_elem_of_In, filter_In, andb_true_iff, !N.leb_le. tauto.
Qed.

Lemma above_in_range c lo hi l : above trade_num c (in_range lo hi l) = in_range lo hi (above trade_num c l).
Proof.
  unfold above, in_range. induction l as [|t l IH]; simpl; [done|].
  destruct (_ && _) eqn:E, (c <? trade_num t) eqn:E'; simpl; rewrite ?E, ?E', ?IH; done.
Qed.

Lemma in_range_app lo hi l l' : in_range lo hi (l ++ l') = in_range lo hi l ++ in_range lo hi l'.
Proof. apply List.filter_app. Qed.

Lemma ascending_in_range lo hi l : ascending trade_num l -> ascending trade_num (in_range lo hi l).
Proof.
  induction 1 as [|t l Hl IH Ht]; [constructor|]. unfold in_range in *. cbn [List.filter].
  destruct (_ && _)%bool; [|exact IH]. constructor; [exact IH|].
  rewrite Forall_forall in *. intros x [Hx _]%in_range_spec. by apply Ht.
Qed.

(** ** The rows of the files *)

Lemma present_row_spec t present id :
  bt_get id (present_row t present) = or_else (bt_get id present) (first_with id [t]).
Proof.
  unfold present_row, first_with. cbn [List.find].
  destruct (parse_u64 (trade_id t)) as [n|]; simpl.
  - destruct (decide (n = id)) as [->|Hne].
    + rewrite bool_decide_true by done. destruct (bt_get id present) eqn:E; rewrite ?E; [done|].
      by rewrite bt_get_insert_N, N.eqb_refl.
    + rewrite bool_decide_false by congruence.
      destruct (bt_get n present); [by destruct (bt_get id present)|].
      rewrite bt_get_insert_N. apply N.eqb_neq in Hne. rewrite Hne. by destruct (bt_get id present).
  - by destruct (bt_get id present).
Qed.

Lemma present_row_wf t present : bt_wf present -> bt_wf (present_row t present).
Proof.
  unfold present_row. intros H. repeat case_match; try done. by apply bt_insert_wf.
Qed.

Lemma present_rows_spec rows present :
  (bt_wf present -> bt_wf (fold_left (fun m t => present_row t m) rows present)) /\
  forall id, bt_get id (fold_left (fun m t => present_row t m) rows present) =
             or_else (bt_get id present) (first_with id rows).
Proof.
  revert present. induction rows as [|t rows IH]; intros present; simpl.
  - split; [done|]. intros id. by destruct (bt_get id present).
  - destruct (IH (present_row t present)) as [Hwf Hget]. split; [auto using present_row_wf|].
    intros id. rewrite Hget, present_row_spec, or_else_assoc.
    by rewrite <- (held_app id [t] rows).
Qed.

(** What the reader returns for the files, one after the other. *)
Definition rows_of (read : string -> Result (list Trade) PersistError) (files : list string) : list Trade :=
  concat (map (fun f => default [] (result_ok (read f))) files).

Lemma read_files_spec read files present n present' n' :
  read_files read files present n = Ok (present', n') ->
  n' = (n + length (rows_of read files))%nat /\ (bt_wf present -> bt_wf present') /\
  forall id, bt_get id present' = or_else (bt_get id present) (first_with id (rows_of read files)).
Proof.
  revert present n. induction files as [|f files IH]; intros present n; cbn [read_files].
  - intros [= <- <-]. simpl. split_and!; [lia|done|]. intros id. by destruct (bt_get id present).
  - change (rows_of read (f :: files)) with (default [] (result_ok (read f)) ++ rows_of read files).
    destruct (read f) as [rows|e]; [|done]. change (default [] (result_ok (Ok rows))) with rows.
    intros H. apply IH in H as (-> & Hwf & Hget).
    destruct (present_rows_spec rows present) as [Hwf' Hget']. split_and!.
    + rewrite length_app. lia.
    + auto.
    + intros id. by rewrite Hget, Hget', held_app, or_else_assoc.
Qed.

(** ** A batch *)

Lemma walk_batch_spec max_id l w a :
  numbered l -> ascending trade_num l -> Forall (fun t => pos_id (wa_pos w) < trade_num t) l ->
  let '(w', a') := walk_batch max_id l w a in
  pos_id (wa_pos w') = cursor trade_num (pos_id (wa_pos w)) l /\
  a' = (a || match l with [] => false | _ => true end)%bool /\
  (bt_wf (wa_present w) -> bt_wf (wa_present w')) /\
  (length (wa_present w') + length (wa_recovered w) =
   length (wa_present w) + length (wa_recovered w'))%nat /\
  forall id, bt_get id (wa_present w') =
    or_else (bt_get id (wa_present w)) (if id <=? max_id then first_with id l else None).
Proof.
  intros Hn Ha. revert w a. induction Ha as [|t l Ha IH Ht]; intros w a Hin; cbn [walk_batch].
  { split_and!; [done|by rewrite orb_false_r|done|done|]. intros id.
    destruct (bt_get id (wa_present w)), (id <=? max_id); done. }
  apply Forall_cons in Hin as [Hpt Hin]. apply Forall_cons in Hn as [[Hp _] Hn].
  unfold walk_row. rewrite Hp. apply N.ltb_lt in Hpt as Hlt. rewrite Hlt.
  assert (forall w', pos_id (wa_pos w') = trade_num t ->
          (bt_wf (wa_present w) -> bt_wf (wa_present w')) ->
          (length (wa_present w') + length (wa_recovered w) =
           length (wa_present w) + length (wa_recovered w'))%nat ->
          (forall id, bt_get id (wa_present w') =
             or_else (bt_get id (wa_present w)) (if id <=? max_id then first_with id [t] else None)) ->
          let '(w'', a') := walk_batch max_id l w' (a || true) in
          pos_id (wa_pos w'') = cursor trade_num (pos_id (wa_pos w)) (t :: l) /\
          a' = (a || true)%bool /\ (bt_wf (wa_present w) -> bt_wf (wa_present w'')) /\
          (length (wa_present w'') + length (wa_recovered w) =
           length (wa_present w) + length (wa_recovered w''))%nat /\
          forall id, bt_get id (wa_present w'') =
            or_else (bt_get id (wa_present w)) (if id <=? max_id then first_with id (t :: l) else None)) as Hstep.
  { intros w' Hpos Hwf Hlen Hget. specialize (IH Hn w' (a || true)%bool).
    destruct (walk_batch max_id l w' _) as [w'' a'].
    destruct IH as (Hc & -> & Hwf' & Hlen' & Hget'); [by rewrite Hpos|]. split_and!.
    - rewrite Hc, Hpos. apply (cursor_app trade_num _ [t] l).
    - by destruct a, l.
    - auto.
    - lia.
    - intros id. rewrite Hget', Hget, or_else_assoc. f_equal. change (t :: l) with ([t] ++ l).
      destruct (id <=? max_id); [|done]. by rewrite held_app. }
  assert (forall id, first_with id [t] = if trade_num t =? id then Some t else None) as Hheld.
  { intros id. unfold first_with. cbn [List.find]. rewrite Hp.
    destruct (N.eqb_spec (trade_num t) id) as [->|Hne];
      [by rewrite bool_decide_true|by rewrite bool_decide_false by congruence]. }
  destruct (max_id <? trade_num t) eqn:Emax; reflect_bools; [|destruct (bt_get _ _) as [x|] eqn:Eg];
    apply Hstep; cbn [wa_pos wa_present wa_recovered pos_id]; try done.
  - intros id. rewrite Hheld. destruct (N.leb_spec id max_id), (N.eqb_spec (trade_num t) id);
      try (by destruct (bt_get id (wa_present w))). lia.
  - intros id. rewrite Hheld. destruct (N.eqb_spec (trade_num t) id) as [<-|?]; [by rewrite Eg|].
    by destruct (bt_get id (wa_present w)), (id <=? max_id).
  - apply bt_insert_wf.
  - rewrite length_app, length_bt_insert, Eg. simpl. lia.
  - intros id. rewrite bt_get_insert_N, Hheld.
    destruct (N.eqb_spec (trade_num t) id) as [<-|?].
    + by rewrite Eg, (proj2 (N.leb_le _ _) Emax).
    + by destruct (bt_get id (wa_present w)), (id <=? max_id).
Qed.

Lemma numbered_none id c l :
  numbered l -> Forall (fun t => c < trade_num t) l -> id <= c -> first_with id l = None.
Proof.
  intros Hn Hl Hid. apply held_none; [done|]. eapply Forall_impl; [exact Hl|]. simpl. lia.
Qed.

Lemma last_beyond c l rest :
  ascending trade_num (l ++ rest) -> l <> [] ->
  Forall (fun t => trade_num t <= cursor trade_num c l) l /\
  Forall (fun t => cursor trade_num c l < trade_num t) rest.
Proof.
  intros Ha Hl. destruct l as [|x l _] using rev_ind; [done|]. rewrite cursor_snoc.
  apply ascending_app in Ha as (Ha & _ & Hr). apply ascending_app in Ha as (_ & _ & Hlt).
  rewrite Forall_app, Forall_singleton in Hr. split; [|by apply Hr].
  apply Forall_app. split; [|by constructor]. eapply Forall_impl; [exact Hlt|].
  intros t Ht. rewrite Forall_singleton in Ht. lia.
Qed.

Section Walk.
Context (fetch : TradesRestFetch) (wire : string) (p : TradingPair) (cap : nat)
  (log : nat -> list Trade) {FL : FetchLaws fetch wire p cap log}.
Context (k0 : nat) (lo hi : N) (P0 : btree N Trade).
Hypothesis Hstatic : forall j, (k0 <= j)%nat -> in_range lo hi (log j) = in_range lo hi (log k0).
Hypothesis Hhi : hi <= u64_max.
Hypothesis Hcap : (0 < cap)%nat.

Let V : list Trade := in_range lo hi (log k0).

Record walk_inv (w : Walk) : Prop := {
  inv_wf : bt_wf (wa_present w);
  inv_count : length (wa_present w) = (length P0 + length (wa_recovered w))%nat;
  inv_pos : lo <= pos_id (wa_pos w) + 1;
  inv_get id : bt_get id (wa_present w) =
    or_else (bt_get id P0) (if id <=? pos_id (wa_pos w) then first_with id V else None)
}.

Lemma numbered_V : numbered V.
Proof. apply numbered_filter, log_numbered. Qed.

(** An identifier of the range is found in the log exactly when it is among the prints of the
    range. *)
Lemma held_V id j : (k0 <= j)%nat -> lo <= id <= hi -> first_with id V = first_with id (log j).
Proof.
  intros Hj Hid. unfold V. rewrite <- (Hstatic j Hj). apply held_filter; [apply log_numbered|].
  intros t ->. by rewrite (proj2 (N.leb_le _ _) (proj1 Hid)), (proj2 (N.leb_le _ _) (proj2 Hid)).
Qed.

Lemma held_V_above id : hi < id -> first_with id V = None.
Proof.
  intros Hid. apply held_none; [apply numbered_V|]. apply Forall_forall.
  intros t [_ ?]%in_range_spec. lia.
Qed.

(** What a batch adds to the prints up to the position. *)
Lemma batch_held j c l id :
  (k0 <= j)%nat -> lo <= c + 1 -> l `prefix_of` above trade_num c (log j) -> l <> [] ->
  or_else (if id <=? c then first_with id V else None) (if id <=? hi then first_with id l else None) =
  if id <=? cursor trade_num c l then first_with id V else None.
Proof.
  intros Hj Hlo [rest E] Hl.
  pose proof (ascending_above trade_num c _ (log_ascending j)) as Ha. rewrite E in Ha.
  pose proof (above_in trade_num c (log j)) as Hin. rewrite E in Hin.
  apply Forall_app in Hin as [Hinl _].
  assert (numbered (l ++ rest)) as Hn by (rewrite <- E; apply numbered_filter, log_numbered).
  destruct (last_beyond c l rest Ha Hl) as [Hle Hlt]. apply numbered_app in Hn as [Hnl Hnr].
  assert (c <= cursor trade_num c l) as Hc.
  { destruct l as [|t l _] using rev_ind; [done|]. rewrite cursor_snoc.
    rewrite Forall_app, Forall_singleton in Hinl. lia. }
  destruct (N.leb_spec id c) as [Hic|Hic].
  - rewrite (numbered_none id c l) by done. rewrite (proj2 (N.leb_le id (cursor trade_num c l))) by lia.
    by destruct (first_with id V), (id <=? hi).
  - cbn [or_else]. destruct (N.leb_spec id hi) as [Hih|Hih]; [|rewrite held_V_above by done; by case_match].
    destruct (N.leb_spec id (cursor trade_num c l)) as [Hcu|Hcu].
    + rewrite (held_V id j) by (done || lia).
      rewrite <- (held_filter id (fun t => c <? trade_num t) (log j)).
      * change (List.filter _ (log j)) with (above trade_num c (log j)). rewrite E, held_app.
        rewrite (numbered_none id (cursor trade_num c l) rest) by done. by destruct (first_with id l).
      * apply log_numbered.
      * intros t ->. by apply N.ltb_lt.
    + apply held_none; [done|]. eapply Forall_impl; [exact Hle|]. simpl. lia.
Qed.

Lemma above_V c j : (k0 <= j)%nat -> above trade_num c V = in_range lo hi (above trade_num c (log j)).
Proof. intros Hj. unfold V. by rewrite <- (Hstatic j Hj), above_in_range. Qed.

Lemma above_V_done c : hi <= c -> above trade_num c V = [].
Proof. intros Hc. apply above_none, Forall_forall. intros t [_ ?]%in_range_spec. lia. Qed.

(** A batch within the range is an initial part of the prints that remain. *)
Lemma batch_in_V j c l :
  (k0 <= j)%nat -> lo <= c + 1 -> l `prefix_of` above trade_num c (log j) -> l <> [] ->
  cursor trade_num c l <= hi -> l `prefix_of` above trade_num c V.
Proof.
  intros Hj Hlo [rest E] Hl Hc. rewrite (above_V c j) by done. rewrite E, in_range_app.
  pose proof (ascending_above trade_num c _ (log_ascending j)) as Ha. rewrite E in Ha.
  pose proof (above_in trade_num c (log j)) as Hin. rewrite E in Hin.
  apply Forall_app in Hin as [Hinl _]. destruct (last_beyond c l rest Ha Hl) as [Hle _].
  exists (in_range lo hi rest). f_equal. symmetry. unfold in_range.
  rewrite Forall_forall in Hinl, Hle. clear - Hinl Hle Hlo Hc.
  assert (forall t, t ∈ l -> ((lo <=? trade_num t) && (trade_num t <=? hi))%bool = true) as H.
  { intros t Ht. specialize (Hinl t Ht). specialize (Hle t Ht). simpl in *.
    apply andb_true_iff. rewrite !N.leb_le. lia. }
  clear Hinl Hle Hc. induction l as [|t l IH]; simpl; [done|]. rewrite H by left.
  rewrite <- IH; [done|]. intros x Hx. apply H. by right.
Qed.

Definition complete (w : Walk) : Prop := above trade_num (pos_id (wa_pos w)) V = [].

Lemma walk_round_inv j w l w' a :
  (k0 <= j)%nat -> walk_inv w -> l `prefix_of` above trade_num (pos_id (wa_pos w)) (log j) -> l <> [] ->
  walk_batch hi l w false = (w', a) ->
  a = true /\ walk_inv w' /\ pos_id (wa_pos w') = cursor trade_num (pos_id (wa_pos w)) l /\
  pos_id (wa_pos w) < pos_id (wa_pos w').
Proof.
  intros Hj [Hwf Hcount Hpos Hget] Hpre Hl Hb. pose proof Hpre as [rest E].
  pose proof (ascending_above trade_num (pos_id (wa_pos w)) _ (log_ascending j)) as Ha. rewrite E in Ha.
  pose proof (above_in trade_num (pos_id (wa_pos w)) (log j)) as Hin. rewrite E in Hin.
  assert (numbered (l ++ rest)) as Hn by (rewrite <- E; apply numbered_filter, log_numbered).
  apply ascending_app in Ha as (Ha & _). apply Forall_app in Hin as [Hin _].
  apply numbered_app in Hn as [Hn _].
  pose proof (walk_batch_spec hi l w false Hn Ha Hin) as H. rewrite Hb in H.
  destruct H as (Hc & -> & Hwf' & Hlen & Hget').
  assert (pos_id (wa_pos w) < pos_id (wa_pos w')) as Hlt.
  { rewrite Hc. destruct l as [|t l _] using rev_ind; [done|]. rewrite cursor_snoc.
    rewrite Forall_app, Forall_singleton in Hin. apply Hin. }
  split_and!; [by destruct l| |done|done]. split; [auto|lia|lia|].
  intros id. rewrite Hget', Hget, or_else_assoc, Hc. f_equal. by apply (batch_held j).
Qed.

Lemma walk_rounds_spec rounds w k w' exhausted k' :
  (k0 <= k)%nat -> walk_inv w ->
  complete w \/ (length (above trade_num (pos_id (wa_pos w)) V) < rounds * cap)%nat ->
  walk_rounds fetch wire p hi rounds w k = (Ok (w', exhausted), k') ->
  walk_inv w' /\ complete w' /\ (exhausted = true -> Forall (fun t => trade_num t < hi) (log k0)).
Proof.
  revert w k. induction rounds as [|rounds IH]; intros w k Hk Hinv Hr; cbn [walk_rounds].
  { intros [= <- <- <-]. split_and!; [done| |done]. destruct Hr; [done|lia]. }
  destruct (N.leb_spec hi (pos_id (wa_pos w))) as [Hge|Hlt].
  { intros [= <- <- <-]. split_and!; [done|by apply above_V_done|done]. }
  destruct (fetch k wire p (wa_pos w)) as [[l|e] k1] eqn:Ef; [|done].
  assert (pos_id (wa_pos w) < u64_max) as Hpos by lia.
  destruct (fetch_served k _ l k1 Hpos Ef) as (j & Hj & Hpre & Hfull).
  destruct l as [|t l].
  - intros [= <- <- <-].
    assert (above trade_num (pos_id (wa_pos w)) (log j) = []) as Hempty.
    { symmetry. by apply Hfull. }
    split_and!; [done| |].
    + unfold complete. by rewrite (above_V _ j), Hempty by lia.
    + intros _. apply Forall_forall. intros t Ht.
      assert (t ∈ log j) as Htj.
      { destruct (log_grows k0 j ltac:(lia)) as [ext ->]. apply elem_of_app. by left. }
      destruct (N.ltb_spec (pos_id (wa_pos w)) (trade_num t)) as [Habove|]; [|lia].
      assert (t ∈ above trade_num (pos_id (wa_pos w)) (log j)) as Hin.
      { apply list_elem_of_In, filter_In. split; [by apply list_elem_of_In|by apply N.ltb_lt]. }
      rewrite Hempty in Hin. by apply elem_of_nil in Hin.
  - destruct (walk_batch hi (t :: l) w false) as [w1 a] eqn:Eb.
    destruct (walk_round_inv j w (t :: l) w1 a ltac:(lia) Hinv Hpre ltac:(done) Eb)
      as (-> & Hinv1 & Hc & Hadv).
    apply IH; [lia|done|].
    destruct (N.leb_spec hi (pos_id (wa_pos w1))) as [?|Hlt1]; [left; by apply above_V_done|].
    assert (t :: l `prefix_of` above trade_num (pos_id (wa_pos w)) V) as Hpre'.
    { apply (batch_in_V j); [lia|apply Hinv|done|done|]. rewrite <- Hc. lia. }
    pose proof (above_cursor trade_num (pos_id (wa_pos w)) (t :: l) V) as Hdrop.
    rewrite <- Hc in Hdrop. unfold complete. rewrite Hdrop;
      [|apply ascending_in_range, log_ascending|done].
    destruct Hr as [Hr|Hr].
    + left. unfold complete in Hr. rewrite Hr in Hpre'. by apply prefix_nil_inv in Hpre'.
    + destruct (decide (length (t :: l) < cap)%nat) as [Hs|Hs].
      * left. apply drop_ge. rewrite (above_V _ j), <- (Hfull Hs) by lia. apply filter_length_le.
      * right. rewrite length_drop. destruct Hpre' as [rest Hpre'].
        apply (f_equal length) in Hpre'. rewrite length_app in Hpre'. simpl in *. lia.
Qed.
End Walk.

(** What a run leaves, for the rows of the files and the prints of the venue. *)
Record rehydrated (rows prints : list Trade) (lo hi : N) (report : RehydrateReport) (name : string)
    (file : option (string * list Trade)) : Prop := {
  rh_range : is_Some (first_with lo rows) /\ is_Some (first_with hi rows) /\
    forall id, is_Some (first_with id rows) -> lo <= id <= hi;
  rh_read : trades_read report = length rows;
  rh_merged : exists original merged : btree N Trade, bt_wf original /\ bt_wf merged /\
    (forall id, bt_get id original = first_with id rows) /\
    (forall id, bt_get id merged = or_else (first_with id rows) (first_with id (in_range lo hi prints))) /\
    N.of_nat (length merged) = N.of_nat (length original) + recovered report /\
    file = (if recovered report =? 0 then None else Some (name, map snd merged));
  rh_path : output_path report = fst <$> file;
  rh_exhausted : exhausted_before_range_end report = true -> Forall (fun t => trade_num t < hi) prints
}.

Lemma range_of_present present rows min_id first max_id last :
  bt_wf present -> (forall id, bt_get id present = first_with id rows) ->
  bt_first present = Some (min_id, first) -> bt_last present = Some (max_id, last) ->
  is_Some (first_with min_id rows) /\ is_Some (first_with max_id rows) /\
  forall id, is_Some (first_with id rows) -> min_id <= id <= max_id.
Proof.
  intros Hwf Hget Hf Hl. split_and!.
  - rewrite <- Hget. exists first. apply bt_get_lookup, bt_first_elem; done.
  - rewrite <- Hget. exists last. apply bt_get_lookup, bt_last_elem; done.
  - intros id [t Ht]. rewrite <- Hget in Ht. apply bt_get_elem in Ht as (k & Ek & Hin); [|done].
    pose proof (bt_first_min _ _ _ _ _ Hwf Hf Hin) as H1.
    pose proof (bt_last_max _ _ _ _ _ Hwf Hl Hin) as H2.
    unfold key_eq, cmp, N_cmp in *. apply N.compare_eq_iff in Ek as ->.
    apply N.compare_le_iff in H1, H2. done.
Qed.

Lemma walk_inv_start present rows lo hi log0 first :
  bt_wf present -> (forall id, bt_get id present = first_with id rows) -> is_Some (first_with lo rows) ->
  numbered log0 ->
  let w := {| wa_pos := {| pos_id := u64_saturating_sub lo 1; pos_ts_us := first |};
              wa_present := present; wa_recovered := [] |} in
  lo <= pos_id (wa_pos w) + 1 /\
  forall id, bt_get id (wa_present w) =
    or_else (bt_get id present) (if id <=? pos_id (wa_pos w) then first_with id (in_range lo hi log0) else None).
Proof.
  intros Hwf Hget [t Ht] Hn. cbn [wa_pos pos_id wa_present]. unfold u64_saturating_sub.
  split; [lia|]. intros id. destruct (N.leb_spec id (lo - 1)) as [Hid|_];
    [|by destruct (bt_get id present)].
  destruct (decide (id = lo)) as [->|Hne]; [by rewrite Hget, Ht|].
  rewrite (held_none id (in_range lo hi log0)); [by destruct (bt_get id present)|by apply numbered_filter|].
  apply Forall_forall. intros x [_ ?]%in_range_spec. lia.
Qed.

(** C13: a run of the rehydration over files with identifiers from [lo] to [hi], against a fetcher
    that satisfies the interface, whose venue prints nothing new in that range meanwhile and has
    fewer prints there than two hundred full batches: what is written holds for every identifier the
    first row of the files, unchanged, or else the venue's print; it is written, in the order of the
    identifiers, exactly when something was recovered; the report counts what was recovered, and says
    that the venue ran out only if its prints end before [hi]. *)
Theorem rehydrate_complete (fetch : TradesRestFetch) wire p cap log {FL : FetchLaws fetch wire p cap log}
    entries read write stamp exchange k report file k' lo hi
    (Hcap : (0 < cap)%nat)
    (Hstatic : forall j, (k <= j)%nat -> in_range lo hi (log j) = in_range lo hi (log k))
    (Hrounds : (length (in_range lo hi (log k)) < MAX_FETCH_ROUNDS * cap)%nat)
    (Hrun : rehydrate_trades_dir entries read write stamp exchange wire p fetch k = (Ok report, file, k'))
    (Hrange : id_range report = Some (lo, hi)) :
  exists names files, entries = Ok names /\ list_files names = Ok files /\
    rehydrated (rows_of read (sort_by String.leb files)) (log k) lo hi report
      (output_name exchange wire stamp) file.
Proof.
  revert Hrun. unfold rehydrate_trades_dir.
  destruct entries as [names|e]; [|done].
  destruct (list_files names) as [files|e] eqn:Efiles; [|done].
  destruct (read_files read (sort_by String.leb files) [] 0) as [[present n]|e] eqn:Eread; [|done].
  apply read_files_spec in Eread as (Hn & Hwf & Hget). specialize (Hwf bt_wf_nil). cbn [or_else bt_get] in Hget.
  set (rows := rows_of read (sort_by String.leb files)) in *.
  destruct (bt_first present) as [[min_id first]|] eqn:Ef;
    [|intros [= <- _ _]; done].
  destruct (bt_last present) as [[max_id last]|] eqn:El; [|intros [= <- _ _]; done].
  destruct (walk_rounds _ _ _ _ _ _ _) as [[[w exhausted]|e] k1] eqn:Ew; [|done].
  intros Hrun. exists names, files. split; [done|]. split; [done|].
  assert (min_id = lo /\ max_id = hi) as [-> ->].
  { destruct (wa_recovered w); [|destruct (write _ _); [|done]]; injection Hrun as <- _ _;
      by injection Hrange as -> ->. }
  pose proof (range_of_present present rows lo first hi last Hwf Hget Ef El) as Hr.
  assert (hi <= u64_max) as Hhi.
  { destruct Hr as (_ & [t Ht] & _). apply held_Some in Ht as [_ Hp%parse_u64_is_u64].
    unfold is_u64, u64_max, u64_modulus in *. lia. }
  match type of Ew with walk_rounds _ _ _ _ _ ?w0 _ = _ =>
    assert (walk_inv log k lo hi present w0) as Hinv0 end.
  { destruct (walk_inv_start present rows lo hi (log k) (u64_saturating_sub (source_trade_ts_us first) 1000000)
                Hwf Hget (proj1 Hr) (log_numbered k)) as [Hpos Hget0].
    split; [done|apply eq_sym, Nat.add_0_r|done|done]. }
  destruct (walk_rounds_spec fetch wire p cap log k lo hi present Hstatic Hhi Hcap _ _ k w exhausted k1
              ltac:(lia) Hinv0
              ltac:(right; eapply Nat.le_lt_trans; [apply filter_length_le|exact Hrounds]) Ew)
    as (Hinv & Hc & Hex).
  destruct Hinv as [Hwf' Hcount _ Hget'].
  assert (forall id, bt_get id (wa_present w) =
                     or_else (first_with id rows) (first_with id (in_range lo hi (log k)))) as Hmerged.
  { intros id. rewrite Hget', Hget. f_equal. destruct (N.leb_spec id (pos_id (wa_pos w))) as [_|E]; [done|]. symmetry.
    apply held_none; [by apply numbered_filter, log_numbered|]. apply Forall_forall. intros t Ht <-.
    assert (t ∈ above trade_num (pos_id (wa_pos w)) (in_range lo hi (log k))) as Hin.
    { apply list_elem_of_In, filter_In. split; [by apply list_elem_of_In|by apply N.ltb_lt]. }
    unfold complete in Hc. rewrite Hc in Hin. by apply elem_of_nil in Hin. }
  assert (length (wa_present w) = length present + length (wa_recovered w))%nat as Hlen by done.
  clear Hinv0 Ew Hget'.
  destruct (wa_recovered w) as [|t ts] eqn:Erec.
  - injection Hrun as <- <- _. split; cbn [recovered trades_read output_path exhausted_before_range_end]; try done.
    exists present, (wa_present w). split_and!; try done. simpl in *. lia.
  - destruct (write _ _) as [u|e]; [|done]. injection Hrun as <- <- _.
    split; cbn [recovered trades_read output_path exhausted_before_range_end]; try done.
    exists present, (wa_present w). split_and!; try done. cbn [length] in *. lia.
Qed.
End RehydrateProps.

(** ** One file without the print 6, repaired from Binance *)

Section Examples.
Local Existing Instances decimal_numeric ex_chrono.
Let ex_pair : TradingPair := {| base := "BTC"; quote := "USDT" |}.
Let ex_log : list Trade := map (binance_trade ex_pair) ex_binance_rows.

Definition ex_entries : Result (list (Result string PersistError)) PersistError :=
  Ok [Ok "trades.parquet"; Ok "trades.csv"; Ok "trades_rehydrated_1.parquet"]%string.

(** The file holds the prints 5 and 8. *)
Definition ex_read (name : string) : Result (list Trade) PersistError :=
  if String.eqb name "trades.parquet" then Ok (take 1 ex_log ++ drop 2 ex_log)
  else Err (PersistIo "no such file").

Definition ex_output : string := "binance_BTCUSDT_trades_rehydrated_20260717_000000.parquet".

Definition ex_report : RehydrateReport := {|
  rr_exchange := "binance"; rr_wire_symbol := "BTCUSDT"; files_scanned := 1; trades_read := 2;
  id_range := Some (5, 8); recovered := 1; exhausted_before_range_end := false;
  output_path := Some ex_output |}.

Lemma ex_run :
  rehydrate_trades_dir ex_entries ex_read (fun _ _ => Ok ()) "20260717_000000" "binance" "BTCUSDT"
    ex_pair (BinanceTradesFetch ex_binance_get) 0 = (Ok ex_report, Some (ex_output, ex_log), 1%nat).
Proof. reflexivity. Qed.

Lemma rehydrate_complete_witness :
  exists merged : btree N Trade, map snd merged = ex_log /\
    forall id, bt_get id merged = or_else (first_with id (take 1 ex_log ++ drop 2 ex_log))
                                          (first_with id (in_range 5 8 ex_log)).
Proof.
  destruct (rehydrate_complete (BinanceTradesFetch ex_binance_get) "BTCUSDT" ex_pair 5000 (fun _ => ex_log)
    (FL := binance_laws "BTCUSDT" ex_pair (fun _ => ex_binance_rows) ex_binance_get
             ex_binance_log ex_binance_serves)
    ex_entries ex_read (fun _ _ => Ok ()) "20260717_000000" "binance" 0 ex_report
    (Some (ex_output, ex_log)) 1 5 8 ltac:(lia) ltac:(reflexivity)
    ltac:(apply Nat.ltb_lt; reflexivity) ex_run eq_refl) as (names & files & Hn & Hf & H).
  injection Hn as <-. injection Hf as <-.
  destruct (rh_merged _ _ _ _ _ _ _ H) as (original & merged & _ & _ & _ & Hget & _ & Hfile).
  exists merged. split; [|exact Hget]. by injection Hfile as ->.
Defined.
End Examples.
