(* ===== verification/Snapshots.v ===== *)
(** * Market snapshots and clock modes

    [src/aetelier-types/src/snapshots/market.rs] (the row a synchronizer emits) and
    [src/aetelier-types/src/synchronizers.rs] (worker and clock modes).  The float sums of
    a snapshot are not modelled. *)

From Stdlib Require Import Ascii String.
From stdpp Require Import strings.
From S2P Require Import Prelude BTree Strings Numeric Pairs Types Delta Book.
Local Open Scope nat_scope.

Inductive ClockMode := OrderbookDriven | TradeDriven | LiquidationDriven | ExternalClock.

#[export] Instance ClockMode_eq_dec : EqDecision ClockMode.
Proof. solve_decision. Defined.

Inductive WorkerMode := Raw | Clock (clock : ClockMode) (period_us : N).

Definition clock_label (c : ClockMode) : string :=
  match c with
  | OrderbookDriven => "ON_ORDERBOOK"
  | TradeDriven => "ON_TRADE"
  | LiquidationDriven => "ON_LIQUIDATION"
  | ExternalClock => "ON_CLOCK"
  end.

Definition period_label (us : N) : string :=
  if (1000000 <=? us)%N && (us mod 1000000 =? 0)%N then (pretty (us / 1000000)%N ++ "S")%string
  else if (1000 <=? us)%N && (us mod 1000 =? 0)%N then (pretty (us / 1000)%N ++ "MS")%string
  else (pretty us ++ "US")%string.

Definition WorkerMode_fmt (m : WorkerMode) : string :=
  match m with
  | Raw => "RAW"
  | Clock c us =>
    match c with
    | ExternalClock => (clock_label c ++ "(" ++ period_label us ++ ")")%string
    | _ => clock_label c
    end
  end.

Section Snapshots.
Context {NU : Numeric}.

Record MarketSnapshot := {
  ms_ts_us : N;
  ms_orderbook : option Orderbook;
  ms_trades : list Trade;
  ms_liquidations : list Liquidation;
  ms_funding_rate : list FundingRate;
  ms_open_interest : list OpenInterest;
  ms_funding_settlements : list FundingSettlement
}.

Definition MarketSnapshot_empty (ts : N) : MarketSnapshot := {|
  ms_ts_us := ts; ms_orderbook := None; ms_trades := []; ms_liquidations := [];
  ms_funding_rate := []; ms_open_interest := []; ms_funding_settlements := []
|}.

Definition nonempty {A} (l : list A) : bool := match l with [] => false | _ => true end.

Definition has_data (s : MarketSnapshot) : bool :=
  match ms_orderbook s with Some _ => true | None => false end
  || nonempty (ms_trades s) || nonempty (ms_liquidations s) || nonempty (ms_funding_rate s)
  || nonempty (ms_open_interest s) || nonempty (ms_funding_settlements s).

Definition trade_count (s : MarketSnapshot) : nat := length (ms_trades s).
End Snapshots.
