(* ===== verification/MarketSync.v ===== *)
(** * Market synchronizer

    [src/aetelier-connect/src/synchronizers/market_sync.rs]: books, trades, liquidations,
    funding rates, open interest and settlements are attributed to the rows of a uniform
    time grid.  Row [p] closes the content period [[(p-1)*P, p*P)].  The [assert!] on the
    period of the constructors is a hypothesis of the theorems ([0 < period_us]).
    [market_aggregate] (floating point) and the parquet stub are not modelled.  A map's
    iteration order is that of [map_to_list]. *)

From Stdlib Require Import Ascii String.
From stdpp Require Import gmap strings.
From S2P Require Import Prelude BTree Strings Numeric Pairs Types Delta Book Snapshots.
Local Open Scope nat_scope.

Definition MAX_GAP_FILL : N := 10000.

Section MarketSync.
Context {NU : Numeric}.

Record PeriodEvents := {
  pe_trades : list Trade;
  pe_liquidations : list Liquidation;
  pe_funding : list FundingRate;
  pe_open_interest : list OpenInterest;
  pe_settlements : list FundingSettlement
}.

Definition PeriodEvents_default : PeriodEvents := {|
  pe_trades := []; pe_liquidations := []; pe_funding := []; pe_open_interest := [];
  pe_settlements := []
|}.

Record MarketSynchronizer := {
  period_us : N;
  emission_delay_us : N;
  clock_mode : ClockMode;
  last_period : gmap string N;
  clock_period : option N;
  ms_books : gmap string (btree N Orderbook);
  current_trades : list Trade;
  current_liquidations : list Liquidation;
  current_funding_rates : list FundingRate;
  current_funding_settlements : list FundingSettlement;
  current_open_interests : list OpenInterest;
  buffer : list MarketSnapshot;
  total_captured : nat;
  late_events_dropped : N;
  finalized : bool
}.

Definition with_clock_mode (p : N) (m : ClockMode) : MarketSynchronizer := {|
  period_us := p; emission_delay_us := 0; clock_mode := m;
  last_period := ∅; clock_period := None; ms_books := ∅;
  current_trades := []; current_liquidations := []; current_funding_rates := [];
  current_funding_settlements := []; current_open_interests := [];
  buffer := []; total_captured := 0; late_events_dropped := 0; finalized := false
|}.

Definition MarketSynchronizer_new (p : N) : MarketSynchronizer := with_clock_mode p OrderbookDriven.
Definition external_clock (p : N) : MarketSynchronizer := with_clock_mode p ExternalClock.
Definition trade_driven (p : N) : MarketSynchronizer := with_clock_mode p TradeDriven.
Definition liquidation_driven (p : N) : MarketSynchronizer := with_clock_mode p LiquidationDriven.

Definition with_ms_books (m : gmap string (btree N Orderbook)) (x : MarketSynchronizer) : MarketSynchronizer := {|
  period_us := period_us x; emission_delay_us := emission_delay_us x;
  clock_mode := clock_mode x; last_period := last_period x; clock_period := clock_period x;
  ms_books := m; current_trades := current_trades x;
  current_liquidations := current_liquidations x;
  current_funding_rates := current_funding_rates x;
  current_funding_settlements := current_funding_settlements x;
  current_open_interests := current_open_interests x; buffer := buffer x;
  total_captured := total_captured x; late_events_dropped := late_events_dropped x;
  finalized := finalized x
|}.

Definition with_last_period (m : gmap string N) (x : MarketSynchronizer) : MarketSynchronizer := {|
  period_us := period_us x; emission_delay_us := emission_delay_us x;
  clock_mode := clock_mode x; last_period := m; clock_period := clock_period x;
  ms_books := ms_books x; current_trades := current_trades x;
  current_liquidations := current_liquidations x;
  current_funding_rates := current_funding_rates x;
  current_funding_settlements := current_funding_settlements x;
  current_open_interests := current_open_interests x; buffer := buffer x;
  total_captured := total_captured x; late_events_dropped := late_events_dropped x;
  finalized := finalized x
|}.

Definition with_clock (c : option N) (x : MarketSynchronizer) : MarketSynchronizer := {|
  period_us := period_us x; emission_delay_us := emission_delay_us x;
  clock_mode := clock_mode x; last_period := last_period x; clock_period := c;
  ms_books := ms_books x; current_trades := current_trades x;
  current_liquidations := current_liquidations x;
  current_funding_rates := current_funding_rates x;
  current_funding_settlements := current_funding_settlements x;
  current_open_interests := current_open_interests x; buffer := buffer x;
  total_captured := total_captured x; late_events_dropped := late_events_dropped x;
  finalized := finalized x
|}.

Definition with_trades (l : list Trade) (x : MarketSynchronizer) : MarketSynchronizer := {|
  period_us := period_us x; emission_delay_us := emission_delay_us x;
  clock_mode := clock_mode x; last_period := last_period x; clock_period := clock_period x;
  ms_books := ms_books x; current_trades := l;
  current_liquidations := current_liquidations x;
  current_funding_rates := current_funding_rates x;
  current_funding_settlements := current_funding_settlements x;
  current_open_interests := current_open_interests x; buffer := buffer x;
  total_captured := total_captured x; late_events_dropped := late_events_dropped x;
  finalized := finalized x
|}.

Definition with_liquidations (l : list Liquidation) (x : MarketSynchronizer) : MarketSynchronizer := {|
  period_us := period_us x; emission_delay_us := emission_delay_us x;
  clock_mode := clock_mode x; last_period := last_period x; clock_period := clock_period x;
  ms_books := ms_books x; current_trades := current_trades x; current_liquidations := l;
  current_funding_rates := current_funding_rates x;
  current_funding_settlements := current_funding_settlements x;
  current_open_interests := current_open_interests x; buffer := buffer x;
  total_captured := total_captured x; late_events_dropped := late_events_dropped x;
  finalized := finalized x
|}.

Definition with_funding (l : list FundingRate) (x : MarketSynchronizer) : MarketSynchronizer := {|
  period_us := period_us x; emission_delay_us := emission_delay_us x;
  clock_mode := clock_mode x; last_period := last_period x; clock_period := clock_period x;
  ms_books := ms_books x; current_trades := current_trades x;
  current_liquidations := current_liquidations x; current_funding_rates := l;
  current_funding_settlements := current_funding_settlements x;
  current_open_interests := current_open_interests x; buffer := buffer x;
  total_captured := total_captured x; late_events_dropped := late_events_dropped x;
  finalized := finalized x
|}.

Definition with_settlements (l : list FundingSettlement) (x : MarketSynchronizer) : MarketSynchronizer := {|
  period_us := period_us x; emission_delay_us := emission_delay_us x;
  clock_mode := clock_mode x; last_period := last_period x; clock_period := clock_period x;
  ms_books := ms_books x; current_trades := current_trades x;
  current_liquidations := current_liquidations x;
  current_funding_rates := current_funding_rates x; current_funding_settlements := l;
  current_open_interests := current_open_interests x; buffer := buffer x;
  total_captured := total_captured x; late_events_dropped := late_events_dropped x;
  finalized := finalized x
|}.

Definition with_open_interests (l : list OpenInterest) (x : MarketSynchronizer) : MarketSynchronizer := {|
  period_us := period_us x; emission_delay_us := emission_delay_us x;
  clock_mode := clock_mode x; last_period := last_period x; clock_period := clock_period x;
  ms_books := ms_books x; current_trades := current_trades x;
  current_liquidations := current_liquidations x;
  current_funding_rates := current_funding_rates x;
  current_funding_settlements := current_funding_settlements x; current_open_interests := l;
  buffer := buffer x; total_captured := total_captured x;
  late_events_dropped := late_events_dropped x; finalized := finalized x
|}.

Definition with_current (ts : list Trade) (ls : list Liquidation) (fs : list FundingRate)
    (ss : list FundingSettlement) (os : list OpenInterest) (x : MarketSynchronizer) : MarketSynchronizer := {|
  period_us := period_us x; emission_delay_us := emission_delay_us x;
  clock_mode := clock_mode x; last_period := last_period x; clock_period := clock_period x;
  ms_books := ms_books x; current_trades := ts; current_liquidations := ls;
  current_funding_rates := fs; current_funding_settlements := ss;
  current_open_interests := os; buffer := buffer x; total_captured := total_captured x;
  late_events_dropped := late_events_dropped x; finalized := finalized x
|}.

Definition with_buffer (l : list MarketSnapshot) (x : MarketSynchronizer) : MarketSynchronizer := {|
  period_us := period_us x; emission_delay_us := emission_delay_us x;
  clock_mode := clock_mode x; last_period := last_period x; clock_period := clock_period x;
  ms_books := ms_books x; current_trades := current_trades x;
  current_liquidations := current_liquidations x;
  current_funding_rates := current_funding_rates x;
  current_funding_settlements := current_funding_settlements x;
  current_open_interests := current_open_interests x; buffer := l;
  total_captured := total_captured x; late_events_dropped := late_events_dropped x;
  finalized := finalized x
|}.

Definition with_captured (n : nat) (x : MarketSynchronizer) : MarketSynchronizer := {|
  period_us := period_us x; emission_delay_us := emission_delay_us x;
  clock_mode := clock_mode x; last_period := last_period x; clock_period := clock_period x;
  ms_books := ms_books x; current_trades := current_trades x;
  current_liquidations := current_liquidations x;
  current_funding_rates := current_funding_rates x;
  current_funding_settlements := current_funding_settlements x;
  current_open_interests := current_open_interests x; buffer := buffer x;
  total_captured := n; late_events_dropped := late_events_dropped x;
  finalized := finalized x
|}.

Definition with_late (n : N) (x : MarketSynchronizer) : MarketSynchronizer := {|
  period_us := period_us x; emission_delay_us := emission_delay_us x;
  clock_mode := clock_mode x; last_period := last_period x; clock_period := clock_period x;
  ms_books := ms_books x; current_trades := current_trades x;
  current_liquidations := current_liquidations x;
  current_funding_rates := current_funding_rates x;
  current_funding_settlements := current_funding_settlements x;
  current_open_interests := current_open_interests x; buffer := buffer x;
  total_captured := total_captured x; late_events_dropped := n; finalized := finalized x
|}.

Definition with_finalized (v : bool) (x : MarketSynchronizer) : MarketSynchronizer := {|
  period_us := period_us x; emission_delay_us := emission_delay_us x;
  clock_mode := clock_mode x; last_period := last_period x; clock_period := clock_period x;
  ms_books := ms_books x; current_trades := current_trades x;
  current_liquidations := current_liquidations x;
  current_funding_rates := current_funding_rates x;
  current_funding_settlements := current_funding_settlements x;
  current_open_interests := current_open_interests x; buffer := buffer x;
  total_captured := total_captured x; late_events_dropped := late_events_dropped x;
  finalized := v
|}.

Definition with_delay (d : N) (x : MarketSynchronizer) : MarketSynchronizer := {|
  period_us := period_us x; emission_delay_us := d; clock_mode := clock_mode x;
  last_period := last_period x; clock_period := clock_period x; ms_books := ms_books x;
  current_trades := current_trades x; current_liquidations := current_liquidations x;
  current_funding_rates := current_funding_rates x;
  current_funding_settlements := current_funding_settlements x;
  current_open_interests := current_open_interests x; buffer := buffer x;
  total_captured := total_captured x; late_events_dropped := late_events_dropped x;
  finalized := finalized x
|}.
(** ** Books *)

Definition record_book (key : string) (ts : N) (b : Orderbook) (s : MarketSynchronizer)
    : MarketSynchronizer :=
  let m := default [] (ms_books s !! key) in
  with_ms_books (<[key := bt_insert (ts / period_us s)%N b m]> (ms_books s)) s.

(** [m.range(..row).next_back()] *)
Definition last_before (row : N) (m : btree N Orderbook) : option (N * Orderbook) :=
  bt_last (bt_below row m).

Definition as_of_book (key : string) (row : N) (s : MarketSynchronizer) : option Orderbook :=
  match ms_books s !! key with
  | Some m => option_map snd (last_before row m)
  | None => None
  end.

Definition as_of_book_any (row : N) (s : MarketSynchronizer) : option Orderbook :=
  match map_to_list (ms_books s) with
  | (_, m) :: _ => option_map snd (last_before row m)
  | [] => None
  end.

Definition prune_history (last_row : N) (m : btree N Orderbook) : btree N Orderbook :=
  match last_before last_row m with
  | Some (keep, _) => List.filter (fun e => (keep <=? e.1)%N) m
  | None => m
  end.

Definition prune_books (last_row : N) (s : MarketSynchronizer) : MarketSynchronizer :=
  with_ms_books (prune_history last_row <$> ms_books s) s.

(** ** Attribution of events to rows *)

(** The row of an event: it closes the period the event's timestamp falls in. *)
Definition event_row (period ts : N) : N := u64_add (ts / period) 1.

(** One loop of [drain_events] on the list of one kind: the rows' bundles, the events
    kept for rows to come, and the count of late ones. *)
Definition route {A} (row : A -> N) (push : A -> PeriodEvents -> PeriodEvents) (prev last : N)
    (acc : gmap N PeriodEvents * list A * N) (x : A) : gmap N PeriodEvents * list A * N :=
  let '(out, kept, late) := acc in
  let r := row x in
  if (r <=? prev)%N then (out, kept, late + 1)%N
  else if (r <=? last)%N
  then (<[r := push x (default PeriodEvents_default (out !! r))]> out, kept, late)
  else (out, kept ++ [x], late).

Definition push_trade (x : Trade) (e : PeriodEvents) : PeriodEvents := {|
  pe_trades := pe_trades e ++ [x]; pe_liquidations := pe_liquidations e;
  pe_funding := pe_funding e; pe_open_interest := pe_open_interest e;
  pe_settlements := pe_settlements e |}.
Definition push_liquidation (x : Liquidation) (e : PeriodEvents) : PeriodEvents := {|
  pe_trades := pe_trades e; pe_liquidations := pe_liquidations e ++ [x];
  pe_funding := pe_funding e; pe_open_interest := pe_open_interest e;
  pe_settlements := pe_settlements e |}.
Definition push_funding (x : FundingRate) (e : PeriodEvents) : PeriodEvents := {|
  pe_trades := pe_trades e; pe_liquidations := pe_liquidations e;
  pe_funding := pe_funding e ++ [x]; pe_open_interest := pe_open_interest e;
  pe_settlements := pe_settlements e |}.
Definition push_open_interest (x : OpenInterest) (e : PeriodEvents) : PeriodEvents := {|
  pe_trades := pe_trades e; pe_liquidations := pe_liquidations e;
  pe_funding := pe_funding e; pe_open_interest := pe_open_interest e ++ [x];
  pe_settlements := pe_settlements e |}.
Definition push_settlement (x : FundingSettlement) (e : PeriodEvents) : PeriodEvents := {|
  pe_trades := pe_trades e; pe_liquidations := pe_liquidations e;
  pe_funding := pe_funding e; pe_open_interest := pe_open_interest e;
  pe_settlements := pe_settlements e ++ [x] |}.

Definition trade_row (p : N) (t : Trade) : N := event_row p (source_trade_ts_us t).
Definition liquidation_row (p : N) (l : Liquidation) : N := event_row p (liquidation_ts_us l).
Definition funding_row (p : N) (f : FundingRate) : N := event_row p (FundingRate_effective_ts_us f).
Definition open_interest_row (p : N) (o : OpenInterest) : N :=
  event_row p (OpenInterest_effective_ts_us o).
(** A settlement is never late. *)
Definition settlement_row (p prev : N) (s : FundingSettlement) : N :=
  N.max (event_row p (settlement_local_ts_us s)) (u64_add prev 1).

Definition drain_events (prev last : N) (s : MarketSynchronizer)
    : MarketSynchronizer * gmap N PeriodEvents :=
  let p := period_us s in
  let '(out, trades, late) :=
    fold_left (route (trade_row p) push_trade prev last) (current_trades s) (∅, [], 0%N) in
  let '(out, liqs, late) :=
    fold_left (route (liquidation_row p) push_liquidation prev last) (current_liquidations s)
      (out, [], late) in
  let '(out, funding, late) :=
    fold_left (route (funding_row p) push_funding prev last) (current_funding_rates s)
      (out, [], late) in
  let '(out, ois, late) :=
    fold_left (route (open_interest_row p) push_open_interest prev last)
      (current_open_interests s) (out, [], late) in
  let '(out, setts, late) :=
    fold_left (route (settlement_row p prev) push_settlement prev last)
      (current_funding_settlements s) (out, [], late) in
  (with_late (u64_add (late_events_dropped s) late)
     (with_current trades liqs funding setts ois s), out).

(** ** Rows *)

Definition bundle_snapshot (ts : N) (book : option Orderbook) (e : PeriodEvents) : MarketSnapshot := {|
  ms_ts_us := ts; ms_orderbook := book;
  ms_trades := pe_trades e; ms_liquidations := pe_liquidations e;
  ms_funding_rate := pe_funding e; ms_open_interest := pe_open_interest e;
  ms_funding_settlements := pe_settlements e
|}.

(** The rows [prev+1 ..= prev+fill]. *)
Definition row_labels (prev fill : N) : list N :=
  map (fun k => (prev + 1 + N.of_nat k)%N) (seq 0 (N.to_nat fill)).

Definition emit_rows (book_of : N -> option Orderbook) (prev fill : N)
    (by_period : gmap N PeriodEvents) (s : MarketSynchronizer) : MarketSynchronizer :=
  with_buffer (buffer s ++ map (fun p =>
    bundle_snapshot (u64_mul p (period_us s)) (book_of p)
      (default PeriodEvents_default (by_period !! p))) (row_labels prev fill)) s.

(** The rows crossed from [prev] to [cur] (at most [MAX_GAP_FILL]). *)
Definition cross_rows (book_of : MarketSynchronizer -> N -> option Orderbook) (prev cur : N)
    (s : MarketSynchronizer) : MarketSynchronizer :=
  let fill := N.min (cur - prev) MAX_GAP_FILL in
  let last_emitted := (prev + fill)%N in
  let '(s, by_period) := drain_events prev last_emitted s in
  prune_books last_emitted (emit_rows (book_of s) prev fill by_period s).

Definition fill_count (prev cur : N) : nat := N.to_nat (N.min (cur - prev) MAX_GAP_FILL).

(** The period the clock stands in at [ts], held back by the emission delay. *)
Definition ripe_period (ts : N) (s : MarketSynchronizer) : N :=
  ((ts - emission_delay_us s) / period_us s)%N.

Definition advance_grid (ts : N) (s : MarketSynchronizer) : MarketSynchronizer * nat :=
  let current := ripe_period ts s in
  match clock_period s with
  | None => (with_clock (Some current) s, 0)
  | Some prev =>
    if (current <=? prev)%N then (s, 0)
    else
      let n := fill_count prev current in
      let s := cross_rows (fun s p => as_of_book_any p s) prev current s in
      (with_captured (total_captured s + n) (with_clock (Some current) s), n)
  end.

(** ** Feeds *)

Definition drop_post_finalize (s : MarketSynchronizer) : MarketSynchronizer :=
  with_late (u64_add (late_events_dropped s) 1) s.

Definition on_time (ts : N) (s : MarketSynchronizer) : MarketSynchronizer * nat :=
  if finalized s then (drop_post_finalize s, 0)
  else if bool_decide (clock_mode s = ExternalClock) then advance_grid ts s
  else (s, 0).

Definition on_orderbook (p : TradingPair) (ts : N) (snapshot : Orderbook) (s : MarketSynchronizer)
    : MarketSynchronizer * nat :=
  if finalized s then (drop_post_finalize s, 0)
  else
    let key := to_canonical p in
    if negb (bool_decide (clock_mode s = OrderbookDriven)) then (record_book key ts snapshot s, 0)
    else
      let current := ripe_period ts s in
      match last_period s !! key with
      | None => (record_book key ts snapshot (with_last_period (<[key := current]> (last_period s)) s), 0)
      | Some prev =>
        if (current <=? prev)%N then (record_book key ts snapshot s, 0)
        else
          let n := fill_count prev current in
          let s := cross_rows (fun s p => as_of_book key p s) prev current s in
          let s := with_last_period (<[key := current]> (last_period s)) s in
          (with_captured (total_captured s + n) (record_book key ts snapshot s), n)
      end.

Definition on_trade (t : Trade) (s : MarketSynchronizer) : MarketSynchronizer * nat :=
  if finalized s then (drop_post_finalize s, 0)
  else
    let s := with_trades (current_trades s ++ [t]) s in
    if bool_decide (clock_mode s = TradeDriven) then advance_grid (source_trade_ts_us t) s else (s, 0).

Definition on_liquidation (l : Liquidation) (s : MarketSynchronizer) : MarketSynchronizer * nat :=
  if finalized s then (drop_post_finalize s, 0)
  else
    let s := with_liquidations (current_liquidations s ++ [l]) s in
    if bool_decide (clock_mode s = LiquidationDriven) then advance_grid (liquidation_ts_us l) s
    else (s, 0).

Definition on_funding (f : FundingRate) (s : MarketSynchronizer) : MarketSynchronizer :=
  if finalized s then drop_post_finalize s
  else with_funding (current_funding_rates s ++ [f]) s.

Definition on_funding_settlement (f : FundingSettlement) (s : MarketSynchronizer)
    : MarketSynchronizer :=
  if finalized s then drop_post_finalize s
  else with_settlements (current_funding_settlements s ++ [f]) s.

Definition on_open_interest (o : OpenInterest) (s : MarketSynchronizer) : MarketSynchronizer :=
  if finalized s then drop_post_finalize s
  else with_open_interests (current_open_interests s ++ [o]) s.

(** ** End of stream *)

Definition take_bundle (s : MarketSynchronizer) : PeriodEvents := {|
  pe_trades := current_trades s; pe_liquidations := current_liquidations s;
  pe_funding := current_funding_rates s; pe_open_interest := current_open_interests s;
  pe_settlements := current_funding_settlements s
|}.

Definition push_final (period : N) (book : option Orderbook) (e : PeriodEvents)
    (s : MarketSynchronizer) : MarketSynchronizer :=
  with_captured (total_captured s + 1)
    (with_buffer (buffer s ++ [bundle_snapshot (u64_mul (u64_add period 1) (period_us s)) book e]) s).

(** One row per tracked symbol, each with every remaining event. *)
Definition finalize_ob_driven (s : MarketSynchronizer) : MarketSynchronizer :=
  let periods := map_to_list (last_period s) in
  let e := take_bundle s in
  fold_left (fun s (sp : string * N) => push_final sp.2 (as_of_book sp.1 u64_max s) e s)
    periods (with_current [] [] [] [] [] s).

Definition finalize_global_clock (s : MarketSynchronizer) : MarketSynchronizer :=
  match clock_period s with
  | None => s
  | Some period =>
    push_final period (as_of_book_any u64_max s) (take_bundle s) (with_current [] [] [] [] [] s)
  end.

Definition finalize (s : MarketSynchronizer) : MarketSynchronizer :=
  if finalized s then s
  else
    let s := with_finalized true s in
    if bool_decide (clock_mode s = OrderbookDriven) then finalize_ob_driven s
    else finalize_global_clock s.

Definition set_emission_delay_us (d : N) (s : MarketSynchronizer) : MarketSynchronizer := with_delay d s.

Definition drain (s : MarketSynchronizer) : MarketSynchronizer * list MarketSnapshot :=
  (with_buffer [] s, buffer s).
Definition buffer_len (s : MarketSynchronizer) : nat := length (buffer s).
End MarketSync.
