(* ===== verification/MarketSyncProps.v ===== *)
(** * Properties of the market synchronizer

    Rows receive exactly the events of the period they close, every event is accounted
    for once, labels never repeat, pruning the book history is invisible, and the end
    of the stream is terminal. *)

From Stdlib Require Import Sorting.Sorted Ascii String.
From stdpp Require Import gmap strings relations sorting.
From S2P Require Import Prelude BTree Strings Numeric Pairs Types Delta Book Snapshots MarketSync.
Local Open Scope nat_scope.

Section Routing.
Context {NU : Numeric}.
Implicit Types (s : MarketSynchronizer) (e : PeriodEvents) (out : gmap N PeriodEvents).

Definition bundle out (r : N) : PeriodEvents := default PeriodEvents_default (out !! r).

(** The elements of a list that belong to row [r]. *)
Definition of_row {A} (row : A -> N) (r : N) (l : list A) : list A :=
  List.filter (fun x => (row x =? r)%N) l.
Definition after_row {A} (row : A -> N) (last : N) (l : list A) : list A :=
  List.filter (fun x => (last <? row x)%N) l.
Definition upto_row {A} (row : A -> N) (prev : N) (l : list A) : list A :=
  List.filter (fun x => (row x <=? prev)%N) l.

Lemma route_spec {A} (row : A -> N) push prev last (l : list A) out kept late :
  (prev <= last)%N ->
  let '(out', kept', late') := fold_left (route row push prev last) l (out, kept, late) in
  kept' = kept ++ after_row row last l /\
  late' = (late + N.of_nat (length (upto_row row prev l)))%N /\
  forall r, bundle out' r =
    fold_left (fun e x => push x e)
      (if (prev <? r)%N && (r <=? last)%N then of_row row r l else []) (bundle out r).
Proof.
  intros Hle. revert out kept late.
  induction l as [|x l IH]; intros out kept late; cbn [fold_left after_row upto_row of_row List.filter].
  { split_and!; [by rewrite app_nil_r|simpl; lia|]. intros r. by destruct (_ && _). }
  unfold route at 2. cbv zeta.
  destruct (N.leb_spec (row x) prev) as [Hp|Hp].
  - specialize (IH out kept (late + 1)%N).
    destruct (fold_left _ l _) as [[out' kept'] late']. destruct IH as (-> & -> & Hr).
    assert ((last <? row x)%N = false) as -> by (apply N.ltb_ge; lia).
    split_and!; [done|cbn [length]; unfold upto_row; lia|]. intros r. rewrite Hr. f_equal.
    destruct ((prev <? r)%N && (r <=? last)%N) eqn:Hin; [|done]. reflect_bools.
    by assert ((row x =? r)%N = false) as -> by (apply N.eqb_neq; lia).
  - destruct (N.leb_spec (row x) last) as [Hl|Hl].
    + specialize (IH (<[row x := push x (bundle out (row x))]> out) kept late).
      unfold bundle in IH at 1. fold (bundle out (row x)).
      destruct (fold_left _ l _) as [[out' kept'] late']. destruct IH as (-> & -> & Hr).
      assert ((last <? row x)%N = false) as -> by (apply N.ltb_ge; lia).
      split_and!; [done|done|]. intros r. rewrite Hr. unfold bundle at 1.
      destruct (N.eqb_spec (row x) r) as [<-|Hne].
      * rewrite lookup_insert_eq. simpl.
        assert ((prev <? row x)%N && (row x <=? last)%N = true) as ->; [|done].
        apply andb_true_iff. split; [by apply N.ltb_lt|by apply N.leb_le].
      * rewrite lookup_insert_ne by done. by destruct (_ && _).
    + specialize (IH out (kept ++ [x]) late).
      destruct (fold_left _ l _) as [[out' kept'] late']. destruct IH as (-> & -> & Hr).
      assert ((last <? row x)%N = true) as -> by (by apply N.ltb_lt).
      split_and!; [by rewrite <- app_assoc|done|]. intros r. rewrite Hr. f_equal.
      destruct ((prev <? r)%N && (r <=? last)%N) eqn:Hin; [|done]. reflect_bools.
      by assert ((row x =? r)%N = false) as -> by (apply N.eqb_neq; lia).
Qed.

(** What folding the pushes of one kind does to a bundle. *)
Lemma fold_push {A} (push : A -> PeriodEvents -> PeriodEvents) {B} (proj : PeriodEvents -> list B)
    (f : A -> list B) l e :
  (forall x e, proj (push x e) = proj e ++ f x) ->
  proj (fold_left (fun e x => push x e) l e) = proj e ++ concat (map f l).
Proof.
  intros Hp. revert e. induction l as [|x l IH]; intros e; simpl; [by rewrite app_nil_r|].
  by rewrite IH, Hp, <- app_assoc.
Qed.

Lemma concat_singletons {A} (l : list A) : concat (map (fun x => [x]) l) = l.
Proof. induction l as [|x l IH]; simpl; [done|by rewrite IH]. Qed.

Lemma concat_nils {A B} (l : list A) : concat (map (fun _ => @nil B) l) = [].
Proof. induction l as [|x l IH]; simpl; done. Qed.

(** One loop of [drain_events]; and a projection of the bundle it builds. *)
Ltac step_route Hle :=
  match goal with
  | |- context [fold_left (route ?row ?push ?prev ?last) ?l (?out, ?kept, ?late)] =>
    let H := fresh "Hroute" in
    pose proof (route_spec row push prev last l out kept late Hle) as H;
    destruct (fold_left (route row push prev last) l (out, kept, late)) as [[? ?] ?];
    destruct H as (-> & -> & H)
  end.

Ltac project_folds proj :=
  repeat match goal with
  | |- context [proj (fold_left (fun e x => ?psh x e) ?l0 ?e0)] =>
    first [ rewrite (fold_push psh proj (fun x => [x]) l0 e0) by (intros; reflexivity)
          | rewrite (fold_push psh proj (fun _ => []) l0 e0) by (intros; symmetry; apply app_nil_r) ]
  end;
  rewrite ?concat_nils, ?concat_singletons, ?app_nil_r; reflexivity.

(** The bundle of row [r], by timestamps alone. *)
Definition bundle_of (prev r : N) s : PeriodEvents :=
  let p := period_us s in {|
  pe_trades := of_row (trade_row p) r (current_trades s);
  pe_liquidations := of_row (liquidation_row p) r (current_liquidations s);
  pe_funding := of_row (funding_row p) r (current_funding_rates s);
  pe_open_interest := of_row (open_interest_row p) r (current_open_interests s);
  pe_settlements := of_row (settlement_row p prev) r (current_funding_settlements s)
|}.

(** What stays, and how many are late. *)
Definition keep_after (prev last : N) s : MarketSynchronizer :=
  let p := period_us s in
  with_current (after_row (trade_row p) last (current_trades s))
    (after_row (liquidation_row p) last (current_liquidations s))
    (after_row (funding_row p) last (current_funding_rates s))
    (after_row (settlement_row p prev) last (current_funding_settlements s))
    (after_row (open_interest_row p) last (current_open_interests s)) s.

Definition late_count (prev : N) s : nat :=
  let p := period_us s in
  length (upto_row (trade_row p) prev (current_trades s)) +
  length (upto_row (liquidation_row p) prev (current_liquidations s)) +
  length (upto_row (funding_row p) prev (current_funding_rates s)) +
  length (upto_row (open_interest_row p) prev (current_open_interests s)) +
  length (upto_row (settlement_row p prev) prev (current_funding_settlements s)).

Lemma drain_events_spec prev last s :
  (prev <= last)%N ->
  let '(s', out) := drain_events prev last s in
  s' = with_late (u64_add (late_events_dropped s) (N.of_nat (late_count prev s)))
         (keep_after prev last s) /\
  forall r, (prev < r <= last)%N -> bundle out r = bundle_of prev r s.
Proof.
  intros Hle. unfold drain_events. cbv zeta. do 5 step_route Hle. split.
  { unfold late_count, keep_after. cbn [app]. do 2 f_equal. lia. }
  intros r Hr. rewrite Hroute3, Hroute2, Hroute1, Hroute0, Hroute.
  assert ((prev <? r)%N && (r <=? last)%N = true) as ->.
  { apply andb_true_iff. split; [apply N.ltb_lt|apply N.leb_le]; lia. }
  assert (bundle ∅ r = PeriodEvents_default) as -> by (unfold bundle; by rewrite lookup_empty).
  assert (forall x y : PeriodEvents, pe_trades x = pe_trades y ->
    pe_liquidations x = pe_liquidations y -> pe_funding x = pe_funding y ->
    pe_open_interest x = pe_open_interest y -> pe_settlements x = pe_settlements y -> x = y) as Hext.
  { intros [] []; simpl. by intros -> -> -> -> ->. }
  apply Hext; unfold bundle_of.
  - project_folds pe_trades.
  - project_folds pe_liquidations.
  - project_folds pe_funding.
  - project_folds pe_open_interest.
  - project_folds pe_settlements.
Qed.
End Routing.

(** ** The rows of one advance of the clock *)

Section Rows.
Context {NU : Numeric}.
Implicit Types (s : MarketSynchronizer).

Lemma row_labels_in prev fill r : r ∈ row_labels prev fill <-> (prev < r <= prev + fill)%N.
Proof.
  unfold row_labels. rewrite list_elem_of_fmap. split.
  - intros (k & -> & Hk). apply elem_of_seq in Hk. lia.
  - intros Hr. exists (N.to_nat (r - prev - 1)). split; [lia|]. apply elem_of_seq. lia.
Qed.

(** Crossing from [prev] to [cur] by the declarative reading. *)
Definition rows_between (book_of : N -> option Orderbook) (prev fill : N) s : list MarketSnapshot :=
  map (fun r => bundle_snapshot (u64_mul r (period_us s)) (book_of r) (bundle_of prev r s))
    (row_labels prev fill).

Lemma cross_rows_spec book_of prev cur s :
  (forall s1 s2, ms_books s1 = ms_books s2 -> book_of s1 = book_of s2) ->
  let fill := N.min (cur - prev) MAX_GAP_FILL in
  let s' := cross_rows book_of prev cur s in
  buffer s' = buffer s ++ rows_between (book_of s) prev fill s /\
  take_bundle s' = take_bundle (keep_after prev (prev + fill) s) /\
  late_events_dropped s' = u64_add (late_events_dropped s) (N.of_nat (late_count prev s)) /\
  ms_books s' = prune_history (prev + fill) <$> ms_books s /\
  period_us s' = period_us s /\ clock_mode s' = clock_mode s /\ finalized s' = finalized s /\
  clock_period s' = clock_period s /\ last_period s' = last_period s /\
  total_captured s' = total_captured s /\ emission_delay_us s' = emission_delay_us s.
Proof.
  intros Hext fill s'. subst s'. unfold cross_rows. cbv zeta. fold fill.
  pose proof (drain_events_spec prev (prev + fill) s ltac:(lia)) as H.
  destruct (drain_events prev (prev + fill) s) as [s1 out]. destruct H as [-> Hb].
  set (s1 := with_late _ _). split_and!; try done.
  simpl. f_equal. unfold rows_between. apply map_ext_in. intros r Hr.
  apply list_elem_of_In, row_labels_in in Hr. unfold bundle in Hb. rewrite (Hb r Hr).
  f_equal. by rewrite (Hext s1 s).
Qed.

(** The clock emits exactly the rows it crosses, with exactly their content.  When
    the grid advances from period [prev] to a later one, the rows appended are
    [prev+1 .. prev+fill] ([fill] capped at 10000), each stamped with its grid label,
    holding, in order of arrival, precisely the buffered events whose own timestamp
    belongs to it and the last book before its boundary; what belongs to later rows
    stays, what belongs to rows already closed is counted late, and nothing else
    changes. *)
Theorem advance_grid_rows ts s prev :
  clock_period s = Some prev -> (prev < ripe_period ts s)%N ->
  let fill := N.min (ripe_period ts s - prev) MAX_GAP_FILL in
  let '(s', n) := advance_grid ts s in
  n = N.to_nat fill /\ total_captured s' = total_captured s + n /\
  clock_period s' = Some (ripe_period ts s) /\
  buffer s' = buffer s ++ rows_between (fun r => as_of_book_any r s) prev fill s /\
  take_bundle s' = take_bundle (keep_after prev (prev + fill) s) /\
  late_events_dropped s' = u64_add (late_events_dropped s) (N.of_nat (late_count prev s)).
Proof.
  intros Hc Hlt fill. unfold advance_grid. rewrite Hc. cbv zeta.
  destruct (N.leb_spec (ripe_period ts s) prev); [lia|].
  destruct (cross_rows_spec (fun s r => as_of_book_any r s) prev (ripe_period ts s) s)
    as (H1 & H2 & H3 & H4 & H5 & H6 & H7 & H8 & H9 & H10 & H11).
  { intros s1 s2 E. unfold as_of_book_any. by rewrite E. }
  split_and!; [done|simpl; by rewrite H10|done|exact H1|exact H2|exact H3].
Qed.

(** ** Pruning *)

Lemma last_before_spec row (m : btree N Orderbook) k b :
  bt_wf m -> last_before row m = Some (k, b) ->
  (k, b) ∈ m /\ (k < row)%N /\ forall k' b', (k', b') ∈ m -> (k' < row)%N -> (k' <= k)%N.
Proof.
  intros Hwf H. unfold last_before in H.
  assert (bt_wf (bt_below row m)) as Hwf' by by apply bt_wf_filter.
  pose proof (bt_last_elem _ _ H) as Hin. unfold bt_below in Hin.
  apply list_elem_of_In, filter_In in Hin as [Hin Hk]. apply list_elem_of_In in Hin. simpl in Hk.
  assert (forall a b : N, match cmp a b with Lt => true | _ => false end = (a <? b)%N) as Hlt.
  { intros x y. unfold cmp, N_cmp. unfold N.ltb. by destruct (N.compare x y). }
  rewrite Hlt in Hk. apply N.ltb_lt in Hk. split_and!; [done|done|]. intros k' b' Hin' Hk'.
  assert ((k', b') ∈ bt_below row m) as Hin2.
  { apply list_elem_of_In, filter_In. split; [by apply list_elem_of_In|]. simpl. rewrite Hlt.
    by apply N.ltb_lt. }
  assert (cmp k' k <> Gt) as Hle by by eapply bt_last_max.
  apply N.compare_le_iff. exact Hle.
Qed.

Lemma last_filter_keep {A} (f : A -> bool) (l : list A) x :
  last l = Some x -> f x = true -> last (List.filter f l) = Some x.
Proof.
  induction l as [|y [|z l] IH]; intros Hl Hf; [done| |].
  - simplify_eq/=. by rewrite Hf.
  - change (last (z :: l) = Some x) in Hl. specialize (IH Hl Hf).
    simpl. simpl in IH. destruct (f y); [|done].
    destruct (if f z then _ else _) as [|w l'] eqn:E; [done|]. exact IH.
Qed.

Lemma filter_comm {A} (f g : A -> bool) l :
  List.filter f (List.filter g l) = List.filter g (List.filter f l).
Proof.
  induction l as [|x l IH]; simpl; [done|].
  destruct (f x) eqn:Ef, (g x) eqn:Eg; simpl; rewrite ?Ef, ?Eg, IH; done.
Qed.

(** Pruning the book history is invisible: after a prune at the last emitted row,
    the book as of any later boundary is the same as without it. *)
Theorem prune_history_invisible last_row row (m : btree N Orderbook) :
  bt_wf m -> (last_row <= row)%N ->
  last_before row (prune_history last_row m) = last_before row m.
Proof.
  intros Hwf Hle. unfold prune_history.
  destruct (last_before last_row m) as [[keep b]|] eqn:Hk; [|done].
  destruct (last_before_spec _ _ _ _ Hwf Hk) as (Hin & Hlt & _).
  assert ((keep, b) ∈ bt_below row m) as Hbelow.
  { unfold bt_below. apply list_elem_of_In, filter_In. split; [by apply list_elem_of_In|]. simpl.
    assert (cmp keep row = Lt) as -> by (apply N.compare_lt_iff; lia). done. }
  unfold last_before at 1, bt_below. rewrite filter_comm. fold (bt_below row m).
  destruct (last_before row m) as [[k b']|] eqn:Hr.
  - destruct (last_before_spec _ _ _ _ Hwf Hr) as (_ & _ & Hmax).
    apply last_filter_keep; [exact Hr|].
    simpl. apply N.leb_le. apply (Hmax keep b Hin). lia.
  - unfold last_before, bt_last in Hr. apply last_None in Hr. rewrite Hr in Hbelow.
    by apply not_elem_of_nil in Hbelow.
Qed.
End Rows.

(** ** Runs of a synchronizer *)

Section SyncRuns.
Context {NU : Numeric}.
Implicit Types (s : MarketSynchronizer).

Inductive SyncOp :=
| OpTime (ts : N)
| OpBook (p : TradingPair) (ts : N) (b : Orderbook)
| OpTrade (t : Trade)
| OpLiquidation (l : Liquidation)
| OpFunding (f : FundingRate)
| OpSettlement (f : FundingSettlement)
| OpOpenInterest (o : OpenInterest)
| OpDrain
| OpFinalize.

(** The state with the rows already drained. *)
Definition sync_step (st : MarketSynchronizer * list MarketSnapshot) (o : SyncOp)
    : MarketSynchronizer * list MarketSnapshot :=
  let '(s, out) := st in
  match o with
  | OpTime ts => ((on_time ts s).1, out)
  | OpBook p ts b => ((on_orderbook p ts b s).1, out)
  | OpTrade t => ((on_trade t s).1, out)
  | OpLiquidation l => ((on_liquidation l s).1, out)
  | OpFunding f => (on_funding f s, out)
  | OpSettlement f => (on_funding_settlement f s, out)
  | OpOpenInterest o => (on_open_interest o s, out)
  | OpDrain => ((drain s).1, out ++ (drain s).2)
  | OpFinalize => (finalize s, out)
  end.

Definition sync_run (ops : list SyncOp) (st : MarketSynchronizer * list MarketSnapshot)
    : MarketSynchronizer * list MarketSnapshot := fold_left sync_step ops st.

(** Every row produced so far. *)
Definition all_rows (st : MarketSynchronizer * list MarketSnapshot) : list MarketSnapshot :=
  st.2 ++ buffer st.1.

(** Timestamps are machine words. *)
Definition op_u64 (o : SyncOp) : Prop :=
  match o with
  | OpTime ts => is_u64 ts
  | OpTrade t => is_u64 (source_trade_ts_us t)
  | OpLiquidation l => is_u64 (liquidation_ts_us l)
  | OpFunding f => is_u64 (FundingRate_effective_ts_us f)
  | OpOpenInterest o => is_u64 (OpenInterest_effective_ts_us o)
  | _ => True
  end.

Definition pending_u64 (e : PeriodEvents) : Prop :=
  Forall (fun t => is_u64 (source_trade_ts_us t)) (pe_trades e) /\
  Forall (fun l => is_u64 (liquidation_ts_us l)) (pe_liquidations e) /\
  Forall (fun f => is_u64 (FundingRate_effective_ts_us f)) (pe_funding e) /\
  Forall (fun o => is_u64 (OpenInterest_effective_ts_us o)) (pe_open_interest e).

(** An instant belongs to the row that closes its period. *)
Definition in_row (p label ts : N) : Prop := (label - p <= ts)%N /\ (ts < label)%N.

(** A row between two grid labels holds events of its period only. *)
Definition row_ok (p : N) (r : MarketSnapshot) : Prop :=
  (exists k, ms_ts_us r = k * p)%N /\
  Forall (fun t => in_row p (ms_ts_us r) (source_trade_ts_us t)) (ms_trades r) /\
  Forall (fun l => in_row p (ms_ts_us r) (liquidation_ts_us l)) (ms_liquidations r) /\
  Forall (fun f => in_row p (ms_ts_us r) (FundingRate_effective_ts_us f)) (ms_funding_rate r) /\
  Forall (fun o => in_row p (ms_ts_us r) (OpenInterest_effective_ts_us o)) (ms_open_interest r).

Record grid_inv (p : N) (m : ClockMode) (st : MarketSynchronizer * list MarketSnapshot) : Prop := {
  gi_period : period_us st.1 = p;
  gi_mode : clock_mode st.1 = m;
  gi_open : finalized st.1 = false;
  gi_rows : Forall (row_ok p) (all_rows st);
  gi_sorted : StronglySorted N.lt (map ms_ts_us (all_rows st));
  gi_below : Forall (fun r => exists c, clock_period st.1 = Some c /\ (ms_ts_us r <= c * p)%N)
               (all_rows st);
  gi_clock : forall c, clock_period st.1 = Some c -> (c * p < u64_modulus)%N;
  gi_pending : pending_u64 (take_bundle st.1)
}.

Lemma event_row_in p r ts :
  (0 < p)%N -> (0 < r)%N -> is_u64 ts -> event_row p ts = r -> in_row p (r * p) ts.
Proof.
  intros Hp Hr Hu E. unfold event_row in E.
  pose proof (N.div_mod ts p ltac:(lia)) as Hd. pose proof (N.mod_lt ts p ltac:(lia)) as Hm.
  assert (ts / p <= ts)%N as Hle by (apply N.Div0.div_le_upper_bound; nia). unfold is_u64 in Hu.
  revert E Hd Hm Hle. generalize (ts / p)%N (ts mod p)%N. intros q m E Hd Hm Hle.
  destruct (N.lt_ge_cases (q + 1) u64_modulus) as [Hs|Hs].
  - rewrite u64_add_small in E by done. rewrite <- E, N.mul_add_distr_r, N.mul_1_l.
    unfold in_row. rewrite (N.mul_comm q p). lia.
  - exfalso. assert (q + 1 = u64_modulus)%N as Ew by lia.
    unfold u64_add in E. rewrite Ew, N.Div0.mod_same in E. lia.
Qed.

Lemma Forall_of_row {A} (row : A -> N) (P Q : A -> Prop) r l :
  Forall P l -> (forall x, P x -> row x = r -> Q x) -> Forall Q (of_row row r l).
Proof.
  intros Hl HQ. unfold of_row. apply List.Forall_forall. intros x [Hin Hr]%filter_In.
  apply N.eqb_eq in Hr. apply (HQ x); [|done]. by eapply (proj1 (List.Forall_forall _ _) Hl).
Qed.

Lemma Forall_after_row {A} (row : A -> N) (P : A -> Prop) r l :
  Forall P l -> Forall P (after_row row r l).
Proof.
  intros Hl. unfold after_row. apply List.Forall_forall. intros x [Hin _]%filter_In.
  by eapply (proj1 (List.Forall_forall _ _) Hl).
Qed.

Lemma bundle_row_ok p prev r book s :
  (0 < p)%N -> period_us s = p -> (prev < r)%N -> (r * p < u64_modulus)%N ->
  pending_u64 (take_bundle s) ->
  row_ok p (bundle_snapshot (u64_mul r (period_us s)) book (bundle_of prev r s)).
Proof.
  intros Hp Hs Hr Hm (H1 & H2 & H3 & H4). simpl in *. unfold row_ok.
  rewrite u64_mul_small by (by rewrite Hs).
  assert (forall ts, is_u64 ts -> event_row p ts = r -> in_row p (r * p) ts) as Hin.
  { intros ts Hu E. apply event_row_in; [done|lia|done|done]. }
  split_and!; [by exists r; simpl; rewrite Hs|..]; simpl; rewrite Hs;
    (eapply Forall_of_row; [eassumption|]); intros x Hx Hrow; by apply Hin.
Qed.

Lemma row_labels_succ prev n :
  row_labels prev (N.succ n) = row_labels prev n ++ [prev + 1 + n]%N.
Proof.
  unfold row_labels. rewrite N2Nat.inj_succ, seq_S, map_app. simpl. by rewrite N2Nat.id.
Qed.

Lemma row_labels_sorted p prev n :
  (0 < p)%N -> StronglySorted N.lt (map (fun r => r * p)%N (row_labels prev n)).
Proof.
  intros Hp. induction n as [|n IH] using N.peano_ind; [constructor|].
  rewrite row_labels_succ, map_app. simpl. apply StronglySorted_app_2; [|done|repeat constructor].
  intros x y Hx Hy. apply list_elem_of_singleton in Hy as ->.
  apply list_elem_of_fmap in Hx as (r & -> & Hr). apply row_labels_in in Hr. nia.
Qed.

Definition crossing_rows (book_of : N -> option Orderbook) (prev cur : N) s : list MarketSnapshot :=
  rows_between book_of prev (N.min (cur - prev) MAX_GAP_FILL) s.

(** Rows appended by a crossing keep the invariant of the rows. *)
Lemma grid_inv_cross p m s out s' book_of prev cur :
  (0 < p)%N -> grid_inv p m (s, out) -> clock_period s = Some prev -> (prev < cur)%N ->
  (cur * p < u64_modulus)%N ->
  period_us s' = period_us s -> clock_mode s' = clock_mode s -> finalized s' = finalized s ->
  clock_period s' = Some cur -> buffer s' = buffer s ++ crossing_rows book_of prev cur s ->
  take_bundle s' = take_bundle (keep_after prev (prev + N.min (cur - prev) MAX_GAP_FILL) s) ->
  grid_inv p m (s', out).
Proof.
  intros Hp [H1 H2 H3 H4 H5 H6 H7 H8] Hc Hlt Hcur Ep Em Ef Ec Eb Et. simpl in *.
  set (fill := N.min (cur - prev) MAX_GAP_FILL) in *.
  assert (all_rows (s', out) = all_rows (s, out) ++ crossing_rows book_of prev cur s) as Er.
  { unfold all_rows. simpl. by rewrite Eb, app_assoc. }
  assert (map ms_ts_us (crossing_rows book_of prev cur s) =
          map (fun r => r * p)%N (row_labels prev fill)) as El.
  { unfold crossing_rows, rows_between. rewrite map_map. apply map_ext_in. intros r Hr. simpl.
    apply list_elem_of_In, row_labels_in in Hr. rewrite H1. apply u64_mul_small. nia. }
  split; simpl; try congruence.
  - rewrite Er. apply Forall_app. split; [done|].
    unfold crossing_rows, rows_between. apply Forall_map, Forall_forall. intros r Hr.
    apply row_labels_in in Hr. simpl. apply bundle_row_ok; [done|done|lia|nia|done].
  - rewrite Er, map_app. apply StronglySorted_app_2; [|done|rewrite El; by apply row_labels_sorted].
    intros x y Hx Hy. rewrite El in Hy. apply list_elem_of_fmap in Hy as (r & -> & Hr).
    apply row_labels_in in Hr. apply list_elem_of_fmap in Hx as (row & -> & Hrow).
    rewrite Forall_forall in H6. destruct (H6 row Hrow) as (c & Hc' & Hle).
    rewrite Hc in Hc'. simplify_eq. nia.
  - rewrite Er. apply Forall_app. split.
    + eapply Forall_impl; [exact H6|]. simpl. intros row (c & Hc' & Hle). exists cur.
      split; [done|]. rewrite Hc in Hc'. simplify_eq. nia.
    + apply Forall_forall. intros row Hrow. exists cur. split; [done|].
      assert (ms_ts_us row ∈ map ms_ts_us (crossing_rows book_of prev cur s)) as Hl
        by by apply list_elem_of_fmap_2.
      rewrite El in Hl. apply list_elem_of_fmap in Hl as (r & -> & Hr).
      apply row_labels_in in Hr. nia.
  - rewrite Et. destruct H8 as (? & ? & ? & ?). by split_and!; apply Forall_after_row.
Qed.

(** A change of the pending events, books and counters only. *)
Lemma grid_inv_same p m s out s' :
  grid_inv p m (s, out) ->
  period_us s' = period_us s -> clock_mode s' = clock_mode s -> finalized s' = finalized s ->
  clock_period s' = clock_period s -> buffer s' = buffer s -> pending_u64 (take_bundle s') ->
  grid_inv p m (s', out).
Proof.
  intros [] E1 E2 E3 E4 E5 E6. unfold all_rows in *. simpl in *.
  split; unfold all_rows; simpl; rewrite ?E4, ?E5; congruence || done.
Qed.

Lemma grid_inv_advance p m ts s out :
  (0 < p)%N -> is_u64 ts -> grid_inv p m (s, out) -> grid_inv p m ((advance_grid ts s).1, out).
Proof.
  intros Hp Hts Hi. pose proof Hi as [H1 H2 H3 H4 H5 H6 H7 H8]. simpl in *.
  assert (ripe_period ts s * p < u64_modulus)%N as Hcur.
  { unfold ripe_period. rewrite H1. unfold is_u64 in Hts.
    assert ((ts - emission_delay_us s) / p * p <= ts - emission_delay_us s)%N; [|lia].
    rewrite N.mul_comm. apply N.Div0.mul_div_le. }
  unfold advance_grid. cbv zeta. destruct (clock_period s) as [prev|] eqn:Hc.
  - destruct (N.leb_spec (ripe_period ts s) prev) as [|Hlt]; [done|].
    destruct (cross_rows_spec (fun s r => as_of_book_any r s) prev (ripe_period ts s) s)
      as (E1 & E2 & E3 & E4 & E5 & E6 & E7 & E8 & E9 & E10 & E11).
    { intros s1 s2 E. unfold as_of_book_any. by rewrite E. }
    by apply (grid_inv_cross p m s out _ (fun r => as_of_book_any r s) prev (ripe_period ts s)).
  - assert (all_rows (s, out) = []) as Hnil.
    { destruct (all_rows (s, out)) as [|r l] eqn:E; [done|].
      inversion H6 as [|? ? (c & ? & _)]; simplify_eq. }
    unfold all_rows in Hnil. simpl in Hnil.
    split; unfold all_rows; simpl; rewrite ?Hnil; try done; try (simpl; constructor).
    intros c [= <-]. done.
Qed.

Definition not_finalize (o : SyncOp) : Prop := match o with OpFinalize => False | _ => True end.

Lemma grid_inv_step p m st o :
  (0 < p)%N -> m <> OrderbookDriven -> op_u64 o -> not_finalize o ->
  grid_inv p m st -> grid_inv p m (sync_step st o).
Proof.
  intros Hp Hm Ho Hf Hi. destruct st as [s out]. pose proof Hi as [H1 H2 H3 _ _ _ _ H8].
  simpl in H1, H2, H3, H8. pose proof H8 as (P1 & P2 & P3 & P4). simpl in P1, P2, P3, P4.
  destruct o as [ts|q ts b|t|l|f|f|o| |]; simpl in *; try done.
  - unfold on_time. rewrite H3. case_bool_decide; [by apply grid_inv_advance|done].
  - unfold on_orderbook. rewrite H3. cbv zeta. rewrite bool_decide_false by congruence. simpl.
    by eapply grid_inv_same.
  - unfold on_trade. rewrite H3. cbv zeta.
    assert (grid_inv p m (with_trades (current_trades s ++ [t]) s, out)) as Hi'.
    { eapply grid_inv_same; try done. split_and!; simpl; try done. apply Forall_app. by split; [|constructor]. }
    case_bool_decide; [by apply grid_inv_advance|done].
  - unfold on_liquidation. rewrite H3. cbv zeta.
    assert (grid_inv p m (with_liquidations (current_liquidations s ++ [l]) s, out)) as Hi'.
    { eapply grid_inv_same; try done. split_and!; simpl; try done. apply Forall_app. by split; [|constructor]. }
    case_bool_decide; [by apply grid_inv_advance|done].
  - unfold on_funding. rewrite H3. eapply grid_inv_same; try done. split_and!; simpl; try done.
    apply Forall_app. by split; [|constructor].
  - unfold on_funding_settlement. rewrite H3. by eapply grid_inv_same.
  - unfold on_open_interest. rewrite H3. eapply grid_inv_same; try done. split_and!; simpl; try done.
    apply Forall_app. by split; [|constructor].
  - destruct Hi as [G1 G2 G3 G4 G5 G6 G7 G8]. unfold all_rows in *. simpl in *.
    split; unfold all_rows; simpl; rewrite ?app_nil_r; done.
Qed.

Lemma grid_inv_init p m d : grid_inv p m (set_emission_delay_us d (with_clock_mode p m), []).
Proof. split; try done; [constructor..|]. repeat constructor. Qed.

Lemma grid_inv_run p m ops st :
  (0 < p)%N -> m <> OrderbookDriven -> Forall op_u64 ops -> Forall not_finalize ops ->
  grid_inv p m st -> grid_inv p m (sync_run ops st).
Proof.
  intros Hp Hm Hu Hf. revert st. unfold sync_run. induction ops as [|o ops IH]; intros st Hst; simpl; [done|].
  inversion Hu; inversion Hf; subst. apply IH; [done|done|]. by apply grid_inv_step.
Qed.

(** The row the end of a stream adds: whatever is pending, at the boundary after the
    clock's period; none when the clock never started. *)
Definition final_row s : list MarketSnapshot :=
  match clock_period s with
  | None => []
  | Some c => [bundle_snapshot (u64_mul (u64_add c 1) (period_us s)) (as_of_book_any u64_max s)
                 (take_bundle s)]
  end.

Lemma finalize_rows s out :
  finalized s = false -> clock_mode s <> OrderbookDriven ->
  all_rows (finalize s, out) = all_rows (s, out) ++ final_row s /\ finalized (finalize s) = true.
Proof.
  intros Hf Hm. unfold finalize. rewrite Hf. cbv zeta. rewrite bool_decide_false by done.
  unfold finalize_global_clock, final_row, all_rows.
  change (clock_period (with_finalized true s)) with (clock_period s).
  destruct (clock_period s) as [c|]; simpl; [by rewrite app_assoc|by rewrite app_nil_r].
Qed.

Lemma sync_step_closed st o :
  finalized st.1 = true ->
  all_rows (sync_step st o) = all_rows st /\ finalized (sync_step st o).1 = true.
Proof.
  destruct st as [s out]. unfold all_rows. intros Hf. simpl in Hf.
  destruct o; simpl; unfold on_time, on_orderbook, on_trade, on_liquidation, on_funding,
    on_funding_settlement, on_open_interest, finalize; rewrite ?Hf; try done.
  by rewrite app_nil_r.
Qed.

Lemma sync_run_closed ops st :
  finalized st.1 = true -> all_rows (sync_run ops st) = all_rows st.
Proof.
  revert st. unfold sync_run. induction ops as [|o ops IH]; intros st Hf; simpl; [done|].
  destruct (sync_step_closed st o Hf) as [E1 E2]. by rewrite IH, E1.
Qed.

(** A run that ends the stream: the rows before, the row of the end, and no more. *)
Lemma sync_run_ended p m ops rest st :
  (0 < p)%N -> m <> OrderbookDriven -> Forall op_u64 ops -> Forall not_finalize ops ->
  grid_inv p m st ->
  all_rows (sync_run (ops ++ OpFinalize :: rest) st) =
    all_rows (sync_run ops st) ++ final_row (sync_run ops st).1.
Proof.
  intros Hp Hm Hu Hf Hst. unfold sync_run at 1. rewrite fold_left_app. fold (sync_run ops st).
  pose proof (grid_inv_run p m ops st Hp Hm Hu Hf Hst) as [_ E2 E3 _ _ _ _ _].
  destruct (sync_run ops st) as [s out]. simpl in E2, E3. cbn [fold_left sync_step].
  destruct (finalize_rows s out E3) as [E Ef]; [congruence|].
  fold (sync_run rest (finalize s, out)). by rewrite sync_run_closed.
Qed.

(** Where a history first ends its stream. *)
Lemma first_finalize ops :
  Forall not_finalize ops \/
  exists pre rest, ops = pre ++ OpFinalize :: rest /\ Forall not_finalize pre.
Proof.
  induction ops as [|o ops [IH|(pre & rest & -> & IH)]]; [by left| |];
    (assert (o = OpFinalize \/ not_finalize o) as [->|Hne] by (destruct o; simpl; auto);
      [right; eexists [], _; by split|]).
  - left. by constructor.
  - right. exists (o :: pre), rest. split; [done|by constructor].
Qed.

(** C8: Attribution by timestamp holds in every run on a global clock, whatever the order
    in which events arrive and whatever the emission delay.  Each row the stream produces
    before it is ended is stamped on the grid, its label is never reused (labels strictly
    increase), and every trade, liquidation, funding rate and open-interest record in it
    happened in the period that ends at its label.  Ending the stream adds one row and
    nothing after it adds another: that last row, labelled with the boundary after the
    clock's period (beyond every other label unless it overflows), holds whatever is still
    pending, so also the events an emission delay holds back, whatever their period; when
    the clock never started there is no such row. *)
Theorem rows_by_timestamp p m d ops rest :
  (0 < p)%N -> m <> OrderbookDriven -> Forall op_u64 ops -> Forall not_finalize ops ->
  let start := (set_emission_delay_us d (with_clock_mode p m), []) in
  let st := sync_run ops start in
  StronglySorted N.lt (map ms_ts_us (all_rows st)) /\ Forall (row_ok p) (all_rows st) /\
  all_rows (sync_run (ops ++ OpFinalize :: rest) start) = all_rows st ++ final_row st.1 /\
  (forall c, clock_period st.1 = Some c -> ((c + 1) * p < u64_modulus)%N ->
     StronglySorted N.lt (map ms_ts_us (all_rows st ++ final_row st.1))).
Proof.
  intros Hp Hm Hu Hf start st.
  pose proof (grid_inv_run p m ops start Hp Hm Hu Hf (grid_inv_init p m d)) as Hi. fold st in Hi.
  split_and!; [apply Hi|apply Hi|by apply (sync_run_ended p m ops rest start Hp Hm Hu Hf (grid_inv_init p m d))|].
  destruct Hi as [E1 _ _ _ Hs Hb _ _]. intros c Hc Hlt.
  rewrite map_app. unfold final_row. rewrite Hc, E1. simpl.
  rewrite u64_add_small by nia. rewrite u64_mul_small by done.
  apply StronglySorted_app_2; [|done|repeat constructor].
  intros x y Hx ->%list_elem_of_singleton. apply list_elem_of_fmap in Hx as (r & -> & Hr).
  rewrite Forall_forall in Hb. destruct (Hb r Hr) as (c' & Hc' & Hle). simplify_eq. nia.
Qed.
End SyncRuns.

(** ** Every event is accounted for *)

(** An element of one of two disjoint kinds. *)
Lemma filter_split {A} (f g h : A -> bool) (l : list A) :
  (forall x, f x = g x || h x) -> (forall x, g x = true -> h x = false) ->
  List.filter f l ≡ₚ List.filter g l ++ List.filter h l.
Proof.
  intros Hf Hd. induction l as [|x l IH]; simpl; [done|]. rewrite Hf. specialize (Hd x).
  destruct (g x); simpl; [rewrite (Hd eq_refl); by constructor|].
  destruct (h x); [|done]. rewrite <- Permutation_middle. by constructor.
Qed.

Lemma bind_app_perm {A B} (f g : A -> list B) (l : list A) :
  l ≫= (fun x => f x ++ g x) ≡ₚ (l ≫= f) ++ (l ≫= g).
Proof. induction l as [|x l IH]; simpl; [done|]. rewrite IH. solve_Permutation. Qed.

Section Conservation.
Context {NU : Numeric}.
Implicit Types (s : MarketSynchronizer).

(** The five kinds of events a synchronizer attributes to rows. *)
Inductive MarketEvent :=
| OfTrade (t : Trade)
| OfLiquidation (l : Liquidation)
| OfFunding (f : FundingRate)
| OfOpenInterest (o : OpenInterest)
| OfSettlement (f : FundingSettlement).

Definition bundle_events (e : PeriodEvents) : list MarketEvent :=
  map OfTrade (pe_trades e) ++ map OfLiquidation (pe_liquidations e) ++
  map OfFunding (pe_funding e) ++ map OfOpenInterest (pe_open_interest e) ++
  map OfSettlement (pe_settlements e).

Definition row_bundle (r : MarketSnapshot) : PeriodEvents := {|
  pe_trades := ms_trades r; pe_liquidations := ms_liquidations r;
  pe_funding := ms_funding_rate r; pe_open_interest := ms_open_interest r;
  pe_settlements := ms_funding_settlements r |}.

Definition rows_events (l : list MarketSnapshot) : list MarketEvent :=
  l ≫= (fun r => bundle_events (row_bundle r)).

Lemma rows_events_app l l' : rows_events (l ++ l') = rows_events l ++ rows_events l'.
Proof. apply bind_app. Qed.

(** Rows closed before, rows now emitted, and rows to come partition the events. *)
Lemma rows_partition {A} (row : A -> N) (kind : A -> MarketEvent) prev fill (l : list A) :
  map kind l ≡ₚ map kind (upto_row row prev l) ++
    (row_labels prev fill ≫= (fun r => map kind (of_row row r l))) ++
    map kind (after_row row (prev + fill) l).
Proof.
  assert (map kind l ≡ₚ map kind (upto_row row prev l) ++ map kind (after_row row prev l)) as H0.
  { rewrite <- map_app. apply Permutation_map.
    transitivity (List.filter (fun _ => true) l).
    { induction l as [|x l IH]; simpl; [done|by rewrite <- IH]. }
    apply filter_split.
    - intros x. simpl. destruct (N.leb_spec (row x) prev), (N.ltb_spec prev (row x)); lia || done.
    - intros x. rewrite N.leb_le, N.ltb_ge. done. }
  rewrite H0. apply Permutation_app_head. clear H0.
  induction fill as [|n IH] using N.peano_ind; [by rewrite N.add_0_r|].
  rewrite IH, row_labels_succ, bind_app, <- app_assoc. apply Permutation_app_head.
  cbn [mbind list_bind]. rewrite app_nil_r, <- map_app. apply Permutation_map, filter_split.
  - intros x. destruct (N.eqb_spec (row x) (prev + 1 + n)), (N.ltb_spec (prev + n) (row x)),
      (N.ltb_spec (prev + N.succ n) (row x)); lia || done.
  - intros x. rewrite N.eqb_eq, N.ltb_ge. lia.
Qed.

(** The events a crossing finds late. *)
Definition late_events (prev : N) s : list MarketEvent :=
  let p := period_us s in
  map OfTrade (upto_row (trade_row p) prev (current_trades s)) ++
  map OfLiquidation (upto_row (liquidation_row p) prev (current_liquidations s)) ++
  map OfFunding (upto_row (funding_row p) prev (current_funding_rates s)) ++
  map OfOpenInterest (upto_row (open_interest_row p) prev (current_open_interests s)) ++
  map OfSettlement (upto_row (settlement_row p prev) prev (current_funding_settlements s)).

Lemma late_events_count prev s : length (late_events prev s) = late_count prev s.
Proof. unfold late_events, late_count. rewrite !length_app, !length_map. lia. Qed.

(** A crossing moves events between rows, pending and late, and loses none. *)
Lemma cross_conserves book_of prev fill s :
  bundle_events (take_bundle s) ≡ₚ
  rows_events (rows_between book_of prev fill s) ++
  bundle_events (take_bundle (keep_after prev (prev + fill) s)) ++ late_events prev s.
Proof.
  assert (rows_events (rows_between book_of prev fill s) =
          row_labels prev fill ≫= (fun r => bundle_events (bundle_of prev r s))) as ->.
  { unfold rows_events, rows_between. induction (row_labels prev fill) as [|r l IH]; [done|].
    cbn [map mbind list_bind]. f_equal. exact IH. }
  unfold bundle_events, late_events. simpl. rewrite !bind_app_perm.
  rewrite (rows_partition (trade_row (period_us s)) OfTrade prev fill (current_trades s)),
    (rows_partition (liquidation_row (period_us s)) OfLiquidation prev fill (current_liquidations s)),
    (rows_partition (funding_row (period_us s)) OfFunding prev fill (current_funding_rates s)),
    (rows_partition (open_interest_row (period_us s)) OfOpenInterest prev fill (current_open_interests s)),
    (rows_partition (settlement_row (period_us s) prev) OfSettlement prev fill
       (current_funding_settlements s)).
  solve_Permutation.
Qed.

(** [es] were fed: they are in rows, pending, or [lost]; the count of late drops is that
    of the lost events and of [n] refused calls. *)
Definition accounted (st : MarketSynchronizer * list MarketSnapshot) (es lost : list MarketEvent)
    (n : nat) : Prop :=
  es ≡ₚ rows_events (all_rows st) ++ bundle_events (take_bundle st.1) ++ lost /\
  late_events_dropped st.1 = N.of_nat (length lost + n).

Lemma accounted_length st es lost n : accounted st es lost n -> length lost <= length es.
Proof. intros [-> _]. rewrite !length_app. lia. Qed.

(** What an operation brings. *)
Definition event_of (o : SyncOp) : list MarketEvent :=
  match o with
  | OpTrade t => [OfTrade t]
  | OpLiquidation l => [OfLiquidation l]
  | OpFunding f => [OfFunding f]
  | OpSettlement f => [OfSettlement f]
  | OpOpenInterest o => [OfOpenInterest o]
  | OpTime _ | OpBook _ _ _ | OpDrain | OpFinalize => []
  end.

Definition fed_events (ops : list SyncOp) : list MarketEvent := ops ≫= event_of.

(** The calls without an event that a closed stream refuses: clock readings and books. *)
Definition refused (closed : bool) (o : SyncOp) : nat :=
  match o with OpTime _ | OpBook _ _ _ => if closed then 1 else 0 | _ => 0 end.

Fixpoint late_calls (closed : bool) (ops : list SyncOp) : nat :=
  match ops with
  | [] => 0
  | o :: ops' =>
    refused closed o + late_calls (match o with OpFinalize => true | _ => closed end) ops'
  end.

(** A crossing, as the two clocks do it. *)
Lemma accounted_cross book_of prev cur s s' out es lost n :
  accounted (s, out) es lost n -> (N.of_nat (length es + n) < u64_modulus)%N ->
  (forall s1 s2, ms_books s1 = ms_books s2 -> book_of s1 = book_of s2) ->
  let x := cross_rows book_of prev cur s in
  buffer s' = buffer x -> take_bundle s' = take_bundle x ->
  late_events_dropped s' = late_events_dropped x ->
  exists more, accounted (s', out) es (lost ++ more) n.
Proof.
  intros [Hes Hl] Hlt Hext x E1 E2 E3. subst x.
  destruct (cross_rows_spec book_of prev cur s Hext) as (B & T & L & _).
  set (fill := N.min (cur - prev) MAX_GAP_FILL) in *.
  pose proof (cross_conserves (book_of s) prev fill s) as Hc.
  assert (es ≡ₚ rows_events (all_rows (s', out)) ++ bundle_events (take_bundle s') ++
                lost ++ late_events prev s) as Hp.
  { rewrite Hes. unfold all_rows. cbn [fst snd]. rewrite E1, B, E2, T, !rows_events_app, Hc.
    solve_Permutation. }
  exists (late_events prev s). split; [exact Hp|]. simpl in Hl |- *. rewrite E3, L, Hl.
  apply Permutation_length in Hp. rewrite !length_app in Hp. rewrite length_app, late_events_count in *.
  rewrite u64_add_small; lia.
Qed.

Lemma accounted_advance ts s out es lost n :
  accounted (s, out) es lost n -> (N.of_nat (length es + n) < u64_modulus)%N ->
  exists more, accounted ((advance_grid ts s).1, out) es (lost ++ more) n.
Proof.
  intros Ha Hlt. assert (exists more, accounted (s, out) es (lost ++ more) n) as Hsame.
  { exists []. by rewrite app_nil_r. }
  unfold advance_grid. cbv zeta. destruct (clock_period s) as [prev|]; [|exact Hsame].
  destruct (ripe_period ts s <=? prev)%N; [exact Hsame|].
  eapply (accounted_cross (fun s r => as_of_book_any r s)); try done.
  intros s1 s2 E. unfold as_of_book_any. by rewrite E.
Qed.

Lemma accounted_book p ts b s out es lost n :
  accounted (s, out) es lost n -> (N.of_nat (length es + n) < u64_modulus)%N ->
  finalized s = false ->
  exists more, accounted ((on_orderbook p ts b s).1, out) es (lost ++ more) n.
Proof.
  intros Ha Hlt Hf. unfold on_orderbook. rewrite Hf. cbv zeta.
  assert (forall s', buffer s' = buffer s -> take_bundle s' = take_bundle s ->
    late_events_dropped s' = late_events_dropped s ->
    exists more, accounted (s', out) es (lost ++ more) n) as Hsame.
  { intros s' E1 E2 E3. exists []. rewrite app_nil_r. destruct Ha as [H1 H2].
    unfold accounted, all_rows in *. simpl in *. by rewrite E1, E2, E3. }
  case_bool_decide; simpl; [|by apply Hsame].
  destruct (last_period s !! to_canonical p) as [prev|]; [|by apply Hsame].
  destruct (ripe_period ts s <=? prev)%N; [by apply Hsame|].
  eapply (accounted_cross (fun s r => as_of_book (to_canonical p) r s)); try done.
  intros s1 s2 E. unfold as_of_book. by rewrite E.
Qed.

(** A closed stream drops the call, with its event if it has one. *)
Lemma accounted_drop s out es lost n ev k :
  accounted (s, out) es lost n -> length ev + k = 1 ->
  (N.of_nat (length es + length ev + n + k) < u64_modulus)%N ->
  accounted (drop_post_finalize s, out) (es ++ ev) (lost ++ ev) (n + k).
Proof.
  intros Ha Hk Hlt. pose proof (accounted_length _ _ _ _ Ha) as Hle. destruct Ha as [H1 H2]. split.
  - rewrite H1. change (take_bundle (drop_post_finalize s, out).1) with (take_bundle s).
    change (all_rows (drop_post_finalize s, out)) with (all_rows (s, out)). solve_Permutation.
  - simpl in *. rewrite H2, length_app, u64_add_small; lia.
Qed.

Lemma advance_mode ts s :
  finalized (advance_grid ts s).1 = finalized s /\ clock_mode (advance_grid ts s).1 = clock_mode s.
Proof.
  unfold advance_grid. cbv zeta. destruct (clock_period s) as [prev|]; [|done].
  destruct (ripe_period ts s <=? prev)%N; [done|].
  destruct (cross_rows_spec (fun s r => as_of_book_any r s) prev (ripe_period ts s) s)
    as (_ & _ & _ & _ & _ & E6 & E7 & _); [|done].
  intros s1 s2 E. unfold as_of_book_any. by rewrite E.
Qed.

Lemma book_mode p ts b s :
  finalized (on_orderbook p ts b s).1 = finalized s /\
  clock_mode (on_orderbook p ts b s).1 = clock_mode s.
Proof.
  unfold on_orderbook. cbv zeta. destruct (finalized s) eqn:Hf; [done|].
  case_bool_decide; simpl; [|done]. destruct (last_period s !! _) as [prev|]; [|done].
  destruct (ripe_period ts s <=? prev)%N; [done|]. simpl.
  destruct (cross_rows_spec (fun s r => as_of_book (to_canonical p) r s) prev (ripe_period ts s) s)
    as (_ & _ & _ & _ & _ & E6 & E7 & _); [|by rewrite <- Hf].
  intros s1 s2 E. unfold as_of_book. by rewrite E.
Qed.
End Conservation.

Section Accounting.
Context {NU : Numeric}.
Implicit Types (s : MarketSynchronizer).

(** An event taken in. *)
Lemma accounted_push s s' out es lost n ev :
  accounted (s, out) es lost n ->
  bundle_events (take_bundle s') ≡ₚ bundle_events (take_bundle s) ++ ev -> buffer s' = buffer s ->
  late_events_dropped s' = late_events_dropped s ->
  accounted (s', out) (es ++ ev) lost n.
Proof.
  unfold accounted, all_rows. simpl. intros [H1 H2] E1 -> ->. split; [|done].
  rewrite H1, E1. solve_Permutation.
Qed.

Lemma finalize_mode s :
  finalized (finalize s) = true /\ clock_mode (finalize s) = clock_mode s.
Proof.
  unfold finalize. destruct (finalized s) eqn:Hf; [done|]. case_bool_decide.
  - unfold finalize_ob_driven. generalize (take_bundle (with_finalized true s)). intros e.
    set (s0 := with_current _ _ _ _ _ _).
    assert (finalized s0 = true /\ clock_mode s0 = clock_mode s) as H0 by done.
    revert H0. generalize s0. induction (map_to_list _) as [|x l IH]; intros s1 H1; [done|].
    cbn [fold_left]. apply IH. exact H1.
  - unfold finalize_global_clock. by destruct (clock_period (with_finalized true s)).
Qed.

Lemma accounted_finalize s out es lost n :
  clock_mode s <> OrderbookDriven -> accounted (s, out) es lost n ->
  accounted (finalize s, out) es lost n.
Proof.
  intros Hm [H1 H2]. unfold finalize. destruct (finalized s); [done|]. cbv zeta.
  rewrite bool_decide_false by done. unfold finalize_global_clock.
  change (clock_period (with_finalized true s)) with (clock_period s).
  destruct (clock_period s) as [c|]; [|done]. split; [|done].
  rewrite H1. unfold all_rows. simpl. rewrite !rows_events_app.
  match goal with |- context [rows_events [?r]] =>
    change (rows_events [r]) with (bundle_events (take_bundle s) ++ []) end.
  solve_Permutation.
Qed.

(** A call that takes an event in and may then move the clock. *)
Lemma accounted_take s s' out es lost n ev (advances : bool) ts :
  accounted (s, out) es lost n -> (N.of_nat (length es + length ev + n) < u64_modulus)%N ->
  bundle_events (take_bundle s') ≡ₚ bundle_events (take_bundle s) ++ ev -> buffer s' = buffer s ->
  late_events_dropped s' = late_events_dropped s ->
  exists more, accounted ((if advances then advance_grid ts s' else (s', 0)).1, out)
                 (es ++ ev) (lost ++ more) n.
Proof.
  intros Ha Hlt E1 E2 E3. pose proof (accounted_push s s' out es lost n ev Ha E1 E2 E3) as Ha'.
  destruct advances; [|exists []; by rewrite app_nil_r].
  apply accounted_advance; [done|]. rewrite length_app. lia.
Qed.

(** The new event at the end of its own list, and the bundle as a multiset. *)
Ltac pushed := unfold bundle_events; simpl; rewrite map_app; simpl; solve_Permutation.

Lemma accounted_step st o es lost n :
  accounted st es lost n ->
  (N.of_nat (length es + length (event_of o) + n + refused (finalized st.1) o) < u64_modulus)%N ->
  clock_mode st.1 <> OrderbookDriven \/ not_finalize o ->
  exists more,
    accounted (sync_step st o) (es ++ event_of o) (lost ++ more) (n + refused (finalized st.1) o).
Proof.
  destruct st as [s out]. intros Ha Hlt Hm. simpl in Hlt, Hm |- *.
  assert (forall k, k + 0 = k) as Hz by (intros; lia).
  destruct (finalized s) eqn:Hf.
  { destruct o as [ts|q ts b|t|l|f|f|o| |]; simpl in *;
      unfold on_time, on_orderbook, on_trade, on_liquidation, on_funding, on_funding_settlement,
        on_open_interest; rewrite ?Hf; simpl;
      try (eexists; apply accounted_drop; [done|done|simpl; lia]).
    - exists []. rewrite !app_nil_r, Hz. destruct Ha. by split; unfold all_rows in *; simpl in *; rewrite ?app_nil_r.
    - exists []. rewrite !app_nil_r, Hz. destruct Hm as [Hm|[]]. by apply accounted_finalize. }
  destruct o as [ts|q ts b|t|l|f|f|o| |]; simpl in Hlt |- *; rewrite ?Hz, ?app_nil_r.
  - unfold on_time. rewrite Hf. case_bool_decide; [apply accounted_advance; [done|lia]|].
    exists []. by rewrite app_nil_r.
  - by apply accounted_book; [|lia|].
  - unfold on_trade. rewrite Hf. cbv zeta. apply (accounted_take s); try done; [simpl; lia|pushed].
  - unfold on_liquidation. rewrite Hf. cbv zeta. apply (accounted_take s); try done; [simpl; lia|pushed].
  - unfold on_funding. rewrite Hf. apply (accounted_take s _ _ _ _ _ _ false 0); try done; [simpl; lia|pushed].
  - unfold on_funding_settlement. rewrite Hf.
    apply (accounted_take s _ _ _ _ _ _ false 0); try done; [simpl; lia|pushed].
  - unfold on_open_interest. rewrite Hf.
    apply (accounted_take s _ _ _ _ _ _ false 0); try done; [simpl; lia|pushed].
  - exists []. rewrite app_nil_r. destruct Ha. by split; unfold all_rows in *; simpl in *; rewrite ?app_nil_r.
  - exists []. rewrite app_nil_r. destruct Hm as [Hm|[]]. by apply accounted_finalize.
Qed.

Lemma sync_step_mode st o :
  clock_mode (sync_step st o).1 = clock_mode st.1 /\
  finalized (sync_step st o).1 = match o with OpFinalize => true | _ => finalized st.1 end.
Proof.
  destruct st as [s out]. destruct o as [ts|q ts b|t|l|f|f|o| |]; simpl.
  - unfold on_time. destruct (finalized s) eqn:Hf; [done|]. case_bool_decide; [|done].
    destruct (advance_mode ts s). split; congruence.
  - destruct (book_mode q ts b s). done.
  - unfold on_trade. destruct (finalized s) eqn:Hf; [done|]. cbv zeta. case_bool_decide; [|done].
    destruct (advance_mode (source_trade_ts_us t) (with_trades (current_trades s ++ [t]) s)) as [-> ->].
    done.
  - unfold on_liquidation. destruct (finalized s) eqn:Hf; [done|]. cbv zeta. case_bool_decide; [|done].
    destruct (advance_mode (liquidation_ts_us l) (with_liquidations (current_liquidations s ++ [l]) s))
      as [-> ->]. done.
  - unfold on_funding. by destruct (finalized s) eqn:Hf.
  - unfold on_funding_settlement. by destruct (finalized s) eqn:Hf.
  - unfold on_open_interest. by destruct (finalized s) eqn:Hf.
  - done.
  - destruct (finalize_mode s). done.
Qed.

Lemma accounted_run ops st es lost n :
  accounted st es lost n ->
  clock_mode st.1 <> OrderbookDriven \/ Forall not_finalize ops ->
  (N.of_nat (length es + length (fed_events ops) + n + late_calls (finalized st.1) ops)
     < u64_modulus)%N ->
  exists more, accounted (sync_run ops st) (es ++ fed_events ops) (lost ++ more)
                 (n + late_calls (finalized st.1) ops).
Proof.
  revert st es lost n. unfold sync_run.
  induction ops as [|o ops IH]; intros st es lost n Ha Hm Hlt; cbn [fold_left late_calls] in *.
  { exists []. rewrite !app_nil_r. by replace (n + 0) with n by lia. }
  change (fed_events (o :: ops)) with (event_of o ++ fed_events ops) in *.
  rewrite length_app in Hlt. destruct (sync_step_mode st o) as [Hc Hf].
  destruct (accounted_step st o es lost n Ha) as [more Ha'].
  { lia. }
  { destruct Hm as [Hm|Hm]; [by left|right; by inversion Hm]. }
  destruct (IH _ _ _ _ Ha') as [more' Hr].
  { destruct Hm as [Hm|Hm]; [left; congruence|right; by inversion Hm]. }
  { rewrite Hf, length_app. lia. }
  exists (more ++ more'). rewrite Hf in Hr. rewrite <- !app_assoc in Hr.
  by rewrite <- Nat.add_assoc in Hr.
Qed.

(** C18: No event is lost without a trace, none is delivered twice and none is altered.
    Over any history of a synchronizer, with any emission delay (on a global clock, or
    before its end on the order-book clock), the events handed to it are, as a multiset,
    exactly those in the rows it produced, those still pending and those it dropped late;
    the count of late drops is the number of dropped events plus the clock readings and
    books handed to the stream after its end, which are refused. *)
Theorem every_event_accounted p m d ops :
  m <> OrderbookDriven \/ Forall not_finalize ops ->
  (N.of_nat (length (fed_events ops) + late_calls false ops) < u64_modulus)%N ->
  let st := sync_run ops (set_emission_delay_us d (with_clock_mode p m), []) in
  exists lost,
    fed_events ops ≡ₚ rows_events (all_rows st) ++ bundle_events (take_bundle st.1) ++ lost /\
    late_events_dropped st.1 = N.of_nat (length lost + late_calls false ops).
Proof.
  intros Hm Hlt st. set (s0 := set_emission_delay_us d (with_clock_mode p m)) in *.
  destruct (accounted_run ops (s0, []) [] [] 0) as (lost & Hp & Hl); [by split|exact Hm| |].
  { change (finalized _) with false. cbn [length]. lia. }
  exists lost. split; [exact Hp|exact Hl].
Qed.

(** The end of a stream is final.  Closing twice is closing once; after it no call
    but a drain changes anything except the count of drops, which grows by one per
    call. *)
Theorem finalize_is_final s o :
  finalize (finalize s) = finalize s /\
  (finalized s = true ->
     (sync_step (s, []) o).1 =
       match o with
       | OpDrain => with_buffer [] s
       | OpFinalize => s
       | _ => with_late (u64_add (late_events_dropped s) 1) s
       end).
Proof.
  split.
  - destruct (finalize_mode s) as [Hf _]. unfold finalize at 1. by rewrite Hf.
  - intros Hf. destruct o; simpl; unfold on_time, on_orderbook, on_trade, on_liquidation, on_funding,
      on_funding_settlement, on_open_interest, finalize; by rewrite ?Hf.
Qed.
End Accounting.

(** ** Concrete streams *)

Section ConcreteSync.
Local Existing Instance decimal_numeric.
Local Open Scope string_scope.

Definition at_ts (ts : N) : Trade := {|
  source_trade_ts_us := ts; local_trade_ts_us := ts; source_trade_rtt_us := 0; trade_pair := ex_pair;
  trade_side := Buy; trade_amount := dec 1 0; trade_price := dec 100 0; trade_exchange := "okx";
  trade_id := "t"; trade_origin := Ws
|}.

Definition funding_at (ts : N) : FundingRate := {|
  funding_rate_ts_us := ts; local_funding_ts_us := ts; funding_recv_seq := 0; funding_conn_epoch_us := 0;
  funding_pair := ex_pair; funding_rate := dec 1 4; funding_premium := None; interval_hours := 8;
  next_funding_ts_us := 0; funding_exchange := "okx"
|}.

(** A late trade, one for an open row, one for a later row. *)
Definition ex_stream : list SyncOp :=
  [OpTime 100; OpTrade (at_ts 50); OpTrade (at_ts 150); OpTrade (at_ts 420); OpTime 310; OpDrain;
   OpTime 430].

Definition ex_sync : MarketSynchronizer := with_trades [at_ts 50; at_ts 150; at_ts 420]
  (with_clock (Some 1%N) (external_clock 100)).

Lemma advance_grid_rows_witness :
  (advance_grid 310 ex_sync).2 = 2%nat /\
  buffer (advance_grid 310 ex_sync).1 =
    rows_between (fun r => as_of_book_any r ex_sync) 1 2 ex_sync.
Proof.
  pose proof (advance_grid_rows 310 ex_sync 1 eq_refl eq_refl) as H.
  destruct (advance_grid 310 ex_sync) as [s' n]. destruct H as (Hn & _ & _ & Hb & _).
  split; [exact Hn|exact Hb].
Defined.

Lemma prune_history_invisible_witness :
  let b := Orderbook_empty ex_pair "okx" in
  last_before 5 (prune_history 3 [(1%N, b); (2%N, b); (4%N, b)]) =
  last_before 5 [(1%N, b); (2%N, b); (4%N, b)].
Proof.
  intros b.
  apply (prune_history_invisible 3 5 [(1%N, b); (2%N, b); (4%N, b)]);
    [repeat constructor|discriminate].
Defined.

Lemma rows_by_timestamp_witness :
  let start := (set_emission_delay_us 50 (with_clock_mode 100 ExternalClock), []) in
  let rows := all_rows (sync_run ex_stream start) in
  map ms_ts_us rows = [100; 200; 300]%N /\ StronglySorted N.lt (map ms_ts_us rows) /\
  map (fun r => (ms_ts_us r, map source_trade_ts_us (ms_trades r)))
    (final_row (sync_run ex_stream start).1) = [(400, [420])]%N /\
  all_rows (sync_run (ex_stream ++ [OpFinalize; OpTime 900])%list start) =
    (rows ++ final_row (sync_run ex_stream start).1)%list.
Proof.
  destruct (rows_by_timestamp 100 ExternalClock 50 ex_stream [OpTime 900] eq_refl ltac:(discriminate)
    ltac:(repeat constructor) ltac:(repeat constructor)) as (Hs & _ & Hf & _).
  split_and!; [vm_compute; reflexivity|exact Hs|vm_compute; reflexivity|exact Hf].
Defined.

(** A stream ended, then fed a clock reading and a trade. *)
Definition ex_ended : list SyncOp := (ex_stream ++ [OpFinalize; OpTime 900; OpTrade (at_ts 500)])%list.

Lemma every_event_accounted_witness :
  let st := sync_run ex_ended (set_emission_delay_us 0 (with_clock_mode 100 ExternalClock), []) in
  fed_events ex_ended = map OfTrade [at_ts 50; at_ts 150; at_ts 420; at_ts 500] /\
  late_events_dropped st.1 = 3%N /\
  exists lost, fed_events ex_ended ≡ₚ
    (rows_events (all_rows st) ++ bundle_events (take_bundle st.1) ++ lost)%list /\ length lost = 2.
Proof.
  split; [reflexivity|].
  destruct (every_event_accounted 100 ExternalClock 0 ex_ended
    ltac:(left; discriminate) ltac:(vm_compute; reflexivity)) as (lost & Hp & Hl).
  assert (late_events_dropped (sync_run ex_ended
    (set_emission_delay_us 0 (with_clock_mode 100 ExternalClock), [])).1 = 3%N) as E
    by (vm_compute; reflexivity).
  split; [exact E|]. exists lost. split; [exact Hp|]. rewrite E in Hl.
  change (late_calls false ex_ended) with 1 in Hl. lia.
Defined.

Lemma finalize_is_final_witness :
  (sync_step (finalize ex_sync, []) (OpTime 900)).1 =
  with_late 1 (finalize ex_sync).
Proof. exact (proj2 (finalize_is_final (finalize ex_sync) (OpTime 900)) eq_refl). Defined.

(** The module describes funding and open interest as carried forward into each row;
    they are attributed like trades: the row after the one with the update has none. *)
Lemma funding_not_carried :
  map (fun r => length (ms_funding_rate r)) (all_rows (sync_run
    [OpTime 100; OpFunding (funding_at 150); OpTime 300] (external_clock 100, []))) = [1; 0]%nat.
Proof. vm_compute. reflexivity. Qed.

Definition liquidation_at (ts : N) : Liquidation := {|
  liquidation_ts_us := ts; liquidation_pair := ex_pair; liquidation_side := Sell;
  liquidation_amount := dec 1 0; liquidation_price := dec 100 0; liquidation_exchange := "okx"
|}.

(** The liquidation that crosses a boundary is not in the row its arrival emits. *)
Lemma crossing_liquidation_in_next_row :
  map (fun r => map liquidation_ts_us (ms_liquidations r)) (all_rows (sync_run
    [OpLiquidation (liquidation_at 110); OpLiquidation (liquidation_at 200)]
    (liquidation_driven 100, []))) = [[110]]%N.
Proof. vm_compute. reflexivity. Qed.

(** With an emission delay the end of the stream puts every held-back event into one
    row, whatever its period. *)
Lemma held_back_events_rehomed :
  map (fun r => (ms_ts_us r, map source_trade_ts_us (ms_trades r))) (all_rows (sync_run
    [OpTime 100; OpTrade (at_ts 110); OpTrade (at_ts 210); OpTime 310; OpFinalize]
    (set_emission_delay_us 250 (external_clock 100), []))) = [(100, [110; 210])]%N.
Proof. vm_compute. reflexivity. Qed.
End ConcreteSync.
