(* ===== verification/ObSync.v ===== *)
(** * Order-book synchronizer

    [src/aetelier-connect/src/synchronizers/ob_sync.rs]: uniformly spaced order books from
    an irregular stream of updates, per symbol.  ([capture_levels], of the same file, is
    in [Book].)  The [assert!] on the period is a hypothesis of the theorems; the parquet
    stub is not modelled. *)

From Stdlib Require Import Sorting.Sorted Ascii String.
From stdpp Require Import gmap strings sorting.
From S2P Require Import Prelude BTree Strings Numeric Pairs Types Delta Book Snapshots MarketSync MarketSyncProps.
Local Open Scope nat_scope.

Section ObSync.
Context {NU : Numeric}.

Record ObSynchronizer := {
  ob_period_us : N;
  ob_last_period : gmap string N;
  last_snapshot : gmap string Orderbook;
  ob_buffer : list Orderbook;
  ob_total_captured : nat;
  ob_late_events_dropped : N;
  ob_finalized : bool
}.

Definition ObSynchronizer_new (p : N) : ObSynchronizer := {|
  ob_period_us := p; ob_last_period := ∅; last_snapshot := ∅; ob_buffer := [];
  ob_total_captured := 0; ob_late_events_dropped := 0; ob_finalized := false
|}.

Definition with_ob_last (m : gmap string N) (x : ObSynchronizer) : ObSynchronizer := {|
  ob_period_us := ob_period_us x; ob_last_period := m; last_snapshot := last_snapshot x;
  ob_buffer := ob_buffer x; ob_total_captured := ob_total_captured x;
  ob_late_events_dropped := ob_late_events_dropped x; ob_finalized := ob_finalized x
|}.

Definition with_ob_snapshots (m : gmap string Orderbook) (x : ObSynchronizer) : ObSynchronizer := {|
  ob_period_us := ob_period_us x; ob_last_period := ob_last_period x; last_snapshot := m;
  ob_buffer := ob_buffer x; ob_total_captured := ob_total_captured x;
  ob_late_events_dropped := ob_late_events_dropped x; ob_finalized := ob_finalized x
|}.

Definition with_ob_buffer (l : list Orderbook) (n : nat) (x : ObSynchronizer) : ObSynchronizer := {|
  ob_period_us := ob_period_us x; ob_last_period := ob_last_period x;
  last_snapshot := last_snapshot x; ob_buffer := l; ob_total_captured := n;
  ob_late_events_dropped := ob_late_events_dropped x; ob_finalized := ob_finalized x
|}.

Definition with_ob_late (n : N) (x : ObSynchronizer) : ObSynchronizer := {|
  ob_period_us := ob_period_us x; ob_last_period := ob_last_period x;
  last_snapshot := last_snapshot x; ob_buffer := ob_buffer x;
  ob_total_captured := ob_total_captured x; ob_late_events_dropped := n;
  ob_finalized := ob_finalized x
|}.

Definition with_ob_finalized (v : bool) (x : ObSynchronizer) : ObSynchronizer := {|
  ob_period_us := ob_period_us x; ob_last_period := ob_last_period x;
  last_snapshot := last_snapshot x; ob_buffer := ob_buffer x;
  ob_total_captured := ob_total_captured x;
  ob_late_events_dropped := ob_late_events_dropped x; ob_finalized := v
|}.

Definition ob_drop_post_finalize (s : ObSynchronizer) : ObSynchronizer :=
  with_ob_late (u64_add (ob_late_events_dropped s) 1) s.

(** The captured levels at each crossed grid point, from the first one on. *)
Definition captured_at (p : TradingPair) (ex : string) (levels : list Level * list Level)
    (s : ObSynchronizer) (k : N) : Orderbook :=
  Orderbook_from_levels 0 (u64_mul k (ob_period_us s)) p ex levels.1 levels.2.

(** [capture_fn] is called only when a boundary is crossed; its result is [levels]. *)
Definition on_update (p : TradingPair) (ex : string) (ts : N) (levels : list Level * list Level)
    (s : ObSynchronizer) : ObSynchronizer * nat :=
  if ob_finalized s then (ob_drop_post_finalize s, 0)
  else
    let current := (ts / ob_period_us s)%N in
    let key := to_canonical p in
    match ob_last_period s !! key with
    | None => (with_ob_last (<[key := current]> (ob_last_period s)) s, 0)
    | Some prev =>
      if (current <=? prev)%N then (s, 0)
      else
        let n := fill_count prev current in
        let rows := map (captured_at p ex levels s)
                      (row_labels prev (N.min (current - prev) MAX_GAP_FILL)) in
        (with_ob_last (<[key := current]> (ob_last_period s))
           (with_ob_buffer (ob_buffer s ++ rows) (ob_total_captured s + n) s), n)
    end.

Definition on_snapshot (p : TradingPair) (ts : N) (snapshot : Orderbook) (s : ObSynchronizer)
    : ObSynchronizer * nat :=
  if ob_finalized s then (ob_drop_post_finalize s, 0)
  else
    let current := (ts / ob_period_us s)%N in
    let key := to_canonical p in
    let store s := with_ob_snapshots (<[key := snapshot]> (last_snapshot s)) s in
    match ob_last_period s !! key with
    | None => (store (with_ob_last (<[key := current]> (ob_last_period s)) s), 0)
    | Some prev =>
      if (current <=? prev)%N then (store s, 0)
      else
        let n := fill_count prev current in
        let rows := match last_snapshot s !! key with
                    | Some prev_ob =>
                      map (fun k => with_ts (u64_mul k (ob_period_us s)) prev_ob)
                        (row_labels prev (N.min (current - prev) MAX_GAP_FILL))
                    | None => []
                    end in
        (store (with_ob_last (<[key := current]> (ob_last_period s))
           (with_ob_buffer (ob_buffer s ++ rows) (ob_total_captured s + n) s)), n)
    end.

Definition ob_finalize_symbol (s : ObSynchronizer) (kp : string * N) : ObSynchronizer :=
  match last_snapshot s !! kp.1 with
  | Some ob =>
    with_ob_buffer (ob_buffer s ++ [with_ts (u64_mul (u64_add kp.2 1) (ob_period_us s)) ob])
      (ob_total_captured s + 1) s
  | None => s
  end.

Definition ob_finalize (s : ObSynchronizer) : ObSynchronizer :=
  if ob_finalized s then s
  else fold_left ob_finalize_symbol (map_to_list (ob_last_period s)) (with_ob_finalized true s).

Definition ob_drain (s : ObSynchronizer) : ObSynchronizer * list Orderbook :=
  (with_ob_buffer [] (ob_total_captured s) s, ob_buffer s).
Definition ob_buffer_len (s : ObSynchronizer) : nat := length (ob_buffer s).

(** ** Properties *)

Lemma row_labels_length prev fill : length (row_labels prev fill) = N.to_nat fill.
Proof. unfold row_labels. by rewrite length_map, length_seq. Qed.

(** An update that crosses grid points captures the state before it at each of the
    first ones (at most 10000), each stamped with its own grid time, in order, and
    moves the symbol's clock to its period; other symbols are untouched and the count
    returned and accumulated is the number of books appended. *)
Theorem on_update_captures p ex ts levels s prev :
  (0 < ob_period_us s)%N -> is_u64 ts -> ob_finalized s = false ->
  ob_last_period s !! to_canonical p = Some prev -> (prev < ts / ob_period_us s)%N ->
  let fill := N.min (ts / ob_period_us s - prev) 10000 in
  let '(s', n) := on_update p ex ts levels s in
  n = N.to_nat fill /\ ob_total_captured s' = ob_total_captured s + n /\
  ob_last_period s' = <[to_canonical p := (ts / ob_period_us s)%N]> (ob_last_period s) /\
  exists rows, ob_buffer s' = ob_buffer s ++ rows /\ length rows = n /\
    forall k, k < n -> exists ob, rows !! k = Some ob /\
      orderbook_ts_us ob = ((prev + 1 + N.of_nat k) * ob_period_us s)%N /\
      (orderbook_ts_us ob <= ts)%N /\
      ob_pair ob = p /\ ob_bids ob = bt_collect (map by_price levels.1) /\
      ob_asks ob = bt_collect (map by_price levels.2).
Proof.
  intros Hp Hts Hf Hprev Hlt fill. unfold on_update. rewrite Hf, Hprev. cbv zeta.
  destruct (N.leb_spec (ts / ob_period_us s) prev); [lia|].
  split_and!; [done|done|done|]. eexists. split; [reflexivity|].
  split; [by rewrite length_map, row_labels_length|]. intros k Hk.
  assert (row_labels prev fill !! k = Some (prev + 1 + N.of_nat k)%N) as Hrow.
  { unfold row_labels. change (fun k0 => _) with (fun k0 => (prev + 1 + N.of_nat k0)%N).
    rewrite list_lookup_fmap, lookup_seq_lt by done. done. }
  exists (captured_at p ex levels s (prev + 1 + N.of_nat k)).
  assert ((prev + 1 + N.of_nat k) * ob_period_us s <= ts)%N as Hle.
  { pose proof (N.Div0.mul_div_le ts (ob_period_us s)).
    assert (prev + 1 + N.of_nat k <= ts / ob_period_us s)%N by (unfold fill_count in Hk; lia).
    nia. }
  change (N.min (ts / ob_period_us s - prev) MAX_GAP_FILL) with fill.
  split; [by rewrite list_lookup_fmap, Hrow|].
  simpl. rewrite u64_mul_small by (unfold is_u64 in Hts; lia). done.
Qed.

(** Interleaved with [on_update], [on_snapshot] can count books it has not appended. *)
Lemma on_snapshot_overcounts p ob :
  let s := (on_update p "x" 100 ([], []) (ObSynchronizer_new 100)).1 in
  (on_snapshot p 300 ob s).2 = 2 /\ ob_buffer (on_snapshot p 300 ob s).1 = [] /\
  ob_total_captured (on_snapshot p 300 ob s).1 = 2.
Proof.
  cbv zeta. unfold on_update. cbn [ob_finalized ObSynchronizer_new ob_last_period].
  rewrite lookup_empty. cbn [fst]. unfold on_snapshot.
  cbn [ob_finalized with_ob_last ob_last_period ob_period_us ObSynchronizer_new].
  rewrite lookup_insert_eq. cbn [last_snapshot with_ob_last ObSynchronizer_new].
  rewrite lookup_empty. by split_and!.
Qed.

(** Operations of a stream of snapshots, with what was drained. *)
Inductive ObOp :=
| ObSnap (p : TradingPair) (ts : N) (ob : Orderbook)
| ObDrain
| ObFinalize.

Definition ob_step (st : ObSynchronizer * list Orderbook) (o : ObOp)
    : ObSynchronizer * list Orderbook :=
  let '(s, out) := st in
  match o with
  | ObSnap p ts ob => ((on_snapshot p ts ob s).1, out)
  | ObDrain => ((ob_drain s).1, out ++ (ob_drain s).2)
  | ObFinalize => (ob_finalize s, out)
  end.

Definition ob_counted (st : ObSynchronizer * list Orderbook) : Prop :=
  ob_total_captured st.1 = length (st.2 ++ ob_buffer st.1) /\
  forall k, is_Some (ob_last_period st.1 !! k) -> is_Some (last_snapshot st.1 !! k).

Lemma ob_finalize_fold l s out :
  ob_counted (s, out) -> ob_counted (fold_left ob_finalize_symbol l s, out).
Proof.
  revert s. induction l as [|kp l IH]; intros s [Hc Hk]; simpl; [done|]. apply IH.
  unfold ob_finalize_symbol. simpl in *. destruct (last_snapshot s !! kp.1); [|done].
  split; [|exact Hk]. simpl. rewrite app_assoc, length_app, <- Hc. done.
Qed.

Lemma ob_counted_step st o : ob_counted st -> ob_counted (ob_step st o).
Proof.
  destruct st as [s out]. intros [Hc Hk]. simpl in *. destruct o as [p ts ob| |]; simpl.
  - unfold on_snapshot. destruct (ob_finalized s); [done|]. cbv zeta.
    assert (forall m : gmap string N, (forall k, is_Some (m !! k) -> k = to_canonical p \/ is_Some (ob_last_period s !! k)) ->
      forall k, is_Some (m !! k) -> is_Some ((<[to_canonical p := ob]> (last_snapshot s)) !! k)) as Hins.
    { intros m Hm k Hs. destruct (decide (k = to_canonical p)) as [->|Hne].
      - rewrite lookup_insert_eq. eauto.
      - rewrite lookup_insert_ne by done. apply Hk. by destruct (Hm k Hs). }
    destruct (ob_last_period s !! to_canonical p) as [prev|] eqn:Hp.
    + destruct (ts / ob_period_us s <=? prev)%N.
      { split; [done|]. simpl. apply Hins. auto. }
      destruct (Hk (to_canonical p)) as [ob' Hob]; [eauto|]. rewrite Hob.
      split; simpl.
      * rewrite app_assoc, (length_app (out ++ _)), <- Hc, length_map, row_labels_length. done.
      * apply Hins. intros k. destruct (decide (k = to_canonical p)) as [->|]; [by left|].
        rewrite lookup_insert_ne by done. by right.
    + split; simpl; [done|]. apply Hins. intros k.
      destruct (decide (k = to_canonical p)) as [->|]; [by left|].
      rewrite lookup_insert_ne by done. by right.
  - split; simpl; [by rewrite app_nil_r|done].
  - unfold ob_finalize. destruct (ob_finalized s); [done|]. by apply ob_finalize_fold.
Qed.

(** The capture count is exact on a stream of snapshots: whatever is fed, drained
    and closed in whatever order, the lifetime count is the number of books that were
    ever put out, and closing twice changes nothing. *)
Theorem ob_capture_count_exact period ops :
  let st := fold_left ob_step ops (ObSynchronizer_new period, []) in
  ob_total_captured st.1 = length (st.2 ++ ob_buffer st.1) /\
  ob_finalize (ob_finalize st.1) = ob_finalize st.1.
Proof.
  intros st. split.
  - assert (ob_counted st) as [H _]; [|exact H]. subst st.
    assert (ob_counted (ObSynchronizer_new period, [])) as H0.
    { split; [done|]. intros k. simpl. rewrite lookup_empty. by intros []. }
    revert H0. generalize (ObSynchronizer_new period, @nil Orderbook).
    induction ops as [|o ops IH]; intros st Hst; simpl; [done|]. apply IH. by apply ob_counted_step.
  - generalize st.1. intros s. assert (ob_finalized (ob_finalize s) = true) as Hf.
    { unfold ob_finalize. destruct (ob_finalized s) eqn:E; [done|].
      assert (forall l s, ob_finalized s = true -> ob_finalized (fold_left ob_finalize_symbol l s) = true)
        as H; [|by apply H].
      clear. induction l as [|kp l IH]; intros s Hs; simpl; [done|]. apply IH.
      unfold ob_finalize_symbol. by destruct (last_snapshot s !! kp.1). }
    unfold ob_finalize at 1. by rewrite Hf.
Qed.
End ObSync.

Lemma on_update_captures_witness :
  let s := (on_update (NU:=decimal_numeric) ex_pair "okx" 100 ([], []) (ObSynchronizer_new 100)).1 in
  (on_update ex_pair "okx" 350 ([], []) s).2 = 2.
Proof.
  intros s.
  assert (ob_last_period s !! to_canonical ex_pair = Some 1%N) as Hl by (vm_compute; reflexivity).
  pose proof (on_update_captures ex_pair "okx" 350 ([], []) s 1 eq_refl eq_refl eq_refl Hl eq_refl) as H.
  destruct (on_update ex_pair "okx" 350 ([], []) s) as [s' n]. exact (proj1 H).
Defined.
