(* ===== verification/EventSync.v ===== *)
(** * Event synchronizer

    [src/aetelier-connect/src/synchronizers/event_sync.rs]: a market snapshot per reference
    event.  The [assert!] of the constructor (some reference event) is not needed by the
    theorems. *)

From Stdlib Require Import Ascii String.
From stdpp Require Import strings.
From S2P Require Import Prelude BTree Strings Numeric Pairs Types Delta Book Snapshots.
Local Open Scope nat_scope.

Inductive ReferenceEventType := RefOrderbook | RefTrade | RefLiquidation.

#[export] Instance ReferenceEventType_eq_dec : EqDecision ReferenceEventType.
Proof. solve_decision. Defined.

Section EventSync.
Context {NU : Numeric}.

Record EventSynchronizer := {
  reference_events : list ReferenceEventType;
  initialized : bool;
  last_orderbook : option Orderbook;
  es_trades : list Trade;
  es_liquidations : list Liquidation;
  es_funding_rates : list FundingRate;
  es_open_interests : list OpenInterest;
  es_buffer : list MarketSnapshot;
  es_total_captured : nat
}.

Definition EventSynchronizer_new (refs : list ReferenceEventType) : EventSynchronizer := {|
  reference_events := refs; initialized := false; last_orderbook := None; es_trades := [];
  es_liquidations := []; es_funding_rates := []; es_open_interests := []; es_buffer := [];
  es_total_captured := 0
|}.

Definition orderbook_only : EventSynchronizer := EventSynchronizer_new [RefOrderbook].
Definition trade_only : EventSynchronizer := EventSynchronizer_new [RefTrade].
Definition liquidation_only : EventSynchronizer := EventSynchronizer_new [RefLiquidation].
Definition all_events : EventSynchronizer :=
  EventSynchronizer_new [RefOrderbook; RefTrade; RefLiquidation].

Definition with_es_book (b : Orderbook) (x : EventSynchronizer) : EventSynchronizer := {|
  reference_events := reference_events x; initialized := true; last_orderbook := Some b;
  es_trades := es_trades x; es_liquidations := es_liquidations x;
  es_funding_rates := es_funding_rates x; es_open_interests := es_open_interests x;
  es_buffer := es_buffer x; es_total_captured := es_total_captured x
|}.

Definition with_es_trades (l : list Trade) (x : EventSynchronizer) : EventSynchronizer := {|
  reference_events := reference_events x; initialized := initialized x;
  last_orderbook := last_orderbook x; es_trades := l; es_liquidations := es_liquidations x;
  es_funding_rates := es_funding_rates x; es_open_interests := es_open_interests x;
  es_buffer := es_buffer x; es_total_captured := es_total_captured x
|}.

Definition with_es_liquidations (l : list Liquidation) (x : EventSynchronizer) : EventSynchronizer := {|
  reference_events := reference_events x; initialized := initialized x;
  last_orderbook := last_orderbook x; es_trades := es_trades x; es_liquidations := l;
  es_funding_rates := es_funding_rates x; es_open_interests := es_open_interests x;
  es_buffer := es_buffer x; es_total_captured := es_total_captured x
|}.

Definition with_es_funding (l : list FundingRate) (x : EventSynchronizer) : EventSynchronizer := {|
  reference_events := reference_events x; initialized := initialized x;
  last_orderbook := last_orderbook x; es_trades := es_trades x;
  es_liquidations := es_liquidations x; es_funding_rates := l;
  es_open_interests := es_open_interests x; es_buffer := es_buffer x;
  es_total_captured := es_total_captured x
|}.

Definition with_es_open_interests (l : list OpenInterest) (x : EventSynchronizer) : EventSynchronizer := {|
  reference_events := reference_events x; initialized := initialized x;
  last_orderbook := last_orderbook x; es_trades := es_trades x;
  es_liquidations := es_liquidations x; es_funding_rates := es_funding_rates x;
  es_open_interests := l; es_buffer := es_buffer x; es_total_captured := es_total_captured x
|}.

Definition with_es_buffer (l : list MarketSnapshot) (x : EventSynchronizer) : EventSynchronizer := {|
  reference_events := reference_events x; initialized := initialized x;
  last_orderbook := last_orderbook x; es_trades := es_trades x;
  es_liquidations := es_liquidations x; es_funding_rates := es_funding_rates x;
  es_open_interests := es_open_interests x; es_buffer := l;
  es_total_captured := es_total_captured x
|}.

Definition is_reference (r : ReferenceEventType) (s : EventSynchronizer) : bool :=
  bool_decide (r ∈ reference_events s).

Definition emit_snapshot (ts : N) (s : EventSynchronizer) : EventSynchronizer := {|
  reference_events := reference_events s; initialized := initialized s;
  last_orderbook := last_orderbook s; es_trades := []; es_liquidations := [];
  es_funding_rates := es_funding_rates s; es_open_interests := es_open_interests s;
  es_buffer := es_buffer s ++
    [{| ms_ts_us := ts; ms_orderbook := with_ts ts <$> last_orderbook s;
        ms_trades := es_trades s; ms_liquidations := es_liquidations s;
        ms_funding_rate := es_funding_rates s; ms_open_interest := es_open_interests s;
        ms_funding_settlements := [] |}];
  es_total_captured := es_total_captured s + 1
|}.

Definition es_on_orderbook (ts : N) (snapshot : Orderbook) (s : EventSynchronizer)
    : EventSynchronizer * nat :=
  let s := with_es_book snapshot s in
  if is_reference RefOrderbook s then (emit_snapshot ts s, 1) else (s, 0).

Definition es_on_trade (t : Trade) (s : EventSynchronizer) : EventSynchronizer * nat :=
  let s := with_es_trades (es_trades s ++ [t]) s in
  if initialized s && is_reference RefTrade s then (emit_snapshot (source_trade_ts_us t) s, 1)
  else (s, 0).

Definition es_on_liquidation (l : Liquidation) (s : EventSynchronizer) : EventSynchronizer * nat :=
  let s := with_es_liquidations (es_liquidations s ++ [l]) s in
  if initialized s && is_reference RefLiquidation s then (emit_snapshot (liquidation_ts_us l) s, 1)
  else (s, 0).

Definition es_on_funding (f : FundingRate) (s : EventSynchronizer) : EventSynchronizer * nat :=
  (with_es_funding [f] s, 0).
Definition es_on_open_interest (o : OpenInterest) (s : EventSynchronizer) : EventSynchronizer * nat :=
  (with_es_open_interests [o] s, 0).

Definition es_finalize (s : EventSynchronizer) : EventSynchronizer :=
  if negb (initialized s) then s
  else if nonempty (es_trades s) || nonempty (es_liquidations s)
  then emit_snapshot (match last_orderbook s with Some ob => orderbook_ts_us ob | None => 0%N end) s
  else s.

Definition es_drain (s : EventSynchronizer) : EventSynchronizer * list MarketSnapshot :=
  (with_es_buffer [] s, es_buffer s).
Definition es_buffer_len (s : EventSynchronizer) : nat := length (es_buffer s).

(** ** Properties *)

Inductive EsOp :=
| EsBook (ts : N) (b : Orderbook)
| EsTrade (t : Trade)
| EsLiquidation (l : Liquidation)
| EsFunding (f : FundingRate)
| EsOpenInterest (o : OpenInterest)
| EsDrain
| EsFinalize.

(** The state with what was drained, and the operations in order. *)
Definition es_step (st : EventSynchronizer * list MarketSnapshot) (o : EsOp)
    : EventSynchronizer * list MarketSnapshot :=
  let '(s, out) := st in
  match o with
  | EsBook ts b => ((es_on_orderbook ts b s).1, out)
  | EsTrade t => ((es_on_trade t s).1, out)
  | EsLiquidation l => ((es_on_liquidation l s).1, out)
  | EsFunding f => ((es_on_funding f s).1, out)
  | EsOpenInterest o => ((es_on_open_interest o s).1, out)
  | EsDrain => ((es_drain s).1, out ++ (es_drain s).2)
  | EsFinalize => (es_finalize s, out)
  end.

Definition es_rows (st : EventSynchronizer * list MarketSnapshot) : list MarketSnapshot :=
  st.2 ++ es_buffer st.1.

Definition trades_of (ops : list EsOp) : list Trade :=
  omap (fun o => match o with EsTrade t => Some t | _ => None end) ops.
Definition liquidations_of (ops : list EsOp) : list Liquidation :=
  omap (fun o => match o with EsLiquidation l => Some l | _ => None end) ops.

Record es_inv (ops : list EsOp) (st : EventSynchronizer * list MarketSnapshot) : Prop := {
  es_inv_trades : concat (map ms_trades (es_rows st)) ++ es_trades st.1 = trades_of ops;
  es_inv_liqs :
    concat (map ms_liquidations (es_rows st)) ++ es_liquidations st.1 = liquidations_of ops;
  es_inv_book : initialized st.1 = true <-> is_Some (last_orderbook st.1);
  es_inv_rows : Forall (fun r => exists ob, ms_orderbook r = Some ob /\
                  orderbook_ts_us ob = ms_ts_us r) (es_rows st);
  es_inv_count : es_total_captured st.1 = length (es_rows st)
}.

Lemma es_inv_emit ops ts s out :
  es_inv ops (s, out) -> initialized s = true -> es_inv ops (emit_snapshot ts s, out).
Proof.
  intros [H1 H2 H3 H4 H5] Hi. unfold es_rows in *. simpl in *.
  apply H3 in Hi as [ob Hob].
  split; unfold es_rows; simpl; rewrite ?app_assoc, ?map_app, ?concat_app; simpl;
    rewrite ?app_nil_r; try done.
  - by rewrite <- concat_app, <- map_app.
  - by rewrite <- concat_app, <- map_app.
  - apply Forall_app. split; [done|]. constructor; [|constructor]. simpl. rewrite Hob. simpl. eauto.
  - rewrite length_app, <- H5. done.
Qed.

Lemma es_inv_step ops st o : es_inv ops st -> es_inv (ops ++ [o]) (es_step st o).
Proof.
  destruct st as [s out]. intros Hi.
  assert (trades_of (ops ++ [o]) = trades_of ops ++ trades_of [o]) as Et by apply omap_app.
  assert (liquidations_of (ops ++ [o]) = liquidations_of ops ++ liquidations_of [o]) as El
    by apply omap_app.
  assert (forall s' l1 l2, es_inv ops (s', out) -> es_trades s' ++ l1 = es_trades s' ++ trades_of [o] ->
            es_liquidations s' ++ l2 = es_liquidations s' ++ liquidations_of [o] ->
            es_inv (ops ++ [o]) (with_es_liquidations (es_liquidations s' ++ l2)
                                   (with_es_trades (es_trades s' ++ l1) s'), out)) as Hadd.
  { intros s' l1 l2 [H1 H2 H3 H4 H5] E1 E2. unfold es_rows in *. simpl in *.
    split; unfold es_rows; simpl; try done; rewrite ?Et, ?El, ?E1, ?E2, ?app_assoc; congruence. }
  assert (es_inv ops (s, out) -> trades_of [o] = [] -> liquidations_of [o] = [] ->
            es_inv (ops ++ [o]) (s, out)) as Hsame.
  { intros [H1 H2 H3 H4 H5] E1 E2. split; try done; rewrite ?Et, ?El, ?E1, ?E2, app_nil_r; done. }
  destruct o as [ts b|t|l|f|o| |]; simpl.
  - assert (es_inv (ops ++ [EsBook ts b]) (with_es_book b s, out)) as H.
    { destruct (Hsame Hi eq_refl eq_refl) as [H1 H2 H3 H4 H5].
      by split. }
    unfold es_on_orderbook. cbv zeta. destruct (is_reference _ _); [by apply es_inv_emit|done].
  - assert (es_inv (ops ++ [EsTrade t]) (with_es_trades (es_trades s ++ [t]) s, out)) as H.
    { destruct (Hadd s [t] [] Hi eq_refl) as [H1 H2 H3 H4 H5]; [done|].
      simpl in *. rewrite app_nil_r in H2. by split. }
    unfold es_on_trade. cbv zeta. destruct (initialized _) eqn:Ei; [|done].
    destruct (is_reference _ _); [by apply es_inv_emit|done].
  - assert (es_inv (ops ++ [EsLiquidation l]) (with_es_liquidations (es_liquidations s ++ [l]) s, out)) as H.
    { destruct (Hadd s [] [l] Hi) as [H1 H2 H3 H4 H5]; [done|done|].
      simpl in *. rewrite app_nil_r in H1. by split. }
    unfold es_on_liquidation. cbv zeta. destruct (initialized _) eqn:Ei; [|done].
    destruct (is_reference _ _); [by apply es_inv_emit|done].
  - by destruct (Hsame Hi eq_refl eq_refl); split.
  - by destruct (Hsame Hi eq_refl eq_refl); split.
  - destruct (Hsame Hi eq_refl eq_refl). unfold es_rows in *. simpl in *.
    split; unfold es_rows; simpl; rewrite ?app_nil_r; done.
  - unfold es_finalize. destruct (initialized s) eqn:Ei; simpl; [|by apply Hsame].
    destruct (_ || _); [|by apply Hsame]. apply es_inv_emit; [by apply Hsame|done].
Qed.

(** Snapshots on reference events lose and duplicate nothing: over any history, the
    trades of the snapshots put out, in order, followed by those still accumulated are
    exactly the trades fed, in order, and likewise the liquidations; every snapshot
    carries a book, re-stamped with the snapshot's own time; the count is exact; and
    once a book has been seen, closing the stream leaves nothing accumulated. *)
Theorem event_sync_conserves refs ops :
  let st := fold_left es_step ops (EventSynchronizer_new refs, []) in
  concat (map ms_trades (es_rows st)) ++ es_trades st.1 = trades_of ops /\
  concat (map ms_liquidations (es_rows st)) ++ es_liquidations st.1 = liquidations_of ops /\
  Forall (fun r => exists ob, ms_orderbook r = Some ob /\ orderbook_ts_us ob = ms_ts_us r)
    (es_rows st) /\
  es_total_captured st.1 = length (es_rows st) /\
  (is_Some (last_orderbook st.1) ->
     es_trades (es_finalize st.1) = [] /\ es_liquidations (es_finalize st.1) = []).
Proof.
  intros st. assert (es_inv ops st) as [H1 H2 H3 H4 H5].
  { subst st. assert (es_inv [] (EventSynchronizer_new refs, [])) as H0.
    { split; simpl; done. }
    induction ops as [|o ops IH] using rev_ind; [done|].
    rewrite fold_left_app. simpl. by apply es_inv_step. }
  split_and!; [done..|]. intros Hb. apply H3 in Hb. unfold es_finalize. rewrite Hb. simpl.
  destruct (es_trades st.1) as [|t l] eqn:Et; simpl; [|done].
  by destruct (es_liquidations st.1) as [|l0 l] eqn:El; simpl.
Qed.

(** Closing before any book has been seen keeps the accumulated events back. *)
Lemma finalize_without_book t :
  let s := es_finalize (es_on_trade t all_events).1 in es_buffer s = [] /\ es_trades s = [t].
Proof. done. Qed.
End EventSync.
