(* ===== verification/Disconnect.v ===== *)
(** * Why a connection ended

    [src/aetelier-connect/src/clients/disconnect.rs]: the exit reasons of the socket loop
    and their classification for the reconnect policy.  The errors of [tungstenite] are a
    parameter: their text, and the message of the one variant the code looks at.  A boxed
    error is represented by its text. *)
From Stdlib Require Import QArith Ascii String.
From S2P Require Import Prelude Budget Strings.
Local Open Scope string_scope.

(** ** The [Debug] form of a [Duration] *)

Fixpoint digits_fixed (width : nat) (n : N) : string :=
  match width with
  | O => ""
  | S w => digits_fixed w (n / 10) ++ String (ascii_of_N (48 + n mod 10)) ""
  end.

(** The fractional digits, trailing zeros dropped. *)
Fixpoint strip_zeros (s : string) : string :=
  match s with
  | EmptyString => ""
  | String c s' =>
    match strip_zeros s' with
    | EmptyString => if (c =? "0")%char then "" else String c ""
    | s'' => String c s''
    end
  end.

Definition fmt_fraction (whole frac : N) (width : nat) (unit : string) : string :=
  let f := strip_zeros (digits_fixed width frac) in
  pretty whole ++ (if is_empty f then "" else "." ++ f) ++ unit.

Definition Duration_debug (d : Duration) : string :=
  if (1000000000 <=? d)%N then fmt_fraction (d / 1000000000) (d mod 1000000000) 9 "s"
  else if (1000000 <=? d)%N then fmt_fraction (d / 1000000) (d mod 1000000) 6 "ms"
  else if (1000 <=? d)%N then fmt_fraction (d / 1000) (d mod 1000) 3 "µs"
  else pretty d ++ "ns".

(** ** Reasons *)

Inductive DisconnectReason :=
| CleanClose
| GoingAway (reason : string)
| ProtocolRejection (code : N) (reason : string)
| TransportError (source : string)
| StaleConnection (silence_duration : Duration)
| ReceiverDropped
| HeartbeatFailed (source : string).

Definition is_retryable (r : DisconnectReason) : bool :=
  match r with ProtocolRejection _ _ | ReceiverDropped => false | _ => true end.

Definition suggested_delay_factor (r : DisconnectReason) : Q :=
  match r with
  | CleanClose => 0
  | GoingAway _ => 1
  | ProtocolRejection _ _ => 0
  | TransportError _ => 2
  | StaleConnection _ => 1
  | ReceiverDropped => 0
  | HeartbeatFailed _ => 1
  end.

Definition DisconnectReason_fmt (r : DisconnectReason) : string :=
  match r with
  | CleanClose => "server closed normally (1000)"
  | GoingAway reason => "server going away (1001): " ++ reason
  | ProtocolRejection code reason => "protocol rejection (" ++ pretty code ++ "): " ++ reason
  | TransportError source => "transport error: " ++ source
  | StaleConnection d => "stale connection (no data for " ++ Duration_debug d ++ ")"
  | ReceiverDropped => "receiver dropped (intentional shutdown)"
  | HeartbeatFailed source => "heartbeat write failed: " ++ source
  end.

(** ** Close frames *)

(** A close frame by the number of its code: 1000 [Normal], 1001 [Away], 1002 [Protocol],
    1003 [Unsupported], 1008 [Policy]. *)
Record CloseFrame := { cf_code : N; cf_reason : string }.

(** The peer vanished without a closing handshake. *)
Definition is_reset (text : string) : bool :=
  str_contains "reset without closing" text || str_contains "Connection reset" text.

Definition classify_close_frame (frame : option CloseFrame) : DisconnectReason :=
  match frame with
  | None => TransportError "server closed without a close frame"
  | Some f =>
    let code := cf_code f in
    let reason := cf_reason f in
    if (code =? 1000)%N then CleanClose
    else if (code =? 1001)%N then GoingAway reason
    else if (code =? 1002)%N then
      if is_reset reason then TransportError ("server closed with code 1002: " ++ reason)
      else ProtocolRejection code reason
    else if (code =? 1003)%N || (code =? 1008)%N then ProtocolRejection code reason
    else TransportError ("server closed with code " ++ pretty code ++ ": " ++ reason)
  end.

Class Tungstenite := {
  ws_error : Type;
  ws_error_fmt : ws_error -> string;
  (** the text of the message of an [Error::Protocol] *)
  ws_protocol : ws_error -> option string
}.

Section Classify.
Context {TU : Tungstenite}.

Definition classify_tungstenite_error (e : ws_error) : DisconnectReason :=
  match ws_protocol e with
  | Some msg =>
    if is_reset msg then TransportError (ws_error_fmt e) else ProtocolRejection 1002 msg
  | None => TransportError (ws_error_fmt e)
  end.

(** ** Exit reasons of the message loop *)

Inductive WssExitReason :=
| StreamEnded
| ExitReceiverDropped
| ServerClose (frame : option CloseFrame)
| Transport (e : ws_error)
| HeartbeatWriteFailed (e : ws_error)
| ConnectionFailed (msg : string)
| SubscriptionRejected (msg : string)
| Stale (silence : Duration)
| PlannedRotation (lifetime : Duration).

Definition WssExitReason_fmt (r : WssExitReason) : string :=
  match r with
  | StreamEnded => "stream ended"
  | ExitReceiverDropped => "receiver dropped"
  | ServerClose (Some f) => "server close (" ++ pretty (cf_code f) ++ "): " ++ cf_reason f
  | ServerClose None => "server close (no frame)"
  | Transport e => "transport error: " ++ ws_error_fmt e
  | HeartbeatWriteFailed e => "heartbeat write failed: " ++ ws_error_fmt e
  | ConnectionFailed msg => "connection failed: " ++ msg
  | SubscriptionRejected msg => "subscription rejected: " ++ msg
  | Stale silence => "stale connection (no frames for " ++ Duration_debug silence ++ ")"
  | PlannedRotation lifetime =>
    "planned rotation before the " ++ Duration_debug lifetime ++ " session lifetime"
  end.

Definition DisconnectReason_from (r : WssExitReason) : DisconnectReason :=
  match r with
  | StreamEnded => classify_close_frame None
  | ExitReceiverDropped => ReceiverDropped
  | ServerClose frame => classify_close_frame frame
  | Transport e => classify_tungstenite_error e
  | HeartbeatWriteFailed e => HeartbeatFailed (ws_error_fmt e)
  | ConnectionFailed msg => TransportError msg
  | SubscriptionRejected reason => ProtocolRejection 0 reason
  | Stale silence => StaleConnection silence
  | PlannedRotation _ => CleanClose
  end.

(** ** Which exits are terminal *)

(** The exits after which the policy is asked to give up: a rejected subscription, a
    local shutdown, and a genuine protocol rejection by the peer. *)
Definition terminal_exit (r : WssExitReason) : bool :=
  match r with
  | ExitReceiverDropped | SubscriptionRejected _ => true
  | ServerClose (Some f) =>
    ((cf_code f =? 1002) && negb (is_reset (cf_reason f)) || (cf_code f =? 1003) ||
     (cf_code f =? 1008))%N%bool
  | Transport e => match ws_protocol e with Some msg => negb (is_reset msg) | None => false end
  | _ => false
  end.

Lemma exit_retryable r : is_retryable (DisconnectReason_from r) = negb (terminal_exit r).
Proof.
  destruct r as [| |[f|]|e|e|msg|msg|d|d]; try done; simpl.
  - destruct (N.eqb_spec (cf_code f) 1000) as [->|]; [done|].
    destruct (N.eqb_spec (cf_code f) 1001) as [->|]; [done|].
    destruct (N.eqb_spec (cf_code f) 1002) as [->|]; simpl.
    + by destruct (is_reset (cf_reason f)).
    + by destruct (cf_code f =? 1003)%N, (cf_code f =? 1008)%N.
  - unfold classify_tungstenite_error. destruct (ws_protocol e) as [msg|]; [|done].
    by destruct (is_reset msg).
Qed.

(** The one code that is not a WebSocket close code marks a rejection by the venue's own
    protocol, before any data. *)
Lemma application_rejection_code r code reason :
  DisconnectReason_from r = ProtocolRejection code reason ->
  code = 0%N <-> r = SubscriptionRejected reason.
Proof.
  intros E. split; [|intros ->; by injection E].
  intros ->. destruct r as [| |[f|]|e|e|msg|msg|d|d]; simpl in E; try done.
  - destruct (N.eqb_spec (cf_code f) 1000); [done|].
    destruct (N.eqb_spec (cf_code f) 1001); [done|].
    destruct (N.eqb_spec (cf_code f) 1002) as [Hc|].
    + destruct (is_reset (cf_reason f)); [done|]. rewrite Hc in E. by injection E.
    + destruct (_ || _) eqn:Ec; [|done]. apply orb_true_iff in Ec.
      injection E as E _. rewrite E in Ec. by destruct Ec.
  - unfold classify_tungstenite_error in E. destruct (ws_protocol e) as [m|]; [|done].
    by destruct (is_reset m).
  - by injection E as ->.
Qed.

Lemma receiver_dropped_exit r : DisconnectReason_from r = ReceiverDropped -> r = ExitReceiverDropped.
Proof.
  destruct r as [| |[f|]|e|e|msg|msg|d|d]; simpl; try done.
  - by repeat case_match.
  - unfold classify_tungstenite_error. by repeat case_match.
Qed.

(** The two exits the application causes, and the others. *)
Lemma exit_cases r :
  r = ExitReceiverDropped \/ (exists msg, r = SubscriptionRejected msg) \/
  (r <> ExitReceiverDropped /\ forall msg, r <> SubscriptionRejected msg).
Proof. destruct r; eauto; right; right; done. Qed.
End Classify.

Example duration_debug_examples :
  map Duration_debug [1500000000; 60000000000; 2050000; 1500; 7]%N
  = ["1.5s"; "60s"; "2.05ms"; "1.5µs"; "7ns"].
Proof. vm_compute. reflexivity. Qed.
