(* ===== verification/Reconnect.v ===== *)
(** * Reconnection policy and connection state

    [src/aetelier-connect/src/clients/reconnect.rs], [connection_state.rs] and
    [connection_manager.rs]: backoff with jitter, the circuit breaker, the staleness
    monitor and the log of connection states.

    Clocks are arguments (nanoseconds), and so is the random draw of the jitter.  An [f64]
    is a rational, without rounding: the products and sums here are of millisecond counts
    far below 2^53 with the factors 0, 1 and 2.  A [Duration] does not overflow.  The
    generator panics on an empty range, which [next_action] answers with [None]. *)
From Stdlib Require Import QArith Qround Qminmax Ascii String Sorted.
From S2P Require Import Prelude Budget Strings Disconnect.
Local Open Scope N_scope.

(** ** The policy *)

Inductive CircuitState := Closed | Open | HalfOpen.
#[export] Instance CircuitState_eq_dec : EqDecision CircuitState.
Proof. solve_decision. Defined.

Definition CircuitState_fmt (c : CircuitState) : string :=
  match c with Closed => "closed" | Open => "open" | HalfOpen => "half_open" end.

Definition Instant : Type := N.

Inductive ReconnectAction :=
| RetryAfter (d : Duration)
| RetryImmediately
| GiveUp (reason : string)
| CircuitOpen (until : Instant).

Record ReconnectPolicy := {
  initial_delay : Duration;
  max_delay : Duration;
  max_attempts : option N;
  jitter_factor : Q;
  current_delay : Duration;
  consecutive_failures : N;
  circuit_state : CircuitState;
  cooldown_until : option Instant;
  cooldown_duration : Duration;
  data_ever_received : bool
}.

(** [u32] with the wrap-around of a release build. *)
Definition u32_modulus : N := 4294967296.
Definition u32_succ (n : N) : N := (n + 1) mod u32_modulus.

Definition as_millis_of (d : Duration) : N := d / 1000000.
Definition from_millis_of (ms : N) : Duration := ms * 1000000.

Definition with_circuit (c : CircuitState) (until : option Instant) (cooldown : Duration)
    (p : ReconnectPolicy) : ReconnectPolicy := {|
  initial_delay := initial_delay p; max_delay := max_delay p; max_attempts := max_attempts p;
  jitter_factor := jitter_factor p; current_delay := current_delay p;
  consecutive_failures := consecutive_failures p; circuit_state := c; cooldown_until := until;
  cooldown_duration := cooldown; data_ever_received := data_ever_received p
|}.

Definition with_failures (n : N) (p : ReconnectPolicy) : ReconnectPolicy := {|
  initial_delay := initial_delay p; max_delay := max_delay p; max_attempts := max_attempts p;
  jitter_factor := jitter_factor p; current_delay := current_delay p;
  consecutive_failures := n; circuit_state := circuit_state p; cooldown_until := cooldown_until p;
  cooldown_duration := cooldown_duration p; data_ever_received := data_ever_received p
|}.

Definition with_delay (d : Duration) (data : bool) (p : ReconnectPolicy) : ReconnectPolicy := {|
  initial_delay := initial_delay p; max_delay := max_delay p; max_attempts := max_attempts p;
  jitter_factor := jitter_factor p; current_delay := d;
  consecutive_failures := consecutive_failures p; circuit_state := circuit_state p;
  cooldown_until := cooldown_until p; cooldown_duration := cooldown_duration p;
  data_ever_received := data
|}.

(** A close of a connection that has carried data is no rejection of its subscription. *)
Definition post_data_protocol_close (r : DisconnectReason) (p : ReconnectPolicy) : bool :=
  data_ever_received p &&
  match r with ProtocolRejection code _ => negb (code =? 0) | _ => false end.

(** [base_ms as f64 * factor] *)
Definition base_ms (p : ReconnectPolicy) (factor : Q) : Q :=
  inject_Z (Z.of_N (as_millis_of (current_delay p))) * factor.

(** [Duration::from_millis((base_ms + jitter_ms) as u64)]: the cast truncates. *)
Definition jittered (base jitter : Q) : Duration :=
  from_millis_of (N.min (Z.to_N (Qfloor (base + jitter))) u64_max).

(** The arm of a closed circuit, the failure being one that waits. *)
Definition back_off (factor : Q) (now : Instant) (draw : Q) (p : ReconnectPolicy)
    : option (ReconnectPolicy * ReconnectAction) :=
  let p := with_failures (u32_succ (consecutive_failures p)) p in
  if match max_attempts p with Some max => max <=? consecutive_failures p | None => false end
  then
    let cooldown := max_delay p * 4 in
    Some (with_circuit Open (Some (now + cooldown)) cooldown p, CircuitOpen (now + cooldown))
  else
    let base := base_ms p factor in
    let next := with_delay (N.min (current_delay p * 2) (max_delay p)) (data_ever_received p) p in
    if Qle_bool (jitter_factor p) 0 then Some (next, RetryAfter (jittered base 0))
    else if Qle_bool (base * jitter_factor p) 0 then None
    else Some (next, RetryAfter (jittered base draw)).

Definition next_action (r : DisconnectReason) (now : Instant) (draw : Q) (p : ReconnectPolicy)
    : option (ReconnectPolicy * ReconnectAction) :=
  if negb (is_retryable r) && negb (post_data_protocol_close r p)
  then Some (p, GiveUp (DisconnectReason_fmt r))
  else
    match circuit_state p with
    | Open =>
      match cooldown_until p with
      | Some until =>
        if now <? until then Some (p, CircuitOpen until)
        else Some (with_circuit HalfOpen (cooldown_until p) (cooldown_duration p) p,
                   RetryAfter (initial_delay p))
      | None => Some (with_circuit HalfOpen None (cooldown_duration p) p, RetryAfter (initial_delay p))
      end
    | HalfOpen =>
      let cooldown := N.min (cooldown_duration p * 2) (max_delay p * 8) in
      Some (with_circuit Open (Some (now + cooldown)) cooldown p, CircuitOpen (now + cooldown))
    | Closed =>
      if Qeq_bool (suggested_delay_factor r) 0 then Some (p, RetryImmediately)
      else back_off (suggested_delay_factor r) now draw p
    end.

Definition on_connected (p : ReconnectPolicy) : ReconnectPolicy := {|
  initial_delay := initial_delay p; max_delay := max_delay p; max_attempts := max_attempts p;
  jitter_factor := jitter_factor p; current_delay := initial_delay p; consecutive_failures := 0;
  circuit_state := Closed; cooldown_until := None; cooldown_duration := max_delay p * 4;
  data_ever_received := data_ever_received p
|}.

Definition on_message_received (p : ReconnectPolicy) : ReconnectPolicy :=
  with_delay (initial_delay p) true p.

(** ** The builder *)

Record ReconnectPolicyBuilder := {
  b_initial_delay : Duration;
  b_max_delay : Duration;
  b_max_attempts : option N;
  b_jitter_factor : Q
}.

Definition ReconnectPolicyBuilder_default : ReconnectPolicyBuilder := {|
  b_initial_delay := 1000000000; b_max_delay := 30000000000; b_max_attempts := None;
  b_jitter_factor := 1 # 2
|}.

Definition set_initial_delay (d : Duration) (b : ReconnectPolicyBuilder) : ReconnectPolicyBuilder := {|
  b_initial_delay := d; b_max_delay := b_max_delay b; b_max_attempts := b_max_attempts b;
  b_jitter_factor := b_jitter_factor b
|}.
Definition set_max_delay (d : Duration) (b : ReconnectPolicyBuilder) : ReconnectPolicyBuilder := {|
  b_initial_delay := b_initial_delay b; b_max_delay := d; b_max_attempts := b_max_attempts b;
  b_jitter_factor := b_jitter_factor b
|}.
Definition set_max_attempts (n : option N) (b : ReconnectPolicyBuilder) : ReconnectPolicyBuilder := {|
  b_initial_delay := b_initial_delay b; b_max_delay := b_max_delay b; b_max_attempts := n;
  b_jitter_factor := b_jitter_factor b
|}.
(** [f.max(0.0)] *)
Definition set_jitter_factor (f : Q) (b : ReconnectPolicyBuilder) : ReconnectPolicyBuilder := {|
  b_initial_delay := b_initial_delay b; b_max_delay := b_max_delay b;
  b_max_attempts := b_max_attempts b; b_jitter_factor := Qmax f 0
|}.

(** [None]: the assertion on the delays fails. *)
Definition ReconnectPolicy_build (b : ReconnectPolicyBuilder) : option ReconnectPolicy :=
  if b_initial_delay b <=? b_max_delay b
  then Some {|
    initial_delay := b_initial_delay b; max_delay := b_max_delay b;
    max_attempts := b_max_attempts b; jitter_factor := b_jitter_factor b;
    current_delay := b_initial_delay b; consecutive_failures := 0; circuit_state := Closed;
    cooldown_until := None; cooldown_duration := b_max_delay b * 4; data_ever_received := false |}
  else None.

(** ** Staleness *)

Record HealthMonitor := { hm_timeout : Duration; last_activity : Instant }.

Definition HealthMonitor_new (timeout : Duration) (now : Instant) : HealthMonitor :=
  {| hm_timeout := timeout; last_activity := now |}.
Definition record_activity (now : Instant) (h : HealthMonitor) : HealthMonitor :=
  {| hm_timeout := hm_timeout h; last_activity := now |}.
Definition deadline (h : HealthMonitor) : Instant := last_activity h + hm_timeout h.
Definition is_stale (now : Instant) (h : HealthMonitor) : bool := deadline h <? now.

(** [ConnectionHealth::staleness_timeout], the default of every venue. *)
Definition staleness_timeout : Duration := 60000000000.

(** ** Connection states *)

Inductive ConnectionState :=
| Disconnected | Connecting | Authenticating | Subscribing | Streaming | Paused
| Reconnecting (attempt : N).
#[export] Instance ConnectionState_eq_dec : EqDecision ConnectionState.
Proof. solve_decision. Defined.

Definition is_live (s : ConnectionState) : bool := bool_decide (s = Streaming).
Definition is_error (s : ConnectionState) : bool :=
  match s with Reconnecting _ | Disconnected => true | _ => false end.
Definition is_paused (s : ConnectionState) : bool := bool_decide (s = Paused).

Definition ConnectionState_fmt (s : ConnectionState) : string :=
  match s with
  | Disconnected => "disconnected" | Connecting => "connecting"
  | Authenticating => "authenticating" | Subscribing => "subscribing"
  | Streaming => "streaming" | Paused => "paused"
  | Reconnecting attempt => ("reconnecting(attempt=" ++ pretty attempt ++ ")")%string
  end.

Record StateTransition := {
  st_at : Instant;
  st_from : ConnectionState;
  st_to : ConnectionState;
  st_reason : string;
  duration_in_prev : Duration
}.

Record ConnectionManagerConfig := {
  cfg_initial_delay : Duration;
  cfg_max_delay : Duration;
  cfg_max_attempts : option N;
  cfg_jitter_factor : Q
}.

Definition ConnectionManagerConfig_default : ConnectionManagerConfig := {|
  cfg_initial_delay := 100000000; cfg_max_delay := 10000000000; cfg_max_attempts := None;
  cfg_jitter_factor := 1 # 2
|}.

Record ConnectionManager := {
  cm_state : ConnectionState;
  state_entered_at : Instant;
  policy : ReconnectPolicy;
  transitions : list StateTransition;
  label : string
}.

Definition ConnectionManager_new (l : string) (c : ConnectionManagerConfig) (now : Instant)
    : option ConnectionManager :=
  p ← ReconnectPolicy_build
        (set_jitter_factor (cfg_jitter_factor c) (set_max_attempts (cfg_max_attempts c)
          (set_max_delay (cfg_max_delay c) (set_initial_delay (cfg_initial_delay c)
            ReconnectPolicyBuilder_default))));
  Some {| cm_state := Disconnected; state_entered_at := now; policy := p; transitions := [];
          label := l |}.

Definition with_policy (p : ReconnectPolicy) (m : ConnectionManager) : ConnectionManager := {|
  cm_state := cm_state m; state_entered_at := state_entered_at m; policy := p;
  transitions := transitions m; label := label m
|}.

(** [now.duration_since(earlier)] saturates at zero. *)
Definition cm_transition (new : ConnectionState) (reason : string) (now : Instant)
    (m : ConnectionManager) : ConnectionManager := {|
  cm_state := new; state_entered_at := now; policy := policy m;
  transitions := transitions m ++
    [{| st_at := now; st_from := cm_state m; st_to := new; st_reason := reason;
        duration_in_prev := now - state_entered_at m |}];
  label := label m
|}.

Definition cm_on_connected (m : ConnectionManager) : ConnectionManager :=
  with_policy (on_connected (policy m)) m.

Definition pause (now : Instant) (m : ConnectionManager) : ConnectionManager :=
  if bool_decide (cm_state m <> Paused) then cm_transition Paused "user requested pause" now m else m.

Definition resume (now : Instant) (m : ConnectionManager) : ConnectionManager :=
  if bool_decide (cm_state m = Paused) then cm_transition Streaming "user requested resume" now m else m.

(** [now] is read for the transition, [now'] by the policy. *)
Definition on_disconnect (r : DisconnectReason) (now now' : Instant) (draw : Q)
    (m : ConnectionManager) : option (ConnectionManager * ReconnectAction) :=
  let attempt := u32_succ (consecutive_failures (policy m)) in
  let m := cm_transition (Reconnecting attempt) (DisconnectReason_fmt r) now m in
  '(p, a) ← next_action r now' draw (policy m);
  Some (with_policy p m, a).

(** ** Histories of a policy

    What the owner of a connection does with its policy: it reports a disconnection, read
    at a time and with a random draw, a connection, or a message. *)

Inductive PolicyEvent :=
| EvDisconnect (r : DisconnectReason) (now : Instant) (draw : Q)
| EvConnected
| EvMessage.

(** The final policy and the actions decided, with their times. *)
Fixpoint policy_run (evs : list PolicyEvent) (p : ReconnectPolicy)
    : option (ReconnectPolicy * list (Instant * ReconnectAction)) :=
  match evs with
  | [] => Some (p, [])
  | EvDisconnect r now draw :: evs =>
    '(p', a) ← next_action r now draw p;
    '(p'', log) ← policy_run evs p';
    Some (p'', (now, a) :: log)
  | EvConnected :: evs => policy_run evs (on_connected p)
  | EvMessage :: evs => policy_run evs (on_message_received p)
  end.

Definition event_time (e : PolicyEvent) : option Instant :=
  match e with EvDisconnect _ now _ => Some now | _ => None end.

Definition is_connected (e : PolicyEvent) : bool :=
  match e with EvConnected => true | _ => false end.

(** The times at which an attempt was granted after a wait. *)
Definition grants (log : list (Instant * ReconnectAction)) : list Instant :=
  omap (fun '(t, a) => match a with RetryAfter _ => Some t | _ => None end) log.

Record policy_ok (p : ReconnectPolicy) : Prop := {
  ok_delay : initial_delay p <= current_delay p <= max_delay p;
  ok_cooldown : 4 * max_delay p <= cooldown_duration p <= 8 * max_delay p;
  ok_until : circuit_state p = Open -> is_Some (cooldown_until p);
  ok_jitter : (0 <= jitter_factor p)%Q
}.

(** ** The invariant *)

Lemma build_ok b p :
  (0 <= b_jitter_factor b)%Q -> ReconnectPolicy_build b = Some p -> policy_ok p.
Proof.
  intros Hj. unfold ReconnectPolicy_build.
  destruct (N.leb_spec (b_initial_delay b) (b_max_delay b)); [|done].
  intros [= <-]. split; simpl; lia || done.
Qed.

Lemma set_jitter_factor_nonneg f b : (0 <= b_jitter_factor (set_jitter_factor f b))%Q.
Proof. apply Q.le_max_r. Qed.

(** What every operation keeps of the configuration. *)
Definition same_config (p p' : ReconnectPolicy) : Prop :=
  initial_delay p' = initial_delay p /\ max_delay p' = max_delay p /\
  max_attempts p' = max_attempts p /\ jitter_factor p' = jitter_factor p.

#[export] Instance same_config_preorder : PreOrder same_config.
Proof. split; [done|]. unfold same_config. intros p q r H1 H2. intuition congruence. Qed.

Lemma next_action_config r now draw p p' a :
  next_action r now draw p = Some (p', a) -> same_config p p'.
Proof. unfold next_action, back_off. intros E. repeat (case_match; simplify_eq/=); done. Qed.

Lemma next_action_ok r now draw p p' a :
  policy_ok p -> next_action r now draw p = Some (p', a) -> policy_ok p'.
Proof.
  intros [Hd Hc Hu Hj] E. unfold next_action, back_off in E.
  repeat (case_match; simplify_eq/=); split; simpl; try done; try lia; eauto;
    intros; congruence.
Qed.

Lemma on_connected_ok p : policy_ok p -> policy_ok (on_connected p).
Proof. intros [Hd Hc Hu Hj]. split; simpl; lia || done. Qed.

Lemma on_message_received_ok p : policy_ok p -> policy_ok (on_message_received p).
Proof. intros [Hd Hc Hu Hj]. split; simpl; lia || done. Qed.

Lemma policy_run_ok evs p p' log :
  policy_ok p -> policy_run evs p = Some (p', log) -> policy_ok p' /\ same_config p p'.
Proof.
  revert p p' log. induction evs as [|[r now draw| |] evs IH]; intros p p' log Hp E; simpl in E.
  - by simplify_eq.
  - destruct (next_action r now draw p) as [[p1 a]|] eqn:E1; [|done]. simpl in E.
    destruct (policy_run evs p1) as [[p2 log2]|] eqn:E2; [|done]. simplify_eq/=.
    destruct (IH _ _ _ (next_action_ok _ _ _ _ _ _ Hp E1) E2) as [? Hc]. split; [done|].
    by rewrite (next_action_config _ _ _ _ _ _ E1).
  - destruct (IH _ _ _ (on_connected_ok _ Hp) E). done.
  - destruct (IH _ _ _ (on_message_received_ok _ Hp) E). done.
Qed.

(** ** The circuit breaker *)

Section Spacing.
Variable max : Duration.

(** Two grants of an open circuit are at least a full cooldown apart. *)
Definition spaced (t t' : Instant) : Prop := t + 8 * max <= t'.

(** The earliest time at which a tripped circuit may grant, from the time [t0] on. *)
Definition earliest (t0 : Instant) (p : ReconnectPolicy) : Instant :=
  match circuit_state p, cooldown_until p with
  | HalfOpen, _ => t0 + 8 * max
  | Open, Some until => until
  | _, _ => t0
  end.

(** One decision of a tripped circuit: it stays tripped; it grants only after its cooldown
    and then probes; the time before which it grants nothing never moves back. *)
Lemma tripped_step r now draw t0 p p' a :
  policy_ok p -> max_delay p = max -> circuit_state p <> Closed -> t0 <= now ->
  next_action r now draw p = Some (p', a) ->
  circuit_state p' <> Closed /\
  match a with
  | RetryAfter _ => earliest t0 p <= now /\ circuit_state p' = HalfOpen
  | RetryImmediately => False
  | _ => earliest t0 p <= earliest now p'
  end.
Proof.
  intros [Hd Hc Hu Hj] Hm Hcl Ht E. unfold next_action in E.
  destruct (negb (is_retryable r) && _).
  { simplify_eq. split; [done|]. unfold earliest. repeat case_match; lia. }
  destruct (circuit_state p) eqn:Ec; [done| |].
  - destruct (Hu eq_refl) as [until Hun]. rewrite Hun in E.
    destruct (N.ltb_spec now until); simplify_eq/=.
    + rewrite Ec. split; [done|]. unfold earliest. rewrite Ec, Hun. lia.
    + split; [done|]. unfold earliest. rewrite Ec, Hun. by split; [lia|].
  - simplify_eq/=. split; [done|]. unfold earliest; simpl. rewrite Ec. lia.
Qed.

Lemma tripped_grants evs t0 p p' log :
  policy_ok p -> max_delay p = max -> circuit_state p <> Closed ->
  forallb (fun e => negb (is_connected e)) evs = true ->
  StronglySorted N.le (t0 :: omap event_time evs) ->
  policy_run evs p = Some (p', log) ->
  StronglySorted spaced (grants log) /\ Forall (N.le (earliest t0 p)) (grants log) /\
  Forall (fun '(_, a) => a <> RetryImmediately) log.
Proof.
  revert t0 p p' log.
  induction evs as [|[r now draw| |] evs IH]; intros t0 p p' log Hp Hm Hcl Hn Hs E; simpl in *.
  - simplify_eq. split_and!; constructor.
  - destruct (next_action r now draw p) as [[p1 a]|] eqn:E1; [|done]. simpl in E.
    destruct (policy_run evs p1) as [[p2 log2]|] eqn:E2; [|done]. simpl in E.
    injection E as -> <-.
    apply StronglySorted_inv in Hs as [Hs Hall].
    assert (Ht : t0 <= now) by (by inversion Hall).
    destruct (tripped_step r now draw t0 p p1 a Hp Hm Hcl Ht E1) as [Hcl1 Ha].
    pose proof (next_action_config _ _ _ _ _ _ E1) as (_ & Hm1 & _). rewrite Hm in Hm1.
    destruct (IH now p1 p' log2 (next_action_ok _ _ _ _ _ _ Hp E1) Hm1 Hcl1 Hn Hs E2)
      as (IH1 & IH2 & IH3).
    destruct a; simpl; [|done| |].
    + destruct Ha as [Ha Hh]. unfold earliest in IH2. rewrite Hh in IH2.
      split_and!; constructor; try done.
      eapply Forall_impl; [exact IH2|]. intros x Hx. lia.
    + split_and!; [done| |by constructor].
      eapply Forall_impl; [exact IH2|]. intros x Hx. lia.
    + split_and!; [done| |by constructor].
      eapply Forall_impl; [exact IH2|]. intros x Hx. lia.
  - done.
  - apply (IH t0 (on_message_received p) p' log); try done. by apply on_message_received_ok.
Qed.
End Spacing.

(** The circuit breaker limits the rate of attempts.  Take a policy as built, and let
    it see any history that leaves its circuit tripped; from then on, however connections
    fail and whatever messages arrive, as long as no connection is established, any two
    attempts the policy grants after a wait are at least eight times the maximal delay
    apart, the first one not before the cooldown of an open circuit has expired, and no
    attempt is granted without a wait. *)
Theorem circuit_rate_limit b p0 before p log0 evs t0 p' log :
  (0 <= b_jitter_factor b)%Q -> ReconnectPolicy_build b = Some p0 ->
  policy_run before p0 = Some (p, log0) -> circuit_state p <> Closed ->
  forallb (fun e => negb (is_connected e)) evs = true ->
  StronglySorted N.le (t0 :: omap event_time evs) ->
  policy_run evs p = Some (p', log) ->
  StronglySorted (spaced (b_max_delay b)) (grants log) /\
  Forall (N.le (earliest (b_max_delay b) t0 p)) (grants log) /\
  Forall (fun '(_, a) => a <> RetryImmediately) log.
Proof.
  intros Hj Hb Hr Hcl Hn Hs E.
  pose proof (build_ok _ _ Hj Hb) as Hp0.
  destruct (policy_run_ok _ _ _ _ Hp0 Hr) as [Hp (_ & Hm & _)].
  assert (Hmax : max_delay p = b_max_delay b).
  { rewrite Hm. unfold ReconnectPolicy_build in Hb. by case_match; simplify_eq/=. }
  exact (tripped_grants _ evs t0 p p' log Hp Hmax Hcl Hn Hs E).
Qed.

(** A policy that trips at its first failure, probed at each end of its cooldown. *)
Definition tripping_builder : ReconnectPolicyBuilder :=
  set_max_attempts (Some 1) ReconnectPolicyBuilder_default.
Definition lost (now : Instant) : PolicyEvent := EvDisconnect (TransportError "reset") now 0.
Definition probes : list PolicyEvent :=
  [lost 5; lost 120000000000; EvMessage; lost 120000000001; lost 360000000001].

Definition run_before (evs : list PolicyEvent) (p : option ReconnectPolicy)
    : option (ReconnectPolicy * list (Instant * ReconnectAction)) := p0 ← p; policy_run evs p0.

Lemma circuit_rate_limit_witness :
  (grants ∘ snd <$> run_before (lost 0 :: probes) (ReconnectPolicy_build tripping_builder))
    = Some [120000000000; 360000000001] /\
  StronglySorted (spaced 30000000000) [120000000000; 360000000001].
Proof.
  split; [vm_compute; reflexivity|].
  set (p0 := {| initial_delay := 1000000000; max_delay := 30000000000; max_attempts := Some 1;
    jitter_factor := 1 # 2; current_delay := 1000000000; consecutive_failures := 0;
    circuit_state := Closed; cooldown_until := None; cooldown_duration := 120000000000;
    data_ever_received := false |}).
  set (p := with_circuit Open (Some 120000000000) 120000000000 (with_failures 1 p0)).
  refine (proj1 (circuit_rate_limit tripping_builder p0 [lost 0] p
    [(0, CircuitOpen 120000000000)] probes 0
    (with_circuit HalfOpen (Some 360000000001) 240000000000 (with_delay 1000000000 true p))
    [(5, CircuitOpen 120000000000); (120000000000, RetryAfter 1000000000);
     (120000000001, CircuitOpen 360000000001); (360000000001, RetryAfter 1000000000)]
    _ _ _ _ _ _ _)).
  - by vm_compute.
  - reflexivity.
  - vm_compute. reflexivity.
  - done.
  - reflexivity.
  - repeat constructor; vm_compute; discriminate.
  - vm_compute. reflexivity.
Defined.

(** C40: the policy stays well formed.  Whatever the configuration a builder accepts and
    whatever the history -- disconnections of any kind at any time with any draw,
    connections, messages -- the delay in use lies between the initial and the maximal one,
    the cooldown between four and eight times the maximal delay, an open circuit has the
    time of its next probe, and the configuration itself is never changed. *)
Theorem policy_wellformed f b p evs p' log :
  ReconnectPolicy_build (set_jitter_factor f b) = Some p -> policy_run evs p = Some (p', log) ->
  policy_ok p' /\ same_config p p'.
Proof.
  intros Hb. apply policy_run_ok. eapply build_ok; [|exact Hb]. apply set_jitter_factor_nonneg.
Qed.

Lemma policy_wellformed_witness : exists p p' log,
  ReconnectPolicy_build (set_jitter_factor 0 tripping_builder) = Some p /\
  policy_run (lost 0 :: EvConnected :: probes) p = Some (p', log) /\ policy_ok p'.
Proof.
  destruct (ReconnectPolicy_build (set_jitter_factor 0 tripping_builder)) as [p|] eqn:Eb; [|done].
  destruct (policy_run (lost 0 :: EvConnected :: probes) p) as [[p' log]|] eqn:E.
  - exists p, p', log. split; [reflexivity|]. split; [exact E|].
    exact (proj1 (policy_wellformed 0 tripping_builder p _ p' log Eb E)).
  - exfalso. revert E. injection Eb as <-. vm_compute. discriminate.
Defined.

(** ** Backoff *)

(** The base delay after [n] failures in a row. *)
Definition delay_after (n : nat) (p : ReconnectPolicy) : Duration :=
  N.min (initial_delay p * 2 ^ N.of_nat n) (max_delay p).

(** A failure that waits. *)
Definition timed (r : DisconnectReason) : Prop :=
  is_retryable r = true /\ ~ (suggested_delay_factor r == 0)%Q.

Definition whole_factor (r : DisconnectReason) : N :=
  match r with CleanClose => 0 | TransportError _ => 2 | _ => 1 end.

Lemma timed_factor r :
  timed r -> suggested_delay_factor r = inject_Z (Z.of_N (whole_factor r)) /\ 1 <= whole_factor r <= 2.
Proof. intros [H1 H2]. destruct r; simpl in *; try done; destruct H2; reflexivity. Qed.

(** The milliseconds a failure waits for, before jitter. *)
Definition whole_base (p : ReconnectPolicy) (r : DisconnectReason) : N :=
  as_millis_of (current_delay p) * whole_factor r.

Lemma base_ms_whole p r :
  timed r -> (base_ms p (suggested_delay_factor r) == inject_Z (Z.of_N (whole_base p r)))%Q.
Proof.
  intros [Hf _]%timed_factor. unfold base_ms, whole_base. rewrite Hf, <-inject_Z_mult.
  by rewrite N2Z.inj_mul.
Qed.

(** [Duration::from_millis(base + jitter)] for a draw in the range of the generator. *)
Lemma jittered_bounds base draw jf n :
  (base == inject_Z (Z.of_N n))%Q -> n <= u64_max -> (0 <= draw)%Q -> (draw <= base * jf)%Q ->
  exists ms, jittered base draw = from_millis_of ms /\ n <= ms /\
    (inject_Z (Z.of_N ms) <= inject_Z (Z.of_N n) * (1 + jf))%Q.
Proof.
  intros Hb Hn Hd Hm. eexists. split; [reflexivity|].
  assert (Hlo : (Z.of_N n <= Qfloor (base + draw))%Z).
  { rewrite <-(Qfloor_Z (Z.of_N n)). apply Qfloor_resp_le. rewrite Hb.
    rewrite <-(Qplus_0_r (inject_Z (Z.of_N n))) at 1. by apply Qplus_le_r. }
  split; [lia|]. eapply Qle_trans; [|eapply Qle_trans; [apply (Qfloor_le (base + draw))|]].
  - rewrite <-Zle_Qle. lia.
  - rewrite Hb in *. rewrite Qmult_plus_distr_r, Qmult_1_r. by apply Qplus_le_r.
Qed.

Lemma delay_after_0 p : initial_delay p <= max_delay p -> delay_after 0 p = initial_delay p.
Proof. unfold delay_after. simpl. lia. Qed.

Lemma delay_after_S n p : N.min (delay_after n p * 2) (max_delay p) = delay_after (S n) p.
Proof.
  unfold delay_after. rewrite Nat2N.inj_succ, N.pow_succ_r'. lia.
Qed.

Lemma delay_after_config n p p' : same_config p p' -> delay_after n p' = delay_after n p.
Proof. intros (H1 & H2 & _). unfold delay_after. by rewrite H1, H2. Qed.

(** A draw of the generator for the [k]-th delay. *)
Definition wait_base (k : nat) (p : ReconnectPolicy) (r : DisconnectReason) : N :=
  as_millis_of (delay_after k p) * whole_factor r.

Definition draw_ok (k : nat) (p : ReconnectPolicy) (r : DisconnectReason) (draw : Q) : Prop :=
  (0 <= draw)%Q /\ (draw <= inject_Z (Z.of_N (wait_base k p r)) * jitter_factor p)%Q.

Record backing_off (k : nat) (p : ReconnectPolicy) : Prop := {
  bo_ok : policy_ok p;
  bo_closed : circuit_state p = Closed;
  bo_delay : current_delay p = delay_after k p;
  bo_failures : consecutive_failures p = N.of_nat k;
  bo_millis : 1 <= as_millis_of (initial_delay p);
  bo_width : as_millis_of (max_delay p) * 2 <= u64_max
}.

Lemma timed_no_give_up r p :
  timed r -> negb (is_retryable r) && negb (post_data_protocol_close r p) = false /\
             Qeq_bool (suggested_delay_factor r) 0 = false.
Proof.
  intros [-> Hf]. split; [done|]. destruct (Qeq_bool _ _) eqn:E; [|done].
  by apply Qeq_bool_iff in E.
Qed.

Lemma backing_off_millis k p r :
  backing_off k p -> timed r -> 1 <= wait_base k p r <= u64_max.
Proof.
  intros [[Hd _ _ _] _ Hk _ Hm Hw] [_ Hf]%timed_factor. unfold wait_base. rewrite <-Hk.
  assert (as_millis_of (initial_delay p) <= as_millis_of (current_delay p))
    by (apply N.Div0.div_le_mono; lia).
  assert (as_millis_of (current_delay p) <= as_millis_of (max_delay p))
    by (apply N.Div0.div_le_mono; lia).
  nia.
Qed.

(** One failure below the limit. *)
Lemma backing_off_step k p r now draw :
  backing_off k p -> timed r -> draw_ok k p r draw -> N.of_nat (S k) < u32_modulus ->
  (forall m, max_attempts p = Some m -> N.of_nat (S k) < m) ->
  exists p' ms, next_action r now draw p = Some (p', RetryAfter (from_millis_of ms)) /\
    backing_off (S k) p' /\ wait_base k p r <= ms /\
    (inject_Z (Z.of_N ms) <= inject_Z (Z.of_N (wait_base k p r)) * (1 + jitter_factor p))%Q.
Proof.
  intros Hb Hr [Hd0 Hd1] Hk Hmax. pose proof (backing_off_millis k p r Hb Hr) as Hms.
  destruct (timed_no_give_up r p Hr) as [Eg Ef].
  assert (Hbase : (base_ms p (suggested_delay_factor r) == inject_Z (Z.of_N (wait_base k p r)))%Q).
  { rewrite base_ms_whole by done. unfold whole_base, wait_base. by rewrite (bo_delay _ _ Hb). }
  assert (Hs : u32_succ (consecutive_failures p) = N.of_nat (S k)).
  { unfold u32_succ. rewrite (bo_failures _ _ Hb), N.mod_small; lia. }
  assert (Hlim : match max_attempts p with Some m => m <=? N.of_nat (S k) | None => false end = false).
  { destruct (max_attempts p) as [m|]; [|done]. apply N.leb_gt. by apply Hmax. }
  set (p' := with_delay (N.min (current_delay p * 2) (max_delay p)) (data_ever_received p)
               (with_failures (N.of_nat (S k)) p)).
  assert (Hp' : backing_off (S k) p').
  { destruct Hb as [[? ? ? ?] ? Hcd ? ? ?]. split; try done; [split; simpl; try done; lia|].
    change (N.min (current_delay p * 2) (max_delay p) = delay_after (S k) p).
    by rewrite Hcd, delay_after_S. }
  assert (E : next_action r now draw p = Some (p', RetryAfter (jittered
    (base_ms p (suggested_delay_factor r)) (if Qle_bool (jitter_factor p) 0 then 0 else draw)))).
  { unfold next_action, back_off. rewrite Eg, (bo_closed _ _ Hb), Ef, Hs. simpl. rewrite Hlim.
    destruct (Qle_bool (jitter_factor p) 0) eqn:Ej; [done|].
    destruct (Qle_bool (_ * _) 0) eqn:Eb; [|done]. exfalso.
    apply Qle_bool_iff in Eb. unfold base_ms in Eb, Hbase. simpl in Eb. rewrite Hbase in Eb.
    assert (Hj : ~ (jitter_factor p <= 0)%Q) by (by rewrite <-Qle_bool_iff, Ej).
    apply Hj. apply Qnot_lt_le. intros Hj'. apply (Qle_not_lt _ _ Eb).
    apply Qmult_lt_0_compat; [|done]. change 0%Q with (inject_Z 0). rewrite <-Zlt_Qlt. lia. }
  destruct (jittered_bounds (base_ms p (suggested_delay_factor r))
              (if Qle_bool (jitter_factor p) 0 then 0 else draw) (jitter_factor p)
              (wait_base k p r) Hbase) as (ms & Ems & Hlo & Hhi);
    [lia|by case_match|rewrite Hbase; case_match; [by eapply Qle_trans|done]|].
  exists p', ms. rewrite E, Ems. done.
Qed.

Lemma wait_base_config k p p' r : same_config p p' -> wait_base k p' r = wait_base k p r.
Proof. intros H. unfold wait_base. by rewrite (delay_after_config k _ _ H). Qed.

Lemma draw_ok_config k p p' r draw : same_config p p' -> draw_ok k p r draw -> draw_ok k p' r draw.
Proof.
  intros H. unfold draw_ok. rewrite (wait_base_config k _ _ r H). by destruct H as (_ & _ & _ & ->).
Qed.

(** A failure of a sequence: its reason, its time and its draw. *)
Definition failure : Type := DisconnectReason * Instant * Q.
Definition failed (f : failure) : PolicyEvent := let '(r, now, draw) := f in EvDisconnect r now draw.

(** The [j]-th failure of the sequence is decided as a wait within the bounds of the
    [k + j]-th delay. *)
Definition waits_as (k : nat) (p : ReconnectPolicy) (fs : list failure)
    (log : list (Instant * ReconnectAction)) : Prop :=
  forall j r now draw, fs !! j = Some (r, now, draw) ->
  exists ms, log !! j = Some (now, RetryAfter (from_millis_of ms)) /\
    wait_base (k + j) p r <= ms /\
    (inject_Z (Z.of_N ms) <= inject_Z (Z.of_N (wait_base (k + j) p r)) * (1 + jitter_factor p))%Q.

Lemma backing_off_run fs k p :
  backing_off k p ->
  (forall j r now draw, fs !! j = Some (r, now, draw) -> timed r /\ draw_ok (k + j) p r draw) ->
  N.of_nat (k + length fs) < u32_modulus ->
  (forall m, max_attempts p = Some m -> N.of_nat (k + length fs) < m) ->
  exists p' log, policy_run (map failed fs) p = Some (p', log) /\
    backing_off (k + length fs) p' /\ same_config p p' /\
    length log = length fs /\ waits_as k p fs log.
Proof.
  revert k p. induction fs as [|[[r now] draw] fs IH]; intros k p Hb Hfs Hw Hmax; simpl.
  { exists p, []. rewrite Nat.add_0_r. split_and!; done. }
  destruct (Hfs 0%nat r now draw eq_refl) as [Hr Hd]. rewrite Nat.add_0_r in Hd. simpl in Hw, Hmax.
  destruct (backing_off_step k p r now draw Hb Hr Hd) as (p1 & ms & E1 & Hb1 & Hlo & Hhi); [lia| |].
  { intros m Hm. specialize (Hmax m Hm). lia. }
  pose proof (next_action_config _ _ _ _ _ _ E1) as Hc.
  destruct (IH (S k) p1 Hb1) as (p' & log & E2 & Hb2 & Hc2 & Hl & Hwait).
  { intros j r' now' draw' Hj. destruct (Hfs (S j) r' now' draw' Hj) as [? Hd'].
    split; [done|]. rewrite <-Nat.add_succ_comm in Hd'. by eapply draw_ok_config. }
  { lia. }
  { intros m Hm. destruct Hc as (_ & _ & Hm1 & _). rewrite Hm1 in Hm. specialize (Hmax m Hm). lia. }
  exists p', ((now, RetryAfter (from_millis_of ms)) :: log).
  rewrite E1. simpl. rewrite E2. simpl.
  split_and!; [done|by rewrite <-Nat.add_succ_comm|by etrans|by rewrite Hl|].
  intros [|j] r' now' draw' Hj; simpl in *.
  - simplify_eq. exists ms. by rewrite Nat.add_0_r.
  - destruct (Hwait j r' now' draw' Hj) as (ms' & E' & Hlo' & Hhi'). exists ms'.
    rewrite (wait_base_config _ _ _ r' Hc), Nat.add_succ_comm in Hlo', Hhi'.
    destruct Hc as (_ & _ & _ & Hj'). by rewrite Hj' in Hhi'.
Qed.

Lemma backing_off_trips k p r now draw :
  backing_off k p -> timed r -> N.of_nat (S k) < u32_modulus ->
  max_attempts p = Some (N.of_nat (S k)) ->
  exists p', next_action r now draw p = Some (p', CircuitOpen (now + max_delay p * 4)) /\
    circuit_state p' = Open.
Proof.
  intros Hb Hr Hk Hm. destruct (timed_no_give_up r p Hr) as [Eg Ef].
  unfold next_action, back_off. rewrite Eg, (bo_closed _ _ Hb), Ef. simpl. rewrite Hm.
  unfold u32_succ. rewrite (bo_failures _ _ Hb), N.mod_small by lia.
  replace (N.of_nat (S k) <=? N.of_nat k + 1) with true by (symmetry; apply N.leb_le; lia).
  eexists. split; reflexivity.
Qed.

(** The backoff of consecutive failures.  A policy as built, with an initial delay of
    a millisecond at least, never panics; its [j]-th failure in a row (from zero) of a kind
    that waits answers a wait of at least [min(initial * 2^j, max)] times the factor of the
    reason, in milliseconds, and at most that times one plus the jitter factor, whatever the
    draws; and when the failures reach the limit of attempts the circuit opens for four
    times the maximal delay. *)
Theorem backoff_schedule b p fs :
  ReconnectPolicy_build b = Some p -> (0 <= b_jitter_factor b)%Q ->
  1 <= as_millis_of (b_initial_delay b) -> as_millis_of (b_max_delay b) * 2 <= u64_max ->
  N.of_nat (length fs) + 1 < u32_modulus ->
  (forall j r now draw, fs !! j = Some (r, now, draw) -> timed r /\ draw_ok j p r draw) ->
  (forall m, b_max_attempts b = Some m -> N.of_nat (length fs) < m) ->
  exists p' log, policy_run (map failed fs) p = Some (p', log) /\ length log = length fs /\
    waits_as 0 p fs log /\
    (forall r now draw, timed r -> b_max_attempts b = Some (N.of_nat (length fs) + 1) ->
       exists p'', next_action r now draw p' = Some (p'', CircuitOpen (now + 4 * b_max_delay b)) /\
         circuit_state p'' = Open).
Proof.
  intros Hb Hj Hi Hw Hl Hfs Hmax.
  pose proof (build_ok _ _ Hj Hb) as Hok.
  unfold ReconnectPolicy_build in Hb. destruct (N.leb_spec (b_initial_delay b) (b_max_delay b)); [|done].
  injection Hb as <-.
  destruct (backing_off_run fs 0 _ ltac:(split; [exact Hok|done|by rewrite delay_after_0|done|done|done])
              Hfs) as (p' & log & E & Hb' & Hc & Hlen & Hwait); [lia|done|].
  exists p', log. split_and!; [done..|].
  intros r now draw Hr Hm. destruct Hc as (_ & Hmd & Hma & _). simpl in Hmd, Hma.
  destruct (backing_off_trips _ p' r now draw Hb' Hr) as (p'' & E'' & Ho); [lia|rewrite Hma, Hm; f_equal; lia|].
  exists p''. rewrite E'', Hmd. split; [|done]. do 3 f_equal. lia.
Qed.

Lemma backoff_schedule_witness : exists p p' log,
  ReconnectPolicy_build (set_max_attempts (Some 3) ReconnectPolicyBuilder_default) = Some p /\
  policy_run (map failed [(TransportError "x", 0, 0%Q); (GoingAway "y", 9, 300%Q)]) p = Some (p', log) /\
  waits_as 0 p [(TransportError "x", 0, 0%Q); (GoingAway "y", 9, 300%Q)] log.
Proof.
  set (p0 := {| initial_delay := 1000000000; max_delay := 30000000000; max_attempts := Some 3;
    jitter_factor := 1 # 2; current_delay := 1000000000; consecutive_failures := 0;
    circuit_state := Closed; cooldown_until := None; cooldown_duration := 120000000000;
    data_ever_received := false |}).
  destruct (backoff_schedule (set_max_attempts (Some 3) ReconnectPolicyBuilder_default)
    p0 [(TransportError "x", 0, 0%Q); (GoingAway "y", 9, 300%Q)]) as (p' & log & E & _ & Hw & _);
    [reflexivity|by vm_compute|by vm_compute|by vm_compute|by vm_compute| | |].
  - intros [|[|[|j]]] r now draw Hj; simplify_eq/=;
      (split; [split; [done|by vm_compute]|split; vm_compute; discriminate]).
  - intros m [= <-]. by vm_compute.
  - exists p0, p', log. split_and!; [reflexivity|exact E|exact Hw].
Defined.

(** ** Giving up *)

Section GiveUp.
Context {TU : Tungstenite}.

(** A protocol close by the peer counts as retryable once data was received; a rejection by
    the venue's own protocol and a local shutdown do not. *)
Lemma post_data_iff r p :
  is_retryable (DisconnectReason_from r) = false ->
  post_data_protocol_close (DisconnectReason_from r) p = true <->
  data_ever_received p = true /\ r <> ExitReceiverDropped /\ (forall msg, r <> SubscriptionRejected msg).
Proof.
  intros Hret. unfold post_data_protocol_close. rewrite andb_true_iff.
  destruct (DisconnectReason_from r) as [| |code reason| | | |] eqn:Er; try done.
  - pose proof (application_rejection_code _ _ _ Er) as Hc.
    rewrite negb_true_iff, N.eqb_neq. split; intros [-> Hx]; split; try done.
    + split; [by intros ->|]. intros msg ->. apply Hx. simpl in Er. by injection Er.
    + intros ->. destruct Hx as [_ Hx]. by apply (Hx reason), Hc.
  - split; [by intros []|]. intros (_ & Hx & _). exfalso. apply Hx.
    by apply receiver_dropped_exit.
Qed.

Lemma give_up_cond r now draw p p' a :
  next_action r now draw p = Some (p', a) ->
  match a with
  | GiveUp reason => negb (is_retryable r) && negb (post_data_protocol_close r p) = true /\
                     p' = p /\ reason = DisconnectReason_fmt r
  | _ => negb (is_retryable r) && negb (post_data_protocol_close r p) = false
  end.
Proof. unfold next_action, back_off. intros E. repeat (case_match; simplify_eq/=); done. Qed.

(** When a source stops trying.  After a connection ended by the exit [r] of the socket
    loop, the policy gives up exactly when the exit is terminal -- the application shut down,
    the venue refused the subscription, or the peer closed or failed with a protocol
    rejection that is not a disguised reset -- and, for the rejections by the peer, only if no
    message was ever received; in every other case, whatever the state of the circuit, an
    attempt follows, now or at a time the policy names, and giving up changes nothing. *)
Theorem gives_up_iff r now draw p p' a :
  next_action (DisconnectReason_from r) now draw p = Some (p', a) ->
  match a with
  | GiveUp reason =>
    p' = p /\ reason = DisconnectReason_fmt (DisconnectReason_from r) /\ terminal_exit r = true /\
    (data_ever_received p = true -> r = ExitReceiverDropped \/ exists msg, r = SubscriptionRejected msg)
  | _ => terminal_exit r = true -> data_ever_received p = true /\ r <> ExitReceiverDropped /\
           forall msg, r <> SubscriptionRejected msg
  end.
Proof.
  intros E%give_up_cond. pose proof (exit_retryable r) as Hr.
  pose proof (post_data_iff r p) as Hpost.
  destruct (is_retryable (DisconnectReason_from r)), (terminal_exit r); try done;
    destruct (post_data_protocol_close (DisconnectReason_from r) p); simpl in *;
    destruct a; try (by destruct E); try (intros; by apply Hpost); try done.
  destruct E as (_ & -> & ->). split_and!; try done. intros Hdata.
  destruct (exit_cases r) as [?|[?|Hx]]; [by left|by right|].
  discriminate (proj2 (Hpost eq_refl) (conj Hdata Hx)).
Qed.

End GiveUp.

(** A peer that vanished, by the text of its error, and one whose frame was refused. *)
Definition plain_ws : Tungstenite := {|
  ws_error := string; ws_error_fmt := id; ws_protocol := Some
|}.

Lemma gives_up_iff_witness :
  let p := on_message_received
    {| initial_delay := 1; max_delay := 2; max_attempts := None; jitter_factor := 0;
       current_delay := 1; consecutive_failures := 0; circuit_state := Closed;
       cooldown_until := None; cooldown_duration := 8; data_ever_received := false |} in
  next_action (DisconnectReason_from (TU := plain_ws) (SubscriptionRejected "no")) 0 0 p
    = Some (p, GiveUp "protocol rejection (0): no") /\
  terminal_exit (TU := plain_ws) (SubscriptionRejected "no") = true.
Proof.
  intros p. split; [vm_compute; reflexivity|].
  refine (proj1 (proj2 (proj2 (gives_up_iff (TU := plain_ws) (SubscriptionRejected "no") 0 0 p p
    (GiveUp "protocol rejection (0): no") _)))).
  vm_compute. reflexivity.
Defined.
