(* ===== verification/Transport.v ===== *)
(** * WebSocket transport

    [src/aetelier-connect/src/framework/protocol.rs] and [framework/transport.rs]: the
    frame codec and the pump of one connection, from the subscription to the exit reason.

    The loop is a step function on the state of the connection; an input is what the
    [select!] of the loop picks: a frame read off the socket, a deadline, the end of the
    stream, the shutdown signal or the death of the heartbeat task.  The socket is the
    environment: it chooses the frames, their times and which writes succeed.  A decoded
    event is offered to the ingest channel and waits there while the channel is full, so
    the offer is a state of its own ([pending]).  The venue's [ProtocolHooks], its
    [WssDecoder] and the gzip decompressor are parameters. *)
From Stdlib Require Import Ascii String Strings.Byte Sorted.
From S2P Require Import Prelude Budget Bytes Strings Numeric Pairs Types Model Runtime Disconnect Reconnect.
Local Open Scope N_scope.

(** ** Bytes *)

Definition decode_ping_send_us (payload : list byte) : option N :=
  if (length payload =? 8)%nat then Some (le_combine payload) else None.

(** A continuation byte. *)
Definition is_cont (b : byte) : bool := let n := Byte.to_N b in (128 <=? n) && (n <=? 191).

(** The well-formed UTF-8 sequences of Unicode 3.9, table 3-7. *)
Fixpoint utf8_valid (fuel : nat) (bs : list byte) : bool :=
  match fuel with
  | O => false
  | S fuel =>
    match bs with
    | [] => true
    | b :: bs =>
      let n := Byte.to_N b in
      if n <? 128 then utf8_valid fuel bs
      else if (194 <=? n) && (n <=? 223) then
        match bs with c :: bs => is_cont c && utf8_valid fuel bs | _ => false end
      else if (224 <=? n) && (n <=? 239) then
        match bs with
        | c :: d :: bs =>
          let m := Byte.to_N c in
          (if n =? 224 then 160 <=? m else true) && (if n =? 237 then m <=? 159 else true) &&
          is_cont c && is_cont d && utf8_valid fuel bs
        | _ => false
        end
      else if (240 <=? n) && (n <=? 244) then
        match bs with
        | c :: d :: e :: bs =>
          let m := Byte.to_N c in
          (if n =? 240 then 144 <=? m else true) && (if n =? 244 then m <=? 143 else true) &&
          is_cont c && is_cont d && is_cont e && utf8_valid fuel bs
        | _ => false
        end
      else false
    end
  end.

Definition from_utf8 (bs : list byte) : option string :=
  if utf8_valid (S (length bs)) bs then Some (string_of_bytes bs) else None.

(** ** Protocol *)

(** The frames of [tungstenite] the code distinguishes. *)
Inductive Message :=
| MsgText (t : string)
| MsgBinary (b : list byte)
| MsgPing (p : list byte)
| MsgPong (p : list byte)
| MsgClose (f : option CloseFrame)
| MsgFrame.

Inductive Heartbeat :=
| NoHeartbeat
| WsPong (every : Duration)
| HbText (every : Duration) (payload : string)
| Resubscribe (every : Duration) (frame : Message).

(** What the heartbeat task writes at each tick. *)
Definition heartbeat_frame (h : Heartbeat) : option (Duration * Message) :=
  match h with
  | NoHeartbeat => None
  | WsPong every => Some (every, MsgPong [])
  | HbText every payload => Some (every, MsgText payload)
  | Resubscribe every frame => Some (every, frame)
  end.

Inductive ControlAction := ControlIgnore | Reply (m : Message).

Inductive AckOutcome :=
| Accepted
| AckRejected (code : option Z) (reason : string)
| NotAck.

Inductive FrameCodec := PlainText | Gzip.

Inductive FramePayload := PayloadText (t : string) | PayloadBinary (b : list byte).

Definition MAX_INFLATED_FRAME_BYTES : N := 67108864.

(** [flate2::read::GzDecoder] read to its end or to a number of bytes. *)
Class Flate2 := { gz_take : N -> list byte -> Result (list byte) string }.

Definition invalid_utf8 : ExchangeError := IoError "invalid utf-8 sequence".

Definition gunzip `{Flate2} (bs : list byte) : Result string ExchangeError :=
  match gz_take (MAX_INFLATED_FRAME_BYTES + 1) bs with
  | Err e => Err (IoError e)
  | Ok out =>
    if MAX_INFLATED_FRAME_BYTES <? N.of_nat (length out)
    then Err (IoError ("gzip frame inflates past " ++ pretty MAX_INFLATED_FRAME_BYTES ++ " bytes"))
    else ok_or invalid_utf8 (from_utf8 out)
  end.

Definition inflate `{Flate2} (c : FrameCodec) (p : FramePayload) : Result string ExchangeError :=
  match c, p with
  | PlainText, PayloadText t => Ok t
  | PlainText, PayloadBinary b => ok_or invalid_utf8 (from_utf8 b)
  | Gzip, PayloadBinary b => gunzip b
  | Gzip, PayloadText t => Ok t
  end.

Record Prepared := {
  endpoint_override : option string;
  heartbeat_override : option Heartbeat;
  extra_frames : list Message;
  extra_frames_delay : option Duration
}.

Definition Prepared_default : Prepared :=
  {| endpoint_override := None; heartbeat_override := None; extra_frames := [];
     extra_frames_delay := None |}.

Definition DEFAULT_STALE_AFTER : Duration := 60000000000.

Class ProtocolHooks := {
  endpoint : string;
  subscribe_frames : list string -> DeclaredSet -> list Message;
  unsubscribe_frames : list string -> DeclaredSet -> list Message;
  heartbeat : Heartbeat;
  classify_ack : string -> AckOutcome;
  on_inbound_control : string -> ControlAction;
  subscribe_ack_deadline : option Duration;
  connection_lifetime : option Duration;
  stale_after : Duration;
  frame_codec : FrameCodec;
  prepare : Result Prepared ExchangeError
}.

Class WssDecoder := {
  wss_event : Type;
  wss_decode : string -> Result (option wss_event) ExchangeError
}.

(** ** Constants and pure helpers *)

Definition RTT_PING_SECS : N := 10.
Definition CONNECT_TIMEOUT : Duration := 15000000000.
Definition CLOSE_GRACE : Duration := 500000000.
Definition ROTATION_HEADROOM_MULTIPLE : N := 2.

Definition rotation_headroom : Duration :=
  (CONNECT_TIMEOUT + CLOSE_GRACE) * ROTATION_HEADROOM_MULTIPLE.

Definition rotation_deadline (start : Instant) (lifetime : option Duration) : option Instant :=
  (fun l => start + (l - rotation_headroom)) <$> lifetime.

(** [(sample_us + 4 * prev_us) / 5] on 64 bits. *)
Definition rtt_ewma_us (prev_us sample_us : N) : N :=
  if prev_us =? 0 then sample_us else u64_add sample_us (u64_mul 4 prev_us) / 5.

(** ** One connection *)

Section Transport.
Context {NU : Numeric} {TU : Tungstenite} {FL : Flate2} {PH : ProtocolHooks} {WD : WssDecoder}.

Definition ack_rejection_exit (was_streamed : bool) (reason : string) : WssExitReason :=
  if was_streamed then ConnectionFailed ("stream error after data: " ++ reason)%string
  else SubscriptionRejected reason.

(** What the connection fixes at its start. *)
Record ConnSetup := {
  symbols : list string;
  declared : DeclaredSet;
  expected_acks : N;
  ack_deadline : option Instant;
  rotate_at : option Instant;
  held_extras : option (list Message * Duration);
  hb : Heartbeat
}.

Record Conn := {
  streamed : bool;
  acked : N;
  health : HealthMonitor;
  rtt_us : N;
  conn_metrics : SourceMetrics;
  (** an event waiting for room in the ingest channel *)
  pending : option (wss_event * N);
  (** the events the channel has taken, and the frames handed to the writer *)
  ingested : list (wss_event * N);
  written : list Message
}.

Definition with_conn_metrics (f : SourceMetrics -> SourceMetrics) (c : Conn) : Conn := {|
  streamed := streamed c; acked := acked c; health := health c; rtt_us := rtt_us c;
  conn_metrics := f (conn_metrics c); pending := pending c; ingested := ingested c;
  written := written c
|}.
Definition with_health (h : HealthMonitor) (c : Conn) : Conn := {|
  streamed := streamed c; acked := acked c; health := h; rtt_us := rtt_us c;
  conn_metrics := conn_metrics c; pending := pending c; ingested := ingested c;
  written := written c
|}.
Definition with_acked (n : N) (c : Conn) : Conn := {|
  streamed := streamed c; acked := n; health := health c; rtt_us := rtt_us c;
  conn_metrics := conn_metrics c; pending := pending c; ingested := ingested c;
  written := written c
|}.
Definition with_rtt (n : N) (c : Conn) : Conn := {|
  streamed := streamed c; acked := acked c; health := health c; rtt_us := n;
  conn_metrics := conn_metrics c; pending := pending c; ingested := ingested c;
  written := written c
|}.
Definition with_offer (p : option (wss_event * N)) (c : Conn) : Conn := {|
  streamed := true; acked := acked c; health := health c; rtt_us := rtt_us c;
  conn_metrics := conn_metrics c; pending := p; ingested := ingested c; written := written c
|}.
Definition write (ms : list Message) (c : Conn) : Conn := {|
  streamed := streamed c; acked := acked c; health := health c; rtt_us := rtt_us c;
  conn_metrics := conn_metrics c; pending := pending c; ingested := ingested c;
  written := written c ++ ms
|}.
Definition take_offer (c : Conn) : Conn := {|
  streamed := streamed c; acked := acked c; health := health c; rtt_us := rtt_us c;
  conn_metrics := conn_metrics c; pending := None;
  ingested := ingested c ++ option_list (pending c); written := written c
|}.

(** ** Opening *)

Inductive Handshake := HsOpen | HsFailed (e : ws_error) | HsTimedOut.

(** The text of an [ExchangeError], and [Url::parse] with the text of its error. *)
Class UrlCrate := { error_text : ExchangeError -> string; url_parse : string -> Result unit string }.

(** The subscription frames, then the extra ones unless they are held for a delay. *)
Definition bootstrap_frames (syms : list string) (d : DeclaredSet) (p : Prepared) : list Message :=
  subscribe_frames syms d ++
  match extra_frames_delay p, extra_frames p with
  | Some _, _ :: _ => []
  | _, extras => extras
  end.

Definition held (p : Prepared) : option (list Message * Duration) :=
  match extra_frames_delay p, extra_frames p with
  | Some delay, (_ :: _) as extras => Some (extras, delay)
  | _, _ => None
  end.

Definition start_conn (syms : list string) (d : DeclaredSet) (stale : Duration)
    (m : SourceMetrics) (p : Prepared) (t_ack t_health t_rot : Instant) : ConnSetup * Conn :=
  ({| symbols := syms; declared := d;
      expected_acks := N.of_nat (length (subscribe_frames syms d));
      ack_deadline := (fun dl => t_ack + dl) <$> subscribe_ack_deadline;
      rotate_at := rotation_deadline t_rot connection_lifetime;
      held_extras := held p;
      hb := default heartbeat (heartbeat_override p) |},
   {| streamed := false; acked := 0; health := HealthMonitor_new stale t_health; rtt_us := 0;
      conn_metrics := m; pending := None; ingested := []; written := bootstrap_frames syms d p |}).

(** From the bootstrap to the read loop.  [epoch_now] is read when the socket is open, the
    other clocks in turn; [failed] is the first write that fails, if any. *)
Definition open_connection `{UrlCrate} (syms : list string) (d : DeclaredSet)
    (connect_timeout stale : Duration) (m : SourceMetrics) (hs : Handshake) (epoch_now : N)
    (failed : option (nat * ws_error)) (t_ack t_health t_rot : Instant)
    : Result (ConnSetup * Conn) WssExitReason :=
  match prepare with
  | Err e => Err (ConnectionFailed ("prepare: " ++ error_text e)%string)
  | Ok p =>
    match url_parse (default endpoint (endpoint_override p)) with
    | Err e => Err (ConnectionFailed ("url parse: " ++ e)%string)
    | Ok _ =>
      match hs with
      | HsFailed e => Err (Transport e)
      | HsTimedOut =>
        Err (ConnectionFailed ("connect timed out after " ++ Duration_debug connect_timeout)%string)
      | HsOpen =>
        let m := fst (next_conn_epoch_us epoch_now m) in
        match failed with
        | Some (k, e) =>
          if (k <? length (bootstrap_frames syms d p))%nat then Err (Transport e)
          else Ok (start_conn syms d stale m p t_ack t_health t_rot)
        | None => Ok (start_conn syms d stale m p t_ack t_health t_rot)
        end
      end
    end
  end.

(** ** The read loop *)

Inductive SocketInput :=
| InFrame (r : Result Message ws_error) (receipt_us : N) (now : Instant) (full : bool)
    (reply : option ws_error)
| InRoom
| InReceiverGone
| InEnd
| InStale (now : Instant)
| InRotate (now : Instant)
| InShutdown (writes : nat)
| InAckDeadline (now : Instant)
| InHeartbeat (dead : bool).

Definition passed (at_ : option Instant) (now : Instant) : bool :=
  match at_ with Some t => t <=? now | None => false end.

(** The arms of the [select!]; none is taken while an event waits for room. *)
Definition input_enabled (u : ConnSetup) (i : SocketInput) (c : Conn) : bool :=
  match i with
  | InRoom | InReceiverGone => bool_decide (is_Some (pending c))
  | _ =>
    bool_decide (pending c = None) &&
    match i with
    | InStale now => deadline (health c) <=? now
    | InRotate now => passed (rotate_at u) now
    | InAckDeadline now => passed (ack_deadline u) now && (acked c <? expected_acks u)
    | _ => true
    end
  end.

(** The round trip recovered from the echo of a ping. *)
Definition on_pong (receipt_us : N) (p : list byte) (c : Conn) : Conn :=
  match decode_ping_send_us p with
  | Some send_us =>
    let rtt := u64_saturating_sub receipt_us send_us in
    if 0 <? rtt then with_rtt (rtt_ewma_us (rtt_us c) (N.max rtt 1)) c else c
  | None => c
  end.

Definition offer (ev : wss_event) (receipt_us : N) (full : bool) (c : Conn) : Conn :=
  let c := with_conn_metrics bump_msgs c in
  let c := if full then with_conn_metrics bump_ingest_backpressure c else c in
  with_offer (Some (ev, receipt_us)) c.

(** An inflated frame: acknowledgement, control, or data. *)
Definition on_text (text : string) (receipt_us : N) (full : bool) (reply : option ws_error)
    (c : Conn) : Conn * option WssExitReason :=
  match classify_ack text with
  | AckRejected _ reason => (c, Some (ack_rejection_exit (streamed c) reason))
  | Accepted => (with_acked (acked c + 1) c, None)
  | NotAck =>
    match on_inbound_control text with
    | Reply frame =>
      match reply with
      | Some e => (write [frame] c, Some (HeartbeatWriteFailed e))
      | None => (write [frame] c, None)
      end
    | ControlIgnore =>
      match wss_decode text with
      | Ok (Some ev) => (offer ev receipt_us full c, None)
      | Ok None => (c, None)
      | Err _ => (with_conn_metrics bump_decode_err c, None)
      end
    end
  end.

Definition on_payload (p : FramePayload) (receipt_us : N) (full : bool) (reply : option ws_error)
    (c : Conn) : Conn * option WssExitReason :=
  match inflate frame_codec p with
  | Err _ => (with_conn_metrics (add_dropped_frames 1) c, None)
  | Ok text => on_text text receipt_us full reply c
  end.

Definition on_message (m : Message) (receipt_us : N) (full : bool) (reply : option ws_error)
    (c : Conn) : Conn * option WssExitReason :=
  match m with
  | MsgText t => on_payload (PayloadText t) receipt_us full reply c
  | MsgBinary b => on_payload (PayloadBinary b) receipt_us full reply c
  | MsgPing p => (write [MsgPong p] c, None)
  | MsgClose f => (c, Some (ServerClose f))
  | MsgPong p => (on_pong receipt_us p c, None)
  | MsgFrame => (c, None)
  end.

(** [writes] farewell frames are written before one fails. *)
Definition farewell (u : ConnSetup) (writes : nat) (c : Conn) : Conn :=
  match unsubscribe_frames (symbols u) (declared u) with
  | [] => c
  | frames => write (take (S writes) frames ++ [MsgClose None]) c
  end.

(** One turn of the loop: the next state, and the exit when the loop is left. *)
Definition conn_step (u : ConnSetup) (i : SocketInput) (c : Conn) : Conn * option WssExitReason :=
  match i with
  | InFrame r receipt_us now full reply =>
    let c := with_health (record_activity now (health c)) c in
    match r with
    | Err e => (c, Some (Transport e))
    | Ok m => on_message m receipt_us full reply c
    end
  | InRoom => (take_offer c, None)
  | InReceiverGone => (c, Some ExitReceiverDropped)
  | InEnd => (c, Some StreamEnded)
  | InStale _ => (c, Some (Stale (hm_timeout (health c))))
  | InRotate _ =>
    (write [MsgClose None] c, Some (PlannedRotation (default 0 connection_lifetime)))
  | InShutdown writes => (farewell u writes c, Some StreamEnded)
  | InAckDeadline _ =>
    (with_conn_metrics bump_ack_timeouts c,
     Some (ack_rejection_exit (streamed c)
       ("only " ++ pretty (acked c) ++ " of " ++ pretty (expected_acks u) ++
        " subscriptions acked before deadline")%string))
  | InHeartbeat dead =>
    if dead then (c, Some (ConnectionFailed "heartbeat write failed — socket write half dead"))
    else (c, None)
  end.

(** A history of the connection, up to its exit; [None] when an input is not enabled. *)
Fixpoint conn_run (u : ConnSetup) (ins : list SocketInput) (c : Conn)
    : option (Conn * option WssExitReason) :=
  match ins with
  | [] => Some (c, None)
  | i :: ins =>
    if input_enabled u i c then
      match conn_step u i c with
      | (c', Some r) => match ins with [] => Some (c', Some r) | _ => None end
      | (c', None) => conn_run u ins c'
      end
    else None
  end.

(** ** What becomes of a frame *)

Inductive Fate :=
| Dropped
| AckedFrame
| Refused (reason : string)
| Answered (m : Message)
| Decoded (ev : wss_event)
| Skipped
| Undecodable.

(** The fate of a text or binary frame, by itself. *)
Definition payload_fate (p : FramePayload) : Fate :=
  match inflate frame_codec p with
  | Err _ => Dropped
  | Ok text =>
    match classify_ack text with
    | AckRejected _ reason => Refused reason
    | Accepted => AckedFrame
    | NotAck =>
      match on_inbound_control text with
      | Reply m => Answered m
      | ControlIgnore =>
        match wss_decode text with
        | Ok (Some ev) => Decoded ev
        | Ok None => Skipped
        | Err _ => Undecodable
        end
      end
    end
  end.

Definition input_fate (i : SocketInput) : option Fate :=
  match i with
  | InFrame (Ok (MsgText t)) _ _ _ _ => Some (payload_fate (PayloadText t))
  | InFrame (Ok (MsgBinary b)) _ _ _ _ => Some (payload_fate (PayloadBinary b))
  | _ => None
  end.

(** The event of an input, with the time of its receipt. *)
Definition input_event (i : SocketInput) : option (wss_event * N) :=
  match i, input_fate i with
  | InFrame _ receipt_us _ _ _, Some (Decoded ev) => Some (ev, receipt_us)
  | _, _ => None
  end.

Definition is_fate (P : Fate -> bool) (i : SocketInput) : bool :=
  match input_fate i with Some f => P f | None => false end.

Definition is_dropped (f : Fate) : bool := match f with Dropped => true | _ => false end.
Definition is_acked (f : Fate) : bool := match f with AckedFrame => true | _ => false end.
Definition is_decoded (f : Fate) : bool := match f with Decoded _ => true | _ => false end.
Definition is_undecodable (f : Fate) : bool := match f with Undecodable => true | _ => false end.

Definition count_fate (P : Fate -> bool) (ins : list SocketInput) : N :=
  N.of_nat (length (List.filter (is_fate P) ins)).

(** The events the loop has decoded: taken by the channel, or waiting for room. *)
Definition decoded (c : Conn) : list (wss_event * N) := ingested c ++ option_list (pending c).

(** The state of the loop is a function of the frames it has read. *)
Record accounts (m0 : SourceMetrics) (ins : list SocketInput) (c : Conn) : Prop := {
  acc_events : decoded c = omap input_event ins;
  acc_streamed : streamed c = negb (bool_decide (omap input_event ins = []));
  acc_acked : acked c = count_fate is_acked ins;
  acc_msgs : conn_metrics c C_msgs = u64_add (m0 C_msgs) (count_fate is_decoded ins);
  acc_dropped : conn_metrics c C_dropped_frames = u64_add (m0 C_dropped_frames) (count_fate is_dropped ins);
  acc_decode : conn_metrics c C_decode_err = u64_add (m0 C_decode_err) (count_fate is_undecodable ins)
}.

Lemma count_fate_snoc P ins i :
  count_fate P (ins ++ [i]) = count_fate P ins + (if is_fate P i then 1 else 0).
Proof. unfold count_fate. rewrite List.filter_app, length_app. simpl. destruct (is_fate P i); simpl; lia. Qed.

Lemma omap_snoc {A B} (f : A -> option B) l x : omap f (l ++ [x]) = omap f l ++ option_list (f x).
Proof. rewrite omap_app. simpl. by destruct (f x). Qed.

(** One input that is no data frame: nothing is counted. *)
Lemma accounts_quiet m0 ins i c c' :
  accounts m0 ins c -> input_fate i = None -> decoded c' = decoded c -> streamed c' = streamed c ->
  acked c' = acked c -> (forall k, k ∈ [C_msgs; C_dropped_frames; C_decode_err] ->
    conn_metrics c' k = conn_metrics c k) -> accounts m0 (ins ++ [i]) c'.
Proof.
  intros [? ? ? ? ? ?] Hf Hd Hs Ha Hm.
  assert (He : input_event i = None).
  { unfold input_event. destruct i; try done. by rewrite Hf. }
  assert (Hn : forall P, is_fate P i = false) by (intros P; unfold is_fate; by rewrite Hf).
  split; rewrite ?Hd, ?Hs, ?Ha, ?Hm, ?count_fate_snoc, ?Hn, ?N.add_0_r, ?omap_snoc, ?He by set_solver;
    simpl; rewrite ?app_nil_r; done.
Qed.

(** The loop does what the fate of the frame says. *)
Lemma on_payload_fate p receipt_us full reply c :
  on_payload p receipt_us full reply c =
  match payload_fate p with
  | Dropped => (with_conn_metrics (add_dropped_frames 1) c, None)
  | AckedFrame => (with_acked (acked c + 1) c, None)
  | Refused reason => (c, Some (ack_rejection_exit (streamed c) reason))
  | Answered m => (write [m] c, HeartbeatWriteFailed <$> reply)
  | Decoded ev => (offer ev receipt_us full c, None)
  | Skipped => (c, None)
  | Undecodable => (with_conn_metrics bump_decode_err c, None)
  end.
Proof. unfold on_payload, on_text, payload_fate. repeat case_match; simplify_eq/=; done. Qed.

(** A data frame is counted once, by its fate, and its event is kept in order. *)
Lemma accounts_payload m0 ins i p receipt_us now full reply c :
  accounts m0 ins c -> pending c = None ->
  input_fate i = Some (payload_fate p) ->
  (exists m, i = InFrame (Ok m) receipt_us now full reply) ->
  accounts m0 (ins ++ [i]) (on_payload p receipt_us full reply c).1.
Proof.
  intros [He Hs Ha Hm Hd Hu] Hp Hf [m Hi]. rewrite on_payload_fate.
  assert (Hev : input_event i = match payload_fate p with Decoded ev => Some (ev, receipt_us) | _ => None end).
  { unfold input_event. subst i. by rewrite Hf. }
  assert (Hsnoc : forall x, bool_decide (omap input_event ins ++ [x] = []) = false)
    by (intros x; apply bool_decide_eq_false; by destruct (omap input_event ins)).
  assert (Hc : forall P, count_fate P (ins ++ [i]) = count_fate P ins + (if P (payload_fate p) then 1 else 0)).
  { intros P. rewrite count_fate_snoc. unfold is_fate. by rewrite Hf. }
  unfold decoded in He. rewrite Hp in He.
  destruct (payload_fate p); [| | | |destruct full| |]; split; unfold decoded; cbn -[omap]; rewrite ?Hc, ?omap_snoc, ?Hev;
    cbn -[omap]; rewrite ?Hp, ?app_nil_r in *; try done; rewrite ?Hsnoc; try done;
    unfold bump_msgs, bump_ingest_backpressure, add_dropped_frames, bump_decode_err;
    rewrite ?fetch_add_eq, ?fetch_add_ne, ?fetch_add_eq, ?Hm, ?Hd, ?Hu, ?Ha, ?u64_add_assoc_acc,
      ?N.add_0_r by done; try done; by rewrite He.
Qed.

Lemma accounts_health m0 ins h c : accounts m0 ins c -> accounts m0 ins (with_health h c).
Proof. by intros []. Qed.

Lemma pong_quiet receipt_us p c :
  decoded (on_pong receipt_us p c) = decoded c /\ streamed (on_pong receipt_us p c) = streamed c /\
  acked (on_pong receipt_us p c) = acked c /\
  forall k, conn_metrics (on_pong receipt_us p c) k = conn_metrics c k.
Proof. unfold on_pong. repeat case_match; done. Qed.

Lemma farewell_quiet u n c :
  decoded (farewell u n c) = decoded c /\ streamed (farewell u n c) = streamed c /\
  acked (farewell u n c) = acked c /\ forall k, conn_metrics (farewell u n c) k = conn_metrics c k.
Proof. unfold farewell. case_match; done. Qed.

Lemma accounts_step u m0 ins i c :
  accounts m0 ins c -> input_enabled u i c = true -> accounts m0 (ins ++ [i]) (conn_step u i c).1.
Proof.
  intros Ha En. assert (Hp : pending c = None \/ i = InRoom \/ i = InReceiverGone).
  { destruct i; try (by right; eauto); left; apply andb_true_iff in En as [En _]; by case_bool_decide. }
  destruct i as [r receipt_us now full reply| | | |now|now|n|now|dead].
  - destruct Hp as [Hp|[?|?]]; [|done|done]. apply (accounts_health _ _ (record_activity now (health c))) in Ha.
    destruct r as [[t|b|pl|pl|f|]|e]; simpl.
    + by eapply accounts_payload; eauto.
    + by eapply accounts_payload; eauto.
    + by apply (accounts_quiet _ _ _ _ _ Ha).
    + destruct (pong_quiet receipt_us pl (with_health (record_activity now (health c)) c)) as (? & ? & ? & ?).
      by apply (accounts_quiet _ _ _ _ _ Ha).
    + by apply (accounts_quiet _ _ _ _ _ Ha).
    + by apply (accounts_quiet _ _ _ _ _ Ha).
    + by apply (accounts_quiet _ _ _ _ _ Ha).
  - apply (accounts_quiet _ _ _ _ _ Ha); try done. unfold decoded; simpl. by rewrite app_nil_r.
  - by apply (accounts_quiet _ _ _ _ _ Ha).
  - by apply (accounts_quiet _ _ _ _ _ Ha).
  - by apply (accounts_quiet _ _ _ _ _ Ha).
  - by apply (accounts_quiet _ _ _ _ _ Ha).
  - destruct (farewell_quiet u n c) as (? & ? & ? & ?). by apply (accounts_quiet _ _ _ _ _ Ha).
  - apply (accounts_quiet _ _ _ _ _ Ha); try done. simpl. intros k Hk. unfold bump_ack_timeouts.
    apply fetch_add_ne. intros ->. set_unfold in Hk. by destruct_or! Hk.
  - by destruct dead; apply (accounts_quiet _ _ _ _ _ Ha).
Qed.

Lemma accounts_run u m0 before ins c c' r :
  accounts m0 before c -> conn_run u ins c = Some (c', r) -> accounts m0 (before ++ ins) c'.
Proof.
  revert before c. induction ins as [|i ins IH]; intros before c Ha E; simpl in E.
  { simplify_eq. by rewrite app_nil_r. }
  destruct (input_enabled u i c) eqn:En; [|done].
  pose proof (accounts_step u m0 before i c Ha En) as Hs.
  destruct (conn_step u i c) as [c1 [x|]] eqn:Es; simpl in Hs.
  - destruct ins; [|done]. by simplify_eq.
  - change (i :: ins) with ([i] ++ ins). rewrite (assoc_L (++)). by eapply IH.
Qed.

Lemma omap_cons {A B} (f : A -> option B) x l :
  omap f (x :: l) = match f x with Some y => y :: omap f l | None => omap f l end.
Proof. done. Qed.

Lemma count_decoded ins : count_fate is_decoded ins = N.of_nat (length (omap input_event ins)).
Proof.
  unfold count_fate. f_equal. induction ins as [|i ins IH]; [done|].
  assert (Hi : is_fate is_decoded i = bool_decide (is_Some (input_event i))).
  { unfold is_fate, input_event. destruct i as [r ? ? ? ?| | | | | | | |]; try done.
    destruct r as [[t|b| | | |]|]; try done; simpl; by case_match. }
  simpl. rewrite Hi. destruct (input_event i); simpl; by rewrite IH.
Qed.

(** A connection as the read loop finds it. *)
Definition fresh_conn (c : Conn) : Prop :=
  streamed c = false /\ acked c = 0 /\ pending c = None /\ ingested c = [] /\
  (forall k, is_u64 (conn_metrics c k)).

Lemma fresh_accounts c : fresh_conn c -> accounts (conn_metrics c) [] c.
Proof.
  intros (Hs & Ha & Hp & Hi & Hm). unfold is_u64 in Hm.
  split; unfold decoded, count_fate, u64_add; simpl; rewrite ?Hs, ?Ha, ?Hp, ?Hi, ?N.add_0_r, ?N.mod_small; done.
Qed.

(** C31: frame accounting.  From the state the read loop starts in, whatever the socket, the
    clocks and the channel do, every text or binary frame read so far was counted once, by what
    it is: a failed inflation as a dropped frame, an acknowledgement as such, a data frame as a
    message, an undecodable one as a decode error.  The events taken by the ingest channel,
    with the one still waiting for room, are exactly the decoded data frames in the order of the
    socket, each with the time of its own receipt: none is lost, doubled or reordered. *)
Theorem frames_accounted u ins c c' r :
  fresh_conn c -> conn_run u ins c = Some (c', r) ->
  ingested c' ++ option_list (pending c') = omap input_event ins /\
  streamed c' = negb (bool_decide (omap input_event ins = [])) /\
  acked c' = count_fate is_acked ins /\
  conn_metrics c' C_msgs = u64_add (conn_metrics c C_msgs) (N.of_nat (length (omap input_event ins))) /\
  conn_metrics c' C_dropped_frames = u64_add (conn_metrics c C_dropped_frames) (count_fate is_dropped ins) /\
  conn_metrics c' C_decode_err = u64_add (conn_metrics c C_decode_err) (count_fate is_undecodable ins).
Proof.
  intros Hc%fresh_accounts Hr. destruct (accounts_run u _ [] ins c c' r Hc Hr) as [He Hs Ha Hm Hd Hu].
  simpl in *. split_and!; try done. rewrite Hm. f_equal. apply count_decoded.
Qed.

Lemma conn_run_ends u ins c r :
  snd <$> conn_run u ins c = Some r -> exists c', conn_run u ins c = Some (c', r).
Proof. destruct (conn_run u ins c) as [[c' r']|]; [|done]. intros [= <-]. by exists c'. Qed.

(** ** Why a connection ends *)

Lemma conn_run_last u ins c c' r :
  conn_run u ins c = Some (c', Some r) ->
  exists before i c1, ins = before ++ [i] /\ conn_run u before c = Some (c1, None) /\
    input_enabled u i c1 = true /\ conn_step u i c1 = (c', Some r).
Proof.
  revert c. induction ins as [|i ins IH]; intros c E; simpl in E; [done|].
  destruct (input_enabled u i c) eqn:En; [|done].
  destruct (conn_step u i c) as [c1 [x|]] eqn:Es.
  - destruct ins; [|done]. simplify_eq. by exists [], i, c.
  - destruct (IH c1 E) as (before & j & c2 & -> & Er & Ej & Esj).
    exists (i :: before), j, c2. split_and!; try done. simpl. by rewrite En, Es.
Qed.

Definition frame_time (i : SocketInput) : option Instant :=
  match i with InFrame _ _ now _ _ => Some now | _ => None end.

(** The staleness clock restarts at every frame, of any kind, and at nothing else. *)
Lemma conn_step_health u i c :
  health (conn_step u i c).1 =
    match frame_time i with Some now => record_activity now (health c) | None => health c end.
Proof.
  destruct i as [r receipt_us now full reply| | | |now|now|n|now|dead]; simpl; try done.
  - destruct r as [[t|b|pl|pl|f|]|e]; simpl; rewrite ?on_payload_fate; try done.
    + by destruct (payload_fate _), full.
    + by destruct (payload_fate _), full.
    + unfold on_pong. by repeat case_match.
  - unfold farewell. by case_match.
  - by destruct dead.
Qed.

Lemma conn_run_health u ins c c1 :
  conn_run u ins c = Some (c1, None) ->
  hm_timeout (health c1) = hm_timeout (health c) /\
  last_activity (health c1) = default (last_activity (health c)) (list.last (omap frame_time ins)).
Proof.
  revert c. induction ins as [|i ins IH]; intros c E; simpl in E; [by simplify_eq|].
  destruct (input_enabled u i c); [|done].
  pose proof (conn_step_health u i c) as Hh. destruct (conn_step u i c) as [c2 [x|]]; simpl in Hh.
  { by destruct ins. }
  destruct (IH c2 E) as [Ht Hl]. rewrite Ht, Hl, Hh, omap_cons.
  destruct (frame_time i) as [now|]; simpl; [|done]. rewrite last_cons.
  by destruct (list.last (omap frame_time ins)).
Qed.

Lemma sorted_le_last l (d x : N) :
  StronglySorted N.le l -> x ∈ l -> x <= default d (list.last l).
Proof.
  induction l as [|y l IH]; intros Hs Hx; [by apply not_elem_of_nil in Hx|].
  apply StronglySorted_inv in Hs as [Hs Hall]. rewrite last_cons.
  apply elem_of_cons in Hx as [->|Hx].
  - destruct (list.last l) as [z|] eqn:El; simpl; [|lia].
    rewrite Forall_forall in Hall. by apply Hall, last_Some_elem_of.
  - specialize (IH Hs Hx). destruct (list.last l) as [z|] eqn:El; simpl in *; [done|].
    apply last_None in El. subst. by apply not_elem_of_nil in Hx.
Qed.

(** The verdict on a connection: what each exit says of its history. *)
Definition exit_means (u : ConnSetup) (timeout : Duration) (ins : list SocketInput)
    (r : WssExitReason) : Prop :=
  match r with
  | SubscriptionRejected _ => omap input_event ins = []
  | ConnectionFailed _ => omap input_event ins <> [] \/ list.last ins = Some (InHeartbeat true)
  | Stale silence => silence = timeout /\ exists now, list.last ins = Some (InStale now) /\
      forall t, t ∈ omap frame_time ins -> t + silence <= now
  | PlannedRotation _ => exists t now, rotate_at u = Some t /\ t <= now /\ list.last ins = Some (InRotate now)
  | ServerClose f => exists receipt now full reply,
      list.last ins = Some (InFrame (Ok (MsgClose f)) receipt now full reply)
  | Transport e => exists receipt now full reply, list.last ins = Some (InFrame (Err e) receipt now full reply)
  | HeartbeatWriteFailed e => exists m receipt now full,
      list.last ins = Some (InFrame (Ok m) receipt now full (Some e))
  | ExitReceiverDropped => list.last ins = Some InReceiverGone
  | StreamEnded => list.last ins = Some InEnd \/ exists n, list.last ins = Some (InShutdown n)
  end.

Lemma rejection_means c reason before u timeout i :
  streamed c = negb (bool_decide (omap input_event before = [])) -> input_event i = None ->
  exit_means u timeout (before ++ [i]) (ack_rejection_exit (streamed c) reason).
Proof.
  intros Hs Hi. unfold ack_rejection_exit. rewrite Hs. case_bool_decide as Hb; simpl.
  - by rewrite omap_snoc, Hb, Hi.
  - left. rewrite omap_snoc, Hi. by destruct (omap input_event before).
Qed.

Lemma payload_exit_means p u timeout before receipt_us now full reply m c c' r :
  streamed c = negb (bool_decide (omap input_event before = [])) ->
  input_fate (InFrame (Ok m) receipt_us now full reply) = Some (payload_fate p) ->
  on_payload p receipt_us full reply c = (c', Some r) ->
  exit_means u timeout (before ++ [InFrame (Ok m) receipt_us now full reply]) r.
Proof.
  intros Hs Hf E. rewrite on_payload_fate in E. destruct (payload_fate p) eqn:Ef; simplify_eq/=.
  - apply rejection_means; [done|]. unfold input_event. simpl in *. by rewrite Hf.
  - destruct reply as [e|]; simplify_eq/=. exists m, receipt_us, now, full. by rewrite last_snoc.
Qed.

(** Why a connection ends.  Every exit of the read loop states a fact of the history
    of its connection.  A subscription is reported as rejected, which ends the source, only if
    no data frame was ever decoded; a rejection after data is an ordinary failure.  A connection
    is called stale only when no frame of any kind was read for the whole staleness timeout, and
    is rotated only after its deadline.  The other exits name the frame, the read, the write or
    the signal that ended it. *)
Theorem exit_sound u ins c c' r :
  fresh_conn c ->
  StronglySorted N.le (last_activity (health c) :: omap frame_time ins) ->
  conn_run u ins c = Some (c', Some r) ->
  exit_means u (hm_timeout (health c)) ins r.
Proof.
  intros Hc Ht E. destruct (conn_run_last _ _ _ _ _ E) as (before & i & c1 & -> & Er & En & Es).
  destruct (accounts_run u _ [] before c c1 None (fresh_accounts c Hc) Er) as [_ Hs _ _ _ _].
  simpl in Hs. destruct (conn_run_health u before c c1 Er) as [Hto Hla].
  destruct i as [rd receipt_us now full reply| | | |now|now|n|now|dead]; simpl in Es.
  - destruct rd as [[t|b|pl|pl|f|]|e]; simpl in Es; simplify_eq.
    + by apply (payload_exit_means (PayloadText t) u _ _ _ now _ _ (MsgText t)
        (with_health (record_activity now (health c1)) c1) c').
    + by apply (payload_exit_means (PayloadBinary b) u _ _ _ now _ _ (MsgBinary b)
        (with_health (record_activity now (health c1)) c1) c').
    + exists receipt_us, now, full, reply. by rewrite last_snoc.
    + exists receipt_us, now, full, reply. by rewrite last_snoc.
  - done.
  - simplify_eq. simpl. by rewrite last_snoc.
  - simplify_eq. left. by rewrite last_snoc.
  - simplify_eq. split; [done|]. exists now. rewrite last_snoc. split; [done|].
    intros t Hin. rewrite omap_snoc in Hin, Ht. simpl in Hin, Ht. rewrite app_nil_r in Hin, Ht.
    unfold input_enabled in En. apply andb_true_iff in En as [_ En]. apply N.leb_le in En.
    unfold deadline in En. rewrite Hto, Hla in En.
    apply StronglySorted_inv in Ht as [Ht _].
    pose proof (sorted_le_last _ (last_activity (health c)) t Ht Hin) as Hle. simpl.
    rewrite Hto. exact (N.le_trans _ _ _ (proj1 (N.add_le_mono_r _ _ _) Hle) En).
  - simplify_eq. unfold input_enabled, passed in En. apply andb_true_iff in En as [_ En].
    destruct (rotate_at u) as [t|] eqn:Erot; [|done]. apply N.leb_le in En.
    exists t, now. by rewrite last_snoc.
  - simplify_eq. right. exists n. by rewrite last_snoc.
  - simplify_eq. by apply rejection_means.
  - destruct dead; simplify_eq. right. by rewrite last_snoc.
Qed.

(** ** The round-trip estimate *)

Lemma rtt_ewma_between lo hi prev sample :
  lo <= prev <= hi -> lo <= sample <= hi -> hi * 5 < u64_modulus -> 0 < prev ->
  lo <= rtt_ewma_us prev sample <= hi.
Proof.
  intros Hp Hs Hh Hpos. unfold rtt_ewma_us. destruct (N.eqb_spec prev 0); [lia|].
  rewrite u64_mul_small, u64_add_small by lia. split.
  - apply N.div_le_lower_bound; lia.
  - apply N.Div0.div_le_upper_bound. lia.
Qed.

(** The payload of a ping comes back as its send time. *)
Lemma ping_roundtrip w : is_u64 w -> decode_ping_send_us (le_split 8 w) = Some w.
Proof.
  intros Hw. unfold decode_ping_send_us. rewrite length_le_split. simpl Nat.eqb. cbv iota.
  rewrite le_combine_split, N.mod_small; done.
Qed.
End Transport.

(** ** A venue for the examples

    It acknowledges [sub-ok], refuses [sub-no], pings with [ping], and decodes a digit as
    itself. *)

Definition toy_hooks : ProtocolHooks := {|
  endpoint := "wss://venue"; subscribe_frames _ _ := [MsgText "sub"];
  unsubscribe_frames _ _ := [MsgText "unsub"]; heartbeat := NoHeartbeat;
  classify_ack t := if String.eqb t "sub-ok" then Accepted
                    else if String.eqb t "sub-no" then AckRejected (Some 7%Z) "refused" else NotAck;
  on_inbound_control t := if String.eqb t "ping" then Reply (MsgText "pong") else ControlIgnore;
  subscribe_ack_deadline := Some 5000000000; connection_lifetime := Some 100000000000;
  stale_after := DEFAULT_STALE_AFTER; frame_codec := PlainText; prepare := Ok Prepared_default
|}.

Definition toy_decoder : WssDecoder := {|
  wss_event := string;
  wss_decode t := if String.eqb t "" then Ok None else if String.eqb t "?" then Err (JsonError t) else Ok (Some t)
|}.

Definition toy_flate : Flate2 := {| gz_take _ _ := Err "corrupt" |}.

Section Examples.
Local Existing Instances toy_hooks toy_decoder toy_flate plain_ws.

Definition toy_setup : ConnSetup := {|
  symbols := []; declared := declared_all; expected_acks := 1; ack_deadline := Some 5000000000;
  rotate_at := Some 69000000000; held_extras := None; hb := NoHeartbeat
|}.

Definition toy_conn : Conn := {|
  streamed := false; acked := 0; health := HealthMonitor_new DEFAULT_STALE_AFTER 0; rtt_us := 0;
  conn_metrics := SourceMetrics_default; pending := None; ingested := []; written := []
|}.

Definition text_at (now : Instant) (t : string) : SocketInput :=
  InFrame (Ok (MsgText t)) now now false None.

Definition toy_run : list SocketInput :=
  [text_at 1 "sub-ok"; text_at 2 "a"; InRoom; text_at 3 "ping"; text_at 4 "?"; text_at 5 "";
   InFrame (Ok (MsgBinary [xff])) 6 6 false None; text_at 7 "b"; InRoom].

Lemma frames_accounted_witness : exists c',
  conn_run toy_setup toy_run toy_conn = Some (c', None) /\
  ingested c' ++ option_list (pending c') = [("a", 2); ("b", 7)] /\
  conn_metrics c' C_dropped_frames = 1.
Proof.
  destruct (conn_run_ends toy_setup toy_run toy_conn None) as [c' E]; [vm_compute; reflexivity|].
  exists c'. split; [exact E|].
  assert (Hf : fresh_conn toy_conn) by (split_and!; done).
  pose proof (frames_accounted toy_setup toy_run toy_conn c' None Hf E) as (H1 & _ & _ & _ & H2 & _).
  split; [exact H1|exact H2].
Defined.

Definition toy_silence : list SocketInput :=
  [text_at 1 "sub-ok"; text_at 2 "a"; InRoom; InStale 60000000002].

Lemma exit_sound_witness : exists c' r,
  conn_run toy_setup toy_silence toy_conn = Some (c', Some r) /\
  exit_means toy_setup DEFAULT_STALE_AFTER toy_silence r.
Proof.
  destruct (conn_run_ends toy_setup toy_silence toy_conn (Some (Stale DEFAULT_STALE_AFTER)))
    as [c' E]; [vm_compute; reflexivity|].
  exists c', (Stale DEFAULT_STALE_AFTER). split; [exact E|].
  refine (exit_sound toy_setup toy_silence toy_conn c' (Stale DEFAULT_STALE_AFTER) _ _ E).
  - split_and!; done.
  - change (StronglySorted N.le [0; 1; 2]). repeat constructor; done.
Defined.
End Examples.

Example rtt_examples : rtt_ewma_us 0 200 = 200 /\ rtt_ewma_us 100 200 = 120 /\ rtt_ewma_us 150 150 = 150.
Proof. done. Qed.

Example utf8_examples :
  utf8_valid 9 [xe2; x82; xac] = true /\ utf8_valid 9 [xc0; x80] = false /\
  utf8_valid 9 [xed; xa0; x80] = false /\ utf8_valid 9 [xf0; x9f; x98; x80] = true.
Proof. done. Qed.
