(* ===== verification/Drive.v ===== *)
(** * The drive loop of a connection

    [src/aetelier-connect/src/framework/driver.rs] with the [TaskExit] of [registry.rs]: the
    loop between the transport of a connection and the reconstruction runtime.  It reads the
    ingest channel, normalizes each decoded event, stamps the results and sends them on.

    The transport runs as a task of its own, so a connection is two processes around one
    channel: a step of the system is a step of the transport ([Transport.conn_step]) or of
    the loop, in any interleaving the channel allows.  The channel holds the events the
    transport has ingested and the loop has not received.  Waiting for the consumer takes no
    step; [room] is the number of sends it takes before it is gone ([None] when it never
    goes).  An abort of the transport takes effect at once. *)
From Stdlib Require Import Ascii String Strings.Byte Sorted.
From S2P Require Import Prelude Budget Strings Numeric Pairs Types Model Runtime Disconnect Reconnect Transport.
Local Open Scope N_scope.

Inductive TaskExit :=
| Completed
| DrainTimedOut
| TaskFailed (r : DisconnectReason)
| Exhausted.

Definition DEFAULT_RAW_BUFFER : N := 4096.
Definition STOP_DRAIN_TIMEOUT : Duration := 2000000000.
Definition CLOSE_HANDSHAKE_TIMEOUT : Duration := 1000000000.

Section Drive.
Context {NU : Numeric} {TU : Tungstenite} {FL : Flate2} {PH : ProtocolHooks} {WD : WssDecoder}.

(** A venue's [Normalizer]; the trackers some of them keep behind a lock are its state. *)
Class Normalizer := {
  nz_state : Type;
  normalize : wss_event -> nz_state -> nz_state * list DomainEvent
}.
Context {NZ : Normalizer}.

(** [None] when the transport task panicked. *)
Definition exit_to_task (joined : option WssExitReason) : TaskExit :=
  match joined with
  | Some reason =>
    match DisconnectReason_from reason with
    | CleanClose | ReceiverDropped => Completed
    | other => TaskFailed other
    end
  | None => TaskFailed (TransportError "transport task panicked")
  end.

Inductive TransportTask := TaskRunning | TaskEnded (joined : option WssExitReason) | TaskAborted.
Inductive DrivePhase := Looping | Closing | DriveDone (e : TaskExit).

Record DriveState := {
  dv_conn : Conn;
  dv_task : TransportTask;
  (** the events received from the channel so far *)
  dv_taken : nat;
  dv_nz : nz_state;
  recv_seq : N;
  dv_sent : list DomainEvent;
  room : option nat;
  dv_shutdown : bool;
  dv_phase : DrivePhase
}.

Definition raw (s : DriveState) : list (wss_event * N) := drop (dv_taken s) (ingested (dv_conn s)).

Definition with_conn (c : Conn) (t : TransportTask) (s : DriveState) : DriveState := {|
  dv_conn := c; dv_task := t; dv_taken := dv_taken s; dv_nz := dv_nz s; recv_seq := recv_seq s;
  dv_sent := dv_sent s; room := room s; dv_shutdown := dv_shutdown s; dv_phase := dv_phase s
|}.
Definition with_phase (p : DrivePhase) (s : DriveState) : DriveState := {|
  dv_conn := dv_conn s; dv_task := dv_task s; dv_taken := dv_taken s; dv_nz := dv_nz s;
  recv_seq := recv_seq s; dv_sent := dv_sent s; room := room s; dv_shutdown := dv_shutdown s;
  dv_phase := p
|}.
Definition with_shutdown (b : bool) (s : DriveState) : DriveState := {|
  dv_conn := dv_conn s; dv_task := dv_task s; dv_taken := dv_taken s; dv_nz := dv_nz s;
  recv_seq := recv_seq s; dv_sent := dv_sent s; room := room s; dv_shutdown := b;
  dv_phase := dv_phase s
|}.
Definition received (nz : nz_state) (s : DriveState) : DriveState := {|
  dv_conn := dv_conn s; dv_task := dv_task s; dv_taken := S (dv_taken s); dv_nz := nz;
  recv_seq := recv_seq s; dv_sent := dv_sent s; room := room s; dv_shutdown := dv_shutdown s;
  dv_phase := dv_phase s
|}.

(** [tx.send(de).await]; [None] when the consumer is gone. *)
Definition send_one (de : DomainEvent) (s : DriveState) : option DriveState :=
  match room s with
  | Some O => None
  | r => Some {|
      dv_conn := dv_conn s; dv_task := dv_task s; dv_taken := dv_taken s; dv_nz := dv_nz s;
      recv_seq := recv_seq s; dv_sent := dv_sent s ++ [de]; room := pred <$> r;
      dv_shutdown := dv_shutdown s; dv_phase := dv_phase s |}
  end.

Definition next_seq (s : DriveState) : DriveState := {|
  dv_conn := dv_conn s; dv_task := dv_task s; dv_taken := dv_taken s; dv_nz := dv_nz s;
  recv_seq := recv_seq s + 1; dv_sent := dv_sent s; room := room s; dv_shutdown := dv_shutdown s;
  dv_phase := dv_phase s
|}.

Inductive Delivery := AllSent | ConsumerGone | OutOfTime.

(** The inner loop over the normalized events of one frame; [budget] bounds the sends that
    complete before the timeout around the loop fires. *)
Fixpoint deliver (receipt_us rtt epoch : N) (des : list DomainEvent) (budget : option nat)
    (s : DriveState) : DriveState * option nat * Delivery :=
  match des with
  | [] => (s, budget, AllSent)
  | de :: des =>
    let s := next_seq s in
    match budget with
    | Some O => (s, budget, OutOfTime)
    | _ =>
      match send_one (stamp_local receipt_us rtt (recv_seq s) epoch de) s with
      | None => (s, budget, ConsumerGone)
      | Some s => deliver receipt_us rtt epoch des (pred <$> budget) s
      end
    end
  end.

Definition conn_epoch (s : DriveState) : N := conn_epoch_us (conn_metrics (dv_conn s)).

(** Normalize an event and send what it yields. *)
Definition forward (ev : wss_event) (receipt_us : N) (budget : option nat) (s : DriveState)
    : DriveState * option nat * Delivery :=
  let '(nz, des) := normalize ev (dv_nz s) in
  deliver receipt_us (rtt_us (dv_conn s)) (conn_epoch s) des budget (received nz s).

(** [drain_buffered] over what the channel holds. *)
Fixpoint drain_buffered (q : list (wss_event * N)) (budget : option nat) (s : DriveState)
    : DriveState * Delivery :=
  match q with
  | [] => (s, AllSent)
  | (ev, receipt_us) :: q =>
    match forward ev receipt_us budget s with
    | (s, budget, AllSent) => drain_buffered q budget s
    | (s, _, d) => (s, d)
    end
  end.

Definition drained_exit (d : Delivery) : TaskExit :=
  match d with OutOfTime => DrainTimedOut | _ => Completed end.

(** The bounded flush at the end of a run. *)
Definition flush_and_exit (budget : option nat) (s : DriveState) : DriveState :=
  let '(s', d) := drain_buffered (raw s) budget s in with_phase (DriveDone (drained_exit d)) s'.

Definition abort_transport (s : DriveState) : DriveState := with_conn (dv_conn s) TaskAborted s.

(** ** The system *)

Inductive DriveInput :=
| DvSocket (i : SocketInput)
| DvPanic
| DvSignal
| DvRecv
| DvEnd (budget : option nat)
| DvStop (sender_gone : bool)
| DvHandshake (timed_out : bool) (budget : option nat).

Definition task_running (s : DriveState) : bool :=
  match dv_task s with TaskRunning => true | _ => false end.
Definition looping (s : DriveState) : bool :=
  match dv_phase s with Looping => true | _ => false end.
Definition closing (s : DriveState) : bool :=
  match dv_phase s with Closing => true | _ => false end.

(** What the channel and the signal allow the transport. *)
Definition socket_allowed (buffer : nat) (i : SocketInput) (s : DriveState) : bool :=
  match i with
  | InFrame _ _ _ full _ => Bool.eqb full (length (raw s) =? buffer)%nat
  | InRoom => (length (raw s) <? buffer)%nat
  | InReceiverGone => false
  | InShutdown _ => dv_shutdown s
  | _ => true
  end.

Definition drive_enabled (u : ConnSetup) (buffer : nat) (x : DriveInput) (s : DriveState) : bool :=
  match x with
  | DvSocket i =>
    task_running s && (looping s || closing s) && input_enabled u i (dv_conn s) &&
    socket_allowed buffer i s
  | DvPanic => task_running s && (looping s || closing s)
  | DvSignal => looping s || closing s
  | DvRecv => looping s && negb (bool_decide (raw s = []))
  | DvEnd _ => looping s && negb (task_running s) && bool_decide (raw s = [])
  | DvStop gone => looping s && (gone || dv_shutdown s)
  | DvHandshake timed_out _ => closing s && (timed_out || negb (task_running s))
  end.

(** What is left when the transport has closed the channel. *)
Definition channel_closed (budget : option nat) (s : DriveState) : DriveState :=
  if dv_shutdown s then flush_and_exit budget s
  else
    match dv_task s with
    | TaskEnded joined => with_phase (DriveDone (exit_to_task joined)) s
    | _ => s
    end.

Definition drive_step (u : ConnSetup) (x : DriveInput) (s : DriveState) : DriveState :=
  match x with
  | DvSocket i =>
    match conn_step u i (dv_conn s) with
    | (c, None) => with_conn c TaskRunning s
    | (c, Some r) => with_conn c (TaskEnded (Some r)) s
    end
  | DvPanic => with_conn (dv_conn s) (TaskEnded None) s
  | DvSignal => with_shutdown true s
  | DvRecv =>
    match raw s with
    | [] => s
    | (ev, receipt_us) :: _ =>
      match forward ev receipt_us None s with
      | (s, _, AllSent) => s
      | (s, _, _) => with_phase (DriveDone Completed) (abort_transport s)
      end
    end
  | DvEnd budget => channel_closed budget s
  | DvStop _ => with_phase Closing s
  | DvHandshake timed_out budget =>
    flush_and_exit budget (if timed_out then abort_transport s else s)
  end.

Fixpoint drive_run (u : ConnSetup) (buffer : nat) (xs : list DriveInput) (s : DriveState)
    : option DriveState :=
  match xs with
  | [] => Some s
  | x :: xs => if drive_enabled u buffer x s then drive_run u buffer xs (drive_step u x s) else None
  end.

(** [drive], once the transport has its socket. *)
Definition drive_start (c : Conn) (nz : nz_state) (r : option nat) (stopped : bool) : DriveState := {|
  dv_conn := c; dv_task := TaskRunning; dv_taken := 0; dv_nz := nz; recv_seq := 0; dv_sent := [];
  room := r; dv_shutdown := stopped; dv_phase := Looping
|}.

(** ** The stream of a connection *)

(** An event, the time of its receipt and the round trip known when it was sent on. *)
Definition seen : Type := wss_event * N * N.

Definition stamped (receipt_us rtt epoch seq : N) (des : list DomainEvent) : list DomainEvent :=
  imap (fun i de => stamp_local receipt_us rtt (seq + N.of_nat i + 1) epoch de) des.

(** What a sequence of events becomes: each is normalized in turn, and the results are
    numbered from one on, without a gap. *)
Fixpoint stream (epoch : N) (evs : list seen) (nz : nz_state) (seq : N)
    : list DomainEvent * nz_state * N :=
  match evs with
  | [] => ([], nz, seq)
  | (ev, receipt_us, rtt) :: evs =>
    let '(nz', des) := normalize ev nz in
    let '(out, nz'', seq') := stream epoch evs nz' (seq + N.of_nat (length des)) in
    (stamped receipt_us rtt epoch seq des ++ out, nz'', seq')
  end.

Lemma stream_app epoch evs evs' nz seq :
  stream epoch (evs ++ evs') nz seq =
  let '(out, nz1, seq1) := stream epoch evs nz seq in
  let '(out', nz2, seq2) := stream epoch evs' nz1 seq1 in (out ++ out', nz2, seq2).
Proof.
  revert nz seq. induction evs as [|[[ev rc] rtt] evs IH]; intros nz seq; simpl.
  - by destruct (stream epoch evs' nz seq) as [[? ?] ?].
  - destruct (normalize ev nz) as [nz' des]. rewrite IH.
    destruct (stream epoch evs nz' _) as [[out nz1] seq1].
    destruct (stream epoch evs' nz1 seq1) as [[out' nz2] seq2]. by rewrite (assoc_L (++)).
Qed.

Lemma stamped_cons receipt_us rtt epoch seq de des :
  stamped receipt_us rtt epoch seq (de :: des) =
  stamp_local receipt_us rtt (seq + 1) epoch de :: stamped receipt_us rtt epoch (seq + 1) des.
Proof.
  unfold stamped. rewrite imap_cons. f_equal; [by rewrite N.add_0_r|].
  apply imap_ext. intros i x _. simpl. f_equal. lia.
Qed.

(** What delivering does not touch. *)
Record same_but_sent (s s' : DriveState) : Prop := {
  sb_conn : dv_conn s' = dv_conn s; sb_task : dv_task s' = dv_task s;
  sb_shutdown : dv_shutdown s' = dv_shutdown s; sb_phase : dv_phase s' = dv_phase s;
  sb_room : room s = None -> room s' = None
}.

#[export] Instance same_but_sent_preorder : PreOrder same_but_sent.
Proof. split; [done|]. intros x y z [] []. split; try congruence. auto. Qed.

Lemma deliver_spec receipt_us rtt epoch des budget s s' b' d :
  deliver receipt_us rtt epoch des budget s = (s', b', d) ->
  same_but_sent s s' /\ dv_taken s' = dv_taken s /\ dv_nz s' = dv_nz s /\
  (budget = None -> b' = None /\ d <> OutOfTime) /\ (room s = None -> d <> ConsumerGone) /\
  match d with
  | AllSent => dv_sent s' = dv_sent s ++ stamped receipt_us rtt epoch (recv_seq s) des /\
               recv_seq s' = recv_seq s + N.of_nat (length des)
  | _ => exists k, dv_sent s' = dv_sent s ++ take k (stamped receipt_us rtt epoch (recv_seq s) des)
  end.
Proof.
  revert budget s. induction des as [|de des IH]; intros budget s E; simpl in E.
  { simplify_eq. unfold stamped. simpl. rewrite app_nil_r, N.add_0_r. split_and!; done. }
  assert (Hk : forall d', d' = OutOfTime \/ d' = ConsumerGone -> s' = next_seq s ->
    match d' with
    | AllSent => False
    | _ => exists k, dv_sent s' = dv_sent s ++ take k (stamped receipt_us rtt epoch (recv_seq s) (de :: des))
    end).
  { intros d' Hd' ->. destruct Hd' as [-> | ->]; exists 0%nat; simpl; by rewrite ?take_0, app_nil_r. }
  destruct budget as [[|b]|]; [simplify_eq; split_and!; try done; apply (Hk OutOfTime); eauto| |].
  all: unfold send_one in E; simpl in E; destruct (room s) as [[|r]|] eqn:Er;
    [simplify_eq; split_and!; try done; apply (Hk ConsumerGone); eauto| |].
  all: destruct (IH _ _ E) as (Hs & Ht & Hn & Hb & Hr & Hd); simpl in *;
    split_and!; try done; try (intros; by apply Hb); try (intros; by apply Hr);
    try (destruct Hs; split; simpl in *; [done..|intros; congruence || eauto]).
  all: destruct d; rewrite stamped_cons;
    [destruct Hd as [-> ->]; split; [by rewrite <-(assoc_L (++))|lia]
    |destruct Hd as [k ->]; exists (S k); simpl; by rewrite <-(assoc_L (++))
    |destruct Hd as [k ->]; exists (S k); simpl; by rewrite <-(assoc_L (++))].
Qed.

(** The state of the loop against the stream of what it has received: [evs] are the events
    taken from the channel with the round trips read for them. *)
Record delivered (epoch : N) (nz : nz_state) (evs : list seen) (s : DriveState) : Prop := {
  dl_taken : evs.*1 = take (dv_taken s) (ingested (dv_conn s));
  dl_count : length evs = dv_taken s;
  dl_stream : stream epoch evs nz 0 = (dv_sent s, dv_nz s, recv_seq s);
  dl_epoch : conn_epoch s = epoch
}.

(** The same, when the last event may have been sent in part. *)
Record delivered_part (epoch : N) (nz : nz_state) (evs : list seen) (s : DriveState) : Prop := {
  dp_taken : evs.*1 = take (dv_taken s) (ingested (dv_conn s));
  dp_count : length evs = dv_taken s;
  dp_sent : dv_sent s `prefix_of` (stream epoch evs nz 0).1.1
}.

Lemma delivered_prefix epoch nz evs s : delivered epoch nz evs s -> delivered_part epoch nz evs s.
Proof. intros [? ? E ?]. split; [done..|]. by rewrite E. Qed.

Lemma raw_cons s x q :
  raw s = x :: q -> ingested (dv_conn s) !! dv_taken s = Some x /\
  drop (S (dv_taken s)) (ingested (dv_conn s)) = q.
Proof.
  unfold raw. intros E. split.
  - by rewrite <-(Nat.add_0_r (dv_taken s)), <-lookup_drop, E.
  - by rewrite <-Nat.add_1_r, <-drop_drop, E.
Qed.

Lemma forward_spec epoch nz evs ev receipt_us q budget s s' b' d :
  delivered epoch nz evs s -> raw s = (ev, receipt_us) :: q ->
  forward ev receipt_us budget s = (s', b', d) ->
  same_but_sent s s' /\ raw s' = q /\ (budget = None -> b' = None /\ d <> OutOfTime) /\
  (room s = None -> d <> ConsumerGone) /\
  exists rtt, match d with
  | AllSent => delivered epoch nz (evs ++ [(ev, receipt_us, rtt)]) s'
  | _ => delivered_part epoch nz (evs ++ [(ev, receipt_us, rtt)]) s'
  end.
Proof.
  intros [Ht Hc Hst He] Hraw E. destruct (raw_cons _ _ _ Hraw) as [Hlk Hdrop].
  unfold forward in E. destruct (normalize ev (dv_nz s)) as [nz' des] eqn:En.
  destruct (deliver_spec _ _ _ _ _ _ _ _ _ E) as (Hs & Hta & Hn & Hb & Hr & Hd).
  set (rtt := rtt_us (dv_conn s)) in *. rewrite He in *.
  assert (Hcn : dv_conn s' = dv_conn s) by apply (sb_conn _ _ Hs).
  assert (Htk : (evs ++ [(ev, receipt_us, rtt)]).*1 = take (S (dv_taken s)) (ingested (dv_conn s)))
    by (by rewrite fmap_app, Ht, (take_S_r _ _ _ Hlk)).
  assert (Hln : length (evs ++ [(ev, receipt_us, rtt)]) = S (dv_taken s))
    by (rewrite length_app, Hc; simpl; lia).
  assert (Hstr : stream epoch (evs ++ [(ev, receipt_us, rtt)]) nz 0 =
    (dv_sent s ++ stamped receipt_us rtt epoch (recv_seq s) des, nz', recv_seq s + N.of_nat (length des))).
  { rewrite stream_app, Hst. simpl. rewrite En. by rewrite app_nil_r. }
  split_and!; [by destruct Hs| |done|done|].
  { unfold raw. by rewrite Hcn, Hta. }
  exists rtt. simpl in *. destruct d.
  - destruct Hd as [Hd1 Hd2]. split; rewrite ?Hcn, ?Hta; try done.
    + by rewrite Hstr, Hd1, Hd2, Hn.
    + unfold conn_epoch. by rewrite Hcn.
  - destruct Hd as [k Hk]. split; rewrite ?Hcn, ?Hta; try done. rewrite Hstr, Hk. simpl.
    apply prefix_app, prefix_take.
  - destruct Hd as [k Hk]. split; rewrite ?Hcn, ?Hta; try done. rewrite Hstr, Hk. simpl.
    apply prefix_app, prefix_take.
Qed.

Lemma drain_spec epoch nz q evs budget s s' d :
  delivered epoch nz evs s -> raw s = q -> drain_buffered q budget s = (s', d) ->
  same_but_sent s s' /\ (budget = None -> d <> OutOfTime) /\ (room s = None -> d <> ConsumerGone) /\
  exists evs', match d with
  | AllSent => delivered epoch nz evs' s' /\ raw s' = []
  | _ => delivered_part epoch nz evs' s'
  end.
Proof.
  revert evs budget s. induction q as [|[ev rc] q IH]; intros evs budget s Hd Hq E; simpl in E.
  { simplify_eq. split_and!; try done. by exists evs. }
  destruct (forward ev rc budget s) as [[s1 b1] d1] eqn:E1.
  destruct (forward_spec _ _ _ _ _ _ _ _ _ _ _ Hd Hq E1) as (Hs & Hr & Hb & Hro & rtt & Hd1).
  destruct d1; [|simplify_eq|simplify_eq].
  - destruct (IH _ _ _ Hd1 Hr E) as (Hs2 & Hb2 & Hro2 & evs' & Hd2).
    split_and!; [by etrans|intros Hn; by apply Hb2, Hb| |by exists evs'].
    intros Hn. by apply Hro2, (sb_room _ _ Hs).
  - split_and!; [done|done|done|by eexists].
  - split_and!; [done|intros Hn; by apply Hb|done|by eexists].
Qed.

(** The transport only appends to what the channel took, and keeps its epoch. *)
Lemma conn_step_grows u i c :
  ingested c `prefix_of` ingested (conn_step u i c).1 /\
  conn_epoch_us (conn_metrics (conn_step u i c).1) = conn_epoch_us (conn_metrics c).
Proof.
  unfold conn_epoch_us.
  destruct i as [r rc now full reply| | | |now|now|n|now|dead]; simpl; try done.
  - destruct r as [[t|b|pl|pl|f|]|e]; simpl; rewrite ?on_payload_fate; try done.
    + by destruct (payload_fate _), full.
    + by destruct (payload_fate _), full.
    + unfold on_pong. by repeat case_match.
  - split; [by apply prefix_app_r|done].
  - unfold farewell. by case_match.
  - by destruct dead.
Qed.

Lemma take_prefix {A} n (l l' : list A) : l `prefix_of` l' -> (n <= length l)%nat -> take n l' = take n l.
Proof. intros [k ->] Hn. by rewrite take_app_le. Qed.

Lemma delivered_conn epoch nz evs s c t :
  delivered epoch nz evs s -> ingested (dv_conn s) `prefix_of` ingested c ->
  conn_epoch_us (conn_metrics c) = conn_epoch_us (conn_metrics (dv_conn s)) ->
  delivered epoch nz evs (with_conn c t s).
Proof.
  intros [Ht Hc Hs He] Hp Hm. split; simpl; try done.
  - rewrite Ht. symmetry. apply take_prefix; [done|].
    apply (f_equal length) in Ht. rewrite length_fmap, length_take in Ht.
    unfold seen in *. lia.
  - unfold conn_epoch in *. simpl. by rewrite Hm.
Qed.

Definition socket_inputs : list DriveInput -> list SocketInput :=
  omap (fun x => match x with DvSocket i => Some i | _ => None end).

(** The invariant of a connection in progress, and the verdict on a finished one. *)
Record in_progress (epoch : N) (nz : nz_state) (r : option nat) (m0 : SourceMetrics)
    (xs : list DriveInput) (s : DriveState) : Prop := {
  ip_accounts : accounts m0 (socket_inputs xs) (dv_conn s);
  ip_delivered : exists evs, delivered epoch nz evs s;
  ip_room : r = None -> room s = None
}.

Definition finished_as (epoch : N) (nz : nz_state) (r : option nat) (e : TaskExit) (s : DriveState)
    : Prop :=
  match e with
  | TaskFailed reason =>
    (exists evs, delivered epoch nz evs s) /\ raw s = [] /\ dv_shutdown s = false /\
    exists joined, dv_task s = TaskEnded joined /\ exit_to_task joined = TaskFailed reason
  | Completed => r = None -> (exists evs, delivered epoch nz evs s) /\ raw s = []
  | DrainTimedOut => True
  | Exhausted => False
  end.

Record finished (epoch : N) (nz : nz_state) (r : option nat) (m0 : SourceMetrics)
    (xs : list DriveInput) (e : TaskExit) (s : DriveState) : Prop := {
  fi_accounts : accounts m0 (socket_inputs xs) (dv_conn s);
  fi_delivered : exists evs, delivered_part epoch nz evs s;
  fi_verdict : finished_as epoch nz r e s
}.

Definition drive_inv epoch nz r m0 xs s : Prop :=
  match dv_phase s with
  | DriveDone e => finished epoch nz r m0 xs e s
  | _ => in_progress epoch nz r m0 xs s
  end.

Lemma delivered_phase epoch nz evs s p : delivered epoch nz evs s -> delivered epoch nz evs (with_phase p s).
Proof. by intros []. Qed.
Lemma delivered_part_phase epoch nz evs s p :
  delivered_part epoch nz evs s -> delivered_part epoch nz evs (with_phase p s).
Proof. by intros []. Qed.

Lemma flush_ok epoch nz r m0 xs budget s :
  in_progress epoch nz r m0 xs s ->
  exists e, dv_phase (flush_and_exit budget s) = DriveDone e /\
    finished epoch nz r m0 xs e (flush_and_exit budget s).
Proof.
  intros [Ha [evs Hd] Hr]. unfold flush_and_exit.
  destruct (drain_buffered (raw s) budget s) as [s' d] eqn:E.
  destruct (drain_spec _ _ _ _ _ _ _ _ Hd eq_refl E) as (Hs & Hb & Hg & evs' & Hd').
  exists (drained_exit d). split; [done|]. split; simpl.
  - by rewrite (sb_conn _ _ Hs).
  - exists evs'. apply delivered_part_phase. destruct d; [|done|done].
    apply delivered_prefix. by destruct Hd'.
  - destruct d; simpl.
    + intros _. destruct Hd' as [Hd' Hraw]. split; [|done].
      exists evs'. by apply delivered_phase.
    + intros Hn. destruct (Hg (Hr Hn)). done.
    + done.
Qed.

Lemma in_progress_phase epoch nz r m0 xs s p :
  in_progress epoch nz r m0 xs s -> in_progress epoch nz r m0 xs (with_phase p s).
Proof. intros [Ha [evs Hd] Hr]. split; [done|exists evs; by apply delivered_phase|done]. Qed.

Lemma in_progress_task epoch nz r m0 xs s t :
  in_progress epoch nz r m0 xs s -> in_progress epoch nz r m0 xs (with_conn (dv_conn s) t s).
Proof. intros [Ha [evs Hd] Hr]. split; [done|exists evs; by apply delivered_conn|done]. Qed.

Lemma in_progress_shutdown epoch nz r m0 xs s b :
  in_progress epoch nz r m0 xs s -> in_progress epoch nz r m0 xs (with_shutdown b s).
Proof. intros [Ha [evs []] Hr]. split; [done|exists evs; by split|done]. Qed.

Lemma exit_to_task_cases joined :
  exit_to_task joined = Completed \/ exists reason, exit_to_task joined = TaskFailed reason.
Proof.
  destruct joined as [j|]; simpl; [|by eauto].
  destruct (DisconnectReason_from j); by eauto.
Qed.

Lemma socket_inputs_snoc xs x :
  socket_inputs (xs ++ [x]) = socket_inputs xs ++ match x with DvSocket i => [i] | _ => [] end.
Proof. unfold socket_inputs. rewrite omap_app. by destruct x. Qed.

Lemma socket_step_ok epoch nz r m0 xs u i s :
  in_progress epoch nz r m0 xs s -> input_enabled u i (dv_conn s) = true ->
  in_progress epoch nz r m0 (xs ++ [DvSocket i]) (drive_step u (DvSocket i) s).
Proof.
  intros [Ha [evs Hd] Hr] En. simpl.
  pose proof (accounts_step u m0 _ i _ Ha En) as Hs.
  destruct (conn_step_grows u i (dv_conn s)) as [Hg He].
  destruct (conn_step u i (dv_conn s)) as [c [x|]]; simpl in *;
    (split; [by rewrite socket_inputs_snoc|exists evs; by apply delivered_conn|done]).
Qed.

Lemma closed_ok epoch nz r m0 xs budget s :
  in_progress epoch nz r m0 xs s -> raw s = [] -> dv_phase s = Looping ->
  drive_inv epoch nz r m0 xs (channel_closed budget s).
Proof.
  intros Hi Hraw Hp. unfold channel_closed, drive_inv. destruct (dv_shutdown s) eqn:Esh.
  { destruct (flush_ok _ _ _ _ _ budget _ Hi) as (e & -> & Hf). done. }
  destruct (dv_task s) as [|joined|] eqn:Et; [by rewrite Hp| |by rewrite Hp].
  destruct Hi as [Ha [evs Hd] Hr]. simpl. split; [done| |].
  - exists evs. by apply delivered_part_phase, delivered_prefix.
  - destruct (exit_to_task_cases joined) as [Ej|[reason Ej]]; rewrite Ej; simpl.
    + intros _. split; [|done]. exists evs. by apply delivered_phase.
    + split_and!; [exists evs; by apply delivered_phase|done|done|by eauto].
Qed.

Lemma receive_ok epoch nz r m0 xs u s :
  in_progress epoch nz r m0 xs s -> dv_phase s = Looping ->
  drive_inv epoch nz r m0 xs (drive_step u DvRecv s).
Proof.
  intros Hi Hp. unfold drive_inv. simpl. destruct (raw s) as [|[ev rc] q] eqn:Eraw; [by rewrite Hp|].
  destruct Hi as [Ha [evs Hd] Hr].
  destruct (forward ev rc None s) as [[s' b'] d] eqn:E.
  destruct (forward_spec _ _ _ _ _ _ _ _ _ _ _ Hd Eraw E) as (Hs & Hq & Hb & Hg & rtt & Hd').
  assert (Ha' : accounts m0 (socket_inputs xs) (dv_conn s')) by (by rewrite (sb_conn _ _ Hs)).
  destruct d.
  - rewrite (sb_phase _ _ Hs), Hp. split; [done|by eexists|].
    intros Hn. by apply (sb_room _ _ Hs), Hr.
  - simpl. split; [done| |intros Hn; by destruct (Hg (Hr Hn))].
    eexists. apply delivered_part_phase. by destruct Hd'; split.
  - by destruct (Hb eq_refl) as [_ ?].
Qed.

Lemma drive_step_ok epoch nz r m0 u buffer xs x s :
  drive_inv epoch nz r m0 xs s -> drive_enabled u buffer x s = true ->
  drive_inv epoch nz r m0 (xs ++ [x]) (drive_step u x s).
Proof.
  intros Hi En.
  assert (Hsame : forall s', (forall i, x <> DvSocket i) ->
    drive_inv epoch nz r m0 xs s' -> drive_inv epoch nz r m0 (xs ++ [x]) s').
  { intros s' Hx Hs. unfold drive_inv in *. assert (Es : socket_inputs (xs ++ [x]) = socket_inputs xs).
    { rewrite socket_inputs_snoc. destruct x; rewrite ?app_nil_r; try done. by destruct (Hx i). }
    destruct (dv_phase s'); destruct Hs; split; rewrite ?Es; done. }
  destruct x as [i| | | |budget|gone|timed_out budget].
  - unfold drive_enabled in En. rewrite !andb_true_iff in En. destruct En as [[[_ Hph] Hin] _].
    assert (Hip : in_progress epoch nz r m0 xs s)
      by (unfold drive_inv, looping, closing in *; by destruct (dv_phase s)).
    pose proof (socket_step_ok _ _ _ _ _ u i s Hip Hin) as Hs.
    assert (Hp : dv_phase (drive_step u (DvSocket i) s) = dv_phase s)
      by (simpl; by destruct (conn_step u i (dv_conn s)) as [? []]).
    unfold drive_inv. rewrite Hp. unfold looping, closing in Hph. by destruct (dv_phase s).
  - apply Hsame; [done|]. simpl in En. unfold looping, closing, drive_inv in *. simpl.
    rewrite andb_true_iff in En. destruct En as [_ En].
    destruct (dv_phase s); [by apply in_progress_task|by apply in_progress_task|done].
  - apply Hsame; [done|]. simpl in En. unfold looping, closing, drive_inv in *. simpl.
    by destruct (dv_phase s); [apply in_progress_shutdown|apply in_progress_shutdown|].
  - apply Hsame; [done|]. simpl in En. unfold looping, drive_inv in Hi, En.
    destruct (dv_phase s) eqn:Ep; try done. by apply receive_ok.
  - apply Hsame; [done|]. simpl in En. rewrite !andb_true_iff in En. destruct En as [[Hl _] Hraw].
    case_bool_decide; [|done]. unfold looping, drive_inv in Hi, Hl.
    destruct (dv_phase s) eqn:Ep; try done. by apply closed_ok.
  - apply Hsame; [done|]. simpl in En. unfold looping, drive_inv in *. simpl.
    destruct (dv_phase s); try done. by apply in_progress_phase.
  - apply Hsame; [done|]. simpl in En. unfold closing in En. unfold drive_inv in *. cbn [drive_step].
    destruct (dv_phase s); try done.
    assert (Hi' : in_progress epoch nz r m0 xs (if timed_out then abort_transport s else s))
      by (destruct timed_out; [by apply in_progress_task|done]).
    by destruct (flush_ok _ _ _ _ _ budget _ Hi') as (e & -> & Hf).
Qed.

Lemma drive_run_ok epoch nz r m0 u buffer before xs s s' :
  drive_inv epoch nz r m0 before s -> drive_run u buffer xs s = Some s' ->
  drive_inv epoch nz r m0 (before ++ xs) s'.
Proof.
  revert before s. induction xs as [|x xs IH]; intros before s Hi E; simpl in E.
  { simplify_eq. by rewrite app_nil_r. }
  destruct (drive_enabled u buffer x s) eqn:En; [|done].
  change (x :: xs) with ([x] ++ xs). rewrite (assoc_L (++)). eapply IH; [|exact E].
  by eapply drive_step_ok.
Qed.

Lemma drive_start_ok c nz r stopped :
  fresh_conn c ->
  drive_inv (conn_epoch_us (conn_metrics c)) nz r (conn_metrics c) [] (drive_start c nz r stopped).
Proof.
  intros Hc. split; [by apply fresh_accounts| |done].
  exists []. split; simpl; [|done|done|done].
  destruct Hc as (_ & _ & _ & -> & _). done.
Qed.

(** C9: what the drive loop delivers.  However the transport, the loop and the shutdown
    interleave, the events sent on are a prefix of the stream of the connection -- the decoded
    data frames in the order of the socket, each normalized in turn by the venue's tracker, the
    results numbered from one without a gap and stamped with the receipt of their own frame and
    the epoch of the connection -- and the frames not sent are still in the channel or offered
    to it.  The loop ends as failed only with the failure the transport ended with, outside a
    shutdown and after everything the channel took was sent; and, as long as the consumer
    stays, it completes only after that too. *)
Theorem drive_stream u buffer xs c nz r stopped s :
  fresh_conn c -> drive_run u buffer xs (drive_start c nz r stopped) = Some s ->
  exists evs : list seen,
    evs.*1 ++ raw s ++ option_list (pending (dv_conn s)) = omap input_event (socket_inputs xs) /\
    let '(out, _, _) := stream (conn_epoch_us (conn_metrics c)) evs nz 0 in
    dv_sent s `prefix_of` out /\
    match dv_phase s with
    | DriveDone (TaskFailed reason) =>
      dv_sent s = out /\ raw s = [] /\ dv_shutdown s = false /\
      exists joined, dv_task s = TaskEnded joined /\ exit_to_task joined = TaskFailed reason
    | DriveDone Completed => r = None -> dv_sent s = out /\ raw s = []
    | DriveDone DrainTimedOut => True
    | DriveDone Exhausted => False
    | Looping | Closing => dv_sent s = out
    end.
Proof.
  intros Hc Hrun. pose proof (drive_run_ok _ _ _ _ u buffer [] xs _ s (drive_start_ok c nz r stopped Hc) Hrun) as Hi.
  simpl in Hi. set (epoch := conn_epoch_us (conn_metrics c)) in *. unfold drive_inv in Hi.
  assert (Hq : forall evs : list seen, evs.*1 = take (dv_taken s) (ingested (dv_conn s)) ->
    accounts (conn_metrics c) (socket_inputs xs) (dv_conn s) ->
    evs.*1 ++ raw s ++ option_list (pending (dv_conn s)) = omap input_event (socket_inputs xs)).
  { intros evs -> Ha. unfold raw. rewrite (assoc_L (++)), take_drop. apply (acc_events _ _ _ Ha). }
  destruct (dv_phase s) as [| |e].
  1, 2: destruct Hi as [Ha [evs Hd] Hr]; exists evs; split; [by apply Hq; [apply (dl_taken _ _ _ _ Hd)|]|];
    rewrite (dl_stream _ _ _ _ Hd); done.
  destruct Hi as [Ha [evs Hd] Hv]. destruct e as [| |reason|]; simpl in Hv; [| | |done].
  - destruct r as [r|].
    + exists evs. split; [by apply Hq; [apply (dp_taken _ _ _ _ Hd)|]|].
      pose proof (dp_sent _ _ _ _ Hd) as Hp.
      destruct (stream epoch evs nz 0) as [[out ?] ?]. done.
    + destruct (Hv eq_refl) as [[evs' Hd'] Hraw]. exists evs'.
      split; [by apply Hq; [apply (dl_taken _ _ _ _ Hd')|]|].
      rewrite (dl_stream _ _ _ _ Hd'). done.
  - exists evs. split; [by apply Hq; [apply (dp_taken _ _ _ _ Hd)|]|].
    pose proof (dp_sent _ _ _ _ Hd) as Hp.
    destruct (stream epoch evs nz 0) as [[out ?] ?]. done.
  - destruct Hv as ([evs' Hd'] & Hraw & Hsh & joined & Ht & Ej). exists evs'.
    split; [by apply Hq; [apply (dl_taken _ _ _ _ Hd')|]|].
    rewrite (dl_stream _ _ _ _ Hd'). split_and!; try done. by exists joined.
Qed.
End Drive.

(** ** An example

    A venue whose tracker numbers its events: each yields an open interest and a marker. *)
Section Examples.
Local Existing Instances decimal_numeric toy_hooks toy_decoder toy_flate plain_ws.

Definition toy_oi : OpenInterest := {|
  open_interest_ts_us := 1; local_oi_ts_us := 0; oi_recv_seq := 0; oi_conn_epoch_us := 0;
  oi_pair := {| base := "BTC"; quote := "USDC" |}; open_interest := dzero;
  open_interest_value := None; mark_px := None; oi_exchange := "venue"
|}.

Definition toy_normalizer : Normalizer := {|
  nz_state := N; normalize _ n := (n + 1, [OpenInterestEvent toy_oi; ConnectionGap n])
|}.
Local Existing Instance toy_normalizer.

Definition oi_seq (e : DomainEvent) : option N :=
  match e with OpenInterestEvent o => Some (oi_recv_seq o) | _ => None end.

Definition toy_drive : list DriveInput :=
  [DvSocket (text_at 1 "a"); DvSocket InRoom; DvSocket (text_at 2 "b"); DvSocket InRoom;
   DvRecv; DvSocket InEnd; DvRecv; DvEnd None].

Definition toy_outcome (s : option DriveState) : option (list N * DrivePhase) :=
  s ← s; Some (omap oi_seq (dv_sent s), dv_phase s).

Lemma drive_run_outcome u buffer xs s x :
  toy_outcome (drive_run u buffer xs s) = Some x ->
  exists s', drive_run u buffer xs s = Some s' /\ omap oi_seq (dv_sent s') = x.1 /\ dv_phase s' = x.2.
Proof. destruct (drive_run u buffer xs s) as [s'|]; [|done]. intros [= <-]. by exists s'. Qed.

Definition toy_start : DriveState := drive_start (NZ := toy_normalizer) toy_conn 0 None false.

Lemma drive_stream_witness : exists s,
  drive_run toy_setup 2 toy_drive toy_start = Some s /\
  omap oi_seq (dv_sent s) = [1; 3] /\ raw s = [] /\
  dv_phase s = DriveDone (TaskFailed (TransportError "server closed without a close frame")).
Proof.
  destruct (drive_run_outcome toy_setup 2 toy_drive toy_start
    ([1; 3], DriveDone (TaskFailed (TransportError "server closed without a close frame"))))
    as (s & E & Hs & Hp); [vm_compute; reflexivity|].
  exists s. split; [exact E|]. split; [exact Hs|].
  assert (Hf : fresh_conn toy_conn) by (split_and!; done).
  destruct (drive_stream toy_setup 2 toy_drive toy_conn (0 : nz_state (Normalizer := toy_normalizer)) None false s Hf E) as (evs & _ & H).
  destruct (stream _ evs _ 0) as [[out ?] ?]. destruct H as [_ H]. simpl in Hp. rewrite Hp in H.
  destruct H as (_ & H & _). split; [exact H|exact Hp].
Defined.
End Examples.
