(* ===== verification/Worker.v ===== *)
(** * The market worker

    The framework path of [src/aetelier-connect/src/workers/market_worker.rs] with the
    incident record of [gap_ledger.rs]: one connection after another, the reconstructed
    events of each into the market synchronizer, its rows into the sinks, the reconnect
    policy between two connections, and the ledger of coverage gaps.

    The worker is a step function.  Its inputs are what its loops wait for: an event of the
    runtime, the end of the runtime, a tick, a command, a recovered trade, the shutdown
    signal, and the exits of the tasks it joins.  Clocks, the random draw of the policy and
    the success of a flush or of a ledger append come with the input that reads them.  The
    metrics and the feeds are shared with the tasks of the connection: an input of their own
    lets those tasks write to them.  The latency average is a rational, without rounding;
    the estimate of lost trades is the rounded-up quotient, without the rounding of [f64].
    The status messages are not modelled. *)
From Stdlib Require Import QArith Ascii String.
From stdpp Require Import gmap strings.
From S2P Require Import Prelude Budget BTree Strings Numeric Pairs Types Delta Checksum Book Model Feed Runtime Reconcile Snapshots MarketSync Disconnect Reconnect Transport Drive.
Local Open Scope N_scope.

Definition REPLAY_DEDUP_CAPACITY : nat := 4096.

(** Whether a timestamp of the wire runs backwards, and the last one kept. *)
Definition wire_ts_regressed (last_ts_us ts_us : N) : bool * N :=
  if ts_us <? last_ts_us then (true, last_ts_us) else (false, ts_us).

(** ** The window of trade ids *)

Record SeenTradeIds := {
  seen_order : list N;
  seen_ids : gset N;
  seen_capacity : nat
}.

Definition seen_with_capacity (n : nat) : SeenTradeIds :=
  {| seen_order := []; seen_ids := ∅; seen_capacity := n |}.

Definition seen_insert (id : N) (s : SeenTradeIds) : SeenTradeIds * bool :=
  if bool_decide (id ∈ seen_ids s) then (s, false)
  else
    let order := seen_order s ++ [id] in
    let ids := {[id]} ∪ seen_ids s in
    if (seen_capacity s <? length order)%nat then
      match order with
      | evicted :: order =>
        ({| seen_order := order; seen_ids := ids ∖ {[evicted]}; seen_capacity := seen_capacity s |}, true)
      | [] => ({| seen_order := order; seen_ids := ids; seen_capacity := seen_capacity s |}, true)
      end
    else ({| seen_order := order; seen_ids := ids; seen_capacity := seen_capacity s |}, true).

(** ** Coverage gaps *)

Inductive GapCause := GapResync | GapDisconnect.

Record GapIncident := {
  opened_epoch_us : N;
  closed_epoch_us : N;
  window_us : N;
  cause : GapCause;
  incident_exchange : string;
  incident_symbol : string;
  possible_dropped_trades : option N
}.

(** [ceil(trades / 60 * window_us / 1e6)] *)
Definition estimate_possible_dropped (trailing_trades_60s : nat) (window : N) : N :=
  N.min ((N.of_nat trailing_trades_60s * window + 59999999) / 60000000) u64_max.

(** ** Configuration *)

Record ReconnectSection := {
  initial_delay_ms : option N;
  max_delay_ms : option N;
  section_max_attempts : option N;
  section_jitter_factor : option Q
}.

Definition ReconnectSection_default : ReconnectSection :=
  {| initial_delay_ms := None; max_delay_ms := None; section_max_attempts := None;
     section_jitter_factor := None |}.

(** [None]: the delays of the section are in the wrong order, and the builder panics. *)
Definition framework_reconnect_policy (section : option ReconnectSection) : option ReconnectPolicy :=
  let s := default ReconnectSection_default section in
  ReconnectPolicy_build
    (set_jitter_factor (default (1 # 2)%Q (section_jitter_factor s))
      (set_max_attempts (section_max_attempts s)
        (set_max_delay (default 30000000000 (from_millis_of <$> max_delay_ms s))
          (set_initial_delay (default 1000000000 (from_millis_of <$> initial_delay_ms s))
            ReconnectPolicyBuilder_default)))).

Inductive WorkerCommand := CmdPause | CmdResume | CmdStop | CmdRestart.

Record WorkerConfig := {
  wc_exchange : string;
  wc_symbol : string;
  flush_threshold : nat;
  wc_external_clock : bool;
  reconcile_active : bool;
  has_ledger : bool
}.

(** What the sinks are told. *)
Inductive SinkOp `{Numeric} := SinkEmit (row : MarketSnapshot) | SinkFlush.

Inductive WorkerPhase :=
| WkRunning
| WkJoining
| WkWaiting (until : Instant)
| WkDone
| WkFlushFailed
| WkPanicked.

Section Worker.
Context {NU : Numeric} {UU : Uuid}.

(** The rows handed to the sinks. *)
Record Emission := {
  wk_sinks : list SinkOp;
  snapshots_produced : N;
  snapshots_since_flush : N;
  flushes : N
}.

(** What the worker remembers of the trades: the window against replays, the anchor and
    the ring of the reconciler, the arrivals of the last minute, and the fetches triggered. *)
Record TradeMemory := {
  seen_trade_ids : option SeenTradeIds;
  last_pos : gmap TradingPair TradePos;
  recent_ids : list N;
  recent_trades : list Instant;
  triggers : N
}.

(** The connection in use. *)
Record Link := {
  connection_state : ConnectionState;
  connection_live : bool;
  reconnects : N;
  wk_policy : ReconnectPolicy;
  last_book_ts_us : N;
  last_trade_ts_us : N
}.

(** The gap in progress, with its monotonic instant, its epoch and its cause, and the
    incidents written. *)
Record Coverage := {
  gap_open : option (Instant * N * GapCause);
  gap_ledger : list GapIncident
}.

Record Worker := {
  wk_sync : MarketSynchronizer;
  wk_out : Emission;
  wk_trades : TradeMemory;
  wk_link : Link;
  wk_gaps : Coverage;
  wk_metrics : SourceMetrics;
  wk_feeds : FeedSet;
  total_events : N;
  latency_us_ewma : Q;
  paused : bool;
  stopped : bool;
  wk_shutdown : bool;
  drain_partial : bool;
  wk_phase : WorkerPhase
}.

(** One setter per field that changes by itself. *)

Definition set_seen_trade_ids (v : option SeenTradeIds) (w : TradeMemory) : TradeMemory := {|
  seen_trade_ids := v; last_pos := last_pos w; recent_ids := recent_ids w; recent_trades :=
  recent_trades w; triggers := triggers w
|}.
Definition set_recent_trades (v : list Instant) (w : TradeMemory) : TradeMemory := {|
  seen_trade_ids := seen_trade_ids w; last_pos := last_pos w; recent_ids := recent_ids w;
  recent_trades := v; triggers := triggers w
|}.
Definition set_triggers (v : N) (w : TradeMemory) : TradeMemory := {|
  seen_trade_ids := seen_trade_ids w; last_pos := last_pos w; recent_ids := recent_ids w;
  recent_trades := recent_trades w; triggers := v
|}.
Definition set_connection_state (v : ConnectionState) (w : Link) : Link := {|
  connection_state := v; connection_live := connection_live w; reconnects := reconnects w;
  wk_policy := wk_policy w; last_book_ts_us := last_book_ts_us w; last_trade_ts_us :=
  last_trade_ts_us w
|}.
Definition set_connection_live (v : bool) (w : Link) : Link := {|
  connection_state := connection_state w; connection_live := v; reconnects := reconnects w;
  wk_policy := wk_policy w; last_book_ts_us := last_book_ts_us w; last_trade_ts_us :=
  last_trade_ts_us w
|}.
Definition set_reconnects (v : N) (w : Link) : Link := {|
  connection_state := connection_state w; connection_live := connection_live w; reconnects := v;
  wk_policy := wk_policy w; last_book_ts_us := last_book_ts_us w; last_trade_ts_us :=
  last_trade_ts_us w
|}.
Definition set_wk_policy (v : ReconnectPolicy) (w : Link) : Link := {|
  connection_state := connection_state w; connection_live := connection_live w; reconnects :=
  reconnects w; wk_policy := v; last_book_ts_us := last_book_ts_us w; last_trade_ts_us :=
  last_trade_ts_us w
|}.
Definition set_gap_open (v : option (Instant * N * GapCause)) (w : Coverage) : Coverage := {|
  gap_open := v; gap_ledger := gap_ledger w
|}.
Definition set_wk_sync (v : MarketSynchronizer) (w : Worker) : Worker := {|
  wk_sync := v; wk_out := wk_out w; wk_trades := wk_trades w; wk_link := wk_link w; wk_gaps :=
  wk_gaps w; wk_metrics := wk_metrics w; wk_feeds := wk_feeds w; total_events := total_events w;
  latency_us_ewma := latency_us_ewma w; paused := paused w; stopped := stopped w; wk_shutdown :=
  wk_shutdown w; drain_partial := drain_partial w; wk_phase := wk_phase w
|}.
Definition set_wk_out (v : Emission) (w : Worker) : Worker := {|
  wk_sync := wk_sync w; wk_out := v; wk_trades := wk_trades w; wk_link := wk_link w; wk_gaps :=
  wk_gaps w; wk_metrics := wk_metrics w; wk_feeds := wk_feeds w; total_events := total_events w;
  latency_us_ewma := latency_us_ewma w; paused := paused w; stopped := stopped w; wk_shutdown :=
  wk_shutdown w; drain_partial := drain_partial w; wk_phase := wk_phase w
|}.
Definition set_wk_trades (v : TradeMemory) (w : Worker) : Worker := {|
  wk_sync := wk_sync w; wk_out := wk_out w; wk_trades := v; wk_link := wk_link w; wk_gaps :=
  wk_gaps w; wk_metrics := wk_metrics w; wk_feeds := wk_feeds w; total_events := total_events w;
  latency_us_ewma := latency_us_ewma w; paused := paused w; stopped := stopped w; wk_shutdown :=
  wk_shutdown w; drain_partial := drain_partial w; wk_phase := wk_phase w
|}.
Definition set_wk_link (v : Link) (w : Worker) : Worker := {|
  wk_sync := wk_sync w; wk_out := wk_out w; wk_trades := wk_trades w; wk_link := v; wk_gaps :=
  wk_gaps w; wk_metrics := wk_metrics w; wk_feeds := wk_feeds w; total_events := total_events w;
  latency_us_ewma := latency_us_ewma w; paused := paused w; stopped := stopped w; wk_shutdown :=
  wk_shutdown w; drain_partial := drain_partial w; wk_phase := wk_phase w
|}.
Definition set_wk_gaps (v : Coverage) (w : Worker) : Worker := {|
  wk_sync := wk_sync w; wk_out := wk_out w; wk_trades := wk_trades w; wk_link := wk_link w;
  wk_gaps := v; wk_metrics := wk_metrics w; wk_feeds := wk_feeds w; total_events := total_events
  w; latency_us_ewma := latency_us_ewma w; paused := paused w; stopped := stopped w; wk_shutdown
  := wk_shutdown w; drain_partial := drain_partial w; wk_phase := wk_phase w
|}.
Definition set_wk_metrics (v : SourceMetrics) (w : Worker) : Worker := {|
  wk_sync := wk_sync w; wk_out := wk_out w; wk_trades := wk_trades w; wk_link := wk_link w;
  wk_gaps := wk_gaps w; wk_metrics := v; wk_feeds := wk_feeds w; total_events := total_events w;
  latency_us_ewma := latency_us_ewma w; paused := paused w; stopped := stopped w; wk_shutdown :=
  wk_shutdown w; drain_partial := drain_partial w; wk_phase := wk_phase w
|}.
Definition set_wk_feeds (v : FeedSet) (w : Worker) : Worker := {|
  wk_sync := wk_sync w; wk_out := wk_out w; wk_trades := wk_trades w; wk_link := wk_link w;
  wk_gaps := wk_gaps w; wk_metrics := wk_metrics w; wk_feeds := v; total_events := total_events
  w; latency_us_ewma := latency_us_ewma w; paused := paused w; stopped := stopped w; wk_shutdown
  := wk_shutdown w; drain_partial := drain_partial w; wk_phase := wk_phase w
|}.
Definition set_total_events (v : N) (w : Worker) : Worker := {|
  wk_sync := wk_sync w; wk_out := wk_out w; wk_trades := wk_trades w; wk_link := wk_link w;
  wk_gaps := wk_gaps w; wk_metrics := wk_metrics w; wk_feeds := wk_feeds w; total_events := v;
  latency_us_ewma := latency_us_ewma w; paused := paused w; stopped := stopped w; wk_shutdown :=
  wk_shutdown w; drain_partial := drain_partial w; wk_phase := wk_phase w
|}.
Definition set_latency_us_ewma (v : Q) (w : Worker) : Worker := {|
  wk_sync := wk_sync w; wk_out := wk_out w; wk_trades := wk_trades w; wk_link := wk_link w;
  wk_gaps := wk_gaps w; wk_metrics := wk_metrics w; wk_feeds := wk_feeds w; total_events :=
  total_events w; latency_us_ewma := v; paused := paused w; stopped := stopped w; wk_shutdown :=
  wk_shutdown w; drain_partial := drain_partial w; wk_phase := wk_phase w
|}.
Definition set_paused (v : bool) (w : Worker) : Worker := {|
  wk_sync := wk_sync w; wk_out := wk_out w; wk_trades := wk_trades w; wk_link := wk_link w;
  wk_gaps := wk_gaps w; wk_metrics := wk_metrics w; wk_feeds := wk_feeds w; total_events :=
  total_events w; latency_us_ewma := latency_us_ewma w; paused := v; stopped := stopped w;
  wk_shutdown := wk_shutdown w; drain_partial := drain_partial w; wk_phase := wk_phase w
|}.
Definition set_stopped (v : bool) (w : Worker) : Worker := {|
  wk_sync := wk_sync w; wk_out := wk_out w; wk_trades := wk_trades w; wk_link := wk_link w;
  wk_gaps := wk_gaps w; wk_metrics := wk_metrics w; wk_feeds := wk_feeds w; total_events :=
  total_events w; latency_us_ewma := latency_us_ewma w; paused := paused w; stopped := v;
  wk_shutdown := wk_shutdown w; drain_partial := drain_partial w; wk_phase := wk_phase w
|}.
Definition set_wk_shutdown (v : bool) (w : Worker) : Worker := {|
  wk_sync := wk_sync w; wk_out := wk_out w; wk_trades := wk_trades w; wk_link := wk_link w;
  wk_gaps := wk_gaps w; wk_metrics := wk_metrics w; wk_feeds := wk_feeds w; total_events :=
  total_events w; latency_us_ewma := latency_us_ewma w; paused := paused w; stopped := stopped
  w; wk_shutdown := v; drain_partial := drain_partial w; wk_phase := wk_phase w
|}.
Definition set_drain_partial (v : bool) (w : Worker) : Worker := {|
  wk_sync := wk_sync w; wk_out := wk_out w; wk_trades := wk_trades w; wk_link := wk_link w;
  wk_gaps := wk_gaps w; wk_metrics := wk_metrics w; wk_feeds := wk_feeds w; total_events :=
  total_events w; latency_us_ewma := latency_us_ewma w; paused := paused w; stopped := stopped
  w; wk_shutdown := wk_shutdown w; drain_partial := v; wk_phase := wk_phase w
|}.
Definition set_wk_phase (v : WorkerPhase) (w : Worker) : Worker := {|
  wk_sync := wk_sync w; wk_out := wk_out w; wk_trades := wk_trades w; wk_link := wk_link w;
  wk_gaps := wk_gaps w; wk_metrics := wk_metrics w; wk_feeds := wk_feeds w; total_events :=
  total_events w; latency_us_ewma := latency_us_ewma w; paused := paused w; stopped := stopped
  w; wk_shutdown := wk_shutdown w; drain_partial := drain_partial w; wk_phase := v
|}.

Definition update_metrics (f : SourceMetrics -> SourceMetrics) (w : Worker) : Worker :=
  set_wk_metrics (f (wk_metrics w)) w.
Definition on_link (f : Link -> Link) (w : Worker) : Worker := set_wk_link (f (wk_link w)) w.
Definition on_memory (f : TradeMemory -> TradeMemory) (w : Worker) : Worker :=
  set_wk_trades (f (wk_trades w)) w.

(** ** Emission *)

(** Rows ready in the synchronizer go to the sinks; a sink that refuses one is ignored. *)
Definition emit_all (rows : list MarketSnapshot) (e : Emission) : Emission := {|
  wk_sinks := wk_sinks e ++ (SinkEmit <$> rows);
  snapshots_produced := u64_add (snapshots_produced e) (N.of_nat (length rows));
  snapshots_since_flush := u64_add (snapshots_since_flush e) (N.of_nat (length rows));
  flushes := flushes e
|}.

Definition drain_and_emit (w : Worker) : Worker :=
  let '(sync, rows) := drain (wk_sync w) in
  set_wk_out (emit_all rows (wk_out w)) (set_wk_sync sync w).

Definition flushed (e : Emission) : Emission := {|
  wk_sinks := wk_sinks e ++ [SinkFlush]; snapshots_produced := snapshots_produced e;
  snapshots_since_flush := 0; flushes := u32_succ (flushes e)
|}.

(** A flush that fails ends the worker with its error. *)
Definition maybe_flush (cfg : WorkerConfig) (flush_ok : bool) (w : Worker) : Worker :=
  if (0 <? flush_threshold cfg)%nat &&
     (N.of_nat (flush_threshold cfg) <=? snapshots_since_flush (wk_out w))
  then
    if flush_ok then set_wk_out (flushed (wk_out w)) w else set_wk_phase WkFlushFailed w
  else w.

(** ** Gaps *)

Definition elapsed_us (since now : Instant) : N := (now - since) / 1000.
Definition older_than_60s (now t : Instant) : bool := 60 <? (now - t) / 1000000000.

Fixpoint prune_front (P : Instant -> bool) (ts : list Instant) : list Instant :=
  match ts with t :: ts' => if P t then prune_front P ts' else ts | [] => [] end.

Definition write_incident (cfg : WorkerConfig) (append_ok : bool) (i : GapIncident) (w : Worker)
    : Worker :=
  if has_ledger cfg then
    if append_ok then
      set_wk_gaps {| gap_open := gap_open (wk_gaps w); gap_ledger := gap_ledger (wk_gaps w) ++ [i] |} w
    else update_metrics bump_flush_failures w
  else w.

Definition incident (cfg : WorkerConfig) (opened closed window : N) (c : GapCause)
    (estimate : option N) : GapIncident := {|
  opened_epoch_us := opened; closed_epoch_us := closed; window_us := window; cause := c;
  incident_exchange := wc_exchange cfg; incident_symbol := wc_symbol cfg;
  possible_dropped_trades := estimate
|}.

Definition take_gap (w : Worker) : Worker := set_wk_gaps (set_gap_open None (wk_gaps w)) w.

(** The gap ends at the first event of the next connection. *)
Definition recover_gap (cfg : WorkerConfig) (now : Instant) (wall : N) (append_ok : bool)
    (w : Worker) : Worker :=
  match gap_open (wk_gaps w) with
  | None => w
  | Some (opened, opened_epoch, c) =>
    let w := take_gap w in
    let w := if reconcile_active cfg
             then on_memory (fun m => set_triggers (triggers m + 1) m) w else w in
    let window := elapsed_us opened now in
    let w := update_metrics (record_book_gap_incident window) w in
    if wk_metrics w C_trade_loss_confidence =? 0 then
      let w := on_memory (fun m =>
        set_recent_trades (prune_front (older_than_60s now) (recent_trades m)) m) w in
      let n := estimate_possible_dropped (length (recent_trades (wk_trades w))) window in
      let w := update_metrics (record_trade_suspicion window n) w in
      write_incident cfg append_ok (incident cfg opened_epoch wall window c (Some n)) w
    else write_incident cfg append_ok (incident cfg opened_epoch wall window c None) w
  end.

(** The gap still open when the worker stops. *)
Definition close_gap (cfg : WorkerConfig) (now : Instant) (wall : N) (append_ok : bool)
    (w : Worker) : Worker :=
  match gap_open (wk_gaps w) with
  | None => w
  | Some (opened, opened_epoch, c) =>
    let window := elapsed_us opened now in
    write_incident cfg append_ok (incident cfg opened_epoch wall window c None)
      (update_metrics (record_book_gap_incident window) (take_gap w))
  end.

Definition open_gap (resync : bool) (now : Instant) (wall : N) (w : Worker) : Worker :=
  match gap_open (wk_gaps w) with
  | Some _ => w
  | None =>
    set_wk_gaps (set_gap_open (Some (now, wall, if resync then GapResync else GapDisconnect))
                   (wk_gaps w)) w
  end.

(** ** Events of the runtime *)

(** [0.2 * sample + 0.8 * average], the first sample being the average. *)
Definition note_latency (wall ts_us : N) (w : Worker) : Worker :=
  let sample := inject_Z (Z.of_N (u64_saturating_sub wall ts_us)) in
  set_latency_us_ewma
    (if Qle_bool (latency_us_ewma w) 0 then sample
     else ((2 # 10) * sample + (8 # 10) * latency_us_ewma w)%Q) w.

Definition book_order_note (ts_us : N) (w : Worker) : Worker :=
  let '(regressed, last) := wire_ts_regressed (last_book_ts_us (wk_link w)) ts_us in
  let w := on_link (fun l => {|
    connection_state := connection_state l; connection_live := connection_live l;
    reconnects := reconnects l; wk_policy := wk_policy l; last_book_ts_us := last;
    last_trade_ts_us := last_trade_ts_us l |}) w in
  if regressed then update_metrics bump_out_of_order_frames w else w.

Definition trade_order_note (ts_us : N) (w : Worker) : Worker :=
  let '(regressed, last) := wire_ts_regressed (last_trade_ts_us (wk_link w)) ts_us in
  let w := on_link (fun l => {|
    connection_state := connection_state l; connection_live := connection_live l;
    reconnects := reconnects l; wk_policy := wk_policy l; last_book_ts_us := last_book_ts_us l;
    last_trade_ts_us := last |}) w in
  if regressed then update_metrics bump_out_of_order_frames w else w.

(** The replay window: [None] when the trade was seen before. *)
Definition admit_trade (t : Trade) (w : Worker) : option Worker :=
  match seen_trade_ids (wk_trades w), parse_u64 (trade_id t) with
  | Some seen, Some tid =>
    let '(seen, fresh) := seen_insert tid seen in
    if fresh then Some (on_memory (set_seen_trade_ids (Some seen)) w) else None
  | _, _ => Some w
  end.

(** Arrivals of the last minute, 4096 at most. *)
Fixpoint trim_arrivals (now : Instant) (fuel : nat) (ts : list Instant) : list Instant :=
  match fuel, ts with
  | S fuel, t :: ts' =>
    if older_than_60s now t || (4096 <? length ts)%nat then trim_arrivals now fuel ts' else ts
  | _, _ => ts
  end.

Definition note_arrival (now : Instant) (w : Worker) : Worker :=
  on_memory (fun m =>
    let ts := recent_trades m ++ [now] in
    set_recent_trades (trim_arrivals now (length ts) ts) m) w.

Definition push_recent (id : N) (ids : list N) : list N :=
  let ids := ids ++ [id] in if (2048 <? length ids)%nat then tail ids else ids.

(** The anchor of the reconciler. *)
Definition note_position (cfg : WorkerConfig) (t : Trade) (w : Worker) : Worker :=
  match reconcile_active cfg, parse_u64 (trade_id t) with
  | true, Some idn =>
    on_memory (fun m => {|
      seen_trade_ids := seen_trade_ids m;
      last_pos := <[trade_pair t := {| pos_id := idn; pos_ts_us := source_trade_ts_us t |}]> (last_pos m);
      recent_ids := push_recent idn (recent_ids m);
      recent_trades := recent_trades m; triggers := triggers m |}) w
  | _, _ => w
  end.

Definition feed_sync (f : MarketSynchronizer -> MarketSynchronizer) (w : Worker) : Worker :=
  set_wk_sync (f (wk_sync w)) w.

Definition on_book_event (wall : N) (p : TradingPair) (ts_us : N) (b : Orderbook) (w : Worker)
    : Worker :=
  let w := if 0 <? ts_us then note_latency wall ts_us (book_order_note ts_us w) else w in
  feed_sync (fun s => fst (on_orderbook p ts_us b s)) w.

(** [None]: a replayed trade, dropped. *)
Definition on_trade_event (cfg : WorkerConfig) (now : Instant) (wall : N) (t : Trade) (w : Worker)
    : option Worker :=
  w ← admit_trade t w;
  let ts := source_trade_ts_us t in
  let w := if 0 <? ts then note_latency wall ts (trade_order_note ts w) else w in
  Some (feed_sync (fun s => fst (on_trade t s)) (note_position cfg t (note_arrival now w))).

(** The event given to the synchronizer; [None] when nothing is. *)
Definition dispatch (cfg : WorkerConfig) (now : Instant) (wall : N) (ev : ReconstructedEvent)
    (w : Worker) : option Worker :=
  match ev with
  | EvBook p ts_us b => Some (on_book_event wall p ts_us b w)
  | EvFundingRate fr => Some (feed_sync (on_funding fr) w)
  | EvOpenInterest oi => Some (feed_sync (on_open_interest oi) w)
  | EvFundingSettlement fs => Some (feed_sync (on_funding_settlement fs) w)
  | EvTrade t => on_trade_event cfg now wall t w
  end.

(** The first event of a connection proves the link. *)
Definition confirm_link (cfg : WorkerConfig) (now : Instant) (wall : N) (append_ok : bool)
    (w : Worker) : Worker :=
  if connection_live (wk_link w) then w
  else recover_gap cfg now wall append_ok
    (on_link (fun l => set_connection_live true (set_wk_policy (on_connected (wk_policy l)) l)) w).

Definition on_event (cfg : WorkerConfig) (now : Instant) (wall : N) (append_ok flush_ok : bool)
    (ev : ReconstructedEvent) (w : Worker) : Worker :=
  let w := set_total_events (u64_add (total_events w) 1) w in
  let w := on_link (set_connection_state Streaming) w in
  let w := confirm_link cfg now wall append_ok w in
  let w := on_link (fun l => set_wk_policy (on_message_received (wk_policy l)) l) w in
  if paused w then w
  else
    match dispatch cfg now wall ev w with
    | None => update_metrics bump_replay_duplicates w
    | Some w =>
      if wc_external_clock cfg then w else maybe_flush cfg flush_ok (drain_and_emit w)
    end.

(** ** Ticks, recovered trades, commands *)

Definition on_tick (cfg : WorkerConfig) (wall : N) (flush_ok : bool) (w : Worker) : Worker :=
  if paused w then w
  else maybe_flush cfg flush_ok (drain_and_emit (feed_sync (fun s => fst (on_time wall s)) w)).

Definition as_rest (t : Trade) : Trade := {|
  source_trade_ts_us := source_trade_ts_us t; local_trade_ts_us := local_trade_ts_us t;
  source_trade_rtt_us := source_trade_rtt_us t; trade_pair := trade_pair t;
  trade_side := trade_side t; trade_amount := trade_amount t; trade_price := trade_price t;
  trade_exchange := trade_exchange t; trade_id := trade_id t; trade_origin := Rest
|}.

(** [e.entry(pair).or_default()], raised to a newer id. *)
Definition raise_pos (p : TradingPair) (idn ts_us : N) (m : gmap TradingPair TradePos)
    : gmap TradingPair TradePos :=
  let e := default {| pos_id := 0; pos_ts_us := 0 |} (m !! p) in
  <[p := if pos_id e <? idn then {| pos_id := idn; pos_ts_us := ts_us |} else e]> m.

Definition on_recovered (t : Trade) (w : Worker) : Worker :=
  if paused w then w
  else
    let idn := default 0 (parse_u64 (trade_id t)) in
    if negb (idn =? 0) && bool_decide (idn ∈ recent_ids (wk_trades w)) then w
    else
      let w := if idn =? 0 then w else
        on_memory (fun m => {|
          seen_trade_ids := seen_trade_ids m;
          last_pos := raise_pos (trade_pair t) idn (source_trade_ts_us t) (last_pos m);
          recent_ids := push_recent idn (recent_ids m);
          recent_trades := recent_trades m; triggers := triggers m |}) w in
      feed_sync (fun s => fst (on_trade (as_rest t) s)) (update_metrics (add_trades_recovered 1) w).

Definition on_command (c : WorkerCommand) (w : Worker) : Worker :=
  match c with
  | CmdPause => on_link (set_connection_state Paused) (set_paused true w)
  | CmdResume => on_link (set_connection_state Streaming) (set_paused false w)
  | CmdStop | CmdRestart => set_wk_phase WkJoining (set_stopped true w)
  end.

(** ** From one connection to the next *)

Definition connect (w : Worker) : Worker :=
  set_wk_phase WkRunning (set_wk_feeds (mark_all_subscribing (wk_feeds w))
    (on_link (fun l => {|
      connection_state := match connection_state l with Reconnecting n => Reconnecting n | _ => Connecting end;
      connection_live := false; reconnects := reconnects l; wk_policy := wk_policy l;
      last_book_ts_us := 0; last_trade_ts_us := 0 |}) w)).

(** The end of the worker: the open gap is recorded, the rows left are emitted, the sinks are
    flushed and the feeds closed. *)
Definition finish_worker (cfg : WorkerConfig) (now : Instant) (wall : N) (append_ok flush_ok : bool)
    (w : Worker) : Worker :=
  let w := close_gap cfg now wall append_ok w in
  let w := set_wk_feeds (mark_all_draining (wk_feeds w)) w in
  let w := drain_and_emit (feed_sync finalize w) in
  if flush_ok then
    let w := set_wk_out {| wk_sinks := wk_sinks (wk_out w) ++ [SinkFlush];
                           snapshots_produced := snapshots_produced (wk_out w);
                           snapshots_since_flush := snapshots_since_flush (wk_out w);
                           flushes := u32_succ (flushes (wk_out w)) |} w in
    let w := set_wk_feeds (mark_all_closed (drain_partial w) (wk_feeds w)) w in
    set_wk_phase WkDone (on_link (set_connection_state Disconnected) w)
  else set_wk_phase WkFlushFailed w.

(** The head of the outer loop. *)
Definition next_connection (cfg : WorkerConfig) (now : Instant) (wall : N) (append_ok flush_ok : bool)
    (w : Worker) : Worker :=
  if stopped w || wk_shutdown w then finish_worker cfg now wall append_ok flush_ok w else connect w.

Definition policy_reason (exit : TaskExit) : DisconnectReason :=
  match exit with
  | TaskFailed reason => reason
  | Completed | DrainTimedOut | Exhausted => CleanClose
  end.

Definition is_protocol_rejection (r : DisconnectReason) : bool :=
  match r with ProtocolRejection _ _ => true | _ => false end.

Definition on_give_up (r : DisconnectReason) (why : string) (w : Worker) : Worker :=
  set_stopped true (set_wk_feeds
    (if is_protocol_rejection r then mark_all_rejected why (wk_feeds w)
     else mark_all_failed why (wk_feeds w))
    (on_link (set_connection_state Disconnected) w)).

Definition note_reconnect (w : Worker) : Worker :=
  let n := u32_succ (reconnects (wk_link w)) in
  let w := update_metrics bump_reconnects (on_link (set_reconnects n) w) in
  set_wk_feeds (mark_all_reconnecting (wk_feeds w))
    (on_link (set_connection_state (Reconnecting n)) w).

(** What the policy decided. *)
Definition follow_action (cfg : WorkerConfig) (r : DisconnectReason) (action : ReconnectAction)
    (now' : Instant) (wall : N) (append_ok flush_ok : bool) (w : Worker) : Worker :=
  match action with
  | RetryImmediately => next_connection cfg now' wall append_ok flush_ok w
  | RetryAfter d => set_wk_phase (WkWaiting (now' + d)) w
  | CircuitOpen until => set_wk_phase (WkWaiting until) w
  | GiveUp why => finish_worker cfg now' wall append_ok flush_ok (on_give_up r why w)
  end.

(** An unexpected end: the gap opens and the policy is asked. *)
Definition on_loss (cfg : WorkerConfig) (r : DisconnectReason) (outcome : RuntimeOutcome)
    (now : Instant) (wall : N) (now' : Instant) (draw : Q) (append_ok flush_ok : bool) (w : Worker)
    : Worker :=
  let resync := match outcome with ResyncRequired => true | Finished => false end in
  let w := note_reconnect (open_gap resync now wall w) in
  match next_action r now' draw (wk_policy (wk_link w)) with
  | None => set_wk_phase WkPanicked w
  | Some (p, action) =>
    follow_action cfg r action now' wall append_ok flush_ok (on_link (set_wk_policy p) w)
  end.

(** The tasks of the connection are joined.  [now'] is read by the policy. *)
Definition on_joined (cfg : WorkerConfig) (exit : TaskExit) (outcome : RuntimeOutcome)
    (now : Instant) (wall : N) (now' : Instant) (draw : Q) (append_ok flush_ok : bool) (w : Worker)
    : Worker :=
  match exit with
  | Exhausted => finish_worker cfg now wall append_ok flush_ok (update_metrics mark_source_exhausted w)
  | _ =>
    if stopped w || wk_shutdown w then
      finish_worker cfg now wall append_ok flush_ok
        (set_drain_partial (match exit with DrainTimedOut => true | _ => false end) w)
    else on_loss cfg (policy_reason exit) outcome now wall now' draw append_ok flush_ok w
  end.

(** ** The worker as a whole *)

Inductive WorkerInput :=
| WkEvent (now : Instant) (wall : N) (append_ok flush_ok : bool) (ev : ReconstructedEvent)
| WkTick (wall : N) (flush_ok : bool)
| WkRecovered (t : Trade)
| WkCommand (c : WorkerCommand)
| WkSignal (value : bool)
| WkRuntimeEnded
| WkJoined (exit : TaskExit) (outcome : RuntimeOutcome) (now : Instant) (wall : N)
    (now' : Instant) (draw : Q) (append_ok flush_ok : bool)
| WkWaited (now : Instant) (wall : N) (append_ok flush_ok : bool)
| WkSource (c : Counter) (v : N)
| WkFeed (op : FeedOp).

(** The counters the worker itself writes; the tasks of the connection write the others. *)
Definition worker_owned (c : Counter) : bool :=
  match c with
  | C_book_gap_incidents | C_book_gap_window_us | C_reconnects | C_replay_duplicates
  | C_out_of_order_frames | C_trades_recovered | C_source_exhausted => true
  | _ => false
  end.

(** The marks the runtime sets. *)
Definition runtime_mark (op : FeedOp) : bool :=
  match op with MarkLive _ _ | MarkStale _ _ | MarkResubscribing _ _ => true | _ => false end.

Definition worker_enabled (cfg : WorkerConfig) (i : WorkerInput) (w : Worker) : bool :=
  match i, wk_phase w with
  | WkEvent _ _ _ _ _, WkRunning | WkRecovered _, WkRunning | WkCommand _, WkRunning
  | WkRuntimeEnded, WkRunning => true
  | WkTick _ _, WkRunning => wc_external_clock cfg
  | WkJoined _ _ _ _ _ _ _ _, WkJoining => true
  | WkWaited now _ _ _, WkWaiting until => until <=? now
  | WkSignal _, (WkRunning | WkJoining | WkWaiting _) => true
  | WkSource c _, _ => negb (worker_owned c)
  | WkFeed op, (WkRunning | WkJoining) => runtime_mark op
  | _, _ => false
  end.

Definition worker_step (cfg : WorkerConfig) (i : WorkerInput) (w : Worker) : Worker :=
  match i with
  | WkEvent now wall append_ok flush_ok ev => on_event cfg now wall append_ok flush_ok ev w
  | WkTick wall flush_ok => on_tick cfg wall flush_ok w
  | WkRecovered t => on_recovered t w
  | WkCommand c => on_command c w
  | WkSignal value =>
    let w := set_wk_shutdown value w in
    match wk_phase w with
    | WkRunning => if value then set_wk_phase WkJoining (set_stopped true w) else w
    | WkWaiting _ => set_wk_phase (WkWaiting 0) w (* any change of the signal ends the wait *)
    | _ => w
    end
  | WkRuntimeEnded => set_wk_phase WkJoining w
  | WkJoined exit outcome now wall now' draw append_ok flush_ok =>
    on_joined cfg exit outcome now wall now' draw append_ok flush_ok w
  | WkWaited now wall append_ok flush_ok => next_connection cfg now wall append_ok flush_ok w
  | WkSource c v => update_metrics (store c v) w
  | WkFeed op => set_wk_feeds (feed_op op (wk_feeds w)) w
  end.

Fixpoint worker_run (cfg : WorkerConfig) (ins : list WorkerInput) (w : Worker) : option Worker :=
  match ins with
  | [] => Some w
  | i :: ins => if worker_enabled cfg i w then worker_run cfg ins (worker_step cfg i w) else None
  end.

Definition worker_new (sync : MarketSynchronizer) (p : ReconnectPolicy) (feeds : FeedSet)
    (replays_trades : bool) : Worker := {|
  wk_sync := sync;
  wk_out := {| wk_sinks := []; snapshots_produced := 0; snapshots_since_flush := 0; flushes := 0 |};
  wk_trades := {|
    seen_trade_ids := if replays_trades then Some (seen_with_capacity REPLAY_DEDUP_CAPACITY) else None;
    last_pos := ∅; recent_ids := []; recent_trades := []; triggers := 0 |};
  wk_link := {| connection_state := Connecting; connection_live := false; reconnects := 0;
                wk_policy := p; last_book_ts_us := 0; last_trade_ts_us := 0 |};
  wk_gaps := {| gap_open := None; gap_ledger := [] |};
  wk_metrics := SourceMetrics_default; wk_feeds := feeds; total_events := 0;
  latency_us_ewma := 0; paused := false; stopped := false; wk_shutdown := false;
  drain_partial := false; wk_phase := WkRunning
|}.

(** The worker enters its loop, or ends at once when the shutdown came first. *)
Definition worker_start (cfg : WorkerConfig) (sync : MarketSynchronizer) (p : ReconnectPolicy)
    (feeds : FeedSet) (replays_trades shutdown : bool) (now : Instant) (wall : N)
    (append_ok flush_ok : bool) : Worker :=
  next_connection cfg now wall append_ok flush_ok
    (set_wk_shutdown shutdown (worker_new sync p feeds replays_trades)).
End Worker.
