(* ===== verification/WorkerProps.v ===== *)
(** * Properties of the market worker

    The rows of a worker are those of its synchronizer, driven by the events the worker
    admits; what reaches the sinks is flushed in time; the ledger records every gap in the
    coverage; the window against replays is exact; and the worker stops only when asked,
    when the source is exhausted, or on a rejection before any data. *)
From Stdlib Require Import QArith Ascii String Sorted.
From stdpp Require Import gmap strings.
From S2P Require Import Prelude Budget BTree Strings Numeric Pairs Types Delta Checksum Book Model Feed Runtime Snapshots MarketSync MarketSyncProps Disconnect Reconnect Transport Drive Worker.
Local Open Scope N_scope.

(** ** The window of trade ids *)

(** The last [n] elements. *)
Definition lastn {A} (n : nat) (l : list A) : list A := drop (length l - n) l.

(** The reference: an id is fresh when it is not among the last [cap] fresh ones. *)
Fixpoint fresh_spec (cap : nat) (accepted : list N) (ids : list N) : list bool :=
  match ids with
  | [] => []
  | id :: ids =>
    if bool_decide (id ∈ lastn cap accepted) then false :: fresh_spec cap accepted ids
    else true :: fresh_spec cap (accepted ++ [id]) ids
  end.

Fixpoint seen_run (ids : list N) (s : SeenTradeIds) : list bool :=
  match ids with
  | [] => []
  | id :: ids => let '(s, fresh) := seen_insert id s in fresh :: seen_run ids s
  end.

Record seen_ok (accepted : list N) (s : SeenTradeIds) : Prop := {
  so_order : seen_order s = lastn (seen_capacity s) accepted;
  so_nodup : NoDup (seen_order s);
  so_ids : forall id, id ∈ seen_ids s <-> id ∈ seen_order s
}.

Lemma tail_drop {A} n (l : list A) : tail (drop n l) = drop (S n) l.
Proof. revert l. induction n as [|n IH]; intros [|x l]; simpl; rewrite ?IH; done. Qed.

Lemma lastn_snoc {A} n (l : list A) x :
  lastn n (l ++ [x]) = let l' := lastn n l ++ [x] in if (n <? length l')%nat then tail l' else l'.
Proof.
  unfold lastn. cbv zeta. rewrite !length_app, length_drop. simpl.
  rewrite <-(drop_app_le l [x]) by lia.
  destruct (Nat.ltb_spec n (length l - (length l - n) + 1)) as [H|H].
  - rewrite tail_drop. f_equal. lia.
  - f_equal. lia.
Qed.

Lemma seen_insert_ok accepted s id :
  seen_ok accepted s ->
  let '(s', fresh) := seen_insert id s in
  seen_capacity s' = seen_capacity s /\
  fresh = negb (bool_decide (id ∈ lastn (seen_capacity s) accepted)) /\
  seen_ok (if fresh then accepted ++ [id] else accepted) s'.
Proof.
  intros [Ho Hn Hi]. unfold seen_insert. rewrite <-Ho.
  destruct (bool_decide (id ∈ seen_ids s)) eqn:Eb.
  { apply bool_decide_eq_true in Eb. rewrite bool_decide_true by (by apply Hi). done. }
  apply bool_decide_eq_false in Eb. rewrite Hi in Eb. rewrite bool_decide_false by done.
  assert (Hn' : NoDup (seen_order s ++ [id])).
  { apply NoDup_app. split_and!; [done| |apply NoDup_singleton]. set_solver. }
  assert (Hi' : forall x, x ∈ {[id]} ∪ seen_ids s <-> x ∈ seen_order s ++ [id])
    by (intros x; specialize (Hi x); set_solver).
  pose proof (lastn_snoc (seen_capacity s) accepted id) as Hl. rewrite <-Ho in Hl.
  cbv zeta in Hl |- *.
  destruct (seen_capacity s <? length (seen_order s ++ [id]))%nat.
  - destruct (seen_order s ++ [id]) as [|e order] eqn:Eo; [by destruct (seen_order s)|].
    simpl in Hl. apply NoDup_cons in Hn' as [Hne Hn']. split_and!; [done..|].
    split; simpl; [done|done|]. intros x. specialize (Hi' x). set_solver.
  - split_and!; [done..|]. by split.
Qed.

(** The window against replayed trades.  Over any sequence of trade ids, however long,
    the window answers exactly as the reference that remembers every fresh id in order and
    calls an id fresh when it is not among the last [capacity] of them: no repeat within the
    window passes, and nothing else is dropped. *)
Theorem seen_window cap ids :
  seen_run ids (seen_with_capacity cap) = fresh_spec cap [] ids.
Proof.
  assert (H : forall accepted s, seen_ok accepted s -> seen_capacity s = cap ->
    seen_run ids s = fresh_spec cap accepted ids).
  { induction ids as [|id ids IH]; intros accepted s Hs Hc; [done|]. simpl.
    pose proof (seen_insert_ok accepted s id Hs) as Hi. rewrite Hc in Hi.
    destruct (seen_insert id s) as [s' fresh]. destruct Hi as (Hc' & Hf & Hs').
    destruct (bool_decide (id ∈ lastn cap accepted)); subst fresh; simpl in *;
      (f_equal; apply IH; [done|congruence]). }
  apply H; [|done]. split; simpl; [by unfold lastn|constructor|set_solver].
Qed.

(** ** The rows of a worker *)

Section WorkerProps.
Context {NU : Numeric} {UU : Uuid}.

(** The row of a sink operation. *)
Definition sink_row (o : SinkOp) : option MarketSnapshot :=
  match o with SinkEmit r => Some r | SinkFlush => None end.

Definition emitted (w : Worker) : list MarketSnapshot := omap sink_row (wk_sinks (wk_out w)).

(** The rows emitted since the last flush. *)
Fixpoint unflushed (acc : nat) (ops : list SinkOp) : nat :=
  match ops with
  | [] => acc
  | SinkEmit _ :: ops => unflushed (S acc) ops
  | SinkFlush :: ops => unflushed 0 ops
  end.

(** The synchronizer operation of a reconstructed event. *)
Definition event_op (ev : ReconstructedEvent) : SyncOp :=
  match ev with
  | EvBook p ts b => OpBook p ts b
  | EvTrade t => OpTrade t
  | EvFundingRate fr => OpFunding fr
  | EvOpenInterest oi => OpOpenInterest oi
  | EvFundingSettlement fs => OpSettlement fs
  end.

(** A trade already in the window against replays. *)
Definition replayed_trade (ev : ReconstructedEvent) (w : Worker) : bool :=
  match ev, seen_trade_ids (wk_trades w) with
  | EvTrade t, Some seen =>
    match parse_u64 (trade_id t) with Some tid => bool_decide (tid ∈ seen_ids seen) | None => false end
  | _, _ => false
  end.

Definition known_recovered (t : Trade) (w : Worker) : bool :=
  let idn := default 0 (parse_u64 (trade_id t)) in
  negb (idn =? 0) && bool_decide (idn ∈ recent_ids (wk_trades w)).

Definition is_over (ph : WorkerPhase) : bool :=
  match ph with WkDone | WkFlushFailed => true | _ => false end.

(** What an input makes of the synchronizer: the events admitted while the worker is not
    paused, each followed by a drain unless a clock drains, and the finalization. *)
Definition input_ops (cfg : WorkerConfig) (i : WorkerInput) (w : Worker) : list SyncOp :=
  match i with
  | WkEvent _ _ _ _ ev =>
    if paused w || replayed_trade ev w then []
    else event_op ev :: (if wc_external_clock cfg then [] else [OpDrain])
  | WkTick wall _ => if paused w then [] else [OpTime wall; OpDrain]
  | WkRecovered t => if paused w || known_recovered t w then [] else [OpTrade (as_rest t)]
  | WkJoined _ _ _ _ _ _ _ _ | WkWaited _ _ _ _ =>
    if is_over (wk_phase (worker_step cfg i w)) then [OpFinalize; OpDrain] else []
  | _ => []
  end.

Fixpoint worker_ops (cfg : WorkerConfig) (ins : list WorkerInput) (w : Worker) : list SyncOp :=
  match ins with
  | [] => []
  | i :: ins => input_ops cfg i w ++ worker_ops cfg ins (worker_step cfg i w)
  end.

(** The synchronizer and the rows it has given up. *)
Definition sync_view (w : Worker) : MarketSynchronizer * list MarketSnapshot :=
  (wk_sync w, emitted w).

(** Steps that touch neither. *)
Definition same_rows (w w' : Worker) : Prop := wk_sync w' = wk_sync w /\ wk_out w' = wk_out w.

#[export] Instance same_rows_preorder : PreOrder same_rows.
Proof. split; [done|]. unfold same_rows. intros x y z [] []. split; congruence. Qed.

Lemma same_rows_view w w' : same_rows w w' -> sync_view w' = sync_view w.
Proof. intros [H1 H2]. unfold sync_view, emitted. by rewrite H1, H2. Qed.

Lemma write_incident_rows cfg ok i w : same_rows w (write_incident cfg ok i w).
Proof. unfold write_incident. by repeat case_match. Qed.

Lemma recover_gap_rows cfg now wall ok w : same_rows w (recover_gap cfg now wall ok w).
Proof.
  unfold recover_gap. destruct (gap_open _) as [[[opened epoch] c]|]; [|done].
  cbv zeta. case_match; (etrans; [|apply write_incident_rows]); by destruct (reconcile_active cfg).
Qed.

Lemma close_gap_rows cfg now wall ok w : same_rows w (close_gap cfg now wall ok w).
Proof.
  unfold close_gap. destruct (gap_open _) as [[[opened epoch] c]|]; [|done].
  cbv zeta. etrans; [|apply write_incident_rows]. done.
Qed.

Lemma confirm_link_rows cfg now wall ok w : same_rows w (confirm_link cfg now wall ok w).
Proof.
  unfold confirm_link. destruct (connection_live _); [done|]. etrans; [|apply recover_gap_rows]. done.
Qed.

(** Emission and flushing. *)
Lemma emit_rows_of (rows : list MarketSnapshot) : omap sink_row (SinkEmit <$> rows) = rows.
Proof. induction rows as [|r rows IH]; [done|]. cbn. f_equal. exact IH. Qed.

Lemma drain_view w : sync_view (drain_and_emit w) = sync_step (sync_view w) OpDrain.
Proof.
  unfold drain_and_emit, sync_view, emitted. simpl. by rewrite omap_app, emit_rows_of.
Qed.

Lemma maybe_flush_view cfg ok w : sync_view (maybe_flush cfg ok w) = sync_view w.
Proof.
  unfold maybe_flush. repeat case_match; try done.
  unfold sync_view, emitted. simpl. by rewrite omap_app, app_nil_r.
Qed.

Lemma seen_insert_fresh id s : (seen_insert id s).2 = negb (bool_decide (id ∈ seen_ids s)).
Proof. unfold seen_insert. by repeat case_match. Qed.

Lemma write_incident_keeps cfg ok i w :
  paused (write_incident cfg ok i w) = paused w /\ wk_trades (write_incident cfg ok i w) = wk_trades w.
Proof. unfold write_incident. by repeat case_match. Qed.

Lemma confirm_link_keeps cfg now wall ok w :
  paused (confirm_link cfg now wall ok w) = paused w /\
  seen_trade_ids (wk_trades (confirm_link cfg now wall ok w)) = seen_trade_ids (wk_trades w).
Proof.
  unfold confirm_link, recover_gap. destruct (connection_live _); [done|]. simpl.
  destruct (gap_open _) as [[[opened epoch] c]|]; [|done]. cbv zeta.
  case_match; match goal with |- context [write_incident ?a ?b ?c ?d] =>
    destruct (write_incident_keeps a b c d) as [-> ->] end; by destruct (reconcile_active cfg).
Qed.

(** An admitted event reaches the synchronizer as its operation. *)
Lemma dispatch_view cfg now wall ev w :
  match dispatch cfg now wall ev w with
  | Some w' => replayed_trade ev w = false /\ sync_view w' = sync_step (sync_view w) (event_op ev)
  | None => replayed_trade ev w = true
  end.
Proof.
  destruct ev as [p ts b|t|fr|oi|fs]; simpl; try done.
  - split; [done|]. unfold on_book_event, sync_view, emitted. cbv zeta.
    destruct (0 <? ts); [|done]. unfold book_order_note.
    by destruct (wire_ts_regressed _ _) as [[] ?].
  - unfold on_trade_event, admit_trade.
    assert (Hv : forall w', same_rows w w' -> sync_view
      (feed_sync (λ s : MarketSynchronizer, (on_trade t s).1)
        (note_position cfg t (note_arrival now
          (if 0 <? source_trade_ts_us t
           then note_latency wall (source_trade_ts_us t) (trade_order_note (source_trade_ts_us t) w')
           else w')))) = sync_step (sync_view w) (OpTrade t)).
    { intros w' [H1 H2]. unfold sync_view, emitted, note_position. cbv zeta.
      assert (Hn : same_rows w (if 0 <? source_trade_ts_us t
           then note_latency wall (source_trade_ts_us t) (trade_order_note (source_trade_ts_us t) w')
           else w')).
      { destruct (0 <? _); [|done]. unfold trade_order_note.
        by destruct (wire_ts_regressed _ _) as [[] ?]. }
      destruct Hn as [H3 H4]. destruct (reconcile_active cfg); [destruct (parse_u64 _)|];
        simpl; by rewrite H3, H4. }
    destruct (seen_trade_ids (wk_trades w)) as [seen|]; simpl; [|by split; [|apply Hv]].
    destruct (parse_u64 (trade_id t)) as [tid|]; simpl; [|by split; [|apply Hv]].
    pose proof (seen_insert_fresh tid seen) as Hf.
    destruct (seen_insert tid seen) as [seen' fresh]. simpl in Hf.
    destruct fresh; simpl; [|by destruct (bool_decide _)].
    split; [by destruct (bool_decide _)|]. by apply Hv.
Qed.

Lemma on_event_view cfg now wall ok fok ev w :
  sync_view (on_event cfg now wall ok fok ev w) =
  fold_left sync_step (input_ops cfg (WkEvent now wall ok fok ev) w) (sync_view w).
Proof.
  unfold on_event. cbv zeta. simpl input_ops.
  set (w0 := on_link (set_connection_state Streaming) _).
  set (w1 := confirm_link cfg now wall ok w0).
  destruct (confirm_link_keeps cfg now wall ok w0) as [Hp0 Hs0].
  assert (H1 : same_rows w w1 /\ paused w1 = paused w /\ seen_trade_ids (wk_trades w1) = seen_trade_ids (wk_trades w))
    by (split; [etrans; [|apply confirm_link_rows]; done|split; [exact Hp0|exact Hs0]]).
  clear Hp0 Hs0.
  destruct H1 as (Hr & Hp & Hs). generalize dependent w1. intros w1 Hr Hp Hs.
  set (w2 := on_link _ w1). assert (Hv2 : sync_view w2 = sync_view w) by (by apply same_rows_view).
  replace (paused w2) with (paused w) by (by rewrite <-Hp). destruct (paused w); [done|].
  pose proof (dispatch_view cfg now wall ev w2) as Hd.
  assert (Hrt : replayed_trade ev w2 = replayed_trade ev w)
    by (unfold replayed_trade, w2; simpl; by rewrite Hs).
  rewrite Hrt in Hd. simpl orb.
  destruct (dispatch cfg now wall ev w2) as [w3|]; [|by rewrite Hd].
  destruct Hd as [-> Hd]. destruct (wc_external_clock cfg); simpl.
  - by rewrite Hd, Hv2.
  - by rewrite maybe_flush_view, drain_view, Hd, Hv2.
Qed.

Lemma feed_sync_view f w : sync_view (feed_sync f w) = (f (sync_view w).1, (sync_view w).2).
Proof. done. Qed.

(** A step that ends the worker finalizes the synchronizer and drains it; another leaves
    the rows alone. *)
Definition ends_rows (w w' : Worker) : Prop :=
  sync_view w' =
  fold_left sync_step (if is_over (wk_phase w') then [OpFinalize; OpDrain] else []) (sync_view w).

Lemma ends_rows_from w w1 w' : sync_view w1 = sync_view w -> ends_rows w1 w' -> ends_rows w w'.
Proof. unfold ends_rows. by intros ->. Qed.

Lemma finish_view cfg now wall ok fok w :
  ends_rows w (finish_worker cfg now wall ok fok w) /\ is_over (wk_phase (finish_worker cfg now wall ok fok w)) = true.
Proof.
  unfold ends_rows, finish_worker. cbv zeta. set (w1 := close_gap cfg now wall ok w).
  assert (Hv : sync_view w1 = sync_view w) by apply same_rows_view, close_gap_rows.
  set (w2 := drain_and_emit _).
  assert (Hd : sync_view w2 = fold_left sync_step [OpFinalize; OpDrain] (sync_view w)).
  { unfold w2. rewrite drain_view, feed_sync_view.
    change (sync_view (set_wk_feeds (mark_all_draining (wk_feeds w1)) w1)) with (sync_view w1).
    by rewrite Hv. }
  clearbody w1 w2. destruct fok; (split; [|done]); (etrans; [|exact Hd]); [|done].
  unfold sync_view, emitted. simpl. by rewrite omap_app, app_nil_r.
Qed.

Lemma next_connection_view cfg now wall ok fok w :
  ends_rows w (next_connection cfg now wall ok fok w).
Proof. unfold next_connection. destruct (stopped w || wk_shutdown w); [apply finish_view|done]. Qed.

Lemma follow_action_view cfg r a now' wall ok fok w :
  ends_rows w (follow_action cfg r a now' wall ok fok w).
Proof.
  destruct a; simpl; try done; [apply next_connection_view|].
  eapply ends_rows_from; [|apply finish_view]. done.
Qed.

Lemma on_joined_view cfg exit outcome now wall now' draw ok fok w :
  ends_rows w (on_joined cfg exit outcome now wall now' draw ok fok w).
Proof.
  assert (Hl : forall r, ends_rows w (on_loss cfg r outcome now wall now' draw ok fok w)).
  { intros r. unfold on_loss. cbv zeta. set (w1 := note_reconnect _).
    assert (H1 : sync_view w1 = sync_view w).
    { apply same_rows_view. unfold w1, open_gap. by destruct (gap_open _). }
    clearbody w1. destruct (next_action _ _ _ _) as [[p a]|]; [|done].
    eapply ends_rows_from; [|apply follow_action_view]. done. }
  unfold on_joined. destruct exit; try (destruct (stopped w || wk_shutdown w)); try apply Hl;
    (eapply ends_rows_from; [|apply finish_view]; done).
Qed.

Lemma on_recovered_view t w :
  sync_view (on_recovered t w) =
  fold_left sync_step (if paused w || known_recovered t w then [] else [OpTrade (as_rest t)]) (sync_view w).
Proof.
  unfold on_recovered, known_recovered. destruct (paused w); [done|]. cbv zeta. simpl orb.
  destruct (_ && _); [done|]. by destruct (_ =? 0).
Qed.

Lemma worker_step_view cfg i w :
  sync_view (worker_step cfg i w) = sync_run (input_ops cfg i w) (sync_view w).
Proof.
  unfold sync_run.
  destruct i as [now wall ok fok ev|wall fok|t|c|value| |exit outcome now wall now' draw ok fok|now wall ok fok|c v|op].
  - apply on_event_view.
  - simpl. unfold on_tick. destruct (paused w); [done|]. by rewrite maybe_flush_view, drain_view.
  - apply on_recovered_view.
  - by destruct c.
  - simpl. unfold set_wk_shutdown. simpl. destruct (wk_phase w); try done. by destruct value.
  - done.
  - apply on_joined_view.
  - apply next_connection_view.
  - done.
  - done.
Qed.

Lemma worker_run_view cfg ins w w' :
  worker_run cfg ins w = Some w' -> sync_view w' = sync_run (worker_ops cfg ins w) (sync_view w).
Proof.
  revert w. induction ins as [|i ins IH]; intros w E; simpl in E; [by simplify_eq|].
  destruct (worker_enabled cfg i w); [|done]. rewrite (IH _ E), worker_step_view. simpl.
  unfold sync_run. by rewrite fold_left_app.
Qed.

(** ** Counting the rows *)

Definition rows_in (ops : list SinkOp) : nat := length (omap sink_row ops).

Definition em_ok (e : Emission) : Prop :=
  snapshots_produced e = N.of_nat (rows_in (wk_sinks e)) mod u64_modulus /\
  snapshots_since_flush e = N.of_nat (unflushed 0 (wk_sinks e)) mod u64_modulus.

(** Below the threshold, unless there is none. *)
Definition below_threshold (cfg : WorkerConfig) (e : Emission) : Prop :=
  (0 < flush_threshold cfg)%nat -> snapshots_since_flush e < N.of_nat (flush_threshold cfg).

Lemma unflushed_app acc ops ops' : unflushed acc (ops ++ ops') = unflushed (unflushed acc ops) ops'.
Proof. revert acc. induction ops as [|[r|] ops IH]; intros acc; simpl; auto. Qed.

Lemma unflushed_emit acc rows : unflushed acc (SinkEmit <$> rows) = (acc + length rows)%nat.
Proof. revert acc. induction rows as [|r rows IH]; intros acc; simpl; [lia|]. rewrite IH. lia. Qed.

Lemma rows_in_app ops ops' : rows_in (ops ++ ops') = (rows_in ops + rows_in ops')%nat.
Proof. unfold rows_in. by rewrite omap_app, length_app. Qed.

Lemma u64_add_mod (a b : nat) :
  u64_add (N.of_nat a mod u64_modulus) (N.of_nat b) = N.of_nat (a + b) mod u64_modulus.
Proof. rewrite (u64_add_wrapped _ _ _ eq_refl). f_equal. lia. Qed.

Lemma em_ok_emit rows e : em_ok e -> em_ok (emit_all rows e).
Proof.
  intros [H1 H2]. split; simpl.
  - rewrite rows_in_app, H1, u64_add_mod. unfold rows_in at 3. by rewrite emit_rows_of.
  - by rewrite unflushed_app, unflushed_emit, H2, u64_add_mod.
Qed.

Lemma rows_in_flush ops : rows_in (ops ++ [SinkFlush]) = rows_in ops.
Proof. rewrite rows_in_app. unfold rows_in at 2. simpl. lia. Qed.

Lemma em_ok_flushed e : em_ok e -> em_ok (flushed e).
Proof.
  intros [H1 H2]. split; simpl; [by rewrite rows_in_flush|]. by rewrite unflushed_app.
Qed.

(** The emissions of the worker, with the bound that holds while it runs. *)
Definition out_ok (cfg : WorkerConfig) (w : Worker) : Prop :=
  (is_over (wk_phase w) = false -> em_ok (wk_out w) /\ below_threshold cfg (wk_out w)) /\
  snapshots_produced (wk_out w) = N.of_nat (rows_in (wk_sinks (wk_out w))) mod u64_modulus.

Lemma out_ok_same cfg w w' :
  wk_out w' = wk_out w -> is_over (wk_phase w') = is_over (wk_phase w) -> out_ok cfg w -> out_ok cfg w'.
Proof. unfold out_ok. by intros -> ->. Qed.

Lemma maybe_flush_out cfg fok w :
  em_ok (wk_out w) -> is_over (wk_phase w) = false -> out_ok cfg (maybe_flush cfg fok w).
Proof.
  intros He Hp. unfold maybe_flush, out_ok, below_threshold.
  destruct (Nat.ltb_spec 0 (flush_threshold cfg)) as [Ht|Ht]; simpl.
  - destruct (N.leb_spec (N.of_nat (flush_threshold cfg)) (snapshots_since_flush (wk_out w))); simpl.
    + destruct fok; simpl; [|split; [done|apply He]]. split; [|by apply (em_ok_flushed _ He)].
      intros _. split; [by apply em_ok_flushed|]. intros _. simpl. lia.
    + split; [done|apply He].
  - split; [|apply He]. intros _. split; [done|lia].
Qed.

Lemma finish_out cfg now wall ok fok w :
  em_ok (wk_out w) -> out_ok cfg (finish_worker cfg now wall ok fok w).
Proof.
  intros He. unfold out_ok. destruct (finish_view cfg now wall ok fok w) as [_ ->]. split; [done|].
  unfold finish_worker. cbv zeta. destruct (close_gap_rows cfg now wall ok w) as [_ Ho].
  assert (He' : em_ok (wk_out (drain_and_emit (feed_sync finalize
    (set_wk_feeds (mark_all_draining (wk_feeds (close_gap cfg now wall ok w))) (close_gap cfg now wall ok w))))))
    by (apply em_ok_emit; simpl; by rewrite Ho).
  set (w2 := drain_and_emit _) in *. clearbody w2.
  destruct fok; simpl; [rewrite rows_in_flush|]; apply He'.
Qed.

(** Once over, only the tasks left behind still write to the metrics. *)
Lemma enabled_over cfg i w :
  is_over (wk_phase w) = true -> worker_enabled cfg i w = true ->
  input_ops cfg i w = [] /\ wk_phase (worker_step cfg i w) = wk_phase w /\
  wk_out (worker_step cfg i w) = wk_out w /\ wk_sync (worker_step cfg i w) = wk_sync w.
Proof. intros Ho En. destruct i; simpl in En; destruct (wk_phase w) eqn:E; try done; simpl; by rewrite E. Qed.

Lemma out_ok_emits cfg w : out_ok cfg w -> is_over (wk_phase w) = false -> em_ok (wk_out w).
Proof. intros [H _] Hp. by apply H. Qed.

Lemma dispatch_out cfg now wall ev w w' :
  dispatch cfg now wall ev w = Some w' -> wk_out w' = wk_out w /\ wk_phase w' = wk_phase w.
Proof.
  intros E. destruct ev as [p ts b|t|fr|oi|fs]; simpl in E; simplify_eq; try done.
  - unfold on_book_event. cbv zeta. destruct (0 <? ts); [|done]. unfold book_order_note.
    by destruct (wire_ts_regressed _ _) as [[] ?].
  - unfold on_trade_event in E. destruct (admit_trade t w) as [w1|] eqn:Ea; [|done].
    simpl in E. injection E as <-.
    assert (H1 : wk_out w1 = wk_out w /\ wk_phase w1 = wk_phase w).
    { unfold admit_trade in Ea. repeat (case_match; simplify_eq/=); done. }
    destruct H1 as [H1 H2]. unfold trade_order_note, note_position.
    destruct (reconcile_active cfg), (parse_u64 (trade_id t)), (0 <? source_trade_ts_us t); simpl;
      try destruct (wire_ts_regressed _ _) as [[] ?]; done.
Qed.

Lemma write_incident_phase cfg ok i w : wk_phase (write_incident cfg ok i w) = wk_phase w.
Proof. unfold write_incident. by repeat case_match. Qed.

Lemma confirm_link_out cfg now wall ok w :
  wk_out (confirm_link cfg now wall ok w) = wk_out w /\
  wk_phase (confirm_link cfg now wall ok w) = wk_phase w.
Proof.
  split; [apply confirm_link_rows|]. unfold confirm_link, recover_gap.
  destruct (connection_live _); [done|]. simpl.
  destruct (gap_open _) as [[[opened epoch] c]|]; [|done]. cbv zeta.
  case_match; rewrite write_incident_phase; by destruct (reconcile_active cfg).
Qed.

Lemma on_event_out cfg now wall ok fok ev w :
  out_ok cfg w -> is_over (wk_phase w) = false -> out_ok cfg (on_event cfg now wall ok fok ev w).
Proof.
  intros Ho Hp. unfold on_event. cbv zeta. set (w0 := on_link (set_connection_state Streaming) _).
  destruct (confirm_link_out cfg now wall ok w0) as [H1 H2].
  change (wk_out w0) with (wk_out w) in H1. change (wk_phase w0) with (wk_phase w) in H2.
  set (w1 := on_link _ (confirm_link cfg now wall ok w0)).
  change (wk_out w1 = wk_out w) in H1. change (wk_phase w1 = wk_phase w) in H2. clearbody w1.
  assert (Ho1 : out_ok cfg w1) by (apply (out_ok_same cfg w); by rewrite ?H2).
  assert (Hp1 : is_over (wk_phase w1) = false) by (by rewrite H2).
  destruct (paused w1); [done|].
  destruct (dispatch cfg now wall ev w1) as [w2|] eqn:Ed; [|by apply (out_ok_same cfg w1)].
  destruct (dispatch_out _ _ _ _ _ _ Ed) as [H3 H4].
  assert (Ho2 : out_ok cfg w2) by (apply (out_ok_same cfg w1); by rewrite ?H4).
  assert (Hp2 : is_over (wk_phase w2) = false) by (by rewrite H4).
  destruct (wc_external_clock cfg); [done|].
  apply maybe_flush_out; [|done]. apply em_ok_emit. by apply (out_ok_emits cfg).
Qed.

Lemma next_connection_out cfg now wall ok fok w :
  out_ok cfg w -> is_over (wk_phase w) = false -> out_ok cfg (next_connection cfg now wall ok fok w).
Proof.
  intros Ho Hp. unfold next_connection. destruct (stopped w || wk_shutdown w).
  - by apply finish_out, (out_ok_emits cfg).
  - by apply (out_ok_same cfg w).
Qed.

Lemma on_joined_out cfg exit outcome now wall now' draw ok fok w :
  out_ok cfg w -> is_over (wk_phase w) = false ->
  out_ok cfg (on_joined cfg exit outcome now wall now' draw ok fok w).
Proof.
  intros Ho Hp. pose proof (out_ok_emits _ _ Ho Hp) as He.
  assert (Hl : forall r, out_ok cfg (on_loss cfg r outcome now wall now' draw ok fok w)).
  { intros r. unfold on_loss. cbv zeta. set (w1 := note_reconnect _).
    assert (H1 : wk_out w1 = wk_out w /\ wk_phase w1 = wk_phase w)
      by (unfold w1, open_gap; by destruct (gap_open _)).
    clearbody w1. destruct H1 as [H1 H2].
    assert (Hs : forall ph, is_over ph = false -> out_ok cfg (set_wk_phase ph w1))
      by (intros ph Hph; apply (out_ok_same cfg w); [done|by rewrite Hp|done]).
    destruct (next_action _ _ _ _) as [[p a]|]; [|by apply Hs].
    destruct a; simpl; try by apply (out_ok_same cfg w); rewrite ?Hp.
    - apply next_connection_out; [|by simpl; rewrite H2].
      by apply (out_ok_same cfg w); simpl; rewrite ?H2.
    - apply finish_out. simpl. by rewrite H1. }
  unfold on_joined. destruct exit; try (destruct (stopped w || wk_shutdown w)); try apply Hl;
    by apply finish_out.
Qed.

Lemma worker_step_out cfg i w :
  out_ok cfg w -> worker_enabled cfg i w = true -> out_ok cfg (worker_step cfg i w).
Proof.
  intros Ho En. destruct (is_over (wk_phase w)) eqn:Hp.
  { destruct (enabled_over cfg i w Hp En) as (_ & H1 & H2 & _).
    apply (out_ok_same cfg w); [done|by rewrite H1|done]. }
  destruct i as [now wall ok fok ev|wall fok|t|c|value| |exit outcome now wall now' draw ok fok|now wall ok fok|c v|op].
  - by apply on_event_out.
  - simpl. unfold on_tick. destruct (paused w); [done|].
    apply maybe_flush_out; [|done]. apply em_ok_emit. by apply (out_ok_emits cfg w).
  - simpl. unfold on_recovered. destruct (paused w); [done|]. cbv zeta.
    destruct (_ && _); [done|]. by destruct (_ =? 0); apply (out_ok_same cfg w).
  - destruct c; simpl; by apply (out_ok_same cfg w); rewrite ?Hp.
  - simpl. destruct (wk_phase w) eqn:E; try done; [destruct value|..];
      by apply (out_ok_same cfg w); simpl; rewrite ?E.
  - by apply (out_ok_same cfg w); rewrite ?Hp.
  - by apply on_joined_out.
  - by apply next_connection_out.
  - by apply (out_ok_same cfg w).
  - by apply (out_ok_same cfg w).
Qed.

Lemma worker_run_out cfg ins w w' :
  out_ok cfg w -> worker_run cfg ins w = Some w' -> out_ok cfg w'.
Proof.
  revert w. induction ins as [|i ins IH]; intros w Ho E; simpl in E; [by simplify_eq|].
  destruct (worker_enabled cfg i w) eqn:En; [|done]. eapply IH; [|exact E]. by apply worker_step_out.
Qed.

(** A worker that is not over has not finalized its synchronizer. *)
Lemma worker_run_open cfg ins w w' :
  worker_run cfg ins w = Some w' -> is_over (wk_phase w') = false ->
  is_over (wk_phase w) = false /\ Forall not_finalize (worker_ops cfg ins w).
Proof.
  revert w. induction ins as [|i ins IH]; intros w E Hp; simpl in E.
  { simplify_eq. by split; [|constructor]. }
  destruct (worker_enabled cfg i w) eqn:En; [|done].
  destruct (IH _ E Hp) as [Hs Hf]. destruct (is_over (wk_phase w)) eqn:Ho.
  { destruct (enabled_over cfg i w Ho En) as (_ & H1 & _). by rewrite H1, Ho in Hs. }
  split; [done|]. simpl. apply Forall_app. split; [|done].
  destruct i as [now wall ok fok ev|wall fok|t|c|value| |exit outcome now wall now' draw ok fok|now wall ok fok|c v|op];
    unfold input_ops; try constructor.
  - destruct (paused w || replayed_trade ev w); [constructor|].
    constructor; [by destruct ev|]. by destruct (wc_external_clock cfg); repeat constructor.
  - by destruct (paused w); repeat constructor.
  - by destruct (paused w || known_recovered t w); repeat constructor.
  - by rewrite Hs.
  - by rewrite Hs.
Qed.

(** ** The end of a worker *)

Record done_ok (w : Worker) : Prop := {
  dn_rows : buffer (wk_sync w) = [];
  dn_flushed : exists ops, wk_sinks (wk_out w) = ops ++ [SinkFlush];
  dn_gap : gap_open (wk_gaps w) = None;
  dn_link : connection_state (wk_link w) = Disconnected;
  dn_feeds : Forall (fun f => is_terminal (feed_state f) = true) (wk_feeds w)
}.

Lemma mark_all_closed_terminal b fs :
  Forall (fun f => is_terminal (feed_state f) = true) (mark_all_closed b fs).
Proof.
  unfold mark_all_closed, each_live_mut. apply Forall_fmap, Forall_true. intros f. simpl.
  destruct (is_terminal (feed_state f)) eqn:E; [done|]. by destruct b.
Qed.

Lemma write_incident_gap cfg ok i w : gap_open (wk_gaps (write_incident cfg ok i w)) = gap_open (wk_gaps w).
Proof. unfold write_incident. by repeat case_match. Qed.

Lemma close_gap_closed cfg now wall ok w : gap_open (wk_gaps (close_gap cfg now wall ok w)) = None.
Proof.
  unfold close_gap. destruct (gap_open (wk_gaps w)) as [[[opened epoch] c]|] eqn:E; [|done].
  cbv zeta. by rewrite write_incident_gap.
Qed.

Lemma finish_done cfg now wall ok fok w :
  wk_phase (finish_worker cfg now wall ok fok w) = WkDone -> done_ok (finish_worker cfg now wall ok fok w).
Proof.
  unfold finish_worker. cbv zeta. pose proof (close_gap_closed cfg now wall ok w) as Hg.
  generalize dependent (close_gap cfg now wall ok w). intros w1 Hg. destruct fok; [|done]. intros _.
  split; simpl; [done|by eexists|done|done|apply mark_all_closed_terminal].
Qed.

(** The ways into the final phase. *)
Definition finishes (cfg : WorkerConfig) (w' : Worker) : Prop :=
  exists now wall ok fok w1, w' = finish_worker cfg now wall ok fok w1.

Lemma next_connection_done cfg now wall ok fok w :
  wk_phase (next_connection cfg now wall ok fok w) = WkDone ->
  finishes cfg (next_connection cfg now wall ok fok w).
Proof.
  unfold next_connection. destruct (stopped w || wk_shutdown w); [|done]. intros _.
  by exists now, wall, ok, fok, w.
Qed.

Lemma on_joined_done cfg exit outcome now wall now' draw ok fok w :
  wk_phase (on_joined cfg exit outcome now wall now' draw ok fok w) = WkDone ->
  finishes cfg (on_joined cfg exit outcome now wall now' draw ok fok w).
Proof.
  assert (Hf : forall n u w1, finishes cfg (finish_worker cfg n u ok fok w1)) by (intros n u w1; by exists n, u, ok, fok, w1).
  assert (Hl : forall r, wk_phase (on_loss cfg r outcome now wall now' draw ok fok w) = WkDone ->
    finishes cfg (on_loss cfg r outcome now wall now' draw ok fok w)).
  { intros r. unfold on_loss. cbv zeta. destruct (next_action _ _ _ _) as [[p a]|]; [|done].
    destruct a; simpl; try done. apply next_connection_done. }
  unfold on_joined. destruct exit; try (destruct (stopped w || wk_shutdown w)); try apply Hl; intros _; apply Hf.
Qed.

Lemma maybe_flush_phase cfg fok w :
  wk_phase (maybe_flush cfg fok w) = wk_phase w \/ wk_phase (maybe_flush cfg fok w) = WkFlushFailed.
Proof. unfold maybe_flush. repeat case_match; by eauto. Qed.

Lemma on_event_phase cfg now wall ok fok ev w :
  wk_phase (on_event cfg now wall ok fok ev w) = wk_phase w \/
  wk_phase (on_event cfg now wall ok fok ev w) = WkFlushFailed.
Proof.
  unfold on_event. cbv zeta. set (w0 := on_link (set_connection_state Streaming) _).
  destruct (confirm_link_out cfg now wall ok w0) as [_ H2].
  change (wk_phase w0) with (wk_phase w) in H2.
  set (w1 := on_link _ (confirm_link cfg now wall ok w0)).
  change (wk_phase w1 = wk_phase w) in H2. clearbody w1. rewrite <-H2.
  destruct (paused w1); [by left|].
  destruct (dispatch cfg now wall ev w1) as [w2|] eqn:Ed; [|by left].
  destruct (dispatch_out _ _ _ _ _ _ Ed) as [_ <-].
  destruct (wc_external_clock cfg); [by left|].
  destruct (maybe_flush_phase cfg fok (drain_and_emit w2)) as [->| ->]; by eauto.
Qed.

Lemma on_recovered_phase t w : wk_phase (on_recovered t w) = wk_phase w.
Proof.
  unfold on_recovered. destruct (paused w); [done|]. cbv zeta. destruct (_ && _); [done|].
  by destruct (_ =? 0).
Qed.

Lemma step_done cfg i w :
  worker_enabled cfg i w = true -> wk_phase (worker_step cfg i w) = WkDone ->
  (wk_phase w = WkDone /\ exists c v, i = WkSource c v) \/ finishes cfg (worker_step cfg i w).
Proof.
  intros En E.
  destruct i as [now wall ok fok ev|wall fok|t|c|value| |exit outcome now wall now' draw ok fok|now wall ok fok|c v|op].
  - simpl in *. destruct (on_event_phase cfg now wall ok fok ev w) as [H|H]; rewrite H in E; [|done].
    by rewrite E in En.
  - simpl in *. unfold on_tick in E. destruct (paused w); [by rewrite E in En|].
    destruct (maybe_flush_phase cfg fok (drain_and_emit (feed_sync (fun s => (on_time wall s).1) w))) as [H|H];
      rewrite H in E; [|done]. simpl in E. by rewrite E in En.
  - simpl in *. rewrite on_recovered_phase in E. by rewrite E in En.
  - destruct c; simpl in *; try done; by rewrite E in En.
  - simpl in *. destruct (wk_phase w) eqn:Ep; simpl in *; try done; try (by rewrite Ep in E).
    by destruct value; simpl in E; rewrite ?Ep in E.
  - done.
  - right. by apply on_joined_done.
  - right. by apply next_connection_done.
  - left. split; [done|by eauto].
  - simpl in *. by rewrite E in En.
Qed.

Lemma worker_run_done cfg ins w w' :
  (wk_phase w = WkDone -> done_ok w) -> worker_run cfg ins w = Some w' ->
  wk_phase w' = WkDone -> done_ok w'.
Proof.
  revert w. induction ins as [|i ins IH]; intros w Hw E; simpl in E; [simplify_eq; apply Hw|].
  destruct (worker_enabled cfg i w) eqn:En; [|done]. eapply IH; [|exact E]. intros Hp.
  destruct (step_done cfg i w En Hp) as [[Hd (c & v & ->)]|(now & wall & ok & fok & w1 & Hf)].
  - destruct (Hw Hd). by split.
  - rewrite Hf in *. by apply finish_done.
Qed.

(** ** Theorems on the rows *)

Lemma unflushed_le_rows ops acc : (unflushed acc ops <= acc + rows_in ops)%nat.
Proof.
  revert acc. induction ops as [|[r|] ops IH]; intros acc; [simpl; lia| |].
  - change (rows_in (SinkEmit r :: ops)) with (S (rows_in ops)). specialize (IH (S acc)). simpl. lia.
  - change (rows_in (SinkFlush :: ops)) with (rows_in ops). specialize (IH 0%nat). simpl. lia.
Qed.

Lemma start_view cfg sync policy feeds rt sd now wall ok fok :
  sync_view (worker_start cfg sync policy feeds rt sd now wall ok fok) =
  sync_run (if sd then [OpFinalize; OpDrain] else []) (sync, []).
Proof.
  unfold worker_start. pose proof (next_connection_view cfg now wall ok fok
    (set_wk_shutdown sd (worker_new sync policy feeds rt))) as Hv.
  unfold ends_rows in Hv. rewrite Hv. unfold next_connection. simpl.
  destruct sd; [|done].
  destruct (finish_view cfg now wall ok fok (set_wk_shutdown true (worker_new sync policy feeds rt)))
    as [_ Hp]. by rewrite Hp.
Qed.

Lemma start_out cfg sync policy feeds rt sd now wall ok fok :
  out_ok cfg (worker_start cfg sync policy feeds rt sd now wall ok fok).
Proof.
  unfold worker_start. apply next_connection_out; [|done].
  split; [|done]. intros _. split; [done|]. intros H. simpl. lia.
Qed.

Lemma StronglySorted_app_l {A} (R : A -> A -> Prop) l l' :
  StronglySorted R (l ++ l') -> StronglySorted R l.
Proof.
  induction l as [|x l IH]; intros H; [constructor|].
  apply StronglySorted_inv in H as [H Hx]. constructor; [by apply IH|].
  by apply Forall_app in Hx as [? _].
Qed.

(** Rows taken from the front of what a run made: rows of their period, then at most the
    row of the end. *)
Lemma rows_then_final p m d ops taken rest :
  0 < p -> m <> OrderbookDriven -> Forall op_u64 ops ->
  let st := (set_emission_delay_us d (with_clock_mode p m), []) in
  all_rows (sync_run ops st) = taken ++ rest ->
  exists rows final, taken = rows ++ final /\
    StronglySorted N.lt (map ms_ts_us rows) /\ Forall (row_ok p) rows /\
    (final = [] \/ exists pre post, ops = pre ++ OpFinalize :: post /\ Forall not_finalize pre /\
       final = final_row (sync_run pre st).1) /\
    (Forall not_finalize ops -> final = []).
Proof.
  intros Hp Hm Hu st E.
  assert (Hrows : forall pre t r, Forall op_u64 pre -> Forall not_finalize pre ->
    all_rows (sync_run pre st) = t ++ r ->
    StronglySorted N.lt (map ms_ts_us t) /\ Forall (row_ok p) t).
  { intros pre t r Hu' Hf Et.
    destruct (grid_inv_run p m pre st Hp Hm Hu' Hf (grid_inv_init p m d)) as [_ _ _ Hr Hs _ _ _].
    rewrite Et in Hs, Hr. rewrite map_app in Hs. split; [by eapply StronglySorted_app_l|].
    by apply Forall_app in Hr as [? _]. }
  destruct (first_finalize ops) as [Hf|(pre & post & -> & Hf)].
  - exists taken, []. rewrite app_nil_r. destruct (Hrows ops taken rest) as [H1 H2]; [done..|].
    split_and!; [done|done|done|by left|done].
  - apply Forall_app in Hu as [Hu _].
    rewrite (sync_run_ended p m pre post st Hp Hm Hu Hf (grid_inv_init p m d)) in E.
    assert (Hnf : Forall not_finalize (pre ++ OpFinalize :: post) -> False).
    { rewrite Forall_app. intros [_ H]. by inversion H. }
    destruct (app_eq_app _ _ _ _ E) as (l & [[El Er]|[El Er]]).
    + exists taken, []. rewrite app_nil_r. destruct (Hrows pre taken l) as [H1 H2]; [done..|].
      split_and!; [done|done|done|by left|done].
    + destruct l as [|x l].
      { exists taken, []. rewrite app_nil_r in El |- *. subst taken.
        destruct (Hrows pre (all_rows (sync_run pre st)) []) as [H1 H2]; [done|done|by rewrite app_nil_r|].
        split_and!; [done|done|done|by left|done]. }
      exists (all_rows (sync_run pre st)), (x :: l).
      destruct (Hrows pre (all_rows (sync_run pre st)) []) as [H1 H2]; [done|done|by rewrite app_nil_r|].
      split_and!; [done|done|done| |done]. right. exists pre, post. split_and!; [done|done|].
      rewrite Er. destruct rest as [|y rest]; [by rewrite app_nil_r|]. exfalso.
      apply (f_equal length) in Er. rewrite length_app in Er. unfold final_row in Er.
      destruct (clock_period _); simpl in Er; lia.
Qed.

(** C6: the rows a worker writes are those of its market synchronizer.  Over any run, through
    any number of connections, gaps and pauses and up to its end, the rows handed to the sinks
    and the state of the synchronizer are what the synchronizer makes of the events the worker
    admitted, in their order: each reconstructed event outside a pause, unless it is a trade in
    the replay window, the recovered trades not already known, and the ticks.  The count
    reported is the number of rows handed over.  On a global clock, with any emission delay
    and a positive period (which the constructor asserts), the rows at the sinks have strictly
    increasing labels and every trade, liquidation, funding rate and open-interest record in
    one happened in its period; the exception is one row at most, the last, which a worker
    hands over when it ends and which holds whatever was still pending at that moment,
    whatever its period.  A worker that has not ended has written no such row. *)
Theorem worker_rows cfg p m d policy feeds rt sd now wall ok fok ins w :
  let sync := set_emission_delay_us d (with_clock_mode p m) in
  worker_run cfg ins (worker_start cfg sync policy feeds rt sd now wall ok fok) = Some w ->
  let ops := (if sd then [OpFinalize; OpDrain] else []) ++
    worker_ops cfg ins (worker_start cfg sync policy feeds rt sd now wall ok fok) in
  (wk_sync w, emitted w) = sync_run ops (sync, []) /\
  snapshots_produced (wk_out w) = N.of_nat (length (emitted w)) mod u64_modulus /\
  (0 < p -> m <> OrderbookDriven -> Forall op_u64 ops ->
   exists rows final, emitted w = rows ++ final /\
     StronglySorted N.lt (map ms_ts_us rows) /\ Forall (row_ok p) rows /\
     (final = [] \/ exists pre post, ops = pre ++ OpFinalize :: post /\ Forall not_finalize pre /\
        final = final_row (sync_run pre (sync, [])).1) /\
     (is_over (wk_phase w) = false -> final = [])).
Proof.
  intros sync E ops. set (w0 := worker_start _ _ _ _ _ _ _ _ _ _) in *.
  pose proof (worker_run_view _ _ _ _ E) as Hv. unfold w0 in Hv at 2.
  rewrite start_view in Hv. fold w0 in Hv.
  assert (Hops : sync_view w = sync_run ops (sync, [])).
  { unfold ops, sync_run. rewrite fold_left_app. exact Hv. }
  split_and!; [exact Hops| |].
  - destruct (worker_run_out cfg ins w0 w (start_out _ _ _ _ _ _ _ _ _ _) E) as [_ ->]. done.
  - intros Hpos Hm Hu.
    destruct (rows_then_final p m d ops (emitted w) (buffer (wk_sync w)) Hpos Hm Hu)
      as (rows & final & H1 & H2 & H3 & H4 & H5); [fold sync; by rewrite <-Hops|].
    exists rows, final. split_and!; [done|done|done|done|]. intros Hp. apply H5.
    destruct (worker_run_open cfg ins w0 w E Hp) as [H0 Hf].
    assert (Hsd : sd = false).
    { destruct sd; [|done]. exfalso. unfold w0, worker_start, next_connection in H0. simpl in H0.
      destruct (finish_view cfg now wall ok fok (set_wk_shutdown true (worker_new sync policy feeds rt)))
        as [_ Ho]. by rewrite Ho in H0. }
    unfold ops. rewrite Hsd. exact Hf.
Qed.

(** How much a crash can lose.  With a flush threshold of [n] rows, a running worker has
    at any moment fewer than [n] rows handed to the sinks since their last flush, whatever the
    number of rows an event completes at once. *)
Theorem worker_flush_bound cfg sync policy feeds rt sd now wall ok fok ins w :
  worker_run cfg ins (worker_start cfg sync policy feeds rt sd now wall ok fok) = Some w ->
  is_over (wk_phase w) = false -> (0 < flush_threshold cfg)%nat ->
  N.of_nat (length (emitted w)) < u64_modulus ->
  (unflushed 0 (wk_sinks (wk_out w)) < flush_threshold cfg)%nat.
Proof.
  intros E Hp Ht Hl.
  destruct (worker_run_out cfg ins _ w (start_out _ _ _ _ _ _ _ _ _ _) E) as [Ho _].
  destruct (Ho Hp) as [[_ Hs] Hb]. specialize (Hb Ht).
  pose proof (unflushed_le_rows (wk_sinks (wk_out w)) 0) as Hle.
  rewrite Hs, N.mod_small in Hb; [lia|]. unfold emitted, rows_in in *. lia.
Qed.

(** A worker that ends leaves nothing open.  In any run, once the worker is done its
    synchronizer holds no row, the sinks were flushed after the last one, the coverage gap in
    progress has been closed, every feed is in a terminal state and the connection is
    disconnected. *)
Theorem worker_ends_clean cfg sync policy feeds rt sd now wall ok fok ins w :
  worker_run cfg ins (worker_start cfg sync policy feeds rt sd now wall ok fok) = Some w ->
  wk_phase w = WkDone -> done_ok w.
Proof.
  intros E. refine (worker_run_done cfg ins _ w _ E). intros Hp.
  destruct (next_connection_done _ _ _ _ _ _ Hp) as (n & u & o & f & w1 & Hf).
  unfold worker_start in *. rewrite Hf in *. by apply finish_done.
Qed.
End WorkerProps.

(** ** An example

    A worker on a clock of 100 us, with a flush for every two rows: a trade, a tick, a lost
    connection, a second one with a trade, a tick and a stop. *)
Section Examples.
Local Existing Instances decimal_numeric ex_uuid.

Definition toy_worker_cfg : WorkerConfig := {|
  wc_exchange := "okx"; wc_symbol := "BTC-USDT"; flush_threshold := 2; wc_external_clock := true;
  reconcile_active := false; has_ledger := true
|}.

Definition toy_policy : ReconnectPolicy := {|
  initial_delay := 1000000000; max_delay := 30000000000; max_attempts := None; jitter_factor := 0;
  current_delay := 1000000000; consecutive_failures := 0; circuit_state := Closed;
  cooldown_until := None; cooldown_duration := 120000000000; data_ever_received := false
|}.

Definition toy_worker : Worker :=
  worker_start toy_worker_cfg (with_clock_mode 100 ExternalClock) toy_policy ex_feeds true false 0 0 true true.

Definition trade_event (now : Instant) (wall ts : N) : WorkerInput :=
  WkEvent now wall true true (EvTrade (at_ts ts)).

Definition toy_history : list WorkerInput :=
  [WkTick 100 true; trade_event 1000 160 150; WkTick 250 true; WkRuntimeEnded;
   WkJoined (TaskFailed (TransportError "reset")) Finished 5000000 300 5000000 0 true true;
   WkWaited 2005000000 2300 true true; trade_event 3005000000 3300 3250; WkTick 3400 true].

Definition toy_stop : list WorkerInput :=
  toy_history ++ [WkCommand CmdStop; WkJoined Completed Finished 4000000000 4000 4000000000 0 true true].

Lemma run_some cfg ins w (P : Worker -> bool) :
  (match worker_run cfg ins w with Some w' => P w' | None => false end) = true ->
  exists w', worker_run cfg ins w = Some w' /\ P w' = true.
Proof. destruct (worker_run cfg ins w) as [w'|]; [by exists w'|done]. Qed.

Definition running_rows (n k : nat) (w : Worker) : bool :=
  negb (is_over (wk_phase w)) && (length (emitted w) =? n)%nat &&
  (unflushed 0 (wk_sinks (wk_out w)) =? k)%nat.
Definition is_done (w : Worker) : bool := match wk_phase w with WkDone => true | _ => false end.
Lemma is_done_phase w : is_done w = true -> wk_phase w = WkDone.
Proof. unfold is_done. by destruct (wk_phase w). Qed.

#[local] Instance op_u64_decision o : Decision (op_u64 o).
Proof. destruct o; simpl; unfold is_u64; apply _. Defined.

(** The same worker with rows held back by 250 us. *)
Definition held_worker : Worker :=
  worker_start toy_worker_cfg (set_emission_delay_us 250 (with_clock_mode 100 ExternalClock)) toy_policy
    ex_feeds true false 0 0 true true.

(** The held-back trade of instant 3250 is in the row the end of the worker adds. *)
Lemma worker_rows_witness : exists w rows final,
  worker_run toy_worker_cfg toy_stop held_worker = Some w /\ wk_phase w = WkDone /\
  snapshots_produced (wk_out w) = N.of_nat (length (emitted w)) mod u64_modulus /\
  emitted w = rows ++ final /\ StronglySorted N.lt (map ms_ts_us rows) /\ Forall (row_ok 100) rows /\
  map (fun r => map source_trade_ts_us (ms_trades r)) (drop (length (emitted w) - 1) (emitted w)) = [[3250]].
Proof.
  destruct (run_some toy_worker_cfg toy_stop held_worker (fun w => is_done w && bool_decide
    (map (fun r => map source_trade_ts_us (ms_trades r)) (drop (length (emitted w) - 1) (emitted w))
     = [[3250]]))) as (w & E & Hw); [vm_compute; reflexivity|].
  apply andb_true_iff in Hw as [Hd%is_done_phase Hw]. apply bool_decide_eq_true in Hw.
  destruct (worker_rows toy_worker_cfg 100 ExternalClock 250 toy_policy ex_feeds true false 0 0 true true
    toy_stop w E) as (_ & H & Hr).
  destruct Hr as (rows & final & H1 & H2 & H3 & _); [reflexivity|discriminate| |].
  { apply (bool_decide_unpack _). vm_compute. exact I. }
  exists w, rows, final. split_and!; assumption.
Defined.

Lemma worker_flush_bound_witness : exists w,
  worker_run toy_worker_cfg (take 4 toy_history) toy_worker = Some w /\
  (unflushed 0 (wk_sinks (wk_out w)) < 2)%nat.
Proof.
  destruct (run_some toy_worker_cfg (take 4 toy_history) toy_worker (running_rows 1 1))
    as (w & E & Hw); [vm_compute; reflexivity|].
  exists w. split; [exact E|]. unfold running_rows in Hw. rewrite !andb_true_iff in Hw.
  destruct Hw as [[Ho Hl] _]. apply negb_true_iff in Ho. apply Nat.eqb_eq in Hl.
  refine (worker_flush_bound toy_worker_cfg (with_clock_mode 100 ExternalClock) toy_policy ex_feeds
    true false 0 0 true true (take 4 toy_history) w E Ho _ _).
  - repeat constructor.
  - rewrite Hl. reflexivity.
Defined.

Lemma worker_ends_clean_witness : exists w,
  worker_run toy_worker_cfg toy_stop toy_worker = Some w /\ buffer (wk_sync w) = [].
Proof.
  destruct (run_some toy_worker_cfg toy_stop toy_worker is_done) as (w & E & Hw);
    [vm_compute; reflexivity|].
  exists w. split; [exact E|].
  exact (dn_rows w (worker_ends_clean toy_worker_cfg (with_clock_mode 100 ExternalClock) toy_policy
    ex_feeds true false 0 0 true true toy_stop w E (is_done_phase w Hw))).
Defined.
End Examples.
