(* ===== verification/WorkerCoverage.v ===== *)
(** * The coverage record of the market worker

    The gaps a worker reports against an abstract account of its history: a gap opens when a
    connection is lost and closes at the next event, or with the worker. *)
From Stdlib Require Import QArith Ascii String Sorted.
From stdpp Require Import gmap strings.
From S2P Require Import Prelude Budget BTree Strings Numeric Pairs Types Delta Checksum Book Model Feed Runtime Snapshots MarketSync Disconnect Reconnect Transport Drive Worker WorkerProps.
Local Open Scope N_scope.

(** ** The abstract account *)

(** What the history says of the coverage: a connection lost, an event received, the end. *)
Inductive Obs :=
| Lost (resync : bool) (now : Instant) (wall : N)
| Proven (now : Instant) (wall : N)
| Over (now : Instant) (wall : N).

Record Window := {
  w_opened : N;
  w_closed : N;
  w_us : N;
  w_cause : GapCause
}.

Definition OpenGap : Type := option (Instant * N * GapCause).

Definition close_window (now : Instant) (wall : N) (g : OpenGap) : list Window :=
  match g with
  | Some (opened, epoch, c) =>
    [{| w_opened := epoch; w_closed := wall; w_us := elapsed_us opened now; w_cause := c |}]
  | None => []
  end.

Definition cov_step (st : OpenGap * list Window) (o : Obs) : OpenGap * list Window :=
  let '(g, ws) := st in
  match o with
  | Lost resync now wall =>
    (match g with
     | Some _ => g
     | None => Some (now, wall, if resync then GapResync else GapDisconnect)
     end, ws)
  | Proven now wall | Over now wall => (None, ws ++ close_window now wall g)
  end.

Definition cov_run (obs : list Obs) (st : OpenGap * list Window) : OpenGap * list Window :=
  fold_left cov_step obs st.

Definition total_us (ws : list Window) : N := foldr (fun w n => w_us w + n) 0 ws.

Lemma total_us_app ws ws' : total_us (ws ++ ws') = total_us ws + total_us ws'.
Proof. induction ws as [|w ws IH]; simpl; [done|]. rewrite IH. lia. Qed.

Section Coverage.
Context {NU : Numeric} {UU : Uuid}.

(** The observations of an input. *)
Definition input_obs (cfg : WorkerConfig) (i : WorkerInput) (w : Worker) : list Obs :=
  let over := is_over (wk_phase (worker_step cfg i w)) in
  match i with
  | WkEvent now wall _ _ _ => [Proven now wall]
  | WkJoined Exhausted _ now wall _ _ _ _ => [Over now wall]
  | WkJoined _ outcome now wall now' _ _ _ =>
    if stopped w || wk_shutdown w then [Over now wall]
    else Lost (match outcome with ResyncRequired => true | Finished => false end) now wall ::
         (if over then [Over now' wall] else [])
  | WkWaited now wall _ _ => if over then [Over now wall] else []
  | _ => []
  end.

Fixpoint worker_obs (cfg : WorkerConfig) (ins : list WorkerInput) (w : Worker) : list Obs :=
  match ins with
  | [] => []
  | i :: ins => input_obs cfg i w ++ worker_obs cfg ins (worker_step cfg i w)
  end.

(** The ledger accepted every line it was given. *)
Definition appended (i : WorkerInput) : bool :=
  match i with
  | WkEvent _ _ ok _ _ | WkJoined _ _ _ _ _ _ ok _ | WkWaited _ _ ok _ => ok
  | _ => true
  end.

Definition incident_window (i : GapIncident) : Window :=
  {| w_opened := opened_epoch_us i; w_closed := closed_epoch_us i; w_us := window_us i;
     w_cause := cause i |}.

(** The worker's record against the account. *)
Record cov_rel (cfg : WorkerConfig) (st : OpenGap * list Window) (w : Worker) : Prop := {
  cv_open : gap_open (wk_gaps w) = st.1;
  cv_count : wk_metrics w C_book_gap_incidents = N.of_nat (length st.2) mod u64_modulus;
  cv_us : wk_metrics w C_book_gap_window_us = total_us st.2 mod u64_modulus;
  cv_ledger : has_ledger cfg = true -> incident_window <$> gap_ledger (wk_gaps w) = st.2
}.

(** Steps the account does not see. *)
Definition same_cov (w w' : Worker) : Prop :=
  wk_gaps w' = wk_gaps w /\
  wk_metrics w' C_book_gap_incidents = wk_metrics w C_book_gap_incidents /\
  wk_metrics w' C_book_gap_window_us = wk_metrics w C_book_gap_window_us.

#[export] Instance same_cov_preorder : PreOrder same_cov.
Proof. split; [done|]. unfold same_cov. intros x y z (?&?&?) (?&?&?). split_and!; congruence. Qed.

Lemma same_cov_rel cfg st w w' : same_cov w w' -> cov_rel cfg st w -> cov_rel cfg st w'.
Proof. intros (H1 & H2 & H3) [? ? ? ?]. split; rewrite ?H1, ?H2, ?H3; done. Qed.

Lemma u64_add_total a b : u64_add (a mod u64_modulus) b = (a + b) mod u64_modulus.
Proof. unfold u64_add. by rewrite N.Div0.add_mod_idemp_l. Qed.

(** An incident recorded is a window closed. *)
Lemma write_incident_cov cfg g ws opened epoch c now wall est w :
  cov_rel cfg (g, ws) w -> g = Some (opened, epoch, c) ->
  forall w1, gap_ledger (wk_gaps w1) = gap_ledger (wk_gaps w) -> gap_open (wk_gaps w1) = None ->
  wk_metrics w1 C_book_gap_incidents = record_book_gap_incident (elapsed_us opened now) (wk_metrics w) C_book_gap_incidents ->
  wk_metrics w1 C_book_gap_window_us = record_book_gap_incident (elapsed_us opened now) (wk_metrics w) C_book_gap_window_us ->
  cov_rel cfg (None, ws ++ close_window now wall g)
    (write_incident cfg true (incident cfg epoch wall (elapsed_us opened now) c est) w1).
Proof.
  intros [_ Hc Hu Hl] -> w1 Hgl Hgo Hm1 Hm2. simpl in *.
  assert (Hm : wk_metrics (write_incident cfg true (incident cfg epoch wall (elapsed_us opened now) c est) w1)
             = wk_metrics w1) by (unfold write_incident; by destruct (has_ledger cfg)).
  split; rewrite ?Hm; simpl.
  - by rewrite write_incident_gap.
  - rewrite Hm1. unfold record_book_gap_incident. rewrite fetch_add_ne, fetch_add_eq, Hc by done.
    by rewrite u64_add_total, length_app, Nat2N.inj_add.
  - rewrite Hm2. unfold record_book_gap_incident. rewrite fetch_add_eq, fetch_add_ne, Hu by done.
    rewrite u64_add_total, total_us_app. simpl. by rewrite N.add_0_r.
  - intros Hh. unfold write_incident. rewrite Hh. simpl. rewrite fmap_app, Hgl, Hl by done. done.
Qed.

Lemma recover_gap_cov cfg st now wall w :
  cov_rel cfg st w -> cov_rel cfg (cov_step st (Proven now wall)) (recover_gap cfg now wall true w).
Proof.
  intros Hr. destruct st as [g ws]. pose proof (cv_open _ _ _ Hr) as Hg. simpl in Hg. simpl.
  unfold recover_gap. rewrite Hg. destruct g as [[[opened epoch] c]|]; simpl.
  - destruct (_ =? 0);
      refine (write_incident_cov cfg _ ws opened epoch c now wall _ w Hr eq_refl _ _ _ _ _);
      simpl; unfold record_trade_suspicion; rewrite ?fetch_add_ne by done;
      by destruct (reconcile_active cfg).
  - rewrite app_nil_r. exact Hr.
Qed.

Lemma close_gap_cov cfg st now wall w :
  cov_rel cfg st w -> cov_rel cfg (cov_step st (Over now wall)) (close_gap cfg now wall true w).
Proof.
  intros Hr. destruct st as [g ws]. pose proof (cv_open _ _ _ Hr) as Hg. simpl in Hg. simpl.
  unfold close_gap. rewrite Hg. destruct g as [[[opened epoch] c]|]; simpl.
  - by refine (write_incident_cov cfg _ ws opened epoch c now wall _ w Hr eq_refl _ _ _ _ _).
  - rewrite app_nil_r. exact Hr.
Qed.

Lemma open_gap_cov cfg st resync now wall w :
  cov_rel cfg st w -> cov_rel cfg (cov_step st (Lost resync now wall)) (open_gap resync now wall w).
Proof.
  intros [Hg Hc Hu Hl]. destruct st as [g ws]. simpl in *. unfold open_gap. rewrite Hg.
  destruct g; by split.
Qed.

(** Between an event and the next loss the gap is closed. *)
Definition live_ok (w : Worker) : Prop :=
  match wk_phase w with
  | WkRunning | WkJoining => connection_live (wk_link w) = true -> gap_open (wk_gaps w) = None
  | _ => True
  end.

Definition cov_inv (cfg : WorkerConfig) (st : OpenGap * list Window) (w : Worker) : Prop :=
  cov_rel cfg st w /\ live_ok w.

Lemma dispatch_cov cfg now wall ev w w' :
  dispatch cfg now wall ev w = Some w' ->
  same_cov w w' /\ connection_live (wk_link w') = connection_live (wk_link w).
Proof.
  intros E. destruct ev as [p ts b|t|fr|oi|fs]; simpl in E; simplify_eq; try done.
  - unfold on_book_event. cbv zeta. destruct (0 <? ts); [|done]. unfold book_order_note.
    destruct (wire_ts_regressed _ _) as [[] ?]; [|done]. split; [|done]. split_and!; [done|..];
      simpl; unfold bump_out_of_order_frames; by rewrite fetch_add_ne.
  - unfold on_trade_event in E. destruct (admit_trade t w) as [w1|] eqn:Ea; [|done].
    simpl in E. injection E as <-.
    assert (H1 : same_cov w w1 /\ wk_link w1 = wk_link w).
    { unfold admit_trade in Ea. repeat (case_match; simplify_eq/=); done. }
    destruct H1 as [H1 H2].
    assert (H3 : forall w2, same_cov w w2 -> same_cov w
      (feed_sync (fun s => (on_trade t s).1) (note_position cfg t (note_arrival now w2)))).
    { intros w2 H. unfold note_position. by destruct (reconcile_active cfg), (parse_u64 (trade_id t)). }
    assert (H4 : forall w2, connection_live (wk_link
      (feed_sync (fun s => (on_trade t s).1) (note_position cfg t (note_arrival now w2)))) =
      connection_live (wk_link w2)).
    { intros w2. unfold note_position. by destruct (reconcile_active cfg), (parse_u64 (trade_id t)). }
    rewrite H4. destruct (0 <? source_trade_ts_us t); [|split; [by apply H3|by rewrite H2]].
    unfold trade_order_note. destruct (wire_ts_regressed _ _) as [[] ?]; simpl;
      (split; [apply H3; etrans; [exact H1|]|by rewrite H2]); [|done].
    split_and!; [done|..]; simpl; unfold bump_out_of_order_frames; by rewrite fetch_add_ne.
Qed.

Lemma maybe_flush_cov cfg fok w :
  same_cov w (maybe_flush cfg fok w) /\ wk_link (maybe_flush cfg fok w) = wk_link w.
Proof. unfold maybe_flush. by repeat case_match. Qed.

Lemma confirm_link_cov cfg st now wall w :
  cov_rel cfg st w -> (connection_live (wk_link w) = true -> gap_open (wk_gaps w) = None) ->
  cov_rel cfg (cov_step st (Proven now wall)) (confirm_link cfg now wall true w) /\
  gap_open (wk_gaps (confirm_link cfg now wall true w)) = None.
Proof.
  intros Hr Hl. unfold confirm_link. destruct (connection_live (wk_link w)) eqn:El.
  - specialize (Hl eq_refl). destruct st as [g ws]. pose proof (cv_open _ _ _ Hr) as Hg.
    simpl in *. rewrite Hl in Hg. subst g. simpl. rewrite app_nil_r. done.
  - set (w1 := on_link _ w).
    assert (H1 : cov_rel cfg st w1) by (by apply (same_cov_rel _ _ w)).
    pose proof (recover_gap_cov cfg st now wall w1 H1) as H2. split; [done|].
    pose proof (cv_open _ _ _ H2) as H3. rewrite H3. by destruct st.
Qed.

Lemma on_event_cov cfg st now wall fok ev w :
  cov_rel cfg st w -> (connection_live (wk_link w) = true -> gap_open (wk_gaps w) = None) ->
  let w' := on_event cfg now wall true fok ev w in
  cov_rel cfg (cov_step st (Proven now wall)) w' /\ gap_open (wk_gaps w') = None.
Proof.
  intros Hr Hl. cbv zeta. unfold on_event. cbv zeta.
  set (w0 := on_link (set_connection_state Streaming) _).
  destruct (confirm_link_cov cfg st now wall w0) as [H1 H2];
    [by apply (same_cov_rel _ _ w)|done|].
  set (w1 := on_link _ (confirm_link cfg now wall true w0)).
  assert (H3 : cov_rel cfg (cov_step st (Proven now wall)) w1)
    by (by apply (same_cov_rel _ _ (confirm_link cfg now wall true w0))).
  assert (H4 : gap_open (wk_gaps w1) = None) by exact H2. clearbody w1.
  assert (Hend : forall w2, same_cov w1 w2 ->
    cov_rel cfg (cov_step st (Proven now wall)) w2 /\ gap_open (wk_gaps w2) = None).
  { intros w2 Hs. split; [by apply (same_cov_rel _ _ w1)|]. destruct Hs as (-> & _). done. }
  destruct (paused w1); [by apply Hend|].
  destruct (dispatch cfg now wall ev w1) as [w2|] eqn:Ed.
  - apply dispatch_cov in Ed as [Hs _].
    destruct (wc_external_clock cfg); [by apply Hend|]. apply Hend. etrans; [exact Hs|].
    etrans; [|apply maybe_flush_cov]. done.
  - apply Hend. split_and!; [done|..]; simpl; unfold bump_replay_duplicates; by rewrite fetch_add_ne.
Qed.

Lemma finish_cov cfg st now wall fok w :
  cov_rel cfg st w -> cov_rel cfg (cov_step st (Over now wall)) (finish_worker cfg now wall true fok w).
Proof.
  intros Hr. unfold finish_worker. cbv zeta. pose proof (close_gap_cov cfg st now wall w Hr) as H.
  set (w1 := close_gap cfg now wall true w) in *. clearbody w1.
  destruct fok; by apply (same_cov_rel _ _ w1).
Qed.

Lemma finish_inv cfg st now wall fok w :
  cov_rel cfg st w ->
  cov_inv cfg (cov_step st (Over now wall)) (finish_worker cfg now wall true fok w).
Proof.
  intros Hr. split; [by apply finish_cov|]. unfold live_ok, finish_worker. cbv zeta. by destruct fok.
Qed.

Lemma next_connection_cov cfg st now wall fok w :
  cov_rel cfg st w ->
  cov_inv cfg (cov_run (if is_over (wk_phase (next_connection cfg now wall true fok w))
                        then [Over now wall] else []) st)
    (next_connection cfg now wall true fok w).
Proof.
  intros Hr. unfold next_connection. destruct (stopped w || wk_shutdown w).
  - destruct (finish_view cfg now wall true fok w) as [_ ->]. by apply finish_inv.
  - split; [|done]. by apply (same_cov_rel _ _ w).
Qed.

Lemma follow_action_cov cfg st r a now' wall fok w :
  cov_rel cfg st w ->
  cov_inv cfg (cov_run (if is_over (wk_phase (follow_action cfg r a now' wall true fok w))
                        then [Over now' wall] else []) st)
    (follow_action cfg r a now' wall true fok w).
Proof.
  intros Hr. destruct a as [d| |why|until]; simpl.
  - split; [|done]. by apply (same_cov_rel _ _ w).
  - by apply next_connection_cov.
  - destruct (finish_view cfg now' wall true fok (on_give_up r why w)) as [_ ->].
    apply finish_inv. by apply (same_cov_rel _ _ w).
  - split; [|done]. by apply (same_cov_rel _ _ w).
Qed.

Lemma note_reconnect_cov w : same_cov w (note_reconnect w).
Proof.
  split_and!; [done|..]; unfold note_reconnect; simpl; unfold bump_reconnects; by rewrite fetch_add_ne.
Qed.

Lemma on_loss_cov cfg st r outcome now wall now' draw fok w :
  cov_rel cfg st w ->
  let w' := on_loss cfg r outcome now wall now' draw true fok w in
  cov_inv cfg (cov_run (Lost (match outcome with ResyncRequired => true | Finished => false end) now wall ::
    (if is_over (wk_phase w') then [Over now' wall] else [])) st) w'.
Proof.
  intros Hr. cbv zeta. unfold on_loss. cbv zeta.
  set (resync := match outcome with ResyncRequired => true | Finished => false end).
  pose proof (open_gap_cov cfg st resync now wall w Hr) as H1.
  pose proof (same_cov_rel cfg _ _ _ (note_reconnect_cov (open_gap resync now wall w)) H1) as H2.
  set (w1 := note_reconnect _) in *. clearbody w1. unfold cov_run. simpl fold_left.
  destruct (next_action _ _ _ _) as [[p a]|].
  - refine (follow_action_cov cfg _ r a now' wall fok (on_link (set_wk_policy p) w1) _).
    by apply (same_cov_rel _ _ w1).
  - split; [|done]. by apply (same_cov_rel _ _ w1).
Qed.

Lemma worker_step_cov cfg st i w :
  cov_inv cfg st w -> worker_enabled cfg i w = true -> appended i = true ->
  cov_inv cfg (cov_run (input_obs cfg i w) st) (worker_step cfg i w).
Proof.
  intros [Hr Hl] En Hok.
  assert (Hquiet : forall w', same_cov w w' -> live_ok w' -> cov_inv cfg (cov_run [] st) w').
  { intros w' Hs Hl'. split; [|done]. by apply (same_cov_rel _ _ w). }
  destruct i as [now wall ok fok ev|wall fok|t|c|value| |exit outcome now wall now' draw ok fok|now wall ok fok|c v|op];
    simpl in Hok; subst.
  - simpl in En. unfold live_ok in Hl. destruct (wk_phase w) eqn:Ep; try done.
    destruct (on_event_cov cfg st now wall fok ev w Hr Hl) as [H1 H2]. split; [exact H1|].
    unfold live_ok. simpl. rewrite H2. by case_match.
  - simpl. unfold on_tick. destruct (paused w); [by apply Hquiet|].
    destruct (maybe_flush_cov cfg fok (drain_and_emit (feed_sync (fun s => (on_time wall s).1) w)))
      as [Hs Hk].
    apply Hquiet; [etrans; [|exact Hs]; done|].
    unfold live_ok. destruct Hs as (-> & _). rewrite Hk.
    destruct (maybe_flush_phase cfg fok (drain_and_emit (feed_sync (fun s => (on_time wall s).1) w))) as [-> | ->]; done.
  - simpl. unfold on_recovered. destruct (paused w); [by apply Hquiet|]. cbv zeta.
    destruct (_ && _); [by apply Hquiet|]. apply Hquiet; [|by destruct (_ =? 0)].
    destruct (_ =? 0); (split_and!; [done|..]); simpl; unfold add_trades_recovered; by rewrite fetch_add_ne.
  - simpl in *. destruct (wk_phase w) eqn:Ep; try done. unfold live_ok in Hl. rewrite Ep in Hl.
    by destruct c; apply Hquiet; unfold live_ok; simpl; rewrite ?Ep.
  - simpl in *. unfold live_ok in Hl. destruct (wk_phase w) eqn:Ep; try done.
    + by destruct value; apply Hquiet; unfold live_ok; simpl; rewrite ?Ep.
    + by apply Hquiet; unfold live_ok; simpl; rewrite ?Ep.
    + by apply Hquiet.
  - simpl in *. unfold live_ok in Hl. destruct (wk_phase w) eqn:Ep; try done. by apply Hquiet.
  - destruct exit as [| |r|].
    + unfold input_obs. cbn [worker_step on_joined]. destruct (stopped w || wk_shutdown w);
        [apply finish_inv; by apply (same_cov_rel _ _ w)|by apply on_loss_cov].
    + unfold input_obs. cbn [worker_step on_joined]. destruct (stopped w || wk_shutdown w);
        [apply finish_inv; by apply (same_cov_rel _ _ w)|by apply on_loss_cov].
    + unfold input_obs. cbn [worker_step on_joined]. destruct (stopped w || wk_shutdown w);
        [apply finish_inv; by apply (same_cov_rel _ _ w)|by apply on_loss_cov].
    + apply finish_inv. apply (same_cov_rel _ _ w); [|done].
      split_and!; [done|..]; simpl; unfold mark_source_exhausted; by rewrite store_ne.
  - by apply next_connection_cov.
  - simpl in En. apply Hquiet; [|done]. split_and!; [done|..]; simpl; rewrite store_ne; try done;
      by intros <-.
  - by apply Hquiet.
Qed.

Lemma worker_run_cov cfg st ins w w' :
  cov_inv cfg st w -> forallb appended ins = true -> worker_run cfg ins w = Some w' ->
  cov_inv cfg (cov_run (worker_obs cfg ins w) st) w'.
Proof.
  revert st w. induction ins as [|i ins IH]; intros st w Hi Ha E; simpl in E; [by simplify_eq|].
  destruct (worker_enabled cfg i w) eqn:En; [|done]. simpl in Ha. apply andb_true_iff in Ha as [Ha Has].
  simpl. unfold cov_run. rewrite fold_left_app. eapply IH; [|exact Has|exact E].
  by apply worker_step_cov.
Qed.

Lemma start_cov cfg sync policy feeds rt sd now wall fok :
  cov_inv cfg (None, []) (worker_start cfg sync policy feeds rt sd now wall true fok).
Proof.
  unfold worker_start.
  assert (H : cov_rel cfg (None, []) (set_wk_shutdown sd (worker_new sync policy feeds rt)))
    by (split; simpl; done).
  pose proof (next_connection_cov cfg _ now wall fok _ H) as Hn.
  by destruct (is_over _).
Qed.

(** C19: the coverage ledger.  Over any run with a ledger that takes its lines, the incidents
    written are exactly the outages of the history, in order: each opens when a connection is
    lost, with the cause of that loss, spans every failed attempt after it, and closes at the
    first event of any later connection or with the worker; the gap in progress is the one the
    history leaves open.  The two counters published are the number and the total length of
    the outages, ledger or not. *)
Theorem coverage_ledger cfg sync policy feeds rt sd now wall fok ins w :
  forallb appended ins = true ->
  worker_run cfg ins (worker_start cfg sync policy feeds rt sd now wall true fok) = Some w ->
  let '(open, windows) := cov_run
    (worker_obs cfg ins (worker_start cfg sync policy feeds rt sd now wall true fok)) (None, []) in
  gap_open (wk_gaps w) = open /\
  (has_ledger cfg = true -> incident_window <$> gap_ledger (wk_gaps w) = windows) /\
  wk_metrics w C_book_gap_incidents = N.of_nat (length windows) mod u64_modulus /\
  wk_metrics w C_book_gap_window_us = total_us windows mod u64_modulus.
Proof.
  intros Ha E.
  destruct (worker_run_cov cfg _ ins _ w (start_cov cfg sync policy feeds rt sd now wall fok) Ha E)
    as [[H1 H2 H3 H4] _].
  destruct (cov_run _ _) as [open windows]. done.
Qed.

(** ** Why a worker stops *)

Definition is_event (i : WorkerInput) : bool :=
  match i with WkEvent _ _ _ _ _ => true | _ => false end.

Definition is_local (r : DisconnectReason) : bool :=
  match r with ReceiverDropped => true | ProtocolRejection code _ => code =? 0 | _ => false end.

(** An input that may end the worker, after a history [before]: a stop command, the
    shutdown, a flush that failed, a finite source at its end, and a connection lost for a
    reason not worth a retry -- before any event, unless the reason is the worker's own or a
    refusal in the venue's protocol. *)
Definition stop_cause (before : list WorkerInput) (i : WorkerInput) : bool :=
  match i with
  | WkCommand (CmdStop | CmdRestart) => true
  | WkSignal value => value
  | WkEvent _ _ _ flush_ok _ | WkTick _ flush_ok => negb flush_ok
  | WkJoined Exhausted _ _ _ _ _ _ _ => true
  | WkJoined (TaskFailed r) _ _ _ _ _ _ _ =>
    negb (is_retryable r) && (negb (existsb is_event before) || is_local r)
  | _ => false
  end.

Fixpoint caused (before ins : list WorkerInput) : bool :=
  match ins with
  | [] => false
  | i :: ins => stop_cause before i || caused (before ++ [i]) ins
  end.

Record going (before : list WorkerInput) (w : Worker) : Prop := {
  go_stopped : stopped w = false;
  go_shutdown : wk_shutdown w = false;
  go_phase : is_over (wk_phase w) = false;
  go_data : existsb is_event before = true -> data_ever_received (wk_policy (wk_link w)) = true
}.

Definition same_going (w w' : Worker) : Prop :=
  stopped w' = stopped w /\ wk_shutdown w' = wk_shutdown w /\ wk_phase w' = wk_phase w /\
  wk_policy (wk_link w') = wk_policy (wk_link w).

#[export] Instance same_going_preorder : PreOrder same_going.
Proof. split; [done|]. unfold same_going. intros x y z (?&?&?&?) (?&?&?&?). split_and!; congruence. Qed.

Lemma same_going_ok before i w w' :
  is_event i = false -> same_going w w' -> going before w -> going (before ++ [i]) w'.
Proof.
  intros Hi (H1 & H2 & H3 & H4) [? ? ? ?]. split; rewrite ?H1, ?H2, ?H3, ?H4; try done.
  rewrite existsb_app. simpl. by rewrite Hi, !orb_false_r.
Qed.

Lemma write_incident_going cfg ok i w : same_going w (write_incident cfg ok i w).
Proof. unfold write_incident. by repeat case_match. Qed.

Lemma recover_gap_going cfg now wall ok w : same_going w (recover_gap cfg now wall ok w).
Proof.
  unfold recover_gap. destruct (gap_open _) as [[[opened epoch] c]|]; [|done].
  cbv zeta. case_match; (etrans; [|apply write_incident_going]); by destruct (reconcile_active cfg).
Qed.

Lemma dispatch_going cfg now wall ev w w' : dispatch cfg now wall ev w = Some w' -> same_going w w'.
Proof.
  intros E. destruct ev as [p ts b|t|fr|oi|fs]; simpl in E; simplify_eq; try done.
  - unfold on_book_event. cbv zeta. destruct (0 <? ts); [|done]. unfold book_order_note.
    by destruct (wire_ts_regressed _ _) as [[] ?].
  - unfold on_trade_event in E. destruct (admit_trade t w) as [w1|] eqn:Ea; [|done].
    simpl in E. injection E as <-.
    assert (H1 : same_going w w1) by (unfold admit_trade in Ea; repeat (case_match; simplify_eq/=); done).
    etrans; [exact H1|]. unfold trade_order_note, note_position.
    destruct (reconcile_active cfg), (parse_u64 (trade_id t)), (0 <? source_trade_ts_us t); simpl;
      try destruct (wire_ts_regressed _ _) as [[] ?]; done.
Qed.

Lemma maybe_flush_going cfg w : same_going w (maybe_flush cfg true w).
Proof. unfold maybe_flush. by case_match. Qed.

Lemma on_event_going cfg before now wall ok ev w :
  going before w ->
  going (before ++ [WkEvent now wall ok true ev]) (on_event cfg now wall ok true ev w).
Proof.
  intros [H1 H2 H3 _]. unfold on_event. cbv zeta.
  set (w0 := on_link (set_connection_state Streaming) _).
  assert (Hg : stopped (confirm_link cfg now wall ok w0) = false /\
    wk_shutdown (confirm_link cfg now wall ok w0) = false /\
    is_over (wk_phase (confirm_link cfg now wall ok w0)) = false).
  { unfold confirm_link. destruct (connection_live (wk_link w0)); [done|].
    destruct (recover_gap_going cfg now wall ok (on_link
      (fun l => set_connection_live true (set_wk_policy (on_connected (wk_policy l)) l)) w0))
      as (-> & -> & -> & _). done. }
  set (w1 := on_link _ (confirm_link cfg now wall ok w0)).
  assert (Hw : stopped w1 = false /\ wk_shutdown w1 = false /\ is_over (wk_phase w1) = false /\
    data_ever_received (wk_policy (wk_link w1)) = true) by (destruct Hg as (? & ? & ?); done).
  clearbody w1. clear Hg.
  assert (Hend : forall w2, same_going w1 w2 -> going (before ++ [WkEvent now wall ok true ev]) w2).
  { intros w2 (G1 & G2 & G3 & G4). destruct Hw as (? & ? & ? & ?).
    split; rewrite ?G1, ?G2, ?G3, ?G4; done. }
  destruct (paused w1); [by apply Hend|].
  destruct (dispatch cfg now wall ev w1) as [w2|] eqn:Ed; [|by apply Hend].
  pose proof (dispatch_going _ _ _ _ _ _ Ed) as Hs.
  destruct (wc_external_clock cfg); apply Hend; [done|].
  etrans; [exact Hs|]. etrans; [|apply maybe_flush_going]. done.
Qed.

Lemma next_action_data r now draw p p' a :
  next_action r now draw p = Some (p', a) -> data_ever_received p' = data_ever_received p.
Proof. unfold next_action, back_off. intros E. repeat (case_match; simplify_eq/=); done. Qed.

Lemma next_connection_going cfg before i now wall ok fok w :
  is_event i = false -> going before w ->
  going (before ++ [i]) (next_connection cfg now wall ok fok w).
Proof.
  intros Hi [H1 H2 H3 H4]. unfold next_connection. rewrite H1, H2. simpl.
  split; try done. rewrite existsb_app. simpl. by rewrite Hi, !orb_false_r.
Qed.

(** Without a cause the policy does not give up. *)
Lemma no_give_up before exit outcome now wall now' draw ok fok d p p' why :
  stop_cause before (WkJoined exit outcome now wall now' draw ok fok) = false ->
  (existsb is_event before = true -> data_ever_received p = true) ->
  next_action (policy_reason exit) now' d p = Some (p', GiveUp why) -> False.
Proof.
  intros Hc Hd E. apply give_up_cond in E as (Hg & _ & _).
  apply andb_true_iff in Hg as [Hr Hp]. destruct exit as [| |r|]; try done.
  simpl in *. rewrite Hr in Hc. simpl in Hc. apply orb_false_iff in Hc as [He Hl].
  apply negb_false_iff in He. specialize (Hd He). unfold post_data_protocol_close in Hp.
  rewrite Hd in Hp. destruct r; try done. simpl in Hp, Hl. by rewrite Hl in Hp.
Qed.

Lemma on_joined_going cfg before exit outcome now wall now' draw ok fok w :
  stop_cause before (WkJoined exit outcome now wall now' draw ok fok) = false ->
  going before w ->
  going (before ++ [WkJoined exit outcome now wall now' draw ok fok])
    (on_joined cfg exit outcome now wall now' draw ok fok w).
Proof.
  intros Hc Hg. pose proof Hg as [H1 H2 H3 H4].
  assert (Hl : exit <> Exhausted -> going (before ++ [WkJoined exit outcome now wall now' draw ok fok])
    (on_loss cfg (policy_reason exit) outcome now wall now' draw ok fok w)).
  { intros He. unfold on_loss. cbv zeta. set (w1 := note_reconnect _).
    assert (Hw1 : same_going w w1) by (unfold w1, open_gap; by destruct (gap_open _)).
    clearbody w1. destruct Hw1 as (G1 & G2 & G3 & G4). rewrite G4.
    assert (Hset : forall p ph, data_ever_received p = data_ever_received (wk_policy (wk_link w)) ->
      is_over ph = false ->
      going (before ++ [WkJoined exit outcome now wall now' draw ok fok])
        (set_wk_phase ph (on_link (set_wk_policy p) w1))).
    { intros p ph Hp Hph. split; simpl; rewrite ?G1, ?G2; try done.
      rewrite existsb_app, Hp. simpl. by rewrite orb_false_r. }
    destruct (next_action _ _ _ _) as [[p a]|] eqn:Ea.
    - pose proof (next_action_data _ _ _ _ _ _ Ea) as Hdat. destruct a; simpl.
      + by apply Hset.
      + apply next_connection_going; [done|]. split; simpl; rewrite ?G1, ?G2, ?G3, ?Hdat; done.
      + exfalso. by eapply no_give_up.
      + by apply Hset.
    - split; simpl; rewrite ?G1, ?G2, ?G4; try done.
      rewrite existsb_app. simpl. by rewrite orb_false_r. }
  unfold on_joined. rewrite H1, H2. simpl. destruct exit; try (by apply Hl). done.
Qed.

Lemma step_going cfg before i w :
  going before w -> worker_enabled cfg i w = true -> stop_cause before i = false ->
  going (before ++ [i]) (worker_step cfg i w).
Proof.
  intros Hg En Hc.
  destruct i as [now wall ok fok ev|wall fok|t|c|value| |exit outcome now wall now' draw ok fok|now wall ok fok|c v|op].
  - simpl in Hc. apply negb_false_iff in Hc. subst. by apply on_event_going.
  - simpl in Hc. apply negb_false_iff in Hc. subst. apply (same_going_ok _ _ w); [done| |done].
    simpl. unfold on_tick. destruct (paused w); [done|]. etrans; [|apply maybe_flush_going]. done.
  - apply (same_going_ok _ _ w); [done| |done]. simpl. unfold on_recovered.
    destruct (paused w); [done|]. cbv zeta. destruct (_ && _); [done|]. by destruct (_ =? 0).
  - destruct c; try done; by apply (same_going_ok _ _ w).
  - simpl in Hc. subst. destruct Hg as [H1 H2 H3 H4].
    assert (He : existsb is_event (before ++ [WkSignal false]) = existsb is_event before)
      by (by rewrite existsb_app; simpl; rewrite orb_false_r).
    simpl. destruct (wk_phase w) eqn:Ep; simpl in *; try done; split; simpl; rewrite ?He, ?Ep; done.
  - destruct Hg as [H1 H2 H3 H4]. split; simpl; try done.
    rewrite existsb_app. simpl. by rewrite orb_false_r.
  - by apply on_joined_going.
  - by apply next_connection_going.
  - by apply (same_going_ok _ _ w).
  - by apply (same_going_ok _ _ w).
Qed.

Lemma run_going cfg before ins w w' :
  going before w -> worker_run cfg ins w = Some w' -> caused before ins = false ->
  going (before ++ ins) w'.
Proof.
  revert before w. induction ins as [|i ins IH]; intros before w Hg E Hc; simpl in *.
  { simplify_eq. by rewrite app_nil_r. }
  destruct (worker_enabled cfg i w) eqn:En; [|done]. apply orb_false_iff in Hc as [Hc Hcs].
  change (i :: ins) with ([i] ++ ins). rewrite (assoc_L (++)).
  eapply IH; [|exact E|exact Hcs]. by apply step_going.
Qed.

(** A worker that connects again, at once or when its wait is over. *)
Definition reconnects_from (cfg : WorkerConfig) (w : Worker) : Prop :=
  wk_phase w = WkRunning \/
  exists until, wk_phase w = WkWaiting until /\
    forall now wall ok fok, until <= now ->
      worker_enabled cfg (WkWaited now wall ok fok) w = true /\
      wk_phase (worker_step cfg (WkWaited now wall ok fok) w) = WkRunning.

Lemma waiting_reconnects cfg w until :
  stopped w = false -> wk_shutdown w = false -> reconnects_from cfg (set_wk_phase (WkWaiting until) w).
Proof.
  intros H1 H2. right. exists until. split; [done|]. intros now wall ok fok Hle. split.
  - simpl. by apply N.leb_le.
  - simpl. unfold next_connection. simpl. by rewrite H1, H2.
Qed.

Lemma joined_reconnects cfg before w exit outcome now wall now' draw ok fok :
  going before w -> stop_cause before (WkJoined exit outcome now wall now' draw ok fok) = false ->
  next_action (policy_reason exit) now' draw (wk_policy (wk_link w)) <> None ->
  reconnects_from cfg (on_joined cfg exit outcome now wall now' draw ok fok w).
Proof.
  intros [H1 H2 H3 H4] Hc Hn.
  assert (Hl : reconnects_from cfg (on_loss cfg (policy_reason exit) outcome now wall now' draw ok fok w)).
  { unfold on_loss. cbv zeta. set (w1 := note_reconnect _).
    assert (Hw1 : same_going w w1) by (unfold w1, open_gap; by destruct (gap_open _)).
    clearbody w1. destruct Hw1 as (G1 & G2 & G3 & G4). rewrite G4.
    destruct (next_action _ _ _ _) as [[p a]|] eqn:Ea; [|done]. destruct a; simpl.
    - apply waiting_reconnects; simpl; congruence.
    - left. unfold next_connection. simpl. by rewrite G1, G2, H1, H2.
    - exfalso. by eapply no_give_up.
    - apply waiting_reconnects; simpl; congruence. }
  unfold on_joined. rewrite H1, H2. simpl. destruct exit; try exact Hl. done.
Qed.

(** C33: when a worker stops, and that it reconnects otherwise.  Unless the shutdown came first, a
    worker that is over -- done, or failed -- has a cause in its history: a stop command, the
    shutdown signal, a flush that failed, a finite source that delivered everything, or a
    connection lost for a reason that is not retried.  Of those reasons, a protocol close by the
    peer or its socket ends the worker only if it never received an event; a refusal in the
    venue's own protocol (code 0) and a reconstruction that no longer takes the events end it
    even after data has flowed.  While there was no cause, each connection lost without one is
    followed by another: the worker connects at once or waits for an instant, and connects when
    it has come; the one exception is a delay so short that the jitter's range is empty, where
    the policy panics. *)
Theorem worker_stop_has_cause cfg sync policy feeds rt now wall ok fok ins w :
  worker_run cfg ins (worker_start cfg sync policy feeds rt false now wall ok fok) = Some w ->
  (is_over (wk_phase w) = true -> caused [] ins = true) /\
  (caused [] ins = false ->
   forall exit outcome now1 wall1 now2 draw ok1 fok1,
   let i := WkJoined exit outcome now1 wall1 now2 draw ok1 fok1 in
   worker_enabled cfg i w = true -> stop_cause ins i = false ->
   next_action (policy_reason exit) now2 draw (wk_policy (wk_link w)) <> None ->
   reconnects_from cfg (worker_step cfg i w)).
Proof.
  intros E.
  assert (Hg : going [] (worker_start cfg sync policy feeds rt false now wall ok fok)) by done.
  split.
  - intros Ho. destruct (caused [] ins) eqn:Hc; [done|]. exfalso.
    pose proof (run_going cfg [] ins _ w Hg E Hc) as [_ _ H _]. by rewrite H in Ho.
  - intros Hc exit outcome now1 wall1 now2 draw ok1 fok1 i _ Hs Hn.
    exact (joined_reconnects cfg ins w _ _ _ _ _ _ _ _ (run_going cfg [] ins _ w Hg E Hc) Hs Hn).
Qed.
End Coverage.

Section Examples.
Local Existing Instances decimal_numeric ex_uuid.

Lemma coverage_ledger_witness : exists w,
  worker_run toy_worker_cfg toy_history toy_worker = Some w /\
  incident_window <$> gap_ledger (wk_gaps w) =
    [{| w_opened := 300; w_closed := 3300; w_us := 3000000; w_cause := GapDisconnect |}].
Proof.
  destruct (run_some toy_worker_cfg toy_history toy_worker (running_rows 33 0))
    as (w & E & _); [vm_compute; reflexivity|].
  exists w. split; [exact E|].
  assert (Ha : forallb appended toy_history = true) by reflexivity.
  pose proof (coverage_ledger toy_worker_cfg (with_clock_mode 100 ExternalClock) toy_policy ex_feeds
    true false 0 0 true toy_history w Ha E) as H.
  assert (Hobs : cov_run (worker_obs toy_worker_cfg toy_history toy_worker) (None, []) =
    (None, [{| w_opened := 300; w_closed := 3300; w_us := 3000000; w_cause := GapDisconnect |}]))
    by (vm_compute; reflexivity).
  unfold toy_worker in Hobs. rewrite Hobs in H. destruct H as (_ & H & _). exact (H eq_refl).
Defined.

(** A worker that ends by a stop command; and the same one when its first connection is reset. *)
Lemma worker_stop_has_cause_witness :
  (exists w, worker_run toy_worker_cfg toy_stop toy_worker = Some w /\ caused [] toy_stop = true) /\
  (exists w, worker_run toy_worker_cfg (take 4 toy_history) toy_worker = Some w /\
     reconnects_from toy_worker_cfg (worker_step toy_worker_cfg
       (WkJoined (TaskFailed (TransportError "reset")) Finished 5000000 300 5000000 0 true true) w)).
Proof.
  split.
  - destruct (run_some toy_worker_cfg toy_stop toy_worker is_done) as (w & E & Hw);
      [vm_compute; reflexivity|].
    exists w. split; [exact E|].
    apply (worker_stop_has_cause toy_worker_cfg (with_clock_mode 100 ExternalClock) toy_policy ex_feeds
      true 0 0 true true toy_stop w E). by rewrite (is_done_phase w Hw).
  - destruct (run_some toy_worker_cfg (take 4 toy_history) toy_worker (fun w =>
      match wk_phase w, next_action (TransportError "reset") 5000000 0 (wk_policy (wk_link w)) with
      | WkJoining, Some _ => true | _, _ => false end)) as (w & E & Hw); [vm_compute; reflexivity|].
    exists w. split; [exact E|].
    destruct (wk_phase w) eqn:Ep; try discriminate Hw.
    apply (proj2 (worker_stop_has_cause toy_worker_cfg (with_clock_mode 100 ExternalClock) toy_policy ex_feeds
      true 0 0 true true (take 4 toy_history) w E)).
    + vm_compute. reflexivity.
    + simpl. by rewrite Ep.
    + vm_compute. reflexivity.
    + intros Hn. simpl in Hn. by rewrite Hn in Hw.
Defined.
End Examples.
