(* ===== verification/Recovery.v ===== *)
(** * Recovery of trades: the worker and its reconciler

    The background task that [run_framework] of
    [src/aetelier-connect/src/workers/market_worker.rs] spawns for live reconciliation, and what
    it achieves together with the worker: the worker triggers it at the end of a gap and keeps
    the position it fetches after, and takes the trades it sends. *)
From Stdlib Require Import QArith Ascii String Sorted.
From stdpp Require Import gmap strings.
From S2P Require Import Prelude Budget BTree Strings Numeric Pairs Types Delta Checksum Book Model Feed Runtime Reconcile ReconcileProps Snapshots MarketSync Disconnect Reconnect Transport Drive Worker WorkerProps.
Local Open Scope list_scope.
Local Open Scope N_scope.

(** What wakes the task: the shutdown signal with its value, a trigger or the end of the
    triggers, the sweep interval. *)
Inductive RcInput := RcShutdown (flag : bool) | RcTrigger | RcTriggerClosed | RcSweep.

Section Recovery.
Context {NU : Numeric} {UU : Uuid}.

Record Reconciler := {
  rc_running : bool;
  rc_request : nat;
  rc_fetches : N;
  rc_failures : N;
  rc_sent : list Trade
}.

Definition rc_stop (r : Reconciler) : Reconciler :=
  {| rc_running := false; rc_request := rc_request r; rc_fetches := rc_fetches r;
     rc_failures := rc_failures r; rc_sent := rc_sent r |}.

(** One fetch after the position; [accepted]: how many trades the worker still takes, when it
    goes away meanwhile. *)
Definition reconciler_pass (fetch : TradesRestFetch) (wire : string) (p : TradingPair)
    (last_pos : gmap TradingPair TradePos) (accepted : option nat) (r : Reconciler) : Reconciler :=
  match last_pos !! p with
  | None => r
  | Some pos =>
    let fetches := u64_add (rc_fetches r) 1 in
    match fetch (rc_request r) wire p pos with
    | (Ok trades, k) =>
      let n := default (length trades) accepted in
      {| rc_running := (length trades <=? n)%nat; rc_request := k; rc_fetches := fetches;
         rc_failures := rc_failures r; rc_sent := rc_sent r ++ take n trades |}
    | (Err e, k) =>
      {| rc_running := true; rc_request := k; rc_fetches := fetches;
         rc_failures := u64_add (rc_failures r) 1; rc_sent := rc_sent r |}
    end
  end.

Definition reconciler_step (fetch : TradesRestFetch) (wire : string) (p : TradingPair) (i : RcInput)
    (last_pos : gmap TradingPair TradePos) (accepted : option nat) (r : Reconciler) : Reconciler :=
  if rc_running r then
    match i with
    | RcShutdown true | RcTriggerClosed => rc_stop r
    | RcShutdown false | RcTrigger | RcSweep => reconciler_pass fetch wire p last_pos accepted r
    end
  else r.

(** ** The window a fetch covers *)

(** What a wake-up sends: prints of the venue after the position, in order and without a gap. *)
Lemma reconciler_sends (fetch : TradesRestFetch) wire p cap log {FL : FetchLaws fetch wire p cap log}
    i last_pos accepted r pos :
  last_pos !! p = Some pos -> pos_id pos < u64_max ->
  exists j new, rc_sent (reconciler_step fetch wire p i last_pos accepted r) = rc_sent r ++ new /\
    new `prefix_of` above trade_num (pos_id pos) (log j).
Proof.
  intros Hpos Hlt. unfold reconciler_step.
  assert (exists j new, rc_sent r = rc_sent r ++ new /\ new `prefix_of` above trade_num (pos_id pos) (log j))
    as Hnone.
  { exists 0%nat, []. rewrite app_nil_r. split; [done|]. by exists (above trade_num (pos_id pos) (log 0%nat)). }
  assert (exists j new, rc_sent (reconciler_pass fetch wire p last_pos accepted r) = rc_sent r ++ new /\
            new `prefix_of` above trade_num (pos_id pos) (log j)) as Hpass.
  { unfold reconciler_pass. rewrite Hpos. destruct (fetch _ wire p pos) as [[l|e] k] eqn:Ef; [|exact Hnone].
    destruct (fetch_served _ _ _ _ Hlt Ef) as (j & _ & [rest Hl] & _).
    exists j, (take (default (length l) accepted) l). split; [done|].
    exists (drop (default (length l) accepted) l ++ rest). by rewrite app_assoc, take_drop. }
  by destruct (rc_running r), i as [[]| | |].
Qed.

(** ** The end of a gap *)

Lemma recover_gap_memory cfg now wall ok w :
  reconcile_active cfg = true -> gap_open (wk_gaps w) <> None ->
  triggers (wk_trades (recover_gap cfg now wall ok w)) = triggers (wk_trades w) + 1 /\
  paused (recover_gap cfg now wall ok w) = paused w /\
  seen_trade_ids (wk_trades (recover_gap cfg now wall ok w)) = seen_trade_ids (wk_trades w).
Proof.
  intros Hr Hg. unfold recover_gap. destruct (gap_open _) as [[[opened epoch] c]|]; [|done].
  rewrite Hr. cbv zeta. case_match;
    match goal with |- context [write_incident ?a ?b ?c ?d] =>
      destruct (write_incident_keeps a b c d) as [-> ->] end; done.
Qed.

Lemma drain_memory w : wk_trades (drain_and_emit w) = wk_trades w.
Proof. unfold drain_and_emit. by destruct (drain _). Qed.

Lemma maybe_flush_memory cfg ok w : wk_trades (maybe_flush cfg ok w) = wk_trades w.
Proof. unfold maybe_flush. by repeat case_match. Qed.

(** A trade the window admits becomes the position, whatever it replaces. *)
Lemma dispatch_trade_anchor cfg now wall t id w :
  reconcile_active cfg = true -> parse_u64 (trade_id t) = Some id ->
  replayed_trade (EvTrade t) w = false ->
  exists w', dispatch cfg now wall (EvTrade t) w = Some w' /\
    triggers (wk_trades w') = triggers (wk_trades w) /\
    last_pos (wk_trades w') !! trade_pair t =
      Some {| pos_id := id; pos_ts_us := source_trade_ts_us t |}.
Proof.
  intros Hr Hid Hseen. simpl. unfold on_trade_event, admit_trade. rewrite Hid.
  assert (forall w1, triggers (wk_trades w1) = triggers (wk_trades w) -> exists w',
    Some (feed_sync (fun s => (on_trade t s).1) (note_position cfg t (note_arrival now
      (if 0 <? source_trade_ts_us t
       then note_latency wall (source_trade_ts_us t) (trade_order_note (source_trade_ts_us t) w1)
       else w1)))) = Some w' /\ triggers (wk_trades w') = triggers (wk_trades w) /\
    last_pos (wk_trades w') !! trade_pair t =
      Some {| pos_id := id; pos_ts_us := source_trade_ts_us t |}) as Hall.
  { intros w1 Ht. eexists. split; [done|].
    assert (wk_trades (if 0 <? source_trade_ts_us t
       then note_latency wall (source_trade_ts_us t) (trade_order_note (source_trade_ts_us t) w1)
       else w1) = wk_trades w1) as Hn.
    { destruct (0 <? _); [|done]. unfold trade_order_note. by destruct (wire_ts_regressed _ _) as [[] ?]. }
    unfold note_position. rewrite Hr, Hid. simpl. rewrite Hn. split; [done|]. apply lookup_insert_eq. }
  unfold replayed_trade in Hseen. rewrite Hid in Hseen.
  destruct (seen_trade_ids (wk_trades w)) as [seen|]; simpl; [|by apply Hall].
  pose proof (seen_insert_fresh id seen) as Hf. destruct (seen_insert id seen) as [seen' fresh].
  simpl in Hf. rewrite Hf. simpl in Hseen. rewrite Hseen. simpl. by apply Hall.
Qed.

Definition is_trade_event (ev : ReconstructedEvent) : bool :=
  match ev with EvTrade _ => true | _ => false end.

Lemma dispatch_other cfg now wall ev w :
  is_trade_event ev = false ->
  exists w', dispatch cfg now wall ev w = Some w' /\ wk_trades w' = wk_trades w.
Proof.
  destruct ev as [p ts b|t|fr|oi|fs]; intros; try done; eexists; (split; [done|]); try done.
  unfold on_book_event. cbv zeta. destruct (0 <? ts); [|done]. unfold book_order_note.
  by destruct (wire_ts_regressed _ _) as [[] ?].
Qed.

Lemma trade_order_note_memory ts w : wk_trades (trade_order_note ts w) = wk_trades w.
Proof. unfold trade_order_note. by destruct (wire_ts_regressed _ _) as [[] ?]. Qed.

Lemma dispatch_triggers cfg now wall ev w w' :
  dispatch cfg now wall ev w = Some w' -> triggers (wk_trades w') = triggers (wk_trades w).
Proof.
  destruct (is_trade_event ev) eqn:Ee.
  - destruct ev as [|t| | |]; try done. simpl. unfold on_trade_event.
    destruct (admit_trade t w) as [w1|] eqn:Ea; simpl; [|done]. intros [= <-].
    assert (triggers (wk_trades w1) = triggers (wk_trades w)) as <-.
    { unfold admit_trade in Ea. destruct (seen_trade_ids _) as [seen|]; [|by injection Ea as <-].
      destruct (parse_u64 (trade_id t)) as [tid|]; [|by injection Ea as <-].
      destruct (seen_insert tid seen) as [seen' fresh]. destruct fresh; [by injection Ea as <-|done]. }
    unfold note_position. destruct (reconcile_active cfg), (parse_u64 (trade_id t)), (0 <? source_trade_ts_us t); simpl;
      by rewrite ?trade_order_note_memory.
  - destruct (dispatch_other cfg now wall ev w Ee) as (w3 & -> & E). intros [= <-]. by rewrite E.
Qed.

Lemma recover_gap_pos cfg now wall ok w :
  last_pos (wk_trades (recover_gap cfg now wall ok w)) = last_pos (wk_trades w).
Proof.
  unfold recover_gap. destruct (gap_open _) as [[[opened epoch] c]|]; [|done]. cbv zeta.
  case_match; match goal with |- context [write_incident ?a ?b ?c ?d] =>
    destruct (write_incident_keeps a b c d) as [_ ->] end; by destruct (reconcile_active cfg).
Qed.

Lemma confirm_link_memory cfg now wall ok w :
  reconcile_active cfg = true -> connection_live (wk_link w) = false -> gap_open (wk_gaps w) <> None ->
  triggers (wk_trades (confirm_link cfg now wall ok w)) = triggers (wk_trades w) + 1 /\
  last_pos (wk_trades (confirm_link cfg now wall ok w)) = last_pos (wk_trades w) /\
  paused (confirm_link cfg now wall ok w) = paused w /\
  seen_trade_ids (wk_trades (confirm_link cfg now wall ok w)) = seen_trade_ids (wk_trades w).
Proof.
  intros Hr Hl Hg. unfold confirm_link. rewrite Hl. set (w1 := on_link _ w).
  destruct (recover_gap_memory cfg now wall ok w1 Hr Hg) as (-> & -> & ->).
  by rewrite recover_gap_pos.
Qed.

(** A trade that is admitted: the worker is not paused and the trade is not in the replay window. *)
Definition admits_trade (ev : ReconstructedEvent) (w : Worker) : bool :=
  negb (paused w) && is_trade_event ev && negb (replayed_trade ev w).

(** The first event after a gap: the trigger, and the memory of trades after it. *)
Lemma on_event_recovers cfg now wall ok fok ev w :
  reconcile_active cfg = true -> connection_live (wk_link w) = false -> gap_open (wk_gaps w) <> None ->
  exists w1, triggers (wk_trades w1) = triggers (wk_trades w) + 1 /\
    last_pos (wk_trades w1) = last_pos (wk_trades w) /\ replayed_trade ev w1 = replayed_trade ev w /\
    wk_trades (on_event cfg now wall ok fok ev w) =
      wk_trades (if paused w then w1 else default w1 (dispatch cfg now wall ev w1)).
Proof.
  intros Hr Hl Hg. unfold on_event. cbv zeta. set (w0 := on_link (set_connection_state Streaming) _).
  destruct (confirm_link_memory cfg now wall ok w0 Hr Hl Hg) as (Ht & Hpos & Hpa & Hseen).
  set (w1 := confirm_link _ _ _ _ _) in *. clearbody w1.
  set (w2 := on_link _ w1). exists w2. split_and!; [exact Ht|exact Hpos| |].
  { unfold replayed_trade. change (wk_trades w2) with (wk_trades w1). by rewrite Hseen. }
  change (paused w2) with (paused w1). rewrite Hpa. change (paused w0) with (paused w).
  destruct (paused w); [done|]. destruct (dispatch cfg now wall ev w2) as [w3|]; [|done].
  destruct (wc_external_clock cfg); [done|]. by rewrite maybe_flush_memory, drain_memory.
Qed.

(** What an event that is not admitted as a trade leaves of the position, and what one that is makes
    of it. *)
Lemma on_event_position cfg now wall ok fok ev w :
  reconcile_active cfg = true -> connection_live (wk_link w) = false -> gap_open (wk_gaps w) <> None ->
  let w' := on_event cfg now wall ok fok ev w in
  triggers (wk_trades w') = triggers (wk_trades w) + 1 /\
  (admits_trade ev w = false -> last_pos (wk_trades w') = last_pos (wk_trades w)) /\
  (forall t id, ev = EvTrade t -> admits_trade ev w = true -> parse_u64 (trade_id t) = Some id ->
   last_pos (wk_trades w') !! trade_pair t = Some {| pos_id := id; pos_ts_us := source_trade_ts_us t |}).
Proof.
  intros Hr Hl Hg w'. unfold admits_trade.
  destruct (on_event_recovers cfg now wall ok fok ev w Hr Hl Hg) as (w1 & Ht & Hpos & <- & Hw').
  fold w' in Hw'. clearbody w'. rewrite Hw'. destruct (paused w); [by split_and!|].
  pose proof (dispatch_view cfg now wall ev w1) as Hd.
  destruct (dispatch cfg now wall ev w1) as [w2|] eqn:Ed; simpl in *; [destruct Hd as [-> _]|rewrite Hd].
  - split_and!; [by rewrite (dispatch_triggers _ _ _ _ _ _ Ed)| |].
    + rewrite andb_true_r. intros Ee. destruct (dispatch_other cfg now wall ev w1 Ee) as (w3 & Hd' & E).
      rewrite Hd' in Ed. injection Ed as <-. by rewrite E.
    + intros t id -> _ Hid. pose proof (dispatch_view cfg now wall (EvTrade t) w1) as Hv.
      rewrite Ed in Hv. destruct Hv as [Hs _].
      destruct (dispatch_trade_anchor cfg now wall t id w1 Hr Hid Hs) as (w3 & Hd' & _ & Ha).
      rewrite Hd' in Ed. by injection Ed as <-.
  - rewrite andb_false_r. split_and!; try done.
Qed.

(** C34: the window of a recovery.  The first event after a gap, with the reconciler on, triggers a fetch.
    Unless it is a trade the worker admits (the worker is not paused and the trade is not in the replay
    window), the position stays at the last print before the gap, so that what the reconciler then sends
    starts right after that print.  When it is a trade the worker admits and its identifier is a number,
    that identifier has become the position by the end of the handler, and a fetch that reads the
    position from then on sends only later prints - none of those that the gap lost. *)
Theorem recovery_window (fetch : TradesRestFetch) wire p cap log {FL : FetchLaws fetch wire p cap log}
    cfg now wall ok fok ev w i accepted r
    (Hr : reconcile_active cfg = true) (Hl : connection_live (wk_link w) = false)
    (Hg : gap_open (wk_gaps w) <> None) :
  let w' := on_event cfg now wall ok fok ev w in
  triggers (wk_trades w') = triggers (wk_trades w) + 1 /\
  (forall pos, admits_trade ev w = false -> last_pos (wk_trades w) !! p = Some pos -> pos_id pos < u64_max ->
   exists j new, rc_sent (reconciler_step fetch wire p i (last_pos (wk_trades w')) accepted r) =
                 rc_sent r ++ new /\ new `prefix_of` above trade_num (pos_id pos) (log j)) /\
  (forall t id, ev = EvTrade t -> admits_trade ev w = true -> trade_pair t = p ->
   parse_u64 (trade_id t) = Some id -> id < u64_max ->
   exists new, rc_sent (reconciler_step fetch wire p i (last_pos (wk_trades w')) accepted r) =
               rc_sent r ++ new /\ Forall (fun x => id < trade_num x) new).
Proof.
  intros w'. destruct (on_event_position cfg now wall ok fok ev w Hr Hl Hg) as (Ht & Hkeep & Hmove).
  fold w' in Ht, Hkeep, Hmove. clearbody w'. split_and!; [done| |].
  - intros pos Ha Hlp Hlt. rewrite (Hkeep Ha). by eapply reconciler_sends.
  - intros t id He Ha <- Hid Hlt. pose proof (Hmove t id He Ha Hid) as Hpos.
    destruct (reconciler_sends fetch wire (trade_pair t) cap log i _ accepted r _ Hpos Hlt)
      as (j & new & Hsent & [rest Hnew]). exists new. split; [done|].
    pose proof (above_in trade_num id (log j)) as Hin. simpl in Hnew. rewrite Hnew in Hin.
    by apply Forall_app in Hin as [? _].
Qed.
End Recovery.

(** ** A gap that ends with a trade, and one that ends with a book *)

Section Examples.
Local Existing Instances decimal_numeric ex_uuid ex_chrono.

Definition gap_cfg : WorkerConfig := {|
  wc_exchange := "binance"; wc_symbol := "BTCUSDT"; flush_threshold := 0; wc_external_clock := true;
  reconcile_active := true; has_ledger := true
|}.

Definition gap_pair : TradingPair := {| base := "BTC"; quote := "USDT" |}.
Definition gap_fetch : TradesRestFetch := BinanceTradesFetch ex_binance_get.
Definition gap_trade : Trade :=
  binance_trade gap_pair {| br_id := 8; br_price := "100.5"; br_qty := "0.25";
                            br_time := 1700000000008; is_buyer_maker := true |}.

(** The last print before the gap is number 5; the venue has printed 6 and 8 since. *)
Definition gap_worker : Worker :=
  on_memory (fun m => {|
      seen_trade_ids := seen_trade_ids m; last_pos := {[gap_pair := {| pos_id := 5; pos_ts_us := 0 |}]};
      recent_ids := [5]; recent_trades := recent_trades m; triggers := triggers m |})
    (set_wk_gaps {| gap_open := Some (0, 0, GapDisconnect); gap_ledger := [] |}
      (worker_new (with_clock_mode 100 ExternalClock) toy_policy ex_feeds false)).

Definition rc_start : Reconciler :=
  {| rc_running := true; rc_request := 0; rc_fetches := 0; rc_failures := 0; rc_sent := [] |}.

Definition fetched_after (ev : ReconstructedEvent) : list string :=
  map trade_id (rc_sent (reconciler_step gap_fetch "BTCUSDT" gap_pair RcTrigger
    (last_pos (wk_trades (on_event gap_cfg 5000000 5000 true true ev gap_worker))) None rc_start)).

Definition gap_funding : FundingRate := {|
  funding_rate_ts_us := 1; local_funding_ts_us := 1; funding_recv_seq := 0;
  funding_conn_epoch_us := 0; funding_pair := gap_pair; funding_rate := Decimal 1 4;
  funding_premium := None; interval_hours := 8; next_funding_ts_us := 0; funding_exchange := "binance"
|}.

Example gap_ended_by_trade_loses : fetched_after (EvTrade gap_trade) = [].
Proof. vm_compute. reflexivity. Qed.

Example gap_ended_by_other_recovers : fetched_after (EvFundingRate gap_funding) = ["6"; "8"]%string.
Proof. vm_compute. reflexivity. Qed.

Lemma recovery_window_witness :
  exists new, rc_sent (reconciler_step gap_fetch "BTCUSDT" gap_pair RcTrigger
      (last_pos (wk_trades (on_event gap_cfg 5000000 5000 true true (EvTrade gap_trade) gap_worker)))
      None rc_start) = [] ++ new /\ Forall (fun x => 8 < trade_num x) new.
Proof.
  refine (proj2 (proj2 (recovery_window gap_fetch "BTCUSDT" gap_pair 5000
    (fun _ => map (binance_trade gap_pair) ex_binance_rows)
    (FL := binance_laws "BTCUSDT" gap_pair (fun _ => ex_binance_rows) ex_binance_get
             ex_binance_log ex_binance_serves)
    gap_cfg 5000000 5000 true true (EvTrade gap_trade) gap_worker RcTrigger None rc_start
    eq_refl eq_refl _)) gap_trade 8 eq_refl eq_refl eq_refl _ _).
  - discriminate.
  - reflexivity.
  - reflexivity.
Defined.
End Examples.
