(* ===== verification/Disk.v ===== *)
(** * The file system

    What [src/aetelier-io] uses of [std::fs] and [std::path]: directories, files, renames, the
    advisory lock of a leaf, and the monad [IO] of the code that may fail with
    a [PersistError].  Every call of the system may fail, and a write that fails leaves a
    prefix of its bytes behind: [disk_fault] says which calls do.  A crash between two calls
    leaves what a failure of the second one leaves. *)
From Stdlib Require Import Ascii String.
From stdpp Require Import strings.
From S2P Require Import Prelude Strings Pairs Types.
Local Open Scope string_scope.

(** [dir.join(name)] *)
Definition path_join (dir name : string) : string :=
  if String.prefix "/" name || is_empty dir then name
  else if ends_with "/" dir then dir ++ name
  else dir ++ "/" ++ name.

Class Disk := {
  (** the error of the [n]-th call, and how many bytes a write had put down *)
  disk_fault : nat -> option (string * nat);
  (** another process holds the lock of the leaf *)
  locked_elsewhere : string -> bool
}.

(** A file is named by its directory and its name in it. *)
Abbreviation Path := (string * string)%type.

Record Fs := {
  fs_dirs : gset string;
  fs_files : gmap Path string;
  fs_held : gset string;
  fs_calls : nat
}.

Definition IO (A : Type) : Type := Fs -> Fs * Result A PersistError.

Definition io_ret {A} (a : A) : IO A := fun s => (s, Ok a).
Definition io_err {A} (e : PersistError) : IO A := fun s => (s, Err e).
Definition io_bind {A B} (m : IO A) (k : A -> IO B) : IO B :=
  fun s => match m s with (s, Ok a) => k a s | (s, Err e) => (s, Err e) end.
(** A reading of the state that cannot fail. *)
Definition io_get {A} (f : Fs -> A) : IO A := fun s => (s, Ok (f s)).
Definition io_lift {A} (r : Result A PersistError) : IO A := fun s => (s, r).

Declare Scope io_scope.
Delimit Scope io_scope with io.
Notation "'let!' x := m 'in' k" := (io_bind m (fun x => k))
  (at level 10, x pattern, m at level 100, k at level 200) : io_scope.
Notation "'do!' m 'in' k" := (io_bind m (fun _ => k))
  (at level 10, m at level 100, k at level 200) : io_scope.
Local Open Scope io_scope.

Definition with_dirs (d : gset string) (s : Fs) : Fs :=
  {| fs_dirs := d; fs_files := fs_files s; fs_held := fs_held s; fs_calls := fs_calls s |}.
Definition with_files (f : gmap Path string) (s : Fs) : Fs :=
  {| fs_dirs := fs_dirs s; fs_files := f; fs_held := fs_held s; fs_calls := fs_calls s |}.
Definition with_held (h : gset string) (s : Fs) : Fs :=
  {| fs_dirs := fs_dirs s; fs_files := fs_files s; fs_held := h; fs_calls := fs_calls s |}.
Definition next_call (s : Fs) : Fs :=
  {| fs_dirs := fs_dirs s; fs_files := fs_files s; fs_held := fs_held s;
     fs_calls := S (fs_calls s) |}.

Definition file_at (p : Path) (s : Fs) : option string := fs_files s !! p.

(** [path.exists()] of a file *)
Definition file_exists (p : Path) (s : Fs) : bool :=
  match file_at p s with Some _ => true | None => false end.

(** The names in a directory, in the order of the system. *)
Definition names_in (dir : string) (s : Fs) : list string :=
  omap (fun f : Path * string => if String.eqb f.1.1 dir then Some f.1.2 else None)
    (map_to_list (fs_files s)).

Definition not_found : PersistError := PersistIo "No such file or directory (os error 2)".

Section Calls.
Context {DK : Disk}.

Definition sys {A} (act : IO A) : IO A := fun s =>
  match disk_fault (fs_calls s) with
  | Some (e, _) => (next_call s, Err (PersistIo e))
  | None => act (next_call s)
  end.

(** [fs::create_dir_all] *)
Definition create_dir_all (dir : string) : IO unit :=
  sys (fun s => (with_dirs ({[dir]} ∪ fs_dirs s) s, Ok tt)).

(** [File::create]: an empty file, whatever was there. *)
Definition create_file (p : Path) : IO unit :=
  sys (fun s =>
    if bool_decide (p.1 ∈ fs_dirs s) then (with_files (<[p := ""]> (fs_files s)) s, Ok tt)
    else (s, Err not_found)).

(** [OpenOptions::new().create(true).open(..)]: the file as it is, or an empty one. *)
Definition open_or_create (p : Path) : IO unit :=
  sys (fun s =>
    if bool_decide (p.1 ∈ fs_dirs s)
    then (if file_exists p s then s else with_files (<[p := ""]> (fs_files s)) s, Ok tt)
    else (s, Err not_found)).

(** Bytes at the end of an open file; a failure leaves some of them. *)
Definition append_bytes (p : Path) (bytes : string) (err : string -> PersistError) : IO unit :=
  fun s =>
    let old := default "" (file_at p s) in
    match disk_fault (fs_calls s) with
    | Some (e, n) =>
      (with_files (<[p := old ++ String.substring 0 n bytes]> (fs_files s)) (next_call s),
       Err (err e))
    | None => (with_files (<[p := old ++ bytes]> (fs_files s)) (next_call s), Ok tt)
    end.

(** [file.sync_all()] *)
Definition sync_all : IO unit := sys (io_ret tt).

(** [File::open] and reading to the end *)
Definition read_file (p : Path) : IO string :=
  sys (fun s => match file_at p s with Some c => (s, Ok c) | None => (s, Err not_found) end).

(** [File::open] without reading, of a file and of a directory *)
Definition open_file (p : Path) : IO unit :=
  sys (fun s => if file_exists p s then (s, Ok tt) else (s, Err not_found)).
Definition open_dir (dir : string) : IO unit :=
  sys (fun s => if bool_decide (dir ∈ fs_dirs s) then (s, Ok tt) else (s, Err not_found)).

(** [fs::rename]: replaces the target. *)
Definition rename (from to_ : Path) : IO unit :=
  sys (fun s =>
    match file_at from s with
    | Some c => (with_files (<[to_ := c]> (delete from (fs_files s))) s, Ok tt)
    | None => (s, Err not_found)
    end).

(** [fs::remove_file] *)
Definition remove_file (p : Path) : IO unit :=
  sys (fun s =>
    match file_at p s with
    | Some _ => (with_files (delete p (fs_files s)) s, Ok tt)
    | None => (s, Err not_found)
    end).

(** [fs::read_dir] *)
Definition read_dir (dir : string) : IO (list string) :=
  sys (fun s =>
    if bool_decide (dir ∈ fs_dirs s) then (s, Ok (names_in dir s)) else (s, Err not_found)).

(** [fs::metadata(path)?.len()] *)
Definition file_len (p : Path) : IO N :=
  let! c := read_file p in io_ret (N.of_nat (String.length c)).
End Calls.

(** [let _ = m;]: the result is ignored. *)
Definition ignore {A} (m : IO A) : IO unit := fun s => (fst (m s), Ok tt).

(** ** Reasoning about [IO] *)

(** [m], started in [s], ends as [Q] says. *)
Definition ensures {A} (m : IO A) (s : Fs) (Q : Fs -> Result A PersistError -> Prop) : Prop :=
  Q (fst (m s)) (snd (m s)).

Lemma ensures_ret {A} (a : A) s (Q : Fs -> Result A PersistError -> Prop) :
  Q s (Ok a) -> ensures (io_ret a) s Q.
Proof. done. Qed.

Lemma ensures_bind {A B} (m : IO A) (k : A -> IO B) s Q :
  ensures m s (fun s' r => match r with Ok a => ensures (k a) s' Q | Err e => Q s' (Err e) end) ->
  ensures (io_bind m k) s Q.
Proof. unfold ensures, io_bind. destruct (m s) as [s' [a|e]]; done. Qed.

Lemma io_bind_assoc {A B C} (m : IO A) (k : A -> IO B) (k' : B -> IO C) :
  forall s, io_bind (io_bind m k) k' s = io_bind m (fun a => io_bind (k a) k') s.
Proof. intros s. unfold io_bind. by destruct (m s) as [s' [a|e]]. Qed.

(** The result does not depend on how a sequence is bracketed. *)
Lemma ensures_assoc {A B C} (m : IO A) (k : A -> IO B) (k' : B -> IO C) s Q :
  ensures (io_bind (io_bind m k) k') s Q -> ensures (io_bind m (fun a => io_bind (k a) k')) s Q.
Proof. unfold ensures. by rewrite io_bind_assoc. Qed.

Lemma ensures_mono {A} (m : IO A) s (P Q : Fs -> Result A PersistError -> Prop) :
  ensures m s P -> (forall s' r, P s' r -> Q s' r) -> ensures m s Q.
Proof. unfold ensures. auto. Qed.

Lemma ensures_sys {DK : Disk} {A} (act : IO A) s (Q : Fs -> Result A PersistError -> Prop) :
  (forall e, Q (next_call s) (Err (PersistIo e))) -> ensures act (next_call s) Q ->
  ensures (sys act) s Q.
Proof.
  unfold ensures, sys. intros He Ha. destruct (disk_fault (fs_calls s)) as [[e n]|]; [apply He|done].
Qed.

Lemma elem_of_names_in dir n s : n ∈ names_in dir s <-> file_exists (dir, n) s = true.
Proof.
  unfold names_in, file_exists, file_at. rewrite list_elem_of_omap. split.
  - intros ([[d n'] c] & Hin & He). apply elem_of_map_to_list in Hin. simpl in *.
    destruct (String.eqb_spec d dir); [|done]. simplify_eq. by rewrite Hin.
  - destruct (fs_files s !! (dir, n)) as [c|] eqn:E; [intros _|done].
    exists ((dir, n), c). split; [by apply elem_of_map_to_list|].
    simpl. by rewrite String.eqb_refl.
Qed.

(** Directories and locks are only added, and only the files of [P] change. *)
Definition only_touches (P : Path -> Prop) (s s' : Fs) : Prop :=
  fs_dirs s ⊆ fs_dirs s' /\ fs_held s ⊆ fs_held s' /\
  forall p, ~ P p -> file_at p s' = file_at p s.

Lemma only_touches_refl P s : only_touches P s s.
Proof. done. Qed.

Lemma only_touches_call P s : only_touches P s (next_call s).
Proof. done. Qed.

Lemma only_touches_trans P s1 s2 s3 :
  only_touches P s1 s2 -> only_touches P s2 s3 -> only_touches P s1 s3.
Proof.
  intros (Hd & Hh & Hf) (Hd' & Hh' & Hf'). split_and!; [set_solver..|].
  intros p Hp. by rewrite Hf', Hf.
Qed.

Lemma only_touches_weaken (P Q : Path -> Prop) s s' :
  (forall p, P p -> Q p) -> only_touches P s s' -> only_touches Q s s'.
Proof. intros HPQ (Hd & Hh & Hf). split_and!; auto. Qed.

Lemma only_touches_insert (P : Path -> Prop) s p c :
  P p -> only_touches P s (with_files (<[p := c]> (fs_files s)) s).
Proof.
  intros Hp. split_and!; [done..|]. intros q Hq. unfold file_at. simpl.
  apply lookup_insert_ne. congruence.
Qed.

Lemma only_touches_call_insert (P : Path -> Prop) s p c :
  P p -> only_touches P s (with_files (<[p := c]> (fs_files s)) (next_call s)).
Proof. intros Hp. by apply (only_touches_insert P (next_call s)). Qed.

Lemma file_at_insert p q c f s :
  file_at q (with_files (<[p := c]> f) s) = if bool_decide (p = q) then Some c else f !! q.
Proof.
  unfold file_at. simpl. case_bool_decide as E; [subst; apply lookup_insert_eq|].
  by apply lookup_insert_ne.
Qed.

#[export] Hint Resolve only_touches_refl only_touches_call only_touches_insert : aetelier.

Section Ensures.
Context {DK : Disk}.

Lemma create_file_ensures p s :
  ensures (create_file p) s (fun s' r =>
    only_touches (eq p) s s' /\ (r = Ok tt -> file_at p s' = Some "")).
Proof.
  apply ensures_sys; [done|]. unfold ensures. simpl.
  destruct (bool_decide (p.1 ∈ fs_dirs s)); simpl; [|done].
  split; [by apply only_touches_call_insert|].
  intros _. rewrite file_at_insert. by rewrite bool_decide_true.
Qed.

Lemma append_bytes_ensures p bytes err s :
  ensures (append_bytes p bytes err) s (fun s' r =>
    only_touches (eq p) s s' /\
    match r with
    | Ok _ => file_at p s' = Some (default "" (file_at p s) ++ bytes)
    | Err _ => exists n, file_at p s' =
        Some (default "" (file_at p s) ++ String.substring 0 n bytes)
    end).
Proof.
  unfold ensures, append_bytes. destruct (disk_fault (fs_calls s)) as [[e n]|]; simpl.
  - split; [by apply only_touches_call_insert|].
    exists n. unfold file_at. simpl. apply lookup_insert_eq.
  - split; [by apply only_touches_call_insert|].
    unfold file_at. simpl. apply lookup_insert_eq.
Qed.

(** Calls that change nothing. *)
Lemma sys_read_ensures {A} (act : IO A) s :
  (forall s, fst (act s) = s) -> ensures (sys act) s (fun s' _ => s' = next_call s).
Proof. intros H. apply ensures_sys; [done|]. unfold ensures. apply H. Qed.
End Ensures.
