(* ===== verification/Leaf.v ===== *)
(** * The leaves of the archive

    [src/aetelier-io/src/naming.rs] (stamps and free file names) and
    [src/aetelier-io/src/leaf_index.rs]: the append-only index of a leaf, its writer lock, the
    staging directory and the step that moves a finished file into the leaf.  The
    calendar, SHA-256 and the JSON form of an index line are parameters. *)
From Stdlib Require Import Ascii String.
From stdpp Require Import strings pretty.
From S2P Require Import Prelude Strings Pairs Types Disk.
Local Open Scope string_scope.
Local Open Scope io_scope.

(** ** naming.rs *)

(** [DateTime::from_timestamp_micros(us).format(..)] for a day and for the stamp of a file, and
    the stamp of [Utc::now()] at the [n]-th call of the system. *)
Class Calendar := {
  day_of_micros : Z -> option string;
  stamp_of_micros : Z -> option string;
  stamp_now : nat -> string
}.

(** [t as i64] *)
Definition as_i64 (t : N) : Z :=
  if (t <? 9223372036854775808)%N then Z.of_N t else (Z.of_N t - 18446744073709551616)%Z.

Definition effective_us (primary fallback : N) : N := if (0 <? primary)%N then primary else fallback.

Definition min_positive (ts : list N) : N :=
  match filter (fun t => (0 <? t)%N = true) ts with
  | [] => 0
  | t :: ts => fold_left N.min ts t
  end.

Definition batch_stamp `{Calendar} (ts_us : list N) : IO string :=
  let m := min_positive ts_us in
  match stamp_of_micros (as_i64 m) with
  | Some stamp => if (0 <? m)%N then io_ret stamp else io_get (fun s => stamp_now (fs_calls s))
  | None => io_get (fun s => stamp_now (fs_calls s))
  end.

Definition alt_name (stem : string) (n : nat) : string := stem ++ "-" ++ pretty n ++ ".parquet".

(** The loop of [unique_path]; [fuel] bounds the names tried. *)
Fixpoint free_name (fuel : nat) (dir stem : string) (n : nat) (s : Fs) : string :=
  match fuel with
  | O => alt_name stem n
  | S fuel =>
    if file_exists (dir, alt_name stem n) s then free_name fuel dir stem (S n) s
    else alt_name stem n
  end.

Definition unique_path (dir filename : string) (s : Fs) : string :=
  if file_exists (dir, filename) s
  then free_name (size (fs_files s)) dir (default filename (strip_suffix ".parquet" filename)) 1 s
  else filename.

(** ** leaf_index.rs *)

Definition INDEX_FILE : string := "index.jsonl".
Definition STAGING_DIR : string := ".staging".
Definition LOCK_FILE : string := ".index.lock".

Record IndexEntry := {
  ie_filename : string;
  ie_sha256 : string;
  ie_rows : N;
  ie_t_min_us : N;
  ie_t_max_us : N;
  ie_schema_id : string
}.

Class Sha256 := sha256_hex : string -> string.

(** [serde_json] on an [IndexEntry] *)
Class IndexJson := {
  entry_to_json : IndexEntry -> Result string string;
  entry_of_json : string -> option IndexEntry
}.

Definition newline : ascii := "010".
Definition newline_str : string := String newline "".

(** [BufRead::lines] *)
Definition strip_cr (line : string) : string :=
  default line (strip_suffix (String "013" "") line).

Fixpoint text_lines (line : string) (s : string) : list string :=
  match s with
  | "" => if is_empty line then [] else [line]
  | String c s =>
    if Ascii.eqb c newline then strip_cr line :: text_lines "" s
    else text_lines (line ++ String c "") s
  end.

Section LeafIndex.
Context {DK : Disk} {IJ : IndexJson} {SH : Sha256}.

(** The registry of the locks this process holds is [fs_held]. *)
Definition acquire_leaf_lock (leaf : string) : IO unit :=
  let! held := io_get (fun s => bool_decide (leaf ∈ fs_held s)) in
  if held then io_ret tt
  else
    do! open_or_create (leaf, LOCK_FILE) in
    let! locked := sys (io_ret (negb (locked_elsewhere leaf))) in
    if locked : bool then (fun s => (with_held ({[leaf]} ∪ fs_held s) s, Ok tt))
    else io_err (PersistParse ("leaf " ++ leaf ++ " already has a writer (flock on "
                               ++ LOCK_FILE ++ " held elsewhere)")).

Fixpoint remove_files (dir : string) (names : list string) : IO unit :=
  match names with
  | [] => io_ret tt
  | n :: names => do! ignore (remove_file (dir, n)) in remove_files dir names
  end.

Definition staging_of (leaf : string) : string := path_join leaf STAGING_DIR.

(** A directory that cannot be read is left alone. *)
Definition sweep_staging (leaf : string) : IO unit :=
  ignore (let! names := read_dir (staging_of leaf) in remove_files (staging_of leaf) names).

Definition finalize_into (leaf : string) (staged : Path) : IO string :=
  do! open_file staged in
  do! sync_all in
  let! target := io_get (unique_path leaf staged.2) in
  do! rename staged (leaf, target) in
  do! open_dir leaf in
  do! sync_all in
  io_ret target.

Definition sha256_file (p : Path) : IO string :=
  let! c := read_file p in io_ret (sha256_hex c).

Definition append_entry (leaf : string) (e : IndexEntry) : IO unit :=
  let! line := io_lift (map_err PersistJson (entry_to_json e)) in
  do! open_or_create (leaf, INDEX_FILE) in
  do! append_bytes (leaf, INDEX_FILE) (line ++ newline_str) PersistIo in
  sync_all.

Definition parse_line (acc : list IndexEntry * nat) (line : string) : list IndexEntry * nat :=
  if is_empty (trim line) then acc
  else match entry_of_json line with
       | Some e => ((acc.1 ++ [e])%list, acc.2)
       | None => (acc.1, S acc.2)
       end.

(** The entries of an index and the number of its torn lines. *)
Definition parse_index (text : string) : list IndexEntry * nat :=
  fold_left parse_line (text_lines "" text) ([], 0%nat).

Definition read_index (leaf : string) : IO (list IndexEntry * nat) :=
  fun s =>
    match read_file (leaf, INDEX_FILE) s with
    | (s, Ok text) => (s, Ok (parse_index text))
    | (s, Err e) => (s, if bool_decide (e = not_found) then Ok ([], 0%nat) else Err e)
    end.

Definition pending_files (leaf : string) : IO (list string) :=
  let! there := io_get (file_exists (leaf, INDEX_FILE)) in
  if there : bool then
    let! index := read_index leaf in
    let listed : gset string := list_to_set (ie_filename <$> index.1) in
    let! names := read_dir leaf in
    io_ret (sort_by String.leb
      (filter (fun n => ends_with ".parquet" n && negb (bool_decide (n ∈ listed)) = true) names))
  else io_ret [].
End LeafIndex.

(** ** Free names *)

Lemma app_suffix_inj (a b suf : string) : a ++ suf = b ++ suf -> a = b.
Proof.
  intros E. apply (f_equal (strip_suffix suf)) in E. rewrite !strip_suffix_app in E. congruence.
Qed.

#[export] Instance alt_name_inj stem : Inj (=) (=) (alt_name stem).
Proof.
  intros m n E. unfold alt_name in E. apply (inj (String.append stem)) in E.
  apply (inj (String.append "-")), app_suffix_inj in E. by apply (inj pretty) in E.
Qed.

Lemma free_name_taken dir stem s fuel n :
  file_exists (dir, free_name fuel dir stem n s) s = true ->
  forall i, (i <= fuel)%nat -> file_exists (dir, alt_name stem (n + i)) s = true.
Proof.
  revert n. induction fuel as [|fuel IH]; simpl; intros n H i Hi.
  - replace (n + i)%nat with n by lia. done.
  - destruct (file_exists (dir, alt_name stem n) s) eqn:E; [|congruence].
    destruct i as [|i]; [by rewrite Nat.add_0_r|].
    replace (n + S i)%nat with (S n + i)%nat by lia. apply IH; [done|lia].
Qed.

(** There are more candidates than files. *)
Lemma free_name_fresh dir stem n s :
  file_exists (dir, free_name (size (fs_files s)) dir stem n s) s = false.
Proof.
  apply not_true_iff_false. intros H. pose proof (free_name_taken _ _ _ _ _ H) as Hall.
  set (names := (fun i => (dir, alt_name stem (n + i))) <$> seq 0 (S (size (fs_files s)))).
  assert (Hnd : NoDup names).
  { apply NoDup_fmap_2; [|apply NoDup_seq]. intros i j [= E].
    apply (inj (alt_name stem)) in E. lia. }
  assert (Hsub : (list_to_set names : gset Path) ⊆ dom (fs_files s)).
  { intros p Hp. apply elem_of_list_to_set in Hp. apply list_elem_of_fmap in Hp as (i & -> & Hi).
    apply elem_of_seq in Hi. apply elem_of_dom.
    pose proof (Hall i ltac:(lia)) as Hx. unfold file_exists, file_at in Hx.
    by destruct (fs_files s !! (dir, alt_name stem (n + i))). }
  apply subseteq_size in Hsub. rewrite size_list_to_set, size_dom in Hsub by done.
  unfold names in Hsub. rewrite length_fmap, length_seq in Hsub. lia.
Qed.

Lemma unique_path_fresh dir filename s : file_exists (dir, unique_path dir filename s) s = false.
Proof.
  unfold unique_path. destruct (file_exists (dir, filename) s) eqn:E; [apply free_name_fresh|done].
Qed.

(** ** The lines of an index *)

(** Every line is ended. *)
Definition closed (text : string) : Prop := text = "" \/ exists u, text = u ++ newline_str.

Lemma text_lines_ended acc u v :
  text_lines acc (u ++ String newline v) = (text_lines acc (u ++ newline_str) ++ text_lines "" v)%list.
Proof.
  revert acc. induction u as [|c u IH]; intros acc; [done|].
  rewrite !string_app_cons. simpl. destruct (Ascii.eqb c newline); [|done]. by rewrite IH.
Qed.

Lemma text_lines_closed t v : closed t ->
  text_lines "" (t ++ v) = (text_lines "" t ++ text_lines "" v)%list.
Proof.
  intros [->|[u ->]]; [done|]. rewrite string_app_assoc. apply text_lines_ended.
Qed.

Lemma text_lines_open acc line : lacks newline line = true ->
  text_lines acc line = if is_empty (acc ++ line) then [] else [acc ++ line].
Proof.
  unfold lacks. revert acc. induction line as [|c line IH]; simpl; intros acc.
  - intros _. by rewrite string_app_nil_r.
  - intros [Hc%negb_true_iff Hl]%andb_true_iff. rewrite Hc, IH by done.
    by rewrite string_app_assoc.
Qed.

Lemma text_lines_one acc line v : lacks newline line = true ->
  text_lines acc (line ++ String newline v) = strip_cr (acc ++ line) :: text_lines "" v.
Proof.
  unfold lacks. revert acc. induction line as [|c line IH]; intros acc.
  - intros _. rewrite string_app_nil_l, string_app_nil_r. done.
  - rewrite string_app_cons. simpl. intros [Hc%negb_true_iff Hl]%andb_true_iff.
    rewrite Hc, IH by done. by rewrite string_app_assoc.
Qed.

(** An index line is one line of text, which reads back as its entry. *)
Class IndexJsonLaws (IJ : IndexJson) : Prop := json_line e line :
  entry_to_json e = Ok line ->
  lacks newline line = true /\ strip_cr line = line /\ is_empty (trim line) = false /\
  entry_of_json line = Some e.

Section Index.
Context {IJ : IndexJson} {JL : IndexJsonLaws IJ}.

Lemma parse_index_app t v : closed t ->
  parse_index (t ++ v) = fold_left parse_line (text_lines "" v) (parse_index t).
Proof. intros Hc. unfold parse_index. by rewrite text_lines_closed, fold_left_app. Qed.

Lemma closed_line t line : closed (t ++ line ++ newline_str).
Proof. right. exists (t ++ line). by rewrite string_app_assoc. Qed.

Lemma parse_index_append t e line :
  closed t -> entry_to_json e = Ok line ->
  parse_index (t ++ line ++ newline_str) = (((parse_index t).1 ++ [e])%list, (parse_index t).2).
Proof.
  intros Hc (Hl & Hcr & Hb & He)%json_line. rewrite parse_index_app by done.
  unfold newline_str. rewrite text_lines_one by done. simpl.
  rewrite string_app_nil_l, Hcr. unfold parse_line. by rewrite Hb, He.
Qed.

(** A line appended after a torn one is read together with it. *)
Lemma parse_index_glued t torn e line :
  closed t -> lacks newline torn = true -> entry_to_json e = Ok line ->
  is_empty (trim (strip_cr (torn ++ line))) = false ->
  entry_of_json (strip_cr (torn ++ line)) = None ->
  parse_index ((t ++ torn) ++ line ++ newline_str) = ((parse_index t).1, S (parse_index t).2).
Proof.
  intros Hc Ht (Hl & _)%json_line Hb Hn. rewrite string_app_assoc, parse_index_app by done.
  rewrite <- string_app_assoc. unfold newline_str. rewrite text_lines_one.
  - simpl. rewrite string_app_nil_l. unfold parse_line. by rewrite Hb, Hn.
  - unfold lacks in *. by rewrite str_all_app, Ht.
Qed.

(** A failed append leaves at most one torn line behind and loses no entry. *)
Lemma parse_index_torn t torn :
  closed t -> lacks newline torn = true ->
  parse_index (t ++ torn) = parse_index t \/
  parse_index (t ++ torn) = parse_line (parse_index t) torn.
Proof.
  intros Hc Ht. rewrite parse_index_app, text_lines_open by done. rewrite string_app_nil_l.
  destruct (is_empty torn); auto.
Qed.
End Index.
