(* ===== verification/Columnar.v ===== *)
(** * Parquet files of market data

    The writers and readers of [src/aetelier-io/src/]: [trades/trades_parquet.rs],
    [liquidations/liq_parquet.rs], [funding/funding_parquet.rs],
    [funding/settlement_parquet.rs], [open_interest/oi_parquet.rs] and the synchronized part
    of [orderbooks/ob_parquet.rs].  A datatype is an instance of [Table]: its schema, its
    columns and the reader of one row.  Arrow and Parquet are a parameter: which tables they
    accept, the bytes of a file and the batches a reader finds in them. *)
From Stdlib Require Import Ascii String.
From stdpp Require Import strings pretty.
From S2P Require Import Prelude BTree Strings Numeric Pairs Types Book Disk Leaf.
Local Open Scope nat_scope.
Local Open Scope list_scope.

(** ** Arrow *)

Inductive DataType := UInt64 | UInt32 | Utf8 | Float64.
Record Field := { field_name : string; field_type : DataType; nullable : bool }.
Definition new_field (n : string) (t : DataType) (nu : bool) : Field :=
  {| field_name := n; field_type := t; nullable := nu |}.

Section Arrow.
Context {NU : Numeric}.

(** An array; a null is [None]. *)
Inductive Column :=
| UInt64Array (l : list N)
| UInt32Array (l : list N)
| StringArray (l : list string)
| Float64Array (l : list (option F64)).

(** [Float64Array::from(Vec<f64>)] *)
Definition float_array (l : list F64) : Column := Float64Array (Some <$> l).

Definition column_type (c : Column) : DataType :=
  match c with
  | UInt64Array _ => UInt64 | UInt32Array _ => UInt32
  | StringArray _ => Utf8 | Float64Array _ => Float64
  end.

Definition column_len (c : Column) : nat :=
  match c with
  | UInt64Array l | UInt32Array l => length l
  | StringArray l => length l
  | Float64Array l => length l
  end.

Definition column_nulls (c : Column) : bool :=
  match c with Float64Array l => existsb (fun o => match o with None => true | _ => false end) l
          | _ => false end.

(** Rows [off .. off + n]. *)
Definition slice (off n : nat) (c : Column) : Column :=
  match c with
  | UInt64Array l => UInt64Array (take n (drop off l))
  | UInt32Array l => UInt32Array (take n (drop off l))
  | StringArray l => StringArray (take n (drop off l))
  | Float64Array l => Float64Array (take n (drop off l))
  end.

Fixpoint slices (off : nat) (ns : list nat) (cols : list Column) : list (list Column) :=
  match ns with
  | [] => []
  | n :: ns => (slice off n <$> cols) :: slices (off + n) ns cols
  end.
End Arrow.

(** [RecordBatch::try_new] with its error, [ArrowWriter] (Snappy) and
    [ParquetRecordBatchReaderBuilder]; a batch may be unreadable on its own. *)
Class Parquet `{Numeric} := {
  try_new : list Field -> list Column -> Result unit string;
  parquet_bytes : list Field -> list Column -> string;
  parquet_batches : string -> Result (list (Result (list Column) string)) string
}.

Section Batches.
Context {NU : Numeric}.

(** [batch.num_rows()], [batch.column(k).as_primitive()], [as_string()]: [None] is a panic. *)
Definition num_rows (b : list Column) : nat :=
  match b with c :: _ => column_len c | [] => 0 end.

Definition col_u64 (b : list Column) (k : nat) : option (list N) :=
  match b !! k with Some (UInt64Array l) => Some l | _ => None end.
Definition col_u32 (b : list Column) (k : nat) : option (list N) :=
  match b !! k with Some (UInt32Array l) => Some l | _ => None end.
Definition col_str (b : list Column) (k : nat) : option (list string) :=
  match b !! k with Some (StringArray l) => Some l | _ => None end.
Definition col_f64 (b : list Column) (k : nat) : option (list (option F64)) :=
  match b !! k with Some (Float64Array l) => Some l | _ => None end.

(** [column.value(i)] *)
Definition u64_at (b : list Column) (k i : nat) : option N := l ← col_u64 b k; l !! i.
Definition u32_at (b : list Column) (k i : nat) : option N := l ← col_u32 b k; l !! i.
Definition str_at (b : list Column) (k i : nat) : option string := l ← col_str b k; l !! i.
(** The slot of a null holds zero. *)
Definition f64_at (b : list Column) (k i : nat) : option F64 :=
  l ← col_f64 b k; default f64_zero <$> l !! i.
(** [col.is_valid(i).then(|| f64_to_decimal(col.value(i)))] *)
Definition opt_dec_at (b : list Column) (k i : nat) : option (option Dec) :=
  l ← col_f64 b k; option_map f64_to_decimal <$> l !! i.
Definition dec_at (b : list Column) (k i : nat) : option Dec := f64_to_decimal <$> f64_at b k i.

(** A column that files of an older schema do not have. *)
Definition u64_if (present : bool) (b : list Column) (k i : nat) : option N :=
  if present then u64_at b k i else Some 0%N.

Definition row_error (what path : string) (i : nat) : PersistError :=
  PersistParse ("row " ++ pretty (N.of_nat i) ++ ": " ++ what ++ " in " ++ path)%string.

(** [symbol.parse::<TradingPair>()] with the error of the readers *)
Definition read_pair (path : string) (i : nat) (symbol : string) : Result TradingPair PersistError :=
  map_err (fun _ => row_error ("malformed symbol '" ++ symbol ++ "'") path i)
    (TradingPair_from_str symbol).

(** The loop over the rows of a batch, up to the first error. *)
Fixpoint read_rows {A} (row : nat -> option (Result A PersistError)) (is_ : list nat)
    : option (Result (list A) PersistError) :=
  match is_ with
  | [] => Some (Ok [])
  | i :: is_ =>
    r ← row i;
    match r with
    | Err e => Some (Err e)
    | Ok a =>
      rest ← read_rows row is_;
      Some (match rest with Ok l => Ok (a :: l) | Err e => Err e end)
    end
  end.

Fixpoint read_batches {A} (row : list Column -> nat -> option (Result A PersistError))
    (bs : list (Result (list Column) string)) : option (Result (list A) PersistError) :=
  match bs with
  | [] => Some (Ok [])
  | Err e :: _ => Some (Err (PersistParse e))
  | Ok b :: bs =>
    r ← read_rows (row b) (seq 0 (num_rows b));
    match r with
    | Err e => Some (Err e)
    | Ok l =>
      rest ← read_batches row bs;
      Some (match rest with Ok l' => Ok (l ++ l') | Err e => Err e end)
    end
  end.

Definition decode_rows {A} {PQ : Parquet} (row : list Column -> nat -> option (Result A PersistError))
    (bytes : string) : option (Result (list A) PersistError) :=
  match parquet_batches bytes with
  | Err e => Some (Err (PersistParse e))
  | Ok bs => read_batches row bs
  end.
End Batches.

(** A datatype with a Parquet form. *)
Class Table {NU : Numeric} (A : Type) := {
  table_schema : list Field;
  table_columns : list A -> list Column;
  table_row : string -> list Column -> nat -> option (Result A PersistError)
}.
Arguments table_schema {NU} A {_}.

Section Files.
Context {NU : Numeric} {PQ : Parquet} {DK : Disk}.
Local Open Scope io_scope.

Definition write_table {A} {TB : Table A} (rows : list A) (p : Path) : IO unit :=
  do! io_lift (map_err PersistParse (try_new (table_schema A) (table_columns rows))) in
  do! create_file p in
  append_bytes p (parquet_bytes (table_schema A) (table_columns rows)) PersistParse.

(** [None]: the reader panicked. *)
Definition read_table {A} {TB : Table A} (p : Path) : IO (option (list A)) :=
  let! bytes := read_file p in
  match decode_rows (table_row (path_join p.1 p.2)) bytes with
  | None => io_ret None
  | Some (Ok l) => io_ret (Some l)
  | Some (Err e) => io_err e
  end.

(** The file name of a batch: venue and symbol of its first row, and its first instant. *)
Definition first_symbol {A} (pair : A -> TradingPair) (rows : list A) : string :=
  match rows with r :: _ => to_canonical (pair r) | [] => "unknown" end.
Definition first_exchange {A} (exchange : A -> string) (rows : list A) : string :=
  match rows with r :: _ => exchange r | [] => "unknown" end.

Definition batch_name (exchange symbol datatype mode stamp : string) : string :=
  (exchange ++ "_" ++ symbol ++ "_" ++ datatype ++ "_" ++ mode ++ "_" ++ stamp ++ ".parquet")%string.

Definition file_symbol (raw : string) : string := replace_char ":" "_" (replace_char "/" "-" raw).
End Files.

Section Tables.
Context {NU : Numeric}.
Local Open Scope result_scope.

(** ** trades_parquet.rs *)

Definition read_trade (path : string) (b : list Column) (i : nat)
    : option (Result Trade PersistError) :=
  ts ← u64_at b 0 i; symbol ← str_at b 1 i; side ← str_at b 2 i;
  price ← dec_at b 3 i; amount ← dec_at b 4 i; exchange ← str_at b 5 i; id ← str_at b 6 i;
  local_ts ← u64_if (7 <? length b) b 7 i;
  rtt ← u64_if (8 <? length b) b 8 i;
  origin ← (if 9 <? length b then Some <$> str_at b 9 i else Some None);
  Some (
    let? p := read_pair path i symbol in
    let? side' := map_err (fun _ => row_error ("unknown trade side '" ++ side ++ "'")%string path i)
                    (TradeSide_from_str side) in
    let? origin' := match origin with
                    | Some o => map_err (fun _ => row_error ("unknown trade origin '" ++ o ++ "'")%string path i)
                                  (TradeOrigin_from_str o)
                    | None => Ok Ws
                    end in
    Ok {| source_trade_ts_us := ts; local_trade_ts_us := local_ts; source_trade_rtt_us := rtt;
          trade_pair := p; trade_side := side'; trade_amount := amount; trade_price := price;
          trade_exchange := exchange; trade_id := id; trade_origin := origin' |}).

#[export] Instance trade_table : Table Trade := {
  table_schema := [
    new_field "source_trade_ts_us" UInt64 false; new_field "symbol" Utf8 false;
    new_field "side" Utf8 false; new_field "price" Float64 false;
    new_field "amount" Float64 false; new_field "exchange" Utf8 false;
    new_field "id" Utf8 false; new_field "local_trade_ts_us" UInt64 false;
    new_field "source_trade_rtt_us" UInt64 false; new_field "origin" Utf8 false];
  table_columns ts := [
    UInt64Array (source_trade_ts_us <$> ts);
    StringArray ((fun t => to_canonical (trade_pair t)) <$> ts);
    StringArray ((fun t => TradeSide_as_str (trade_side t)) <$> ts);
    float_array ((fun t => decimal_to_f64 (trade_price t)) <$> ts);
    float_array ((fun t => decimal_to_f64 (trade_amount t)) <$> ts);
    StringArray (trade_exchange <$> ts);
    StringArray (trade_id <$> ts);
    UInt64Array (local_trade_ts_us <$> ts);
    UInt64Array (source_trade_rtt_us <$> ts);
    StringArray ((fun t => TradeOrigin_as_str (trade_origin t)) <$> ts)];
  table_row := read_trade
}.

(** ** liq_parquet.rs *)

Definition read_liquidation (path : string) (b : list Column) (i : nat)
    : option (Result Liquidation PersistError) :=
  ts ← u64_at b 0 i; symbol ← str_at b 1 i; side ← str_at b 2 i;
  price ← dec_at b 3 i; amount ← dec_at b 4 i; exchange ← str_at b 5 i;
  Some (
    let? p := read_pair path i symbol in
    let? side' := map_err (fun _ => row_error ("unknown liquidation side '" ++ side ++ "'")%string path i)
                    (TradeSide_from_str side) in
    Ok {| liquidation_ts_us := ts; liquidation_pair := p; liquidation_side := side';
          liquidation_amount := amount; liquidation_price := price;
          liquidation_exchange := exchange |}).

#[export] Instance liquidation_table : Table Liquidation := {
  table_schema := [
    new_field "liquidation_ts_us" UInt64 false; new_field "symbol" Utf8 false;
    new_field "side" Utf8 false; new_field "price" Float64 false;
    new_field "amount" Float64 false; new_field "exchange" Utf8 false];
  table_columns ls := [
    UInt64Array (liquidation_ts_us <$> ls);
    StringArray ((fun l => to_canonical (liquidation_pair l)) <$> ls);
    StringArray ((fun l => TradeSide_as_str (liquidation_side l)) <$> ls);
    float_array ((fun l => decimal_to_f64 (liquidation_price l)) <$> ls);
    float_array ((fun l => decimal_to_f64 (liquidation_amount l)) <$> ls);
    StringArray (liquidation_exchange <$> ls)];
  table_row := read_liquidation
}.

(** ** funding_parquet.rs *)

(** A column of the archive before the epochs were microseconds reads as zero; an index
    out of range panics. *)
Definition conn_epoch_us_at (b : list Column) (ordinal i : nat) : option N :=
  match b !! ordinal with
  | Some (UInt64Array l) => l !! i
  | Some _ => Some 0%N
  | None => None
  end.

Definition read_funding (path : string) (b : list Column) (i : nat)
    : option (Result FundingRate PersistError) :=
  ts ← u64_at b 0 i; symbol ← str_at b 1 i; rate ← dec_at b 2 i; next_ts ← u64_at b 3 i;
  exchange ← str_at b 4 i;
  ext ← (if 10 <=? length b then
           locals ← u64_at b 5 i; seqs ← u64_at b 6 i; epoch ← conn_epoch_us_at b 7 i;
           premium ← opt_dec_at b 8 i; interval ← u32_at b 9 i;
           Some (locals, seqs, epoch, premium, interval)
         else Some (0%N, 0%N, 0%N, None, 8%N));
  let '(local_ts, recv_seq, epoch, premium, interval) := ext in
  Some (
    let? p := read_pair path i symbol in
    Ok {| funding_rate_ts_us := ts; local_funding_ts_us := local_ts;
          funding_recv_seq := recv_seq; funding_conn_epoch_us := epoch; funding_pair := p;
          funding_rate := rate; funding_premium := premium; interval_hours := interval;
          next_funding_ts_us := next_ts; funding_exchange := exchange |}).

#[export] Instance funding_table : Table FundingRate := {
  table_schema := [
    new_field "funding_rate_ts_us" UInt64 false; new_field "symbol" Utf8 false;
    new_field "funding_rate" Float64 false; new_field "next_funding_ts_us" UInt64 false;
    new_field "exchange" Utf8 false; new_field "local_funding_ts_us" UInt64 false;
    new_field "recv_seq" UInt64 false; new_field "conn_epoch_us" UInt64 false;
    new_field "premium" Float64 true; new_field "interval_hours" UInt32 false];
  table_columns rs := [
    UInt64Array (funding_rate_ts_us <$> rs);
    StringArray ((fun r => to_canonical (funding_pair r)) <$> rs);
    float_array ((fun r => decimal_to_f64 (funding_rate r)) <$> rs);
    UInt64Array (next_funding_ts_us <$> rs);
    StringArray (funding_exchange <$> rs);
    UInt64Array (local_funding_ts_us <$> rs);
    UInt64Array (funding_recv_seq <$> rs);
    UInt64Array (funding_conn_epoch_us <$> rs);
    Float64Array ((fun r => option_map decimal_to_f64 (funding_premium r)) <$> rs);
    UInt32Array (interval_hours <$> rs)];
  table_row := read_funding
}.

(** ** settlement_parquet.rs *)

Definition read_settlement (path : string) (b : list Column) (i : nat)
    : option (Result FundingSettlement PersistError) :=
  time ← u64_at b 0 i; symbol ← str_at b 1 i; rate ← dec_at b 2 i; premium ← opt_dec_at b 3 i;
  exchange ← str_at b 4 i; local_ts ← u64_at b 5 i; rtt ← u64_at b 6 i;
  Some (
    let? p := read_pair path i symbol in
    Ok {| funding_time_us := time; settlement_local_ts_us := local_ts; settlement_rtt_us := rtt;
          settlement_pair := p; settlement_rate := rate; settlement_premium := premium;
          settlement_exchange := exchange |}).

#[export] Instance settlement_table : Table FundingSettlement := {
  table_schema := [
    new_field "funding_time_us" UInt64 false; new_field "symbol" Utf8 false;
    new_field "funding_rate" Float64 false; new_field "premium" Float64 true;
    new_field "exchange" Utf8 false; new_field "local_ts_us" UInt64 false;
    new_field "rtt_us" UInt64 false];
  table_columns fs := [
    UInt64Array (funding_time_us <$> fs);
    StringArray ((fun f => to_canonical (settlement_pair f)) <$> fs);
    float_array ((fun f => decimal_to_f64 (settlement_rate f)) <$> fs);
    Float64Array ((fun f => option_map decimal_to_f64 (settlement_premium f)) <$> fs);
    StringArray (settlement_exchange <$> fs);
    UInt64Array (settlement_local_ts_us <$> fs);
    UInt64Array (settlement_rtt_us <$> fs)];
  table_row := read_settlement
}.

(** ** oi_parquet.rs *)

Definition read_oi (path : string) (b : list Column) (i : nat)
    : option (Result OpenInterest PersistError) :=
  ts ← u64_at b 0 i; symbol ← str_at b 1 i; oi ← dec_at b 2 i; value ← opt_dec_at b 3 i;
  exchange ← str_at b 4 i;
  ext ← (if 9 <=? length b then
           locals ← u64_at b 5 i; seqs ← u64_at b 6 i; epoch ← conn_epoch_us_at b 7 i;
           mark ← opt_dec_at b 8 i;
           Some (locals, seqs, epoch, mark)
         else Some (0%N, 0%N, 0%N, None));
  let '(local_ts, recv_seq, epoch, mark) := ext in
  Some (
    let? p := read_pair path i symbol in
    Ok {| open_interest_ts_us := ts; local_oi_ts_us := local_ts; oi_recv_seq := recv_seq;
          oi_conn_epoch_us := epoch; oi_pair := p; open_interest := oi;
          open_interest_value := value; mark_px := mark; oi_exchange := exchange |}).

#[export] Instance oi_table : Table OpenInterest := {
  table_schema := [
    new_field "open_interest_ts_us" UInt64 false; new_field "symbol" Utf8 false;
    new_field "open_interest" Float64 false; new_field "open_interest_value" Float64 true;
    new_field "exchange" Utf8 false; new_field "local_oi_ts_us" UInt64 false;
    new_field "recv_seq" UInt64 false; new_field "conn_epoch_us" UInt64 false;
    new_field "mark_px" Float64 true];
  table_columns rs := [
    UInt64Array (open_interest_ts_us <$> rs);
    StringArray ((fun r => to_canonical (oi_pair r)) <$> rs);
    float_array ((fun r => decimal_to_f64 (open_interest r)) <$> rs);
    Float64Array ((fun r => option_map decimal_to_f64 (open_interest_value r)) <$> rs);
    StringArray (oi_exchange <$> rs);
    UInt64Array (local_oi_ts_us <$> rs);
    UInt64Array (oi_recv_seq <$> rs);
    UInt64Array (oi_conn_epoch_us <$> rs);
    Float64Array ((fun r => option_map decimal_to_f64 (mark_px r)) <$> rs)];
  table_row := read_oi
}.

(** ** ob_parquet.rs: one row per level *)

Record LevelRow := {
  lr_ts : N;
  lr_symbol : string;
  lr_exchange : string;
  lr_side : string;
  lr_level : N;
  lr_price : F64;
  lr_size : F64;
  lr_source_ts : N;
  lr_local_ts : N;
  lr_rtt : N
}.

Definition read_level_row (path : string) (b : list Column) (i : nat)
    : option (Result LevelRow PersistError) :=
  ts ← u64_at b 0 i; symbol ← str_at b 1 i; exchange ← str_at b 2 i; side ← str_at b 3 i;
  level ← u64_at b 4 i; price ← f64_at b 5 i; size ← f64_at b 6 i;
  src ← u64_if (7 <? length b) b 7 i; loc ← u64_if (8 <? length b) b 8 i;
  rtt ← u64_if (9 <? length b) b 9 i;
  Some (
    if (side =? "bid")%string || (side =? "ask")%string then
      Ok {| lr_ts := ts; lr_symbol := symbol; lr_exchange := exchange; lr_side := side;
            lr_level := level; lr_price := price; lr_size := size; lr_source_ts := src;
            lr_local_ts := loc; lr_rtt := rtt |}
    else Err (row_error ("unknown book side '" ++ side ++ "'")%string path i)).

#[export] Instance level_table : Table LevelRow := {
  table_schema := [
    new_field "orderbook_ts_us" UInt64 false; new_field "symbol" Utf8 false;
    new_field "exchange" Utf8 false; new_field "side" Utf8 false;
    new_field "level" UInt64 false; new_field "price" Float64 false;
    new_field "size" Float64 false; new_field "source_orderbook_ts_us" UInt64 false;
    new_field "local_orderbook_ts_us" UInt64 false;
    new_field "source_orderbook_rtt_us" UInt64 false];
  table_columns rs := [
    UInt64Array (lr_ts <$> rs); StringArray (lr_symbol <$> rs); StringArray (lr_exchange <$> rs);
    StringArray (lr_side <$> rs); UInt64Array (lr_level <$> rs); float_array (lr_price <$> rs);
    float_array (lr_size <$> rs); UInt64Array (lr_source_ts <$> rs);
    UInt64Array (lr_local_ts <$> rs); UInt64Array (lr_rtt <$> rs)];
  table_row := read_level_row
}.

Definition side_rows (o : Orderbook) (side : OrderSide) (levels : list Level) : list LevelRow :=
  imap (fun idx l =>
    {| lr_ts := orderbook_ts_us o; lr_symbol := to_canonical (ob_pair o);
       lr_exchange := ob_exchange o; lr_side := OrderSide_as_str side; lr_level := N.of_nat idx;
       lr_price := decimal_to_f64 (level_price l); lr_size := decimal_to_f64 (level_volume l);
       lr_source_ts := ob_source_ts_us o; lr_local_ts := ob_local_ts_us o;
       lr_rtt := ob_rtt_us o |}) levels.

(** Bids best first, then asks. *)
Definition book_rows (o : Orderbook) : list LevelRow :=
  side_rows o Bids (map snd (rev (ob_bids o))) ++ side_rows o Asks (map snd (ob_asks o)).
End Tables.

(** ** The writers and readers *)

Section Writers.
Context {NU : Numeric} {PQ : Parquet} {DK : Disk} {CA : Calendar}.
Local Open Scope io_scope.

Definition write_trades_parquet (trades : list Trade) (p : Path) : IO unit := write_table trades p.
Definition write_liquidations_parquet (ls : list Liquidation) (p : Path) : IO unit := write_table ls p.
Definition write_funding_parquet (rs : list FundingRate) (p : Path) : IO unit := write_table rs p.
Definition write_funding_settlement_parquet (fs : list FundingSettlement) (p : Path) : IO unit :=
  write_table fs p.
Definition write_oi_parquet (rs : list OpenInterest) (p : Path) : IO unit := write_table rs p.

Definition read_trades_parquet (p : Path) : IO (option (list Trade)) := read_table p.
Definition read_liquidations_parquet (p : Path) : IO (option (list Liquidation)) := read_table p.
Definition read_funding_parquet (p : Path) : IO (option (list FundingRate)) := read_table p.
Definition read_funding_settlement_parquet (p : Path) : IO (option (list FundingSettlement)) :=
  read_table p.
Definition read_oi_parquet (p : Path) : IO (option (list OpenInterest)) := read_table p.

(** A batch under a free name of the directory: the stamp, the name, the file. *)
Definition write_stamped {A} (stamps : list N) (name : string -> string)
    (write : list A -> Path -> IO unit) (rows : list A) (dir : string) : IO string :=
  let! stamp := batch_stamp stamps in
  let! file := io_get (unique_path dir (name stamp)) in
  do! write rows (dir, file) in
  io_ret file.

Definition write_trades_parquet_timestamped (trades : list Trade) (dir mode : string) : IO string :=
  write_stamped ((fun t => effective_us (source_trade_ts_us t) (local_trade_ts_us t)) <$> trades)
    (batch_name (first_exchange trade_exchange trades)
       (file_symbol (first_symbol trade_pair trades)) "trades" mode)
    write_trades_parquet trades dir.

Definition write_liquidations_parquet_timestamped (ls : list Liquidation) (dir mode : string)
    : IO string :=
  write_stamped (liquidation_ts_us <$> ls)
    (batch_name (first_exchange liquidation_exchange ls)
       (file_symbol (first_symbol liquidation_pair ls)) "liquidations" mode)
    write_liquidations_parquet ls dir.

Definition write_funding_parquet_timestamped (rs : list FundingRate) (dir mode : string) : IO string :=
  write_stamped ((fun r => effective_us (funding_rate_ts_us r) (local_funding_ts_us r)) <$> rs)
    (batch_name (first_exchange funding_exchange rs)
       (file_symbol (first_symbol funding_pair rs)) "funding" mode)
    write_funding_parquet rs dir.

(** The colon of a prefixed base stays in the name here. *)
Definition write_funding_settlement_parquet_timestamped (fs : list FundingSettlement)
    (dir mode : string) : IO string :=
  write_stamped ((fun f => effective_us (funding_time_us f) (settlement_local_ts_us f)) <$> fs)
    (batch_name (first_exchange settlement_exchange fs)
       (replace_char "/" "-" (first_symbol settlement_pair fs)) "funding_settlement" mode)
    write_funding_settlement_parquet fs dir.

Definition write_oi_parquet_timestamped (rs : list OpenInterest) (dir mode : string) : IO string :=
  write_stamped ((fun r => effective_us (open_interest_ts_us r) (local_oi_ts_us r)) <$> rs)
    (batch_name (first_exchange oi_exchange rs)
       (file_symbol (first_symbol oi_pair rs)) "oi" mode)
    write_oi_parquet rs dir.

(** The batch is given by its first book, [snapshots[0]], and the rest.  The table is built
    before the name is chosen. *)
Definition write_ob_parquet (first : Orderbook) (rest : list Orderbook) (dir mode : string)
    : IO string :=
  let snapshots := first :: rest in
  let rows := snapshots ≫= book_rows in
  do! io_lift (map_err PersistParse (try_new (table_schema LevelRow) (table_columns rows))) in
  let! stamp := batch_stamp ((fun o => effective_us (orderbook_ts_us o) (ob_local_ts_us o)) <$> snapshots) in
  let! file := io_get (unique_path dir
    (batch_name (ob_exchange first) (file_symbol (to_canonical (ob_pair first))) "ob" mode stamp)) in
  do! create_file (dir, file) in
  do! append_bytes (dir, file) (parquet_bytes (table_schema LevelRow) (table_columns rows)) PersistParse in
  io_ret file.

(** ** [load_parquet_to_ob] *)

Record BookGroup := {
  g_symbol : string;
  g_exchange : string;
  g_source_ts : N;
  g_local_ts : N;
  g_rtt : N;
  g_bids : list LevelRow;
  g_asks : list LevelRow
}.

Definition new_group (r : LevelRow) : BookGroup := {|
  g_symbol := lr_symbol r; g_exchange := lr_exchange r; g_source_ts := lr_source_ts r;
  g_local_ts := lr_local_ts r; g_rtt := lr_rtt r; g_bids := []; g_asks := [] |}.

Definition add_row (g : BookGroup) (r : LevelRow) : BookGroup :=
  if (lr_side r =? "bid")%string
  then {| g_symbol := g_symbol g; g_exchange := g_exchange g; g_source_ts := g_source_ts g;
          g_local_ts := g_local_ts g; g_rtt := g_rtt g; g_bids := g_bids g ++ [r];
          g_asks := g_asks g |}
  else {| g_symbol := g_symbol g; g_exchange := g_exchange g; g_source_ts := g_source_ts g;
          g_local_ts := g_local_ts g; g_rtt := g_rtt g; g_bids := g_bids g;
          g_asks := g_asks g ++ [r] |}.

(** One row into its group: [groups.entry((symbol, ts)).or_insert_with(..)]. *)
Definition group_row (groups : btree (string * N) BookGroup) (r : LevelRow)
    : btree (string * N) BookGroup :=
  let key := (lr_symbol r, lr_ts r) in
  bt_insert key (add_row (default (new_group r) (bt_get key groups)) r) groups.

(** [sort_by_key(|(l, _, _)| *l)] and the levels of a side; [idx as u32] wraps. *)
Definition group_levels (side : OrderSide) (rows : list LevelRow) : list Level :=
  (fun r => {| level_id := lr_level r mod 4294967296; level_side := side;
               level_price := f64_to_decimal (lr_price r);
               level_volume := f64_to_decimal (lr_size r); level_orders := [] |})
  <$> sort_by (fun a b => (lr_level a <=? lr_level b)%N) rows.

Definition group_book (path : string) (key : string * N) (g : BookGroup)
    : Result Orderbook PersistError :=
  match TradingPair_from_str (g_symbol g) with
  | Err _ => Err (PersistParse ("malformed symbol '" ++ g_symbol g ++ "' in " ++ path)%string)
  | Ok p =>
    let ob := Orderbook_from_levels 0 key.2 p (g_exchange g)
                (group_levels Bids (g_bids g)) (group_levels Asks (g_asks g)) in
    Ok {| orderbook_id := orderbook_id ob; orderbook_ts_us := orderbook_ts_us ob;
          ob_source_ts_us := g_source_ts g; ob_local_ts_us := g_local_ts g;
          ob_rtt_us := g_rtt g; ob_pair := ob_pair ob; ob_exchange := ob_exchange ob;
          ob_bids := ob_bids ob; ob_asks := ob_asks ob |}
  end.

Fixpoint group_books (path : string) (groups : btree (string * N) BookGroup)
    : Result (list Orderbook) PersistError :=
  match groups with
  | [] => Ok []
  | (k, g) :: groups =>
    match group_book path k g with
    | Err e => Err e
    | Ok o => match group_books path groups with Ok os => Ok (o :: os) | Err e => Err e end
    end
  end.

Definition load_parquet_to_ob (p : Path) : IO (option (list Orderbook)) :=
  let! rows := read_table p in
  match rows with
  | None => io_ret None
  | Some rows =>
    let! books := io_lift (group_books (path_join p.1 p.2) (fold_left group_row rows [])) in
    io_ret (Some books)
  end.
End Writers.
