(* ===== verification/ColumnarProps.v ===== *)
(** * What a Parquet file gives back

    The documented behaviour of the Parquet crate as [ParquetLaws], the interface
    [TableLaws] that every datatype satisfies, and the round trips: what
    a reader finds in a file of the writer, for the current schema and for the older
    ones, for every datatype and for the order books. *)
From Stdlib Require Import Ascii String Sorted.
From stdpp Require Import strings pretty.
From S2P Require Import Prelude BTree Strings Numeric Pairs Types Book Disk Leaf Columnar.
Local Open Scope nat_scope.
Local Open Scope list_scope.

Section Laws.
Context {NU : Numeric}.

(** A table Arrow accepts: the columns have the types of the fields, one length, and nulls only
    where the schema allows them. *)
Definition batch_ok (fields : list Field) (cols : list Column) : Prop :=
  Forall2 (fun f c => column_type c = field_type f /\ column_len c = num_rows cols /\
                      (nullable f = false -> column_nulls c = false)) fields cols.

(** A file gives its table back, cut into batches of rows. *)
Class ParquetLaws (PQ : Parquet) : Prop := {
  try_new_ok fields cols : batch_ok fields cols -> try_new fields cols = Ok tt;
  parquet_roundtrip fields cols : batch_ok fields cols ->
    exists ns, sum_list ns = num_rows cols /\
      parquet_batches (parquet_bytes fields cols) = Ok (Ok <$> slices 0 ns cols)
}.

(** What the writer and the reader of a datatype promise: a row that is [table_ok] comes back
    as [reread]. *)
Class TableLaws (A : Type) {TB : Table A} := {
  table_ok : A -> Prop;
  reread : A -> A;
  table_columns_ok (l : list A) : batch_ok (table_schema A) (table_columns l);
  table_columns_slice off n (l : list A) :
    slice off n <$> table_columns l = table_columns (take n (drop off l));
  table_num_rows (l : list A) : num_rows (table_columns l) = length l;
  table_row_ok path (l : list A) i x :
    l !! i = Some x -> table_ok x -> table_row path (table_columns l) i = Some (Ok (reread x))
}.

(** ** Reading rows *)

Lemma read_rows_fmap {A} (row : nat -> option (Result A PersistError)) {B} (g : B -> A) (l : list B) k :
  (forall j x, l !! j = Some x -> row (k + j) = Some (Ok (g x))) ->
  read_rows row (seq k (length l)) = Some (Ok (g <$> l)).
Proof.
  revert k. induction l as [|x l IH]; intros k H; [done|]. simpl.
  pose proof (H 0 x eq_refl) as H0. rewrite Nat.add_0_r in H0. rewrite H0. simpl.
  rewrite IH; [done|]. intros j y Hj. replace (S k + j) with (k + S j) by lia. by apply H.
Qed.

Lemma read_batches_slices {A} (row : list Column -> nat -> option (Result A PersistError))
    {B} (g : B -> A) (cols : list B -> list Column) (P : B -> Prop) :
  (forall off n l, slice off n <$> cols l = cols (take n (drop off l))) ->
  (forall l, num_rows (cols l) = length l) ->
  (forall l j x, l !! j = Some x -> P x -> row (cols l) j = Some (Ok (g x))) ->
  forall ns off l, Forall P l ->
  read_batches row (Ok <$> slices off ns (cols l)) = Some (Ok (g <$> take (sum_list ns) (drop off l))).
Proof.
  intros Hs Hn Hr ns. induction ns as [|n ns IH]; intros off l Hl; [done|].
  cbn [slices fmap list_fmap read_batches sum_list]. rewrite Hs, Hn.
  rewrite (read_rows_fmap _ g).
  - simpl. change (list_fmap (list Column) (Result (list Column) string) Ok) with
      (fmap (M := list) (A := list Column) (B := Result (list Column) string) Ok).
    rewrite IH by done. simpl. rewrite <- fmap_app, <- take_take_drop.
    by rewrite drop_drop.
  - intros j x Hj. simpl. apply Hr; [done|].
    apply lookup_take_Some in Hj as [Hj _]. rewrite lookup_drop in Hj.
    by apply (Forall_lookup_1 _ _ _ _ Hl Hj).
Qed.

Context {PQ : Parquet} {PL : ParquetLaws PQ}.

Lemma decode_table {A} {TB : Table A} {TL : TableLaws A} path (l : list A) :
  Forall table_ok l ->
  decode_rows (table_row path) (parquet_bytes (table_schema A) (table_columns l))
  = Some (Ok (reread <$> l)).
Proof.
  intros Hl. destruct (parquet_roundtrip _ _ (table_columns_ok l)) as (ns & Hns & Hb).
  unfold decode_rows. rewrite Hb.
  rewrite (read_batches_slices _ reread table_columns table_ok) by eauto using
    table_columns_slice, table_num_rows, table_row_ok.
  rewrite Hns, table_num_rows, drop_0. by rewrite take_ge by done.
Qed.
End Laws.

(** Columns of an instance, looked up at a row. *)
Ltac table_row :=
  intros path l i x Hx; cbn;
  repeat (rewrite ?list_lookup_fmap, ?Hx; cbn).

Ltac table_slice := intros off n l; cbn; unfold float_array; by rewrite ?fmap_take, ?fmap_drop.

Lemma float_array_nulls `{Numeric} l : column_nulls (float_array l) = false.
Proof. induction l; done. Qed.

Ltac table_columns :=
  intros l; unfold batch_ok; cbn;
  repeat first [apply Forall2_nil_2 | apply Forall2_cons_2];
  repeat split; cbn; rewrite ?length_fmap; try done; intros _; apply float_array_nulls.

Section Instances.
Context {NU : Numeric}.

(** A pair that its canonical text parses to. *)
Definition canonical_pair (p : TradingPair) : Prop := TradingPair_from_str (to_canonical p) = Ok p.

(** A decimal as an [f64] column gives it back. *)
Definition through_f64 (d : Dec) : Dec := f64_to_decimal (decimal_to_f64 d).

Lemma read_canonical path i p : canonical_pair p -> read_pair path i (to_canonical p) = Ok p.
Proof. unfold canonical_pair, read_pair. by intros ->. Qed.

Lemma TradeSide_roundtrip s : TradeSide_from_str (TradeSide_as_str s) = Ok s.
Proof. by destruct s. Qed.

Lemma TradeOrigin_roundtrip o : TradeOrigin_from_str (TradeOrigin_as_str o) = Ok o.
Proof. by destruct o. Qed.

Definition reread_trade (t : Trade) : Trade := {|
  source_trade_ts_us := source_trade_ts_us t; local_trade_ts_us := local_trade_ts_us t;
  source_trade_rtt_us := source_trade_rtt_us t; trade_pair := trade_pair t;
  trade_side := trade_side t; trade_amount := through_f64 (trade_amount t);
  trade_price := through_f64 (trade_price t); trade_exchange := trade_exchange t;
  trade_id := trade_id t; trade_origin := trade_origin t |}.

#[export] Instance trade_table_laws : TableLaws Trade.
Proof.
  refine (@Build_TableLaws _ _ _ (fun t => canonical_pair (trade_pair t)) reread_trade _ _ _ _).
  - table_columns.
  - table_slice.
  - intros l. cbn. by rewrite length_fmap.
  - table_row. intros Hp. rewrite read_canonical by done.
    by rewrite TradeSide_roundtrip, TradeOrigin_roundtrip.
Defined.
Definition reread_liquidation (l : Liquidation) : Liquidation := {|
  liquidation_ts_us := liquidation_ts_us l; liquidation_pair := liquidation_pair l;
  liquidation_side := liquidation_side l; liquidation_amount := through_f64 (liquidation_amount l);
  liquidation_price := through_f64 (liquidation_price l);
  liquidation_exchange := liquidation_exchange l |}.

#[export] Instance liquidation_table_laws : TableLaws Liquidation.
Proof.
  refine (@Build_TableLaws _ _ _ (fun l => canonical_pair (liquidation_pair l)) reread_liquidation _ _ _ _).
  - table_columns.
  - table_slice.
  - intros l. cbn. by rewrite length_fmap.
  - table_row. intros Hp. rewrite read_canonical by done. by rewrite TradeSide_roundtrip.
Defined.

Definition reread_funding (r : FundingRate) : FundingRate := {|
  funding_rate_ts_us := funding_rate_ts_us r; local_funding_ts_us := local_funding_ts_us r;
  funding_recv_seq := funding_recv_seq r; funding_conn_epoch_us := funding_conn_epoch_us r;
  funding_pair := funding_pair r; funding_rate := through_f64 (funding_rate r);
  funding_premium := option_map through_f64 (funding_premium r);
  interval_hours := interval_hours r; next_funding_ts_us := next_funding_ts_us r;
  funding_exchange := funding_exchange r |}.

Lemma option_map_through (o : option Dec) :
  option_map f64_to_decimal (option_map decimal_to_f64 o) = option_map through_f64 o.
Proof. by destruct o. Qed.

#[export] Instance funding_table_laws : TableLaws FundingRate.
Proof.
  refine (@Build_TableLaws _ _ _ (fun r => canonical_pair (funding_pair r)) reread_funding _ _ _ _).
  - table_columns.
  - table_slice.
  - intros l. cbn. by rewrite length_fmap.
  - table_row. intros Hp. by rewrite read_canonical, option_map_through.
Defined.

Definition reread_settlement (f : FundingSettlement) : FundingSettlement := {|
  funding_time_us := funding_time_us f; settlement_local_ts_us := settlement_local_ts_us f;
  settlement_rtt_us := settlement_rtt_us f; settlement_pair := settlement_pair f;
  settlement_rate := through_f64 (settlement_rate f);
  settlement_premium := option_map through_f64 (settlement_premium f);
  settlement_exchange := settlement_exchange f |}.

#[export] Instance settlement_table_laws : TableLaws FundingSettlement.
Proof.
  refine (@Build_TableLaws _ _ _ (fun f => canonical_pair (settlement_pair f)) reread_settlement _ _ _ _).
  - table_columns.
  - table_slice.
  - intros l. cbn. by rewrite length_fmap.
  - table_row. intros Hp. by rewrite read_canonical, option_map_through.
Defined.

Definition reread_oi (o : OpenInterest) : OpenInterest := {|
  open_interest_ts_us := open_interest_ts_us o; local_oi_ts_us := local_oi_ts_us o;
  oi_recv_seq := oi_recv_seq o; oi_conn_epoch_us := oi_conn_epoch_us o; oi_pair := oi_pair o;
  open_interest := through_f64 (open_interest o);
  open_interest_value := option_map through_f64 (open_interest_value o);
  mark_px := option_map through_f64 (mark_px o); oi_exchange := oi_exchange o |}.

#[export] Instance oi_table_laws : TableLaws OpenInterest.
Proof.
  refine (@Build_TableLaws _ _ _ (fun o => canonical_pair (oi_pair o)) reread_oi _ _ _ _).
  - table_columns.
  - table_slice.
  - intros l. cbn. by rewrite length_fmap.
  - table_row. intros Hp. by rewrite read_canonical, !option_map_through.
Defined.

Definition side_text (r : LevelRow) : Prop := lr_side r = "bid"%string \/ lr_side r = "ask"%string.

#[export] Instance level_table_laws : TableLaws LevelRow.
Proof.
  refine (@Build_TableLaws _ _ _ side_text (fun r => r) _ _ _ _).
  - table_columns.
  - table_slice.
  - intros l. cbn. by rewrite length_fmap.
  - table_row. intros Hs. by destruct x, Hs as [Hs|Hs]; cbn in *; rewrite Hs.
Defined.
End Instances.

(** ** Files of an older schema *)

Section OldFiles.
Context {NU : Numeric} {PQ : Parquet} {PL : ParquetLaws PQ}.

(** A trade from a file with its first [k] columns. *)
Definition reread_trade_upto (k : nat) (t : Trade) : Trade := {|
  source_trade_ts_us := source_trade_ts_us t;
  local_trade_ts_us := if 7 <? k then local_trade_ts_us t else 0%N;
  source_trade_rtt_us := if 8 <? k then source_trade_rtt_us t else 0%N;
  trade_pair := trade_pair t; trade_side := trade_side t;
  trade_amount := through_f64 (trade_amount t); trade_price := through_f64 (trade_price t);
  trade_exchange := trade_exchange t; trade_id := trade_id t;
  trade_origin := if 9 <? k then trade_origin t else Ws |}.

Lemma batch_ok_take k fields cols :
  0 < k -> batch_ok fields cols -> batch_ok (take k fields) (take k cols).
Proof.
  unfold batch_ok. intros Hk H.
  assert (num_rows (take k cols) = num_rows cols) as -> by (destruct cols, k; done || lia).
  by apply Forall2_take.
Qed.

(** Trade files written under every schema the program ever had, the columns being only ever
    appended, are read back: what a file does not carry is read as zero, and as a [ws] print. *)
Theorem old_trade_files k path (trades : list Trade) :
  7 <= k <= 10 -> Forall (fun t => canonical_pair (trade_pair t)) trades ->
  decode_rows (table_row path)
    (parquet_bytes (take k (table_schema Trade)) (take k (table_columns trades)))
  = Some (Ok (reread_trade_upto k <$> trades)).
Proof.
  intros Hk Hl.
  destruct (parquet_roundtrip _ _ (batch_ok_take k _ _ ltac:(lia) (table_columns_ok trades)))
    as (ns & Hns & Hb).
  unfold decode_rows. rewrite Hb.
  rewrite (read_batches_slices _ (reread_trade_upto k) (fun l => take k (table_columns l))
             (fun t => canonical_pair (trade_pair t))); [|..|done].
  - rewrite Hns, drop_0. destruct k as [|k]; [lia|].
    change (num_rows (take (S k) (table_columns trades))) with (num_rows (table_columns trades)).
    rewrite table_num_rows. by rewrite take_ge by done.
  - intros off n l. by rewrite fmap_take, table_columns_slice.
  - intros l. destruct k as [|k]; [lia|].
    change (num_rows (take (S k) (table_columns l))) with (num_rows (table_columns l)).
    apply table_num_rows.
  - intros l j x Hx Hp.
    assert (k = 7 \/ k = 8 \/ k = 9 \/ k = 10) as [->|[->|[->| ->]]] by lia; cbn;
      repeat (rewrite ?list_lookup_fmap, ?Hx; cbn); rewrite read_canonical by done; cbn;
      by rewrite TradeSide_roundtrip, ?TradeOrigin_roundtrip.
Qed.
End OldFiles.

(** ** Files *)

Section Written.
Context {NU : Numeric} {PQ : Parquet} {DK : Disk} {CA : Calendar}.

Lemma write_table_ensures {A} {TB : Table A} (rows : list A) p s :
  ensures (write_table rows p) s (fun s' r =>
    only_touches (eq p) s s' /\
    (r = Ok tt -> file_at p s' = Some (parquet_bytes (table_schema A) (table_columns rows)))).
Proof.
  unfold write_table. apply ensures_bind. unfold ensures at 1, io_lift. simpl.
  destruct (try_new _ _) as [u|e]; simpl; [|by auto with aetelier].
  apply ensures_bind. eapply ensures_mono; [apply create_file_ensures|].
  intros s1 [v|e] [Ht Hf]; [|by split].
  eapply ensures_mono; [apply append_bytes_ensures|].
  intros s2 r [Ht' Hr]. split; [by eapply only_touches_trans|]. intros ->.
  rewrite Hr. destruct v. by rewrite Hf.
Qed.

Lemma batch_stamp_pure ts s : exists stamp, batch_stamp ts s = (s, Ok stamp).
Proof.
  unfold batch_stamp. destruct (stamp_of_micros _); [|by eexists].
  destruct (0 <? min_positive ts)%N; by eexists.
Qed.

Lemma ensures_batch_stamp {A} ts (k : string -> IO A) s Q :
  (forall stamp, ensures (k stamp) s Q) -> ensures (io_bind (batch_stamp ts) k) s Q.
Proof.
  intros H. apply ensures_bind. unfold ensures at 1.
  destruct (batch_stamp_pure ts s) as [stamp ->]. apply H.
Qed.

Lemma write_stamped_ensures {A} {TB : Table A} stamps name (rows : list A) dir s :
  ensures (write_stamped stamps name write_table rows dir) s (fun s' r =>
    exists stamp, let file := unique_path dir (name stamp) s in
      only_touches (eq (dir, file)) s s' /\
      forall f, r = Ok f -> f = file /\
        file_at (dir, file) s' = Some (parquet_bytes (table_schema A) (table_columns rows))).
Proof.
  unfold write_stamped. apply ensures_batch_stamp. intros stamp.
  apply ensures_bind. unfold ensures at 1, io_get. simpl.
  set (file := unique_path dir (name stamp) s).
  apply ensures_bind. eapply ensures_mono; [apply write_table_ensures|].
  intros s' [v|e] [Ht Hf]; unfold ensures; simpl; exists stamp; (split; [done|]).
  - intros f [= <-]. split; [done|]. destruct v. by apply Hf.
  - intros f [=].
Qed.

Context {PL : ParquetLaws PQ}.

Lemma read_table_ensures {A} {TB : Table A} {TL : TableLaws A} (rows : list A) p s :
  Forall table_ok rows ->
  file_at p s = Some (parquet_bytes (table_schema A) (table_columns rows)) ->
  ensures (read_table (A:=A) p) s (fun s' r =>
    s' = next_call s /\
    (r = Ok (Some (reread <$> rows)) \/
     exists e n, disk_fault (fs_calls s) = Some (e, n) /\ r = Err (PersistIo e))).
Proof.
  intros Hrows Hf. unfold read_table. apply ensures_bind. unfold ensures at 1, read_file, sys.
  destruct (disk_fault (fs_calls s)) as [[e n]|]; simpl; [by eauto 6|].
  change (file_at p (next_call s)) with (file_at p s). rewrite Hf. simpl.
  rewrite decode_table by done. unfold ensures. simpl. auto.
Qed.

(** C14: A batch of trades, liquidations, funding rates, settlements or open-interest records
    (any datatype with a schema) is written under a name that was free, no other file
    changes, and the reader finds in the file exactly the rows of the batch in their order,
    the prices as an [f64] carries them, unless the disk fails under it. *)
Theorem table_file_roundtrip {A} {TB : Table A} {TL : TableLaws A}
    stamps name (rows : list A) dir s s1 file :
  Forall table_ok rows ->
  write_stamped stamps name write_table rows dir s = (s1, Ok file) ->
  file_exists (dir, file) s = false /\
  (forall p, p <> (dir, file) -> file_at p s1 = file_at p s) /\
  exists s2 r, read_table (A:=A) (dir, file) s1 = (s2, r) /\
    (r = Ok (Some (reread <$> rows)) \/
     exists e n, disk_fault (fs_calls s1) = Some (e, n) /\ r = Err (PersistIo e)).
Proof.
  intros Hrows E. pose proof (write_stamped_ensures stamps name rows dir s) as H.
  unfold ensures in H. rewrite E in H. simpl in H.
  destruct H as (stamp & (_ & _ & Hkeep) & Hw).
  destruct (Hw file eq_refl) as [-> Hf]. split_and!; [apply unique_path_fresh| |].
  - intros p Hp. apply Hkeep. congruence.
  - pose proof (read_table_ensures rows _ _ Hrows Hf) as [_ Hr].
    destruct (read_table (dir, _) s1) as [s2 r]. eauto.
Qed.
End Written.

(** ** Order books *)

Lemma cmp_string_N_eq (a b : string * N) : key_eq a b -> a = b.
Proof.
  destruct a as [s n], b as [s' n']. unfold key_eq, cmp, prod_cmp, cmp, string_cmp, N_cmp. simpl.
  destruct (String.compare s s') eqn:E; [|done..].
  intros ->%N.compare_eq_iff. by apply String.compare_eq_iff in E as ->.
Qed.

Section Books.
Context {NU : Numeric}.

Definition book_key (o : Orderbook) : string * N := (to_canonical (ob_pair o), orderbook_ts_us o).

Definition bid_rows (o : Orderbook) : list LevelRow := side_rows o Bids (map snd (rev (ob_bids o))).
Definition ask_rows (o : Orderbook) : list LevelRow := side_rows o Asks (map snd (ob_asks o)).

Definition book_group (o : Orderbook) : BookGroup := {|
  g_symbol := to_canonical (ob_pair o); g_exchange := ob_exchange o;
  g_source_ts := ob_source_ts_us o; g_local_ts := ob_local_ts_us o; g_rtt := ob_rtt_us o;
  g_bids := bid_rows o; g_asks := ask_rows o |}.

Definition with_rows (g : BookGroup) (bs az : list LevelRow) : BookGroup := {|
  g_symbol := g_symbol g; g_exchange := g_exchange g; g_source_ts := g_source_ts g;
  g_local_ts := g_local_ts g; g_rtt := g_rtt g; g_bids := g_bids g ++ bs;
  g_asks := g_asks g ++ az |}.

Lemma add_bid_rows rows g :
  Forall (fun r => lr_side r = "bid"%string) rows -> fold_left add_row rows g = with_rows g rows [].
Proof.
  intros H. revert g. induction H as [|r rows Hr Hrows IH]; intros g; simpl.
  - destruct g. unfold with_rows. simpl. by rewrite !app_nil_r.
  - rewrite IH. unfold add_row. rewrite Hr. simpl. unfold with_rows. simpl. f_equal.
    by rewrite <- app_assoc.
Qed.

Lemma add_ask_rows rows g :
  Forall (fun r => lr_side r = "ask"%string) rows -> fold_left add_row rows g = with_rows g [] rows.
Proof.
  intros H. revert g. induction H as [|r rows Hr Hrows IH]; intros g; simpl.
  - destruct g. unfold with_rows. simpl. by rewrite !app_nil_r.
  - rewrite IH. unfold add_row. rewrite Hr. simpl. unfold with_rows. simpl. f_equal.
    by rewrite <- app_assoc.
Qed.

(** What every row of a side says of its book. *)
Definition empty_group (o : Orderbook) : BookGroup := {|
  g_symbol := to_canonical (ob_pair o); g_exchange := ob_exchange o;
  g_source_ts := ob_source_ts_us o; g_local_ts := ob_local_ts_us o; g_rtt := ob_rtt_us o;
  g_bids := []; g_asks := [] |}.

Definition row_of (o : Orderbook) (r : LevelRow) : Prop :=
  (lr_symbol r, lr_ts r) = book_key o /\ new_group r = empty_group o.

Lemma side_rows_Forall o side levels :
  Forall (fun r => lr_side r = OrderSide_as_str side /\ row_of o r) (side_rows o side levels).
Proof.
  apply Forall_lookup. intros i r Hi. unfold side_rows in Hi.
  rewrite list_lookup_imap in Hi. destruct (levels !! i); [|done]. by injection Hi as <-.
Qed.

Lemma book_rows_of o : Forall (row_of o) (book_rows o).
Proof.
  apply Forall_app; split; (eapply Forall_impl; [apply side_rows_Forall|]); by intros r [_ H].
Qed.

Lemma book_rows_group o : fold_left add_row (book_rows o) (empty_group o) = book_group o.
Proof.
  unfold book_rows. rewrite fold_left_app, (add_bid_rows (side_rows o Bids _)), add_ask_rows.
  - unfold with_rows, book_group. simpl. by rewrite app_nil_r.
  - eapply Forall_impl; [apply side_rows_Forall|]. by intros r [H _].
  - eapply Forall_impl; [apply side_rows_Forall|]. by intros r [H _].
Qed.

Lemma group_same_key o rows g m :
  Forall (row_of o) rows ->
  fold_left group_row rows (bt_insert (book_key o) g m) =
  bt_insert (book_key o) (fold_left add_row rows g) m.
Proof.
  intros H. revert g. induction H as [|r rows [Hk Hn] Hrows IH]; intros g; [done|]. simpl.
  unfold group_row at 2. rewrite Hk, bt_get_insert_eq by apply cmp_refl. simpl.
  by rewrite bt_insert_insert, IH.
Qed.

(** The rows of a book whose key is new make its group. *)
Lemma group_one_book o m :
  bt_get (book_key o) m = None ->
  fold_left group_row (book_rows o) m =
  match book_rows o with [] => m | _ => bt_insert (book_key o) (book_group o) m end.
Proof.
  intros Hm. pose proof (book_rows_group o) as Hg. pose proof (book_rows_of o) as Hr.
  destruct (book_rows o) as [|r rows]; [done|]. apply Forall_cons in Hr as [[Hk Hn] Hr].
  simpl in *. unfold group_row at 2. rewrite Hk, Hm. simpl. rewrite Hn.
  by rewrite group_same_key, Hg.
Qed.

(** The book has a level. *)
Definition has_levels (o : Orderbook) : bool :=
  match ob_bids o, ob_asks o with [], [] => false | _, _ => true end.

Lemma book_rows_nil o : (if has_levels o then true else false) =
  match book_rows o with [] => false | _ => true end.
Proof.
  unfold has_levels, book_rows, side_rows.
  destruct (ob_bids o) as [|b bs] using rev_ind.
  - by destruct (ob_asks o).
  - rewrite rev_app_distr. simpl. by destruct bs.
Qed.

Definition keyed (o : Orderbook) : (string * N) * Orderbook := (book_key o, o).
Definition leveled (os : list Orderbook) : list Orderbook := List.filter has_levels os.

Lemma group_all_books os m :
  NoDup (book_key <$> leveled os) ->
  Forall (fun o => bt_get (book_key o) m = None) (leveled os) ->
  fold_left group_row (os ≫= book_rows) m =
  fold_left (fun m e => bt_insert e.1 e.2 m) ((fun o => (book_key o, book_group o)) <$> leveled os) m.
Proof.
  revert m. induction os as [|o os IH]; intros m Hnd Hm; [done|].
  change ((o :: os) ≫= book_rows) with (book_rows o ++ (os ≫= book_rows)).
  unfold leveled in *. cbn [List.filter] in *. rewrite fold_left_app.
  pose proof (book_rows_nil o) as Hnil. destruct (has_levels o).
  - apply Forall_cons in Hm as [Ho Hm]. apply NoDup_cons in Hnd as [Hno Hnd].
    rewrite group_one_book by done. destruct (book_rows o); [done|]. simpl.
    apply IH; [done|]. apply Forall_forall. intros o' Ho'.
    rewrite bt_get_insert_ne; [by rewrite Forall_forall in Hm; apply Hm|].
    intros E%cmp_string_N_eq. apply Hno. rewrite E. by apply list_elem_of_fmap_2.
  - destruct (book_rows o); [|done]. simpl. by apply IH.
Qed.

(** ** What comes back *)

(** A side as a reader rebuilds it from its levels, best first. *)
Definition reread_levels (side : OrderSide) (levels : list Level) : list Level :=
  imap (fun i l => {| level_id := N.of_nat i mod 4294967296; level_side := side;
                      level_price := through_f64 (level_price l);
                      level_volume := through_f64 (level_volume l); level_orders := [] |}) levels.

Definition reread_book (o : Orderbook) : Orderbook := {|
  orderbook_id := 0; orderbook_ts_us := orderbook_ts_us o;
  ob_source_ts_us := ob_source_ts_us o; ob_local_ts_us := ob_local_ts_us o;
  ob_rtt_us := ob_rtt_us o; ob_pair := ob_pair o; ob_exchange := ob_exchange o;
  ob_bids := bt_collect (map by_price (reread_levels Bids (map snd (rev (ob_bids o)))));
  ob_asks := bt_collect (map by_price (reread_levels Asks (map snd (ob_asks o))))
|}.

Lemma side_rows_sorted o side levels :
  StronglySorted (fun a b => (lr_level a <=? lr_level b)%N = true) (side_rows o side levels).
Proof.
  unfold side_rows.
  assert (Hgen : forall k, StronglySorted (fun a b => (lr_level a <=? lr_level b)%N = true)
    (imap (fun idx l =>
      {| lr_ts := orderbook_ts_us o; lr_symbol := to_canonical (ob_pair o);
         lr_exchange := ob_exchange o; lr_side := OrderSide_as_str side;
         lr_level := N.of_nat (k + idx);
         lr_price := decimal_to_f64 (level_price l); lr_size := decimal_to_f64 (level_volume l);
         lr_source_ts := ob_source_ts_us o; lr_local_ts := ob_local_ts_us o;
         lr_rtt := ob_rtt_us o |}) levels)); [|apply (Hgen 0)].
  induction levels as [|l levels IH]; intros k; simpl; [constructor|].
  constructor.
  - specialize (IH (S k)). erewrite imap_ext; [exact IH|]. intros i x Hi. simpl.
    by replace (k + S i) with (S (k + i)) by lia.
  - apply Forall_lookup. intros i r Hi. rewrite list_lookup_imap in Hi.
    destruct (levels !! i); [|done]. injection Hi as <-. simpl. apply N.leb_le. lia.
Qed.

Lemma group_levels_rows o side levels :
  group_levels side (side_rows o side levels) = reread_levels side levels.
Proof.
  unfold group_levels. rewrite sort_by_id by apply side_rows_sorted.
  unfold side_rows, reread_levels. by rewrite fmap_imap.
Qed.

Lemma group_book_of path o :
  canonical_pair (ob_pair o) ->
  group_book path (book_key o) (book_group o) = Ok (reread_book o).
Proof.
  intros Hp. unfold group_book. simpl. rewrite Hp. unfold bid_rows, ask_rows.
  rewrite !group_levels_rows. done.
Qed.

Lemma group_books_of path (m : btree (string * N) Orderbook) :
  Forall (fun e => e.1 = book_key e.2 /\ canonical_pair (ob_pair e.2)) m ->
  group_books path (bt_map book_group m) = Ok (reread_book <$> map snd m).
Proof.
  induction 1 as [|[k o] m [Hk Hp] Hm IH]; [done|]. simpl in *. subst k.
  by rewrite group_book_of, IH.
Qed.

Lemma collect_keyed os :
  Forall (fun o => canonical_pair (ob_pair o)) os ->
  Forall (fun e => e.1 = book_key e.2 /\ canonical_pair (ob_pair e.2)) (bt_collect (keyed <$> os)).
Proof.
  unfold bt_collect. intros Hos.
  assert (Hm : Forall (fun e : (string * N) * Orderbook =>
    e.1 = book_key e.2 /\ canonical_pair (ob_pair e.2)) []) by constructor.
  revert Hm. generalize (@nil ((string * N) * Orderbook)) as m.
  induction os as [|o os IH]; intros m Hm; [done|].
  apply Forall_cons in Hos as [Ho Hos]. simpl. apply IH; [done|].
  apply Forall_bt_insert; [|done]. intros k' <-%cmp_string_N_eq. done.
Qed.

Lemma leveled_canonical os :
  Forall (fun o => canonical_pair (ob_pair o)) os ->
  Forall (fun o => canonical_pair (ob_pair o)) (leveled os).
Proof. unfold leveled. intros H. rewrite !Forall_forall in *. intros o Ho.
  apply list_elem_of_In, filter_In in Ho as [Ho _]. by apply H, list_elem_of_In. Qed.

Lemma regroup path os :
  NoDup (book_key <$> leveled os) -> Forall (fun o => canonical_pair (ob_pair o)) os ->
  group_books path (fold_left group_row (os ≫= book_rows) []) =
  Ok (reread_book <$> map snd (bt_collect (keyed <$> leveled os))).
Proof.
  intros Hnd Hp. rewrite group_all_books; [|done|by apply Forall_true].
  rewrite <- group_books_of with (path := path) by by apply collect_keyed, leveled_canonical.
  rewrite bt_map_collect. unfold bt_map, bt_collect. f_equal. f_equal.
  change map with (@list_fmap). rewrite map_map. done.
Qed.

Lemma book_rows_side_text os : Forall side_text (os ≫= book_rows).
Proof.
  apply Forall_bind, Forall_forall. intros o _. apply Forall_app; split;
    (eapply Forall_impl; [apply side_rows_Forall|]); intros r [H _]; unfold side_text; rewrite H;
    simpl; auto.
Qed.
End Books.

Section BookFiles.
Context {NU : Numeric} {PQ : Parquet} {PL : ParquetLaws PQ} {DK : Disk} {CA : Calendar}.

Lemma write_ob_parquet_ensures first rest dir mode s :
  ensures (write_ob_parquet first rest dir mode) s (fun s' r =>
    exists stamp, let file := unique_path dir (batch_name (ob_exchange first)
          (file_symbol (to_canonical (ob_pair first))) "ob" mode stamp) s in
      only_touches (eq (dir, file)) s s' /\
      forall f, r = Ok f -> f = file /\
        file_at (dir, file) s' = Some (parquet_bytes (table_schema LevelRow)
          (table_columns ((first :: rest) ≫= book_rows)))).
Proof.
  unfold write_ob_parquet. apply ensures_bind. unfold ensures at 1, io_lift.
  cbn [fst snd]. rewrite try_new_ok by apply (table_columns_ok (A:=LevelRow)). simpl.
  apply ensures_batch_stamp. intros stamp.
  apply ensures_bind. unfold ensures at 1, io_get. cbn [fst snd].
  match goal with |- context [unique_path dir ?n s] => set (file := unique_path dir n s) end.
  apply ensures_bind. eapply ensures_mono; [apply create_file_ensures|].
  intros s1 [v|e] [Ht Hf]; [|by exists stamp].
  apply ensures_bind. eapply ensures_mono; [apply append_bytes_ensures|].
  intros s2 [v'|e] [Ht' Hr]; unfold ensures, io_ret; cbn [fst snd]; exists stamp; cbv zeta;
    fold file; (split; [by eapply only_touches_trans|]); [|by intros f [=]].
  intros f [= <-]. split; [done|]. rewrite Hr. destruct v. by rewrite Hf.
Qed.

(** C20: What a file of books gives back.  Of a batch whose pairs parse back from their text and
    which has at most one book with levels per symbol and instant, reading the file it was
    written to gives, in the order of symbol and instant, one book for each book that has a
    level, with the same pair, venue, instant of the row, source and local times and round
    trip, and with its bid and ask levels in order, prices and sizes as an f64 column carries
    them; levels whose prices the f64 no longer tells apart fall together.  Not kept are the
    book's identifier (zero), those of its levels (their position), the orders in a level, and
    the books without levels, which leave no row.  The file is new and no other file changes;
    reading fails only with a fault of the disk. *)
Theorem book_file_roundtrip first rest dir mode s s1 file :
  Forall (fun o => canonical_pair (ob_pair o)) (first :: rest) ->
  NoDup (book_key <$> leveled (first :: rest)) ->
  write_ob_parquet first rest dir mode s = (s1, Ok file) ->
  file_exists (dir, file) s = false /\
  (forall p, p <> (dir, file) -> file_at p s1 = file_at p s) /\
  exists s2 r, load_parquet_to_ob (dir, file) s1 = (s2, r) /\
    (r = Ok (Some (reread_book <$> map snd (bt_collect (keyed <$> leveled (first :: rest))))) \/
     exists e n, disk_fault (fs_calls s1) = Some (e, n) /\ r = Err (PersistIo e)).
Proof.
  intros Hp Hnd E. pose proof (write_ob_parquet_ensures first rest dir mode s) as H.
  unfold ensures in H. rewrite E in H. cbn [fst snd] in H.
  destruct H as (stamp & (_ & _ & Hkeep) & Hw).
  destruct (Hw file eq_refl) as [-> Hf]. split_and!; [apply unique_path_fresh| |].
  - intros p Hpp. apply Hkeep. congruence.
  - pose proof (read_table_ensures _ _ _ (book_rows_side_text (first :: rest)) Hf) as [_ Hr].
    unfold load_parquet_to_ob, io_bind.
    destruct (read_table (dir, _) s1) as [s2 r]. cbn [fst snd] in *.
    destruct Hr as [->|(e & n & He & ->)]; [|by eauto 10].
    cbn [reread level_table_laws]. rewrite list_fmap_id.
    unfold io_lift. rewrite (regroup _ _ Hnd Hp). eauto 10.
Qed.
End BookFiles.

(** ** An executable Parquet *)

Fixpoint pos_bits (p : positive) : string :=
  match p with
  | xH => ""
  | xO p => String "0" (pos_bits p)
  | xI p => String "1" (pos_bits p)
  end.

Fixpoint bits_pos (s : string) : positive :=
  match s with
  | "" => xH
  | String c s => if Ascii.eqb c "1" then xI (bits_pos s) else xO (bits_pos s)
  end.

Lemma bits_pos_bits p : bits_pos (pos_bits p) = p.
Proof. induction p as [p IH|p IH|]; simpl; by rewrite ?IH. Qed.

#[export] Instance decimal_eq_dec : EqDecision decimal.
Proof. solve_decision. Defined.
#[export] Instance decimal_countable : Countable decimal.
Proof.
  refine (inj_countable' (fun d => (d_coeff d, d_scale d)) (fun p => Decimal p.1 p.2) _). by intros [].
Defined.

Definition column_sum (c : Column (NU:=decimal_numeric))
    : (list N + list N) + (list string + list (option decimal)) :=
  match c with
  | UInt64Array l => inl (inl l) | UInt32Array l => inl (inr l)
  | StringArray l => inr (inl l) | Float64Array l => inr (inr l)
  end.

Definition sum_column (c : (list N + list N) + (list string + list (option decimal)))
    : Column (NU:=decimal_numeric) :=
  match c with
  | inl (inl l) => UInt64Array l | inl (inr l) => UInt32Array l
  | inr (inl l) => StringArray l | inr (inr l) => Float64Array (NU:=decimal_numeric) l
  end.

(** A file is the code of its columns, read back as one batch. *)
#[export] Instance ex_parquet : Parquet (H:=decimal_numeric) := {
  try_new _ _ := Ok tt;
  parquet_bytes _ cols := pos_bits (countable.encode (column_sum <$> cols));
  parquet_batches bytes :=
    match countable.decode (bits_pos bytes) with
    | Some cs => Ok [Ok (sum_column <$> cs)]
    | None => Err "not a Parquet file"%string
    end
}.

Lemma slice_all n (c : Column (NU:=decimal_numeric)) : column_len c = n -> slice 0 n c = c.
Proof. intros <-. destruct c; simpl; by rewrite drop_0, firstn_all. Qed.

#[export] Instance ex_parquet_laws : ParquetLaws ex_parquet.
Proof.
  split; [done|]. intros fields cols H. exists [num_rows cols]. split; [simpl; lia|].
  cbn [parquet_batches parquet_bytes ex_parquet]. rewrite bits_pos_bits, decode_encode.
  cbn [slices]. rewrite <- list_fmap_compose.
  assert (sum_column ∘ column_sum <$> cols = cols) as ->.
  { rewrite <- (list_fmap_id cols) at 2. apply list_fmap_ext. by intros i [] _. }
  assert (slice 0 (num_rows cols) <$> cols = cols) as ->; [|done].
  rewrite <- (list_fmap_id cols) at 3. apply list_fmap_ext. intros i c Hi.
  apply (Forall2_lookup_r _ _ _ _ _ H) in Hi as (f & _ & _ & Hlen & _). by apply slice_all.
Qed.

Definition quiet_disk : Disk := {| disk_fault _ := None; locked_elsewhere _ := false |}.
(** The second call fails, a write having put down three bytes. *)
Definition flaky_disk : Disk := {|
  disk_fault n := if n =? 1 then Some ("disk full"%string, 3) else None;
  locked_elsewhere _ := false |}.

Definition ex_calendar : Calendar := {|
  day_of_micros _ := Some "2024-01-01"%string;
  stamp_of_micros us := Some (pretty us);
  stamp_now _ := "now"%string |}.

Definition empty_fs : Fs := {| fs_dirs := {["out"%string]}; fs_files := ∅; fs_held := ∅; fs_calls := 0 |}.

Definition ex_btc : TradingPair := {| base := "BTC"; quote := "USDT" |}.

Definition ex_print (id : string) (price : Z) : Trade (H:=decimal_numeric) := {|
  source_trade_ts_us := 1700000000000000; local_trade_ts_us := 1700000000000100;
  source_trade_rtt_us := 7; trade_pair := ex_btc; trade_side := Sell;
  trade_amount := (Decimal 5 1 : Dec (Numeric:=decimal_numeric));
  trade_price := (Decimal price 2 : Dec (Numeric:=decimal_numeric)); trade_exchange := "binance";
  trade_id := id; trade_origin := Rest |}.

#[local] Existing Instance decimal_numeric.

Definition ex_prints : list (Trade (H:=decimal_numeric)) := [ex_print "1" 4210; ex_print "2" 4211].

Definition ex_trades_file : string := "binance_BTC-USDT_trades_sync_1700000000000000.parquet".

Definition ex_written : Fs * Result string PersistError :=
  write_trades_parquet_timestamped (NU:=decimal_numeric) (PQ:=ex_parquet) (DK:=quiet_disk)
    (CA:=ex_calendar) ex_prints "out" "sync" empty_fs.

Lemma ex_prints_ok : Forall (fun t => canonical_pair (trade_pair t)) ex_prints.
Proof. repeat constructor. Qed.

(** The batch is written under the name of its venue, symbol and first instant. *)
Lemma table_file_roundtrip_witness :
  ex_written = (ex_written.1, Ok ex_trades_file) /\
  file_exists ("out"%string, ex_trades_file) empty_fs = false /\
  exists s2 r, read_trades_parquet (PQ:=ex_parquet) (DK:=quiet_disk)
      ("out"%string, ex_trades_file) ex_written.1 = (s2, r) /\
    r = Ok (Some (reread_trade <$> ex_prints)).
Proof.
  assert (E : ex_written = (ex_written.1, Ok ex_trades_file)) by (vm_compute; reflexivity).
  split; [exact E|].
  destruct (table_file_roundtrip (NU:=decimal_numeric) (PQ:=ex_parquet) (DK:=quiet_disk)
    (CA:=ex_calendar) (TL:=trade_table_laws) _ _ ex_prints "out" empty_fs ex_written.1
    ex_trades_file ex_prints_ok E) as (Hfresh & _ & s2 & r & Hr & Hres).
  split; [exact Hfresh|]. exists s2, r. split; [exact Hr|].
  destruct Hres as [H|(e & n & H & _)]; [exact H|discriminate H].
Defined.

Lemma old_trade_files_witness :
  decode_rows (PQ:=ex_parquet) (table_row (Table:=trade_table) "f")
    (parquet_bytes (Parquet:=ex_parquet) (take 7 (table_schema Trade)) (take 7 (table_columns ex_prints)))
  = Some (Ok (reread_trade_upto 7 <$> ex_prints)).
Proof. apply (old_trade_files 7 "f" ex_prints); [lia|exact ex_prints_ok]. Defined.

(** Of three books only the two with levels come back, the earlier first. *)
Definition ex_quoted (ts : N) (price : Z) : Orderbook (NU:=decimal_numeric) :=
  Orderbook_from_levels 0 ts ex_btc "okx"
    [{| level_id := 0; level_side := Bids; level_price := (Decimal price 0 : Dec (Numeric:=decimal_numeric));
        level_volume := (Decimal 3 0 : Dec (Numeric:=decimal_numeric)); level_orders := [] |}] [].

Definition ex_books : list (Orderbook (NU:=decimal_numeric)) :=
  [ex_quoted 20 101; Orderbook_empty ex_btc "okx"; ex_quoted 10 100].

Definition ex_books_file : string := "okx_BTC-USDT_ob_sync_10.parquet".

Definition ex_ob_written : Fs * Result string PersistError :=
  write_ob_parquet (NU:=decimal_numeric) (PQ:=ex_parquet) (DK:=quiet_disk) (CA:=ex_calendar)
    (ex_quoted 20 101) [Orderbook_empty ex_btc "okx"; ex_quoted 10 100] "out" "sync" empty_fs.

Lemma book_file_roundtrip_witness :
  ex_ob_written = (ex_ob_written.1, Ok ex_books_file) /\
  exists s2 r, load_parquet_to_ob (PQ:=ex_parquet) (DK:=quiet_disk)
      ("out"%string, ex_books_file) ex_ob_written.1 = (s2, r) /\
    r = Ok (Some [ex_quoted 10 100; ex_quoted 20 101]).
Proof.
  assert (E : ex_ob_written = (ex_ob_written.1, Ok ex_books_file)) by (vm_compute; reflexivity).
  split; [exact E|].
  assert (Hp : Forall (fun o => canonical_pair (ob_pair o)) ex_books) by repeat constructor.
  assert (Hnd : NoDup (book_key <$> leveled ex_books)).
  { apply (bool_decide_unpack _). vm_compute. exact I. }
  destruct (book_file_roundtrip (PQ:=ex_parquet) (DK:=quiet_disk) (CA:=ex_calendar)
    _ _ _ _ _ ex_ob_written.1 ex_books_file Hp Hnd E) as (_ & _ & s2 & r & Hr & Hres).
  exists s2, r. split; [exact Hr|].
  destruct Hres as [H|(e & n & H & _)]; [|discriminate H].
  rewrite H. reflexivity.
Defined.
