(* ===== verification/Sinks.v ===== *)
(** * Output sinks

    [src/aetelier-connect/src/workers/topic_publisher.rs] (the registries of broadcast
    topics) and [src/aetelier-connect/src/workers/output/mod.rs]: the trait
    [OutputSink] as a type class, its four implementations, the set that fans every
    call out, and the factory.  The world outside is a parameter: the broadcast channels
    with their receivers, the wall clock and, as functions in the sinks, the callbacks and
    the flusher. *)
From Stdlib Require Import Ascii String.
From stdpp Require Import strings pretty.
From S2P Require Import Prelude BTree Strings Numeric Pairs Types Book Model Runtime Snapshots Worker.
Local Open Scope string_scope.
Local Open Scope N_scope.
Local Open Scope list_scope.

Definition DEFAULT_CHANNEL_CAPACITY : N := 8192.
Definition DEFAULT_SNAPSHOT_CHANNEL_CAPACITY : N := 1024.

(** The raw events of the venues of the first generation. *)
Inductive ExchangeEvent (P : Type) :=
| EvBybit (p : P) | EvCoinbase (p : P) | EvKraken (p : P)
| EvBinance (p : P) | EvOkx (p : P) | EvGateio (p : P).
Arguments EvBybit {P} p.
Arguments EvCoinbase {P} p.
Arguments EvKraken {P} p.
Arguments EvBinance {P} p.
Arguments EvOkx {P} p.
Arguments EvGateio {P} p.

Definition event_exchange {P} (e : ExchangeEvent P) : string :=
  match e with
  | EvBybit _ => "bybit" | EvCoinbase _ => "coinbase" | EvKraken _ => "kraken"
  | EvBinance _ => "binance" | EvOkx _ => "okx" | EvGateio _ => "gateio"
  end.

(** The envelope of both families of topics. *)
Record TopicMessage (E : Type) := {
  tm_topic : string;
  tm_received_at_us : N;
  tm_exchange : string;
  tm_payload : E
}.
Arguments tm_topic {E}.
Arguments tm_received_at_us {E}.
Arguments tm_exchange {E}.
Arguments tm_payload {E}.

Inductive Message `{Numeric} (P : Type) :=
| RawMessage (m : TopicMessage (ExchangeEvent P))
| DomainMessage (m : TopicMessage DomainEvent)
| SnapshotMessage (s : MarketSnapshot).
Arguments RawMessage {_ P} m.
Arguments DomainMessage {_ P} m.
Arguments SnapshotMessage {_ P} s.

(** [tokio::sync::broadcast] and the clock; sending fails without a receiver. *)
Class Outside `{Numeric} (W : Type) := {
  RawPayload : Type;
  Sender : Type;
  broadcast_channel : N -> W -> W * Sender;
  broadcast_send : Sender -> Message RawPayload -> W -> W * option N;
  broadcast_len : Sender -> W -> N;
  receiver_count : Sender -> W -> N;
  wall_clock_us : W -> W * N
}.

Inductive PublishError := UnknownTopic (topic : string).

Definition PublishError_fmt (e : PublishError) : string :=
  match e with UnknownTopic t => ("unknown topic: " ++ t)%string end.

Section Registry.
Context {NU : Numeric} {W : Type} {OW : Outside W}.

(** A sender with the capacity it was made with. *)
Record TopicPublisher := { tp_topic : string; tp_tx : Sender; tp_cap : N }.

Definition TopicPublisher_new (topic : string) (capacity : N) (w : W) : W * TopicPublisher :=
  let '(w, tx) := broadcast_channel capacity w in
  (w, {| tp_topic := topic; tp_tx := tx; tp_cap := capacity |}).

Record SnapshotChannel := { sc_tx : Sender; sc_cap : N }.

Definition SnapshotChannel_new (capacity : N) (w : W) : W * SnapshotChannel :=
  let '(w, tx) := broadcast_channel capacity w in (w, {| sc_tx := tx; sc_cap := capacity |}).

Definition TopicRegistry : Type := gmap string TopicPublisher.

Definition book_topic (symbol : string) (depth : N) : string :=
  ("orderbook." ++ pretty depth ++ "." ++ symbol)%string.
Definition all_topic (datatype symbol : string) : string :=
  (datatype ++ ".all." ++ symbol)%string.

Definition add_topic (on : bool) (topic : string) (capacity : N) (s : TopicRegistry * W)
    : TopicRegistry * W :=
  if on then let '(w, p) := TopicPublisher_new topic capacity s.2 in (<[topic := p]> s.1, w) else s.

(** The depth is the one of the section's order books. *)
Definition TopicRegistry_from_config (symbol : string) (dt : DataTypesSection) (depth capacity : N)
    (w : W) : TopicRegistry * W :=
  let s := add_topic (sec_orderbook dt) (book_topic symbol depth) capacity (∅, w) in
  let s := add_topic (sec_trades dt) (all_topic "trade" symbol) capacity s in
  let s := add_topic (sec_liquidations dt) (all_topic "liquidation" symbol) capacity s in
  let s := add_topic (sec_funding_rates dt) (all_topic "funding" symbol) capacity s in
  add_topic (sec_open_interest dt) (all_topic "open_interest" symbol) capacity s.

(** The domain events carry no liquidations. *)
Definition DomainTopicRegistry_from_config (symbol : string) (dt : DataTypesSection)
    (depth capacity : N) (w : W) : TopicRegistry * W :=
  let s := add_topic (sec_orderbook dt) (book_topic symbol depth) capacity (∅, w) in
  let s := add_topic (sec_trades dt) (all_topic "trade" symbol) capacity s in
  let s := add_topic (sec_funding_rates dt) (all_topic "funding" symbol) capacity s in
  add_topic (sec_open_interest dt) (all_topic "open_interest" symbol) capacity s.

(** A topic without receivers takes the message and drops it. *)
Definition publish (topic : string) (m : Message RawPayload) (r : TopicRegistry) (w : W)
    : W * Result N PublishError :=
  match r !! topic with
  | None => (w, Err (UnknownTopic topic))
  | Some p => let '(w, n) := broadcast_send (tp_tx p) m w in (w, Ok (default 0 n))
  end.

(** [(total_messages_pending, total_capacity)] *)
Definition queue_stats (r : TopicRegistry) (w : W) : N * N :=
  fold_left (fun acc (e : string * TopicPublisher) =>
      (u64_add acc.1 (broadcast_len (tp_tx e.2) w), u64_add acc.2 (tp_cap e.2)))
    (map_to_list r) (0, 0).

(** [len as f64 / cap as f64 > 0.8], for lengths and capacities an [f64] holds exactly. *)
Definition over_80_percent (len cap : N) : bool := (0 <? cap) && (4 * cap <? 5 * len).

(** The worst fill ratio of the topics exceeds it: some topic's does. *)
Definition registry_saturated (r : TopicRegistry) (w : W) : bool :=
  existsb (fun e : string * TopicPublisher => over_80_percent (broadcast_len (tp_tx e.2) w) (tp_cap e.2))
    (map_to_list r).
End Registry.

(** ** The status of a sink *)

Inductive SinkState := SkIdle | SkStreaming | SkWriting | SkBackpressured | SkError.

Record SinkStatus := {
  st_name : string;
  st_state : SinkState;
  st_events_emitted : N;
  st_bytes_written : option N;
  st_queue_depth : option N;
  st_queue_capacity : option N;
  st_lag_events : option N;
  st_output_dir : option string
}.

Definition SinkStatus_new (name : string) (state : SinkState) (events : N) : SinkStatus := {|
  st_name := name; st_state := state; st_events_emitted := events; st_bytes_written := None;
  st_queue_depth := None; st_queue_capacity := None; st_lag_events := None; st_output_dir := None
|}.

(** ** The trait *)

(** A call of a sink: its new state, the world, and whether it failed. *)
Definition SinkCall (S W : Type) : Type := S -> W -> S * W * Result unit string.

Definition sink_noop {S W} : SinkCall S W := fun s w => (s, w, Ok tt).

Class OutputSink `{Outside} (S : Type) := {
  emit_raw : string -> ExchangeEvent RawPayload -> N -> SinkCall S W;
  emit_snapshot : MarketSnapshot -> SinkCall S W;
  emit_domain : string -> DomainEvent -> N -> SinkCall S W;
  sink_flush : SinkCall S W;
  sink_name : string;
  sink_status : S -> W -> SinkStatus
}.

Section Sinks.
Context {NU : Numeric} {W : Type} {OW : Outside W}.

(** ** [ChannelSink] *)

Record ChannelSink := {
  cs_registry : TopicRegistry;
  cs_snapshots : SnapshotChannel;
  cs_events_emitted : N;
  cs_events_dropped : N
}.

Definition with_snapshot_channel (r : TopicRegistry) (sc : SnapshotChannel) : ChannelSink :=
  {| cs_registry := r; cs_snapshots := sc; cs_events_emitted := 0; cs_events_dropped := 0 |}.

Definition cs_count (ok : bool) (s : ChannelSink) : ChannelSink := {|
  cs_registry := cs_registry s; cs_snapshots := cs_snapshots s;
  cs_events_emitted := if ok then u64_add (cs_events_emitted s) 1 else cs_events_emitted s;
  cs_events_dropped := if ok then cs_events_dropped s else u64_add (cs_events_dropped s) 1
|}.

Definition ChannelSink_emit_raw (topic : string) (event : ExchangeEvent RawPayload)
    (received_at_us : N) : SinkCall ChannelSink W := fun s w =>
  let msg := {| tm_topic := topic; tm_received_at_us := received_at_us;
                tm_exchange := event_exchange event; tm_payload := event |} in
  let '(w, r) := publish topic (RawMessage msg) (cs_registry s) w in
  (cs_count (is_ok r) s, w, Ok tt).

(** Nothing is sent, and nothing counted, without a receiver. *)
Definition ChannelSink_emit_snapshot (snapshot : MarketSnapshot) : SinkCall ChannelSink W := fun s w =>
  if 0 <? receiver_count (sc_tx (cs_snapshots s)) w then
    match broadcast_send (sc_tx (cs_snapshots s)) (SnapshotMessage snapshot) w with
    | (w, Some _) => (cs_count true s, w, Ok tt)
    | (w, None) => (s, w, Ok tt)
    end
  else (s, w, Ok tt).

Definition ChannelSink_status (s : ChannelSink) (w : W) : SinkStatus :=
  let stats := queue_stats (cs_registry s) w in
  let saturated := registry_saturated (cs_registry s) w
    || over_80_percent (broadcast_len (sc_tx (cs_snapshots s)) w) (sc_cap (cs_snapshots s)) in
  let state := if 0 <? cs_events_dropped s then SkError
               else if saturated then SkBackpressured
               else if 0 <? cs_events_emitted s then SkStreaming else SkIdle in {|
  st_name := "channel"; st_state := state; st_events_emitted := cs_events_emitted s;
  st_bytes_written := None; st_queue_depth := Some stats.1; st_queue_capacity := Some stats.2;
  st_lag_events := None; st_output_dir := None
|}.

#[export] Instance channel_sink : OutputSink ChannelSink := {
  emit_raw := ChannelSink_emit_raw;
  emit_snapshot := ChannelSink_emit_snapshot;
  emit_domain _ _ _ := sink_noop;
  sink_flush := sink_noop;
  sink_name := "channel";
  sink_status := ChannelSink_status
}.

(** ** [DomainChannelSink] *)

Record DomainChannelSink := {
  dcs_registry : TopicRegistry;
  dcs_exchange : string;
  dcs_events_emitted : N;
  dcs_events_dropped : N
}.

Definition DomainChannelSink_new (r : TopicRegistry) (exchange : string) : DomainChannelSink :=
  {| dcs_registry := r; dcs_exchange := exchange; dcs_events_emitted := 0; dcs_events_dropped := 0 |}.

Definition DomainChannelSink_emit_domain (topic : string) (event : DomainEvent) (received_at_us : N)
    : SinkCall DomainChannelSink W := fun s w =>
  let msg := {| tm_topic := topic; tm_received_at_us := received_at_us;
                tm_exchange := dcs_exchange s; tm_payload := event |} in
  let '(w, r) := publish topic (DomainMessage msg) (dcs_registry s) w in
  ({| dcs_registry := dcs_registry s; dcs_exchange := dcs_exchange s;
      dcs_events_emitted := if is_ok r then u64_add (dcs_events_emitted s) 1 else dcs_events_emitted s;
      dcs_events_dropped := if is_ok r then dcs_events_dropped s else u64_add (dcs_events_dropped s) 1 |},
   w, Ok tt).

Definition DomainChannelSink_status (s : DomainChannelSink) (w : W) : SinkStatus :=
  SinkStatus_new "domain_channel"
    (if 0 <? dcs_events_dropped s then SkError
     else if 0 <? dcs_events_emitted s then SkStreaming else SkIdle) (dcs_events_emitted s).

#[export] Instance domain_channel_sink : OutputSink DomainChannelSink := {
  emit_raw _ _ _ := sink_noop;
  emit_snapshot _ := sink_noop;
  emit_domain := DomainChannelSink_emit_domain;
  sink_flush := sink_noop;
  sink_name := "domain_channel";
  sink_status := DomainChannelSink_status
}.

(** ** [TerminalSink] *)

Record TerminalSinkRawEvent := { te_topic : string; te_received_at_us : N }.

(** A callback acts on the world. *)
Record TerminalSink := {
  ts_events : N;
  ts_callback : option (TerminalSinkRawEvent -> W -> W)
}.

Definition terminal_call (topic : string) (at_us : N) : SinkCall TerminalSink W := fun s w =>
  ({| ts_events := u64_add (ts_events s) 1; ts_callback := ts_callback s |},
   match ts_callback s with
   | Some cb => cb {| te_topic := topic; te_received_at_us := at_us |} w
   | None => w
   end, Ok tt).

Definition snapshot_parts (s : MarketSnapshot) : list string :=
  (match ms_orderbook s with Some _ => ["orderbook"%string] | None => [] end)
  ++ (if nonempty (ms_trades s) then ["trades"%string] else [])
  ++ (if nonempty (ms_liquidations s) then ["liquidations"%string] else [])
  ++ (if nonempty (ms_funding_rate s) then ["funding"%string] else [])
  ++ (if nonempty (ms_open_interest s) then ["oi"%string] else []).

Definition snapshot_topic (s : MarketSnapshot) : string :=
  match snapshot_parts s with
  | [] => "snapshot"
  | parts => ("snapshot:" ++ join "+" parts)%string
  end.

Definition TerminalSink_emit_raw (topic : string) (_ : ExchangeEvent RawPayload) (received_at_us : N)
    : SinkCall TerminalSink W := terminal_call topic received_at_us.
Definition TerminalSink_emit_snapshot (snapshot : MarketSnapshot) : SinkCall TerminalSink W :=
  terminal_call (snapshot_topic snapshot) (ms_ts_us snapshot).

#[export] Instance terminal_sink : OutputSink TerminalSink := {
  emit_raw := TerminalSink_emit_raw;
  emit_snapshot := TerminalSink_emit_snapshot;
  emit_domain _ _ _ := sink_noop;
  sink_flush := sink_noop;
  sink_name := "terminal";
  sink_status s _ := SinkStatus_new "terminal" (if 0 <? ts_events s then SkStreaming else SkIdle) (ts_events s)
}.

(** ** [BufferedSink] *)

Record FlushReport := { fr_bytes_written : N; fr_files_written : N }.

(** The trait [SnapshotFlusher]: a batch and the directory it goes to. *)
Definition SnapshotFlusher : Type :=
  list MarketSnapshot -> string -> W -> W * Result FlushReport PersistError.

Record BufferedSinkFlushEvent := {
  fe_snapshot_count : nat;
  fe_bytes_written : N;
  fe_files_written : N;
  fe_total_bytes : N;
  fe_total_files : N;
  fe_flushed_at_us : N
}.

Record BufferedSink := {
  output_dir : string;
  snapshot_buffer : list MarketSnapshot;
  flusher : SnapshotFlusher;
  events_emitted : N;
  bytes_written : N;
  files_written : N;
  flush_failures : N;
  dropped_snapshots : N;
  flush_callback : option (BufferedSinkFlushEvent -> W -> W);
  bs_declared : DeclaredSet;
  undeclared_stripped : N
}.

Definition MAX_BUFFERED_SNAPSHOTS : N := 200000.
Definition OVERFLOW_DROP_CHUNK : N := 8192.

Definition BufferedSink_new (dir : string) (f : SnapshotFlusher) : BufferedSink := {|
  output_dir := dir; snapshot_buffer := []; flusher := f; events_emitted := 0; bytes_written := 0;
  files_written := 0; flush_failures := 0; dropped_snapshots := 0; flush_callback := None;
  bs_declared := declared_all; undeclared_stripped := 0 |}.

Definition with_declared (d : DeclaredSet) (b : BufferedSink) : BufferedSink := {|
  output_dir := output_dir b; snapshot_buffer := snapshot_buffer b; flusher := flusher b;
  events_emitted := events_emitted b; bytes_written := bytes_written b;
  files_written := files_written b; flush_failures := flush_failures b;
  dropped_snapshots := dropped_snapshots b; flush_callback := flush_callback b;
  bs_declared := d; undeclared_stripped := undeclared_stripped b |}.

Definition with_flush_callback (dir : string) (f : SnapshotFlusher)
    (cb : BufferedSinkFlushEvent -> W -> W) : BufferedSink := {|
  output_dir := dir; snapshot_buffer := []; flusher := f; events_emitted := 0; bytes_written := 0;
  files_written := 0; flush_failures := 0; dropped_snapshots := 0; flush_callback := Some cb;
  bs_declared := declared_all; undeclared_stripped := 0 |}.

(** One datatype of a snapshot cleared, and how many records that removed. *)
Definition clear_datatype (dt : DeclaredDatatype) (s : MarketSnapshot) : MarketSnapshot * nat :=
  match dt with
  | DeclOrderbook =>
    ({| ms_ts_us := ms_ts_us s; ms_orderbook := None; ms_trades := ms_trades s;
        ms_liquidations := ms_liquidations s; ms_funding_rate := ms_funding_rate s;
        ms_open_interest := ms_open_interest s; ms_funding_settlements := ms_funding_settlements s |},
     match ms_orderbook s with Some _ => 1%nat | None => 0%nat end)
  | DeclTrades =>
    ({| ms_ts_us := ms_ts_us s; ms_orderbook := ms_orderbook s; ms_trades := [];
        ms_liquidations := ms_liquidations s; ms_funding_rate := ms_funding_rate s;
        ms_open_interest := ms_open_interest s; ms_funding_settlements := ms_funding_settlements s |},
     length (ms_trades s))
  | DeclLiquidations =>
    ({| ms_ts_us := ms_ts_us s; ms_orderbook := ms_orderbook s; ms_trades := ms_trades s;
        ms_liquidations := []; ms_funding_rate := ms_funding_rate s;
        ms_open_interest := ms_open_interest s; ms_funding_settlements := ms_funding_settlements s |},
     length (ms_liquidations s))
  | DeclFundingRates =>
    ({| ms_ts_us := ms_ts_us s; ms_orderbook := ms_orderbook s; ms_trades := ms_trades s;
        ms_liquidations := ms_liquidations s; ms_funding_rate := [];
        ms_open_interest := ms_open_interest s; ms_funding_settlements := ms_funding_settlements s |},
     length (ms_funding_rate s))
  | DeclOpenInterest =>
    ({| ms_ts_us := ms_ts_us s; ms_orderbook := ms_orderbook s; ms_trades := ms_trades s;
        ms_liquidations := ms_liquidations s; ms_funding_rate := ms_funding_rate s;
        ms_open_interest := []; ms_funding_settlements := ms_funding_settlements s |},
     length (ms_open_interest s))
  end.

(** The snapshot without the datatypes that are not declared, and what was removed; the
    settlements have no datatype of their own and stay. *)
Definition strip_snapshot (declared : DeclaredSet) (s : MarketSnapshot) : MarketSnapshot * nat :=
  fold_left (fun acc dt =>
      if declared_contains dt declared then acc
      else let '(s, n) := clear_datatype dt acc.1 in (s, (acc.2 + n)%nat))
    DeclaredDatatype_ALL (s, 0%nat).

Definition strip_undeclared (snapshot : MarketSnapshot) (b : BufferedSink)
    : BufferedSink * MarketSnapshot :=
  let '(out, stripped) := strip_snapshot (bs_declared b) snapshot in
  ({| output_dir := output_dir b; snapshot_buffer := snapshot_buffer b; flusher := flusher b;
      events_emitted := events_emitted b; bytes_written := bytes_written b;
      files_written := files_written b; flush_failures := flush_failures b;
      dropped_snapshots := dropped_snapshots b; flush_callback := flush_callback b;
      bs_declared := bs_declared b;
      undeclared_stripped := u64_add (undeclared_stripped b) (N.of_nat stripped) |}, out).

Definition bs_emitted (b : BufferedSink) : BufferedSink := {|
  output_dir := output_dir b; snapshot_buffer := snapshot_buffer b; flusher := flusher b;
  events_emitted := u64_add (events_emitted b) 1; bytes_written := bytes_written b;
  files_written := files_written b; flush_failures := flush_failures b;
  dropped_snapshots := dropped_snapshots b; flush_callback := flush_callback b;
  bs_declared := bs_declared b; undeclared_stripped := undeclared_stripped b |}.

Definition bs_with_buffer (buf : list MarketSnapshot) (dropped : N) (b : BufferedSink)
    : BufferedSink := {|
  output_dir := output_dir b; snapshot_buffer := buf; flusher := flusher b;
  events_emitted := events_emitted b; bytes_written := bytes_written b;
  files_written := files_written b; flush_failures := flush_failures b;
  dropped_snapshots := dropped; flush_callback := flush_callback b;
  bs_declared := bs_declared b; undeclared_stripped := undeclared_stripped b |}.

(** A full buffer sheds its oldest batch before the snapshot is pushed. *)
Definition shed_oldest (b : BufferedSink) : BufferedSink :=
  let len := N.of_nat (length (snapshot_buffer b)) in
  if MAX_BUFFERED_SNAPSHOTS <=? len then
    let drop_n := N.min OVERFLOW_DROP_CHUNK len in
    bs_with_buffer (drop (N.to_nat drop_n) (snapshot_buffer b))
      (u64_add (dropped_snapshots b) drop_n) b
  else b.

Definition BufferedSink_emit_snapshot (snapshot : MarketSnapshot) : SinkCall BufferedSink W :=
  fun b w =>
    let '(b, snapshot) := strip_undeclared snapshot (bs_emitted b) in
    let b := shed_oldest b in
    (bs_with_buffer (snapshot_buffer b ++ [snapshot]) (dropped_snapshots b) b, w, Ok tt).

Definition bs_failed (b : BufferedSink) : BufferedSink := {|
  output_dir := output_dir b; snapshot_buffer := snapshot_buffer b; flusher := flusher b;
  events_emitted := events_emitted b; bytes_written := bytes_written b;
  files_written := files_written b; flush_failures := u64_add (flush_failures b) 1;
  dropped_snapshots := dropped_snapshots b; flush_callback := flush_callback b;
  bs_declared := bs_declared b; undeclared_stripped := undeclared_stripped b |}.

Definition bs_flushed (report : FlushReport) (b : BufferedSink) : BufferedSink := {|
  output_dir := output_dir b; snapshot_buffer := []; flusher := flusher b;
  events_emitted := events_emitted b;
  bytes_written := u64_add (bytes_written b) (fr_bytes_written report);
  files_written := u64_add (files_written b) (fr_files_written report);
  flush_failures := flush_failures b; dropped_snapshots := dropped_snapshots b;
  flush_callback := flush_callback b; bs_declared := bs_declared b;
  undeclared_stripped := undeclared_stripped b |}.

(** errors.rs *)
Definition PersistError_fmt (e : PersistError) : string :=
  match e with
  | PersistIo m => ("IO error: " ++ m)%string
  | PersistJson m => ("JSON error: " ++ m)%string
  | PersistParse m => ("Parse error: " ++ m)%string
  | UnsupportedFormat m => ("Unsupported format: " ++ m)%string
  end.

(** The callback is told of the flush, with the clock read for it. *)
Definition notify_flush (n : nat) (report : FlushReport) (b : BufferedSink) (w : W) : W :=
  match flush_callback b with
  | None => w
  | Some cb =>
    let '(w, now) := wall_clock_us w in
    cb {| fe_snapshot_count := n; fe_bytes_written := fr_bytes_written report;
          fe_files_written := fr_files_written report; fe_total_bytes := bytes_written b;
          fe_total_files := files_written b; fe_flushed_at_us := now |} w
  end.

(** A failed write keeps the buffer. *)
Definition BufferedSink_flush : SinkCall BufferedSink W := fun b w =>
  match snapshot_buffer b with
  | [] => (b, w, Ok tt)
  | buf =>
    match flusher b buf (output_dir b) w with
    | (w, Err e) => (bs_failed b, w, Err (PersistError_fmt e))
    | (w, Ok report) =>
      let b := bs_flushed report b in
      (b, notify_flush (length buf) report b w, Ok tt)
    end
  end.

Definition BufferedSink_status (b : BufferedSink) (_ : W) : SinkStatus :=
  let len := N.of_nat (length (snapshot_buffer b)) in {|
  st_name := "buffered";
  st_state := if 0 <? len then SkWriting else if 0 <? events_emitted b then SkStreaming else SkIdle;
  st_events_emitted := events_emitted b; st_bytes_written := Some (bytes_written b);
  st_queue_depth := Some len; st_queue_capacity := None; st_lag_events := None;
  st_output_dir := Some (output_dir b)
|}.

#[export] Instance buffered_sink : OutputSink BufferedSink := {
  emit_raw _ _ _ := sink_noop;
  emit_snapshot := BufferedSink_emit_snapshot;
  emit_domain _ _ _ := sink_noop;
  sink_flush := BufferedSink_flush;
  sink_name := "buffered";
  sink_status := BufferedSink_status
}.

(** ** [OutputSinkSet] *)

(** [Box<dyn OutputSink>] *)
Record BoxSink := { box_type : Type; box_impl : OutputSink box_type; box_state : box_type }.

Definition box_sink {S} {I : OutputSink S} (s : S) : BoxSink :=
  {| box_type := S; box_impl := I; box_state := s |}.

Definition OutputSinkSet : Type := list BoxSink.

(** Every sink is called in order; an error is logged and forgotten. *)
Fixpoint fan_out (call : forall S, OutputSink S -> SinkCall S W) (set : OutputSinkSet) (w : W)
    : OutputSinkSet * W :=
  match set with
  | [] => ([], w)
  | b :: set =>
    let '(s, w, _) := call (box_type b) (box_impl b) (box_state b) w in
    let '(set, w) := fan_out call set w in
    ({| box_type := box_type b; box_impl := box_impl b; box_state := s |} :: set, w)
  end.

Definition set_call (call : forall S, OutputSink S -> SinkCall S W) : SinkCall OutputSinkSet W :=
  fun set w => let '(set, w) := fan_out call set w in (set, w, Ok tt).

Definition set_emit_raw (topic : string) (event : ExchangeEvent RawPayload) (at_us : N)
    : SinkCall OutputSinkSet W := set_call (fun S I => emit_raw (OutputSink:=I) topic event at_us).
Definition set_emit_domain (topic : string) (event : DomainEvent) (at_us : N)
    : SinkCall OutputSinkSet W := set_call (fun S I => emit_domain (OutputSink:=I) topic event at_us).
Definition set_emit_snapshot (snapshot : MarketSnapshot) : SinkCall OutputSinkSet W :=
  set_call (fun S I => emit_snapshot (OutputSink:=I) snapshot).
Definition set_flush : SinkCall OutputSinkSet W :=
  set_call (fun S I => sink_flush (OutputSink:=I)).
Definition statuses (set : OutputSinkSet) (w : W) : list SinkStatus :=
  (fun b => sink_status (OutputSink:=box_impl b) (box_state b) w) <$> set.

(** ** The factory *)

Inductive OutputSinkConfig := SinkChannel | SinkTerminal | SinkParquet (dir : string).

(** What a sink takes it takes for itself. *)
Record SinkParts := {
  sp_registry : option TopicRegistry;
  sp_snapshots : option SnapshotChannel;
  sp_flusher : option SnapshotFlusher;
  sp_terminal_cb : option (TerminalSinkRawEvent -> W -> W);
  sp_flush_cb : option (BufferedSinkFlushEvent -> W -> W)
}.

Definition no_flusher (dir : string) : string :=
  ("config declares a Parquet output sink (dir = " ++ dir ++ ") but no SnapshotFlusher was provided — the data would be silently dropped. Provide a flusher (e.g. `ParquetSnapshotFlusher` from aetelier-io via `MarketWorker::from_config_with_flusher`), build with the `parquet` feature, or remove the Parquet sink from the config.")%string.

Fixpoint build_from (configs : list OutputSinkConfig) (p : SinkParts) (declared : DeclaredSet)
    (set : OutputSinkSet) (w : W) : W * Result OutputSinkSet string :=
  match configs with
  | [] => (w, Ok set)
  | SinkChannel :: configs =>
    match sp_registry p with
    | None => build_from configs p declared set w
    | Some reg =>
      let '(w, sc) := match sp_snapshots p with
                      | Some sc => (w, sc)
                      | None => SnapshotChannel_new DEFAULT_SNAPSHOT_CHANNEL_CAPACITY w
                      end in
      build_from configs {| sp_registry := None; sp_snapshots := None; sp_flusher := sp_flusher p;
                            sp_terminal_cb := sp_terminal_cb p; sp_flush_cb := sp_flush_cb p |}
        declared (set ++ [box_sink (with_snapshot_channel reg sc)]) w
    end
  | SinkTerminal :: configs =>
    build_from configs {| sp_registry := sp_registry p; sp_snapshots := sp_snapshots p;
                          sp_flusher := sp_flusher p; sp_terminal_cb := None;
                          sp_flush_cb := sp_flush_cb p |}
      declared (set ++ [box_sink {| ts_events := 0; ts_callback := sp_terminal_cb p |}]) w
  | SinkParquet dir :: configs =>
    match sp_flusher p with
    | None => (w, Err (no_flusher dir))
    | Some f =>
      let sink := match sp_flush_cb p with
                  | Some cb => with_flush_callback dir f cb
                  | None => BufferedSink_new dir f
                  end in
      build_from configs {| sp_registry := sp_registry p; sp_snapshots := sp_snapshots p;
                            sp_flusher := None; sp_terminal_cb := sp_terminal_cb p;
                            sp_flush_cb := None |}
        declared (set ++ [box_sink (with_declared declared sink)]) w
    end
  end.

Definition build_sinks (configs : list OutputSinkConfig) (p : SinkParts) (declared : DeclaredSet)
    (w : W) : W * Result OutputSinkSet string := build_from configs p declared [] w.
End Sinks.
