(* ===== verification/SinksProps.v ===== *)
(** * What the sinks promise

    The buffered sink against the interface of its flusher: every snapshot it was
    given is stored, still buffered, or was shed from a full buffer, in order and counted.  The set
    keeps every sink independent of the errors of the others, and the factory builds exactly
    the sinks it can feed. *)
From Stdlib Require Import Ascii String.
From stdpp Require Import strings pretty.
From S2P Require Import Prelude BTree Strings Numeric Pairs Types Book Model Runtime Snapshots Worker Sinks.
Local Open Scope nat_scope.
Local Open Scope list_scope.

Section Delivery.
Context {NU : Numeric} {W : Type} {OW : Outside W}.

(** What the worker tells its sinks. *)
Definition sink_op {S} {I : OutputSink S} (op : SinkOp) : SinkCall S W :=
  match op with SinkEmit row => emit_snapshot row | SinkFlush => sink_flush end.

Fixpoint run_sink {S} {I : OutputSink S} (ops : list SinkOp) (s : S) (w : W) : S * W :=
  match ops with
  | [] => (s, w)
  | op :: ops => let '(s, w, _) := sink_op op s w in run_sink ops s w
  end.

Fixpoint emitted_rows (ops : list SinkOp) : list MarketSnapshot :=
  match ops with
  | [] => []
  | SinkEmit row :: ops => row :: emitted_rows ops
  | SinkFlush :: ops => emitted_rows ops
  end.

Definition stripped (d : DeclaredSet) (s : MarketSnapshot) : MarketSnapshot := fst (strip_snapshot d s).

Lemma run_sink_app {S} {I : OutputSink S} ops ops' (s : S) w :
  run_sink (ops ++ ops') s w = let '(s, w) := run_sink ops s w in run_sink ops' s w.
Proof.
  revert s w. induction ops as [|op ops IH]; intros s w; simpl; [done|].
  destruct (sink_op op s w) as [[s' w'] r]. apply IH.
Qed.

Lemma emitted_rows_app ops ops' : emitted_rows (ops ++ ops') = emitted_rows ops ++ emitted_rows ops'.
Proof. induction ops as [|[row|] ops IH]; simpl; [done|by rewrite IH|done]. Qed.

(** What a flusher promises of the directory it writes to: a batch it reports written is stored,
    and what is stored stays, also when a later write fails half way. *)
Class StoringFlusher (fl : SnapshotFlusher (W:=W)) (dir : string) (stored : MarketSnapshot -> W -> Prop)
    : Prop := {
  stored_kept batch w s : stored s w -> stored s (fl batch dir w).1;
  stored_ok batch w r :
    (fl batch dir w).2 = Ok r -> Forall (fun s => stored s (fl batch dir w).1) batch
}.

(** The clock and the listeners of the flushes leave the store alone. *)
Definition undisturbed (stored : MarketSnapshot -> W -> Prop)
    (cb : option (BufferedSinkFlushEvent -> W -> W)) : Prop :=
  forall s w, stored s w ->
    stored s (wall_clock_us w).1 /\ match cb with Some cb => forall e, stored s (cb e w) | None => True end.

(** A chunk of the rows that left the buffer: written, or shed. *)
Inductive Fate := Written | Shed.

Definition chunk_ok (stored : MarketSnapshot -> W -> Prop) (w : W) (c : Fate * list MarketSnapshot) : Prop :=
  match c.1 with
  | Written => Forall (fun s => stored s w) c.2
  | Shed => N.of_nat (length c.2) = OVERFLOW_DROP_CHUNK
  end.

Definition shed_rows (chunks : list (Fate * list MarketSnapshot)) : list MarketSnapshot :=
  concat ((fun c => match c.1 with Written => [] | Shed => c.2 end) <$> chunks).

Definition left_rows (chunks : list (Fate * list MarketSnapshot)) : list MarketSnapshot :=
  concat (snd <$> chunks).

Lemma left_rows_snoc chunks f c : left_rows (chunks ++ [(f, c)]) = left_rows chunks ++ c.
Proof. unfold left_rows. rewrite fmap_app, concat_app. simpl. by rewrite app_nil_r. Qed.

Lemma shed_rows_snoc chunks f c :
  shed_rows (chunks ++ [(f, c)]) = shed_rows chunks ++ match f with Written => [] | Shed => c end.
Proof. unfold shed_rows. rewrite fmap_app, concat_app. simpl. by rewrite app_nil_r. Qed.

(** Where the rows given so far are. *)
Record Accounted (stored : MarketSnapshot -> W -> Prop) (rows : list MarketSnapshot)
    (chunks : list (Fate * list MarketSnapshot)) (b : BufferedSink (W:=W)) (w : W) : Prop := {
  acc_rows : rows = left_rows chunks ++ snapshot_buffer b;
  acc_chunks : Forall (chunk_ok stored w) chunks;
  acc_dropped : dropped_snapshots b = (N.of_nat (length (shed_rows chunks)) mod u64_modulus)%N;
  acc_bound : (N.of_nat (length (snapshot_buffer b)) <= MAX_BUFFERED_SNAPSHOTS)%N;
  acc_shed : shed_rows chunks <> [] -> (MAX_BUFFERED_SNAPSHOTS < N.of_nat (length rows))%N;
  acc_emitted : events_emitted b = (N.of_nat (length rows) mod u64_modulus)%N
}.

Context (stored : MarketSnapshot -> W -> Prop) (d : DeclaredSet) (dir : string) (fl : SnapshotFlusher (W:=W))
  (cb : option (BufferedSinkFlushEvent -> W -> W)).
Context {SF : StoringFlusher fl dir stored} (Hcb : undisturbed stored cb).

(** The parts of the sink that never change. *)
Definition same_sink (b : BufferedSink (W:=W)) : Prop :=
  output_dir b = dir /\ flusher b = fl /\ flush_callback b = cb /\ bs_declared b = d.

Lemma emit_accounted row rows chunks b w :
  same_sink b -> Accounted stored rows chunks b w ->
  let b' := (BufferedSink_emit_snapshot row b w).1.1 in
  (BufferedSink_emit_snapshot row b w).1.2 = w /\ same_sink b' /\
  exists chunks', Accounted stored (rows ++ [stripped d row]) chunks' b' w.
Proof.
  intros (Hd & Hf & Hc & Hs) HA. unfold BufferedSink_emit_snapshot, strip_undeclared, stripped.
  cbn [bs_declared bs_emitted]. rewrite Hs.
  destruct (strip_snapshot d row) as [out n]. cbn [fst snd].
  split; [done|]. unfold shed_oldest. cbn [snapshot_buffer bs_emitted].
  unfold MAX_BUFFERED_SNAPSHOTS, OVERFLOW_DROP_CHUNK.
  destruct (N.leb_spec 200000 (N.of_nat (length (snapshot_buffer b)))) as [Hle|Hlt].
  - rewrite N.min_l by lia. set (m := N.to_nat 8192). assert (Hm : m = N.to_nat 8192) by done.
    clearbody m. assert (Hsz : length (take m (snapshot_buffer b)) = m) by (rewrite length_take; lia).
    split; [by repeat split|]. exists (chunks ++ [(Shed, take m (snapshot_buffer b))]).
    destruct HA as [Hrows Hch Hdr Hb Hsh Hem]. split; cbn [snapshot_buffer dropped_snapshots events_emitted bs_with_buffer bs_emitted].
    + rewrite left_rows_snoc, Hrows, <- !app_assoc. f_equal. rewrite app_assoc. by rewrite take_drop.
    + apply Forall_app. split; [done|]. apply Forall_singleton. unfold chunk_ok. cbn [fst snd]. unfold OVERFLOW_DROP_CHUNK. lia.
    + rewrite shed_rows_snoc, length_app, Hsz. rewrite (u64_add_wrapped _ _ _ Hdr). f_equal. lia.
    + rewrite length_app, length_drop. unfold MAX_BUFFERED_SNAPSHOTS in *. simpl. lia.
    + intros _. rewrite Hrows, !length_app. unfold MAX_BUFFERED_SNAPSHOTS. simpl. lia.
    + rewrite (u64_add_wrapped _ _ _ Hem), length_app. f_equal. simpl. lia.
  - split; [by repeat split|]. exists chunks. destruct HA as [Hrows Hch Hdr Hb Hsh Hem].
    split; cbn [snapshot_buffer dropped_snapshots events_emitted bs_with_buffer bs_emitted]; [|done|done| | |].
    + by rewrite Hrows, app_assoc.
    + rewrite length_app. unfold MAX_BUFFERED_SNAPSHOTS. simpl. lia.
    + intros Hne. rewrite length_app. specialize (Hsh Hne). lia.
    + rewrite (u64_add_wrapped _ _ _ Hem), length_app. f_equal. simpl. lia.
Qed.

Lemma chunks_kept chunks w w' :
  (forall s, stored s w -> stored s w') ->
  Forall (chunk_ok stored w) chunks -> Forall (chunk_ok stored w') chunks.
Proof.
  intros Hk Hc. eapply Forall_impl; [exact Hc|]. intros [[] c]; unfold chunk_ok; simpl; [|done].
  intros H. eapply Forall_impl; [exact H|done].
Qed.

Lemma notify_kept n report b w s :
  flush_callback b = cb -> stored s w -> stored s (notify_flush n report b w).
Proof.
  intros Hc Hs. unfold notify_flush. rewrite Hc. destruct (Hcb s w Hs) as [Hw _].
  destruct cb as [f|]; [|done]. destruct (wall_clock_us w) as [w' now]. cbn [fst] in Hw.
  apply (Hcb s w' Hw).
Qed.

Lemma flush_accounted rows chunks b w :
  same_sink b -> Accounted stored rows chunks b w ->
  let b' := (BufferedSink_flush b w).1.1 in let w' := (BufferedSink_flush b w).1.2 in
  same_sink b' /\
  (exists chunks', Accounted stored rows chunks' b' w') /\
  ((BufferedSink_flush b w).2 = Ok tt -> snapshot_buffer b' = []).
Proof.
  intros (Hd & Hf & Hc & Hs) HA. unfold BufferedSink_flush.
  destruct (snapshot_buffer b) as [|s0 buf] eqn:Eb; cbn [fst snd].
  { split; [by repeat split|]. split; [by exists chunks|done]. }
  rewrite Hf, Hd. pose proof (stored_kept (s0 :: buf) w) as Hkept.
  pose proof (stored_ok (s0 :: buf) w) as Hok.
  destruct (fl (s0 :: buf) dir w) as [w' [report|e]]; cbn [fst snd] in *.
  - assert (Hn : forall s, stored s w' -> stored s (notify_flush (length (s0 :: buf)) report (bs_flushed report b) w')).
    { intros s. by apply notify_kept. }
    split; [by repeat split|]. split; [|done]. exists (chunks ++ [(Written, s0 :: buf)]).
    destruct HA as [Hrows Hch Hdr Hb Hsh Hem]. split; cbn [snapshot_buffer dropped_snapshots events_emitted bs_flushed].
    + by rewrite left_rows_snoc, app_nil_r, Hrows, Eb.
    + apply Forall_app. split; [apply (chunks_kept _ w); [by auto|done]|].
      apply Forall_singleton. unfold chunk_ok. cbn [fst snd].
      eapply Forall_impl; [exact (Hok report eq_refl)|]. exact Hn.
    + by rewrite shed_rows_snoc, app_nil_r.
    + simpl. lia.
    + by rewrite shed_rows_snoc, app_nil_r.
    + done.
  - split; [by repeat split|]. split; [|done]. exists chunks.
    destruct HA as [Hrows Hch Hdr Hb Hsh Hem].
    split; cbn [snapshot_buffer dropped_snapshots events_emitted bs_failed]; try done.
    apply (chunks_kept _ w); [by auto|done].
Qed.

Lemma run_accounted ops rows chunks b w :
  same_sink b -> Accounted stored rows chunks b w ->
  let '(b', w') := run_sink ops b w in
  same_sink b' /\ exists chunks', Accounted stored (rows ++ (stripped d <$> emitted_rows ops)) chunks' b' w'.
Proof.
  revert rows chunks b w. induction ops as [|[row|] ops IH]; intros rows chunks b w Hb HA.
  - simpl. rewrite app_nil_r. eauto.
  - simpl. destruct (emit_accounted row _ _ _ _ Hb HA) as (Hw & Hb' & chunks' & HA').
    destruct (BufferedSink_emit_snapshot row b w) as [[b1 w1] r]. cbn [fst snd] in *. subst w1.
    specialize (IH _ _ _ _ Hb' HA'). rewrite <- app_assoc in IH. exact IH.
  - simpl. destruct (flush_accounted _ _ _ _ Hb HA) as (Hb' & [chunks' HA'] & _).
    destruct (BufferedSink_flush b w) as [[b1 w1] r]. cbn [fst snd] in *.
    by apply (IH _ _ _ _ Hb' HA').
Qed.

(** The sink as the factory makes it. *)
Definition fresh_sink : BufferedSink (W:=W) :=
  with_declared d (match cb with Some f => with_flush_callback dir fl f | None => BufferedSink_new dir fl end).

Lemma fresh_same : same_sink fresh_sink.
Proof. clear Hcb. unfold same_sink, fresh_sink. by destruct cb. Qed.

Lemma fresh_accounted w : Accounted stored [] [] fresh_sink w.
Proof. clear Hcb. unfold fresh_sink. split; destruct cb; simpl; try done; lia. Qed.

Lemma sink_delivers ops w :
  let rows := stripped d <$> emitted_rows ops in
  let '(b, w') := run_sink ops fresh_sink w in
  (exists chunks, Accounted stored rows chunks b w') /\
  ((BufferedSink_flush b w').2 = Ok tt -> (N.of_nat (length rows) <= MAX_BUFFERED_SNAPSHOTS)%N ->
   Forall (fun s => stored s (BufferedSink_flush b w').1.2) rows).
Proof.
  intros rows. pose proof (run_accounted ops [] [] fresh_sink w fresh_same (fresh_accounted w)) as H.
  destruct (run_sink ops fresh_sink w) as [b w']. destruct H as (Hb & chunks & HA). simpl in HA.
  split; [by exists chunks|]. intros Hok Hlen.
  destruct (flush_accounted _ _ _ _ Hb HA) as (_ & [chunks' HA'] & Hempty).
  destruct HA' as [Hrows Hch _ _ Hsh _]. rewrite (Hempty Hok), app_nil_r in Hrows.
  change (rows = left_rows chunks') in Hrows. rewrite Hrows.
  assert (Hnil : shed_rows chunks' = []).
  { destruct (shed_rows chunks') eqn:E; [done|]. exfalso.
    specialize (Hsh ltac:(discriminate)). fold rows in Hsh. lia. }
  clear -Hch Hnil. unfold left_rows, shed_rows in *.
  induction Hch as [|[f c] chunks' Hc Hch IH]; simpl in *; [done|].
  apply app_nil in Hnil as [Hc0 Hnil]. apply Forall_app. split; [|by apply IH].
  unfold chunk_ok in Hc. simpl in *. destruct f; [done|]. by subst.
Qed.

(** C15: A buffered sink loses nothing silently: after any run of snapshots and flushes, the
    declared part of every snapshot has been stored, is still in the buffer, or went with a chunk
    of 8192 that a buffer of 200000 shed; the three parts follow each other in the order of
    arrival, the shed ones are counted, failed flushes change nothing, and when at most 200000
    snapshots came in, one flush that succeeds leaves every one of them stored. *)
Theorem buffered_delivers ops w :
  let rows := stripped d <$> emitted_rows ops in
  let '(b, w') := run_sink ops fresh_sink w in
  (exists chunks, Accounted stored rows chunks b w') /\
  ((BufferedSink_flush b w').2 = Ok tt -> (N.of_nat (length rows) <= MAX_BUFFERED_SNAPSHOTS)%N ->
   Forall (fun s => stored s (BufferedSink_flush b w').1.2) rows).
Proof. apply sink_delivers. Qed.
End Delivery.

(** ** The set *)

Section Set_.
Context {NU : Numeric} {W : Type} {OW : Outside W}.

Lemma fan_out_names (call : forall S, OutputSink S -> SinkCall S W) set w :
  (fun b => sink_name (OutputSink:=box_impl b)) <$> (fan_out call set w).1 =
  (fun b => sink_name (OutputSink:=box_impl b)) <$> set.
Proof.
  revert w. induction set as [|b set IH]; intros w; simpl; [done|].
  destruct (call _ _ _ _) as [[s w'] r]. specialize (IH w').
  destruct (fan_out call set w') as [set' w'']. simpl in *. by f_equal.
Qed.

(** The error of a sink never reaches the caller of the set. *)
Lemma set_flush_never_fails (set : OutputSinkSet) w : (set_flush set w).2 = Ok tt.
Proof. unfold set_flush, set_call. by destruct (fan_out _ set w). Qed.

(** A set of one sink is that sink. *)
Lemma fan_out_one (call : forall S, OutputSink S -> SinkCall S W) {S} {I : OutputSink S} (s : S) w :
  fan_out call [box_sink s] w = ([box_sink (call S I s w).1.1], (call S I s w).1.2).
Proof. simpl. destruct (call S I s w) as [[s' w'] r]. done. Qed.

(** ** The factory *)

Definition is_parquet (c : OutputSinkConfig) : bool :=
  match c with SinkParquet _ => true | _ => false end.

Definition parquet_count (configs : list OutputSinkConfig) : nat :=
  length (List.filter is_parquet configs).

(** The sinks of a configuration: the registry goes to the first channel sink. *)
Fixpoint expected_sinks (configs : list OutputSinkConfig) (has_registry : bool) : list string :=
  match configs with
  | [] => []
  | SinkChannel :: cs =>
    if has_registry then "channel"%string :: expected_sinks cs false else expected_sinks cs false
  | SinkTerminal :: cs => "terminal"%string :: expected_sinks cs has_registry
  | SinkParquet _ :: cs => "buffered"%string :: expected_sinks cs has_registry
  end.

Definition has {A} (o : option A) : bool := match o with Some _ => true | None => false end.

Definition sink_names (set : OutputSinkSet) : list string :=
  (fun b => sink_name (OutputSink:=box_impl b)) <$> set.

Definition first_unfed (configs : list OutputSinkConfig) : option string :=
  match List.filter is_parquet configs with SinkParquet dir :: _ => Some dir | _ => None end.

Lemma sink_names_snoc {S} {I : OutputSink S} set (s : S) l :
  sink_names (set ++ [box_sink s]) ++ l = sink_names set ++ sink_name (OutputSink:=I) :: l.
Proof. unfold sink_names. by rewrite fmap_app, <- app_assoc. Qed.

(** The rest of the entries, from what the first one left. *)
Ltac build_rest IH :=
  match goal with |- context [build_from ?cs ?p ?d ?set ?w] =>
    specialize (IH p set w); simpl in IH;
    destruct (build_from cs p d set w) as [? [?|?]]; simpl in *; [|lia];
    let Hn := fresh in destruct IH as [? Hn]; split; [lia|by rewrite Hn, ?sink_names_snoc]
  end.

Lemma build_from_spec configs p d set w :
  match (build_from (OW:=OW) configs p d set w).2 with
  | Ok set' =>
    parquet_count configs <= (if has (sp_flusher p) then 1 else 0) /\
    sink_names set' = sink_names set ++ expected_sinks configs (has (sp_registry p))
  | Err _ => (if has (sp_flusher p) then 1 else 0) < parquet_count configs
  end.
Proof.
  unfold parquet_count. revert p set w.
  induction configs as [|c configs IH]; intros p set w; simpl; [by rewrite app_nil_r; split; [lia|]|].
  destruct c as [| |dir]; simpl.
  - destruct (sp_registry p) as [reg|] eqn:Er; simpl.
    + destruct (sp_snapshots p) as [sc|]; [|destruct (SnapshotChannel_new _ w) as [w1 sc]];
        build_rest IH.
    + specialize (IH p set w). by rewrite Er in IH.
  - build_rest IH.
  - destruct (sp_flusher p) as [f|] eqn:Ef; simpl; [|lia]. build_rest IH.
Qed.

(** The factory builds a set exactly when it has a flusher for each Parquet sink of the
    configuration, that is for at most one; the set then holds a sink per entry, in order,
    except channel sinks beyond the one registry. *)
Theorem build_sinks_exact configs p d w :
  match (build_sinks (OW:=OW) configs p d w).2 with
  | Ok set =>
    parquet_count configs <= (if has (sp_flusher p) then 1 else 0) /\
    sink_names set = expected_sinks configs (has (sp_registry p))
  | Err _ => (if has (sp_flusher p) then 1 else 0) < parquet_count configs
  end.
Proof. apply build_from_spec. Qed.
End Set_.

(** ** A store whose first write fails *)

#[local] Existing Instance decimal_numeric.

Definition ShopWorld : Type := nat * list MarketSnapshot.

#[export] Instance shop_outside : Outside ShopWorld := {
  RawPayload := unit; Sender := unit;
  broadcast_channel _ w := (w, tt);
  broadcast_send _ _ w := (w, None);
  broadcast_len _ _ := 0%N;
  receiver_count _ _ := 0%N;
  wall_clock_us w := (w, 0%N)
}.

Definition shop_flusher : SnapshotFlusher (W:=ShopWorld) := fun batch dir w =>
  match w.1 with
  | O => ((1, w.2), Err (PersistIo "disk full"))
  | n => ((S n, w.2 ++ batch), Ok {| fr_bytes_written := 10; fr_files_written := 1 |})
  end.

Definition in_shop (s : MarketSnapshot) (w : ShopWorld) : Prop := s ∈ w.2.

#[export] Instance shop_stores : StoringFlusher shop_flusher "out" in_shop.
Proof.
  split; intros batch [[|n] store] x; unfold in_shop; cbn; [done|set_solver|done|].
  intros _. apply Forall_forall. set_solver.
Qed.

Lemma shop_undisturbed : undisturbed (OW:=shop_outside) in_shop None.
Proof. by intros s w Hs. Qed.

Definition shop_ops : list SinkOp :=
  [SinkEmit (MarketSnapshot_empty 10); SinkFlush; SinkEmit (MarketSnapshot_empty 20)].

Definition shop_sink : BufferedSink (W:=ShopWorld) := fresh_sink declared_all "out" shop_flusher None.

Definition shop_left : BufferedSink (W:=ShopWorld) := {|
  output_dir := "out"; snapshot_buffer := [MarketSnapshot_empty 10; MarketSnapshot_empty 20];
  flusher := shop_flusher; events_emitted := 2; bytes_written := 0; files_written := 0;
  flush_failures := 1; dropped_snapshots := 0; flush_callback := None;
  bs_declared := declared_all; undeclared_stripped := 0 |}.

Lemma buffered_delivers_witness :
  run_sink (OW:=shop_outside) shop_ops shop_sink (0, []) = (shop_left, (1, [])) /\
  Forall (fun s => in_shop s (BufferedSink_flush (OW:=shop_outside) shop_left (1, [])).1.2)
    [MarketSnapshot_empty 10; MarketSnapshot_empty 20].
Proof.
  assert (E : run_sink (OW:=shop_outside) shop_ops shop_sink (0, []) = (shop_left, (1, [])))
    by reflexivity.
  assert (Er : stripped declared_all <$> emitted_rows shop_ops =
               [MarketSnapshot_empty 10; MarketSnapshot_empty 20]) by reflexivity.
  pose proof (buffered_delivers in_shop declared_all "out" shop_flusher None shop_undisturbed
                shop_ops (0, [])) as H.
  change (fresh_sink declared_all "out" shop_flusher None) with shop_sink in H.
  cbv zeta in H. rewrite E, Er in H. destruct H as [_ H].
  split; [exact E|]. apply H; [reflexivity|]. discriminate.
Defined.
