(* ===== verification/Flusher.v ===== *)
(** * The Parquet flusher

    [src/aetelier-io/src/snapshots/decompose.rs] (a batch of snapshots as records per datatype)
    and [src/aetelier-io/src/sink.rs]: the leaf of a datatype, the steps that put one file into
    a leaf, and [ParquetSnapshotFlusher], the flusher of the buffered sink. *)
From Stdlib Require Import Ascii String.
From stdpp Require Import strings pretty.
From S2P Require Import Prelude BTree Strings Numeric Pairs Types Book Snapshots Disk Leaf Columnar Sinks.
Local Open Scope string_scope.
Local Open Scope list_scope.

(** ** decompose.rs *)

Record DecomposedSnapshots `{Numeric} := {
  orderbooks : list Orderbook;
  trades : list Trade;
  liquidations : list Liquidation;
  funding_rates : list FundingRate;
  open_interests : list OpenInterest;
  funding_settlements : list FundingSettlement
}.

(** A sample's venue, pair, connection and number on it. *)
Definition SampleKey : Type := string * string * N * N.
Definition SettlementKey : Type := string * string * N.

Section Decompose.
Context {NU : Numeric}.

Definition funding_key (f : FundingRate) : SampleKey :=
  (funding_exchange f, to_canonical (funding_pair f), funding_conn_epoch_us f, funding_recv_seq f).
Definition oi_key (o : OpenInterest) : SampleKey :=
  (oi_exchange o, to_canonical (oi_pair o), oi_conn_epoch_us o, oi_recv_seq o).
Definition settlement_key (f : FundingSettlement) : SettlementKey :=
  (settlement_exchange f, to_canonical (settlement_pair f), funding_time_us f).

(** Records without provenance are all kept; of the others, the first of each key. *)
Definition keep_first {A K} `{Countable K} (free : A -> bool) (key : A -> K)
    (acc : list A * gset K) (x : A) : list A * gset K :=
  if free x then (acc.1 ++ [x], acc.2)
  else if bool_decide (key x ∈ acc.2) then acc
  else (acc.1 ++ [x], {[key x]} ∪ acc.2).

Record Decomposing := {
  dc_orderbooks : list Orderbook;
  dc_trades : list Trade;
  dc_liquidations : list Liquidation;
  dc_funding : list FundingRate * gset SampleKey;
  dc_oi : list OpenInterest * gset SampleKey;
  dc_settlements : list FundingSettlement * gset SettlementKey
}.

Definition funding_free (f : FundingRate) : bool := (funding_recv_seq f =? 0)%N.
Definition oi_free (o : OpenInterest) : bool := (oi_recv_seq o =? 0)%N.

Definition decompose_one (d : Decomposing) (s : MarketSnapshot) : Decomposing := {|
  dc_orderbooks := dc_orderbooks d ++ match ms_orderbook s with Some o => [o] | None => [] end;
  dc_trades := dc_trades d ++ ms_trades s;
  dc_liquidations := dc_liquidations d ++ ms_liquidations s;
  dc_funding := fold_left (keep_first funding_free funding_key) (ms_funding_rate s) (dc_funding d);
  dc_oi := fold_left (keep_first oi_free oi_key) (ms_open_interest s) (dc_oi d);
  dc_settlements := fold_left (keep_first (fun _ => false) settlement_key)
                      (ms_funding_settlements s) (dc_settlements d)
|}.

Definition decompose_snapshots (snapshots : list MarketSnapshot) : DecomposedSnapshots :=
  let d := fold_left decompose_one snapshots
    {| dc_orderbooks := []; dc_trades := []; dc_liquidations := []; dc_funding := ([], ∅);
       dc_oi := ([], ∅); dc_settlements := ([], ∅) |} in {|
  orderbooks := dc_orderbooks d; trades := dc_trades d; liquidations := dc_liquidations d;
  funding_rates := (dc_funding d).1; open_interests := (dc_oi d).1;
  funding_settlements := (dc_settlements d).1
|}.
End Decompose.

(** ** sink.rs *)

Definition placeholder : string := "{data_type}".

Section Leaves.
Context {CA : Calendar}.

(** The day of a leaf is the day of the first instant of the batch. *)
Definition leaf_dir_for (output_path datatype : string) (t_min_us : N) : string :=
  if str_contains placeholder output_path then
    path_join (str_replace placeholder datatype output_path)
      (default "1970-01-01" (day_of_micros (as_i64 t_min_us)))
  else path_join output_path datatype.

Context {DK : Disk} {IJ : IndexJson} {SH : Sha256}.
Local Open Scope io_scope.

(** The leaf and its staging directory, ready for a file. *)
Definition prepare_leaf (leaf : string) : IO unit :=
  do! create_dir_all leaf in
  do! acquire_leaf_lock leaf in
  do! sweep_staging leaf in
  create_dir_all (staging_of leaf).

(** The finished file in the index; its size. *)
Definition record_file (leaf filename datatype : string) (rows t_min_us t_max_us : N) : IO N :=
  let! sha256 := sha256_file (leaf, filename) in
  let! bytes := file_len (leaf, filename) in
  do! append_entry leaf
    {| ie_filename := filename; ie_sha256 := sha256; ie_rows := rows; ie_t_min_us := t_min_us;
       ie_t_max_us := t_max_us; ie_schema_id := datatype ++ ".v1" |} in
  io_ret bytes.

Definition persist_leaf (output_path datatype : string) (rows t_min_us t_max_us : N)
    (write : string -> IO string) : IO N :=
  let leaf := leaf_dir_for output_path datatype t_min_us in
  do! prepare_leaf leaf in
  let! staged := write (staging_of leaf) in
  let! filename := finalize_into leaf (staging_of leaf, staged) in
  record_file leaf filename datatype rows t_min_us t_max_us.
End Leaves.

Section Flusher.
Context {NU : Numeric} {PQ : Parquet} {CA : Calendar} {DK : Disk} {IJ : IndexJson} {SH : Sha256}.
Local Open Scope io_scope.

(** One datatype of the batch, when it has records; the bytes and the files so far. *)
Definition persist_records {A} (rows : list A) (output_dir datatype : string) (t_min t_max : N)
    (write : A -> list A -> string -> IO string) (total : N * N) : IO (N * N) :=
  match rows with
  | [] => io_ret total
  | r :: rest =>
    let! bytes := persist_leaf output_dir datatype (N.of_nat (length rows)) t_min t_max (write r rest) in
    io_ret (u64_add total.1 bytes, (total.2 + 1)%N)
  end.

(** The smallest and the largest grid instant of a batch. *)
Definition batch_span (snapshots : list MarketSnapshot) : N * N :=
  fold_left (fun acc s => (N.min acc.1 (ms_ts_us s), N.max acc.2 (ms_ts_us s))) snapshots (u64_max, 0%N).

Definition ParquetSnapshotFlusher : SnapshotFlusher (W:=Fs) := fun snapshots output_dir =>
  match snapshots with
  | [] => io_ret {| fr_bytes_written := 0; fr_files_written := 0 |}
  | _ =>
    let '(t_min, t_max) := batch_span snapshots in
    let d := decompose_snapshots snapshots in
    let! total := persist_records (orderbooks d) output_dir "orderbooks" t_min t_max
      (fun o rest staging => write_ob_parquet o rest staging "sync") (0%N, 0%N) in
    let! total := persist_records (trades d) output_dir "trades" t_min t_max
      (fun t rest staging => write_trades_parquet_timestamped (t :: rest) staging "sync") total in
    let! total := persist_records (liquidations d) output_dir "liquidations" t_min t_max
      (fun l rest staging => write_liquidations_parquet_timestamped (l :: rest) staging "sync") total in
    let! total := persist_records (funding_rates d) output_dir "funding_rates" t_min t_max
      (fun f rest staging => write_funding_parquet_timestamped (f :: rest) staging "sync") total in
    let! total := persist_records (open_interests d) output_dir "open_interests" t_min t_max
      (fun o rest staging => write_oi_parquet_timestamped (o :: rest) staging "sync") total in
    let! total := persist_records (funding_settlements d) output_dir "funding_settlements" t_min t_max
      (fun f rest staging => write_funding_settlement_parquet_timestamped (f :: rest) staging "sync") total in
    io_ret {| fr_bytes_written := total.1; fr_files_written := total.2 |}
  end.
End Flusher.
