(* ===== verification/FlusherProps.v ===== *)
(** * What the flusher leaves in the archive

    The records of a batch ([decompose_exact]); the steps that put a file into a leaf, under
    every failure of the disk; and the archive as the store of the buffered sink: the
    flusher satisfies the interface [StoringFlusher], so that what [Sinks] promises of
    a sink holds of the files on the disk. *)
From Stdlib Require Import Ascii String.
From stdpp Require Import strings pretty.
From S2P Require Import Prelude BTree Strings Numeric Pairs Types Book Runtime Snapshots Worker Disk Leaf Columnar ColumnarProps Sinks SinksProps Flusher.
Local Open Scope nat_scope.
Local Open Scope list_scope.

(** ** Keeping the first of each key *)

Section KeepFirst.
Context {A K : Type} `{Countable K} (free : A -> bool) (key : A -> K).

(** [kept] is what the fold makes of [all], having seen the keys [seen]. *)
Record KeptFirst (all kept : list A) (seen : gset K) : Prop := {
  kf_sublist : kept `sublist_of` all;
  kf_free : List.filter free kept = List.filter free all;
  kf_once : NoDup (key <$> List.filter (fun x => negb (free x)) kept);
  kf_seen k : k ∈ seen <-> k ∈ key <$> List.filter (fun x => negb (free x)) kept;
  kf_all x : x ∈ all -> free x = false -> key x ∈ seen
}.

Lemma keep_first_step all kept seen x :
  KeptFirst all kept seen ->
  KeptFirst (all ++ [x]) (keep_first free key (kept, seen) x).1 (keep_first free key (kept, seen) x).2.
Proof.
  intros [Hsub Hfree Honce Hseen Hall]. unfold keep_first. cbn [fst snd].
  destruct (free x) eqn:Ef; [|case_bool_decide as Hk]; cbn [fst snd].
  - split; [by apply sublist_app|by rewrite !List.filter_app, Hfree| | |].
    + rewrite List.filter_app. simpl. rewrite Ef. simpl. by rewrite app_nil_r.
    + intros k. rewrite List.filter_app. simpl. rewrite Ef. simpl. by rewrite app_nil_r.
    + intros y [Hy|Hy%list_elem_of_singleton]%elem_of_app Hf; [by apply Hall|congruence].
  - split; [by apply sublist_inserts_r| |done|done|].
    + rewrite List.filter_app. simpl. by rewrite Ef, app_nil_r.
    + intros y [Hy|Hy%list_elem_of_singleton]%elem_of_app Hf; [by apply Hall|by subst].
  - split; [by apply sublist_app|by rewrite !List.filter_app, Hfree| | |].
    + rewrite List.filter_app. simpl. rewrite Ef. simpl. rewrite fmap_app. apply NoDup_app.
      split_and!; [done| |apply NoDup_singleton].
      intros k Hin ->%list_elem_of_singleton. by apply Hk, Hseen.
    + intros k. rewrite List.filter_app. simpl. rewrite Ef. simpl.
      rewrite fmap_app. set_solver.
    + intros y [Hy|Hy%list_elem_of_singleton]%elem_of_app Hf; [|subst]; set_solver.
Qed.

Lemma keep_first_fold all kept seen xs :
  KeptFirst all kept seen ->
  KeptFirst (all ++ xs) (fold_left (keep_first free key) xs (kept, seen)).1
    (fold_left (keep_first free key) xs (kept, seen)).2.
Proof.
  revert all kept seen. induction xs as [|x xs IH]; intros all kept seen HK; simpl.
  - by rewrite app_nil_r.
  - pose proof (keep_first_step _ _ _ x HK) as HK'.
    destruct (keep_first free key (kept, seen) x) as [kept' seen']. cbn [fst snd] in *.
    specialize (IH _ _ _ HK'). by rewrite <- app_assoc in IH.
Qed.

Lemma kept_first_nil : KeptFirst [] [] ∅.
Proof. split; [done|done|constructor|set_solver|set_solver]. Qed.

(** A record of [all] is kept, or another of its key is. *)
Lemma kept_first_cover all kept seen x :
  KeptFirst all kept seen -> x ∈ all ->
  exists y, y ∈ kept /\ (y = x \/ free y = false /\ free x = false /\ key y = key x).
Proof.
  intros [_ Hfree _ Hseen Hall] Hx. destruct (free x) eqn:Ef.
  - exists x. split; [|auto]. apply list_elem_of_In.
    assert (In x (List.filter free kept)) as Hin%filter_In; [|tauto].
    rewrite Hfree. apply filter_In. split; [by apply list_elem_of_In|done].
  - specialize (Hall x Hx Ef). apply Hseen, list_elem_of_fmap in Hall as (y & Hk & Hy).
    apply list_elem_of_In, filter_In in Hy as [Hy Hn%negb_true_iff].
    exists y. split; [by apply list_elem_of_In|auto].
Qed.
End KeepFirst.

Section Decomposed.
Context {NU : Numeric}.

Definition Decomposed (snaps : list MarketSnapshot) (d : Decomposing) : Prop :=
  dc_orderbooks d = omap ms_orderbook snaps /\
  dc_trades d = snaps ≫= ms_trades /\
  dc_liquidations d = snaps ≫= ms_liquidations /\
  KeptFirst funding_free funding_key (snaps ≫= ms_funding_rate) (dc_funding d).1 (dc_funding d).2 /\
  KeptFirst oi_free oi_key (snaps ≫= ms_open_interest) (dc_oi d).1 (dc_oi d).2 /\
  KeptFirst (fun _ => false) settlement_key (snaps ≫= ms_funding_settlements)
    (dc_settlements d).1 (dc_settlements d).2.

Lemma bind_snoc {A B} (f : A -> list B) l x : (l ++ [x]) ≫= f = (l ≫= f) ++ f x.
Proof. rewrite bind_app. simpl. by rewrite app_nil_r. Qed.

Lemma decompose_step snaps d s : Decomposed snaps d -> Decomposed (snaps ++ [s]) (decompose_one d s).
Proof.
  intros (Ho & Ht & Hl & Hf & Hi & Hs). unfold Decomposed, decompose_one. cbn.
  rewrite !bind_snoc, omap_app, Ho, Ht, Hl. split_and!; [|done|done| | |].
  - f_equal.
  - pose proof (keep_first_fold _ _ _ _ _ (ms_funding_rate s) Hf). by destruct (dc_funding d).
  - pose proof (keep_first_fold _ _ _ _ _ (ms_open_interest s) Hi). by destruct (dc_oi d).
  - pose proof (keep_first_fold _ _ _ _ _ (ms_funding_settlements s) Hs). by destruct (dc_settlements d).
Qed.

Lemma decompose_fold snaps' snaps d :
  Decomposed snaps d -> Decomposed (snaps ++ snaps') (fold_left decompose_one snaps' d).
Proof.
  revert snaps d. induction snaps' as [|s snaps' IH]; intros snaps d H; simpl; [by rewrite app_nil_r|].
  specialize (IH _ _ (decompose_step _ _ s H)). by rewrite <- app_assoc in IH.
Qed.

Lemma decompose_decomposed snaps : exists d, Decomposed snaps d /\
  decompose_snapshots snaps = {|
    orderbooks := dc_orderbooks d; trades := dc_trades d; liquidations := dc_liquidations d;
    funding_rates := (dc_funding d).1; open_interests := (dc_oi d).1;
    funding_settlements := (dc_settlements d).1 |}.
Proof.
  eexists. split; [|reflexivity]. apply (decompose_fold snaps []).
  unfold Decomposed; cbn. split_and!; try done; apply kept_first_nil.
Qed.

(** The records of a batch are exactly those of its snapshots: books, trades and liquidations all
    of them, in order; of the funding rates and open-interest samples those without provenance
    all, and of each connection's number exactly the first; of the settlements exactly the
    first of each settlement instant of a pair. *)
Theorem decompose_exact snaps :
  let d := decompose_snapshots snaps in
  orderbooks d = omap ms_orderbook snaps /\ trades d = snaps ≫= ms_trades /\
  liquidations d = snaps ≫= ms_liquidations /\
  (exists seen, KeptFirst funding_free funding_key (snaps ≫= ms_funding_rate) (funding_rates d) seen) /\
  (exists seen, KeptFirst oi_free oi_key (snaps ≫= ms_open_interest) (open_interests d) seen) /\
  (exists seen, KeptFirst (fun _ => false) settlement_key (snaps ≫= ms_funding_settlements)
                  (funding_settlements d) seen).
Proof.
  intros d. unfold d. destruct (decompose_decomposed snaps) as (d' & (Ho & Ht & Hl & Hf & Hi & Hs) & ->).
  simpl. split_and!; eauto.
Qed.
End Decomposed.

(** ** One file into a leaf *)

(** A staged file has the content and a Parquet name. *)
Definition stages {DK : Disk} (write : string -> IO string) (content : string) : Prop :=
  forall staging s, ensures (write staging) s (fun s' r =>
    exists file, only_touches (eq (staging, file)) s s' /\ ends_with ".parquet" file = true /\
      forall f, r = Ok f -> f = file /\ file_at (staging, file) s' = Some content).

Section Persist.
Context {CA : Calendar} {DK : Disk} {IJ : IndexJson} {SH : Sha256}.

Lemma ensures_ignore {A} (m : IO A) s (Q : Fs -> Result unit PersistError -> Prop) :
  ensures m s (fun s' _ => Q s' (Ok tt)) -> ensures (ignore m) s Q.
Proof. done. Qed.

Lemma create_dir_all_ensures P dir s :
  ensures (create_dir_all dir) s (fun s' _ => only_touches P s s').
Proof.
  apply ensures_sys; [done|]. unfold ensures. simpl. split_and!; simpl; [set_solver|done|done].
Qed.

Lemma open_or_create_ensures p s :
  ensures (open_or_create p) s (fun s' _ =>
    only_touches (eq p) s s' /\ default "" (file_at p s') = default "" (file_at p s) /\
    (file_at p s = None -> file_at p s' = None \/ file_at p s' = Some ""))%string.
Proof.
  apply ensures_sys; [intros e; unfold next_call; auto with aetelier|]. unfold ensures. simpl.
  destruct (bool_decide (p.1 ∈ fs_dirs s)); simpl; [|auto with aetelier].
  destruct (file_exists p (next_call s)) eqn:E; [auto with aetelier|].
  unfold file_exists in E. change (file_at p (next_call s)) with (file_at p s) in E.
  destruct (file_at p s) as [c|] eqn:Ec; [done|].
  split; [by apply only_touches_call_insert|]. unfold file_at. simpl. rewrite lookup_insert_eq. auto.
Qed.

Lemma acquire_leaf_lock_ensures leaf s :
  ensures (acquire_leaf_lock leaf) s (fun s' _ => only_touches (eq (leaf, LOCK_FILE)) s s').
Proof.
  unfold acquire_leaf_lock. apply ensures_bind. unfold ensures at 1, io_get. cbn [fst snd].
  case_bool_decide; [by apply ensures_ret|].
  apply ensures_bind. eapply ensures_mono; [apply open_or_create_ensures|].
  intros s1 [v|e] [H1 _]; [|done].
  apply ensures_bind. eapply ensures_mono; [by apply sys_read_ensures|].
  intros s2 [b|e] ->; [destruct b|]; unfold ensures; simpl; [|done|done].
  destruct H1 as (Hd & Hh & Hf). split_and!; [done|set_solver|done].
Qed.

Lemma remove_file_ensures p s : ensures (remove_file p) s (fun s' _ => only_touches (eq p) s s').
Proof.
  apply ensures_sys; [done|]. unfold ensures. simpl.
  destruct (file_at p (next_call s)); [|done]. split_and!; [done..|].
  intros q Hq. unfold file_at. simpl. by apply lookup_delete_ne.
Qed.

Lemma remove_files_ensures dir names s :
  ensures (remove_files dir names) s (fun s' _ => only_touches (fun p => p.1 = dir) s s').
Proof.
  revert s. induction names as [|n names IH]; intros s; [by apply ensures_ret|]. simpl.
  apply ensures_bind, ensures_ignore. eapply ensures_mono; [apply remove_file_ensures|].
  intros s1 r1 H1. eapply ensures_mono; [apply IH|]. intros s2 r2 H2.
  eapply only_touches_trans; [|exact H2]. eapply only_touches_weaken; [|exact H1]. by intros p <-.
Qed.

Lemma sweep_staging_ensures leaf s :
  ensures (sweep_staging leaf) s (fun s' _ => only_touches (fun p => p.1 = staging_of leaf) s s').
Proof.
  apply ensures_ignore, ensures_bind. unfold read_dir.
  eapply ensures_mono; [apply sys_read_ensures; intros s'; by case_bool_decide|].
  intros s1 [names|e] ->; [|done]. eapply ensures_mono; [apply remove_files_ensures|]. done.
Qed.

(** What a leaf's files may do while one more is put into it: files outside the staging directory and
    the lock stay; the index is the caller's. *)
Definition scratch (leaf : string) (p : Path) : Prop :=
  p.1 = staging_of leaf \/ p = (leaf, LOCK_FILE).

Lemma ends_with_parquet_inv n : ends_with ".parquet" n = true -> n <> INDEX_FILE /\ n <> LOCK_FILE.
Proof. intros H. split; intros ->; discriminate H. Qed.

Lemma unique_path_parquet dir n s :
  ends_with ".parquet" n = true -> ends_with ".parquet" (unique_path dir n s) = true.
Proof.
  intros Hn. unfold unique_path. destruct (file_exists (dir, n) s); [|done].
  generalize (size (fs_files s)) as fuel, 1 as k.
  assert (Halt : forall stem k, ends_with ".parquet" (alt_name stem k) = true).
  { intros stem k. unfold alt_name. rewrite <- !string_app_assoc. apply ends_with_app. }
  induction fuel as [|fuel IH]; intros k; simpl; [apply Halt|].
  destruct (file_exists _ s); [apply IH|apply Halt].
Qed.

(** The file is moved under a fresh Parquet name, or nothing outside the staging directory changes. *)
Lemma finalize_into_ensures leaf staging file content s :
  staging = staging_of leaf -> staging <> leaf -> ends_with ".parquet" file = true ->
  file_at (staging, file) s = Some content ->
  ensures (finalize_into leaf (staging, file)) s (fun s' r =>
    only_touches (scratch leaf) s s' /\ (forall n, r <> Ok n) \/
    exists n, file_at (leaf, n) s = None /\ ends_with ".parquet" n = true /\
      file_at (leaf, n) s' = Some content /\
      only_touches (fun p => scratch leaf p \/ p = (leaf, n)) s s' /\
      forall m, r = Ok m -> m = n).
Proof.
  intros Hst Hne Hp Hc. unfold finalize_into.
  apply ensures_bind. eapply ensures_mono; [apply sys_read_ensures; intros s'; by case_match|].
  intros s1 [u|e] ->; [|by left].
  apply ensures_bind. eapply ensures_mono; [by apply sys_read_ensures|].
  intros s2 [u'|e] ->; [|by left].
  apply ensures_bind. unfold ensures at 1, io_get. cbn [fst snd].
  set (s2 := next_call (next_call s)). set (n := unique_path leaf file s2).
  assert (Hn : file_at (leaf, n) s = None).
  { pose proof (unique_path_fresh leaf file s2) as Hf. unfold file_exists in Hf. fold n in Hf.
    change (file_at (leaf, n) s2) with (file_at (leaf, n) s) in Hf.
    by destruct (file_at (leaf, n) s). }
  assert (Hnp : ends_with ".parquet" n = true) by by apply unique_path_parquet.
  apply ensures_bind. unfold rename. apply ensures_sys; [intros e; by left|].
  unfold ensures at 1. cbn [fst snd].
  change (file_at (staging, file) (next_call s2)) with (file_at (staging, file) s). rewrite Hc. cbn [fst snd].
  set (s3 := with_files _ _).
  assert (H3 : only_touches (fun p => scratch leaf p \/ p = (leaf, n)) s s3).
  { split_and!; [done..|]. intros p Hp'. unfold file_at, s3. simpl.
    rewrite lookup_insert_ne by (intros <-; auto).
    apply lookup_delete_ne. intros <-. apply Hp'. left. by left. }
  assert (Hc3 : file_at (leaf, n) s3 = Some content) by apply lookup_insert_eq.
  apply ensures_bind. eapply ensures_mono; [apply sys_read_ensures; intros s'; by case_bool_decide|].
  intros s4 [v|e] ->; [|right; by exists n].
  apply ensures_bind. eapply ensures_mono; [by apply sys_read_ensures|].
  intros s5 [v'|e] ->; [|right; by exists n].
  apply ensures_ret. right. exists n. split_and!; try done. by intros m [= ->].
Qed.

(** The index grows by an ended line, by a part of one, or not at all. *)
Lemma append_entry_ensures leaf e s :
  ensures (append_entry leaf e) s (fun s' r =>
    only_touches (eq (leaf, INDEX_FILE)) s s' /\
    exists added, default "" (file_at (leaf, INDEX_FILE) s') =
                  (default "" (file_at (leaf, INDEX_FILE) s) ++ added)%string /\
      (r = Ok tt -> exists line, entry_to_json e = Ok line /\ added = (line ++ newline_str)%string /\
        file_at (leaf, INDEX_FILE) s' = Some (default "" (file_at (leaf, INDEX_FILE) s) ++ added)%string)).
Proof.
  unfold append_entry. apply ensures_bind. unfold ensures at 1, io_lift. cbn [fst snd].
  destruct (entry_to_json e) as [line|err] eqn:Ej; simpl;
    [|split; [apply only_touches_refl|exists ""%string; by rewrite string_app_nil_r]].
  apply ensures_bind. eapply ensures_mono; [apply open_or_create_ensures|].
  intros s1 [u|err] (H1 & Hd & _);
    [|split; [done|exists ""%string; by rewrite string_app_nil_r]].
  apply ensures_bind. eapply ensures_mono; [apply append_bytes_ensures|].
  intros s2 [u'|err] [H2 Hr].
  - eapply ensures_mono; [by apply sys_read_ensures|]. intros s3 r ->.
    split; [by eapply only_touches_trans|]. exists (line ++ newline_str)%string.
    change (file_at (leaf, INDEX_FILE) (next_call s2)) with (file_at (leaf, INDEX_FILE) s2).
    rewrite Hr, Hd. split; [done|]. intros _. by exists line.
  - split; [by eapply only_touches_trans|]. destruct Hr as [n Hr]. rewrite Hr, Hd. by eexists.
Qed.

(** Every file outside the staging directory, the lock and the index keeps its content, save
    those of [except]. *)
Definition files_kept (leaf : string) (except : Path -> Prop) (s s' : Fs) : Prop :=
  forall p, ~ scratch leaf p -> p <> (leaf, INDEX_FILE) -> ~ except p -> file_at p s' = file_at p s.

(** What one flush of a datatype may do to the disk: nothing, or one new file. *)
Definition leaf_step (leaf content : string) (s s' : Fs) : Prop :=
  (files_kept leaf (fun _ => False) s s' \/
   exists n, file_at (leaf, n) s = None /\ ends_with ".parquet" n = true /\
     file_at (leaf, n) s' = Some content /\ files_kept leaf (eq (leaf, n)) s s') /\
  exists added, default "" (file_at (leaf, INDEX_FILE) s') =
                (default "" (file_at (leaf, INDEX_FILE) s) ++ added)%string.

Lemma leaf_step_path leaf content s s' p :
  leaf_step leaf content s s' -> ~ scratch leaf p -> p <> (leaf, INDEX_FILE) ->
  file_at p s' = file_at p s \/
  file_at p s = None /\ p.1 = leaf /\ ends_with ".parquet" p.2 = true /\ file_at p s' = Some content.
Proof.
  intros [[H|(n & H1 & H2 & H3 & H)] _] Hs Hi; [left; apply H; auto|].
  destruct (decide ((leaf, n) = p)) as [<-|Hne]; [by right|left; by apply H].
Qed.

(** The file of a successful step, with its line in the index. *)
Definition leaf_done (leaf content : string) (entry : string -> IndexEntry) (s s' : Fs) : Prop :=
  exists n line, file_at (leaf, n) s = None /\ ends_with ".parquet" n = true /\
    file_at (leaf, n) s' = Some content /\ entry_to_json (entry n) = Ok line /\
    file_at (leaf, INDEX_FILE) s' =
      Some (default "" (file_at (leaf, INDEX_FILE) s) ++ line ++ newline_str)%string.

Lemma scratch_not_index leaf : staging_of leaf <> leaf -> ~ scratch leaf (leaf, INDEX_FILE).
Proof. intros H [E|E]; [by apply H|]. discriminate E. Qed.

Lemma only_touches_leaf_step leaf content s s' :
  staging_of leaf <> leaf -> only_touches (scratch leaf) s s' -> leaf_step leaf content s s'.
Proof.
  intros Hne (_ & _ & Hf). split; [left; intros p Hp _ _; by apply Hf|].
  exists ""%string. rewrite string_app_nil_r. f_equal. by apply Hf, scratch_not_index.
Qed.

Lemma prepare_leaf_ensures leaf s :
  ensures (prepare_leaf leaf) s (fun s' _ => only_touches (scratch leaf) s s').
Proof.
  unfold prepare_leaf.
  apply ensures_bind. eapply ensures_mono; [apply (create_dir_all_ensures (scratch leaf))|].
  intros s1 [?|e] H1; [|done].
  apply ensures_bind. eapply ensures_mono; [apply acquire_leaf_lock_ensures|].
  intros s2 r2 H2. assert (H12 : only_touches (scratch leaf) s s2).
  { eapply only_touches_trans; [exact H1|]. eapply only_touches_weaken; [|exact H2].
    intros p <-. by right. }
  destruct r2; [|done].
  apply ensures_bind. eapply ensures_mono; [apply sweep_staging_ensures|].
  intros s3 r3 H3. assert (H13 : only_touches (scratch leaf) s s3).
  { eapply only_touches_trans; [exact H12|]. eapply only_touches_weaken; [|exact H3].
    intros p Hp. by left. }
  destruct r3; [|done].
  eapply ensures_mono; [apply (create_dir_all_ensures (scratch leaf))|].
  intros s4 r4 H4. by eapply only_touches_trans.
Qed.

(** A staged file, before it is moved. *)
Lemma prepared_write_ensures leaf write content s :
  stages write content ->
  ensures (io_bind (prepare_leaf leaf) (fun _ => write (staging_of leaf))) s (fun s' r =>
    only_touches (scratch leaf) s s' /\
    forall f, r = Ok f -> ends_with ".parquet" f = true /\ file_at (staging_of leaf, f) s' = Some content).
Proof.
  intros Hw. apply ensures_bind. eapply ensures_mono; [apply prepare_leaf_ensures|].
  intros s1 [u|e] H1; [|done].
  eapply ensures_mono; [apply Hw|]. intros s2 r (file & H2 & Hp & Hf). split.
  - eapply only_touches_trans; [exact H1|]. eapply only_touches_weaken; [|exact H2].
    intros p <-. by left.
  - intros f Hr. by destruct (Hf f Hr) as [-> Hc].
Qed.

Lemma record_file_ensures leaf n dt rows t_min t_max content s :
  file_at (leaf, n) s = Some content ->
  ensures (record_file leaf n dt rows t_min t_max) s (fun s' r =>
    only_touches (eq (leaf, INDEX_FILE)) s s' /\
    exists added, default "" (file_at (leaf, INDEX_FILE) s') =
                  (default "" (file_at (leaf, INDEX_FILE) s) ++ added)%string /\
      forall bytes, r = Ok bytes -> bytes = N.of_nat (String.length content) /\
        exists line, entry_to_json {|
          ie_filename := n; ie_sha256 := sha256_hex content; ie_rows := rows; ie_t_min_us := t_min;
          ie_t_max_us := t_max; ie_schema_id := dt ++ ".v1" |} = Ok line /\
        file_at (leaf, INDEX_FILE) s' =
          Some (default "" (file_at (leaf, INDEX_FILE) s) ++ line ++ newline_str)%string).
Proof.
  intros Hc. unfold record_file, sha256_file, file_len, ensures, io_bind, read_file, sys, io_ret.
  destruct (disk_fault (fs_calls s)) as [[e k]|]; cbn [fst snd].
  { split; [apply only_touches_call|]. exists ""%string. by rewrite string_app_nil_r. }
  change (file_at (leaf, n) (next_call s)) with (file_at (leaf, n) s). rewrite Hc. cbn [fst snd].
  destruct (disk_fault (fs_calls (next_call s))) as [[e k]|]; cbn [fst snd].
  { split; [done|]. exists ""%string. by rewrite string_app_nil_r. }
  change (file_at (leaf, n) (next_call (next_call s))) with (file_at (leaf, n) s).
  rewrite Hc. cbn [fst snd].
  match goal with |- context [append_entry leaf ?e ?s2] =>
    pose proof (append_entry_ensures leaf e s2) as H end.
  unfold ensures in H. destruct (append_entry _ _ _) as [s' r]. cbn [fst snd] in H.
  destruct H as (Ht & added & Ha & Hok). change (default "" (file_at (leaf, INDEX_FILE) (next_call (next_call s))))
    with (default "" (file_at (leaf, INDEX_FILE) s)) in *.
  destruct r as [u|e]; cbn [fst snd]; (split; [exact Ht|]); exists added; (split; [exact Ha|]); [|done].
  intros bytes [= <-]. split; [done|]. destruct u, (Hok eq_refl) as (line & Hl & -> & Hf). eauto.
Qed.

(** A file moved into the leaf, and the index grown. *)
Lemma leaf_step_moved leaf content n added s s1 s2 s3 :
  staging_of leaf <> leaf -> only_touches (scratch leaf) s s1 ->
  file_at (leaf, n) s1 = None -> ends_with ".parquet" n = true ->
  file_at (leaf, n) s2 = Some content ->
  only_touches (fun p => scratch leaf p \/ p = (leaf, n)) s1 s2 ->
  only_touches (eq (leaf, INDEX_FILE)) s2 s3 ->
  default "" (file_at (leaf, INDEX_FILE) s3) =
    (default "" (file_at (leaf, INDEX_FILE) s2) ++ added)%string ->
  leaf_step leaf content s s3 /\ file_at (leaf, n) s = None /\
  file_at (leaf, n) s3 = Some content /\
  file_at (leaf, INDEX_FILE) s2 = file_at (leaf, INDEX_FILE) s.
Proof.
  intros Hne (_ & _ & H1) Hnone Hnp Hn (_ & _ & H2) (_ & _ & H3) Ha.
  destruct (ends_with_parquet_inv n Hnp) as [Hni Hnl].
  assert (Hns : ~ scratch leaf (leaf, n)).
  { intros [E|E]; [by apply Hne|]. injection E as ->. done. }
  assert (H12 : forall p, ~ scratch leaf p -> p <> (leaf, n) -> file_at p s2 = file_at p s).
  { intros p Hp Hpn. rewrite H2 by (intros [?|?]; auto). by apply H1. }
  assert (Hidx : file_at (leaf, INDEX_FILE) s2 = file_at (leaf, INDEX_FILE) s).
  { apply H12; [by apply scratch_not_index|congruence]. }
  assert (Hnone0 : file_at (leaf, n) s = None) by by rewrite <- H1.
  split_and!; [split|done| |done].
  - right. exists n. split_and!; [done|done|by rewrite H3 by congruence|].
    intros p Hp Hpi Hpn. rewrite (H3 p) by congruence. apply H12; congruence.
  - exists added. by rewrite Ha, Hidx.
  - by rewrite H3 by congruence.
Qed.

Lemma persist_leaf_ensures out dt rows t_min t_max write content s :
  let leaf := leaf_dir_for out dt t_min in
  stages write content -> staging_of leaf <> leaf ->
  ensures (persist_leaf out dt rows t_min t_max write) s (fun s' r =>
    leaf_step leaf content s s' /\
    forall bytes, r = Ok bytes ->
      bytes = N.of_nat (String.length content) /\
      leaf_done leaf content (fun n => {|
        ie_filename := n; ie_sha256 := sha256_hex content; ie_rows := rows; ie_t_min_us := t_min;
        ie_t_max_us := t_max; ie_schema_id := dt ++ ".v1" |}) s s').
Proof.
  intros leaf Hw Hne. unfold persist_leaf. fold leaf.
  apply ensures_assoc, ensures_bind.
  eapply ensures_mono; [by apply prepared_write_ensures|].
  intros s1 r1 [H1 Hf]. destruct r1 as [f|e]; [|split; [by apply only_touches_leaf_step|done]].
  destruct (Hf f eq_refl) as [Hp Hc].
  apply ensures_bind. eapply ensures_mono; [by apply (finalize_into_ensures leaf _ f content)|].
  intros s2 r2 [[H2 Hno]|(n & Hnone & Hnp & Hn & H2 & Hr2)].
  { destruct r2 as [m|e]; [by destruct (Hno m)|]. split; [|done].
    apply only_touches_leaf_step; [done|]. by eapply only_touches_trans. }
  destruct r2 as [m|e].
  - rewrite (Hr2 m eq_refl). eapply ensures_mono; [by apply record_file_ensures|].
    intros s3 r3 (H3 & added & Ha & Hok).
    destruct (leaf_step_moved leaf content n added s s1 s2 s3) as (Hst & Hn0 & Hn3 & Hi); try done.
    split; [done|]. intros bytes Hr. destruct (Hok bytes Hr) as (Hb & line & Hl & Hx).
    split; [done|]. exists n, line. rewrite Hi in Hx. by split_and!.
  - split; [|done].
    apply (leaf_step_moved leaf content n "" s s1 s2 s2); try done.
    by rewrite string_app_nil_r.
Qed.
End Persist.

(** ** The leaves of an archive *)

Fixpoint str_last (s : string) : option ascii :=
  match s with
  | "" => None
  | String c s' => match str_last s' with Some c' => Some c' | None => Some c end
  end%string.

Lemma str_last_app a b : b <> ""%string -> str_last (a ++ b) = str_last b.
Proof.
  intros Hb. induction a as [|c a IH]; [done|]. rewrite string_app_cons. simpl. rewrite IH.
  destruct b as [|c' b]; [done|]. simpl. by destruct (str_last b).
Qed.

Lemma str_last_join dir name : name <> ""%string -> str_last (path_join dir name) = str_last name.
Proof.
  intros Hn. unfold path_join. destruct (_ || _); [done|].
  destruct (ends_with "/" dir); [by apply str_last_app|].
  rewrite <- string_app_assoc. by apply str_last_app.
Qed.

(** A day is written with digits at its end. *)
Class CalendarLaws (CA : Calendar) : Prop := day_digits z d :
  day_of_micros z = Some d -> exists c, str_last d = Some c /\ in_range 48 57 c = true.

(** The directories of the six datatypes. *)
Definition datatype_dirs : list string :=
  ["orderbooks"; "trades"; "liquidations"; "funding_rates"; "open_interests"; "funding_settlements"]%string.

Section Archive.
Context {CA : Calendar} {CL : CalendarLaws CA}.

Lemma str_last_staging leaf : str_last (staging_of leaf) = Some "g"%char.
Proof. unfold staging_of. by rewrite str_last_join. Qed.

Lemma str_last_leaf out dt t : dt ∈ datatype_dirs -> str_last (leaf_dir_for out dt t) <> Some "g"%char.
Proof.
  intros Hdt. unfold leaf_dir_for. destruct (str_contains placeholder out).
  - destruct (day_of_micros (as_i64 t)) as [d|] eqn:E; simpl; [|by rewrite str_last_join].
    destruct (day_digits _ _ E) as (c & Hc & Hr). rewrite str_last_join by by intros ->.
    rewrite Hc. intros [= ->]. discriminate Hr.
  - unfold datatype_dirs in Hdt. rewrite str_last_join by (intros ->; set_solver).
    by repeat (apply elem_of_cons in Hdt as [->|Hdt]; [done|]); apply not_elem_of_nil in Hdt.
Qed.

Lemma leaf_not_staging out dt t leaf :
  dt ∈ datatype_dirs -> leaf_dir_for out dt t <> staging_of leaf.
Proof.
  intros Hdt E. apply (str_last_leaf out dt t Hdt). rewrite E. apply str_last_staging.
Qed.

(** A file of the archive below [out]. *)
Definition archived (out dt : string) (p : Path) : Prop :=
  dt ∈ datatype_dirs /\ (exists t, p.1 = leaf_dir_for out dt t) /\ ends_with ".parquet" p.2 = true.

Lemma archived_not_scratch out dt p leaf : archived out dt p -> ~ scratch leaf p /\ p <> (leaf, INDEX_FILE).
Proof.
  intros (Hdt & [t Ht] & Hp). destruct (ends_with_parquet_inv _ Hp) as [Hi Hl]. split.
  - intros [E|E]; [|by subst p]. rewrite Ht in E. by apply (leaf_not_staging out dt t leaf).
  - intros ->. done.
Qed.

(** A step of a flush: [ok] holds of what it writes into the leaf of a datatype. *)
Definition archive_step (out : string) (ok : string -> string -> Prop) (s s' : Fs) : Prop :=
  exists dt t content, dt ∈ datatype_dirs /\ ok dt content /\
    leaf_step (leaf_dir_for out dt t) content s s'.

Lemma archive_step_kept out ok s s' dt p c :
  archive_step out ok s s' -> archived out dt p -> file_at p s = Some c -> file_at p s' = Some c.
Proof.
  intros (dt' & t & content & Hdt & _ & Hl) Hp Hc.
  destruct (archived_not_scratch _ _ _ (leaf_dir_for out dt' t) Hp) as [Hs Hi].
  destruct (leaf_step_path _ _ _ _ p Hl Hs Hi) as [->|(Hn & _)]; congruence.
Qed.

Lemma archive_steps_kept out ok s s' dt p c :
  rtc (archive_step out ok) s s' -> archived out dt p -> file_at p s = Some c -> file_at p s' = Some c.
Proof. induction 1; eauto using archive_step_kept. Qed.

(** What is new in the archive was written whole. *)
Lemma archive_steps_new out ok s s' dt p c :
  rtc (archive_step out ok) s s' -> archived out dt p ->
  file_at p s' = Some c -> file_at p s = Some c \/ exists dt', ok dt' c.
Proof.
  intros H Hp. induction H as [s|s1 s2 s3 H12 H23 IH]; [auto|]. intros Hc.
  destruct (IH Hc) as [Hc2|?]; [|auto].
  destruct H12 as (dt' & t & content & Hdt & Hok & Hl).
  destruct (archived_not_scratch _ _ _ (leaf_dir_for out dt' t) Hp) as [Hs Hi].
  destruct (leaf_step_path _ _ _ _ p Hl Hs Hi) as [E|(_ & _ & _ & E)]; [left; congruence|].
  right. exists dt'. congruence.
Qed.
End Archive.

(** ** A flush *)

Section Flush.
Context {NU : Numeric} {PQ : Parquet} {PL : ParquetLaws PQ}.
Context {CA : Calendar} {CL : CalendarLaws CA} {DK : Disk} {IJ : IndexJson} {SH : Sha256}.

Definition table_bytes {A} {TB : Table A} (rows : list A) : string :=
  parquet_bytes (table_schema A) (table_columns rows).

(** The files of the archive: the bytes of a table of the datatype of their directory. *)
Inductive DatatypeFile : string -> string -> Prop :=
| BooksFile (os : list Orderbook) : DatatypeFile "orderbooks" (table_bytes (os ≫= book_rows))
| TradesFile (ts : list Trade) : DatatypeFile "trades" (table_bytes ts)
| LiquidationsFile (ls : list Liquidation) : DatatypeFile "liquidations" (table_bytes ls)
| FundingFile (fs : list FundingRate) : DatatypeFile "funding_rates" (table_bytes fs)
| InterestFile (os : list OpenInterest) : DatatypeFile "open_interests" (table_bytes os)
| SettlementsFile (fs : list FundingSettlement) : DatatypeFile "funding_settlements" (table_bytes fs).

Lemma stages_stamped {A} {TB : Table A} stamps exchange symbol datatype mode (rows : list A) :
  stages (write_stamped stamps (batch_name exchange symbol datatype mode) write_table rows)
    (table_bytes rows).
Proof.
  intros staging s. eapply ensures_mono; [apply write_stamped_ensures|].
  intros s' r (stamp & Ht & Hf). eexists. split_and!; [exact Ht| |exact Hf].
  apply unique_path_parquet. unfold batch_name. rewrite <- !string_app_assoc. apply ends_with_app.
Qed.

Lemma stages_books o rest mode :
  stages (fun staging => write_ob_parquet o rest staging mode) (table_bytes ((o :: rest) ≫= book_rows)).
Proof.
  intros staging s. eapply ensures_mono; [apply write_ob_parquet_ensures|].
  intros s' r (stamp & Ht & Hf). eexists. split_and!; [exact Ht| |exact Hf].
  apply unique_path_parquet. unfold batch_name. rewrite <- !string_app_assoc. apply ends_with_app.
Qed.

(** A file with these bytes is in a leaf of the datatype. *)
Definition stored_file (out dt content : string) (s : Fs) : Prop :=
  exists t n, ends_with ".parquet" n = true /\ file_at (leaf_dir_for out dt t, n) s = Some content.

Abbreviation steps out := (rtc (archive_step out DatatypeFile)).

Lemma stored_file_kept out dt content s s' :
  dt ∈ datatype_dirs -> steps out s s' -> stored_file out dt content s -> stored_file out dt content s'.
Proof.
  intros Hdt Hs (t & n & Hn & Hf). exists t, n. split; [done|].
  eapply (archive_steps_kept out _ s s' dt); [exact Hs| |exact Hf].
  split_and!; [done|by exists t|done].
Qed.

(** What a flush stored of a datatype. *)
Definition stored_rows {A} (out dt : string) (bytes : list A -> string) (rows : list A) (s : Fs) : Prop :=
  rows = [] \/ stored_file out dt (bytes rows) s.

Lemma stored_rows_kept {A} out dt (bytes : list A -> string) rows s s' :
  dt ∈ datatype_dirs -> steps out s s' -> stored_rows out dt bytes rows s -> stored_rows out dt bytes rows s'.
Proof. intros Hdt Hs [->|H]; [by left|right]. by eapply stored_file_kept. Qed.

Lemma persist_records_ensures {A} (rows : list A) out dt t_min t_max write total bytes s0 s :
  dt ∈ datatype_dirs -> DatatypeFile dt (bytes rows) ->
  (forall r rest, rows = r :: rest -> stages (write r rest) (bytes rows)) ->
  steps out s0 s ->
  ensures (persist_records rows out dt t_min t_max write total) s (fun s' r =>
    steps out s0 s' /\ steps out s s' /\ (forall x, r = Ok x -> stored_rows out dt bytes rows s')).
Proof.
  intros Hdt Hfile Hw Hs0. destruct rows as [|r rest]; cbn [persist_records].
  { apply ensures_ret. split_and!; [done|by apply rtc_refl|by left]. }
  set (rows := r :: rest) in *.
  apply ensures_bind. eapply ensures_mono.
  - apply (persist_leaf_ensures out dt _ t_min t_max _ (bytes rows)); [by apply Hw|].
    intros E. by apply (leaf_not_staging out dt t_min (leaf_dir_for out dt t_min)).
  - intros s' r' [Hstep Hdone].
    assert (Hone : steps out s s').
    { apply rtc_once. exists dt, t_min, (bytes rows). by split_and!. }
    assert (Hall : steps out s0 s') by by etrans.
    destruct r' as [b|e]; [|by split_and!]. apply ensures_ret. split_and!; [done|done|].
    intros x _. destruct (Hdone b eq_refl) as (_ & n & line & _ & Hn & Hf & _).
    right. by exists t_min, n.
Qed.

(** Everything a batch consists of is stored. *)
Definition stored_batch (out : string) (d : DecomposedSnapshots) (s : Fs) : Prop :=
  stored_rows out "orderbooks" (fun os => table_bytes (os ≫= book_rows)) (orderbooks d) s /\
  stored_rows out "trades" table_bytes (trades d) s /\
  stored_rows out "liquidations" table_bytes (liquidations d) s /\
  stored_rows out "funding_rates" table_bytes (funding_rates d) s /\
  stored_rows out "open_interests" table_bytes (open_interests d) s /\
  stored_rows out "funding_settlements" table_bytes (funding_settlements d) s.

(** The next datatype of the flush, what the earlier ones stored being kept. *)
Ltac next_datatype start bytes :=
  apply ensures_bind; eapply ensures_mono;
    [eapply (persist_records_ensures _ _ _ _ _ _ _ bytes start);
       [unfold datatype_dirs; set_solver|constructor| |eassumption];
       intros r0 rest ->; first [apply stages_books|apply stages_stamped]|];
  let s := fresh "s" in let Hall := fresh "Hall" in let Hone := fresh "Hone" in
  let Hst := fresh "Hst" in
  intros s [?|?] (Hall & Hone & Hst); [specialize (Hst _ eq_refl)|by split].

Ltac kept_along :=
  eapply stored_rows_kept; [unfold datatype_dirs; set_solver| |eassumption];
  repeat first [reflexivity|eassumption|etrans; [eassumption|]].

Lemma flush_ensures snaps out s :
  ensures (ParquetSnapshotFlusher snaps out) s (fun s' r =>
    steps out s s' /\ (forall rep, r = Ok rep -> stored_batch out (decompose_snapshots snaps) s')).
Proof.
  unfold ParquetSnapshotFlusher. destruct snaps as [|s0 snaps].
  { apply ensures_ret. split; [by apply rtc_refl|]. intros _ _. repeat split; by left. }
  destruct (batch_span _) as [t_min t_max].
  set (d := decompose_snapshots (s0 :: snaps)).
  assert (H0 : steps out s s) by apply rtc_refl.
  next_datatype s (fun os => table_bytes (os ≫= book_rows)).
  next_datatype s (table_bytes (A:=Trade)).
  next_datatype s (table_bytes (A:=Liquidation)).
  next_datatype s (table_bytes (A:=FundingRate)).
  next_datatype s (table_bytes (A:=OpenInterest)).
  next_datatype s (table_bytes (A:=FundingSettlement)).
  apply ensures_ret. split; [done|]. intros _ _. repeat split; kept_along.
Qed.

(** C12: Publishing a file into a leaf is all or nothing, whichever calls of the disk fail: of the files
    outside the staging directory, the lock and the index, either all keep what they hold, or one new
    Parquet file appears, with all the bytes of the table, and every other one keeps what it holds; the index
    only grows.  A call that returns [Ok] has put exactly that file there, returns its size, and its line
    (name, digest, rows, span, schema) ends the index. *)
Theorem leaf_publishes {A} {TB : Table A} stamps exchange symbol datatype mode (rows : list A)
    out dt n t_min t_max s :
  dt ∈ datatype_dirs ->
  let leaf := leaf_dir_for out dt t_min in
  let '(s', r) := persist_leaf out dt n t_min t_max
    (write_stamped stamps (batch_name exchange symbol datatype mode) write_table rows) s in
  leaf_step leaf (table_bytes rows) s s' /\
  forall bytes, r = Ok bytes ->
    bytes = N.of_nat (String.length (table_bytes rows)) /\
    leaf_done leaf (table_bytes rows) (fun file => {|
      ie_filename := file; ie_sha256 := sha256_hex (table_bytes rows); ie_rows := n;
      ie_t_min_us := t_min; ie_t_max_us := t_max; ie_schema_id := dt ++ ".v1" |}) s s'.
Proof.
  intros Hdt leaf.
  pose proof (persist_leaf_ensures out dt n t_min t_max _ _ s
    (stages_stamped stamps exchange symbol datatype mode rows)) as H.
  unfold ensures in H. destruct (persist_leaf _ _ _ _ _ _ _) as [s' r]. cbn [fst snd] in H.
  apply H. intros E. by apply (leaf_not_staging out dt t_min leaf).
Qed.

(** C23: A published file is listed: when the index ends in a whole line, a call that returns [Ok] leaves
    an index that reads as before with the new file's entry at its end, ends in a whole line again, and
    names a file that was not there and has the bytes whose digest and rows the entry states. *)
Theorem published_is_listed {JL : IndexJsonLaws IJ} {A} {TB : Table A} stamps exchange symbol datatype
    mode (rows : list A) out dt n t_min t_max s s' bytes :
  let leaf := leaf_dir_for out dt t_min in
  let index s := default "" (file_at (leaf, INDEX_FILE) s) in
  dt ∈ datatype_dirs -> closed (index s) ->
  persist_leaf out dt n t_min t_max
    (write_stamped stamps (batch_name exchange symbol datatype mode) write_table rows) s
    = (s', Ok bytes) ->
  exists file, file_at (leaf, file) s = None /\ file_at (leaf, file) s' = Some (table_bytes rows) /\
    closed (index s') /\
    parse_index (index s') =
      (((parse_index (index s)).1 ++ [{|
          ie_filename := file; ie_sha256 := sha256_hex (table_bytes rows); ie_rows := n;
          ie_t_min_us := t_min; ie_t_max_us := t_max; ie_schema_id := dt ++ ".v1" |}])%list,
       (parse_index (index s)).2).
Proof.
  intros leaf index Hdt Hc E.
  destruct (persist_leaf_ensures out dt n t_min t_max _ _ s
    (stages_stamped stamps exchange symbol datatype mode rows)) as [_ Hok].
  { intros E'. by apply (leaf_not_staging out dt t_min leaf). }
  rewrite E in Hok. destruct (Hok bytes eq_refl) as (_ & file & line & Hn & _ & Hf & Hj & Hi).
  exists file. split_and!; [exact Hn|exact Hf| |]; unfold index; cbn [fst snd] in Hi;
    fold leaf in Hi; rewrite Hi; cbn [default].
  - apply closed_line.
  - by apply parse_index_append.
Qed.

(** ** The archive as the store of the buffered sink *)

(** A file of the datatype holds the record. *)
Definition in_file {A} (out dt : string) (bytes : list A -> string) (x : A) (s : Fs) : Prop :=
  exists rows, x ∈ rows /\ stored_file out dt (bytes rows) s.

(** The record, or, of those with a provenance, another of its key. *)
Definition same_sample {A K} (free : A -> bool) (key : A -> K) (x y : A) : Prop :=
  y = x \/ free y = false /\ free x = false /\ key y = key x.

Definition sample_in_file {A K} (free : A -> bool) (key : A -> K) (out dt : string)
    (bytes : list A -> string) (x : A) (s : Fs) : Prop :=
  exists y, same_sample free key x y /\ in_file out dt bytes y s.

Definition books_bytes (os : list Orderbook) : string := table_bytes (os ≫= book_rows).

(** Every record of the snapshot is in a file of the archive. *)
Record StoredSnapshot (out : string) (m : MarketSnapshot) (s : Fs) : Prop := {
  sto_book o : ms_orderbook m = Some o -> in_file out "orderbooks" books_bytes o s;
  sto_trades t : t ∈ ms_trades m -> in_file out "trades" table_bytes t s;
  sto_liquidations l : l ∈ ms_liquidations m -> in_file out "liquidations" table_bytes l s;
  sto_funding f : f ∈ ms_funding_rate m ->
    sample_in_file funding_free funding_key out "funding_rates" table_bytes f s;
  sto_interest o : o ∈ ms_open_interest m ->
    sample_in_file oi_free oi_key out "open_interests" table_bytes o s;
  sto_settlements f : f ∈ ms_funding_settlements m ->
    sample_in_file (fun _ => false) settlement_key out "funding_settlements" table_bytes f s
}.

(** The files of the archive are still there. *)
Definition archive_kept (out : string) (s s' : Fs) : Prop :=
  forall dt p c, archived out dt p -> file_at p s = Some c -> file_at p s' = Some c.

Lemma in_file_kept {A} out dt (bytes : list A -> string) x s s' :
  dt ∈ datatype_dirs -> archive_kept out s s' -> in_file out dt bytes x s -> in_file out dt bytes x s'.
Proof.
  intros Hdt Hk (rows & Hx & t & n & Hn & Hf). exists rows. split; [done|]. exists t, n.
  split; [done|]. apply (Hk dt); [|done]. split_and!; [done|by exists t|done].
Qed.

Lemma stored_snapshot_kept out m s s' :
  archive_kept out s s' -> StoredSnapshot out m s -> StoredSnapshot out m s'.
Proof.
  intros Hk [Ho Ht Hl Hf Hi Hs]. unfold sample_in_file in *.
  assert (Hin : forall A dt (bytes : list A -> string) x, dt ∈ datatype_dirs ->
    in_file out dt bytes x s -> in_file out dt bytes x s') by by intros; eapply in_file_kept.
  unfold datatype_dirs in Hin.
  split; intros x Hx; [..|destruct (Hf x Hx) as (y & Hy & Hyf)|destruct (Hi x Hx) as (y & Hy & Hyf)
    |destruct (Hs x Hx) as (y & Hy & Hyf)]; try (exists y; split; [done|]);
    (apply Hin; [set_solver|eauto]).
Qed.

Lemma stored_rows_in {A} out dt (bytes : list A -> string) rows s x :
  stored_rows out dt bytes rows s -> x ∈ rows -> in_file out dt bytes x s.
Proof. intros [->|H] Hx; [by apply not_elem_of_nil in Hx|by exists rows]. Qed.

Lemma kept_sample_in {A K} `{Countable K} (free : A -> bool) (key : A -> K) all kept out dt bytes s x :
  (exists seen, KeptFirst free key all kept seen) -> stored_rows out dt bytes kept s -> x ∈ all ->
  sample_in_file free key out dt bytes x s.
Proof.
  intros [seen Hk] Hst Hx. destruct (kept_first_cover _ _ _ _ _ _ Hk Hx) as (y & Hy & Hxy).
  exists y. split; [exact Hxy|]. by eapply stored_rows_in.
Qed.

Lemma elem_of_bind_intro {A B} (f : A -> list B) l x y : x ∈ l -> y ∈ f x -> y ∈ l ≫= f.
Proof. intros Hx Hy. apply list_elem_of_bind. eauto. Qed.

Lemma stored_batch_snapshot out snaps m s :
  stored_batch out (decompose_snapshots snaps) s -> m ∈ snaps -> StoredSnapshot out m s.
Proof.
  intros (Bo & Bt & Bl & Bf & Bi & Bs) Hm.
  destruct (decompose_decomposed snaps) as (d & (Ho & Ht & Hl & Hf & Hi & Hs) & E).
  rewrite E in *. cbn in *. split; intros x Hx.
  - eapply stored_rows_in; [exact Bo|]. rewrite Ho. apply list_elem_of_omap. eauto.
  - eapply stored_rows_in; [exact Bt|]. rewrite Ht. by eapply elem_of_bind_intro.
  - eapply stored_rows_in; [exact Bl|]. rewrite Hl. by eapply elem_of_bind_intro.
  - eapply kept_sample_in; [by eexists|exact Bf|]. by eapply elem_of_bind_intro.
  - eapply kept_sample_in; [by eexists|exact Bi|]. by eapply elem_of_bind_intro.
  - eapply kept_sample_in; [by eexists|exact Bs|]. by eapply elem_of_bind_intro.
Qed.

Lemma steps_archive_kept out s s' : steps out s s' -> archive_kept out s s'.
Proof. intros H dt p c. by eapply archive_steps_kept. Qed.

(** The Parquet flusher is a storing flusher: the interface the buffered sink is proved against. *)
#[export] Instance parquet_stores out :
  StoringFlusher ParquetSnapshotFlusher out (StoredSnapshot out).
Proof.
  split.
  - intros batch s m Hm. destruct (flush_ensures batch out s) as [Hs _].
    eapply stored_snapshot_kept; [by apply steps_archive_kept|exact Hm].
  - intros batch s r Hr. destruct (flush_ensures batch out s) as [_ Hst].
    apply Forall_forall. intros m Hm. eapply stored_batch_snapshot; [|exact Hm]. by apply (Hst r).
Qed.

(** A flush never harms the archive, whichever calls of the disk fail: every file of a leaf is still
    there unchanged, and every new one is the whole table of a datatype. *)
Theorem flush_keeps_archive snaps out s dt p c :
  archived out dt p ->
  let s' := (ParquetSnapshotFlusher snaps out s).1 in
  (file_at p s = Some c -> file_at p s' = Some c) /\
  (file_at p s' = Some c -> file_at p s = Some c \/ exists dt', DatatypeFile dt' c).
Proof.
  intros Hp s'. destruct (flush_ensures snaps out s) as [Hs _]. fold s' in Hs. split; intros Hc.
  - by eapply archive_steps_kept.
  - by eapply archive_steps_new.
Qed.

Section Delivered.
Context {OW : Outside Fs} (d : DeclaredSet) (out : string)
  (cb : option (BufferedSinkFlushEvent -> Fs -> Fs)).

(** The clock and the listener of the flushes do not touch files. *)
Hypothesis clock_leaves_files : forall s p, file_at p (wall_clock_us s).1 = file_at p s.
Hypothesis listener_leaves_files :
  forall f e s p, cb = Some f -> file_at p (f e s) = file_at p s.

Lemma archive_undisturbed : undisturbed (StoredSnapshot out) cb.
Proof.
  intros m s Hm. split; [|destruct cb as [f|] eqn:Ecb; [intros e|done]];
    (eapply stored_snapshot_kept; [|exact Hm]); intros dt p c _ Hc.
  - by rewrite clock_leaves_files.
  - by rewrite (listener_leaves_files f e s p eq_refl).
Qed.

(** C7: The pipeline from the worker to the disk: a buffered sink with the Parquet flusher, given any run of
    snapshots and flushes on a disk any of whose calls may fail, accounts for the declared part of
    every snapshot (in the archive, in the buffer, or in a counted shed chunk), and when at most
    200000 snapshots came in, one flush that returns [Ok] leaves every book, trade and liquidation
    of every one of them, and of every funding, interest and settlement sample it or its first
    duplicate, in a complete Parquet file of its datatype. *)
Theorem archive_delivers ops s :
  let rows := stripped d <$> emitted_rows ops in
  let '(b, s1) := run_sink ops (fresh_sink d out ParquetSnapshotFlusher cb) s in
  (exists chunks, Accounted (StoredSnapshot out) rows chunks b s1) /\
  ((BufferedSink_flush b s1).2 = Ok tt -> (N.of_nat (length rows) <= MAX_BUFFERED_SNAPSHOTS)%N ->
   Forall (fun m => StoredSnapshot out m (BufferedSink_flush b s1).1.2) rows).
Proof. apply sink_delivers; [apply _|apply archive_undisturbed]. Qed.
End Delivered.
End Flush.

(** ** An archive on a disk that fails *)

(** An index line is the code of its entry. *)
Definition entry_tuple (e : IndexEntry) :=
  (ie_filename e, ie_sha256 e, ie_rows e, ie_t_min_us e, ie_t_max_us e, ie_schema_id e).

Definition tuple_entry (t : string * string * N * N * N * string) : IndexEntry :=
  let '(f, h, n, t0, t1, i) := t in
  {| ie_filename := f; ie_sha256 := h; ie_rows := n; ie_t_min_us := t0; ie_t_max_us := t1;
     ie_schema_id := i |}.

#[export] Instance ex_index_json : IndexJson := {
  entry_to_json e := Ok (String "e" (pos_bits (countable.encode (entry_tuple e))));
  entry_of_json line :=
    match line with
    | String "e" bits => tuple_entry <$> countable.decode (bits_pos bits)
    | _ => None
    end
}.

Definition bit (c : ascii) : bool := Ascii.eqb c "0" || Ascii.eqb c "1" || Ascii.eqb c "e".

Lemma pos_bits_bits p : str_all bit (pos_bits p) = true.
Proof. induction p; simpl; [done..|done]. Qed.

#[export] Instance ex_index_laws : IndexJsonLaws ex_index_json.
Proof.
  intros e line [= <-]. set (bits := pos_bits _).
  assert (Hb : str_all bit (String "e" bits) = true) by apply pos_bits_bits.
  split_and!.
  - eapply str_all_impl; [|exact Hb]. intros c. unfold bit.
    repeat (rewrite orb_true_iff); rewrite !Ascii.eqb_eq. by intros [[->| ->]| ->].
  - unfold strip_cr. destruct (strip_suffix _ _) as [t|] eqn:E; [|done].
    apply strip_suffix_Some in E. rewrite E, str_all_app in Hb. by destruct (str_all bit t).
  - unfold trim. simpl. by destruct (trim_end bits).
  - simpl. unfold bits. rewrite bits_pos_bits, decode_encode. simpl. by destruct e.
Qed.

#[export] Instance ex_sha : Sha256 := fun s => pretty (String.length s).

#[export] Instance ex_calendar_laws : CalendarLaws ex_calendar.
Proof. intros z d [= <-]. by exists "1"%char. Qed.

#[local] Existing Instance decimal_numeric.

Definition ex_trades_name : string := "binance_BTC-USDT_trades_sync_1700000000000000.parquet".

Definition ex_publish (DK : Disk) : Fs -> Fs * Result N PersistError :=
  persist_leaf (CA:=ex_calendar) (DK:=DK) "out" "trades" 2 10 20
    (write_stamped (CA:=ex_calendar) [1700000000000000%N]
       (batch_name "binance" "BTC-USDT" "trades" "sync") (write_table (DK:=DK)) ex_prints).

Lemma trades_dir : "trades"%string ∈ datatype_dirs.
Proof. apply (bool_decide_unpack _). vm_compute. exact I. Defined.

(** On a failing disk nothing appears. *)
Lemma leaf_publishes_witness :
  "trades"%string ∈ datatype_dirs /\ (exists e, (ex_publish flaky_disk empty_fs).2 = Err e) /\
  leaf_step "out/trades" (table_bytes ex_prints) empty_fs (ex_publish flaky_disk empty_fs).1.
Proof.
  pose proof (leaf_publishes (PQ:=ex_parquet) (CA:=ex_calendar) (DK:=flaky_disk) [1700000000000000%N]
    "binance" "BTC-USDT" "trades" "sync" ex_prints "out" "trades" 2 10 20 empty_fs trades_dir) as H.
  cbv zeta in H. fold (ex_publish flaky_disk empty_fs) in H.
  split; [exact trades_dir|]. split; [eexists; vm_compute; reflexivity|].
  destruct (ex_publish flaky_disk empty_fs) as [s' r]. exact (proj1 H).
Defined.

Lemma published_is_listed_witness :
  exists s' bytes, ex_publish quiet_disk empty_fs = (s', Ok bytes) /\
  exists file, file_at ("out/trades"%string, file) s' = Some (table_bytes ex_prints) /\
    (ie_filename <$> (parse_index (default ""%string (file_at ("out/trades"%string, INDEX_FILE) s'))).1)
    = [file].
Proof.
  destruct (ex_publish quiet_disk empty_fs) as [s' [bytes|e]] eqn:E;
    [|apply (f_equal snd) in E; vm_compute in E; discriminate E].
  exists s', bytes. split; [reflexivity|]. unfold ex_publish in E.
  destruct (published_is_listed (PQ:=ex_parquet) (CA:=ex_calendar) (DK:=quiet_disk) [1700000000000000%N]
    "binance" "BTC-USDT" "trades" "sync" ex_prints "out" "trades" 2 10 20 empty_fs s' bytes trades_dir
    (or_introl (eq_refl : default "" (file_at (_, INDEX_FILE) empty_fs) = ""))%string E) as (file & _ & Hf & _ & Hi).
  exists file. split; [exact Hf|].
  change (leaf_dir_for "out" "trades" 10) with "out/trades"%string in Hi. rewrite Hi. reflexivity.
Defined.

Definition ex_snapshot : MarketSnapshot := {|
  ms_ts_us := 10; ms_orderbook := None; ms_trades := ex_prints; ms_liquidations := [];
  ms_funding_rate := []; ms_open_interest := []; ms_funding_settlements := [] |}.

Definition ex_flush (s : Fs) : Fs :=
  (ParquetSnapshotFlusher (PQ:=ex_parquet) (CA:=ex_calendar) (DK:=quiet_disk) [ex_snapshot] "out" s).1.

(** A second flush leaves the file of the first. *)
Lemma flush_keeps_archive_witness :
  exists c, file_at ("out/trades"%string, ex_trades_name) (ex_flush empty_fs) = Some c /\
    file_at ("out/trades"%string, ex_trades_name) (ex_flush (ex_flush empty_fs)) = Some c.
Proof.
  destruct (file_at ("out/trades"%string, ex_trades_name) (ex_flush empty_fs)) as [c|] eqn:E;
    [|vm_compute in E; discriminate E].
  exists c. split; [reflexivity|].
  apply (flush_keeps_archive (PQ:=ex_parquet) (CA:=ex_calendar) (DK:=quiet_disk) [ex_snapshot] "out"
    (ex_flush empty_fs) "trades"); [|exact E].
  split_and!; [exact trades_dir|by exists 0%N|reflexivity].
Defined.

#[export] Instance fs_outside : Outside Fs := {
  RawPayload := unit; Sender := unit;
  broadcast_channel _ s := (s, tt);
  broadcast_send _ _ s := (s, None);
  broadcast_len _ _ := 0%N;
  receiver_count _ _ := 0%N;
  wall_clock_us s := (s, 0%N)
}.

(** The first flush fails, the second one writes both snapshots. *)
Definition ex_run : BufferedSink (W:=Fs) * Fs :=
  run_sink [SinkEmit ex_snapshot; SinkFlush; SinkEmit ex_snapshot]
    (fresh_sink declared_all "out"
       (ParquetSnapshotFlusher (PQ:=ex_parquet) (CA:=ex_calendar) (DK:=flaky_disk)) None) empty_fs.

Lemma archive_delivers_witness :
  flush_failures ex_run.1 = 1%N /\ (BufferedSink_flush ex_run.1 ex_run.2).2 = Ok tt /\
  Forall (fun m => StoredSnapshot (PQ:=ex_parquet) (CA:=ex_calendar) "out" m
                     (BufferedSink_flush ex_run.1 ex_run.2).1.2) [ex_snapshot; ex_snapshot].
Proof.
  pose proof (archive_delivers (PQ:=ex_parquet) (CA:=ex_calendar) (DK:=flaky_disk) (OW:=fs_outside)
    declared_all "out" None (fun _ _ => eq_refl) ltac:(discriminate)
    [SinkEmit ex_snapshot; SinkFlush; SinkEmit ex_snapshot] empty_fs) as H.
  assert (E : (BufferedSink_flush ex_run.1 ex_run.2).2 = Ok tt) by (vm_compute; reflexivity).
  split; [vm_compute; reflexivity|]. split; [exact E|].
  cbv zeta in H. fold ex_run in H. destruct ex_run as [b s1]. destruct H as [_ H].
  apply H; [exact E|]. apply (bool_decide_unpack _). vm_compute. exact I.
Defined.
