(* ===== verification/Json.v ===== *)
(** * JSON values

    What the decoders and the adapters of [src/aetelier-connect/src/] use of [serde_json]: its
    value type with the accessors, and the two directions between values and text.  Reading
    a text, printing a value and reading a wire record from either are parameters:
    the record types derive their readers. *)
From Stdlib Require Import Ascii String.
From S2P Require Import Prelude Strings Numeric Runtime.
Local Open Scope N_scope.

Section Json.
Context {NU : Numeric}.

(** [serde_json::Number] distinguishes the integers of a [u64], the negative ones of an
    [i64], and floats. *)
Inductive Number :=
| PosInt (n : N)
| NegInt (z : Z)
| Float (f : F64).

Inductive Value :=
| JNull
| JBool (b : bool)
| JNumber (n : Number)
| JString (s : string)
| JArray (l : list Value)
| JObject (fields : list (string * Value)).

(** The last entry of a key counts. *)
Definition field (key : string) (fields : list (string * Value)) : option Value :=
  fold_left (fun acc kv => if String.eqb (fst kv) key then Some (snd kv) else acc) fields None.

Definition as_object (v : Value) : option (list (string * Value)) :=
  match v with JObject fields => Some fields | _ => None end.
Definition get (key : string) (v : Value) : option Value :=
  match v with JObject fields => field key fields | _ => None end.
Definition as_str (v : Value) : option string :=
  match v with JString s => Some s | _ => None end.
Definition as_bool (v : Value) : option bool :=
  match v with JBool b => Some b | _ => None end.
Definition as_number_u64 (v : Value) : option N :=
  match v with JNumber (PosInt n) => Some n | _ => None end.
Definition as_number_i64 (v : Value) : option Z :=
  match v with
  | JNumber (PosInt n) => if n <? 2 ^ 63 then Some (Z.of_N n) else None
  | JNumber (NegInt z) => Some z
  | _ => None
  end.
Definition as_array (v : Value) : option (list Value) :=
  match v with JArray l => Some l | _ => None end.
Definition is_array (v : Value) : bool := match v with JArray _ => true | _ => false end.

(** [v.get(key).and_then(|x| x.as_str())] *)
Definition get_str (key : string) (v : Value) : option string := x ← get key v; as_str x.

(** ** Text *)

(** [serde_json::from_str::<Value>] with the text of its error, and [Value::to_string]. *)
Class SerdeJson := {
  from_str : string -> Result Value string;
  to_text : Value -> string
}.

(** The reader of a wire record, from a text and from a value. *)
Class FromJson (A : Type) := {
  from_text : string -> Result A string;
  from_value : Value -> Result A string
}.

(** [.map_err(ExchangeError::JsonError)] *)
Definition json_err {A} (r : Result A string) : Result A ExchangeError :=
  match r with Ok a => Ok a | Err e => Err (JsonError e) end.

(** A key with its quotes, as the substring guards look for it. *)
Definition quoted (key : string) : string :=
  String "034"%char (key ++ String "034"%char EmptyString)%string.
Definition mentions (key text : string) : bool := str_contains (quoted key) text.

(** ** Numbers in text *)

(** [s.parse::<i64>()] *)
Definition parse_i64 (s : string) : option Z :=
  let '(neg, digits) :=
    match s with
    | String c s' =>
      if (c =? "-")%char then (true, s') else if (c =? "+")%char then (false, s') else (false, s)
    | ""%string => (false, ""%string)
    end in
  if is_empty digits then None
  else
    n ← Strings.parse_digits 0 digits;
    if neg then if n <=? 2 ^ 63 then Some (- Z.of_N n)%Z else None
    else if n <? 2 ^ 63 then Some (Z.of_N n) else None.

(** [f64] to text and back: [f64::to_string], [s.parse::<f64>()], [f as u64]. *)
Class FloatText := {
  f64_to_string : F64 -> string;
  f64_parse : string -> option F64;
  f64_as_u64 : F64 -> N
}.

End Json.

(** ** Strings *)

(** [s.split(sep)] *)
Fixpoint str_split (sep : ascii) (s : string) : list string :=
  match s with
  | ""%string => [""%string]
  | String c s =>
    if Ascii.eqb c sep then ""%string :: str_split sep s
    else match str_split sep s with
         | part :: parts => String c part :: parts
         | [] => [String c ""]
         end
  end.

(** [s.ends_with(suffix)] *)
Definition str_ends_with (suffix s : string) : bool :=
  match strip_suffix suffix s with Some _ => true | None => false end.

(** [a.eq_ignore_ascii_case(b)] *)
Definition eq_ignore_ascii_case (a b : string) : bool :=
  String.eqb (to_lowercase a) (to_lowercase b).

(** ** Facts *)

Lemma str_split_nonempty sep s : str_split sep s <> [].
Proof. destruct s as [|c s]; simpl; [done|]. by destruct (Ascii.eqb c sep), (str_split sep s). Qed.
