(* ===== verification/Venue.v ===== *)
(** * The venue seam

    [src/aetelier-connect/src/framework/registry.rs] and the part of [framework/rest.rs] that is
    not HTTP: what an adapter is, which workers it admits, and what its normalizer promises to
    the drive loop.  The adapters themselves are in a file per venue; [Registry] collects
    them.

    A normalizer shares the counters of its source.  Its state here has the part it adds to
    them. *)
From Stdlib Require Import Ascii String.
From S2P Require Import Prelude Budget Strings Numeric Pairs Types Delta Model Feed Runtime Disconnect Reconnect Transport Drive Json.
Local Open Scope N_scope.

Record ExchangeProfile := {
  profile_id : string;
  symbol_codec : SymbolCodec;
  profile_budget : ConnectionBudget;
  schema_version : N;
  protocol_revision : string
}.

Definition open_budget : ConnectionBudget := {|
  max_connections := None; max_streams_per_socket := None; subscribe_rate := [];
  connect_attempt_rate := None; Budget.connection_lifetime := None
|}.

Definition total (l : list N) : N := foldr N.add 0 l.

Lemma total_app l l' : total (l ++ l') = total l + total l'.
Proof. induction l as [|n l IH]; simpl; [done|]. rewrite IH. lia. Qed.

(** Ids that rise from one to the next. *)
Fixpoint rising (prev : N) (l : list N) : Prop :=
  match l with [] => True | n :: l => prev < n /\ rising n l end.

Section Venue.
Context {NU : Numeric}.

(** ** Prints, dropped and counted *)

(** A step of a normalizer that may drop what it works on; each drop is counted once. *)
Definition Counted (A : Type) : Type := SourceMetrics -> SourceMetrics * option A.

Definition keep {A} (a : A) : Counted A := fun m => (m, Some a).
Definition drop_counted {A} : Counted A := fun m => (add_dropped_frames 1 m, None).

(** [let Some(x) = o else { metrics.add_dropped_frames(1); return None }] *)
Definition or_drop {A B} (o : option A) (k : A -> Counted B) : Counted B :=
  match o with Some a => k a | None => drop_counted end.

(** [prints.into_iter().filter_map(f).collect()] *)
Fixpoint filter_map {A B} (f : A -> Counted B) (l : list A) (m : SourceMetrics)
    : SourceMetrics * list B :=
  match l with
  | [] => (m, [])
  | a :: l =>
    let '(m, o) := f a m in
    let '(m, bs) := filter_map f l m in
    (m, option_list o ++ bs)
  end.

(** The events of one print. *)
Definition one_print {B} (r : Counted B) (m : SourceMetrics) : SourceMetrics * list B :=
  let '(m, o) := r m in (m, option_list o).

(** [s.parse::<Decimal>().ok()] *)
Definition parse_dec (s : string) : option Dec := result_ok (dparse s).

(** A trade as the socket delivers it, before the drive loop stamps it. *)
Definition ws_trade (venue : string) (ts_us : N) (p : TradingPair) (side : TradeSide)
    (amount price : Dec) (id : string) : Trade := {|
  source_trade_ts_us := ts_us; local_trade_ts_us := 0; source_trade_rtt_us := 0;
  trade_pair := p; trade_side := side; trade_amount := amount; trade_price := price;
  trade_exchange := venue; trade_id := id; trade_origin := Ws
|}.

(** A book frame, before the drive loop stamps it. *)
Definition ws_delta (sym : string) (bids asks : list (string * string)) (id seq ts_us : N)
    (crc : option Z) (os : list L3Order) (snapshot : bool) : NormalizedDelta := {|
  symbol := sym; nd_bids := bids; nd_asks := asks; update_id := id; nd_sequence := seq;
  source_orderbook_ts_us := ts_us; local_orderbook_ts_us := 0; source_orderbook_rtt_us := 0;
  checksum := crc; orders := os; is_snapshot := snapshot
|}.

(** ** Adapters *)

(** What a connection of a venue runs with: the arguments of [drive]. *)
Record Socket := {
  sk_hooks : ProtocolHooks;
  sk_decoder : WssDecoder;
  sk_normalizer : Normalizer (WD := sk_decoder);
  sk_start : nz_state (Normalizer := sk_normalizer);
  (** what the normalizer has added to the counters *)
  sk_metrics : nz_state (Normalizer := sk_normalizer) -> SourceMetrics;
  (** for the specification: the symbols of the trade prints a frame carries, in the order
      their trades are due *)
  sk_prints : wss_event (WssDecoder := sk_decoder) -> list string
}.

(** A socket whose normalizer is a function on a state of its own. *)
Definition socket (PH : ProtocolHooks) (WD : WssDecoder) (S : Type) (start : S)
    (f : wss_event (WssDecoder := WD) -> S -> S * list DomainEvent) (metrics : S -> SourceMetrics)
    (prints : wss_event (WssDecoder := WD) -> list string) : Socket :=
  let NZ : Normalizer (WD := WD) := {| nz_state := S; normalize := f |} in
  {| sk_hooks := PH; sk_decoder := WD; sk_normalizer := NZ; sk_start := start;
     sk_metrics := metrics; sk_prints := prints |}.

(** The usual one keeps no tracker: its state is the counters. *)
Definition counting_socket (PH : ProtocolHooks) (WD : WssDecoder)
    (f : wss_event (WssDecoder := WD) -> SourceMetrics -> SourceMetrics * list DomainEvent)
    (prints : wss_event (WssDecoder := WD) -> list string) : Socket :=
  socket PH WD SourceMetrics SourceMetrics_default f (fun m => m) prints.

(** One frame after the other through the normalizer of a socket. *)
Fixpoint normalize_all (sk : Socket) (evs : list (wss_event (WssDecoder := sk_decoder sk)))
    (s : nz_state (Normalizer := sk_normalizer sk))
    : nz_state (Normalizer := sk_normalizer sk) * list DomainEvent :=
  match evs with
  | [] => (s, [])
  | ev :: evs =>
    let '(s, des) := normalize (Normalizer := sk_normalizer sk) ev s in
    let '(s, des') := normalize_all sk evs s in
    (s, des ++ des')
  end.

(** [RestSnapshot]: the request of a seed and the reading of its answer, which is the body or
    the error of the HTTP client. *)
Record RestSeeder := {
  seed_url : string -> string;
  seed_read : string -> Result string string -> Result NormalizedDelta ExchangeError
}.

Record ExchangeAdapter := {
  venue_id : string;
  profile : ExchangeProfile;
  rest_seeder : option RestSeeder;
  book_model : string -> ReconstructionModel;
  supported_datatypes : list DeclaredDatatype;
  resubscribe_replays_trades : bool;
  max_declared_depth : option N;
  supports_environment : VenueEnvironment -> bool;
  datatype_cadence : FeedDatatype -> option Duration;
  (** the sockets that [spawn_env] opens *)
  sockets : VenueEnvironment -> list string -> DeclaredSet -> list Socket;
  subscribe_frames_preview : list string -> DeclaredSet -> list string;
  replay_frame : string -> Result (list DomainEvent) ExchangeError;
  replay_seed : string -> string -> Result (option NormalizedDelta) ExchangeError
}.

(** The defaults of the trait. *)
Definition default_datatypes : list DeclaredDatatype := [DeclOrderbook; DeclTrades].
Definition production_only (e : VenueEnvironment) : bool :=
  match e with Production => true | Testnet => false end.
Definition no_cadence (_ : FeedDatatype) : option Duration := None.
Definition no_replay_seed (id raw wire_symbol : string) : Result (option NormalizedDelta) ExchangeError :=
  Err (Unsupported ("offline seed replay not implemented for venue '" ++ id ++ "'")%string).

(** [if declared.contains(dt) { out.push(x) }] *)
Definition if_declared {A} (d : DeclaredSet) (dt : DeclaredDatatype) (x : A) : list A :=
  if declared_contains dt d then [x] else [].

Definition message_text (m : Message) : option string :=
  match m with MsgText t => Some t | _ => None end.

(** [subscribe_frames_preview] of an adapter that previews its hooks. *)
Definition preview (PH : ProtocolHooks) (symbols : list string) (d : DeclaredSet) : list string :=
  omap message_text (subscribe_frames symbols d).

(** [replay_frame]: decode and normalize with a normalizer of its own. *)
Definition replay_socket (sk : Socket) (raw : string) : Result (list DomainEvent) ExchangeError :=
  match wss_decode (WssDecoder := sk_decoder sk) raw with
  | Ok (Some ev) => Ok (snd (normalize (Normalizer := sk_normalizer sk) ev (sk_start sk)))
  | Ok None => Ok []
  | Err e => Err e
  end.

(** ** Admission *)

Definition resolve (reg : gmap string ExchangeAdapter) (ids : list string) : Result unit (list string) :=
  match filter (fun id => reg !! id = None) ids with
  | [] => Ok tt
  | missing => Err missing
  end.

Definition admit_declared_depth (venue : string) (cap : option N) (orderbook_enabled : bool)
    (declared : N) : Result unit string :=
  if negb orderbook_enabled then Ok tt
  else match cap with
  | Some cap =>
    if cap <? declared then
      Err ("venue '" ++ venue ++ "' delivers at most " ++ pretty cap ++
           " book levels but this worker asks for depth " ++ pretty declared ++
           " — set `[collect.datatypes.orderbook] depth` to " ++ pretty cap ++
           " or less (an omitted depth defaults to 50)")%string
    else Ok tt
  | None => Ok tt
  end.

Definition admit_environment (venue : string) (supported : bool) (e : VenueEnvironment)
    : Result unit string :=
  if supported then Ok tt
  else Err ("venue '" ++ venue ++ "' has no " ++ VenueEnvironment_fmt e ++
            " endpoint — remove `environment = " ++ quoted (VenueEnvironment_fmt e) ++
            "` rather than collecting production data under a " ++ VenueEnvironment_fmt e ++
            " label")%string.

(** ** What a normalizer promises

    The interface between the adapters and the drive loop: every venue's file proves
    [socket_sound] of its sockets, and what is said of runs below follows from it alone. *)

Definition trade_of (de : DomainEvent) : option Trade :=
  match de with TradeEvent t _ => Some t | _ => None end.
Definition trades_of (des : list DomainEvent) : list Trade := omap trade_of des.

(** [k] prints dropped and counted. *)
Definition dropped_by (k : nat) (m : SourceMetrics) : SourceMetrics :=
  Nat.iter k (add_dropped_frames 1) m.

(** A book frame is of the kind that the model of its venue applies. *)
Definition book_fits (model : ReconstructionModel) (d : NormalizedDelta) : Prop :=
  local_orderbook_ts_us d = 0 /\ source_orderbook_rtt_us d = 0 /\
  match model with
  | FullRefresh => is_snapshot d = true /\ orders d = []
  | SeqDelta _ _ => orders d = []
  | ChecksumDelta _ => is_Some (checksum d) /\ orders d = []
  | L3 _ => nd_bids d = [] /\ nd_asks d = []
  end.

(** The sequence of a trade is its identifier. *)
Definition seq_fits (t : Trade) (seq : option N) : Prop :=
  match seq with
  | None => True
  | Some n => parse_u64 (trade_id t) = Some n \/ trade_id t = pretty n
  end.

Definition sound_event (a : ExchangeAdapter) (de : DomainEvent) : Prop :=
  match de with
  | Book d => DeclOrderbook ∈ supported_datatypes a /\ forall channel, book_fits (book_model a channel) d
  | TradeEvent t seq =>
    DeclTrades ∈ supported_datatypes a /\ trade_exchange t = venue_id a /\ trade_origin t = Ws /\
    local_trade_ts_us t = 0 /\ source_trade_rtt_us t = 0 /\ seq_fits t seq
  | FundingRateEvent fr =>
    DeclFundingRates ∈ supported_datatypes a /\ funding_exchange fr = venue_id a /\
    local_funding_ts_us fr = 0
  | OpenInterestEvent oi =>
    DeclOpenInterest ∈ supported_datatypes a /\ oi_exchange oi = venue_id a /\ local_oi_ts_us oi = 0
  | FundingSettlementEvent _ => False
  | ConnectionGap n => 0 < n
  end.

(** The prints of a frame against what is made of them: each becomes a trade or is counted,
    unless the frame is dropped as a whole and counted once; the trades keep the order and
    the pairs of the prints. *)
Record sound_step (a : ExchangeAdapter) (prints : list string) (m m' : SourceMetrics)
    (des : list DomainEvent) (k : nat) : Prop := {
  ss_metrics : m' = dropped_by k m;
  ss_prints : prints = [] \/ (length (trades_of des) + k = length prints)%nat \/
              (trades_of des = [] /\ k = 1%nat);
  ss_pairs : trade_pair <$> trades_of des `sublist_of` omap (decode (symbol_codec (profile a))) prints;
  ss_events : Forall (sound_event a) des
}.

Definition socket_sound (a : ExchangeAdapter) (sk : Socket) : Prop :=
  forall ev s s' des, normalize (Normalizer := sk_normalizer sk) ev s = (s', des) ->
    exists k, sound_step a (sk_prints sk ev) (sk_metrics sk s) (sk_metrics sk s') des k.

Definition adapter_sound (a : ExchangeAdapter) : Prop :=
  profile_id (profile a) = venue_id a /\
  supports_environment a Production = true /\
  forall e symbols d, Forall (socket_sound a) (sockets a e symbols d).

(** One print: its trade, or a drop that is counted. *)
Definition print_sound (a : ExchangeAdapter) (sym : string) (r : Counted DomainEvent) : Prop :=
  forall m,
    (exists t seq, r m = (m, Some (TradeEvent t seq)) /\
       decode (symbol_codec (profile a)) sym = Some (trade_pair t) /\
       sound_event a (TradeEvent t seq)) \/
    r m = (add_dropped_frames 1 m, None).

(** ** Lemmas *)

Lemma dropped_by_S k m : dropped_by k (add_dropped_frames 1 m) = dropped_by (S k) m.
Proof. unfold dropped_by. by rewrite Nat.iter_succ_r. Qed.

Lemma dropped_by_add k k' m : dropped_by k (dropped_by k' m) = dropped_by (k + k') m.
Proof. unfold dropped_by. by rewrite Nat.iter_add. Qed.

(** The counter after [k] drops; the other counters stay. *)
Lemma dropped_by_counter k m c :
  m C_dropped_frames < u64_modulus ->
  dropped_by k m c =
  if decide (c = C_dropped_frames) then (m c + N.of_nat k) mod u64_modulus else m c.
Proof.
  intros Hm. induction k as [|k IH].
  - simpl. case_decide as Hc; [|done]. subst c. rewrite N.add_0_r. by rewrite N.mod_small.
  - change (dropped_by (S k) m) with (add_dropped_frames 1 (dropped_by k m)).
    unfold add_dropped_frames, fetch_add. case_decide as Hc; [subst c|done].
    rewrite (u64_add_wrapped _ _ _ IH). f_equal. lia.
Qed.

Lemma print_sound_drop a sym : print_sound a sym drop_counted.
Proof. intros m. by right. Qed.

Lemma print_sound_or_drop {A} a sym (o : option A) (k : A -> Counted DomainEvent) :
  (forall x, o = Some x -> print_sound a sym (k x)) -> print_sound a sym (or_drop o k).
Proof. intros H. destruct o as [x|]; [by apply H|apply print_sound_drop]. Qed.

Lemma print_sound_keep a sym ts p side amount price id seq :
  decode (symbol_codec (profile a)) sym = Some p ->
  DeclTrades ∈ supported_datatypes a ->
  seq_fits (ws_trade (venue_id a) ts p side amount price id) seq ->
  print_sound a sym (keep (TradeEvent (ws_trade (venue_id a) ts p side amount price id) seq)).
Proof. intros Hp Ha Hs m. left. by eexists _, _. Qed.

Lemma seq_fits_parsed t : seq_fits t (parse_u64 (trade_id t)).
Proof. unfold seq_fits. destruct (parse_u64 (trade_id t)); [by left|done]. Qed.

Lemma sound_step_nil a m : sound_step a [] m m [] 0.
Proof. split; [done|by left|constructor|constructor]. Qed.

Lemma trades_of_app des des' : trades_of (des ++ des') = trades_of des ++ trades_of des'.
Proof. apply omap_app. Qed.

Lemma filter_map_exact {A} a (sym : A -> string) (f : A -> Counted DomainEvent) l m :
  (forall x, x ∈ l -> print_sound a (sym x) (f x)) ->
  exists k, (filter_map f l m).1 = dropped_by k m /\
    (length (trades_of (filter_map f l m).2) + k = length l)%nat /\
    trade_pair <$> trades_of (filter_map f l m).2 `sublist_of`
      omap (decode (symbol_codec (profile a))) (sym <$> l) /\
    Forall (sound_event a) (filter_map f l m).2.
Proof.
  revert m. induction l as [|x l IH]; intros m Hl; [by exists 0%nat|]. simpl.
  destruct (Hl x ltac:(left) m) as [(t & seq & Hfx & Hp & Ht)|Hfx]; rewrite Hfx.
  - destruct (IH m) as (k & Hm & Hk & Hs & HF); [intros y Hy; apply Hl; by right|].
    exists k. destruct (filter_map f l m) as [m' des]; simpl in *.
    rewrite Hp. split_and!; [done|lia| |by constructor]. simpl. by apply sublist_skip.
  - destruct (IH (add_dropped_frames 1 m)) as (k & Hm & Hk & Hs & HF);
      [intros y Hy; apply Hl; by right|].
    exists (S k). destruct (filter_map f l (add_dropped_frames 1 m)) as [m' des]; simpl in *.
    rewrite Hm, dropped_by_S. split_and!; [done|lia| |done].
    destruct (decode _ (sym x)); [by apply sublist_cons|done].
Qed.

Lemma filter_map_sound {A} a (sym : A -> string) (f : A -> Counted DomainEvent) l m m' des :
  (forall x, x ∈ l -> print_sound a (sym x) (f x)) ->
  filter_map f l m = (m', des) ->
  exists k, sound_step a (sym <$> l) m m' des k.
Proof.
  intros Hl E. destruct (filter_map_exact a sym f l m Hl) as (k & Hm & Hk & Hs & HF).
  rewrite E in *. simpl in *. exists k. split; try done. right. left. by rewrite length_fmap.
Qed.

Lemma one_print_sound a sym (r : Counted DomainEvent) m m' des :
  print_sound a sym r -> one_print r m = (m', des) -> exists k, sound_step a [sym] m m' des k.
Proof.
  intros Hr E. unfold one_print in E.
  destruct (Hr m) as [(t & seq & Hm & Hp & Ht)|Hm]; rewrite Hm in E; injection E as <- <-.
  - exists 0%nat. split; [done|by right; left| |by apply Forall_singleton]. simpl. by rewrite Hp.
  - exists 1%nat. split; [done|by right; right|apply sublist_nil_l|constructor].
Qed.

(** A frame that is dropped as a whole. *)
Lemma frame_dropped a prints m :
  sound_step a prints m (add_dropped_frames 1 m) [] 1.
Proof. split; [done|by right; right|apply sublist_nil_l|constructor]. Qed.

(** A frame of books. *)
Lemma books_sound a m ds :
  DeclOrderbook ∈ supported_datatypes a ->
  (forall d channel, d ∈ ds -> book_fits (book_model a channel) d) ->
  sound_step a [] m m (Book <$> ds) 0.
Proof.
  intros Ha Hd.
  assert (trades_of (Book <$> ds) = []) as Ht.
  { clear. induction ds as [|d ds IH]; [done|]. exact IH. }
  split; [done|by left|by rewrite Ht|]. apply Forall_fmap, Forall_forall. intros d Hin.
  split; [done|]. intros channel. by apply Hd.
Qed.

(** Books behind the gap the normalizer noticed. *)
Lemma gap_then_books_sound a m (gap : option N) ds :
  DeclOrderbook ∈ supported_datatypes a ->
  (forall n, gap = Some n -> 0 < n) ->
  (forall d channel, d ∈ ds -> book_fits (book_model a channel) d) ->
  sound_step a [] m m ((ConnectionGap <$> option_list gap) ++ (Book <$> ds)) 0.
Proof.
  intros Ha Hg Hd. destruct (books_sound a m ds Ha Hd) as [Hm Hp Hs He].
  destruct gap as [n|]; [|done]. split; [done|by left|done|].
  constructor; [by apply Hg|done].
Qed.

(** The frames of a run that gave fewer trades than they had prints. *)
Fixpoint short_frames (sk : Socket) (evs : list (wss_event (WssDecoder := sk_decoder sk)))
    (s : nz_state (Normalizer := sk_normalizer sk)) : nat :=
  match evs with
  | [] => 0
  | ev :: evs =>
    let '(s, des) := normalize (Normalizer := sk_normalizer sk) ev s in
    (if (length (trades_of des) <? length (sk_prints sk ev))%nat then 1 else 0) +
    short_frames sk evs s
  end%nat.

Definition all_prints (sk : Socket) (evs : list (wss_event (WssDecoder := sk_decoder sk))) : list string :=
  ev ← evs; sk_prints sk ev.

Lemma length_omap_le {A B} (f : A -> option B) l : (length (omap f l) <= length l)%nat.
Proof. induction l as [|x l IH]; csimpl; [done|]. destruct (f x); csimpl; lia. Qed.

Lemma sound_step_counts a prints m m' des k :
  sound_step a prints m m' des k ->
  ((if (length (trades_of des) <? length prints)%nat then 1 else 0) <= k)%nat /\
  (length (trades_of des) <= length prints)%nat.
Proof.
  intros [_ Hp Hs _].
  assert (length (trades_of des) <= length prints)%nat as Hle.
  { apply sublist_length in Hs. rewrite length_fmap in Hs. etransitivity; [exact Hs|].
    apply length_omap_le. }
  split; [|done]. case_match eqn:E; [|lia]. apply Nat.ltb_lt in E.
  destruct Hp as [->|[Hk|[Hn Hk]]]; simpl in *; lia.
Qed.

(** A run of a sound socket: the counter has every frame that lost a print, and
    a run that counts nothing turns every print into a trade. *)
Lemma socket_run_sound a sk evs s s' des :
  socket_sound a sk -> normalize_all sk evs s = (s', des) ->
  exists k, sk_metrics sk s' = dropped_by k (sk_metrics sk s) /\
    (short_frames sk evs s <= k)%nat /\
    (length (trades_of des) <= length (all_prints sk evs))%nat /\
    (short_frames sk evs s = 0%nat -> length (trades_of des) = length (all_prints sk evs)) /\
    trade_pair <$> trades_of des `sublist_of`
      omap (decode (symbol_codec (profile a))) (all_prints sk evs) /\
    Forall (sound_event a) des.
Proof.
  intros Hsk. revert s s' des. induction evs as [|ev evs IH]; intros s s' des E; simpl in E.
  { injection E as <- <-. exists 0%nat. simpl. split_and!; [done|lia|lia|done|constructor|constructor]. }
  destruct (normalize ev s) as [s1 des1] eqn:E1.
  destruct (normalize_all sk evs s1) as [s2 des2] eqn:E2. injection E as <- <-.
  destruct (Hsk _ _ _ _ E1) as (k1 & H1). pose proof (sound_step_counts _ _ _ _ _ _ H1) as [Hc Hl].
  destruct H1 as [Hm1 _ Hp1 He1].
  destruct (IH _ _ _ E2) as (k2 & Hm2 & Hk2 & Hl2 & Hz & Hp2 & He2).
  exists (k2 + k1)%nat. simpl. rewrite E1, Hm2, Hm1, dropped_by_add, trades_of_app, fmap_app.
  unfold all_prints in *. simpl. rewrite !length_app, omap_app.
  split_and!; [done|lia|lia| |by apply sublist_app|by apply Forall_app].
  intros H0. rewrite Hz by lia. case_match eqn:Hlt; [lia|]. apply Nat.ltb_ge in Hlt. lia.
Qed.

(** ** Subscription frames *)

Definition all_text (ms : list Message) : Prop := Forall (fun m => is_Some (message_text m)) ms.

Lemma all_text_if_declared d dt t : all_text (if_declared d dt (MsgText t)).
Proof. unfold if_declared. case_match; [|constructor]. by apply Forall_singleton. Qed.

Lemma all_text_bind {A} (f : A -> list Message) l : (forall x, all_text (f x)) -> all_text (l ≫= f).
Proof. intros H. induction l as [|x l IH]; [constructor|]. csimpl. apply Forall_app. split; [apply H|done]. Qed.

(** What is previewed is what the sockets subscribe, in text. *)
Definition previews (a : ExchangeAdapter) : Prop :=
  forall e symbols d,
    subscribe_frames_preview a symbols d = (sk ← sockets a e symbols d; preview (sk_hooks sk) symbols d) /\
    Forall (fun sk => all_text (subscribe_frames (ProtocolHooks := sk_hooks sk) symbols d))
      (sockets a e symbols d).

Lemma single_previews a (sk : VenueEnvironment -> list string -> DeclaredSet -> Socket) :
  (forall e symbols d, sockets a e symbols d = [sk e symbols d]) ->
  (forall e symbols d, subscribe_frames_preview a symbols d = preview (sk_hooks (sk e symbols d)) symbols d) ->
  (forall e symbols d, all_text (subscribe_frames (ProtocolHooks := sk_hooks (sk e symbols d)) symbols d)) ->
  previews a.
Proof.
  intros Hs Hp Ht e symbols d. rewrite Hs, (Hp e). split; [by rewrite bind_singleton|].
  by apply Forall_singleton.
Qed.

(** ** Acknowledgements *)

(** A text taken for an acknowledgement is one the decoder makes nothing of. *)
Definition acks_clear (a : ExchangeAdapter) : Prop :=
  forall e symbols d sk text,
    sk ∈ sockets a e symbols d -> classify_ack (ProtocolHooks := sk_hooks sk) text <> NotAck ->
    wss_decode (WssDecoder := sk_decoder sk) text = Ok None.

Lemma single_acks a (sk : VenueEnvironment -> list string -> DeclaredSet -> Socket) :
  (forall e symbols d, sockets a e symbols d = [sk e symbols d]) ->
  (forall e symbols d text, classify_ack (ProtocolHooks := sk_hooks (sk e symbols d)) text <> NotAck ->
     wss_decode (WssDecoder := sk_decoder (sk e symbols d)) text = Ok None) ->
  acks_clear a.
Proof.
  intros Hs Hc e symbols d sk' text Hsk. rewrite Hs in Hsk. apply list_elem_of_singleton in Hsk as ->.
  apply Hc.
Qed.

(** ** Replay

    What a venue emits live for a frame, and what its offline replay makes of it. *)

Definition is_gap (de : DomainEvent) : bool :=
  match de with ConnectionGap _ => true | _ => false end.
Definition without_gaps (des : list DomainEvent) : list DomainEvent :=
  List.filter (fun de => negb (is_gap de)) des.

Lemma without_gaps_app des des' : without_gaps (des ++ des') = without_gaps des ++ without_gaps des'.
Proof. apply List.filter_app. Qed.

Lemma without_gaps_gap (gap : option N) : without_gaps (ConnectionGap <$> option_list gap) = [].
Proof. by destruct gap. Qed.

Definition live (sk : Socket) (ev : wss_event (WssDecoder := sk_decoder sk))
    (s : nz_state (Normalizer := sk_normalizer sk)) : list DomainEvent :=
  without_gaps (snd (normalize (Normalizer := sk_normalizer sk) ev s)).

Definition replays (a : ExchangeAdapter) : Prop :=
  forall e symbols d sk raw ev s,
    sk ∈ sockets a e symbols d -> wss_decode (WssDecoder := sk_decoder sk) raw = Ok (Some ev) ->
    exists des, replay_frame a raw = Ok des /\
      live sk ev s `sublist_of` without_gaps des /\
      (d = declared_all -> live sk ev s = without_gaps des).

Lemma replay_socket_event sk raw ev :
  wss_decode (WssDecoder := sk_decoder sk) raw = Ok (Some ev) ->
  replay_socket sk raw = Ok (snd (normalize (Normalizer := sk_normalizer sk) ev (sk_start sk))).
Proof. intros H. unfold replay_socket. by rewrite H. Qed.

Lemma same_replays (l l' : list DomainEvent) (P : Prop) : l = l' -> l `sublist_of` l' /\ (P -> l = l').
Proof. by intros ->. Qed.

(** The output for a frame does not depend on the counters. *)
Definition steady {B} (f : SourceMetrics -> SourceMetrics * B) : Prop :=
  forall m m', (f m).2 = (f m').2.

Lemma steady_keep {A} (a : A) : steady (keep a).
Proof. done. Qed.
Lemma steady_or_drop {A B} (o : option A) (k : A -> Counted B) :
  (forall x, steady (k x)) -> steady (or_drop o k).
Proof. intros H. by destruct o; [apply H|]. Qed.
Lemma steady_const {B} (b : B) : steady (fun m => (m, b)).
Proof. done. Qed.
Lemma steady_dropped {B} (b : B) : steady (fun m => (add_dropped_frames 1 m, b)).
Proof. done. Qed.

Lemma steady_one_print {B} (r : Counted B) : steady r -> steady (one_print r).
Proof.
  intros H m m'. unfold one_print. pose proof (H m m') as Hr.
  destruct (r m), (r m'). simpl in *. by subst.
Qed.

Lemma steady_filter_map {A B} (f : A -> Counted B) l :
  (forall x, steady (f x)) -> steady (filter_map f l).
Proof.
  intros H. induction l as [|x l IH]; intros m m'; [done|]. simpl.
  pose proof (H x m m') as Hx. destruct (f x m) as [m1 o], (f x m') as [m1' o']. simpl in Hx. subst o'.
  pose proof (IH m1 m1') as Hl. destruct (filter_map f l m1), (filter_map f l m1'). simpl in *. by subst.
Qed.

Lemma counting_replays a (WD : WssDecoder)
    (f : DeclaredSet -> wss_event (WssDecoder := WD) -> SourceMetrics -> SourceMetrics * list DomainEvent)
    prints PH' :
  (forall d ev, steady (f d ev)) ->
  (forall d ev m, without_gaps (f d ev m).2 `sublist_of` without_gaps (f declared_all ev m).2) ->
  (forall e symbols d, exists PH, sockets a e symbols d = [counting_socket PH WD (f d) prints]) ->
  replay_frame a = replay_socket (counting_socket PH' WD (f declared_all) prints) ->
  replays a.
Proof.
  intros Hst Hsub Hsk Hr e symbols d sk raw ev s Hin Hdec. destruct (Hsk e symbols d) as [PH E].
  rewrite E in Hin. apply list_elem_of_singleton in Hin as ->. cbn in *.
  rewrite Hr. unfold replay_socket. cbn. rewrite Hdec. eexists. split; [done|].
  unfold live. cbn. rewrite (Hst d ev s SourceMetrics_default). split; [apply Hsub|].
  by intros ->.
Qed.

(** Most venues emit the same whatever is declared. *)
Lemma plain_replays a (WD : WssDecoder) f prints PH' :
  (forall ev, steady (f ev)) ->
  (forall e symbols d, exists PH, sockets a e symbols d = [counting_socket PH WD f prints]) ->
  replay_frame a = replay_socket (counting_socket PH' WD f prints) ->
  replays a.
Proof. intros Hst Hsk Hr. by eapply (counting_replays a WD (fun _ => f)). Qed.

End Venue.

Declare Scope venue_scope.
Delimit Scope venue_scope with venue.
Notation "'let_some' x := o 'in' k" := (or_drop o (fun x => k))
  (at level 200, x name, o at level 100, k at level 200, right associativity) : venue_scope.

(** A print that is parsed field by field and then kept. *)
Ltac solve_print a :=
  repeat (apply print_sound_or_drop; intros ? ?);
  apply (print_sound_keep a); [done|set_solver|first [done|by right|apply seq_fits_parsed]].

(** A normalizer whose output does not depend on the counters. *)
Ltac solve_steady :=
  repeat first
    [ apply steady_const | apply steady_dropped | apply steady_keep
    | apply steady_or_drop; intros ? | apply steady_one_print
    | apply steady_filter_map; intros ? | case_match ].

Ltac solve_all_text :=
  repeat first
    [ apply all_text_if_declared | apply all_text_bind; intros ? | apply Forall_app; split
    | apply Forall_nil_2 | apply Forall_singleton; by eexists | progress case_match ].
