(* ===== verification/Binance.v ===== *)
(** * Binance

    [src/aetelier-connect/src/framework/adapters/binance.rs] with its wire types and decoder in
    [sources/binance/]. *)
From Stdlib Require Import Ascii String.
From stdpp Require Import pretty.
From S2P Require Import Prelude Budget Strings Numeric Pairs Types Delta Model Feed Runtime Disconnect Reconnect Transport Drive Json Venue.
Local Open Scope N_scope.
Local Open Scope venue_scope.

Section Binance.
Context {NU : Numeric}.

(** ** Wire types *)

Record BinanceDepthUpdate := {
  bnd_event_type : string;
  bnd_event_time : N;
  bnd_symbol : string;
  bnd_first_update_id : N;
  bnd_last_update_id : N;
  bnd_bids : list (string * string);
  bnd_asks : list (string * string)
}.

Record BinanceDepthSnapshot := {
  bns_last_update_id : N;
  bns_bids : list (string * string);
  bns_asks : list (string * string)
}.

Record BinanceTradeData := {
  bnt_event_type : string;
  bnt_event_time : N;
  bnt_symbol : string;
  bnt_trade_id : N;
  bnt_price : string;
  bnt_quantity : string;
  bnt_trade_time : N;
  bnt_is_buyer_maker : bool
}.

Inductive BinanceWssEvent :=
| BnDepthUpdate (d : BinanceDepthUpdate)
| BnDepthSnapshot (s : BinanceDepthSnapshot)
| BnTradeData (t : BinanceTradeData).

Class BinanceWire := {
  BinanceDepthUpdate_json :: FromJson BinanceDepthUpdate;
  BinanceDepthSnapshot_json :: FromJson BinanceDepthSnapshot;
  BinanceTradeData_json :: FromJson BinanceTradeData
}.
Context {SJ : SerdeJson} {BW : BinanceWire}.

Definition BinanceDepthUpdate_to_normalized (d : BinanceDepthUpdate) : NormalizedDelta :=
  ws_delta (bnd_symbol d) (bnd_bids d) (bnd_asks d) (bnd_last_update_id d) (bnd_first_update_id d)
    (epoch_to_us (bnd_event_time d)) None [] false.

Definition BinanceDepthSnapshot_to_normalized (sym : string) (s : BinanceDepthSnapshot) : NormalizedDelta :=
  ws_delta sym (bns_bids s) (bns_asks s) (bns_last_update_id s) (bns_last_update_id s) 0 None [] true.

Definition binance_taker_side (t : BinanceTradeData) : string :=
  if bnt_is_buyer_maker t then "sell" else "buy".

(** ** Decoder *)

Definition BinanceDecoder_decode (text : string) : Result (option BinanceWssEvent) ExchangeError :=
  match json_err (from_str text) with
  | Err e => Err e
  | Ok v =>
    match get_str "e" v with
    | None => Ok None
    | Some event_type =>
      if String.eqb event_type "depthUpdate" then
        match json_err (from_value v) with
        | Ok update => Ok (Some (BnDepthUpdate update))
        | Err e => Err e
        end
      else if String.eqb event_type "trade" then
        match json_err (from_value v) with
        | Ok trade => Ok (Some (BnTradeData trade))
        | Err e => Err e
        end
      else Ok None
    end
  end.

Definition BinanceDecoder : WssDecoder := {|
  wss_event := BinanceWssEvent; wss_decode := BinanceDecoder_decode
|}.

(** ** Protocol *)

Definition BINANCE_WSS_URL : string := "wss://stream.binance.com:9443/ws".
Definition BINANCE_KEEPALIVE_SECS : N := 15.
Definition BINANCE_CODEC : SymbolCodec := Concat true.

Definition binance_params (symbols : list string) (d : DeclaredSet) : list string :=
  s ← symbols;
  let low := to_lowercase s in
  if_declared d DeclOrderbook (low ++ "@depth@100ms")%string ++
  if_declared d DeclTrades (low ++ "@trade")%string.

Definition binance_subscribe_frames (symbols : list string) (d : DeclaredSet) : list Message :=
  match binance_params symbols d with
  | [] => []
  | params =>
    [MsgText (to_text (JObject [("method", JString "SUBSCRIBE");
                                ("params", JArray (JString <$> params));
                                ("id", JNumber (PosInt 1))]))]
  end.

Definition binance_classify_ack (text : string) : AckOutcome :=
  if negb (mentions "result" text || mentions "error" text) then NotAck
  else match from_str text with
  | Err _ => NotAck
  | Ok v =>
    match as_object v with
    | None => NotAck
    | Some obj =>
      match field "error" obj with
      | Some err =>
        AckRejected (c ← get "code" err; as_number_i64 c)
          (default "subscribe failed" (get_str "msg" err))
      | None =>
        match field "result" obj, field "id" obj with
        | Some _, Some _ => Accepted
        | _, _ => NotAck
        end
      end
    end
  end.

Definition BinanceHooks : ProtocolHooks := {|
  endpoint := BINANCE_WSS_URL;
  subscribe_frames := binance_subscribe_frames;
  unsubscribe_frames _ _ := [];
  heartbeat := WsPong (seconds BINANCE_KEEPALIVE_SECS);
  classify_ack := binance_classify_ack;
  on_inbound_control _ := ControlIgnore;
  subscribe_ack_deadline := None;
  connection_lifetime := None;
  stale_after := DEFAULT_STALE_AFTER;
  frame_codec := PlainText;
  prepare := Ok Prepared_default
|}.

(** ** Normalizer *)

Definition binance_trade_event (t : BinanceTradeData) : Counted DomainEvent :=
  let_some p := decode BINANCE_CODEC (bnt_symbol t) in
  let_some amount := parse_dec (bnt_quantity t) in
  let_some price := parse_dec (bnt_price t) in
  let_some side := TradeSide_from_str_loose (binance_taker_side t) in
  keep (TradeEvent
    (ws_trade "binance" (epoch_to_us (bnt_trade_time t)) p side amount price
       (pretty (bnt_trade_id t)))
    (Some (bnt_trade_id t))).

Definition binance_normalize (ev : BinanceWssEvent) (m : SourceMetrics)
    : SourceMetrics * list DomainEvent :=
  match ev with
  | BnDepthUpdate d => (m, [Book (BinanceDepthUpdate_to_normalized d)])
  | BnDepthSnapshot _ => (m, [])
  | BnTradeData t => one_print (binance_trade_event t) m
  end.

Definition binance_prints (ev : BinanceWssEvent) : list string :=
  match ev with BnTradeData t => [bnt_symbol t] | _ => [] end.

Definition binance_socket : Socket :=
  counting_socket BinanceHooks BinanceDecoder binance_normalize binance_prints.

(** ** Adapter *)

Definition BINANCE_PROFILE : ExchangeProfile := {|
  profile_id := "binance"; symbol_codec := BINANCE_CODEC;
  profile_budget := {|
    max_connections := Some 300; max_streams_per_socket := Some 1024; subscribe_rate := [];
    connect_attempt_rate := None; Budget.connection_lifetime := None |};
  schema_version := 1; protocol_revision := "binance-spot-v3"
|}.

Definition BINANCE_REST_URL : string := "https://api.binance.com".
Definition BINANCE_REST_DEPTH : N := 5000.

Definition binance_fetch_depth_url (sym : string) (limit : N) : string :=
  (BINANCE_REST_URL ++ "/api/v3/depth?symbol=" ++ sym ++ "&limit=" ++ pretty limit)%string.

Definition BinanceRestSnapshot : RestSeeder := {|
  seed_url sym := binance_fetch_depth_url sym BINANCE_REST_DEPTH;
  seed_read sym answer :=
    match answer with
    | Err e => Err (IoError e)
    | Ok body =>
      match from_text body with
      | Ok snap => Ok (BinanceDepthSnapshot_to_normalized sym snap)
      | Err e => Err (IoError e)
      end
    end
|}.

Definition binance_replay_seed (raw wire_symbol : string) : Result (option NormalizedDelta) ExchangeError :=
  match json_err (from_text raw) with
  | Ok snap => Ok (Some (BinanceDepthSnapshot_to_normalized wire_symbol snap))
  | Err e => Err e
  end.

Definition BINANCE : ExchangeAdapter := {|
  venue_id := "binance"; profile := BINANCE_PROFILE; rest_seeder := Some BinanceRestSnapshot;
  book_model _ := SeqDelta RangeInclusive RestSnapshot;
  supported_datatypes := default_datatypes; resubscribe_replays_trades := false;
  max_declared_depth := None; supports_environment := production_only;
  datatype_cadence := no_cadence;
  sockets _ _ _ := [binance_socket];
  subscribe_frames_preview := preview BinanceHooks;
  replay_frame := replay_socket binance_socket;
  replay_seed := binance_replay_seed
|}.

(** ** The promise *)

Lemma binance_sound : adapter_sound BINANCE.
Proof.
  split_and!; [done|done|]. intros e symbols d. apply Forall_singleton.
  intros [u|u|t] m m' des E; simpl in E.
  - injection E as <- <-. exists 0%nat.
    apply (books_sound BINANCE m [_]); [set_solver|].
    intros d' channel ->%list_elem_of_singleton. done.
  - injection E as <- <-. exists 0%nat. apply sound_step_nil.
  - apply (one_print_sound BINANCE _ (binance_trade_event t)); [|done].
    unfold binance_trade_event. solve_print BINANCE.
Qed.

Lemma binance_replays : replays BINANCE.
Proof.
  eapply (plain_replays BINANCE BinanceDecoder binance_normalize binance_prints BinanceHooks); [|by eexists|done].
  intros ev. unfold binance_normalize, binance_trade_event. destruct ev; solve_steady.
Qed.

End Binance.
