(* ===== verification/Okx.v ===== *)
(** * OKX

    [src/aetelier-connect/src/framework/adapters/okx.rs] with its wire types and decoder in
    [sources/okx/]. *)
From Stdlib Require Import Ascii String.
From S2P Require Import Prelude Budget Strings Numeric Pairs Types Delta Model Feed Runtime Disconnect Reconnect Transport Drive Json Venue.
Local Open Scope N_scope.
Local Open Scope venue_scope.

Section Okx.
Context {NU : Numeric}.

(** ** Wire types *)

Record OkxArg := { okx_channel : string; okx_inst_id : string }.

Record OkxLevel := {
  okx_price_str : string; okx_size_str : string; okx_liquidated : string; okx_num_orders : string
}.

Record OkxOrderbookData := {
  okxb_asks : list OkxLevel;
  okxb_bids : list OkxLevel;
  okxb_ts : string;
  okxb_seq_id : Z;
  okxb_prev_seq_id : option Z;
  okxb_checksum : option Z
}.

Record OkxOrderbookResponse := {
  okxb_arg : OkxArg; okxb_action : option string; okxb_data : list OkxOrderbookData
}.

Record OkxTradeData := {
  okxt_inst_id : string;
  okxt_trade_id : string;
  okxt_px : string;
  okxt_sz : string;
  okxt_side : string;
  okxt_ts : string
}.

Record OkxTradeResponse := { okxt_arg : OkxArg; okxt_data : list OkxTradeData }.

Inductive OkxWssEvent :=
| OkxBook (resp : OkxOrderbookResponse)
| OkxTrades (trades : list OkxTradeData).

Class OkxWire := {
  OkxOrderbookResponse_json :: FromJson OkxOrderbookResponse;
  OkxTradeResponse_json :: FromJson OkxTradeResponse
}.
Context {SJ : SerdeJson} {OW : OkxWire}.

(** [self.ts.parse().unwrap_or(0)] *)
Definition okx_ts_ms (ts : string) : N := default 0 (parse_u64 ts).

Definition okx_is_snapshot (resp : OkxOrderbookResponse) : bool :=
  match okxb_action resp with Some a => String.eqb a "snapshot" | None => true end.

(** ** Decoder *)

Definition OkxDecoder_decode (text : string) : Result (option OkxWssEvent) ExchangeError :=
  if String.eqb text "pong" then Ok None
  else match json_err (from_str text) with
  | Err e => Err e
  | Ok json =>
    match get_str "event" json with
    | Some _ => Ok None
    | None =>
      match a ← get "arg" json; get_str "channel" a with
      | Some ch =>
        if String.prefix "books" ch || String.eqb ch "bbo-tbt" then
          match from_text text with
          | Ok resp => Ok (Some (OkxBook resp))
          | Err _ => Ok None
          end
        else if String.prefix "trades" ch then
          match from_text text with
          | Ok resp =>
            match okxt_data resp with
            | [] => Ok None
            | trades => Ok (Some (OkxTrades trades))
            end
          | Err _ => Ok None
          end
        else Ok None
      | None => Ok None
      end
    end
  end.

Definition OkxDecoder : WssDecoder := {| wss_event := OkxWssEvent; wss_decode := OkxDecoder_decode |}.

(** ** Protocol *)

Definition OKX_WSS_URL : string := "wss://ws.okx.com:8443/ws/v5/public".
Definition OKX_PING_SECS : N := 20.
Definition OKX_BOOK_CHANNEL : string := "books".
Definition OKX_CODEC : SymbolCodec := Hyphen.

Definition okx_args (symbols : list string) (d : DeclaredSet) : list Value :=
  s ← symbols;
  if_declared d DeclOrderbook
    (JObject [("channel", JString OKX_BOOK_CHANNEL); ("instId", JString s)]) ++
  if_declared d DeclTrades (JObject [("channel", JString "trades"); ("instId", JString s)]).

Definition okx_subscribe_frames (symbols : list string) (d : DeclaredSet) : list Message :=
  match okx_args symbols d with
  | [] => []
  | args => [MsgText (to_text (JObject [("op", JString "subscribe"); ("args", JArray args)]))]
  end.

Definition okx_classify_ack (text : string) : AckOutcome :=
  if negb (mentions "event" text) then NotAck
  else match from_str text with
  | Err _ => NotAck
  | Ok v =>
    match get_str "event" v with
    | Some event =>
      if String.eqb event "subscribe" then Accepted
      else if String.eqb event "error" then
        AckRejected (c ← get_str "code" v; parse_i64 c) (default "stream error" (get_str "msg" v))
      else NotAck
    | None => NotAck
    end
  end.

Definition OkxHooks : ProtocolHooks := {|
  endpoint := OKX_WSS_URL;
  subscribe_frames := okx_subscribe_frames;
  unsubscribe_frames _ _ := [];
  heartbeat := HbText (seconds OKX_PING_SECS) "ping";
  classify_ack := okx_classify_ack;
  on_inbound_control _ := ControlIgnore;
  subscribe_ack_deadline := None;
  connection_lifetime := None;
  stale_after := DEFAULT_STALE_AFTER;
  frame_codec := PlainText;
  prepare := Ok Prepared_default
|}.

(** ** Normalizer *)

Definition okx_levels (side : list OkxLevel) : list (string * string) :=
  (fun l => (okx_price_str l, okx_size_str l)) <$> side.

(** [i.max(0) as u64] *)
Definition clamp_u64 (i : Z) : N := Z.to_N (Z.max i 0).

Definition okx_to_delta (sym : string) (data : OkxOrderbookData) (snapshot : bool) : NormalizedDelta :=
  ws_delta sym (okx_levels (okxb_bids data)) (okx_levels (okxb_asks data))
    (clamp_u64 (okxb_seq_id data))
    (clamp_u64 (default (okxb_seq_id data) (okxb_prev_seq_id data)))
    (epoch_to_us (okx_ts_ms (okxb_ts data))) (okxb_checksum data) [] snapshot.

Definition okx_normalize_trade (t : OkxTradeData) : Counted DomainEvent :=
  let_some p := decode OKX_CODEC (okxt_inst_id t) in
  let_some amount := parse_dec (okxt_sz t) in
  let_some price := parse_dec (okxt_px t) in
  let_some side := TradeSide_from_str_loose (okxt_side t) in
  keep (TradeEvent
    (ws_trade "okx" (epoch_to_us (okx_ts_ms (okxt_ts t))) p side amount price (okxt_trade_id t))
    (parse_u64 (okxt_trade_id t))).

Definition okx_normalize (ev : OkxWssEvent) (m : SourceMetrics) : SourceMetrics * list DomainEvent :=
  match ev with
  | OkxBook resp =>
    (m, Book <$> ((fun d => okx_to_delta (okx_inst_id (okxb_arg resp)) d (okx_is_snapshot resp)) <$>
                  okxb_data resp))
  | OkxTrades trades => filter_map okx_normalize_trade trades m
  end.

Definition okx_prints (ev : OkxWssEvent) : list string :=
  match ev with OkxTrades trades => okxt_inst_id <$> trades | OkxBook _ => [] end.

Definition okx_socket : Socket := counting_socket OkxHooks OkxDecoder okx_normalize okx_prints.

(** ** Adapter *)

Definition OKX_PROFILE : ExchangeProfile := {|
  profile_id := "okx"; symbol_codec := OKX_CODEC; profile_budget := open_budget;
  schema_version := 1; protocol_revision := "okx-v5"
|}.

Definition OKX : ExchangeAdapter := {|
  venue_id := "okx"; profile := OKX_PROFILE; rest_seeder := None;
  book_model _ := SeqDelta ExactPrev WssSelfSeed;
  supported_datatypes := default_datatypes; resubscribe_replays_trades := false;
  max_declared_depth := None; supports_environment := production_only;
  datatype_cadence := no_cadence;
  sockets _ _ _ := [okx_socket];
  subscribe_frames_preview := preview OkxHooks;
  replay_frame := replay_socket okx_socket;
  replay_seed := no_replay_seed "okx"
|}.

(** ** The promise *)

Lemma okx_sound : adapter_sound OKX.
Proof.
  split_and!; [done|done|]. intros e symbols d. apply Forall_singleton.
  intros [resp|trades] m m' des E; simpl in E.
  - injection E as <- <-. exists 0%nat. apply (books_sound OKX); [set_solver|].
    intros d' channel (x & -> & _)%list_elem_of_fmap. done.
  - eapply (filter_map_sound OKX); [|exact E]. intros t _. unfold okx_normalize_trade.
    solve_print OKX.
Qed.

Lemma okx_replays : replays OKX.
Proof.
  eapply (plain_replays OKX OkxDecoder okx_normalize okx_prints OkxHooks); [|by eexists|done].
  intros ev. unfold okx_normalize, okx_normalize_trade. destruct ev; solve_steady.
Qed.

Lemma okx_ack_no_data text : okx_classify_ack text <> NotAck -> OkxDecoder_decode text = Ok None.
Proof.
  unfold okx_classify_ack, OkxDecoder_decode. destruct (negb _); [done|].
  destruct (String.eqb text "pong"); [done|]. destruct (from_str text) as [v|]; [|done].
  simpl. by destruct (get_str "event" v).
Qed.

End Okx.
