(* ===== verification/Bybit.v ===== *)
(** * Bybit

    [src/aetelier-connect/src/framework/adapters/bybit.rs] with its wire types and decoder in
    [sources/bybit/]. *)
From Stdlib Require Import Ascii String.
From S2P Require Import Prelude Budget Strings Numeric Pairs Types Delta Model Feed Runtime Disconnect Reconnect Transport Drive Json Venue.
Local Open Scope N_scope.
Local Open Scope venue_scope.

Section Bybit.
Context {NU : Numeric}.

(** ** Wire types *)

Record BybitOrderbookData := {
  byb_symbol : string;
  byb_bids : list (string * string);
  byb_asks : list (string * string);
  byb_update_id : N;
  byb_sequence : N
}.

Record BybitOrderbookResponse := {
  byb_topic : string;
  byb_ty : string;
  byb_orderbook_ts_ms : N;
  byb_data : BybitOrderbookData;
  byb_cts : option N
}.

Record BybitTradeData := {
  byt_trade_ts : N;
  byt_symbol : string;
  byt_side : string;
  byt_amount : string;
  byt_price : string;
  byt_direction : option string;
  byt_trade_id : string;
  byt_block_trade : bool;
  byt_rpi_trade : bool;
  byt_sequence : N
}.

Record BybitTradeResponse := {
  byt_topic : string; byt_ty : string; byt_ts : N; byt_data : list BybitTradeData
}.

Record BybitLiquidationData := {
  byl_liquidation_ts_ms : N; byl_symbol : string; byl_side : string; byl_amount : string;
  byl_price : string
}.

Record BybitLiquidationResponse := {
  byl_topic : string; byl_ty : string; byl_ts : N; byl_data : list BybitLiquidationData
}.

Inductive TickDirection := PlusTick | ZeroPlusTick | MinusTick | ZeroMinusTick.

Inductive CurPreListingPhase :=
| PhaseEmpty | PhaseNotStarted | PhaseFinished | CallAuction | CallAuctionNoCancel
| CrossMatching | ContinuousTrading.

Record BybitTickerData := {
  byk_ts : option N;
  byk_symbol : string;
  byk_tick_direction : option TickDirection;
  byk_price_24h_pcnt : option string;
  byk_last_price : option string;
  byk_prev_price_24h : option string;
  byk_high_price_24h : option string;
  byk_low_price_24h : option string;
  byk_prev_price_1h : option string;
  byk_mark_price : option string;
  byk_index_price : option string;
  byk_open_interest : option string;
  byk_open_interest_value : option string;
  byk_turnover_24h : option string;
  byk_volume_24h : option string;
  byk_next_funding_time : option string;
  byk_funding_rate : option string;
  byk_bid1_price : option string;
  byk_bid1_size : option string;
  byk_ask1_price : option string;
  byk_ask1_size : option string;
  byk_delivery_time : option N;
  byk_basis_rate : option string;
  byk_delivery_fee_rate : option string;
  byk_predicted_delivery_price : option string;
  byk_pre_open_price : option string;
  byk_pre_qty : option string;
  byk_cur_pre_listing_phase : option CurPreListingPhase;
  byk_funding_interval_hour : option string;
  byk_funding_cap : option string;
  byk_basis_rate_year : option string
}.

Record BybitTickerResponse := {
  byk_topic : string; byk_ty : string; byk_cs : Z; byk_msg_ts : N; byk_data : BybitTickerData
}.

Inductive BybitWssEvent :=
| ByTrades (trades : list BybitTradeData)
| ByLiquidation (l : BybitLiquidationData)
| ByBook (resp : BybitOrderbookResponse)
| ByTicker (t : BybitTickerData).

Class BybitWire := {
  BybitOrderbookResponse_json :: FromJson BybitOrderbookResponse;
  BybitTradeResponse_json :: FromJson BybitTradeResponse;
  BybitLiquidationResponse_json :: FromJson BybitLiquidationResponse;
  BybitTickerResponse_json :: FromJson BybitTickerResponse
}.
Context {SJ : SerdeJson} {BW : BybitWire}.

Definition BybitOrderbookResponse_to_normalized (r : BybitOrderbookResponse) : option NormalizedDelta :=
  let d := byb_data r in
  match byb_bids d, byb_asks d, byb_symbol d with
  | [], [], ""%string => None
  | _, _, _ =>
    Some (ws_delta (byb_symbol d) (byb_bids d) (byb_asks d) (byb_update_id d) (byb_sequence d)
            (u64_mul (default (byb_orderbook_ts_ms r) (byb_cts r)) 1000) None []
            (String.eqb (byb_ty r) "snapshot"))
  end.

(** ** Decoder *)

Definition BybitDecoder_decode (text : string) : Result (option BybitWssEvent) ExchangeError :=
  match json_err (from_str text) with
  | Err e => Err e
  | Ok json =>
    match get "op" json with
    | Some _ => Ok None
    | None =>
      match s ← get "success" json; as_bool s with
      | Some true => Ok None
      | _ =>
        match get_str "topic" json with
        | None => Ok None
        | Some topic =>
          if String.prefix "allLiquidation." topic then
            match from_text text with
            | Ok env =>
              match byl_data env with
              | liq :: _ => Ok (Some (ByLiquidation liq))
              | [] => Ok None
              end
            | Err _ => Ok None
            end
          else if String.prefix "publicTrade." topic then
            match from_text text with
            | Ok env => Ok (Some (ByTrades (byt_data env)))
            | Err _ => Ok None
            end
          else if String.prefix "orderbook." topic then
            match from_text text with
            | Ok env => Ok (Some (ByBook env))
            | Err _ => Ok None
            end
          else if String.prefix "tickers" topic then
            match from_text text with
            | Ok env => Ok (Some (ByTicker (byk_data env)))
            | Err _ => Ok None
            end
          else Ok None
        end
      end
    end
  end.

Definition BybitDecoder : WssDecoder := {|
  wss_event := BybitWssEvent; wss_decode := BybitDecoder_decode
|}.

(** ** Protocol *)

Definition BYBIT_WSS_URL : string := "wss://stream.bybit.com/v5/public/spot".
Definition BYBIT_PING_SECS : N := 20.
Definition BYBIT_BOOK_DEPTH : N := 50.
Definition BYBIT_CODEC : SymbolCodec := Concat true.

Definition bybit_args (symbols : list string) (d : DeclaredSet) : list string :=
  s ← symbols;
  if_declared d DeclOrderbook ("orderbook." ++ pretty BYBIT_BOOK_DEPTH ++ "." ++ s)%string ++
  if_declared d DeclTrades ("publicTrade." ++ s)%string.

Definition bybit_subscribe_frames (symbols : list string) (d : DeclaredSet) : list Message :=
  match bybit_args symbols d with
  | [] => []
  | args =>
    [MsgText (to_text (JObject [("op", JString "subscribe"); ("args", JArray (JString <$> args))]))]
  end.

Definition bybit_classify_ack (text : string) : AckOutcome :=
  if negb (mentions "success" text) then NotAck
  else match from_str text with
  | Err _ => NotAck
  | Ok v =>
    if bool_decide (get_str "op" v = Some "subscribe"%string) then
      match s ← get "success" v; as_bool s with
      | Some true => Accepted
      | Some false =>
        AckRejected (c ← get "ret_code" v; as_number_i64 c)
          (default "subscribe failed" (get_str "ret_msg" v))
      | None => NotAck
      end
    else NotAck
  end.

Definition BybitHooks : ProtocolHooks := {|
  endpoint := BYBIT_WSS_URL;
  subscribe_frames := bybit_subscribe_frames;
  unsubscribe_frames _ _ := [];
  heartbeat := HbText (seconds BYBIT_PING_SECS) (to_text (JObject [("op", JString "ping")]));
  classify_ack := bybit_classify_ack;
  on_inbound_control _ := ControlIgnore;
  subscribe_ack_deadline := None;
  connection_lifetime := None;
  stale_after := DEFAULT_STALE_AFTER;
  frame_codec := PlainText;
  prepare := Ok Prepared_default
|}.

(** ** Normalizer *)

Definition bybit_normalize_trade (t : BybitTradeData) : Counted DomainEvent :=
  let_some p := decode BYBIT_CODEC (byt_symbol t) in
  let_some amount := parse_dec (byt_amount t) in
  let_some price := parse_dec (byt_price t) in
  let_some side := TradeSide_from_str_loose (byt_side t) in
  keep (TradeEvent
    (ws_trade "bybit" (epoch_to_us (byt_trade_ts t)) p side amount price (byt_trade_id t))
    (parse_u64 (byt_trade_id t))).

(** The sequence of the delta is overwritten with its update id. *)
Definition bybit_delta (d : NormalizedDelta) : NormalizedDelta := {|
  symbol := symbol d; nd_bids := nd_bids d; nd_asks := nd_asks d; update_id := update_id d;
  nd_sequence := update_id d; source_orderbook_ts_us := source_orderbook_ts_us d;
  local_orderbook_ts_us := local_orderbook_ts_us d;
  source_orderbook_rtt_us := source_orderbook_rtt_us d;
  checksum := checksum d; orders := orders d; is_snapshot := is_snapshot d
|}.

Definition bybit_normalize (ev : BybitWssEvent) (m : SourceMetrics) : SourceMetrics * list DomainEvent :=
  match ev with
  | ByBook resp => (m, Book <$> option_list (bybit_delta <$> BybitOrderbookResponse_to_normalized resp))
  | ByTrades trades => filter_map bybit_normalize_trade trades m
  | ByLiquidation _ | ByTicker _ => (m, [])
  end.

Definition bybit_prints (ev : BybitWssEvent) : list string :=
  match ev with ByTrades trades => byt_symbol <$> trades | _ => [] end.

Definition bybit_socket : Socket :=
  counting_socket BybitHooks BybitDecoder bybit_normalize bybit_prints.

(** ** Adapter *)

Definition BYBIT_PROFILE : ExchangeProfile := {|
  profile_id := "bybit"; symbol_codec := BYBIT_CODEC; profile_budget := open_budget;
  schema_version := 1; protocol_revision := "bybit-v5"
|}.

Definition BYBIT : ExchangeAdapter := {|
  venue_id := "bybit"; profile := BYBIT_PROFILE; rest_seeder := None;
  book_model _ := SeqDelta RangeInclusive WssSelfSeed;
  supported_datatypes := default_datatypes; resubscribe_replays_trades := false;
  max_declared_depth := None; supports_environment := production_only;
  datatype_cadence := no_cadence;
  sockets _ _ _ := [bybit_socket];
  subscribe_frames_preview := preview BybitHooks;
  replay_frame := replay_socket bybit_socket;
  replay_seed := no_replay_seed "bybit"
|}.

(** ** The promise *)

Lemma bybit_to_normalized_fits r d :
  bybit_delta <$> BybitOrderbookResponse_to_normalized r = Some d ->
  book_fits (SeqDelta RangeInclusive WssSelfSeed) d /\ nd_sequence d = update_id d.
Proof.
  unfold BybitOrderbookResponse_to_normalized. intros E.
  destruct (byb_bids _), (byb_asks _), (byb_symbol _); simpl in E; simplify_eq; done.
Qed.

Lemma bybit_sound : adapter_sound BYBIT.
Proof.
  split_and!; [done|done|]. intros e symbols d. apply Forall_singleton.
  intros [trades|l|resp|t] m m' des E; cbn [sk_normalizer bybit_socket counting_socket socket normalize bybit_normalize] in E.
  - eapply (filter_map_sound BYBIT); [|exact E]. intros t _. unfold bybit_normalize_trade.
    solve_print BYBIT.
  - injection E as <- <-. exists 0%nat. apply sound_step_nil.
  - injection E as <- <-. exists 0%nat. apply (books_sound BYBIT); [set_solver|].
    intros d' channel Hd. destruct (bybit_delta <$> _) as [d1|] eqn:E1; simpl in Hd; [|set_solver].
    apply list_elem_of_singleton in Hd as ->. by apply (bybit_to_normalized_fits resp).
  - injection E as <- <-. exists 0%nat. apply sound_step_nil.
Qed.

Lemma bybit_replays : replays BYBIT.
Proof.
  eapply (plain_replays BYBIT BybitDecoder bybit_normalize bybit_prints BybitHooks); [|by eexists|done].
  intros ev. unfold bybit_normalize, bybit_normalize_trade. destruct ev; solve_steady.
Qed.

Lemma bybit_ack_no_data text : bybit_classify_ack text <> NotAck -> BybitDecoder_decode text = Ok None.
Proof.
  unfold bybit_classify_ack, BybitDecoder_decode. destruct (negb _); [done|].
  destruct (from_str text) as [v|]; [|done]. simpl. case_bool_decide as H; [|done].
  unfold get_str in H. by destruct (get "op" v).
Qed.

End Bybit.
