(* ===== verification/Kraken.v ===== *)
(** * Kraken

    [src/aetelier-connect/src/framework/adapters/kraken.rs] with its wire types and decoder in
    [sources/kraken/].  Prices and quantities of a book keep the text of the frame. *)
From Stdlib Require Import Ascii String.
From S2P Require Import Prelude Budget Strings Numeric Pairs Types Delta Checksum Model Feed Runtime Reconcile Disconnect Reconnect Transport Drive Json Venue.
Local Open Scope N_scope.
Local Open Scope venue_scope.

Section Kraken.
Context {NU : Numeric}.

(** ** Wire types *)

Record KrakenPriceLevel := { krl_price : string; krl_qty : string }.

Record KrakenBookData := {
  krb_symbol : string;
  krb_bids : list KrakenPriceLevel;
  krb_asks : list KrakenPriceLevel;
  krb_checksum : N;
  krb_timestamp : string
}.

Record KrakenBookResponse := { krb_channel : string; krb_ty : string; krb_data : list KrakenBookData }.

Record KrakenTradeData := {
  krt_symbol : string;
  krt_side : string;
  krt_price : F64;
  krt_qty : F64;
  krt_ord_type : string;
  krt_trade_id : N;
  krt_timestamp : string
}.

Record KrakenTradeResponse := { krt_channel : string; krt_ty : string; krt_data : list KrakenTradeData }.

Inductive KrakenWssEvent :=
| KrBook (resp : KrakenBookResponse)
| KrTrades (trades : list KrakenTradeData).

Class KrakenWire := {
  KrakenBookResponse_json :: FromJson KrakenBookResponse;
  KrakenTradeResponse_json :: FromJson KrakenTradeResponse
}.
Context {SJ : SerdeJson} {CH : Chrono} {KW : KrakenWire}.

(** [DateTime::parse_from_rfc3339(ts).map(|dt| dt.timestamp_micros() as u64).unwrap_or(0)] *)
Definition rfc3339_us (ts : string) : N := default 0 (as_u64 <$> parse_from_rfc3339 ts).

(** [n as i64] *)
Definition as_i64 (n : N) : Z :=
  let n := n mod u64_modulus in
  if n <? 2 ^ 63 then Z.of_N n else (Z.of_N n - Z.of_N u64_modulus)%Z.

Definition kraken_levels (side : list KrakenPriceLevel) : list (string * string) :=
  (fun l => (krl_price l, krl_qty l)) <$> side.

Definition KrakenBookResponse_to_normalized (r : KrakenBookResponse) : option NormalizedDelta :=
  data ← head (krb_data r);
  Some (ws_delta (krb_symbol data) (kraken_levels (krb_bids data)) (kraken_levels (krb_asks data))
          (krb_checksum data) (krb_checksum data) (rfc3339_us (krb_timestamp data))
          (Some (as_i64 (krb_checksum data))) [] (String.eqb (krb_ty r) "snapshot")).

(** ** Decoder *)

Definition KrakenDecoder_decode (text : string) : Result (option KrakenWssEvent) ExchangeError :=
  match json_err (from_str text) with
  | Err e => Err e
  | Ok json =>
    match get_str "method" json with
    | Some _ => Ok None
    | None =>
      let channel := default ""%string (get_str "channel" json) in
      if String.eqb channel "book" then
        match from_text text with
        | Ok resp => Ok (Some (KrBook resp))
        | Err _ => Ok None
        end
      else if String.eqb channel "trade" then
        match from_text text with
        | Ok resp =>
          match krt_data resp with
          | [] => Ok None
          | trades => Ok (Some (KrTrades trades))
          end
        | Err _ => Ok None
        end
      else Ok None
    end
  end.

Definition KrakenDecoder : WssDecoder := {|
  wss_event := KrakenWssEvent; wss_decode := KrakenDecoder_decode
|}.

(** ** Protocol *)

Definition KRAKEN_WSS_URL : string := "wss://ws.kraken.com/v2".
Definition KRAKEN_CODEC : SymbolCodec := Slash.

Definition kraken_subscribe_frames (symbols : list string) (d : DeclaredSet) : list Message :=
  if_declared d DeclOrderbook
    (MsgText (to_text (JObject [
       ("method", JString "subscribe");
       ("params", JObject [("channel", JString "book"); ("symbol", JArray (JString <$> symbols));
                           ("depth", JNumber (PosInt 10))])]))) ++
  if_declared d DeclTrades
    (MsgText (to_text (JObject [
       ("method", JString "subscribe");
       ("params", JObject [("channel", JString "trade"); ("symbol", JArray (JString <$> symbols))])]))).

Definition KrakenHooks : ProtocolHooks := {|
  endpoint := KRAKEN_WSS_URL;
  subscribe_frames := kraken_subscribe_frames;
  unsubscribe_frames _ _ := [];
  heartbeat := NoHeartbeat;
  classify_ack _ := NotAck;
  on_inbound_control _ := ControlIgnore;
  subscribe_ack_deadline := None;
  connection_lifetime := None;
  stale_after := DEFAULT_STALE_AFTER;
  frame_codec := PlainText;
  prepare := Ok Prepared_default
|}.

(** ** Normalizer *)

Definition kraken_normalize_trade (t : KrakenTradeData) : Counted DomainEvent :=
  let_some p := decode KRAKEN_CODEC (krt_symbol t) in
  let_some side := TradeSide_from_str_loose (krt_side t) in
  keep (TradeEvent
    (ws_trade "kraken" (rfc3339_us (krt_timestamp t)) p side (f64_to_decimal (krt_qty t))
       (f64_to_decimal (krt_price t)) (pretty (krt_trade_id t)))
    (Some (krt_trade_id t))).

Definition kraken_normalize (ev : KrakenWssEvent) (m : SourceMetrics) : SourceMetrics * list DomainEvent :=
  match ev with
  | KrBook resp => (m, Book <$> option_list (KrakenBookResponse_to_normalized resp))
  | KrTrades trades => filter_map kraken_normalize_trade trades m
  end.

Definition kraken_prints (ev : KrakenWssEvent) : list string :=
  match ev with KrTrades trades => krt_symbol <$> trades | KrBook _ => [] end.

Definition kraken_socket : Socket :=
  counting_socket KrakenHooks KrakenDecoder kraken_normalize kraken_prints.

(** ** Adapter *)

Definition KRAKEN_PROFILE : ExchangeProfile := {|
  profile_id := "kraken"; symbol_codec := KRAKEN_CODEC; profile_budget := open_budget;
  schema_version := 1; protocol_revision := "kraken-v2"
|}.

Definition KRAKEN : ExchangeAdapter := {|
  venue_id := "kraken"; profile := KRAKEN_PROFILE; rest_seeder := None;
  book_model _ := ChecksumDelta KrakenTop10;
  supported_datatypes := default_datatypes; resubscribe_replays_trades := false;
  max_declared_depth := None; supports_environment := production_only;
  datatype_cadence := no_cadence;
  sockets _ _ _ := [kraken_socket];
  subscribe_frames_preview := preview KrakenHooks;
  replay_frame := replay_socket kraken_socket;
  replay_seed := no_replay_seed "kraken"
|}.

(** ** The promise *)

Lemma kraken_sound : adapter_sound KRAKEN.
Proof.
  split_and!; [done|done|]. intros e symbols d. apply Forall_singleton.
  intros [resp|trades] m m' des E; simpl in E.
  - injection E as <- <-. exists 0%nat. apply (books_sound KRAKEN); [set_solver|].
    intros d' channel Hd. unfold KrakenBookResponse_to_normalized in Hd.
    destruct (krb_data resp) as [|data l]; simpl in Hd; [set_solver|].
    apply list_elem_of_singleton in Hd as ->. done.
  - eapply (filter_map_sound KRAKEN); [|exact E]. intros t _. unfold kraken_normalize_trade.
    solve_print KRAKEN.
Qed.

Lemma kraken_replays : replays KRAKEN.
Proof.
  eapply (plain_replays KRAKEN KrakenDecoder kraken_normalize kraken_prints KrakenHooks); [|by eexists|done].
  intros ev. unfold kraken_normalize, kraken_normalize_trade. destruct ev; solve_steady.
Qed.

End Kraken.
