(* ===== verification/Gateio.v ===== *)
(** * Gate.io

    [src/aetelier-connect/src/framework/adapters/gateio.rs] with its wire types and decoder in
    [sources/gateio/].  The subscription frames and the pings carry the time: [secs] is the
    wall clock, read once per symbol when the frames are built and once more for the text
    of a ping. *)
From Stdlib Require Import Ascii String.
From S2P Require Import Prelude Budget Strings Numeric Pairs Types Delta Model Feed Runtime Disconnect Reconnect Transport Drive Json Venue.
Local Open Scope N_scope.
Local Open Scope venue_scope.

Section Gateio.
Context {NU : Numeric}.

(** ** Wire types *)

Record GateioLevel := { gio_price_str : string; gio_size_str : string }.

Record GateioOrderbookData := {
  giob_ts_ms : N;
  giob_last_update_id : Z;
  giob_symbol : string;
  giob_bids : list GateioLevel;
  giob_asks : list GateioLevel
}.

Record GateioOrderbookResponse := {
  giob_time_ms : option N; giob_channel : string; giob_event : string;
  giob_result : GateioOrderbookData
}.

Record GateioTradeData := {
  giot_id : N;
  giot_create_time : Z;
  giot_create_time_ms : string;
  giot_side : string;
  giot_currency_pair : string;
  giot_amount : string;
  giot_price : string
}.

Record GateioTradeResponse := {
  giot_time_ms : option N; giot_channel : string; giot_event : string;
  giot_result : GateioTradeData
}.

Inductive GateioWssEvent :=
| GioBook (resp : GateioOrderbookResponse)
| GioTrade (t : GateioTradeData).

Class GateioWire := {
  GateioOrderbookResponse_json :: FromJson GateioOrderbookResponse;
  GateioTradeResponse_json :: FromJson GateioTradeResponse
}.
Context {SJ : SerdeJson} {FT : FloatText} {GW : GateioWire} (secs : nat -> N).

(** The whole milliseconds of [create_time_ms], else its float, else the seconds. *)
Definition gateio_ts_ms (t : GateioTradeData) : N :=
  match whole ← head (str_split "."%char (giot_create_time_ms t)); parse_u64 whole with
  | Some ms => ms
  | None =>
    default (u64_mul (Z.to_N (Z.max (giot_create_time t) 0)) 1000)
      (f64_as_u64 <$> f64_parse (giot_create_time_ms t))
  end.

(** ** Decoder *)

Definition GateioDecoder_decode (text : string) : Result (option GateioWssEvent) ExchangeError :=
  match json_err (from_str text) with
  | Err e => Err e
  | Ok json =>
    if bool_decide (get_str "event" json = Some "update"%string) then
      match get_str "channel" json with
      | Some ch =>
        if String.eqb ch "spot.order_book" then
          match from_text text with
          | Ok resp => Ok (Some (GioBook resp))
          | Err _ => Ok None
          end
        else if String.eqb ch "spot.trades" then
          match from_text text with
          | Ok resp => Ok (Some (GioTrade (giot_result resp)))
          | Err _ => Ok None
          end
        else Ok None
      | None => Ok None
      end
    else Ok None
  end.

Definition GateioDecoder : WssDecoder := {|
  wss_event := GateioWssEvent; wss_decode := GateioDecoder_decode
|}.

(** ** Protocol *)

Definition GATEIO_WSS_URL : string := "wss://api.gateio.ws/ws/v4/".
Definition GATEIO_PING_SECS : N := 15.
Definition GATEIO_BOOK_CHANNEL : string := "spot.order_book".
Definition GATEIO_TRADE_CHANNEL : string := "spot.trades".
Definition GATEIO_BOOK_INTERVAL : string := "100ms".
Definition GATEIO_CODEC : SymbolCodec := Underscore true.

Definition gateio_frame (t : N) (channel : string) (payload : list string) : Message :=
  MsgText (to_text (JObject [
    ("time", JNumber (PosInt t)); ("channel", JString channel); ("event", JString "subscribe");
    ("payload", JArray (JString <$> payload))])).

Definition gateio_symbol_frames (d : DeclaredSet) (i : nat) (s : string) : list Message :=
  let t := secs i in
  if_declared d DeclOrderbook (gateio_frame t GATEIO_BOOK_CHANNEL [s; "20"; GATEIO_BOOK_INTERVAL]%string) ++
  if_declared d DeclTrades (gateio_frame t GATEIO_TRADE_CHANNEL [s]).

Definition gateio_subscribe_frames (symbols : list string) (d : DeclaredSet) : list Message :=
  concat (imap (gateio_symbol_frames d) symbols).

Definition GateioHooks (ping_at : N) : ProtocolHooks := {|
  endpoint := GATEIO_WSS_URL;
  subscribe_frames := gateio_subscribe_frames;
  unsubscribe_frames _ _ := [];
  heartbeat := HbText (seconds GATEIO_PING_SECS)
    (to_text (JObject [("time", JNumber (PosInt ping_at)); ("channel", JString "spot.ping")]));
  classify_ack _ := NotAck;
  on_inbound_control _ := ControlIgnore;
  subscribe_ack_deadline := None;
  connection_lifetime := None;
  stale_after := DEFAULT_STALE_AFTER;
  frame_codec := PlainText;
  prepare := Ok Prepared_default
|}.

(** ** Normalizer *)

Definition gateio_levels (side : list GateioLevel) : list (string * string) :=
  (fun l => (gio_price_str l, gio_size_str l)) <$> side.

Definition gateio_to_delta (data : GateioOrderbookData) : NormalizedDelta :=
  let id := Z.to_N (Z.max (giob_last_update_id data) 0) in
  ws_delta (giob_symbol data) (gateio_levels (giob_bids data)) (gateio_levels (giob_asks data)) id id
    (epoch_to_us (giob_ts_ms data)) None [] true.

Definition gateio_normalize_trade (t : GateioTradeData) : Counted DomainEvent :=
  let_some p := decode GATEIO_CODEC (giot_currency_pair t) in
  let_some amount := parse_dec (giot_amount t) in
  let_some price := parse_dec (giot_price t) in
  let_some side := TradeSide_from_str_loose (giot_side t) in
  keep (TradeEvent
    (ws_trade "gateio" (epoch_to_us (gateio_ts_ms t)) p side amount price (pretty (giot_id t)))
    (Some (giot_id t))).

Definition gateio_normalize (ev : GateioWssEvent) (m : SourceMetrics) : SourceMetrics * list DomainEvent :=
  match ev with
  | GioBook resp => (m, [Book (gateio_to_delta (giob_result resp))])
  | GioTrade t => one_print (gateio_normalize_trade t) m
  end.

Definition gateio_prints (ev : GateioWssEvent) : list string :=
  match ev with GioTrade t => [giot_currency_pair t] | GioBook _ => [] end.

Definition gateio_socket (ping_at : N) : Socket :=
  counting_socket (GateioHooks ping_at) GateioDecoder gateio_normalize gateio_prints.

(** ** Adapter *)

Definition GATEIO_PROFILE : ExchangeProfile := {|
  profile_id := "gateio"; symbol_codec := GATEIO_CODEC; profile_budget := open_budget;
  schema_version := 1; protocol_revision := "gateio-v4"
|}.

Definition GATEIO (ping_at : N) : ExchangeAdapter := {|
  venue_id := "gateio"; profile := GATEIO_PROFILE; rest_seeder := None;
  book_model _ := FullRefresh;
  supported_datatypes := default_datatypes; resubscribe_replays_trades := false;
  max_declared_depth := None; supports_environment := production_only;
  datatype_cadence := no_cadence;
  sockets _ _ _ := [gateio_socket ping_at];
  subscribe_frames_preview := preview (GateioHooks ping_at);
  replay_frame := replay_socket (gateio_socket ping_at);
  replay_seed := no_replay_seed "gateio"
|}.

(** ** The promise *)

Lemma gateio_sound ping_at : adapter_sound (GATEIO ping_at).
Proof.
  split_and!; [done|done|]. intros e symbols d. apply Forall_singleton.
  intros [resp|t] m m' des E; simpl in E.
  - injection E as <- <-. exists 0%nat. apply (books_sound (GATEIO ping_at) m [_]); [set_solver|].
    intros d' channel ->%list_elem_of_singleton. done.
  - apply (one_print_sound (GATEIO ping_at) _ (gateio_normalize_trade t)); [|done].
    unfold gateio_normalize_trade. solve_print (GATEIO ping_at).
Qed.

Lemma gateio_replays ping_at : replays (GATEIO ping_at).
Proof.
  eapply (plain_replays (GATEIO ping_at) GateioDecoder gateio_normalize gateio_prints (GateioHooks ping_at)); [|by eexists|done].
  intros ev. unfold gateio_normalize, gateio_normalize_trade. destruct ev; solve_steady.
Qed.

Lemma imap_all_text (f : nat -> string -> list Message) symbols :
  (forall i s, all_text (f i s)) -> all_text (concat (imap f symbols)).
Proof.
  revert f. induction symbols as [|s l IH]; intros f Hf; [constructor|]. simpl.
  apply Forall_app. split; [apply Hf|]. apply IH. intros i s'. apply (Hf (S i)).
Qed.

Lemma gateio_all_text symbols d : all_text (gateio_subscribe_frames symbols d).
Proof. apply imap_all_text. intros i s. unfold gateio_symbol_frames, gateio_frame. cbv zeta. solve_all_text. Qed.

End Gateio.
