(* ===== verification/Bitget.v ===== *)
(** * Bitget

    [src/aetelier-connect/src/framework/adapters/bitget.rs] with its wire types and decoder in
    [sources/bitget/]. *)
From Stdlib Require Import Ascii String.
From S2P Require Import Prelude Budget Strings Numeric Pairs Types Delta Model Feed Runtime Disconnect Reconnect Transport Drive Json Venue.
Local Open Scope N_scope.
Local Open Scope venue_scope.

Section Bitget.
Context {NU : Numeric}.

(** ** Wire types *)

Record BitgetArg := { btg_channel : string; btg_inst_id : string }.

Record BitgetBookData := {
  btgb_asks : list (string * string);
  btgb_bids : list (string * string);
  btgb_ts : string;
  btgb_seq : option N;
  btgb_pseq : option N
}.

Record BitgetBookFrame := {
  btgb_action : string; btgb_arg : BitgetArg; btgb_data : list BitgetBookData
}.

Record BitgetTradeData := {
  btgt_ts : string; btgt_price : string; btgt_size : string; btgt_side : string;
  btgt_trade_id : string
}.

Record BitgetTradeFrame := { btgt_arg : BitgetArg; btgt_data : list BitgetTradeData }.

Inductive BitgetWssEvent :=
| BtgBook (f : BitgetBookFrame)
| BtgTrade (f : BitgetTradeFrame).

Class BitgetWire := {
  BitgetBookFrame_json :: FromJson BitgetBookFrame;
  BitgetTradeFrame_json :: FromJson BitgetTradeFrame
}.
Context {SJ : SerdeJson} {BW : BitgetWire}.

(** ** Decoder *)

Definition BitgetDecoder_decode (text : string) : Result (option BitgetWssEvent) ExchangeError :=
  if String.eqb text "pong" then Ok None
  else match json_err (from_str text) with
  | Err e => Err e
  | Ok v =>
    match get "event" v with
    | Some _ => Ok None
    | None =>
      match a ← get "arg" v; get_str "channel" a with
      | Some ch =>
        if String.prefix "books" ch then
          match json_err (from_value v) with
          | Ok f => Ok (Some (BtgBook f))
          | Err e => Err e
          end
        else if String.eqb ch "trade" then
          match json_err (from_value v) with
          | Ok f => Ok (Some (BtgTrade f))
          | Err e => Err e
          end
        else Ok None
      | None => Ok None
      end
    end
  end.

Definition BitgetDecoder : WssDecoder := {|
  wss_event := BitgetWssEvent; wss_decode := BitgetDecoder_decode
|}.

(** ** Protocol *)

Definition BITGET_WSS_URL : string := "wss://ws.bitget.com/v2/ws/public".
Definition BITGET_PING_SECS : N := 25.
Definition BITGET_INST_TYPE : string := "SPOT".
Definition BITGET_BOOK_CHANNEL : string := "books".
Definition BITGET_CODEC : SymbolCodec := Concat true.

Definition bitget_arg (channel s : string) : Value :=
  JObject [("instType", JString BITGET_INST_TYPE); ("channel", JString channel); ("instId", JString s)].

Definition bitget_args (symbols : list string) (d : DeclaredSet) : list Value :=
  s ← symbols;
  if_declared d DeclOrderbook (bitget_arg BITGET_BOOK_CHANNEL s) ++
  if_declared d DeclTrades (bitget_arg "trade" s).

Definition bitget_subscribe_frames (symbols : list string) (d : DeclaredSet) : list Message :=
  match bitget_args symbols d with
  | [] => []
  | args => [MsgText (to_text (JObject [("op", JString "subscribe"); ("args", JArray args)]))]
  end.

Definition BitgetHooks : ProtocolHooks := {|
  endpoint := BITGET_WSS_URL;
  subscribe_frames := bitget_subscribe_frames;
  unsubscribe_frames _ _ := [];
  heartbeat := HbText (seconds BITGET_PING_SECS) "ping";
  classify_ack _ := NotAck;
  on_inbound_control _ := ControlIgnore;
  subscribe_ack_deadline := None;
  connection_lifetime := None;
  stale_after := DEFAULT_STALE_AFTER;
  frame_codec := PlainText;
  prepare := Ok Prepared_default
|}.

(** ** Normalizer *)

Definition bitget_to_delta (sym : string) (data : BitgetBookData) (snapshot : bool) : NormalizedDelta :=
  let ts := default 0 (parse_u64 (btgb_ts data)) in
  ws_delta sym (btgb_bids data) (btgb_asks data) (default ts (btgb_seq data))
    (default 0 (btgb_pseq data)) (epoch_to_us ts) None [] snapshot.

Definition bitget_normalize_trade (p : TradingPair) (t : BitgetTradeData) : Counted DomainEvent :=
  let_some amount := parse_dec (btgt_size t) in
  let_some price := parse_dec (btgt_price t) in
  let_some side := TradeSide_from_str_loose (btgt_side t) in
  keep (TradeEvent
    (ws_trade "bitget" (epoch_to_us (default 0 (parse_u64 (btgt_ts t)))) p side amount price
       (btgt_trade_id t))
    None).

Definition bitget_normalize (ev : BitgetWssEvent) (m : SourceMetrics) : SourceMetrics * list DomainEvent :=
  match ev with
  | BtgBook f =>
    (m, Book <$> ((fun d => bitget_to_delta (btg_inst_id (btgb_arg f)) d
                              (String.eqb (btgb_action f) "snapshot")) <$> btgb_data f))
  | BtgTrade f =>
    match decode BITGET_CODEC (btg_inst_id (btgt_arg f)) with
    | None => (add_dropped_frames 1 m, [])
    | Some p => filter_map (bitget_normalize_trade p) (btgt_data f) m
    end
  end.

Definition bitget_prints (ev : BitgetWssEvent) : list string :=
  match ev with
  | BtgTrade f => (fun _ => btg_inst_id (btgt_arg f)) <$> btgt_data f
  | BtgBook _ => []
  end.

Definition bitget_socket : Socket :=
  counting_socket BitgetHooks BitgetDecoder bitget_normalize bitget_prints.

(** ** Adapter *)

Definition BITGET_PROFILE : ExchangeProfile := {|
  profile_id := "bitget"; symbol_codec := BITGET_CODEC; profile_budget := open_budget;
  schema_version := 1; protocol_revision := "bitget-v2"
|}.

Definition BITGET : ExchangeAdapter := {|
  venue_id := "bitget"; profile := BITGET_PROFILE; rest_seeder := None;
  book_model _ := SeqDelta ExactPrev WssSelfSeed;
  supported_datatypes := default_datatypes; resubscribe_replays_trades := false;
  max_declared_depth := None; supports_environment := production_only;
  datatype_cadence := no_cadence;
  sockets _ _ _ := [bitget_socket];
  subscribe_frames_preview := preview BitgetHooks;
  replay_frame := replay_socket bitget_socket;
  replay_seed := no_replay_seed "bitget"
|}.

(** ** The promise *)

Lemma bitget_sound : adapter_sound BITGET.
Proof.
  split_and!; [done|done|]. intros e symbols d. apply Forall_singleton.
  intros [f|f] m m' des E;
    cbn [sk_normalizer bitget_socket counting_socket socket normalize bitget_normalize] in E.
  - injection E as <- <-. exists 0%nat. apply (books_sound BITGET); [set_solver|].
    intros d' channel (x & -> & _)%list_elem_of_fmap. done.
  - destruct (decode BITGET_CODEC _) as [p|] eqn:Ep; [|injection E as <- <-; exists 1%nat; apply frame_dropped].
    apply (filter_map_sound BITGET _ (bitget_normalize_trade p)); [|exact E].
    intros t _. unfold bitget_normalize_trade. solve_print BITGET.
Qed.

Lemma bitget_replays : replays BITGET.
Proof.
  eapply (plain_replays BITGET BitgetDecoder bitget_normalize bitget_prints BitgetHooks); [|by eexists|done].
  intros ev. unfold bitget_normalize, bitget_normalize_trade. destruct ev; solve_steady.
Qed.

End Bitget.
