(* ===== verification/Poloniex.v ===== *)
(** * Poloniex

    [src/aetelier-connect/src/framework/adapters/poloniex.rs] with its wire types and decoder in
    [sources/poloniex/]. *)
From Stdlib Require Import Ascii String.
From S2P Require Import Prelude Budget Strings Numeric Pairs Types Delta Model Feed Runtime Disconnect Reconnect Transport Drive Json Venue.
Local Open Scope N_scope.
Local Open Scope venue_scope.

Section Poloniex.
Context {NU : Numeric}.

(** ** Wire types *)

Record PoloniexBookData := {
  plxb_symbol : string;
  plxb_asks : list (string * string);
  plxb_bids : list (string * string);
  plxb_id : N;
  plxb_last_id : N;
  plxb_ts : N
}.

Record PoloniexBookFrame := { plxb_data : list PoloniexBookData; plxb_action : string }.

Record PoloniexTradeData := {
  plxt_symbol : string;
  plxt_id : string;
  plxt_price : string;
  plxt_quantity : string;
  plxt_taker_side : string;
  plxt_ts : N;
  plxt_create_time : N
}.

Record PoloniexTradeFrame := { plxt_data : list PoloniexTradeData }.

Inductive PoloniexWssEvent :=
| PlxBook (f : PoloniexBookFrame)
| PlxTrades (f : PoloniexTradeFrame).

Class PoloniexWire := {
  PoloniexBookFrame_json :: FromJson PoloniexBookFrame;
  PoloniexTradeFrame_json :: FromJson PoloniexTradeFrame
}.
Context {SJ : SerdeJson} {PW : PoloniexWire}.

(** ** Decoder *)

Definition PoloniexDecoder_decode (text : string) : Result (option PoloniexWssEvent) ExchangeError :=
  match json_err (from_str text) with
  | Err e => Err e
  | Ok v =>
    match get "event" v with
    | Some _ => Ok None
    | None =>
      match get_str "channel" v with
      | Some ch =>
        if String.eqb ch "book_lv2" then
          match json_err (from_value v) with
          | Ok f => Ok (Some (PlxBook f))
          | Err e => Err e
          end
        else if String.eqb ch "trades" then
          match json_err (from_value v) with
          | Ok f => Ok (Some (PlxTrades f))
          | Err e => Err e
          end
        else Ok None
      | None => Ok None
      end
    end
  end.

Definition PoloniexDecoder : WssDecoder := {|
  wss_event := PoloniexWssEvent; wss_decode := PoloniexDecoder_decode
|}.

(** ** Protocol *)

Definition POLONIEX_WSS_URL : string := "wss://ws.poloniex.com/ws/public".
Definition POLONIEX_PING_SECS : N := 25.
Definition POLONIEX_CODEC : SymbolCodec := Underscore true.

Definition poloniex_frame (channel : string) (symbols : list string) : Message :=
  MsgText (to_text (JObject [
    ("event", JString "subscribe"); ("channel", JArray [JString channel]);
    ("symbols", JArray (JString <$> symbols))])).

Definition poloniex_subscribe_frames (symbols : list string) (d : DeclaredSet) : list Message :=
  if_declared d DeclOrderbook (poloniex_frame "book_lv2" symbols) ++
  if_declared d DeclTrades (poloniex_frame "trades" symbols).

Definition PoloniexHooks : ProtocolHooks := {|
  endpoint := POLONIEX_WSS_URL;
  subscribe_frames := poloniex_subscribe_frames;
  unsubscribe_frames _ _ := [];
  heartbeat := HbText (seconds POLONIEX_PING_SECS) (to_text (JObject [("event", JString "ping")]));
  classify_ack _ := NotAck;
  on_inbound_control _ := ControlIgnore;
  subscribe_ack_deadline := None;
  connection_lifetime := None;
  stale_after := DEFAULT_STALE_AFTER;
  frame_codec := PlainText;
  prepare := Ok Prepared_default
|}.

(** ** Normalizer *)

Definition poloniex_to_delta (data : PoloniexBookData) (snapshot : bool) : NormalizedDelta :=
  ws_delta (plxb_symbol data) (plxb_bids data) (plxb_asks data) (plxb_id data) (plxb_last_id data)
    (epoch_to_us (plxb_ts data)) None [] snapshot.

Definition poloniex_normalize_trade (t : PoloniexTradeData) : Counted DomainEvent :=
  let_some p := decode POLONIEX_CODEC (plxt_symbol t) in
  let_some amount := parse_dec (plxt_quantity t) in
  let_some price := parse_dec (plxt_price t) in
  let_some side := TradeSide_from_str_loose (plxt_taker_side t) in
  keep (TradeEvent
    (ws_trade "poloniex"
       (epoch_to_us (if 0 <? plxt_create_time t then plxt_create_time t else plxt_ts t))
       p side amount price (plxt_id t))
    (parse_u64 (plxt_id t))).

Definition poloniex_normalize (ev : PoloniexWssEvent) (m : SourceMetrics)
    : SourceMetrics * list DomainEvent :=
  match ev with
  | PlxBook f =>
    (m, Book <$> ((fun d => poloniex_to_delta d (String.eqb (plxb_action f) "snapshot")) <$> plxb_data f))
  | PlxTrades f => filter_map poloniex_normalize_trade (plxt_data f) m
  end.

Definition poloniex_prints (ev : PoloniexWssEvent) : list string :=
  match ev with PlxTrades f => plxt_symbol <$> plxt_data f | PlxBook _ => [] end.

Definition poloniex_socket : Socket :=
  counting_socket PoloniexHooks PoloniexDecoder poloniex_normalize poloniex_prints.

(** ** Adapter *)

Definition POLONIEX_PROFILE : ExchangeProfile := {|
  profile_id := "poloniex"; symbol_codec := POLONIEX_CODEC; profile_budget := open_budget;
  schema_version := 1; protocol_revision := "poloniex-v2"
|}.

Definition POLONIEX : ExchangeAdapter := {|
  venue_id := "poloniex"; profile := POLONIEX_PROFILE; rest_seeder := None;
  book_model _ := SeqDelta ExactPrev WssSelfSeed;
  supported_datatypes := default_datatypes; resubscribe_replays_trades := false;
  max_declared_depth := None; supports_environment := production_only;
  datatype_cadence := no_cadence;
  sockets _ _ _ := [poloniex_socket];
  subscribe_frames_preview := preview PoloniexHooks;
  replay_frame := replay_socket poloniex_socket;
  replay_seed := no_replay_seed "poloniex"
|}.

(** ** The promise *)

Lemma poloniex_sound : adapter_sound POLONIEX.
Proof.
  split_and!; [done|done|]. intros e symbols d. apply Forall_singleton.
  intros [f|f] m m' des E; simpl in E.
  - injection E as <- <-. exists 0%nat. apply (books_sound POLONIEX); [set_solver|].
    intros d' channel (x & -> & _)%list_elem_of_fmap. done.
  - eapply (filter_map_sound POLONIEX); [|exact E]. intros t _. unfold poloniex_normalize_trade.
    solve_print POLONIEX.
Qed.

Lemma poloniex_replays : replays POLONIEX.
Proof.
  eapply (plain_replays POLONIEX PoloniexDecoder poloniex_normalize poloniex_prints PoloniexHooks); [|by eexists|done].
  intros ev. unfold poloniex_normalize, poloniex_normalize_trade. destruct ev; solve_steady.
Qed.

End Poloniex.
