(* ===== verification/Upbit.v ===== *)
(** * Upbit

    [src/aetelier-connect/src/framework/adapters/upbit.rs] with its wire types and decoder in
    [sources/upbit/]. *)
From Stdlib Require Import Ascii String.
From S2P Require Import Prelude Budget Strings Numeric Pairs Types Delta Model Feed Runtime Disconnect Reconnect Transport Drive Json Venue.
Local Open Scope N_scope.
Local Open Scope venue_scope.

Section Upbit.
Context {NU : Numeric}.

(** ** Wire types *)

Record UpbitBookUnit := { upu_ask_price : F64; upu_bid_price : F64; upu_ask_size : F64; upu_bid_size : F64 }.

Record UpbitOrderbook := {
  upb_code : string; upb_timestamp : N; upb_orderbook_units : list UpbitBookUnit
}.

Record UpbitTrade := {
  upt_code : string;
  upt_trade_price : F64;
  upt_trade_volume : F64;
  upt_ask_bid : string;
  upt_trade_timestamp : N;
  upt_sequential_id : N
}.

Inductive UpbitWssEvent :=
| UpBook (ob : UpbitOrderbook)
| UpTrade (t : UpbitTrade).

Class UpbitWire := {
  UpbitOrderbook_json :: FromJson UpbitOrderbook;
  UpbitTrade_json :: FromJson UpbitTrade
}.
Context {SJ : SerdeJson} {FT : FloatText} {UW : UpbitWire}.

(** ** Decoder *)

Definition UpbitDecoder_decode (text : string) : Result (option UpbitWssEvent) ExchangeError :=
  match json_err (from_str text) with
  | Err e => Err e
  | Ok v =>
    match get_str "type" v with
    | Some ty =>
      if String.eqb ty "orderbook" then
        match json_err (from_value v) with
        | Ok ob => Ok (Some (UpBook ob))
        | Err e => Err e
        end
      else if String.eqb ty "trade" then
        match json_err (from_value v) with
        | Ok tr => Ok (Some (UpTrade tr))
        | Err e => Err e
        end
      else Ok None
    | None => Ok None
    end
  end.

Definition UpbitDecoder : WssDecoder := {|
  wss_event := UpbitWssEvent; wss_decode := UpbitDecoder_decode
|}.

(** ** Protocol *)

Definition UPBIT_WSS_URL : string := "wss://api.upbit.com/websocket/v1".
Definition UPBIT_PING_SECS : N := 30.
Definition UPBIT_CODEC : SymbolCodec := QuoteFirst "-"%char.

Definition upbit_part (ty : string) (codes : list string) : Value :=
  JObject [("type", JString ty); ("codes", JArray (JString <$> codes))].

Definition upbit_subscribe_frames (symbols : list string) (d : DeclaredSet) : list Message :=
  match if_declared d DeclOrderbook (upbit_part "orderbook" symbols) ++
        if_declared d DeclTrades (upbit_part "trade" symbols) with
  | [] => []
  | parts =>
    [MsgText (to_text (JArray ([JObject [("ticket", JString "aetelier-ingest")]] ++ parts ++
                               [JObject [("format", JString "DEFAULT")]])))]
  end.

Definition UpbitHooks : ProtocolHooks := {|
  endpoint := UPBIT_WSS_URL;
  subscribe_frames := upbit_subscribe_frames;
  unsubscribe_frames _ _ := [];
  heartbeat := HbText (seconds UPBIT_PING_SECS) "PING";
  classify_ack _ := NotAck;
  on_inbound_control _ := ControlIgnore;
  subscribe_ack_deadline := None;
  connection_lifetime := None;
  stale_after := DEFAULT_STALE_AFTER;
  frame_codec := PlainText;
  prepare := Ok Prepared_default
|}.

(** ** Normalizer *)

Definition upbit_side (ask_bid : string) : option TradeSide :=
  if eq_ignore_ascii_case ask_bid "BID" then Some Buy
  else if eq_ignore_ascii_case ask_bid "ASK" then Some Sell
  else None.

Definition upbit_book (ob : UpbitOrderbook) : NormalizedDelta :=
  ws_delta (upb_code ob)
    ((fun u => (f64_to_string (upu_bid_price u), f64_to_string (upu_bid_size u))) <$> upb_orderbook_units ob)
    ((fun u => (f64_to_string (upu_ask_price u), f64_to_string (upu_ask_size u))) <$> upb_orderbook_units ob)
    (upb_timestamp ob) 0 (epoch_to_us (upb_timestamp ob)) None [] true.

Definition upbit_trade_event (t : UpbitTrade) : Counted DomainEvent :=
  let_some p := decode UPBIT_CODEC (upt_code t) in
  let_some side := upbit_side (upt_ask_bid t) in
  keep (TradeEvent
    (ws_trade "upbit" (epoch_to_us (upt_trade_timestamp t)) p side
       (f64_to_decimal (upt_trade_volume t)) (f64_to_decimal (upt_trade_price t))
       (pretty (upt_sequential_id t)))
    (Some (upt_sequential_id t))).

Definition upbit_normalize (ev : UpbitWssEvent) (m : SourceMetrics) : SourceMetrics * list DomainEvent :=
  match ev with
  | UpBook ob => (m, [Book (upbit_book ob)])
  | UpTrade t => one_print (upbit_trade_event t) m
  end.

Definition upbit_prints (ev : UpbitWssEvent) : list string :=
  match ev with UpTrade t => [upt_code t] | UpBook _ => [] end.

Definition upbit_socket : Socket := counting_socket UpbitHooks UpbitDecoder upbit_normalize upbit_prints.

(** ** Adapter *)

Definition UPBIT_PROFILE : ExchangeProfile := {|
  profile_id := "upbit"; symbol_codec := UPBIT_CODEC;
  profile_budget := {|
    max_connections := None; max_streams_per_socket := None;
    subscribe_rate := [{| rw_max := 5; rw_per := seconds 1 |}; {| rw_max := 100; rw_per := seconds 60 |}];
    connect_attempt_rate := None; Budget.connection_lifetime := None |};
  schema_version := 1; protocol_revision := "upbit-v1"
|}.

Definition UPBIT : ExchangeAdapter := {|
  venue_id := "upbit"; profile := UPBIT_PROFILE; rest_seeder := None;
  book_model _ := FullRefresh;
  supported_datatypes := default_datatypes; resubscribe_replays_trades := false;
  max_declared_depth := None; supports_environment := production_only;
  datatype_cadence := no_cadence;
  sockets _ _ _ := [upbit_socket];
  subscribe_frames_preview := preview UpbitHooks;
  replay_frame := replay_socket upbit_socket;
  replay_seed := no_replay_seed "upbit"
|}.

(** ** The promise *)

Lemma upbit_sound : adapter_sound UPBIT.
Proof.
  split_and!; [done|done|]. intros e symbols d. apply Forall_singleton.
  intros [ob|t] m m' des E; simpl in E.
  - injection E as <- <-. exists 0%nat. apply (books_sound UPBIT m [_]); [set_solver|].
    intros d' channel ->%list_elem_of_singleton. done.
  - apply (one_print_sound UPBIT _ (upbit_trade_event t)); [|done].
    unfold upbit_trade_event. solve_print UPBIT.
Qed.

Lemma upbit_replays : replays UPBIT.
Proof.
  eapply (plain_replays UPBIT UpbitDecoder upbit_normalize upbit_prints UpbitHooks); [|by eexists|done].
  intros ev. unfold upbit_normalize, upbit_trade_event. destruct ev; solve_steady.
Qed.

End Upbit.
