(* ===== verification/Htx.v ===== *)
(** * HTX

    [src/aetelier-connect/src/framework/adapters/htx.rs] with its wire types and decoder in
    [sources/htx/].  Frames are compressed, the server pings, and the books are seeded by
    requests on the socket. *)
From Stdlib Require Import Ascii String.
From S2P Require Import Prelude Budget Strings Numeric Pairs Types Delta Model Feed Runtime Disconnect Reconnect Transport Drive Json Venue.
Local Open Scope N_scope.
Local Open Scope venue_scope.

Section Htx.
Context {NU : Numeric}.

(** ** Wire types *)

Record HtxLevel := { htl_price : F64; htl_size : F64 }.

Record HtxMbpTick := {
  htx_seq_num : N;
  htx_prev_seq_num : option N;
  htx_bids : list HtxLevel;
  htx_asks : list HtxLevel
}.

Record HtxMbpUpdate := { htu_ch : string; htu_ts : N; htu_tick : HtxMbpTick }.
Record HtxMbpSnapshot := { hts_rep : string; hts_ts : N; hts_data : HtxMbpTick }.

Record HtxTradeDetail := {
  htd_ts : N; htd_trade_id : N; htd_price : F64; htd_amount : F64; htd_direction : string
}.
Record HtxTradeTick := { htk_data : list HtxTradeDetail }.
Record HtxTradeFrame := { htf_ch : string; htf_tick : HtxTradeTick }.

Inductive HtxWssEvent :=
| HtxUpdate (u : HtxMbpUpdate)
| HtxSnapshot (s : HtxMbpSnapshot)
| HtxTrade (f : HtxTradeFrame).

Class HtxWire := {
  HtxMbpUpdate_json :: FromJson HtxMbpUpdate;
  HtxMbpSnapshot_json :: FromJson HtxMbpSnapshot;
  HtxTradeFrame_json :: FromJson HtxTradeFrame
}.
Context {SJ : SerdeJson} {FT : FloatText} {HW : HtxWire}.

(** ** Decoder *)

Definition HtxDecoder_decode (text : string) : Result (option HtxWssEvent) ExchangeError :=
  match json_err (from_str text) with
  | Err e => Err e
  | Ok v =>
    match get_str "rep" v with
    | Some rep =>
      if str_contains ".mbp." rep then
        match json_err (from_value v) with
        | Ok s => Ok (Some (HtxSnapshot s))
        | Err e => Err e
        end
      else Ok None
    | None =>
      match get_str "ch" v with
      | Some ch =>
        if str_contains ".mbp." ch then
          match json_err (from_value v) with
          | Ok u => Ok (Some (HtxUpdate u))
          | Err e => Err e
          end
        else if str_ends_with ".trade.detail" ch then
          match json_err (from_value v) with
          | Ok t => Ok (Some (HtxTrade t))
          | Err e => Err e
          end
        else Ok None
      | None => Ok None
      end
    end
  end.

Definition HtxDecoder : WssDecoder := {| wss_event := HtxWssEvent; wss_decode := HtxDecoder_decode |}.

(** ** Protocol *)

Definition HTX_WSS_URL : string := "wss://api.huobi.pro/ws".
Definition MBP_LEVELS : N := 150.
Definition HTX_CODEC : SymbolCodec := Concat false.

Definition mbp_channel (sym : string) : string := ("market." ++ sym ++ ".mbp." ++ pretty MBP_LEVELS)%string.
Definition trade_channel (sym : string) : string := ("market." ++ sym ++ ".trade.detail")%string.

(** [ch.split('.').nth(1)] *)
Definition symbol_from_channel (ch : string) : option string := str_split "."%char ch !! 1%nat.

Definition htx_frame (method channel id : string) : Message :=
  MsgText (to_text (JObject [(method, JString channel); ("id", JString id)])).

Definition htx_subscribe_frames (symbols : list string) (d : DeclaredSet) : list Message :=
  s ← symbols;
  if_declared d DeclOrderbook (htx_frame "sub" (mbp_channel s) ("mbp-" ++ s)) ++
  if_declared d DeclTrades (htx_frame "sub" (trade_channel s) ("trd-" ++ s)).

Definition htx_on_inbound_control (text : string) : ControlAction :=
  match from_str text with
  | Ok v =>
    match get "ping" v with
    | Some ping => Reply (MsgText (to_text (JObject [("pong", ping)])))
    | None => ControlIgnore
    end
  | Err _ => ControlIgnore
  end.

Definition htx_prepare (symbols : list string) (d : DeclaredSet) : Result Prepared ExchangeError :=
  if negb (declared_contains DeclOrderbook d) then Ok Prepared_default
  else Ok {|
    endpoint_override := None; heartbeat_override := None;
    extra_frames := (fun s => htx_frame "req" (mbp_channel s) ("req-" ++ s)) <$> symbols;
    extra_frames_delay := Some (seconds 3)
  |}.

(** [HtxHooks::new(symbols).with_declared(declared)] *)
Definition HtxHooks (symbols : list string) (d : DeclaredSet) : ProtocolHooks := {|
  endpoint := HTX_WSS_URL;
  subscribe_frames := htx_subscribe_frames;
  unsubscribe_frames _ _ := [];
  heartbeat := NoHeartbeat;
  classify_ack _ := NotAck;
  on_inbound_control := htx_on_inbound_control;
  subscribe_ack_deadline := None;
  connection_lifetime := None;
  stale_after := DEFAULT_STALE_AFTER;
  frame_codec := Gzip;
  prepare := htx_prepare symbols d
|}.

(** ** Normalizer *)

Definition htx_levels (side : list HtxLevel) : list (string * string) :=
  (fun l => (f64_to_string (htl_price l), f64_to_string (htl_size l))) <$> side.

Definition htx_to_delta (sym : string) (tick : HtxMbpTick) (ts : N) (snapshot : bool) : NormalizedDelta :=
  ws_delta sym (htx_levels (htx_bids tick)) (htx_levels (htx_asks tick)) (htx_seq_num tick)
    (default 0 (htx_prev_seq_num tick)) (epoch_to_us ts) None [] snapshot.

Definition htx_book (ch : string) (tick : HtxMbpTick) (ts : N) (snapshot : bool) : list NormalizedDelta :=
  match symbol_from_channel ch with
  | Some sym => [htx_to_delta sym tick ts snapshot]
  | None => []
  end.

Definition htx_normalize_trade (p : TradingPair) (d : HtxTradeDetail) : Counted DomainEvent :=
  let_some side := TradeSide_from_str_loose (htd_direction d) in
  keep (TradeEvent
    (ws_trade "htx" (epoch_to_us (htd_ts d)) p side (f64_to_decimal (htd_amount d))
       (f64_to_decimal (htd_price d)) (pretty (htd_trade_id d)))
    (Some (htd_trade_id d))).

(** A trade frame lists its prints newest first. *)
Definition htx_normalize (ev : HtxWssEvent) (m : SourceMetrics) : SourceMetrics * list DomainEvent :=
  match ev with
  | HtxSnapshot s => (m, Book <$> htx_book (hts_rep s) (hts_data s) (hts_ts s) true)
  | HtxUpdate u => (m, Book <$> htx_book (htu_ch u) (htu_tick u) (htu_ts u) false)
  | HtxTrade f =>
    match symbol_from_channel (htf_ch f) with
    | None => (add_dropped_frames 1 m, [])
    | Some sym =>
      match decode HTX_CODEC sym with
      | None => (add_dropped_frames 1 m, [])
      | Some p => filter_map (htx_normalize_trade p) (rev (htk_data (htf_tick f))) m
      end
    end
  end.

Definition htx_prints (ev : HtxWssEvent) : list string :=
  match ev with
  | HtxTrade f =>
    (fun _ => default ""%string (symbol_from_channel (htf_ch f))) <$> rev (htk_data (htf_tick f))
  | _ => []
  end.

Definition htx_socket (symbols : list string) (d : DeclaredSet) : Socket :=
  counting_socket (HtxHooks symbols d) HtxDecoder htx_normalize htx_prints.

(** ** Adapter *)

Definition HTX_PROFILE : ExchangeProfile := {|
  profile_id := "htx"; symbol_codec := HTX_CODEC;
  profile_budget := {|
    max_connections := None; max_streams_per_socket := Some 100; subscribe_rate := [];
    connect_attempt_rate := None; Budget.connection_lifetime := None |};
  schema_version := 1; protocol_revision := "htx-v2"
|}.

Definition HTX : ExchangeAdapter := {|
  venue_id := "htx"; profile := HTX_PROFILE; rest_seeder := None;
  book_model _ := SeqDelta ExactPrev ReqOnSocket;
  supported_datatypes := default_datatypes; resubscribe_replays_trades := false;
  max_declared_depth := None; supports_environment := production_only;
  datatype_cadence := no_cadence;
  sockets _ symbols d := [htx_socket symbols d];
  subscribe_frames_preview symbols d := preview (HtxHooks symbols d) symbols d;
  replay_frame := replay_socket (htx_socket [] declared_all);
  replay_seed := no_replay_seed "htx"
|}.

(** ** The promise *)

Lemma htx_book_fits ch tick ts snapshot d :
  d ∈ htx_book ch tick ts snapshot -> book_fits (SeqDelta ExactPrev ReqOnSocket) d.
Proof.
  unfold htx_book. destruct (symbol_from_channel ch); [|set_solver].
  by intros ->%list_elem_of_singleton.
Qed.

Lemma htx_sound : adapter_sound HTX.
Proof.
  split_and!; [done|done|]. intros e symbols d. apply Forall_singleton.
  intros [u|s|f] m m' des E;
    cbn [sk_normalizer htx_socket counting_socket socket normalize htx_normalize] in E.
  - injection E as <- <-. exists 0%nat. apply (books_sound HTX); [set_solver|].
    intros d' channel. apply htx_book_fits.
  - injection E as <- <-. exists 0%nat. apply (books_sound HTX); [set_solver|].
    intros d' channel. apply htx_book_fits.
  - cbn [sk_prints htx_socket counting_socket socket htx_prints].
    destruct (symbol_from_channel _) as [sym|];
      [|injection E as <- <-; exists 1%nat; apply frame_dropped].
    destruct (decode HTX_CODEC sym) as [p|] eqn:Ep;
      [|injection E as <- <-; exists 1%nat; apply frame_dropped].
    apply (filter_map_sound HTX _ (htx_normalize_trade p)); [|exact E].
    intros t _. unfold htx_normalize_trade. solve_print HTX.
Qed.

Lemma htx_replays : replays HTX.
Proof.
  eapply (plain_replays HTX HtxDecoder htx_normalize htx_prints (HtxHooks [] declared_all)); [|by eexists|done].
  intros ev. unfold htx_normalize, htx_normalize_trade. destruct ev; solve_steady.
Qed.

End Htx.
