(* ===== verification/Kucoin.v ===== *)
(** * KuCoin

    [src/aetelier-connect/src/framework/adapters/kucoin.rs] with its wire types, decoder and
    REST snapshot in [sources/kucoin/].  The endpoint and the ping interval of a connection come
    from a request made before it is opened. *)
From Stdlib Require Import Ascii String.
From S2P Require Import Prelude Budget Strings Numeric Pairs Types Delta Model Feed Runtime Disconnect Reconnect Transport Drive Json Venue.
Local Open Scope N_scope.
Local Open Scope venue_scope.

Section Kucoin.
Context {NU : Numeric}.

(** ** Wire types *)

Record KucoinChange := { kuc_price : string; kuc_size : string; kuc_sequence : string }.
Record KucoinChanges := { kuc_asks : list KucoinChange; kuc_bids : list KucoinChange }.

Record KucoinL2Data := {
  kul_sequence_start : N;
  kul_sequence_end : N;
  kul_symbol : string;
  kul_changes : KucoinChanges;
  kul_time : N
}.

Record KucoinMatchData := {
  kum_symbol : string; kum_side : string; kum_price : string; kum_size : string;
  kum_time : string; kum_trade_id : string
}.

(** The body of the snapshot request. *)
Record KucoinRestData := {
  kur_sequence : string; kur_bids : list (string * string); kur_asks : list (string * string)
}.
Record KucoinRestResponse := { kur_data : option KucoinRestData }.

Inductive KucoinWssEvent :=
| KuLevel2 (d : KucoinL2Data)
| KuMatch (m : KucoinMatchData).

Class KucoinWire := {
  KucoinL2Data_json :: FromJson KucoinL2Data;
  KucoinMatchData_json :: FromJson KucoinMatchData;
  KucoinRestResponse_json :: FromJson KucoinRestResponse
}.
Context {SJ : SerdeJson} {KW : KucoinWire}.

(** ** Decoder *)

Definition KucoinDecoder_decode (text : string) : Result (option KucoinWssEvent) ExchangeError :=
  match json_err (from_str text) with
  | Err e => Err e
  | Ok v =>
    if bool_decide (get_str "type" v = Some "message"%string) then
      let topic := default ""%string (get_str "topic" v) in
      match get "data" v with
      | None => Ok None
      | Some data =>
        if String.prefix "/market/level2" topic then
          match json_err (from_value data) with
          | Ok d => Ok (Some (KuLevel2 d))
          | Err e => Err e
          end
        else if String.prefix "/market/match" topic then
          match json_err (from_value data) with
          | Ok d => Ok (Some (KuMatch d))
          | Err e => Err e
          end
        else Ok None
      end
    else Ok None
  end.

Definition KucoinDecoder : WssDecoder := {|
  wss_event := KucoinWssEvent; wss_decode := KucoinDecoder_decode
|}.

(** ** Protocol *)

Definition DEFAULT_PING_MS : N := 18000.
Definition KUCOIN_CODEC : SymbolCodec := Hyphen.

Definition kucoin_invalid (msg : string) : ExchangeError := IoError msg.

Local Open Scope result_scope.

(** [o.ok_or_else(|| invalid(msg))] *)
Definition bullet_field {A} (msg : string) (o : option A) : Result A ExchangeError :=
  ok_or (kucoin_invalid ("bullet: " ++ msg)%string) o.

Definition parse_bullet (body connect_id : string) : Result Prepared ExchangeError :=
  let? v := json_err (from_str body) in
  let? data := bullet_field "missing data" (get "data" v) in
  let? token := bullet_field "missing token" (get_str "token" data) in
  let? server := bullet_field "no instanceServers"
    (s ← get "instanceServers" data; a ← as_array s; head a) in
  let? ep := bullet_field "missing endpoint" (get_str "endpoint" server) in
  let ping_ms := default DEFAULT_PING_MS (p ← get "pingInterval" server; as_number_u64 p) in
  Ok {|
    endpoint_override := Some (ep ++ "?token=" ++ token ++ "&connectId=" ++ connect_id)%string;
    heartbeat_override := Some (HbText (millis ping_ms)
      (to_text (JObject [("id", JString "aetelier-hb"); ("type", JString "ping")])));
    extra_frames := []; extra_frames_delay := None
  |}.

Definition kucoin_frame (id topic : string) : Message :=
  MsgText (to_text (JObject [
    ("id", JString id); ("type", JString "subscribe"); ("topic", JString topic);
    ("privateChannel", JBool false); ("response", JBool true)])).

Definition kucoin_subscribe_frames (symbols : list string) (d : DeclaredSet) : list Message :=
  let csv := join "," symbols in
  if_declared d DeclOrderbook (kucoin_frame "sub-l2" ("/market/level2:" ++ csv)) ++
  if_declared d DeclTrades (kucoin_frame "sub-match" ("/market/match:" ++ csv)).

Definition kucoin_budget : ConnectionBudget := {|
  max_connections := None; max_streams_per_socket := None; subscribe_rate := [];
  connect_attempt_rate := None; Budget.connection_lifetime := Some (seconds (24 * 60 * 60))
|}.

(** [bullet] is the body of the token request, or the text of its failure. *)
Definition KucoinHooks (connect_id : string) (bullet : Result string string) : ProtocolHooks := {|
  endpoint := "wss://ws-api-spot.kucoin.com/";
  subscribe_frames := kucoin_subscribe_frames;
  unsubscribe_frames _ _ := [];
  heartbeat := NoHeartbeat;
  classify_ack _ := NotAck;
  on_inbound_control _ := ControlIgnore;
  subscribe_ack_deadline := None;
  connection_lifetime := Budget.connection_lifetime kucoin_budget;
  stale_after := DEFAULT_STALE_AFTER;
  frame_codec := PlainText;
  prepare :=
    match bullet with
    | Ok body => parse_bullet body connect_id
    | Err e => Err (kucoin_invalid e)
    end
|}.

(** ** Normalizer *)

Definition kucoin_levels (side : list KucoinChange) : list (string * string) :=
  (fun c => (kuc_price c, kuc_size c)) <$> side.

Definition kucoin_to_delta (d : KucoinL2Data) : NormalizedDelta :=
  ws_delta (kul_symbol d) (kucoin_levels (kuc_bids (kul_changes d)))
    (kucoin_levels (kuc_asks (kul_changes d))) (kul_sequence_end d) (kul_sequence_start d)
    (epoch_to_us (kul_time d)) None [] false.

Definition kucoin_trade_event (t : KucoinMatchData) : Counted DomainEvent :=
  let_some p := decode KUCOIN_CODEC (kum_symbol t) in
  let_some amount := parse_dec (kum_size t) in
  let_some price := parse_dec (kum_price t) in
  let_some side := TradeSide_from_str_loose (kum_side t) in
  keep (TradeEvent
    (ws_trade "kucoin" (epoch_to_us (default 0 (parse_u64 (kum_time t)))) p side amount price
       (kum_trade_id t))
    None).

Definition kucoin_normalize (ev : KucoinWssEvent) (m : SourceMetrics) : SourceMetrics * list DomainEvent :=
  match ev with
  | KuLevel2 d => (m, [Book (kucoin_to_delta d)])
  | KuMatch t => one_print (kucoin_trade_event t) m
  end.

Definition kucoin_prints (ev : KucoinWssEvent) : list string :=
  match ev with KuMatch t => [kum_symbol t] | KuLevel2 _ => [] end.

Definition kucoin_socket (connect_id : string) (bullet : Result string string) : Socket :=
  counting_socket (KucoinHooks connect_id bullet) KucoinDecoder kucoin_normalize kucoin_prints.

(** ** Snapshot *)

Definition kucoin_parse_snapshot (body sym : string) : Result NormalizedDelta ExchangeError :=
  let? resp := json_err (from_text body) in
  let? data := ok_or (IoError "kucoin level2: empty data") (kur_data resp) in
  let seq := default 0 (parse_u64 (kur_sequence data)) in
  Ok (ws_delta sym (kur_bids data) (kur_asks data) seq seq 0 None [] true).

Definition KUCOIN_REST_URL : string := "https://api.kucoin.com".
Definition KUCOIN_LEVEL2_PATH : string := "/api/v1/market/orderbook/level2_100".

Definition KucoinRestSnapshot : RestSeeder := {|
  seed_url sym := (KUCOIN_REST_URL ++ KUCOIN_LEVEL2_PATH ++ "?symbol=" ++ sym)%string;
  seed_read sym answer :=
    match answer with
    | Err e => Err (IoError e)
    | Ok body => kucoin_parse_snapshot body sym
    end
|}.

(** ** Adapter *)

Definition KUCOIN_PROFILE : ExchangeProfile := {|
  profile_id := "kucoin"; symbol_codec := KUCOIN_CODEC; profile_budget := kucoin_budget;
  schema_version := 1; protocol_revision := "kucoin-v1"
|}.

(** [connect_id] is drawn when the adapter is spawned. *)
Definition KUCOIN (connect_id : string) (bullet : Result string string) : ExchangeAdapter := {|
  venue_id := "kucoin"; profile := KUCOIN_PROFILE; rest_seeder := Some KucoinRestSnapshot;
  book_model _ := SeqDelta RangeInclusive RestSnapshot;
  supported_datatypes := default_datatypes; resubscribe_replays_trades := false;
  max_declared_depth := None; supports_environment := production_only;
  datatype_cadence := no_cadence;
  sockets _ _ _ := [kucoin_socket connect_id bullet];
  subscribe_frames_preview := preview (KucoinHooks "preview" bullet);
  replay_frame := replay_socket (kucoin_socket connect_id bullet);
  replay_seed raw wire_symbol :=
    match kucoin_parse_snapshot raw wire_symbol with Ok d => Ok (Some d) | Err e => Err e end
|}.

(** ** The promise *)

Lemma kucoin_sound connect_id bullet : adapter_sound (KUCOIN connect_id bullet).
Proof.
  split_and!; [done|done|]. intros e symbols d. apply Forall_singleton.
  intros [b|t] m m' des E; simpl in E.
  - injection E as <- <-. exists 0%nat.
    apply (books_sound (KUCOIN connect_id bullet) m [_]); [set_solver|].
    intros d' channel ->%list_elem_of_singleton. done.
  - apply (one_print_sound (KUCOIN connect_id bullet) _ (kucoin_trade_event t)); [|done].
    unfold kucoin_trade_event. solve_print (KUCOIN connect_id bullet).
Qed.

Lemma kucoin_replays connect_id bullet : replays (KUCOIN connect_id bullet).
Proof.
  eapply (plain_replays (KUCOIN connect_id bullet) KucoinDecoder kucoin_normalize kucoin_prints (KucoinHooks connect_id bullet)); [|by eexists|done].
  intros ev. unfold kucoin_normalize, kucoin_trade_event. destruct ev; solve_steady.
Qed.

End Kucoin.
