(* ===== verification/Bitso.v ===== *)
(** * Bitso

    [src/aetelier-connect/src/framework/adapters/bitso.rs] with its wire types, decoder and REST
    snapshot in [sources/bitso/].  The normalizer watches the sequence of the diff frames of
    every book: a jump becomes a [ConnectionGap] ahead of the frame. *)
From Stdlib Require Import Ascii String.
From S2P Require Import Prelude Budget Strings Numeric Pairs Types Delta Model Feed Runtime Disconnect Reconnect Transport Drive Json Venue.
Local Open Scope N_scope.
Local Open Scope venue_scope.

Section Bitso.
Context {NU : Numeric}.

(** ** Wire types *)

Record BitsoDiffOrder := {
  btsd_d : N;
  btsd_r : option string;
  btsd_a : option string;
  btsd_t : N;
  btsd_o : string;
  btsd_s : string
}.

Record BitsoDiffMessage := {
  btsd_book : string; btsd_payload : list BitsoDiffOrder; btsd_sequence : option N
}.

Record BitsoTrade := { btst_i : N; btst_a : string; btst_r : string; btst_t : N; btst_x : N }.
Record BitsoTradeMessage := { btst_book : string; btst_payload : list BitsoTrade }.

(** The body of the snapshot request. *)
Record BitsoEntry := { bte_price : string; bte_amount : string; bte_oid : string }.
Record BitsoPayload := { btp_bids : list BitsoEntry; btp_asks : list BitsoEntry }.
Record BitsoRestResponse := {
  btr_success : bool; btr_payload : option BitsoPayload; btr_error : option Value
}.

Inductive BitsoWssEvent :=
| BtsDiffOrders (m : BitsoDiffMessage)
| BtsTrades (m : BitsoTradeMessage).

Class BitsoWire := {
  BitsoDiffMessage_json :: FromJson BitsoDiffMessage;
  BitsoTradeMessage_json :: FromJson BitsoTradeMessage;
  BitsoRestResponse_json :: FromJson BitsoRestResponse
}.
Context {SJ : SerdeJson} {BW : BitsoWire}.

(** ** Decoder *)

Definition bitso_payload_is_array (v : Value) : bool :=
  match get "payload" v with Some p => is_array p | None => false end.

Definition BitsoDecoder_decode (text : string) : Result (option BitsoWssEvent) ExchangeError :=
  match json_err (from_str text) with
  | Err e => Err e
  | Ok v =>
    match get_str "type" v with
    | Some ty =>
      if String.eqb ty "diff-orders" then
        if negb (bitso_payload_is_array v) then Ok None
        else match json_err (from_value v) with
             | Ok m => Ok (Some (BtsDiffOrders m))
             | Err e => Err e
             end
      else if String.eqb ty "trades" then
        if negb (bitso_payload_is_array v) then Ok None
        else match json_err (from_value v) with
             | Ok m => Ok (Some (BtsTrades m))
             | Err e => Err e
             end
      else Ok None
    | None => Ok None
    end
  end.

Definition BitsoDecoder : WssDecoder := {|
  wss_event := BitsoWssEvent; wss_decode := BitsoDecoder_decode
|}.

(** ** Protocol *)

Definition BITSO_WSS_URL : string := "wss://ws.bitso.com".
Definition BITSO_CODEC : SymbolCodec := Underscore false.

Definition bitso_frame (book ty : string) : Message :=
  MsgText (to_text (JObject [
    ("action", JString "subscribe"); ("book", JString book); ("type", JString ty)])).

Definition bitso_subscribe_frames (symbols : list string) (d : DeclaredSet) : list Message :=
  s ← symbols;
  if_declared d DeclOrderbook (bitso_frame s "diff-orders") ++
  if_declared d DeclTrades (bitso_frame s "trades").

Definition BitsoHooks : ProtocolHooks := {|
  endpoint := BITSO_WSS_URL;
  subscribe_frames := bitso_subscribe_frames;
  unsubscribe_frames _ _ := [];
  heartbeat := NoHeartbeat;
  classify_ack _ := NotAck;
  on_inbound_control _ := ControlIgnore;
  subscribe_ack_deadline := None;
  connection_lifetime := None;
  stale_after := DEFAULT_STALE_AFTER;
  frame_codec := PlainText;
  prepare := Ok Prepared_default
|}.

(** ** Normalizer *)

Record BitsoNormalizer := { bitso_metrics : SourceMetrics; last_seq : gmap string N }.

(** The frames lost ahead of a sequence, if any; the sequence is recorded in either case. *)
Definition observe_seq (book : string) (seq : N) (map : gmap string N) : gmap string N * option N :=
  let dropped :=
    match map !! book with
    | Some prev =>
      let jump := u64_saturating_sub seq (u64_saturating_add prev 1) in
      if 0 <? jump then Some jump else None
    | None => None
    end in
  (<[book := seq]> map, dropped).

(** [matches!(o.s, "cancelled" | "completed")] *)
Definition bitso_removed (status : string) : bool :=
  String.eqb status "cancelled" || String.eqb status "completed".

Definition bitso_order (o : BitsoDiffOrder) : L3Order := {|
  order_id := btsd_o o; l3_is_ask := negb (btsd_t o =? 0);
  l3_price := default ""%string (btsd_r o); l3_size := default ""%string (btsd_a o);
  removed := bitso_removed (btsd_s o)
|}.

Definition bitso_update_id (payload : list BitsoDiffOrder) : N :=
  fold_left (fun id o => N.max id (btsd_d o)) payload 0.

Definition bitso_to_delta (m : BitsoDiffMessage) : NormalizedDelta :=
  let id := bitso_update_id (btsd_payload m) in
  ws_delta (btsd_book m) [] [] id (default 0 (btsd_sequence m)) (epoch_to_us id) None
    (bitso_order <$> btsd_payload m) false.

Definition bitso_side (t : N) : option TradeSide :=
  if t =? 0 then Some Buy else if t =? 1 then Some Sell else None.

Definition bitso_normalize_trade (p : TradingPair) (t : BitsoTrade) : Counted DomainEvent :=
  let_some amount := parse_dec (btst_a t) in
  let_some price := parse_dec (btst_r t) in
  let_some side := bitso_side (btst_t t) in
  keep (TradeEvent
    (ws_trade "bitso" (epoch_to_us (btst_x t)) p side amount price (pretty (btst_i t))) None).

Definition bitso_normalize (ev : BitsoWssEvent) (s : BitsoNormalizer) : BitsoNormalizer * list DomainEvent :=
  match ev with
  | BtsDiffOrders m =>
    let '(map, dropped) :=
      match btsd_sequence m with
      | Some seq => observe_seq (btsd_book m) seq (last_seq s)
      | None => (last_seq s, None)
      end in
    ({| bitso_metrics := bitso_metrics s; last_seq := map |},
     (ConnectionGap <$> option_list dropped) ++ [Book (bitso_to_delta m)])
  | BtsTrades m =>
    let '(metrics, des) :=
      match decode BITSO_CODEC (btst_book m) with
      | None => (add_dropped_frames 1 (bitso_metrics s), [])
      | Some p => filter_map (bitso_normalize_trade p) (btst_payload m) (bitso_metrics s)
      end in
    ({| bitso_metrics := metrics; last_seq := last_seq s |}, des)
  end.

Definition bitso_prints (ev : BitsoWssEvent) : list string :=
  match ev with
  | BtsTrades m => (fun _ => btst_book m) <$> btst_payload m
  | BtsDiffOrders _ => []
  end.

Definition bitso_socket : Socket :=
  socket BitsoHooks BitsoDecoder BitsoNormalizer
    {| bitso_metrics := SourceMetrics_default; last_seq := ∅ |}
    bitso_normalize bitso_metrics bitso_prints.

(** ** Snapshot *)

Definition bitso_entries (is_ask : bool) (side : list BitsoEntry) : list L3Order :=
  (fun e => {| order_id := bte_oid e; l3_is_ask := is_ask; l3_price := bte_price e;
               l3_size := bte_amount e; removed := false |}) <$> side.

(** [body.chars().take(160)], counted in bytes. *)
Definition bitso_detail (resp : BitsoRestResponse) (body : string) : string :=
  match btr_error resp with Some e => to_text e | None => String.substring 0 160 body end.

Definition bitso_parse_snapshot (body sym : string) : Result NormalizedDelta ExchangeError :=
  match json_err (from_text body) with
  | Err e => Err e
  | Ok resp =>
    match btr_payload resp, btr_success resp with
    | Some p, true =>
      Ok (ws_delta sym [] [] 0 0 0 None
            (bitso_entries false (btp_bids p) ++ bitso_entries true (btp_asks p)) true)
    | _, _ =>
      Err (SnapshotUnavailable
             ("bitso order_book for '" ++ sym ++ "': " ++ bitso_detail resp body)%string)
    end
  end.

Definition BITSO_REST_URL : string := "https://api.bitso.com".
Definition BITSO_ORDERBOOK_PATH : string := "/v3/order_book".

Definition BitsoRestSnapshot : RestSeeder := {|
  seed_url sym :=
    (BITSO_REST_URL ++ BITSO_ORDERBOOK_PATH ++ "?book=" ++ sym ++ "&aggregate=false")%string;
  seed_read sym answer :=
    match answer with
    | Err e => Err (IoError e)
    | Ok body => bitso_parse_snapshot body sym
    end
|}.

(** ** Adapter *)

Definition BITSO_PROFILE : ExchangeProfile := {|
  profile_id := "bitso"; symbol_codec := BITSO_CODEC; profile_budget := open_budget;
  schema_version := 1; protocol_revision := "bitso-v3"
|}.

Definition BITSO : ExchangeAdapter := {|
  venue_id := "bitso"; profile := BITSO_PROFILE; rest_seeder := Some BitsoRestSnapshot;
  book_model _ := L3 RestSnapshot;
  supported_datatypes := default_datatypes; resubscribe_replays_trades := false;
  max_declared_depth := None; supports_environment := production_only;
  datatype_cadence := no_cadence;
  sockets _ _ _ := [bitso_socket];
  subscribe_frames_preview := preview BitsoHooks;
  replay_frame := replay_socket bitso_socket;
  replay_seed raw wire_symbol :=
    match bitso_parse_snapshot raw wire_symbol with Ok d => Ok (Some d) | Err e => Err e end
|}.

(** ** The promise *)

Lemma observe_seq_positive book seq map n : (observe_seq book seq map).2 = Some n -> 0 < n.
Proof.
  unfold observe_seq. simpl. destruct (map !! book); [|done].
  destruct (N.ltb_spec 0 (u64_saturating_sub seq (u64_saturating_add n0 1))); congruence.
Qed.

Lemma bitso_sound : adapter_sound BITSO.
Proof.
  split_and!; [done|done|]. intros e symbols d. apply Forall_singleton.
  intros [m|m] s s' des E; cbn [sk_normalizer bitso_socket socket normalize bitso_normalize] in E.
  - destruct (match btsd_sequence m with Some _ => _ | None => _ end) as [map dropped] eqn:Eo.
    injection E as <- <-. exists 0%nat. apply (gap_then_books_sound BITSO (bitso_metrics s) dropped [_]); [set_solver| |].
    + intros n ->. destruct (btsd_sequence m); [|done].
      apply (observe_seq_positive (btsd_book m) n0 (last_seq s)). by rewrite Eo.
    + intros d' channel ->%list_elem_of_singleton. done.
  - cbn [sk_metrics sk_prints bitso_socket socket bitso_prints].
    destruct (decode BITSO_CODEC _) as [p|] eqn:Ep;
      [|injection E as <- <-; exists 1%nat; apply frame_dropped].
    destruct (filter_map _ _ _) as [m' des'] eqn:Ef. injection E as <- <-.
    apply (filter_map_sound BITSO _ (bitso_normalize_trade p)); [|exact Ef].
    intros t _. unfold bitso_normalize_trade. solve_print BITSO.
Qed.

Lemma bitso_replays : replays BITSO.
Proof.
  intros e symbols d sk raw ev s ->%list_elem_of_singleton Hdec.
  eexists. split; [exact (replay_socket_event bitso_socket raw ev Hdec)|]. apply same_replays.
  unfold live. cbn [sk_normalizer sk_start bitso_socket socket normalize].
  destruct ev as [m|m]; cbn [bitso_normalize].
  - destruct (match btsd_sequence m with Some _ => _ | None => _ end) as [map1 gap1].
    destruct (match btsd_sequence m with Some _ => _ | None => _ end) as [map2 gap2].
    cbn [snd]. by rewrite !without_gaps_app, !without_gaps_gap.
  - destruct (decode BITSO_CODEC (btst_book m)) as [p|]; [|done].
    pose proof (steady_filter_map (bitso_normalize_trade p) (btst_payload m)
      ltac:(intros t; unfold bitso_normalize_trade; solve_steady)
      (bitso_metrics s) SourceMetrics_default) as Hf. cbn [bitso_metrics].
    destruct (filter_map _ _ (bitso_metrics s)), (filter_map _ _ SourceMetrics_default).
    simpl in *. by subst.
Qed.

(** ** What the gaps add up to *)

(** The sequences of the diff frames of a run, with their books. *)
Definition sequenced (ev : BitsoWssEvent) : option (string * N) :=
  match ev with
  | BtsDiffOrders m => seq ← btsd_sequence m; Some (btsd_book m, seq)
  | BtsTrades _ => None
  end.

(** The gaps reported, with the book whose frame reported them. *)
Fixpoint observe_all (l : list (string * N)) (map : gmap string N) : list (string * N) :=
  match l with
  | [] => []
  | (book, seq) :: l =>
    let '(map, dropped) := observe_seq book seq map in
    ((fun n => (book, n)) <$> option_list dropped) ++ observe_all l map
  end.

Definition gap_of (de : DomainEvent) : option N :=
  match de with ConnectionGap n => Some n | _ => None end.

Lemma gap_of_trades {A} (sym : A -> string) (f : A -> Counted DomainEvent) l m :
  (forall x, x ∈ l -> print_sound BITSO (sym x) (f x)) -> omap gap_of (filter_map f l m).2 = [].
Proof.
  revert m. induction l as [|x l IH]; intros m Hl; [done|]. simpl.
  assert (forall m, omap gap_of (filter_map f l m).2 = []) as IH'.
  { intros m'. apply IH. intros y Hy. apply Hl. by right. }
  destruct (Hl x ltac:(left) m) as [(t & seq & E & _)|E]; rewrite E.
  - specialize (IH' m). by destruct (filter_map f l m).
  - specialize (IH' (add_dropped_frames 1 m)). by destruct (filter_map f l _).
Qed.

Lemma bitso_trade_print p book t :
  decode BITSO_CODEC book = Some p -> print_sound BITSO book (bitso_normalize_trade p t).
Proof. intros Hp. unfold bitso_normalize_trade. solve_print BITSO. Qed.

Lemma normalize_gaps ev s :
  omap gap_of (bitso_normalize ev s).2 =
    match sequenced ev with
    | Some (book, seq) => option_list (observe_seq book seq (last_seq s)).2
    | None => []
    end /\
  last_seq (bitso_normalize ev s).1 =
    match sequenced ev with
    | Some (book, seq) => (observe_seq book seq (last_seq s)).1
    | None => last_seq s
    end.
Proof.
  destruct ev as [m|m]; cbn [bitso_normalize sequenced].
  - destruct (btsd_sequence m) as [seq|]; simpl; [|done].
    destruct (match last_seq s !! btsd_book m with Some _ => _ | None => _ end); done.
  - destruct (decode BITSO_CODEC (btst_book m)) as [p|] eqn:Ep; [|done].
    pose proof (gap_of_trades (fun _ => btst_book m) (bitso_normalize_trade p) (btst_payload m)
      (bitso_metrics s) (fun x _ => bitso_trade_print p _ x Ep)) as Hg.
    destruct (filter_map _ _ _) as [m' des]. done.
Qed.

(** The gaps of a run are those of its sequences. *)
Lemma run_gaps (evs : list BitsoWssEvent) (s : BitsoNormalizer) :
  omap gap_of (normalize_all bitso_socket evs s).2 =
  snd <$> observe_all (omap sequenced evs) (last_seq s).
Proof.
  revert s. induction evs as [|ev evs IH]; intros s; [done|].
  destruct (normalize_gaps ev s) as [Hg Hl].
  cbn [normalize_all bitso_socket socket sk_normalizer normalize] in *.
  destruct (bitso_normalize ev s) as [s1 des]. specialize (IH s1). simpl in Hg, Hl.
  destruct (normalize_all bitso_socket evs s1) as [s2 des2] eqn:E2. cbn [snd] in *.
  rewrite omap_app, Hg, IH, Hl. csimpl. destruct (sequenced ev) as [[book seq]|]; [|done]. simpl.
  rewrite fmap_app. f_equal.
  by destruct (match last_seq s !! book with Some _ => _ | None => _ end).
Qed.

(** A frame reports the ids between the one before it and its own. *)
Lemma observe_next b prev seq map :
  map !! b = Some prev -> prev < seq -> seq < u64_modulus ->
  total (of_key b ((fun n => (b, n)) <$> option_list (observe_seq b seq map).2)) = seq - prev - 1.
Proof.
  intros Hm Hlt Hb. unfold observe_seq. rewrite Hm. simpl.
  unfold u64_saturating_sub, u64_saturating_add. rewrite N.min_l by (unfold u64_max, u64_modulus in *; lia).
  destruct (N.ltb_spec 0 (seq - (prev + 1))); simpl; [|unfold of_key; simpl; lia].
  rewrite of_key_hit. unfold total, of_key. simpl. lia.
Qed.

Lemma observe_other b b' seq map :
  b' <> b ->
  (observe_seq b' seq map).1 !! b = map !! b /\
  of_key b ((fun n => (b', n)) <$> option_list (observe_seq b' seq map).2) = [].
Proof.
  intros H. unfold observe_seq. simpl. rewrite lookup_insert_ne by done. split; [done|].
  destruct (match map !! b' with Some _ => _ | None => _ end); [|done]. simpl. by rewrite of_key_miss.
Qed.

Lemma observe_all_total b l map prev :
  map !! b = Some prev -> rising prev (of_key b l) -> Forall (fun n => n < u64_modulus) (of_key b l) ->
  prev + total (of_key b (observe_all l map)) + N.of_nat (length (of_key b l)) =
  List.last (of_key b l) prev.
Proof.
  revert map prev. induction l as [|[b' seq] l IH]; intros map prev Hm Hr Hb; [simpl; lia|].
  cbn [observe_all]. destruct (observe_seq b' seq map) as [map' dropped] eqn:Eo.
  rewrite of_key_app, total_app. destruct (decide (b' = b)) as [->|Hne].
  - rewrite of_key_hit in *. destruct Hr as [Hlt Hr]. apply Forall_cons in Hb as [Hs Hb].
    pose proof (observe_next b prev seq map Hm Hlt Hs) as Hd. rewrite Eo in Hd. cbn [snd] in Hd.
    rewrite Hd. assert (map' !! b = Some seq) as Hm'.
    { unfold observe_seq in Eo. injection Eo as <- _. apply lookup_insert_eq. }
    pose proof (IH map' seq Hm' Hr Hb) as IH'. rewrite (last_cons_default prev seq) in *.
    simpl length. lia.
  - destruct (observe_other b b' seq map Hne) as [Hl Ho]. rewrite Eo in Hl, Ho. simpl in Hl, Ho.
    rewrite Ho, of_key_miss in * by done. simpl total. rewrite N.add_0_l. apply IH; [congruence|done..].
Qed.

(** From a map that does not know the book, the first frame reports nothing. *)
Lemma observe_all_fresh b l map first rest :
  map !! b = None -> of_key b l = first :: rest -> rising first rest ->
  Forall (fun n => n < u64_modulus) rest ->
  first + total (of_key b (observe_all l map)) + N.of_nat (length rest) = List.last rest first.
Proof.
  revert map. induction l as [|[b' seq] l IH]; intros map Hm Hl Hr Hb; [done|].
  cbn [observe_all]. destruct (observe_seq b' seq map) as [map' dropped] eqn:Eo.
  rewrite of_key_app, total_app. destruct (decide (b' = b)) as [->|Hne].
  - rewrite of_key_hit in Hl. injection Hl as -> Hl. unfold observe_seq in Eo. rewrite Hm in Eo.
    injection Eo as <- <-. simpl option_list. cbn [fmap list_fmap]. rewrite <- Hl in *.
    apply (observe_all_total b l); [apply lookup_insert_eq|done..].
  - destruct (observe_other b b' seq map Hne) as [Hn Ho]. rewrite Eo in Hn, Ho. simpl in Hn, Ho.
    rewrite Ho. rewrite of_key_miss in Hl by done. simpl total. rewrite N.add_0_l.
    apply IH; [congruence|done..].
Qed.

(** C25: the gaps a Bitso connection reports add up, book by book: over any run of frames from a
    fresh normalizer, the [ConnectionGap] events are the reports of the sequence watch, and for a
    book whose sequences rise, the first id, plus the ids reported lost for that book, plus the
    frames that followed the first, give the last id.  So no id between two frames is left out and
    none is counted twice, however the frames of other books interleave. *)
Theorem bitso_gap_accounting (evs : list BitsoWssEvent) (b : string) (first : N) (rest : list N)
    (Hb : of_key b (omap sequenced evs) = first :: rest) (Hr : rising first rest)
    (Hw : Forall (fun n => n < u64_modulus) rest) :
  omap gap_of (normalize_all bitso_socket evs (sk_start bitso_socket)).2 =
    (snd <$> observe_all (omap sequenced evs) ∅) /\
  first + total (of_key b (observe_all (omap sequenced evs) ∅)) + N.of_nat (length rest) =
    List.last rest first.
Proof.
  split; [apply run_gaps|]. by apply observe_all_fresh.
Qed.
End Bitso.

(** ** An example *)

#[local] Existing Instance decimal_numeric.
#[local] Instance silent_json : SerdeJson := {
  from_str _ := Err "none"%string; to_text _ := ""%string
}.
#[local] Instance silent A : FromJson A | 10 := {
  from_text _ := Err "none"%string; from_value _ := Err "none"%string
}.
#[local] Instance silent_wire : BitsoWire. Proof. split; apply _. Defined.

Definition example_frame (book : string) (seq : N) : BitsoWssEvent :=
  BtsDiffOrders {| btsd_book := book; btsd_payload := []; btsd_sequence := Some seq |}.

(** Frames 5, 6 and 9 of one book around frames 100 and 104 of another: the ids 7 and 8 of the
    first are reported. *)
Lemma bitso_gap_accounting_witness :
  let evs := [example_frame "btc_mxn" 5; example_frame "eth_mxn" 100; example_frame "btc_mxn" 6;
              example_frame "eth_mxn" 104; example_frame "btc_mxn" 9] in
  omap gap_of (normalize_all bitso_socket evs (sk_start bitso_socket)).2 =
    (snd <$> observe_all (omap sequenced evs) ∅) /\
  5 + total (of_key "btc_mxn" (observe_all (omap sequenced evs) ∅)) + 2 = 9.
Proof.
  apply (bitso_gap_accounting _ "btc_mxn" 5 [6; 9]); [reflexivity|simpl; lia|].
  repeat constructor.
Defined.
