(* ===== verification/Coinbase.v ===== *)
(** * Coinbase

    [src/aetelier-connect/src/framework/adapters/coinbase.rs] with its wire types and decoder in
    [sources/coinbase/].  The book socket carries heartbeats beside the data; its normalizer
    counts the slots missing from the connection's sequence and decides whether they were
    data.  Books and trades have a socket each.

    The [k]-th frame the tracker observes reads the clock as [now_at k], and a deadline armed
    by it has the jitter [jitter_at k] (milliseconds). *)
From Stdlib Require Import Ascii String.
From S2P Require Import Prelude Budget Strings Numeric Pairs Types Delta Model Feed Runtime Reconcile Disconnect Reconnect Transport Drive Json Venue.
Local Open Scope N_scope.
Local Open Scope venue_scope.

Section Coinbase.
Context {NU : Numeric}.

(** ** Wire types *)

Record CoinbaseL2Update := {
  cbu_side : string; cbu_event_time : string; cbu_price_level : string; cbu_new_quantity : string
}.
Record CoinbaseL2Event := {
  cbe_ty : string; cbe_product_id : string; cbe_updates : list CoinbaseL2Update
}.
Record CoinbaseOrderbookResponse := {
  cbo_channel : string; cbo_timestamp : string; cbo_sequence_num : N;
  cbo_events : list CoinbaseL2Event
}.

Record CoinbaseTradeData := {
  cbt_trade_id : string;
  cbt_product_id : string;
  cbt_price : string;
  cbt_size : string;
  cbt_side : string;
  cbt_time : string
}.
Record CoinbaseTradeEvent := { cbte_ty : string; cbte_trades : list CoinbaseTradeData }.
Record CoinbaseTradeResponse := {
  cbtr_channel : string; cbtr_timestamp : string; cbtr_sequence_num : N;
  cbtr_events : list CoinbaseTradeEvent
}.

Record CoinbaseHeartbeatEvent := { cbh_heartbeat_counter : N }.
Record CoinbaseHeartbeatResponse := {
  cbh_sequence_num : N; cbh_events : list CoinbaseHeartbeatEvent
}.

Inductive CoinbaseWssEvent :=
| CbBook (resp : CoinbaseOrderbookResponse)
| CbTrades (trades : list CoinbaseTradeData)
| CbHeartbeat (sequence_num heartbeat_counter : N)
| CbControl (sequence_num : N).

Class CoinbaseWire := {
  CoinbaseOrderbookResponse_json :: FromJson CoinbaseOrderbookResponse;
  CoinbaseTradeResponse_json :: FromJson CoinbaseTradeResponse;
  CoinbaseHeartbeatResponse_json :: FromJson CoinbaseHeartbeatResponse
}.
Context {SJ : SerdeJson} {CH : Chrono} {CW : CoinbaseWire}.
Context (now_at : nat -> Instant) (jitter_at : nat -> N).

Definition coinbase_us (ts : string) : N := default 0 (as_u64 <$> parse_from_rfc3339 ts).

(** ** Decoder *)

Definition sequenced_control (seq : option N) : Result (option CoinbaseWssEvent) ExchangeError :=
  match seq with
  | Some sequence_num => Ok (Some (CbControl sequence_num))
  | None => Ok None
  end.

Definition coinbase_control_type (json : Value) : bool :=
  match get "type" json with
  | Some ty =>
    let ty_str := default ""%string (as_str ty) in
    String.eqb ty_str "subscriptions" || String.eqb ty_str "error"
  | None => false
  end.

Definition CoinbaseDecoder_decode (text : string) : Result (option CoinbaseWssEvent) ExchangeError :=
  match json_err (from_str text) with
  | Err e => Err e
  | Ok json =>
    if coinbase_control_type json then Ok None
    else
      let channel := default ""%string (get_str "channel" json) in
      let seq := s ← get "sequence_num" json; as_number_u64 s in
      if String.eqb channel "l2_data" then
        match from_text text with
        | Ok resp => Ok (Some (CbBook resp))
        | Err _ => sequenced_control seq
        end
      else if String.eqb channel "market_trades" then
        match from_text text with
        | Ok resp =>
          match e ← cbtr_events resp; cbte_trades e with
          | [] => sequenced_control seq
          | trades => Ok (Some (CbTrades trades))
          end
        | Err _ => sequenced_control seq
        end
      else if String.eqb channel "heartbeats" then
        match from_text text with
        | Ok resp =>
          match cbh_events resp with
          | ev :: _ => Ok (Some (CbHeartbeat (cbh_sequence_num resp) (cbh_heartbeat_counter ev)))
          | [] => sequenced_control seq
          end
        | Err _ => sequenced_control seq
        end
      else sequenced_control seq
  end.

Definition CoinbaseDecoder : WssDecoder := {|
  wss_event := CoinbaseWssEvent; wss_decode := CoinbaseDecoder_decode
|}.

(** ** Protocol *)

Definition COINBASE_WSS_URL : string := "wss://advanced-trade-ws.coinbase.com".
Definition LEVEL2_CHANNEL : string := "level2".
Definition MARKET_TRADES_CHANNEL : string := "market_trades".
Definition HEARTBEATS_CHANNEL : string := "heartbeats".
Definition COINBASE_CODEC : SymbolCodec := Hyphen.

Inductive CoinbaseChannels := Level2WithHeartbeats | TradesOnly.

Definition coinbase_sub (symbols : list string) (channel : string) : Message :=
  MsgText (to_text (JObject [
    ("type", JString "subscribe"); ("product_ids", JArray (JString <$> symbols));
    ("channel", JString channel)])).

(** The declared set is not consulted: [spawn] opens the sockets that are declared. *)
Definition coinbase_subscribe_frames (c : CoinbaseChannels) (symbols : list string)
    (_ : DeclaredSet) : list Message :=
  match c with
  | Level2WithHeartbeats => [coinbase_sub symbols LEVEL2_CHANNEL; coinbase_sub symbols HEARTBEATS_CHANNEL]
  | TradesOnly => [coinbase_sub symbols MARKET_TRADES_CHANNEL]
  end.

Definition CoinbaseHooks (c : CoinbaseChannels) : ProtocolHooks := {|
  endpoint := COINBASE_WSS_URL;
  subscribe_frames := coinbase_subscribe_frames c;
  unsubscribe_frames _ _ := [];
  heartbeat := NoHeartbeat;
  classify_ack _ := NotAck;
  on_inbound_control _ := ControlIgnore;
  subscribe_ack_deadline := None;
  connection_lifetime := None;
  stale_after := DEFAULT_STALE_AFTER;
  frame_codec := PlainText;
  prepare := Ok Prepared_default
|}.

(** ** The sequence tracker *)

Definition GAP_DEBOUNCE_FLOOR : Duration := millis 10.
Definition GAP_DEBOUNCE_JITTER_MS : N * N := (2, 20).

Record SeqTracker := {
  tk_last_seq : option N;
  tk_last_hb : option N;
  unattributed : N;
  tk_deadline : option Instant
}.

Definition SeqTracker_new : SeqTracker :=
  {| tk_last_seq := None; tk_last_hb := None; unattributed := 0; tk_deadline := None |}.

(** [cur.saturating_sub(prev.saturating_add(1))], nothing before the first. *)
Definition slot_jump (prev : option N) (cur : N) : N :=
  match prev with
  | Some prev => u64_saturating_sub cur (u64_saturating_add prev 1)
  | None => 0
  end.

(** A jump in the sequence is suspected. *)
Definition suspect (seq : N) (now : Instant) (jitter_ms : N) (t : SeqTracker) : SeqTracker :=
  let jump := slot_jump (tk_last_seq t) seq in
  {| tk_last_seq := Some seq; tk_last_hb := tk_last_hb t;
     unattributed := if 0 <? jump then u64_saturating_add (unattributed t) jump else unattributed t;
     tk_deadline :=
       if 0 <? jump then
         match tk_deadline t with
         | None => Some (now + GAP_DEBOUNCE_FLOOR + millis jitter_ms)
         | Some d => Some d
         end
       else tk_deadline t |}.

(** A jump in the heartbeat counter explains as many missing slots. *)
Definition attribute (hb : N) (t : SeqTracker) : SeqTracker :=
  let left := u64_saturating_sub (unattributed t) (slot_jump (tk_last_hb t) hb) in
  {| tk_last_seq := tk_last_seq t; tk_last_hb := Some hb; unattributed := left;
     tk_deadline := if left =? 0 then None else tk_deadline t |}.

(** What is still unexplained behind the deadline is confirmed. *)
Definition confirm (now : Instant) (t : SeqTracker) : SeqTracker * option N :=
  match tk_deadline t with
  | Some d =>
    if (d <=? now) && (0 <? unattributed t) then
      ({| tk_last_seq := tk_last_seq t; tk_last_hb := tk_last_hb t; unattributed := 0;
          tk_deadline := None |}, Some (unattributed t))
    else (t, None)
  | None => (t, None)
  end.

Definition observe (seq : N) (hb_counter : option N) (now : Instant) (jitter_ms : N) (t : SeqTracker)
    : SeqTracker * option N :=
  let t := suspect seq now jitter_ms t in
  confirm now (match hb_counter with Some hb => attribute hb t | None => t end).

(** ** Normalizer *)

Record CoinbaseNormalizer := {
  cb_metrics : SourceMetrics; cb_tracker : option SeqTracker; cb_observed : nat
}.

Definition sequence_tracked (m : SourceMetrics) : CoinbaseNormalizer :=
  {| cb_metrics := m; cb_tracker := Some SeqTracker_new; cb_observed := 0 |}.
Definition passthrough (m : SourceMetrics) : CoinbaseNormalizer :=
  {| cb_metrics := m; cb_tracker := None; cb_observed := 0 |}.

Definition track (seq : N) (hb : option N) (s : CoinbaseNormalizer) : CoinbaseNormalizer * option N :=
  match cb_tracker s with
  | None => (s, None)
  | Some t =>
    let k := cb_observed s in
    let '(t, confirmed) := observe seq hb (now_at k) (jitter_at k) t in
    ({| cb_metrics := cb_metrics s; cb_tracker := Some t; cb_observed := S k |}, confirmed)
  end.

Definition coinbase_levels (sides : list string) (updates : list CoinbaseL2Update)
    : list (string * string) :=
  (fun u => (cbu_price_level u, cbu_new_quantity u)) <$>
  filter (fun u => cbu_side u ∈ sides) updates.

Definition coinbase_to_delta (seq event_ts : N) (event : CoinbaseL2Event) : NormalizedDelta :=
  ws_delta (cbe_product_id event) (coinbase_levels ["bid"] (cbe_updates event))
    (coinbase_levels ["offer"; "ask"] (cbe_updates event)) seq seq event_ts None []
    (String.eqb (cbe_ty event) "snapshot").

Definition coinbase_book (resp : CoinbaseOrderbookResponse) : list NormalizedDelta :=
  coinbase_to_delta (cbo_sequence_num resp) (coinbase_us (cbo_timestamp resp)) <$> cbo_events resp.

Definition coinbase_normalize_trade (t : CoinbaseTradeData) : Counted DomainEvent :=
  let_some p := decode COINBASE_CODEC (cbt_product_id t) in
  let_some amount := parse_dec (cbt_size t) in
  let_some price := parse_dec (cbt_price t) in
  let_some side := TradeSide_from_str_loose (cbt_side t) in
  keep (TradeEvent
    (ws_trade "coinbase" (coinbase_us (cbt_time t)) p side amount price (cbt_trade_id t))
    (parse_u64 (cbt_trade_id t))).

(** A confirmed gap precedes the frame's own events; a trade frame lists its prints newest
    first. *)
Definition coinbase_normalize (ev : CoinbaseWssEvent) (s : CoinbaseNormalizer)
    : CoinbaseNormalizer * list DomainEvent :=
  match ev with
  | CbBook resp =>
    let '(s, gap) := track (cbo_sequence_num resp) None s in
    (s, (ConnectionGap <$> option_list gap) ++ (Book <$> coinbase_book resp))
  | CbTrades trades =>
    let '(m, des) := filter_map coinbase_normalize_trade (rev trades) (cb_metrics s) in
    ({| cb_metrics := m; cb_tracker := cb_tracker s; cb_observed := cb_observed s |}, des)
  | CbHeartbeat seq hb =>
    let '(s, gap) := track seq (Some hb) s in (s, ConnectionGap <$> option_list gap)
  | CbControl seq =>
    let '(s, gap) := track seq None s in (s, ConnectionGap <$> option_list gap)
  end.

Definition coinbase_prints (ev : CoinbaseWssEvent) : list string :=
  match ev with CbTrades trades => cbt_product_id <$> rev trades | _ => [] end.

Definition coinbase_socket (c : CoinbaseChannels) (start : CoinbaseNormalizer) : Socket :=
  socket (CoinbaseHooks c) CoinbaseDecoder CoinbaseNormalizer start coinbase_normalize cb_metrics
    coinbase_prints.

Definition book_socket : Socket :=
  coinbase_socket Level2WithHeartbeats (sequence_tracked SourceMetrics_default).
Definition trades_socket : Socket := coinbase_socket TradesOnly (passthrough SourceMetrics_default).

(** ** Adapter *)

Definition COINBASE_PROFILE : ExchangeProfile := {|
  profile_id := "coinbase"; symbol_codec := COINBASE_CODEC; profile_budget := open_budget;
  schema_version := 1; protocol_revision := "coinbase-adv-v3"
|}.

Definition coinbase_sockets (d : DeclaredSet) : list Socket :=
  if_declared d DeclOrderbook book_socket ++ if_declared d DeclTrades trades_socket.

(** The exit of the adapter with both sockets: [first] ends, and its sibling is awaited when
    the shutdown is signalled and aborted otherwise.  [None]: the task panicked. *)
Definition coinbase_exit (shutdown : bool) (first sibling : option TaskExit) : TaskExit :=
  let panicked := TaskFailed (TransportError "coinbase socket task panicked") in
  if shutdown then
    match first, sibling with
    | Some Completed, Some other => other
    | Some f, Some _ => f
    | _, _ => panicked
    end
  else default panicked first.

Definition coinbase_preview (symbols : list string) (d : DeclaredSet) : list string :=
  (if declared_contains DeclOrderbook d then preview (CoinbaseHooks Level2WithHeartbeats) symbols d else []) ++
  (if declared_contains DeclTrades d then preview (CoinbaseHooks TradesOnly) symbols d else []).

Definition COINBASE : ExchangeAdapter := {|
  venue_id := "coinbase"; profile := COINBASE_PROFILE; rest_seeder := None;
  book_model _ := SeqDelta Monotonic WssSelfSeed;
  supported_datatypes := default_datatypes; resubscribe_replays_trades := false;
  max_declared_depth := None; supports_environment := production_only;
  datatype_cadence := no_cadence;
  sockets _ _ d := coinbase_sockets d;
  subscribe_frames_preview := coinbase_preview;
  replay_frame := replay_socket trades_socket;
  replay_seed := no_replay_seed "coinbase"
|}.

(** ** The promise *)

Lemma confirm_positive now t t' n : confirm now t = (t', Some n) -> 0 < n.
Proof.
  unfold confirm. destruct (tk_deadline t) as [d|]; [|done].
  destruct ((d <=? now) && (0 <? unattributed t)) eqn:E; [|done].
  apply andb_true_iff in E as [_ E%N.ltb_lt]. by intros [= _ <-].
Qed.

Lemma track_positive seq hb s s' n : track seq hb s = (s', Some n) -> 0 < n.
Proof.
  unfold track. destruct (cb_tracker s) as [t|]; [|done].
  destruct (observe _ _ _ _ t) as [t' o] eqn:E. intros [= _ ->]. by eapply confirm_positive.
Qed.

Lemma track_metrics seq hb s : cb_metrics (track seq hb s).1 = cb_metrics s.
Proof. unfold track. destruct (cb_tracker s) as [t|]; [|done]. by destruct (observe _ _ _ _ t). Qed.

Lemma coinbase_socket_sound c start : socket_sound COINBASE (coinbase_socket c start).
Proof.
  assert (forall seq hb s s' gap ds,
    track seq hb s = (s', gap) -> (forall d, d ∈ ds -> orders d = [] /\ local_orderbook_ts_us d = 0 /\ source_orderbook_rtt_us d = 0) ->
    sound_step COINBASE [] (cb_metrics s) (cb_metrics s')
      ((ConnectionGap <$> option_list gap) ++ (Book <$> ds)) 0) as Htrack.
  { intros seq hb s s' gap ds Et Hds. pose proof (track_metrics seq hb s) as Hm.
    rewrite Et in Hm. simpl in Hm. rewrite Hm.
    apply gap_then_books_sound; [set_solver| |].
    - intros n ->. by eapply track_positive.
    - intros d channel Hd. destruct (Hds d Hd) as (? & ? & ?). done. }
  intros [resp|trades|seq hb|seq] s s' des E;
    cbn [sk_normalizer coinbase_socket socket normalize coinbase_normalize] in E;
    cbn [sk_metrics sk_prints coinbase_socket socket coinbase_prints].
  - destruct (track _ None s) as [s1 gap] eqn:Et. injection E as <- <-. exists 0%nat.
    eapply Htrack; [exact Et|]. intros d (x & -> & _)%list_elem_of_fmap. done.
  - destruct (filter_map _ _ _) as [m' des'] eqn:Ef. injection E as <- <-.
    apply (filter_map_sound COINBASE cbt_product_id coinbase_normalize_trade); [|exact Ef].
    intros t _. unfold coinbase_normalize_trade. solve_print COINBASE.
  - destruct (track _ _ s) as [s1 gap] eqn:Et. injection E as <- <-. exists 0%nat.
    rewrite <-(app_nil_r (ConnectionGap <$> _)). eapply (Htrack _ _ _ _ _ []); [exact Et|set_solver].
  - destruct (track _ _ s) as [s1 gap] eqn:Et. injection E as <- <-. exists 0%nat.
    rewrite <-(app_nil_r (ConnectionGap <$> _)). eapply (Htrack _ _ _ _ _ []); [exact Et|set_solver].
Qed.

Lemma coinbase_sound : adapter_sound COINBASE.
Proof.
  split_and!; [done|done|]. intros e symbols d. simpl. unfold coinbase_sockets, if_declared.
  apply Forall_app. split; case_match; try apply Forall_nil; try done;
    apply Forall_singleton, coinbase_socket_sound.
Qed.

Lemma coinbase_replays : replays COINBASE.
Proof.
  intros e symbols d sk raw ev s Hsk Hdec.
  assert (exists c start, sk = coinbase_socket c start) as (c & start & ->).
  { unfold COINBASE, coinbase_sockets, if_declared in Hsk. simpl in Hsk.
    do 2 case_match; set_solver. }
  eexists. split; [exact (replay_socket_event trades_socket raw ev Hdec)|]. apply same_replays.
  unfold live. cbn [sk_normalizer sk_start coinbase_socket trades_socket socket normalize].
  destruct ev as [resp|trades|seq hb|seq]; cbn [coinbase_normalize].
  - destruct (track _ _ s) as [s1 gap]. simpl. by rewrite !without_gaps_app, without_gaps_gap.
  - pose proof (steady_filter_map coinbase_normalize_trade (rev trades)
      ltac:(intros t; unfold coinbase_normalize_trade; solve_steady)
      (cb_metrics s) SourceMetrics_default) as Hf.
    cbn [cb_metrics passthrough]. destruct (filter_map _ _ (cb_metrics s)), (filter_map _ _ SourceMetrics_default).
    simpl in *. by subst.
  - destruct (track _ _ s) as [s1 gap]. simpl. by rewrite without_gaps_gap.
  - destruct (track _ _ s) as [s1 gap]. simpl. by rewrite without_gaps_gap.
Qed.

Lemma coinbase_sockets_cases d sk : sk ∈ coinbase_sockets d -> sk = book_socket \/ sk = trades_socket.
Proof. unfold coinbase_sockets, if_declared. do 2 case_match; set_solver. Qed.

Lemma coinbase_acks : acks_clear COINBASE.
Proof. intros e symbols d sk text Hsk. by destruct (coinbase_sockets_cases d sk Hsk) as [->| ->]. Qed.

Lemma coinbase_previews : previews COINBASE.
Proof.
  intros e symbols d. split.
  - simpl. unfold coinbase_preview, coinbase_sockets, if_declared. by do 2 case_match.
  - apply Forall_forall. intros sk Hsk.
    destruct (coinbase_sockets_cases d sk Hsk) as [->| ->];
      repeat apply Forall_cons_2; try apply Forall_nil_2; by eexists.
Qed.

(** ** What the tracker reports *)

(** A frame as the tracker sees it: its sequence, the heartbeat counter of a heartbeat, and
    the instant and the jitter it is observed with. *)
Record Slot := { sl_seq : N; sl_hb : option N; sl_now : Instant; sl_jitter_ms : N }.

Fixpoint observe_run (l : list Slot) (t : SeqTracker) : SeqTracker * list N :=
  match l with
  | [] => (t, [])
  | x :: l =>
    let '(t, confirmed) := observe (sl_seq x) (sl_hb x) (sl_now x) (sl_jitter_ms x) t in
    let '(t, reports) := observe_run l t in
    (t, option_list confirmed ++ reports)
  end.

(** The slots missing before each frame, in all. *)
Fixpoint jumps (prev : option N) (l : list N) : N :=
  match l with [] => 0 | n :: l => slot_jump prev n + jumps (Some n) l end.

Lemma slot_jump_next prev n : n < u64_modulus -> prev < n -> slot_jump (Some prev) n = n - prev - 1.
Proof.
  intros Hn Hlt. unfold slot_jump, u64_saturating_sub, u64_saturating_add.
  rewrite N.min_l by (unfold u64_max, u64_modulus in *; lia). lia.
Qed.

Lemma jumps_total prev l : rising prev l -> Forall (fun n => n < u64_modulus) l ->
  prev + jumps (Some prev) l + N.of_nat (length l) = List.last l prev.
Proof.
  revert prev. induction l as [|n l IH]; intros prev; [simpl; lia|].
  intros [Hlt Hr] [Hn Hl]%Forall_cons. cbn [jumps]. rewrite slot_jump_next by done.
  rewrite last_cons_default. rewrite <- (IH n Hr Hl). simpl length. lia.
Qed.

(** A pending suspicion has a deadline. *)
Definition armed (t : SeqTracker) : Prop := 0 < unattributed t -> is_Some (tk_deadline t).

Lemma observe_accounts x t t' confirmed :
  armed t -> unattributed t + slot_jump (tk_last_seq t) (sl_seq x) <= u64_max ->
  observe (sl_seq x) (sl_hb x) (sl_now x) (sl_jitter_ms x) t = (t', confirmed) ->
  let j := slot_jump (tk_last_seq t) (sl_seq x) in
  let h := match sl_hb x with Some hb => slot_jump (tk_last_hb t) hb | None => 0 end in
  armed t' /\ tk_last_seq t' = Some (sl_seq x) /\
  tk_last_hb t' = match sl_hb x with Some hb => Some hb | None => tk_last_hb t end /\
  total (option_list confirmed) + unattributed t' <= unattributed t + j /\
  unattributed t + j <= total (option_list confirmed) + unattributed t' + h.
Proof.
  intros Ha Hb E j h. unfold observe in E.
  set (t1 := suspect _ _ _ t) in E. set (t2 := match sl_hb x with Some hb => _ | None => _ end) in E.
  assert (armed t1 /\ unattributed t1 = unattributed t + j) as [Ha1 Hu1].
  { subst t1 j. unfold suspect, armed in *. cbn [unattributed tk_deadline].
    destruct (N.ltb_spec 0 (slot_jump (tk_last_seq t) (sl_seq x))) as [Hj|Hj]; simpl.
    - split; [intros _; by destruct (tk_deadline t)|]. unfold u64_saturating_add. lia.
    - split; [done|lia]. }
  assert (armed t2 /\ tk_last_seq t2 = Some (sl_seq x) /\
    tk_last_hb t2 = match sl_hb x with Some hb => Some hb | None => tk_last_hb t end /\
    unattributed t2 <= unattributed t1 /\ unattributed t1 <= unattributed t2 + h) as (Ha2 & Hs2 & Hh2 & Hlo & Hhi).
  { subst t2 h. destruct (sl_hb x) as [hb|]; [|split_and!; [done..|lia]].
    unfold attribute, armed, u64_saturating_sub.
    cbn [unattributed tk_deadline tk_last_seq tk_last_hb].
    change (tk_last_hb t1) with (tk_last_hb t). split_and!; [|done|done|lia|lia].
    intros Hp. destruct (N.eqb_spec (unattributed t1 - slot_jump (tk_last_hb t) hb) 0); [lia|].
    apply Ha1. lia. }
  unfold confirm in E. destruct (tk_deadline t2) as [d|] eqn:Ed.
  - destruct ((d <=? sl_now x) && (0 <? unattributed t2)); injection E as <- <-; simpl;
      split_and!; try done; lia.
  - injection E as <- <-. simpl. split_and!; try done; lia.
Qed.

Lemma observe_run_accounts l t :
  armed t -> unattributed t + jumps (tk_last_seq t) (sl_seq <$> l) <= u64_max ->
  let '(t', reports) := observe_run l t in
  armed t' /\
  total reports + unattributed t' <= unattributed t + jumps (tk_last_seq t) (sl_seq <$> l) /\
  unattributed t + jumps (tk_last_seq t) (sl_seq <$> l) <=
    total reports + unattributed t' + jumps (tk_last_hb t) (omap sl_hb l).
Proof.
  revert t. induction l as [|x l IH]; intros t Ha Hb; [simpl in *; split_and!; [done|lia..]|].
  cbn [observe_run]. destruct (observe _ _ _ _ t) as [t1 confirmed] eqn:E. csimpl. cbn [jumps] in *.
  destruct (observe_accounts x t t1 confirmed Ha ltac:(csimpl in Hb; cbn [jumps] in Hb; lia) E)
    as (Ha1 & Hs1 & Hh1 & Hlo & Hhi).
  specialize (IH t1 Ha1). rewrite Hs1, Hh1 in IH. csimpl in Hb. cbn [jumps] in Hb.
  specialize (IH ltac:(lia)). destruct (observe_run l t1) as [t2 reports].
  rewrite total_app. destruct IH as (Ha2 & Hlo2 & Hhi2). split; [done|].
  destruct (sl_hb x) as [hb|]; cbn [jumps] in *; lia.
Qed.

(** C26: the gap reports of a Coinbase book socket are accounted for.  Over any run of sequenced
    frames whose ids rise, from a fresh tracker: the slots reported as lost, plus those still
    pending, are at most the slots missing from the sequence, and fall short of them by at
    most the heartbeats missing from the heartbeat counter; so no slot is reported twice, and
    a missing slot that no missing heartbeat explains is reported or pending, with a deadline
    armed. *)
Theorem coinbase_gap_accounting (x : Slot) (l : list Slot)
    (Hr : rising (sl_seq x) (sl_seq <$> l))
    (Hw : Forall (fun n => n < u64_modulus) (sl_seq x :: (sl_seq <$> l))) :
  let '(t, reports) := observe_run (x :: l) SeqTracker_new in
  let missing := List.last (sl_seq <$> l) (sl_seq x) - sl_seq x - N.of_nat (length l) in
  sl_seq x + missing + N.of_nat (length l) = List.last (sl_seq <$> l) (sl_seq x) /\
  total reports + unattributed t <= missing /\
  missing <= total reports + unattributed t + jumps None (omap sl_hb (x :: l)) /\
  (0 < unattributed t -> is_Some (tk_deadline t)).
Proof.
  apply Forall_cons in Hw as [Hx Hl]. pose proof (jumps_total _ _ Hr Hl) as Hj. rewrite length_fmap in Hj.
  assert (List.last (sl_seq <$> l) (sl_seq x) < u64_modulus) as Hlast.
  { clear -Hx Hl. revert Hx. generalize (sl_seq x). induction Hl as [|n ns Hn _ IH]; intros d Hd; [done|].
    rewrite last_cons_default. by apply IH. }
  pose proof (observe_run_accounts (x :: l) SeqTracker_new) as H.
  change (sl_seq <$> x :: l) with (sl_seq x :: (sl_seq <$> l)) in H. cbn [jumps] in H.
  specialize (H ltac:(by intros ?%N.lt_irrefl)).
  change (unattributed SeqTracker_new) with 0 in H.
  change (slot_jump (tk_last_seq SeqTracker_new) (sl_seq x)) with 0 in H.
  change (tk_last_hb SeqTracker_new) with (@None N) in H. rewrite !N.add_0_l in H.
  specialize (H ltac:(unfold u64_max, u64_modulus in *; lia)).
  destruct (observe_run _ _) as [t reports]. destruct H as (Ha & Hlo & Hhi).
  cbv zeta. split_and!; [lia|lia|lia|exact Ha].
Qed.

End Coinbase.

(** ** Examples *)

Definition ex_slot (seq : N) (hb : option N) (now : N) : Slot :=
  {| sl_seq := seq; sl_hb := hb; sl_now := millis now; sl_jitter_ms := 5 |}.

(** Frames 1 to 3, then 6 with its predecessors 4 and 5 lost, and the confirmation by 7. *)
Lemma coinbase_gap_accounting_witness :
  observe_run [ex_slot 1 (Some 10) 0; ex_slot 2 None 20; ex_slot 3 None 40; ex_slot 6 None 60;
               ex_slot 7 None 90] SeqTracker_new =
    ({| tk_last_seq := Some 7; tk_last_hb := Some 10; unattributed := 0; tk_deadline := None |}, [2]) /\
  2 + 0 <= 7 - 1 - 4.
Proof.
  pose proof (coinbase_gap_accounting (ex_slot 1 (Some 10) 0)
    [ex_slot 2 None 20; ex_slot 3 None 40; ex_slot 6 None 60; ex_slot 7 None 90]) as H.
  specialize (H ltac:(vm_compute; repeat split)).
  specialize (H ltac:(repeat constructor)).
  match goal with |- ?run = _ /\ _ => assert (run = (_, [2])) as E by reflexivity end.
  rewrite E in H. split; [exact E|exact (proj1 (proj2 H))].
Defined.

(** The heartbeat 11 of slot 4 is lost.  The update of slot 5 raises the suspicion and that of
    slot 6, past the debounce, confirms it: a gap of one is reported, although no book message
    is missing, because the heartbeat that would explain the slot comes a second later. *)
Lemma lost_heartbeat_reported :
  (observe_run [ex_slot 3 (Some 10) 0; ex_slot 5 None 1010; ex_slot 6 None 1040;
                ex_slot 7 (Some 12) 2000] SeqTracker_new).2 = [1].
Proof. reflexivity. Qed.
