(* ===== verification/Hyperliquid.v ===== *)
(** * Hyperliquid

    [src/aetelier-connect/src/framework/adapters/hyperliquid.rs] with its wire types and decoder
    in [sources/hyperliquid/]: full-refresh books, trades, and the funding and open-interest
    context of a perpetual.  The task that polls the settlements is in [Settlements]. *)
From Stdlib Require Import Ascii String.
From S2P Require Import Prelude Budget Strings Numeric Pairs Types Delta Model Feed Runtime Disconnect Reconnect Transport Drive Json Venue.
Local Open Scope N_scope.
Local Open Scope venue_scope.

Section Hyperliquid.
Context {NU : Numeric}.

(** ** Wire types *)

Record HyperliquidLevel := { hyl_px : string; hyl_sz : string; hyl_n : N }.
Record HyperliquidBook := {
  hyb_coin : string; hyb_time : N; hyb_levels : list (list HyperliquidLevel)
}.

Record HyperliquidTrade := {
  hyt_coin : string;
  hyt_side : string;
  hyt_px : string;
  hyt_sz : string;
  hyt_time : N;
  hyt_tid : N;
  hyt_users : list string;
  hyt_hash : string
}.

Record HyperliquidAssetCtx := {
  hyc_funding : option string;
  hyc_open_interest : option string;
  hyc_mark_px : option string;
  hyc_oracle_px : option string;
  hyc_mid_px : option string;
  hyc_premium : option string;
  hyc_impact_pxs : option (list string);
  hyc_prev_day_px : option string;
  hyc_day_ntl_vlm : option string;
  hyc_day_base_vlm : option string
}.
Record HyperliquidAssetCtxMsg := { hym_coin : string; hym_ctx : HyperliquidAssetCtx }.

Record HyperliquidFundingHistoryRow := {
  hyr_coin : string; hyr_funding_rate : string; hyr_premium : option string; hyr_time : N
}.

Inductive HyperliquidWssEvent :=
| HyBook (b : HyperliquidBook)
| HyTrades (ts : list HyperliquidTrade)
| HyAssetCtx (m : HyperliquidAssetCtxMsg).

Class HyperliquidWire := {
  HyperliquidBook_json :: FromJson HyperliquidBook;
  HyperliquidTrades_json :: FromJson (list HyperliquidTrade);
  HyperliquidAssetCtxMsg_json :: FromJson HyperliquidAssetCtxMsg
}.
Context {SJ : SerdeJson} {HW : HyperliquidWire}.

(** ** Decoder *)

(** [v.get_mut("data").map(Value::take).unwrap_or(Value::Null)] *)
Definition take_data (v : Value) : Value := default JNull (get "data" v).

Definition HyperliquidDecoder_decode (text : string) : Result (option HyperliquidWssEvent) ExchangeError :=
  match json_err (from_str text) with
  | Err e => Err e
  | Ok v =>
    match get_str "channel" v with
    | Some ch =>
      if String.eqb ch "l2Book" then
        match json_err (from_value (take_data v)) with
        | Ok book => Ok (Some (HyBook book))
        | Err e => Err e
        end
      else if String.eqb ch "trades" then
        match json_err (from_value (take_data v)) with
        | Ok trades => Ok (Some (HyTrades trades))
        | Err e => Err e
        end
      else if String.eqb ch "activeAssetCtx" then
        match json_err (from_value (take_data v)) with
        | Ok msg => Ok (Some (HyAssetCtx msg))
        | Err e => Err e
        end
      else Ok None
    | None => Ok None
    end
  end.

Definition HyperliquidDecoder : WssDecoder := {|
  wss_event := HyperliquidWssEvent; wss_decode := HyperliquidDecoder_decode
|}.

(** ** Protocol *)

Definition HYPERLIQUID_WSS_URL : string := "wss://api.hyperliquid.xyz/ws".
Definition HYPERLIQUID_TESTNET_WSS_URL : string := "wss://api.hyperliquid-testnet.xyz/ws".
Definition HYPERLIQUID_INFO_URL : string := "https://api.hyperliquid.xyz/info".
Definition HYPERLIQUID_TESTNET_INFO_URL : string := "https://api.hyperliquid-testnet.xyz/info".
Definition HYPERLIQUID_PING_SECS : N := 30.
Definition ACK_DEADLINE_SECS : N := 10.
Definition STALE_AFTER_SECS : N := 45.
Definition L2_BOOK_LEVELS : N := 20.
Definition FUNDING_CADENCE : Duration := seconds 3600.
Definition HYPERLIQUID_CODEC : SymbolCodec := BareCoin "USDC".

Definition wss_url (e : VenueEnvironment) : string :=
  match e with Production => HYPERLIQUID_WSS_URL | Testnet => HYPERLIQUID_TESTNET_WSS_URL end.
Definition info_url (e : VenueEnvironment) : string :=
  match e with Production => HYPERLIQUID_INFO_URL | Testnet => HYPERLIQUID_TESTNET_INFO_URL end.

Definition declared_channels (d : DeclaredSet) : list string :=
  if_declared d DeclOrderbook "l2Book"%string ++
  if_declared d DeclTrades "trades"%string ++
  (if declared_contains DeclFundingRates d || declared_contains DeclOpenInterest d
   then ["activeAssetCtx"%string] else []).

Definition method_frame (method channel sym : string) : Message :=
  MsgText (to_text (JObject [
    ("method", JString method);
    ("subscription", JObject [("type", JString channel); ("coin", JString sym)])])).

Definition hyperliquid_frames (method : string) (symbols : list string) (d : DeclaredSet) : list Message :=
  s ← symbols; channel ← declared_channels d; [method_frame method channel s].

Definition hyperliquid_classify_ack (text : string) : AckOutcome :=
  if negb (mentions "subscriptionResponse" text) && negb (mentions "error" text) then NotAck
  else match from_str text with
  | Err _ => NotAck
  | Ok v =>
    match get_str "channel" v with
    | Some ch =>
      if String.eqb ch "subscriptionResponse" then
        if bool_decide ((d ← get "data" v; get_str "method" d) = Some "subscribe"%string)
        then Accepted else NotAck
      else if String.eqb ch "error" then
        AckRejected None (default "subscribe failed" (get_str "data" v))
      else NotAck
    | None => NotAck
    end
  end.

Definition hyperliquid_cadence (dt : FeedDatatype) : option Duration :=
  match dt with FundingRates => Some FUNDING_CADENCE | _ => None end.

Definition HyperliquidHooks (e : VenueEnvironment) : ProtocolHooks := {|
  endpoint := wss_url e;
  subscribe_frames := hyperliquid_frames "subscribe";
  unsubscribe_frames := hyperliquid_frames "unsubscribe";
  heartbeat := HbText (seconds HYPERLIQUID_PING_SECS)
    ("{" ++ quoted "method" ++ ":" ++ quoted "ping" ++ "}");
  classify_ack := hyperliquid_classify_ack;
  on_inbound_control _ := ControlIgnore;
  subscribe_ack_deadline := Some (seconds ACK_DEADLINE_SECS);
  connection_lifetime := None;
  stale_after := seconds STALE_AFTER_SECS;
  frame_codec := PlainText;
  prepare := Ok Prepared_default
|}.

(** ** Normalizer *)

Definition hyperliquid_levels (side : list HyperliquidLevel) : list (string * string) :=
  (fun l => (hyl_px l, hyl_sz l)) <$> side.

Definition hyperliquid_side (s : string) : option TradeSide :=
  if eq_ignore_ascii_case s "B" then Some Buy
  else if eq_ignore_ascii_case s "A" then Some Sell
  else None.

Definition hyperliquid_normalize_trade (t : HyperliquidTrade) : Counted DomainEvent :=
  let_some p := decode HYPERLIQUID_CODEC (hyt_coin t) in
  let_some side := hyperliquid_side (hyt_side t) in
  let_some amount := parse_dec (hyt_sz t) in
  let_some price := parse_dec (hyt_px t) in
  keep (TradeEvent
    (ws_trade "hyperliquid" (epoch_to_us (hyt_time t)) p side amount price (pretty (hyt_tid t)))
    None).

Definition hyperliquid_funding (p : TradingPair) (premium : option Dec) (rate : Dec) : DomainEvent :=
  FundingRateEvent {|
    funding_rate_ts_us := 0; local_funding_ts_us := 0; funding_recv_seq := 0;
    funding_conn_epoch_us := 0; funding_pair := p; funding_rate := rate;
    funding_premium := premium; interval_hours := 1; next_funding_ts_us := 0;
    funding_exchange := "hyperliquid" |}.

Definition hyperliquid_oi (p : TradingPair) (mark : option Dec) (oi : Dec) : DomainEvent :=
  OpenInterestEvent {|
    open_interest_ts_us := 0; local_oi_ts_us := 0; oi_recv_seq := 0; oi_conn_epoch_us := 0;
    oi_pair := p; open_interest := oi; open_interest_value := None; mark_px := mark;
    oi_exchange := "hyperliquid" |}.

(** A field of the context, when its datatype is declared and it is present. *)
Definition ctx_field (on : bool) (raw : option string) (f : Dec -> DomainEvent) (m : SourceMetrics)
    : SourceMetrics * list DomainEvent :=
  match on, raw with
  | true, Some raw => one_print (or_drop (parse_dec raw) (fun d => keep (f d))) m
  | _, _ => (m, [])
  end.

Definition normalize_asset_ctx (d : DeclaredSet) (msg : HyperliquidAssetCtxMsg) (m : SourceMetrics)
    : SourceMetrics * list DomainEvent :=
  match decode HYPERLIQUID_CODEC (hym_coin msg) with
  | None => (add_dropped_frames 1 m, [])
  | Some p =>
    let premium := r ← hyc_premium (hym_ctx msg); parse_dec r in
    let mark := r ← hyc_mark_px (hym_ctx msg); parse_dec r in
    let '(m, fr) := ctx_field (declared_contains DeclFundingRates d) (hyc_funding (hym_ctx msg))
                      (hyperliquid_funding p premium) m in
    let '(m, oi) := ctx_field (declared_contains DeclOpenInterest d)
                      (hyc_open_interest (hym_ctx msg)) (hyperliquid_oi p mark) m in
    (m, fr ++ oi)
  end.

Definition hyperliquid_book (b : HyperliquidBook) (bids asks : list HyperliquidLevel) : NormalizedDelta :=
  ws_delta (hyb_coin b) (hyperliquid_levels bids) (hyperliquid_levels asks) (hyb_time b) 0
    (epoch_to_us (hyb_time b)) None [] true.

Definition hyperliquid_normalize (d : DeclaredSet) (ev : HyperliquidWssEvent) (m : SourceMetrics)
    : SourceMetrics * list DomainEvent :=
  match ev with
  | HyBook b =>
    match hyb_levels b with
    | [bids; asks] => (m, [Book (hyperliquid_book b bids asks)])
    | _ => (add_dropped_frames 1 m, [])
    end
  | HyTrades ts => filter_map hyperliquid_normalize_trade ts m
  | HyAssetCtx msg => normalize_asset_ctx d msg m
  end.

Definition hyperliquid_prints (ev : HyperliquidWssEvent) : list string :=
  match ev with HyTrades ts => hyt_coin <$> ts | _ => [] end.

Definition hyperliquid_socket (e : VenueEnvironment) (d : DeclaredSet) : Socket :=
  counting_socket (HyperliquidHooks e) HyperliquidDecoder (hyperliquid_normalize d) hyperliquid_prints.

(** ** Adapter *)

Definition HYPERLIQUID_PROFILE : ExchangeProfile := {|
  profile_id := "hyperliquid"; symbol_codec := HYPERLIQUID_CODEC;
  profile_budget := {|
    max_connections := Some 10; max_streams_per_socket := Some 1000;
    subscribe_rate := [{| rw_max := 2000; rw_per := seconds 60 |}];
    connect_attempt_rate := Some {| rw_max := 30; rw_per := seconds 60 |};
    Budget.connection_lifetime := None |};
  schema_version := 1; protocol_revision := "hyperliquid-v1"
|}.

Definition HYPERLIQUID : ExchangeAdapter := {|
  venue_id := "hyperliquid"; profile := HYPERLIQUID_PROFILE; rest_seeder := None;
  book_model _ := FullRefresh;
  supported_datatypes := [DeclOrderbook; DeclTrades; DeclFundingRates; DeclOpenInterest];
  resubscribe_replays_trades := true;
  max_declared_depth := Some L2_BOOK_LEVELS; supports_environment _ := true;
  datatype_cadence := hyperliquid_cadence;
  sockets e _ d := [hyperliquid_socket e d];
  subscribe_frames_preview := preview (HyperliquidHooks Production);
  replay_frame := replay_socket (hyperliquid_socket Production declared_all);
  replay_seed := no_replay_seed "hyperliquid"
|}.

(** ** The promise *)

Lemma ctx_field_sound on raw f m m' des :
  (forall x, sound_event HYPERLIQUID (f x)) -> (forall x, trade_of (f x) = None) ->
  ctx_field on raw f m = (m', des) ->
  exists k, m' = dropped_by k m /\ trades_of des = [] /\ Forall (sound_event HYPERLIQUID) des.
Proof.
  intros Hf Ht E. unfold ctx_field in E. destruct on, raw as [raw|];
    [|injection E as <- <-; by exists 0%nat ..].
  unfold one_print, or_drop, keep, drop_counted in E.
  destruct (parse_dec raw) as [x|]; injection E as <- <-; [exists 0%nat|by exists 1%nat].
  split_and!; [done| |by apply Forall_singleton]. unfold trades_of. simpl. by rewrite Ht.
Qed.

Lemma hyperliquid_sound : adapter_sound HYPERLIQUID.
Proof.
  split_and!; [done|done|]. intros e symbols d. apply Forall_singleton.
  intros [b|ts|msg] m m' des E;
    cbn [sk_normalizer hyperliquid_socket counting_socket socket normalize hyperliquid_normalize] in E;
    cbn [sk_metrics sk_prints hyperliquid_socket counting_socket socket hyperliquid_prints].
  - destruct (hyb_levels b) as [|bids [|asks [|]]]; injection E as <- <-;
      try (exists 1%nat; apply frame_dropped).
    exists 0%nat. apply (books_sound HYPERLIQUID m [_]); [set_solver|].
    intros d' channel ->%list_elem_of_singleton. done.
  - apply (filter_map_sound HYPERLIQUID hyt_coin hyperliquid_normalize_trade); [|exact E].
    intros t _. unfold hyperliquid_normalize_trade. solve_print HYPERLIQUID.
  - unfold normalize_asset_ctx in E. destruct (decode HYPERLIQUID_CODEC _) as [p|];
      [|injection E as <- <-; exists 1%nat; apply frame_dropped].
    destruct (ctx_field _ _ _ m) as [m1 fr] eqn:E1. destruct (ctx_field _ _ _ m1) as [m2 oi] eqn:E2.
    injection E as <- <-.
    apply ctx_field_sound in E1 as (k1 & -> & Ht1 & HF1);
      [|intros x; split_and!; [set_solver|done|done]|done].
    apply ctx_field_sound in E2 as (k2 & -> & Ht2 & HF2);
      [|intros x; split_and!; [set_solver|done|done]|done].
    exists (k2 + k1)%nat. split; [by rewrite dropped_by_add|by left| |by apply Forall_app].
    rewrite trades_of_app, Ht1, Ht2. constructor.
Qed.

Lemma ctx_field_steady on raw f : steady (ctx_field on raw f).
Proof. unfold ctx_field. destruct on, raw; solve_steady. Qed.

Lemma hyperliquid_steady d ev : steady (hyperliquid_normalize d ev).
Proof.
  unfold hyperliquid_normalize, hyperliquid_normalize_trade. destruct ev as [b|ts|msg]; [solve_steady..|].
  unfold normalize_asset_ctx. intros m m'. destruct (decode _ _) as [p|]; [|done].
  match goal with |- context [ctx_field ?on ?raw ?f m] =>
    pose proof (ctx_field_steady on raw f m m') as H1;
    destruct (ctx_field on raw f m) as [m1 fr], (ctx_field on raw f m') as [m1' fr'] end.
  match goal with |- context [ctx_field ?on ?raw ?f m1] =>
    pose proof (ctx_field_steady on raw f m1 m1') as H2;
    destruct (ctx_field on raw f m1) as [m2 oi], (ctx_field on raw f m1') as [m2' oi'] end.
  simpl in *. by subst.
Qed.

Lemma ctx_field_declared on raw f m m' :
  (ctx_field on raw f m).2 `sublist_of` (ctx_field true raw f m').2.
Proof.
  destruct on; [by rewrite (ctx_field_steady true raw f m m')|]. apply sublist_nil_l.
Qed.

Lemma without_gaps_sublist des des' : des `sublist_of` des' -> without_gaps des `sublist_of` without_gaps des'.
Proof.
  induction 1 as [|x l l' _ IH|x l l' _ IH]; simpl; [done| |]; destruct (negb (is_gap x));
    first [by apply sublist_skip|by apply sublist_cons|done].
Qed.

Lemma hyperliquid_replays : replays HYPERLIQUID.
Proof.
  eapply (counting_replays HYPERLIQUID HyperliquidDecoder hyperliquid_normalize hyperliquid_prints
            (HyperliquidHooks Production)); [apply hyperliquid_steady| |by eexists|done].
  intros d ev m. apply without_gaps_sublist. destruct ev as [b|ts|msg]; [done..|]. simpl.
  unfold normalize_asset_ctx. destruct (decode _ _) as [p|]; [|done].
  change (declared_contains DeclFundingRates declared_all) with true.
  change (declared_contains DeclOpenInterest declared_all) with true.
  match goal with |- context [ctx_field (declared_contains DeclFundingRates d) ?raw ?f m] =>
    pose proof (ctx_field_declared (declared_contains DeclFundingRates d) raw f m m) as H1;
    destruct (ctx_field _ raw f m) as [m1 fr], (ctx_field true raw f m) as [m1' fr'] end.
  match goal with |- context [ctx_field (declared_contains DeclOpenInterest d) ?raw ?f m1] =>
    pose proof (ctx_field_declared (declared_contains DeclOpenInterest d) raw f m1 m1') as H2;
    destruct (ctx_field _ raw f m1) as [m2 oi], (ctx_field true raw f m1') as [m2' oi'] end.
  by apply sublist_app.
Qed.

Lemma hyperliquid_ack_no_data text :
  hyperliquid_classify_ack text <> NotAck -> HyperliquidDecoder_decode text = Ok None.
Proof.
  unfold hyperliquid_classify_ack, HyperliquidDecoder_decode. destruct (_ && _); [done|].
  destruct (from_str text) as [v|]; [|done]. simpl. destruct (get_str "channel" v) as [ch|]; [|done].
  destruct (String.eqb_spec ch "subscriptionResponse") as [->|_]; [done|].
  by destruct (String.eqb_spec ch "error") as [->|_].
Qed.

End Hyperliquid.
