(* ===== verification/Registry.v ===== *)
(** * The venues

    [register_all] of [src/aetelier-connect/src/framework/registry.rs] with its lookups, and what
    holds of every registered venue: its sockets keep the promise of [Venue.socket_sound], its
    offline replay reproduces what the live normalizer emits, its preview is what its sockets
    subscribe, and a frame it takes for an acknowledgement has no data. *)
From Stdlib Require Import Ascii String.
From S2P Require Import Prelude Budget Strings Numeric Pairs Types Delta Checksum Model Feed Runtime Reconcile Disconnect Reconnect Transport Drive Json Venue Binance Okx Bybit Kraken Gateio Bitget Poloniex Upbit Htx Kucoin Bitso Coinbase Hyperliquid.
Local Open Scope N_scope.

(** ** A socket in its drive loop *)

Section SocketRun.
Context {NU : Numeric} {TU : Tungstenite} {FL : Flate2} (sk : Socket).
#[local] Instance socket_hooks : ProtocolHooks := sk_hooks sk.
#[local] Instance socket_decoder : WssDecoder := sk_decoder sk.
#[local] Instance socket_normalizer : Normalizer := sk_normalizer sk.

Lemma trades_of_stamped receipt_us rtt epoch seq des :
  trade_pair <$> trades_of (stamped receipt_us rtt epoch seq des) = trade_pair <$> trades_of des.
Proof.
  revert seq. induction des as [|de des IH]; intros seq; [done|].
  rewrite stamped_cons. destruct de; csimpl; by rewrite IH.
Qed.

(** The stream of the drive loop has the trades of the normalizer's run, stamped. *)
Lemma stream_trades epoch (evs : list seen) nz seq out nz' seq' :
  stream epoch evs nz seq = (out, nz', seq') ->
  exists des, normalize_all sk evs.*1.*1 nz = (nz', des) /\
    trade_pair <$> trades_of out = trade_pair <$> trades_of des.
Proof.
  revert nz seq out nz' seq'.
  induction evs as [|[[ev rc] rtt] evs IH]; intros nz seq out nz' seq' E; simpl in E.
  { injection E as <- <- <-. by exists []. }
  destruct (normalize ev nz) as [nz1 des1] eqn:E1.
  destruct (stream epoch evs nz1 _) as [[out2 nz2] seq2] eqn:E2. injection E as <- <- <-.
  destruct (IH _ _ _ _ _ E2) as (des2 & Er & Ht). exists (des1 ++ des2). split.
  - unfold socket_normalizer, socket_decoder in *.
    rewrite !fmap_cons. cbn [fst normalize_all]. rewrite E1, Er. done.
  - rewrite !trades_of_app, !fmap_app, trades_of_stamped. by rewrite Ht.
Qed.

(** The trades sent on and the counter, against the prints of the frames received. *)
Record prints_accounted (a : ExchangeAdapter) (evs : list wss_event)
    (s : DriveState) (k : nat) : Prop := {
  pa_dropped : sk_metrics sk (dv_nz s) = dropped_by k (sk_metrics sk (sk_start sk));
  pa_short : (short_frames sk evs (sk_start sk) <= k)%nat;
  pa_most : (length (trades_of (dv_sent s)) <= length (all_prints sk evs))%nat;
  pa_all : short_frames sk evs (sk_start sk) = 0%nat ->
    length (trades_of (dv_sent s)) = length (all_prints sk evs);
  pa_pairs : trade_pair <$> trades_of (dv_sent s) `sublist_of`
    omap (decode (symbol_codec (profile a))) (all_prints sk evs)
}.

Lemma delivered_prints a epoch evs s :
  socket_sound a sk -> delivered epoch (sk_start sk) evs s ->
  exists k, prints_accounted a evs.*1.*1 s k.
Proof.
  intros Hs [_ _ E _]. destruct (stream_trades _ _ _ _ _ _ _ E) as (des & Er & Ht).
  destruct (socket_run_sound a sk _ _ _ _ Hs Er) as (k & Hm & Hk & Hl & Hz & Hp & _).
  assert (length (trades_of (dv_sent s)) = length (trades_of des)) as El.
  { by rewrite <-(length_fmap trade_pair), Ht, length_fmap. }
  exists k. split; [exact Hm|exact Hk| | |].
  - etransitivity; [apply Nat.eq_le_incl, El|exact Hl].
  - intros H0. etransitivity; [exact El|by apply Hz].
  - unfold socket_decoder, socket_normalizer in *. rewrite Ht. exact Hp.
Qed.

(** The loop has sent everything it received. *)
Definition all_sent (p : DrivePhase) : bool :=
  match p with Looping | Closing | DriveDone (TaskFailed _) => true | DriveDone _ => false end.

Lemma run_prints a u buffer xs c r stopped s :
  socket_sound a sk -> fresh_conn c ->
  drive_run u buffer xs (drive_start c (sk_start sk) r stopped) = Some s ->
  all_sent (dv_phase s) = true ->
  exists (evs : list seen) k,
    evs.*1 ++ raw s ++ option_list (pending (dv_conn s)) = omap input_event (socket_inputs xs) /\
    prints_accounted a evs.*1.*1 s k.
Proof.
  intros Hs Hc Hrun Hph.
  pose proof (drive_run_ok _ _ _ _ u buffer [] xs _ s (drive_start_ok c (sk_start sk) r stopped Hc) Hrun) as Hi.
  assert (accounts (conn_metrics c) (socket_inputs xs) (dv_conn s) /\
          exists evs, delivered (conn_epoch_us (conn_metrics c)) (sk_start sk) evs s) as (Ha & evs & Hd).
  { unfold drive_inv in Hi. destruct (dv_phase s) as [| |[| |reason|]]; simpl in Hph; try done.
    - destruct Hi as [? ? _]. done.
    - destruct Hi as [? ? _]. done.
    - destruct Hi as [? _ (Hd & _)]. done. }
  destruct (delivered_prints a _ _ _ Hs Hd) as [k Hk]. exists evs, k. split; [|done].
  rewrite (dl_taken _ _ _ _ Hd). unfold raw. rewrite (assoc_L (++)), take_drop.
  apply (acc_events _ _ _ Ha).
Qed.

End SocketRun.

Section Registry.
Context {NU : Numeric} {SJ : SerdeJson} {FT : FloatText} {CH : Chrono}.
Context {W1 : BinanceWire} {W2 : OkxWire} {W3 : BybitWire} {W4 : KrakenWire} {W5 : GateioWire}.
Context {W6 : BitgetWire} {W7 : PoloniexWire} {W8 : UpbitWire} {W9 : HtxWire} {W10 : KucoinWire}.
Context {W11 : BitsoWire} {W12 : CoinbaseWire} {W13 : HyperliquidWire}.

(** The clocks and the requests that some adapters read: the seconds on Gate.io's frames, the
    connection id and the token request of KuCoin, the tracker's clock and jitter. *)
Context (secs : nat -> N) (ping_at : N) (connect_id : string) (bullet : Result string string).
Context (now_at : nat -> Instant) (jitter_at : nat -> N).

Definition register_all : list ExchangeAdapter := [
  BINANCE; OKX; UPBIT; HTX; KUCOIN connect_id bullet; BITSO; BYBIT;
  COINBASE now_at jitter_at; KRAKEN; GATEIO secs ping_at; BITGET; POLONIEX; HYPERLIQUID
].

Definition registry : gmap string ExchangeAdapter :=
  list_to_map ((fun a => (venue_id a, a)) <$> register_all).

(** ** Lookups *)

Lemma venue_ids :
  venue_id <$> register_all =
  ["binance"; "okx"; "upbit"; "htx"; "kucoin"; "bitso"; "bybit"; "coinbase"; "kraken"; "gateio";
   "bitget"; "poloniex"; "hyperliquid"]%string.
Proof. done. Qed.

Lemma venue_ids_NoDup : NoDup (venue_id <$> register_all).
Proof. rewrite venue_ids. apply (bool_decide_unpack _). by vm_compute. Qed.

Lemma registry_lookup id a : registry !! id = Some a <-> a ∈ register_all /\ venue_id a = id.
Proof.
  unfold registry. rewrite <-elem_of_list_to_map.
  - rewrite list_elem_of_fmap. split; [by intros (b & [= -> ->] & ?)|].
    intros [Ha <-]. by exists a.
  - rewrite <-list_fmap_compose. apply venue_ids_NoDup.
Qed.

(** [resolve] accepts exactly the lists of registered names, and otherwise reports the
    names that are not, in their order. *)
Lemma resolve_exact ids :
  resolve registry ids =
  match filter (fun id => id ∉ venue_id <$> register_all) ids with
  | [] => Ok tt
  | missing => Err missing
  end.
Proof.
  unfold resolve.
  assert (filter (fun id => registry !! id = None) ids =
          filter (fun id => id ∉ venue_id <$> register_all) ids) as ->; [|done].
  apply list_filter_iff. intros id. rewrite eq_None_not_Some. f_equiv.
  rewrite list_elem_of_fmap. split.
  - intros [a [Ha <-]%registry_lookup]. by exists a.
  - intros (a & -> & Ha). exists a. by apply registry_lookup.
Qed.

Lemma all_sound : Forall adapter_sound register_all.
Proof.
  unfold register_all. repeat apply Forall_cons_2; try apply Forall_nil_2;
    eauto using binance_sound, okx_sound, upbit_sound, htx_sound, kucoin_sound,
    bitso_sound, bybit_sound, coinbase_sound, kraken_sound, gateio_sound, bitget_sound,
    poloniex_sound, hyperliquid_sound.
Qed.

Lemma registered_socket_sound a e symbols d sk :
  a ∈ register_all -> sk ∈ sockets a e symbols d -> socket_sound a sk.
Proof.
  intros Ha Hsk. pose proof all_sound as H. rewrite Forall_forall in H.
  destruct (H a Ha) as (_ & _ & Hs). specialize (Hs e symbols d). rewrite Forall_forall in Hs.
  by apply Hs.
Qed.

(** C10: no print of a venue disappears uncounted.  For every registered venue, every socket it
    opens and every interleaving of the transport with the drive loop, as long as the
    loop has sent on what it received: the frames normalized so far and those still in the
    channel are the decoded data frames of the socket in their order; the trades sent on have
    the pairs of the prints those frames carried, in their order; when every frame gave all
    its trades there are as many trades as prints; and the drop counter has moved at
    least once for every frame that gave fewer. *)
Theorem prints_delivered `{Tungstenite} `{Flate2} a e symbols d sk u buffer xs c r stopped
    (s : DriveState (WD := sk_decoder sk) (NZ := sk_normalizer sk)) :
  a ∈ register_all -> sk ∈ sockets a e symbols d -> fresh_conn c ->
  drive_run (PH := sk_hooks sk) u buffer xs (drive_start c (sk_start sk) r stopped) = Some s ->
  all_sent (dv_phase s) = true ->
  exists (evs : list (seen (WD := sk_decoder sk))) k,
    evs.*1 ++ raw s ++ option_list (pending (dv_conn s)) =
      omap (input_event (PH := sk_hooks sk)) (socket_inputs xs) /\
    prints_accounted sk a evs.*1.*1 s k.
Proof.
  intros Ha Hsk Hc Hrun Hph. eapply (run_prints sk); [|exact Hc|exact Hrun|exact Hph].
  by eapply registered_socket_sound.
Qed.

Lemma all_replay : Forall replays register_all.
Proof.
  unfold register_all. repeat apply Forall_cons_2; try apply Forall_nil_2;
    eauto using binance_replays, okx_replays, upbit_replays, htx_replays, kucoin_replays,
      bitso_replays, bybit_replays, coinbase_replays, kraken_replays, gateio_replays,
      bitget_replays, poloniex_replays, hyperliquid_replays.
Qed.

(** C21: the offline replay of a frame reproduces the live feed.  For every registered venue, a
    frame its decoder makes an event of replays without an error, whatever state the live
    normalizer is in; apart from the gaps a tracker reports, what the live normalizer emits
    is among the replayed events in their order, and it is exactly these when every
    datatype is declared. *)
Theorem replay_reproduces_live a e symbols d sk raw ev s :
  a ∈ register_all -> sk ∈ sockets a e symbols d ->
  wss_decode (WssDecoder := sk_decoder sk) raw = Ok (Some ev) ->
  exists des, replay_frame a raw = Ok des /\
    live sk ev s `sublist_of` without_gaps des /\
    (d = declared_all -> live sk ev s = without_gaps des).
Proof.
  intros Ha. pose proof all_replay as H. rewrite Forall_forall in H. by apply (H a Ha).
Qed.

Lemma all_preview : Forall previews register_all.
Proof.
  unfold register_all. repeat apply Forall_cons_2; try apply Forall_nil_2;
    try (eapply single_previews; intros e symbols d; [done|done|]; simpl).
  - unfold binance_subscribe_frames. solve_all_text.
  - unfold okx_subscribe_frames. solve_all_text.
  - unfold upbit_subscribe_frames. solve_all_text.
  - unfold htx_subscribe_frames. solve_all_text.
  - unfold kucoin_subscribe_frames. solve_all_text.
  - unfold bitso_subscribe_frames. solve_all_text.
  - unfold bybit_subscribe_frames. solve_all_text.
  - apply coinbase_previews.
  - unfold kraken_subscribe_frames. solve_all_text.
  - apply gateio_all_text.
  - unfold bitget_subscribe_frames. solve_all_text.
  - unfold poloniex_subscribe_frames. solve_all_text.
  - unfold hyperliquid_frames. solve_all_text.
Qed.

(** What a venue previews is what it subscribes: the texts of the preview are those of
    the subscription frames of the sockets that are opened for the same symbols and
    datatypes, in their order, in every environment, and all those frames are text. *)
Theorem preview_subscribes a e symbols d :
  a ∈ register_all ->
  subscribe_frames_preview a symbols d = (sk ← sockets a e symbols d; preview (sk_hooks sk) symbols d) /\
  (forall sk m, sk ∈ sockets a e symbols d ->
     m ∈ subscribe_frames (ProtocolHooks := sk_hooks sk) symbols d -> is_Some (message_text m)).
Proof.
  intros Ha. pose proof all_preview as H. rewrite Forall_forall in H.
  destruct (H a Ha e symbols d) as [Hp Ht]. split; [exact Hp|]. intros sk m Hsk Hm.
  rewrite Forall_forall in Ht. specialize (Ht sk Hsk). unfold all_text in Ht.
  rewrite Forall_forall in Ht. by apply Ht.
Qed.

Lemma all_acks : Forall (fun a => venue_id a <> "binance"%string -> acks_clear a) register_all.
Proof.
  unfold register_all. repeat apply Forall_cons_2; try apply Forall_nil_2; intros Hb;
    try apply coinbase_acks; try (by eapply single_acks; intros e symbols d).
  - eapply single_acks; intros e symbols d; [done|]. apply okx_ack_no_data.
  - eapply single_acks; intros e symbols d; [done|]. apply bybit_ack_no_data.
  - eapply single_acks; intros e symbols d; [done|]. apply hyperliquid_ack_no_data.
Qed.

(** A frame taken for an acknowledgement has no data to lose.  For every registered venue
    but Binance, a text that [classify_ack] accepts or rejects is one the decoder makes
    nothing of.  (Binance's verdict rests on the keys [result] and [error], its decoder
    on the key [e]; a text with both would be both.) *)
Theorem acks_carry_no_data a e symbols d sk text :
  a ∈ register_all -> venue_id a <> "binance"%string -> sk ∈ sockets a e symbols d ->
  classify_ack (ProtocolHooks := sk_hooks sk) text <> NotAck ->
  wss_decode (WssDecoder := sk_decoder sk) text = Ok None.
Proof.
  intros Ha Hb. pose proof all_acks as H. rewrite Forall_forall in H. by apply (H a Ha Hb).
Qed.

End Registry.

(** ** Examples

    OKX on a socket that delivers one frame of two prints, the second with a side nobody
    knows; every other wire type rejects every text. *)
Section Examples.
Local Existing Instances decimal_numeric toy_flate plain_ws.

Definition two_prints : string := "two prints".
Definition confirmation : string := quoted "event".

#[local] Instance toy_json : SerdeJson := {
  from_str t :=
    if String.eqb t two_prints then Ok (JObject [("arg", JObject [("channel", JString "trades")])])
    else if String.eqb t confirmation then Ok (JObject [("event", JString "subscribe")])
    else Err "unknown"%string;
  to_text _ := "{}"%string
}.
#[local] Instance toy_floats : FloatText := {
  f64_to_string _ := ""%string; f64_parse _ := None; f64_as_u64 _ := 0
}.
#[local] Instance toy_dates : Chrono := { parse_from_str _ _ := None; parse_from_rfc3339 _ := None }.
#[local] Instance rejected A : FromJson A | 10 := {
  from_text _ := Err "rejected"%string; from_value _ := Err "rejected"%string
}.

Definition toy_print (side : string) : OkxTradeData := {|
  okxt_inst_id := "BTC-USDT"; okxt_trade_id := "7"; okxt_px := "100"; okxt_sz := "2";
  okxt_side := side; okxt_ts := "1626531038288"
|}.

#[local] Instance toy_trades : FromJson OkxTradeResponse := {
  from_text t :=
    if String.eqb t two_prints then
      Ok {| okxt_arg := {| okx_channel := "trades"; okx_inst_id := "BTC-USDT" |};
            okxt_data := [toy_print "buy"; toy_print "unknown"] |}
    else Err "rejected"%string;
  from_value _ := Err "rejected"%string
}.

#[local] Instance w1 : BinanceWire. Proof. split; apply _. Defined.
#[local] Instance w2 : OkxWire. Proof. split; apply _. Defined.
#[local] Instance w3 : BybitWire. Proof. split; apply _. Defined.
#[local] Instance w4 : KrakenWire. Proof. split; apply _. Defined.
#[local] Instance w5 : GateioWire. Proof. split; apply _. Defined.
#[local] Instance w6 : BitgetWire. Proof. split; apply _. Defined.
#[local] Instance w7 : PoloniexWire. Proof. split; apply _. Defined.
#[local] Instance w8 : UpbitWire. Proof. split; apply _. Defined.
#[local] Instance w9 : HtxWire. Proof. split; apply _. Defined.
#[local] Instance w10 : KucoinWire. Proof. split; apply _. Defined.
#[local] Instance w11 : BitsoWire. Proof. split; apply _. Defined.
#[local] Instance w12 : CoinbaseWire. Proof. split; apply _. Defined.
#[local] Instance w13 : HyperliquidWire. Proof. split; apply _. Defined.

Definition toy_venues : list ExchangeAdapter :=
  register_all (fun _ => 0) 0 "id" (Err "offline"%string) (fun _ => 0) (fun _ => 2).

Lemma okx_registered : OKX ∈ toy_venues.
Proof. right. left. Qed.

Lemma okx_opens e symbols d : okx_socket ∈ sockets OKX e symbols d.
Proof. left. Qed.

Definition okx_conn : Conn (WD := OkxDecoder) := {|
  streamed := false; acked := 0; health := HealthMonitor_new DEFAULT_STALE_AFTER 0; rtt_us := 0;
  conn_metrics := SourceMetrics_default; pending := None; ingested := []; written := []
|}.

Definition okx_inputs : list DriveInput :=
  [DvSocket (text_at 1 two_prints); DvSocket InRoom; DvRecv].

Definition okx_run : option (DriveState (WD := OkxDecoder) (NZ := sk_normalizer okx_socket)) :=
  drive_run (PH := sk_hooks okx_socket) toy_setup 4 okx_inputs
    (drive_start okx_conn (sk_start okx_socket) None false).

Definition okx_summary (s : DriveState (WD := OkxDecoder) (NZ := sk_normalizer okx_socket))
    : nat * bool * N :=
  (length (trades_of (dv_sent s)), all_sent (dv_phase s),
   sk_metrics okx_socket (dv_nz s) C_dropped_frames).

(** Two prints, one trade, one drop. *)
Lemma prints_delivered_witness : exists s (evs : list (seen (WD := OkxDecoder))) k,
  okx_run = Some s /\ length (trades_of (dv_sent s)) = 1%nat /\
  sk_metrics okx_socket (dv_nz s) C_dropped_frames = 1 /\
  prints_accounted okx_socket OKX (evs.*1.*1) s k.
Proof.
  assert (Hf : fresh_conn okx_conn) by (split_and!; done).
  assert (H : okx_summary <$> okx_run = Some (1%nat, true, 1)) by (vm_compute; reflexivity).
  apply fmap_Some_1 in H as (s & E & H). unfold okx_summary in H. injection H as H1 H2 H3.
  destruct (prints_delivered (fun _ => 0) 0 "id" (Err "offline"%string) (fun _ => 0) (fun _ => 2)
    OKX Production [] declared_all okx_socket toy_setup 4 okx_inputs okx_conn None false s
    okx_registered (okx_opens _ _ _) Hf E (eq_sym H2)) as (evs & k & _ & Hk).
  exists s, evs, k. split_and!; [done|exact (eq_sym H1)|exact (eq_sym H3)|exact Hk].
Defined.

Lemma replay_reproduces_live_witness : exists des,
  replay_frame OKX two_prints = Ok des /\ length (without_gaps des) = 1%nat.
Proof.
  destruct (replay_reproduces_live (fun _ => 0) 0 "id" (Err "offline"%string) (fun _ => 0) (fun _ => 2)
    OKX Production [] declared_all okx_socket two_prints
    (OkxTrades [toy_print "buy"; toy_print "unknown"]) SourceMetrics_default
    okx_registered (okx_opens _ _ _) eq_refl) as (des & Hr & _ & Hl).
  exists des. split; [exact Hr|]. rewrite <-(Hl eq_refl). vm_compute. reflexivity.
Defined.

Lemma preview_subscribes_witness :
  subscribe_frames_preview OKX ["BTC-USDT"%string] declared_all = ["{}"%string].
Proof.
  rewrite (proj1 (preview_subscribes (fun _ => 0) 0 "id" (Err "offline"%string) (fun _ => 0) (fun _ => 2)
    OKX Production ["BTC-USDT"%string] declared_all okx_registered)).
  vm_compute. reflexivity.
Defined.

Lemma acks_carry_no_data_witness :
  okx_classify_ack confirmation = Accepted /\ OkxDecoder_decode confirmation = Ok None.
Proof.
  split; [vm_compute; reflexivity|].
  refine (acks_carry_no_data (fun _ => 0) 0 "id" (Err "offline"%string) (fun _ => 0) (fun _ => 2)
    OKX Production [] declared_all okx_socket confirmation okx_registered _ (okx_opens _ _ _) _);
    [done|by vm_compute].
Defined.
End Examples.
