(* ===== verification/Settlements.v ===== *)
(** * The funding settlements of Hyperliquid

    The settlement poller of [src/aetelier-connect/src/framework/adapters/hyperliquid.rs]
    ([settlement_poller], [fetch_settlements]): a task beside the socket that asks, once an
    hour and symbol by symbol, for the settlements since a start time, with one retry.

    The answers of the venue, the clock readings of a cycle and how a wait ends are the
    environment, given cycle by cycle. *)
From Stdlib Require Import Ascii String.
From S2P Require Import Prelude Budget Strings Numeric Pairs Types Delta Model Feed Runtime Disconnect Reconnect Transport Drive Json Venue Hyperliquid.
Local Open Scope N_scope.

Section Settlements.
Context {NU : Numeric}.

(** ** One request *)

Definition SETTLEMENT_FETCH_DELAY_SECS : N := 5.
Definition HOUR_MS : N := 3600000.
Definition SETTLEMENT_BACKFILL_MS : N := HOUR_MS.
Definition SETTLEMENT_OVERLAP_MS : N := HOUR_MS.

(** What comes back from [POST info_url]: nothing, or a status, as it is printed, with a body
    of rows. *)
Inductive InfoAnswer :=
| Unanswered (e : string)
| Answered (status : N) (shown : string) (rows : Result (list HyperliquidFundingHistoryRow) string).

(** A request as the environment lets it run: the answer, the time it took, the clock after
    it, and how many sends the receiver takes before it is gone ([None]: it stays). *)
Record Attempt := {
  at_answer : InfoAnswer;
  at_rtt_us : N;
  at_local_ts_us : N;
  at_receiver : option nat
}.

Definition is_success (status : N) : bool := (200 <=? status) && (status <? 300).

(** A row as a settlement; rows with an unknown coin or an unreadable rate are passed over. *)
Definition settlement_of (a : Attempt) (row : HyperliquidFundingHistoryRow) : option FundingSettlement :=
  p ← decode HYPERLIQUID_CODEC (hyr_coin row);
  rate ← parse_dec (hyr_funding_rate row);
  Some {|
    funding_time_us := epoch_to_us (hyr_time row);
    settlement_local_ts_us := at_local_ts_us a;
    settlement_rtt_us := at_rtt_us a;
    settlement_pair := p;
    settlement_rate := rate;
    settlement_premium := (r ← hyr_premium row; parse_dec r);
    settlement_exchange := "hyperliquid"
  |}.

(** The settlements sent, and what the call returns: their number, or why it failed. *)
Definition fetch_settlements (a : Attempt) : list FundingSettlement * Result nat string :=
  match at_answer a with
  | Unanswered e => ([], Err e)
  | Answered status shown rows =>
    if negb (is_success status) then ([], Err ("fundingHistory status " ++ shown)%string)
    else match rows with
         | Err e => ([], Err e)
         | Ok rows =>
           let all := omap (settlement_of a) rows in
           let sent := match at_receiver a with None => all | Some n => take n all end in
           (sent, Ok (length sent))
         end
  end.

(** ** A cycle *)

(** At most two attempts; the second is made when the first fails. *)
Definition collect (attempts : Attempt * Attempt) : list FundingSettlement * bool :=
  match fetch_settlements attempts.1 with
  | (sent, Ok _) => (sent, true)
  | (_, Err _) =>
    match fetch_settlements attempts.2 with
    | (sent, Ok _) => (sent, true)
    | (_, Err _) => ([], false)
    end
  end.

(** How the wait of a cycle ends: the timer, or a change of the shutdown watch. *)
Inductive Waited := WaitedOut | WatchChanged (stop : bool).

Record Cycle := {
  cy_begin_us : N;
  cy_attempts : string -> Attempt * Attempt;
  cy_end_us : N;
  cy_waited : Waited
}.

(** What a cycle did: the start it asked from, and per symbol the events and whether one of
    the attempts went through. *)
Record CycleReport := {
  cr_start_ms : N;
  cr_cycle : Cycle;
  cr_symbols : list (string * (list FundingSettlement * bool))
}.

Definition run_cycle (symbols : list string) (start_ms : N) (cy : Cycle) : CycleReport := {|
  cr_start_ms := start_ms; cr_cycle := cy;
  cr_symbols := (fun s => (s, collect (cy_attempts cy s))) <$> symbols
|}.

Definition to_ms (us : N) : N := us / 1000.

Definition first_start (now_us : N) : N := to_ms now_us - SETTLEMENT_BACKFILL_MS.
Definition next_start (cy : Cycle) : N := to_ms (cy_end_us cy) - SETTLEMENT_OVERLAP_MS.

(** Until five seconds past the next full hour. *)
Definition wait_ms (now_ms : N) : N :=
  let next_hour_ms := (now_ms / HOUR_MS + 1) * HOUR_MS in
  next_hour_ms - now_ms + SETTLEMENT_FETCH_DELAY_SECS * 1000.

(** ** The task *)

Fixpoint poll_from (symbols : list string) (start_ms : N) (cycles : list Cycle) : list CycleReport :=
  match cycles with
  | [] => []
  | cy :: cycles =>
    run_cycle symbols start_ms cy ::
    match cy_waited cy with
    | WatchChanged true => []
    | _ => poll_from symbols (next_start cy) cycles
    end
  end.

(** Without an HTTP client the task ends at once. *)
Definition settlement_poller (client_built : bool) (symbols : list string) (now_us : N)
    (cycles : list Cycle) : list CycleReport :=
  if client_built then poll_from symbols (first_start now_us) cycles else [].

(** [spawn_env] starts the poller when funding rates are declared. *)
Definition spawn_poller (d : DeclaredSet) (client_built : bool) (symbols : list string) (now_us : N) (cycles : list Cycle)
    : list CycleReport :=
  if declared_contains DeclFundingRates d then settlement_poller client_built symbols now_us cycles
  else [].

(** The events a report sent on, in their order. *)
Definition report_events (r : CycleReport) : list DomainEvent :=
  FundingSettlementEvent <$> (x ← cr_symbols r; x.2.1).

(** ** What the poller promises *)

(** The venue keeps, per coin, the settlements with the times they fell due. *)
Definition History : Type := string -> list HyperliquidFundingHistoryRow.

(** The documented answer: the rows of the coin from the start time on, as of the request. *)
Definition answers (h : History) (sym : string) (start_ms upto_ms : N) (a : Attempt) : Prop :=
  forall status shown rows, at_answer a = Answered status shown (Ok rows) ->
    forall row, row ∈ h sym -> start_ms <= hyr_time row -> hyr_time row <= upto_ms -> row ∈ rows.

(** A cycle in which the venue keeps to it and the receiver stays. *)
Definition fair_cycle (h : History) (symbols : list string) (start_ms : N) (cy : Cycle) : Prop :=
  forall s, s ∈ symbols ->
    (answers h s start_ms (to_ms (cy_begin_us cy)) (cy_attempts cy s).1 /\
     answers h s start_ms (to_ms (cy_begin_us cy)) (cy_attempts cy s).2) /\
    at_receiver (cy_attempts cy s).1 = None /\ at_receiver (cy_attempts cy s).2 = None.

(** The clock does not go back, and a cycle takes at most an hour. *)
Fixpoint timely (from_us : N) (cycles : list Cycle) : Prop :=
  match cycles with
  | [] => True
  | cy :: cycles =>
    from_us <= cy_begin_us cy /\ cy_begin_us cy <= cy_end_us cy /\
    to_ms (cy_end_us cy) <= to_ms (cy_begin_us cy) + HOUR_MS /\ timely (cy_end_us cy) cycles
  end.

(** The window of a report: from the start it asked from to the begin of its cycle. *)
Definition in_window (t : N) (r : CycleReport) : Prop :=
  cr_start_ms r <= t /\ t <= to_ms (cy_begin_us (cr_cycle r)).

Lemma fetch_answered h s start upto a sent n row fs :
  answers h s start upto a -> at_receiver a = None -> fetch_settlements a = (sent, Ok n) ->
  row ∈ h s -> start <= hyr_time row -> hyr_time row <= upto ->
  settlement_of a row = Some fs -> fs ∈ sent.
Proof.
  intros Ha Hr E Hrow Hlo Hhi Hfs. unfold fetch_settlements in E. rewrite Hr in E.
  destruct (at_answer a) as [e|status shown rows] eqn:Ea; [done|].
  destruct (negb (is_success status)); [done|]. destruct rows as [rows|e]; [|done].
  injection E as <- <-. apply list_elem_of_omap. exists row. split; [|done]. by eapply Ha.
Qed.

(** A settlement, up to when and how it was received. *)
Definition same_settlement (row : HyperliquidFundingHistoryRow) (fs : FundingSettlement) : Prop :=
  exists a, settlement_of a row = Some fs.

Definition readable (row : HyperliquidFundingHistoryRow) : Prop :=
  is_Some (decode HYPERLIQUID_CODEC (hyr_coin row)) /\ is_Some (parse_dec (hyr_funding_rate row)).

Lemma readable_settlement a row : readable row -> is_Some (settlement_of a row).
Proof. intros [[p Hp] [r Hr]]. unfold settlement_of. rewrite Hp. simpl. rewrite Hr. by eexists. Qed.

(** What a report sent of a row in its window. *)
Definition delivered (s : string) (row : HyperliquidFundingHistoryRow) (r : CycleReport) : Prop :=
  forall sent, (s, (sent, true)) ∈ cr_symbols r -> exists fs, fs ∈ sent /\ same_settlement row fs.

Lemma run_cycle_delivers h symbols start cy s row :
  fair_cycle h symbols start cy -> row ∈ h s -> readable row ->
  in_window (hyr_time row) (run_cycle symbols start cy) -> delivered s row (run_cycle symbols start cy).
Proof.
  intros Hf Hrow Hread [Hlo Hhi] sent Hin. simpl in *.
  apply list_elem_of_fmap in Hin as (s' & [= <- Hc] & Hs). destruct (Hf s Hs) as ([H1 H2] & Hr1 & Hr2).
  unfold collect in Hc.
  assert (forall a n, answers h s start (to_ms (cy_begin_us cy)) a -> at_receiver a = None ->
    fetch_settlements a = (sent, Ok n) -> exists fs, fs ∈ sent /\ same_settlement row fs) as Hone.
  { intros a n Ha Hr E. destruct (readable_settlement a row Hread) as [fs Hfs].
    exists fs. split; [by eapply fetch_answered|by exists a]. }
  destruct (fetch_settlements (cy_attempts cy s).1) as [sent1 [n|e]] eqn:E1.
  - injection Hc as ->. exact (Hone _ n H1 Hr1 E1).
  - destruct (fetch_settlements (cy_attempts cy s).2) as [sent2 [n|e2]] eqn:E2; [|done].
    injection Hc as ->. exact (Hone _ n H2 Hr2 E2).
Qed.

(** The windows of successive cycles overlap. *)
Lemma next_start_overlaps cy : to_ms (cy_end_us cy) <= to_ms (cy_begin_us cy) + HOUR_MS ->
  next_start cy <= to_ms (cy_begin_us cy).
Proof. unfold next_start, SETTLEMENT_OVERLAP_MS. lia. Qed.

Fixpoint last_begin (r : list CycleReport) : option N :=
  match r with
  | [] => None
  | r :: rs => Some (default (to_ms (cy_begin_us (cr_cycle r))) (last_begin rs))
  end.

Lemma windows_cover symbols cycles start from t b :
  timely from cycles -> last_begin (poll_from symbols start cycles) = Some b ->
  start <= t -> t <= b -> exists r, r ∈ poll_from symbols start cycles /\ in_window t r.
Proof.
  revert start from b. induction cycles as [|cy cycles IH]; intros start from b; [done|].
  intros (_ & _ & Hlen & Ht) Hb Hlo Hhi. cbn [poll_from] in *.
  destruct (decide (t <= to_ms (cy_begin_us cy))) as [Hin|Hout].
  { exists (run_cycle symbols start cy). split; [by left|done]. }
  cbn [last_begin cr_cycle run_cycle] in Hb. injection Hb as Hb.
  set (rest := match cy_waited cy with WatchChanged true => [] | _ => _ end) in *.
  destruct (last_begin rest) as [b'|] eqn:El; simpl in Hb; [subst b'|lia].
  assert (rest = poll_from symbols (next_start cy) cycles) as Er.
  { subst rest. destruct (cy_waited cy) as [|[]]; [done|done|done]. }
  rewrite Er in El. pose proof (next_start_overlaps cy Hlen).
  destruct (IH (next_start cy) (cy_end_us cy) b Ht El) as (r & Hr & Hw); [lia|done|].
  exists r. split; [right; by rewrite Er|done].
Qed.

Fixpoint fair_run (h : History) (symbols : list string) (start_ms : N) (cycles : list Cycle) : Prop :=
  match cycles with
  | [] => True
  | cy :: cycles => fair_cycle h symbols start_ms cy /\ fair_run h symbols (next_start cy) cycles
  end.

Lemma poll_from_inv h symbols start cycles r :
  fair_run h symbols start cycles -> r ∈ poll_from symbols start cycles ->
  exists start' cy, r = run_cycle symbols start' cy /\ fair_cycle h symbols start' cy.
Proof.
  revert start. induction cycles as [|cy cycles IH]; intros start; [by intros _ ?%not_elem_of_nil|].
  intros [Hf Hrun] [->|Hr]%elem_of_cons; [by exists start, cy|].
  destruct (cy_waited cy) as [|[]]; [by eapply IH|by apply not_elem_of_nil in Hr|by eapply IH].
Qed.

Lemma windows_retry symbols start from cycles pre r1 r2 post t :
  timely from cycles -> poll_from symbols start cycles = pre ++ r1 :: r2 :: post ->
  in_window t r1 -> to_ms (cy_end_us (cr_cycle r1)) <= t + HOUR_MS -> in_window t r2.
Proof.
  revert start from pre. induction cycles as [|cy cycles IH]; intros start from pre; [by destruct pre|].
  intros (_ & Hbe & _ & Ht) E. cbn [poll_from] in E.
  set (rest := match cy_waited cy with WatchChanged true => [] | _ => _ end) in *.
  assert (rest = [] \/ rest = poll_from symbols (next_start cy) cycles) as [Er|Er].
  { subst rest. destruct (cy_waited cy) as [|[]]; auto. }
  { rewrite Er in E. by destruct pre as [|? [|]]. }
  rewrite Er in E. destruct pre as [|r0 pre]; injection E as <- E.
  - destruct cycles as [|cy2 cycles]; [done|]. cbn [poll_from] in E. injection E as <- _.
    destruct Ht as (Hb2 & _). intros [_ Hhi] Hold. unfold in_window in *. simpl in *.
    unfold next_start, SETTLEMENT_OVERLAP_MS. split; [lia|].
    etrans; [exact Hhi|]. apply N.Div0.div_le_mono. lia.
  - intros. by eapply IH.
Qed.

Lemma next_hour ms : let due := (ms / HOUR_MS + 1) * HOUR_MS in
  ms < due /\ due <= ms + HOUR_MS /\ ms + wait_ms ms = due + 5000.
Proof.
  unfold wait_ms, SETTLEMENT_FETCH_DELAY_SECS, HOUR_MS. cbv zeta.
  pose proof (N.div_mod' ms 3600000) as Hd. pose proof (N.mod_lt ms 3600000 ltac:(done)) as Hm.
  revert Hd Hm. generalize (ms / 3600000), (ms mod 3600000). intros q r -> Hr.
  split_and!; lia.
Qed.

(** C27: the settlement poller misses no settlement of a listed coin between an hour before it
    started and the begin of its last cycle, when the clock does not go back, no cycle takes
    longer than an hour and the venue answers with the rows since the start time: every such
    row falls into the window of some cycle, and a cycle that collected the coin has sent the
    settlement of every readable row in its window.  A row at most an hour old when a cycle
    ends is asked for again by the next one, so one failed cycle loses nothing; and the
    wait after a cycle ends five seconds past the next full hour. *)
Theorem settlements_collected h symbols now cycles s row b : s ∈ symbols ->
  timely now cycles -> fair_run h symbols (first_start now) cycles ->
  let reports := settlement_poller true symbols now cycles in
  last_begin reports = Some b ->
  row ∈ h s -> readable row -> first_start now <= hyr_time row -> hyr_time row <= b ->
  (exists r, r ∈ reports /\ in_window (hyr_time row) r) /\
  (forall r, r ∈ reports -> in_window (hyr_time row) r -> delivered s row r) /\
  (forall pre r1 r2 post, reports = pre ++ r1 :: r2 :: post -> in_window (hyr_time row) r1 ->
     to_ms (cy_end_us (cr_cycle r1)) <= hyr_time row + HOUR_MS -> in_window (hyr_time row) r2) /\
  (forall ms, ms + wait_ms ms = (ms / HOUR_MS + 1) * HOUR_MS + SETTLEMENT_FETCH_DELAY_SECS * 1000).
Proof.
  intros Hs Ht Hf reports Hb Hrow Hread Hlo Hhi. split_and!.
  - by eapply windows_cover.
  - intros r Hr Hw. destruct (poll_from_inv _ _ _ _ _ Hf Hr) as (start & cy & -> & Hfair).
    by eapply run_cycle_delivers.
  - intros pre r1 r2 post E. by eapply windows_retry.
  - intros ms. apply next_hour.
Qed.
End Settlements.

(** ** Two cycles around an hour *)

#[local] Existing Instance decimal_numeric.

Definition ex_row (ms : N) : HyperliquidFundingHistoryRow := {|
  hyr_coin := "BTC"; hyr_funding_rate := "0.0000125"; hyr_premium := None; hyr_time := ms |}.
Definition ex_history (coin : string) : list HyperliquidFundingHistoryRow :=
  if String.eqb coin "BTC" then [ex_row 7200000] else [].

Definition ex_attempt (a : InfoAnswer) : Attempt := {|
  at_answer := a; at_rtt_us := 20000; at_local_ts_us := 7205100000; at_receiver := None |}.
Definition ex_cycle (begin_s : N) (first second : InfoAnswer) : Cycle := {|
  cy_begin_us := begin_s * 1000000; cy_attempts _ := (ex_attempt first, ex_attempt second);
  cy_end_us := (begin_s + 40) * 1000000; cy_waited := WaitedOut |}.

(** Started at 1:30; the cycle of 2:00:05 gets its answer from the second attempt. *)
Definition ex_cycles : list Cycle :=
  [ex_cycle 5400 (Answered 200 "200 OK" (Ok [])) (Unanswered "");
   ex_cycle 7205 (Unanswered "timeout") (Answered 200 "200 OK" (Ok [ex_row 7200000]))].

Lemma settlements_collected_witness :
  (exists r, r ∈ settlement_poller true ["BTC"%string] 5400000000 ex_cycles /\ in_window 7200000 r) /\
  (forall r, r ∈ settlement_poller true ["BTC"%string] 5400000000 ex_cycles -> in_window 7200000 r ->
     delivered "BTC" (ex_row 7200000) r).
Proof.
  edestruct (settlements_collected ex_history ["BTC"%string] 5400000000 ex_cycles "BTC" (ex_row 7200000)
    7205000) as (H1 & H2 & _); [..|split; [exact H1|exact H2]].
  - left.
  - vm_compute. intuition discriminate.
  - cbn [fair_run ex_cycles]. split; [|split; [|exact I]].
    + intros s ->%list_elem_of_singleton. split; [split|split; reflexivity].
      * intros status shown rows [= <- <- <-] row Hr _ Hhi. apply list_elem_of_singleton in Hr as ->.
        vm_compute in Hhi. contradiction Hhi. reflexivity.
      * intros status shown rows [=].
    + intros s ->%list_elem_of_singleton. split; [split|split; reflexivity].
      * intros status shown rows [=].
      * intros status shown rows [= <- <- <-] row Hr _ _. exact Hr.
  - reflexivity.
  - left.
  - split; eexists; vm_compute; reflexivity.
  - vm_compute. discriminate.
  - vm_compute. discriminate.
Defined.
