(* ===== verification/SyncFlush.v ===== *)
(** * Flushing the synchronizers to Parquet

    [src/aetelier-io/src/flush.rs]: the extension traits that write the buffered rows of a
    market synchronizer, and the buffered books of an order-book synchronizer, to one file
    per datatype, and release the buffer when every file is written.  The aggregate writer is
    left out with the floating-point statistics it writes. *)
From Stdlib Require Import Ascii String.
From stdpp Require Import strings pretty.
From S2P Require Import Prelude BTree Strings Numeric Pairs Types Book Snapshots MarketSync ObSync Disk Leaf Columnar ColumnarProps Sinks Flusher FlusherProps.
Local Open Scope string_scope.
Local Open Scope list_scope.

Record FlushResult := {
  orderbook_path : option Path;
  trades_path : option Path;
  liquidations_path : option Path;
  funding_path : option Path;
  open_interest_path : option Path;
  funding_settlement_path : option Path;
  snapshot_count : nat
}.

Definition FlushResult_default : FlushResult := {|
  orderbook_path := None; trades_path := None; liquidations_path := None; funding_path := None;
  open_interest_path := None; funding_settlement_path := None; snapshot_count := 0
|}.

Section SyncFlush.
Context {NU : Numeric} {PQ : Parquet} {CA : Calendar} {DK : Disk}.
Local Open Scope io_scope.

(** The records of a datatype, when there are some, into a file of its directory. *)
Definition write_source {A} (rows : list A) (output_dir sub : string)
    (write : A -> list A -> string -> IO string) : IO (option Path) :=
  match rows with
  | [] => io_ret None
  | r :: rest =>
    let dir := path_join output_dir sub in
    do! create_dir_all dir in
    let! file := write r rest dir in
    io_ret (Some (dir, file))
  end.

(** [.map_err(|e| PersistError::Parse(e.to_string()))?] *)
Definition as_parse_error {A} (m : IO A) : IO A := fun s =>
  match m s with (s, r) => (s, map_err (fun e => PersistParse (PersistError_fmt e)) r) end.

Definition flush_sources (snapshots : list MarketSnapshot) (output_dir : string) : IO FlushResult :=
  let d := decompose_snapshots snapshots in
  let! ob := write_source (orderbooks d) output_dir "orderbooks"
    (fun o rest dir => as_parse_error (write_ob_parquet o rest dir "sync")) in
  let! tr := write_source (trades d) output_dir "trades"
    (fun t rest dir => write_trades_parquet_timestamped (t :: rest) dir "sync") in
  let! li := write_source (liquidations d) output_dir "liquidations"
    (fun l rest dir => write_liquidations_parquet_timestamped (l :: rest) dir "sync") in
  let! fr := write_source (funding_rates d) output_dir "fundings"
    (fun f rest dir => write_funding_parquet_timestamped (f :: rest) dir "sync") in
  let! oi := write_source (open_interests d) output_dir "open_interests"
    (fun o rest dir => write_oi_parquet_timestamped (o :: rest) dir "sync") in
  let! fs := write_source (funding_settlements d) output_dir "funding_settlements"
    (fun f rest dir => write_funding_settlement_parquet_timestamped (f :: rest) dir "sync") in
  io_ret {| orderbook_path := ob; trades_path := tr; liquidations_path := li; funding_path := fr;
            open_interest_path := oi; funding_settlement_path := fs;
            snapshot_count := length snapshots |}.

(** [?] returns before the buffer is cleared. *)
Definition market_flush_to_parquet (output_dir : string) (sync : MarketSynchronizer) (s : Fs)
    : Fs * MarketSynchronizer * Result FlushResult PersistError :=
  match buffer sync with
  | [] => (s, sync, Ok FlushResult_default)
  | snapshots =>
    match flush_sources snapshots output_dir s with
    | (s, Ok result) => (s, with_buffer [] sync, Ok result)
    | (s, Err e) => (s, sync, Err e)
    end
  end.

Definition ob_flush_to_parquet (output_dir : string) (sync : ObSynchronizer) (s : Fs)
    : Fs * ObSynchronizer * Result (option Path) PersistError :=
  match ob_buffer sync with
  | [] => (s, sync, Ok None)
  | o :: rest =>
    match write_ob_parquet o rest output_dir "sync" s with
    | (s, Ok file) => (s, with_ob_buffer [] (ob_total_captured sync) sync, Ok (Some (output_dir, file)))
    | (s, Err e) => (s, sync, Err e)
    end
  end.
End SyncFlush.

(** ** What a flush leaves *)

Section Kept.
Context {NU : Numeric} {PQ : Parquet} {PL : ParquetLaws PQ} {CA : Calendar} {DK : Disk}.

(** Every file that was there is there unchanged. *)
Definition files_kept (s s' : Fs) : Prop :=
  forall p c, file_at p s = Some c -> file_at p s' = Some c.

#[export] Instance files_kept_preorder : PreOrder files_kept.
Proof. split; [by intros s p c|intros s1 s2 s3 H12 H23 p c Hc; auto]. Qed.

Lemma only_touches_kept p s s' :
  file_at p s = None -> only_touches (eq p) s s' -> files_kept s s'.
Proof.
  intros Hn (_ & _ & Hf) q c Hc. destruct (decide (p = q)) as [->|Hne]; [congruence|]. by rewrite Hf.
Qed.

(** A file with the content appears under a name that was free. *)
Definition puts (write : string -> IO string) (content : string) : Prop :=
  forall dir s, ensures (write dir) s (fun s' r =>
    files_kept s s' /\ forall f, r = Ok f -> file_at (dir, f) s' = Some content).

Lemma file_free dir name s : file_at (dir, unique_path dir name s) s = None.
Proof. pose proof (unique_path_fresh dir name s) as H. unfold file_exists in H. by destruct (file_at _ s). Qed.

Lemma puts_stamped {A} {TB : Table A} stamps name (rows : list A) :
  puts (fun dir => write_stamped stamps name write_table rows dir) (table_bytes rows).
Proof.
  intros dir s. eapply ensures_mono; [apply write_stamped_ensures|].
  intros s' r (stamp & Ht & Hf). split; [by eapply only_touches_kept, Ht; apply file_free|].
  intros f Hr. by destruct (Hf f Hr) as [-> ?].
Qed.

Lemma puts_books o rest mode :
  puts (fun dir => write_ob_parquet o rest dir mode) (books_bytes (o :: rest)).
Proof.
  intros dir s. eapply ensures_mono; [apply write_ob_parquet_ensures|].
  intros s' r (stamp & Ht & Hf). split; [by eapply only_touches_kept, Ht; apply file_free|].
  intros f Hr. by destruct (Hf f Hr) as [-> ?].
Qed.

Lemma puts_parse_error write content : puts write content -> puts (fun dir => as_parse_error (write dir)) content.
Proof.
  intros H dir s. specialize (H dir s). unfold ensures, as_parse_error in *.
  destruct (write dir s) as [s' [f|e]]; [done|]. split; [apply H|by intros f [=]].
Qed.

(** The file of a datatype: none without records, else one with all of them. *)
Definition written {A} (dir : string) (bytes : list A -> string) (rows : list A) (path : option Path)
    (s : Fs) : Prop :=
  match rows with
  | [] => path = None
  | _ => exists file, path = Some (dir, file) /\ file_at (dir, file) s = Some (bytes rows)
  end.

Lemma written_kept {A} dir (bytes : list A -> string) rows path s s' :
  files_kept s s' -> written dir bytes rows path s -> written dir bytes rows path s'.
Proof. intros Hk. destruct rows; [done|]. intros (file & -> & Hf). exists file. auto. Qed.

Lemma write_source_ensures {A} (rows : list A) out sub write (bytes : list A -> string) s :
  (forall r rest, rows = r :: rest -> puts (write r rest) (bytes rows)) ->
  ensures (write_source rows out sub write) s (fun s' r =>
    files_kept s s' /\ forall path, r = Ok path -> written (path_join out sub) bytes rows path s').
Proof.
  intros Hw. destruct rows as [|r rest]; cbn [write_source].
  { apply ensures_ret. split; [done|]. by intros path [= <-]. }
  apply ensures_bind. eapply ensures_mono; [apply (create_dir_all_ensures (fun _ => False))|].
  intros s1 v (_ & _ & H1).
  assert (files_kept s s1) as Hk1 by (intros p c Hc; rewrite H1; tauto).
  destruct v as [u|e]; [|done].
  apply ensures_bind. eapply ensures_mono; [by apply (Hw r rest)|].
  intros s2 [file|e] [Hk2 Hf]; [|split; [by etrans|done]].
  apply ensures_ret. split; [by etrans|]. intros path [= <-]. exists file. auto.
Qed.

(** The files a result names hold the rows. *)
Record Flushed (out : string) (snapshots : list MarketSnapshot) (r : FlushResult) (s : Fs) : Prop := {
  flushed_books : written (path_join out "orderbooks") books_bytes
    (orderbooks (decompose_snapshots snapshots)) (orderbook_path r) s;
  flushed_trades : written (path_join out "trades") table_bytes
    (trades (decompose_snapshots snapshots)) (trades_path r) s;
  flushed_liquidations : written (path_join out "liquidations") table_bytes
    (liquidations (decompose_snapshots snapshots)) (liquidations_path r) s;
  flushed_funding : written (path_join out "fundings") table_bytes
    (funding_rates (decompose_snapshots snapshots)) (funding_path r) s;
  flushed_interest : written (path_join out "open_interests") table_bytes
    (open_interests (decompose_snapshots snapshots)) (open_interest_path r) s;
  flushed_settlements : written (path_join out "funding_settlements") table_bytes
    (funding_settlements (decompose_snapshots snapshots)) (funding_settlement_path r) s;
  flushed_count : snapshot_count r = length snapshots
}.

(** The next datatype of the flush. *)
Ltac next_source bytes :=
  apply ensures_bind; eapply ensures_mono;
    [apply (write_source_ensures _ _ _ _ bytes); intros r0 rest ->;
     first [apply puts_parse_error, puts_books|apply puts_stamped]|];
  let s := fresh "s" in let Hk := fresh "Hk" in let Hw := fresh "Hw" in
  intros s [?|?] [Hk Hw];
    [specialize (Hw _ eq_refl)|split; [repeat first [eassumption|etrans; [eassumption|]]|done]].

Ltac written_along :=
  eapply written_kept; [|eassumption]; repeat first [reflexivity|eassumption|etrans; [eassumption|]].

Lemma flush_sources_ensures snapshots out s :
  ensures (flush_sources snapshots out) s (fun s' r =>
    files_kept s s' /\ forall res, r = Ok res -> Flushed out snapshots res s').
Proof.
  unfold flush_sources. set (d := decompose_snapshots snapshots).
  next_source books_bytes. next_source (table_bytes (A:=Trade)).
  next_source (table_bytes (A:=Liquidation)). next_source (table_bytes (A:=FundingRate)).
  next_source (table_bytes (A:=OpenInterest)). next_source (table_bytes (A:=FundingSettlement)).
  apply ensures_ret. split; [repeat first [eassumption|etrans; [eassumption|]]|].
  intros res [= <-]. split; [..|done]; subst d; written_along.
Qed.

(** Flushing a market synchronizer loses no row and overwrites no file, whichever calls of the
    disk fail.  Files that were there stay as they are; a flush that succeeds names, for every
    datatype the buffered rows have records of, a file of its directory that holds exactly
    these records, and none for the others, counts the rows, and empties the buffer; a
    flush that fails leaves the synchronizer as it was, all its rows included. *)
Theorem sync_flush_exact out sync s s' sync' r :
  market_flush_to_parquet out sync s = (s', sync', r) ->
  files_kept s s' /\
  match r with
  | Ok res => Flushed out (buffer sync) res s' /\ sync' = with_buffer [] sync
  | Err _ => sync' = sync
  end.
Proof.
  unfold market_flush_to_parquet. intros E. destruct (buffer sync) as [|m rows] eqn:Eb.
  - injection E as <- <- <-. split; [done|]. split; [by split|]. destruct sync. simpl in Eb. by subst.
  - pose proof (flush_sources_ensures (m :: rows) out s) as H. unfold ensures in H.
    destruct (flush_sources (m :: rows) out s) as [s1 [res|e]]; injection E as <- <- <-;
      destruct H as [Hk Hf]; (split; [done|]); [|done]. split; [by apply Hf|done].
Qed.

(** The same of an order-book synchronizer, whose flush writes one file. *)
Theorem ob_flush_exact out sync s s' sync' r :
  ob_flush_to_parquet out sync s = (s', sync', r) ->
  files_kept s s' /\
  match r with
  | Ok path => written out books_bytes (ob_buffer sync) path s' /\
      sync' = with_ob_buffer [] (ob_total_captured sync) sync
  | Err _ => sync' = sync
  end.
Proof.
  unfold ob_flush_to_parquet. intros E. destruct (ob_buffer sync) as [|o rest] eqn:Eb.
  - injection E as <- <- <-. split; [done|]. split; [done|]. destruct sync. simpl in *. by subst.
  - pose proof (puts_books o rest "sync" out s) as H. unfold ensures in H.
    destruct (write_ob_parquet o rest out "sync" s) as [s1 [file|e]]; injection E as <- <- <-;
      destruct H as [Hk Hf]; (split; [done|]); [|done]. split; [|done]. exists file. auto.
Qed.
End Kept.

(** ** A flush of two prints *)

#[local] Existing Instance decimal_numeric.

Definition ex_sync : MarketSynchronizer (NU:=decimal_numeric) :=
  with_buffer [ex_snapshot] (MarketSynchronizer_new 1000000).

Definition ex_sync_flush (DK : Disk) :=
  market_flush_to_parquet (PQ:=ex_parquet) (CA:=ex_calendar) (DK:=DK) "out" ex_sync empty_fs.

Lemma sync_flush_exact_witness :
  written "out/trades" (table_bytes (PQ:=ex_parquet)) ex_prints
    (Some ("out/trades"%string, ex_trades_file)) (ex_sync_flush quiet_disk).1.1 /\
  (ex_sync_flush flaky_disk).1.2 = ex_sync.
Proof.
  split.
  - destruct (ex_sync_flush quiet_disk) as [[s' sync'] r] eqn:E.
    destruct (sync_flush_exact (PQ:=ex_parquet) (CA:=ex_calendar) (DK:=quiet_disk) "out" ex_sync
      empty_fs s' sync' r E) as [_ Hr].
    assert (trades_path <$> result_ok r = Some (Some ("out/trades"%string, ex_trades_file))) as Hp.
    { change r with (s', sync', r).2. rewrite <- E. vm_compute. reflexivity. }
    destruct r as [res|e]; [|discriminate Hp]. destruct Hr as [[_ Ht _ _ _ _ _] _].
    injection Hp as Hp. rewrite Hp in Ht. exact Ht.
  - destruct (ex_sync_flush flaky_disk) as [[s' sync'] r] eqn:E.
    destruct (sync_flush_exact (PQ:=ex_parquet) (CA:=ex_calendar) (DK:=flaky_disk) "out" ex_sync
      empty_fs s' sync' r E) as [_ Hr].
    assert (is_ok r = false) as Hp. { change r with (s', sync', r).2. rewrite <- E. vm_compute. reflexivity. }
    destruct r as [res|e]; [discriminate Hp|exact Hr].
Defined.
