(* ===== verification/Gaps.v ===== *)
(** * Gap detection and the gap ledger

    [src/aetelier-connect/src/workers/gap_detector.rs]: the silence detector of a topic and the
    set of them, on the instants the events arrive at.
    [src/aetelier-connect/src/workers/gap_ledger.rs]: where the ledger of a worker lies and how an
    incident is appended to it, on the file system of [Disk]. *)
From Stdlib Require Import Ascii String.
From S2P Require Import Prelude Budget Strings Numeric Pairs Types Book Model Feed Runtime Snapshots MarketSync Trades Reconcile Disconnect Reconnect Drive Worker Disk Leaf Flusher FlusherProps Json Venue.
Local Open Scope N_scope.

(** ** The detector *)

Definition DEFAULT_SILENCE_THRESHOLD : Duration := seconds 5.

Record GapDetector := {
  gd_topic : string;
  gd_last_event_at : option N;
  silence_threshold : Duration;
  total_gap_ms : N;
  gap_count : N
}.

Definition GapDetector_new (topic : string) (threshold : Duration) : GapDetector := {|
  gd_topic := topic; gd_last_event_at := None; silence_threshold := threshold;
  total_gap_ms := 0; gap_count := 0
|}.

Definition GapDetector_with_defaults (topic : string) : GapDetector :=
  GapDetector_new topic DEFAULT_SILENCE_THRESHOLD.

(** [elapsed.as_millis() as u64], of an elapsed time over the threshold *)
Definition silence (threshold : Duration) (prev now : N) : option N :=
  let elapsed := now - prev in
  if threshold <? elapsed then Some ((elapsed / 1000000) mod u64_modulus) else None.

Definition GapDetector_record_event (now : N) (d : GapDetector) : GapDetector * option N :=
  let gap := prev ← gd_last_event_at d; silence (silence_threshold d) prev now in
  ({| gd_topic := gd_topic d; gd_last_event_at := Some now;
      silence_threshold := silence_threshold d;
      total_gap_ms := match gap with Some ms => u64_add (total_gap_ms d) ms | None => total_gap_ms d end;
      gap_count := match gap with Some _ => u64_add (gap_count d) 1 | None => gap_count d end |},
   gap).

Definition time_since_last_event (now : N) (d : GapDetector) : option Duration :=
  (fun t => now - t) <$> gd_last_event_at d.

(** ** The set *)

Abbreviation GapDetectorSet := (gmap string GapDetector).

Definition GapDetectorSet_new (topics : list string) (threshold : Duration) : GapDetectorSet :=
  foldr (fun t set => <[t := GapDetector_new t threshold]> set) ∅ topics.

Definition GapDetectorSet_record_event (topic : string) (now : N) (set : GapDetectorSet)
    : GapDetectorSet * option N :=
  match set !! topic with
  | Some d => let '(d, gap) := GapDetector_record_event now d in (<[topic := d]> set, gap)
  | None => (set, None)
  end.

Record GapStats := { gs_topic : string; gs_gap_count : N; gs_total_gap_ms : N }.

Definition stats (set : GapDetectorSet) : list GapStats :=
  (fun x : string * GapDetector =>
     {| gs_topic := gd_topic x.2; gs_gap_count := gap_count x.2; gs_total_gap_ms := total_gap_ms x.2 |})
  <$> map_to_list set.

(** ** What a run of events adds up to *)

(** Events of the topics at their instants; the gaps reported, with their topics. *)
Fixpoint record_all (evs : list (string * N)) (set : GapDetectorSet)
    : GapDetectorSet * list (string * N) :=
  match evs with
  | [] => (set, [])
  | (topic, now) :: evs =>
    let '(set, gap) := GapDetectorSet_record_event topic now set in
    let '(set, gaps) := record_all evs set in
    (set, (pair topic <$> option_list gap) ++ gaps)
  end.

(** The silences over the threshold between successive instants. *)
Fixpoint silences (threshold : Duration) (prev : option N) (ts : list N) : list N :=
  match ts with
  | [] => []
  | t :: ts => option_list (p ← prev; silence threshold p t) ++ silences threshold (Some t) ts
  end.

Fixpoint never_back (prev : N) (ts : list N) : Prop :=
  match ts with [] => True | t :: ts => prev <= t /\ never_back t ts end.

Definition stats_of (topic : string) (set : GapDetectorSet) : option (option N * N * N) :=
  (fun d => (gd_last_event_at d, gap_count d, total_gap_ms d)) <$> set !! topic.

Lemma silence_bound thr p t ms : silence thr p t = Some ms -> ms * 1000000 <= t - p /\ thr < t - p.
Proof.
  unfold silence. destruct (N.ltb_spec thr (t - p)) as [H|]; [|done]. intros [= <-]. split; [|done].
  assert ((t - p) / 1000000 mod u64_modulus <= (t - p) / 1000000) by by apply N.Div0.mod_le.
  assert ((t - p) / 1000000 * 1000000 <= t - p) by (rewrite N.mul_comm; by apply N.Div0.mul_div_le).
  nia.
Qed.

(** The silences fit between the first instant and the last. *)
Lemma silences_bound thr p ts : never_back p ts ->
  p <= List.last ts p /\
  total (silences thr (Some p) ts) * 1000000 <= List.last ts p - p /\
  N.of_nat (length (silences thr (Some p) ts)) * thr <= List.last ts p - p.
Proof.
  revert p. induction ts as [|t ts IH]; intros p Hp; [simpl; lia|].
  destruct Hp as [Hle Hts]. specialize (IH t Hts) as (Hl & Ht & Hn). rewrite last_cons_default.
  cbn [silences mbind option_bind]. destruct (silence thr p t) as [ms|] eqn:Es; simpl.
  - apply silence_bound in Es as [Hms Hthr]. lia.
  - lia.
Qed.

(** One event of a detector whose statistics are [n] and [m], modulo 2^64. *)
Lemma record_event_step d now n m :
  gap_count d = n mod u64_modulus -> total_gap_ms d = m mod u64_modulus ->
  let gap := (prev ← gd_last_event_at d; silence (silence_threshold d) prev now) in
  exists d', GapDetector_record_event now d = (d', gap) /\ gd_last_event_at d' = Some now /\
    silence_threshold d' = silence_threshold d /\
    gap_count d' = (n + N.of_nat (length (option_list gap))) mod u64_modulus /\
    total_gap_ms d' = (m + total (option_list gap)) mod u64_modulus.
Proof.
  intros Hn Hm gap. eexists. split_and!; [done|done|done|..]; simpl; fold gap; destruct gap as [ms|]; simpl.
  - by apply u64_add_wrapped.
  - by rewrite N.add_0_r.
  - rewrite N.add_0_r. by apply u64_add_wrapped.
  - by rewrite N.add_0_r.
Qed.

(** The detector after a run, from any state of it. *)
Lemma record_all_topic evs topic thr (set : GapDetectorSet) d n m :
  set !! topic = Some d -> silence_threshold d = thr ->
  gap_count d = n mod u64_modulus -> total_gap_ms d = m mod u64_modulus ->
  let own := of_key topic evs in
  let gaps := silences thr (gd_last_event_at d) own in
  stats_of topic (record_all evs set).1 =
    Some (match list.last own with Some t => Some t | None => gd_last_event_at d end,
          (n + N.of_nat (length gaps)) mod u64_modulus, (m + total gaps) mod u64_modulus) /\
  of_key topic (record_all evs set).2 = gaps.
Proof.
  revert set d n m. induction evs as [|[t now] evs IH]; intros set d n m Hd Hthr Hn Hm own gaps.
  { subst own gaps. unfold stats_of. simpl. rewrite Hd. simpl. by rewrite Hn, Hm, !N.add_0_r. }
  subst own gaps. cbn [record_all]. unfold GapDetectorSet_record_event.
  destruct (decide (t = topic)) as [->|Hne].
  - rewrite Hd, of_key_hit. cbn [silences].
    destruct (record_event_step d now n m Hn Hm) as (d1 & -> & Hl1 & Ht1 & Hn1 & Hm1).
    rewrite Hthr in *. set (gap := prev ← gd_last_event_at d; silence thr prev now) in *.
    destruct (IH (<[topic := d1]> set) d1 _ _ (lookup_insert_eq _ _ _) Ht1 Hn1 Hm1) as [Hs Hg].
    rewrite Hl1 in Hs, Hg. destruct (record_all evs _) as [set2 gaps2]. cbn [fst snd] in *. split.
    + rewrite Hs, length_app, total_app, Nat2N.inj_add, !N.add_assoc. do 3 f_equal.
      rewrite last_cons. by destruct (list.last (of_key topic evs)).
    + rewrite of_key_app, Hg. f_equal. by destruct gap; simpl; [rewrite of_key_hit|].
  - rewrite of_key_miss by done.
    destruct (set !! t) as [d'|] eqn:Et.
    + destruct (GapDetector_record_event now d') as [d1 gap].
      pose proof (IH (<[t := d1]> set) d n m) as IH'. rewrite lookup_insert_ne in IH' by done.
      destruct (record_all evs _) as [set2 gaps2]. cbn [fst snd] in *.
      destruct (IH' Hd Hthr Hn Hm) as [Hs Hg]. split; [done|]. rewrite of_key_app, Hg.
      by destruct gap; simpl; [rewrite of_key_miss|].
    + pose proof (IH set d n m Hd Hthr Hn Hm) as [Hs Hg].
      destruct (record_all evs _) as [set2 gaps2]. cbn [fst snd] in *. by simpl.
Qed.

Lemma new_set_lookup topics thr topic : topic ∈ topics ->
  GapDetectorSet_new topics thr !! topic = Some (GapDetector_new topic thr).
Proof.
  induction topics as [|t topics IH]; [by intros ?%elem_of_nil|]. simpl.
  destruct (decide (t = topic)) as [->|Hne]; [intros _; apply lookup_insert_eq|].
  intros [->|Hin]%elem_of_cons; [done|]. rewrite lookup_insert_ne by done. auto.
Qed.

(** A gap detector accounts for every silence of its topic and for nothing else.  From a
    fresh set, after any run of events of any topics, the gaps reported for a watched topic are
    exactly the silences over the threshold between its own successive events, whatever
    the other topics did in between; its two statistics are their number and their sum, modulo
    2^64; and when the clock does not go back, the sum in milliseconds fits into the time
    between the first and the last event of the topic, as does the threshold for each gap. *)
Theorem gaps_accounted topics thr evs topic : topic ∈ topics ->
  let own := of_key topic evs in
  let gaps := silences thr None own in
  let run := record_all evs (GapDetectorSet_new topics thr) in
  stats_of topic run.1 =
    Some (list.last own, N.of_nat (length gaps) mod u64_modulus, total gaps mod u64_modulus) /\
  of_key topic run.2 = gaps /\
  forall first rest, own = first :: rest -> never_back first rest ->
    total gaps * 1000000 <= List.last rest first - first /\
    N.of_nat (length gaps) * thr <= List.last rest first - first.
Proof.
  intros Ht own gaps run.
  destruct (record_all_topic evs topic thr (GapDetectorSet_new topics thr) (GapDetector_new topic thr) 0 0)
    as [Hs Hg]; [by apply new_set_lookup|done..|]. fold own run in Hs, Hg. simpl in Hs, Hg.
  split_and!; [rewrite Hs, !N.add_0_l; by destruct (list.last own)|done|].
  intros first rest Hown Hr. subst gaps. rewrite Hown. cbn [silences mbind option_bind option_list app].
  by apply silences_bound.
Qed.

Definition example_events : list (string * N) :=
  [("trades", seconds 1); ("books", seconds 2); ("trades", seconds 3); ("books", seconds 9);
   ("trades", seconds 12)]%string.

(** Two topics at a threshold of five seconds: nine seconds of silence in the trades, seven in
    the books. *)
Lemma gaps_accounted_witness :
  stats_of "trades" (record_all example_events (GapDetectorSet_new ["books"; "trades"] (seconds 5))%string).1 =
    Some (Some (seconds 12), 1, 9000) /\
  of_key "trades"%string
    (record_all example_events (GapDetectorSet_new ["books"; "trades"]%string (seconds 5))).2 = [9000].
Proof.
  destruct (gaps_accounted ["books"; "trades"]%string (seconds 5) example_events "trades"%string)
    as (Hs & Hg & _); [vm_compute; right; left|]. split; [exact Hs|exact Hg].
Defined.

(** ** The ledger file *)

(** [s.split(needle).next()]: the text before the first occurrence. *)
Fixpoint before_first (needle s : string) : string :=
  if String.prefix needle s then ""%string
  else match s with
       | ""%string => ""%string
       | String c s' => String c (before_first needle s')
       end.

(** [path.file_name()]: the last component that is a name. *)
Definition path_file_name (p : string) : option string :=
  match list.last (filter (fun c => is_empty c || String.eqb c "." = false) (str_split "/" p)) with
  | Some c => if String.eqb c ".." then None else Some c
  | None => None
  end.

Definition path_safe (c : ascii) : ascii :=
  if Ascii.eqb c "/" || Ascii.eqb c ":" then "-"%char else c.

Definition GapLedger_new (output_dir exchange sym : string) : Path :=
  if str_contains "/recorded/" output_dir && str_contains "{data_type}" output_dir then
    (path_join (before_first "/recorded/" output_dir) "gaps",
     (default "unknown-binding" (path_file_name output_dir) ++ "_gap_ledger.jsonl")%string)
  else
    (path_join output_dir "gaps",
     (exchange ++ "_" ++ str_map path_safe sym ++ "_gap_ledger.jsonl")%string).

(** [serde_json] on a [GapIncident] *)
Class IncidentJson := {
  incident_to_json : GapIncident -> Result string string;
  incident_of_json : string -> option GapIncident
}.

(** A line of the ledger is one line of text, which reads back as its incident. *)
Class IncidentJsonLaws (IJ : IncidentJson) : Prop := incident_line i line :
  incident_to_json i = Ok line ->
  lacks newline line = true /\ strip_cr line = line /\ incident_of_json line = Some i.

Section Ledger.
Context {DK : Disk} {IJ : IncidentJson}.
Local Open Scope io_scope.

(** [writeln!(f, "{line}")] writes the line and its end one after the other. *)
Definition GapLedger_append (ledger : Path) (i : GapIncident) : IO unit :=
  do! create_dir_all ledger.1 in
  do! open_or_create ledger in
  let! line := io_lift (map_err PersistIo (incident_to_json i)) in
  do! append_bytes ledger line PersistIo in
  append_bytes ledger newline_str PersistIo.

(** Appending one incident after the other, whether the appends fail or not. *)
Fixpoint append_each (ledger : Path) (incs : list GapIncident) (s : Fs) : Fs * list bool :=
  match incs with
  | [] => (s, [])
  | i :: incs =>
    let '(s, r) := GapLedger_append ledger i s in
    let '(s, rs) := append_each ledger incs s in
    (s, is_ok r :: rs)
  end.

(** The incidents a reader of the lines gets, lines that are none left out. *)
Definition ledger_rows (text : string) : list GapIncident :=
  omap incident_of_json (text_lines "" text).

(** The incidents recorded on an ended line: those whose append succeeded and did not
    follow a failed one. *)
Fixpoint landed (whole : bool) (incs : list GapIncident) (oks : list bool) : list GapIncident :=
  match incs, oks with
  | i :: incs, ok :: oks => (if whole && ok then [i] else []) ++ landed ok incs oks
  | _, _ => []
  end.
End Ledger.

Section LedgerProps.
Local Open Scope string_scope.
Context {DK : Disk} {IJ : IncidentJson} {JL : IncidentJsonLaws IJ}.

Definition ledger_text (ledger : Path) (s : Fs) : string := default "" (file_at ledger s).

Lemma rows_ended t u : closed t -> lacks newline u = true ->
  ledger_rows (t ++ u ++ newline_str) = (ledger_rows t ++ option_list (incident_of_json (strip_cr u)))%list.
Proof.
  intros Hc Hu. unfold ledger_rows. rewrite text_lines_closed by done. unfold newline_str.
  rewrite text_lines_one, string_app_nil_l, omap_app by done. csimpl.
  by destruct (incident_of_json (strip_cr u)).
Qed.

Lemma rows_torn t torn : closed t -> lacks newline torn = true ->
  ledger_rows t `sublist_of` ledger_rows (t ++ torn).
Proof.
  intros Hc _. unfold ledger_rows. rewrite text_lines_closed, omap_app by done.
  by apply sublist_inserts_r.
Qed.

Lemma leaves_nothing ledger s s' : ledger_text ledger s' = ledger_text ledger s ->
  exists piece, ledger_text ledger s' = ledger_text ledger s ++ piece /\
    (lacks newline piece = true \/ exists u, lacks newline u = true /\ piece = u ++ newline_str).
Proof. intros ->. exists "". rewrite string_app_nil_r. split; [done|by left]. Qed.

Lemma lacks_substring c n s : lacks c s = true -> lacks c (String.substring 0 n s) = true.
Proof.
  unfold lacks. revert n. induction s as [|x s IH]; intros [|n]; [done..|]. simpl.
  intros [Hx Hs]%andb_true_iff. rewrite Hx. by apply IH.
Qed.

Lemma landed_mono b torn incs oks : (b = true -> torn = "") ->
  landed b incs oks `sublist_of` landed (is_empty torn) incs oks.
Proof.
  intros H. destruct incs as [|i incs], oks as [|ok oks]; [done..|]. simpl. apply sublist_app; [|done].
  destruct b; [by rewrite H|apply sublist_nil_l].
Qed.

(** What an append leaves at the end of the file: the line; or, when it fails, a part of it. *)
Lemma append_leaves ledger i s :
  ensures (GapLedger_append ledger i) s (fun s' r => exists piece,
    ledger_text ledger s' = ledger_text ledger s ++ piece /\
    match r with
    | Ok _ => exists line, incident_to_json i = Ok line /\ piece = line ++ newline_str
    | Err _ => lacks newline piece = true \/ exists u, lacks newline u = true /\ piece = u ++ newline_str
    end).
Proof.
  unfold GapLedger_append. apply ensures_bind.
  eapply ensures_mono; [apply (create_dir_all_ensures (fun _ => False))|].
  intros s0 r0 (_ & _ & H0).
  assert (ledger_text ledger s0 = ledger_text ledger s) as Ht0 by (unfold ledger_text; rewrite H0; tauto).
  destruct r0 as [u0|err]; [|by apply leaves_nothing].
  apply ensures_bind. eapply ensures_mono; [apply open_or_create_ensures|].
  intros s1 r1 (_ & Hd & _). change (ledger_text ledger s1 = ledger_text ledger s0) in Hd. rewrite Ht0 in Hd.
  destruct r1 as [u|err]; [|by apply leaves_nothing].
  apply ensures_bind. unfold ensures at 1, io_lift. cbn [fst snd].
  destruct (incident_to_json i) as [line|err] eqn:Ej; simpl; [|by apply leaves_nothing].
  destruct (incident_line i line Ej) as (Hl & _).
  apply ensures_bind. eapply ensures_mono; [apply append_bytes_ensures|].
  intros s2 [u'|err] [_ H2].
  - eapply ensures_mono; [apply append_bytes_ensures|]. intros s3 r [_ H3].
    unfold ledger_text in *. rewrite H2 in H3. simpl in H3.
    destruct r as [u''|err]; [exists (line ++ newline_str)|destruct H3 as [n H3]; exists (line ++ String.substring 0 n newline_str)];
      rewrite H3; simpl; rewrite string_app_assoc, Hd; (split; [done|]); [by exists line|].
    destruct n as [|n]; [left; by rewrite string_app_nil_r|right; exists line]. by destruct n.
  - destruct H2 as [n H2]. exists (String.substring 0 n line). unfold ledger_text. rewrite H2. simpl.
    unfold ledger_text in Hd. rewrite Hd. split; [done|]. left. by apply lacks_substring.
Qed.

(** The text before the unfinished line, and that line. *)
Definition split_text (text t torn : string) : Prop :=
  text = t ++ torn /\ closed t /\ lacks newline torn = true.

Lemma append_each_split ledger incs s t torn :
  split_text (ledger_text ledger s) t torn ->
  exists t' torn', split_text (ledger_text ledger (append_each ledger incs s).1) t' torn' /\
    (ledger_rows t ++ landed (is_empty torn) incs (append_each ledger incs s).2)%list
      `sublist_of` ledger_rows t' /\
    (torn = "" -> forallb id (append_each ledger incs s).2 = true ->
     torn' = "" /\ ledger_rows t' = (ledger_rows t ++ incs)%list).
Proof.
  revert s t torn. induction incs as [|i incs IH]; intros s t torn (Ht & Hc & Hl).
  { exists t, torn. simpl. rewrite app_nil_r. by split_and!. }
  pose proof (append_leaves ledger i s) as (piece & Hp & Hr). cbn [append_each].
  destruct (GapLedger_append ledger i s) as [s1 r]. cbn [fst snd] in Hp, Hr.
  destruct (append_each ledger incs s1) as [s2 oks] eqn:E2.
  assert (forall u, lacks newline u = true -> piece = u ++ newline_str ->
    exists t1, split_text (ledger_text ledger s1) t1 "" /\
      ledger_rows t1 = (ledger_rows t ++ option_list (incident_of_json (strip_cr (torn ++ u))))%list) as Hend.
  { intros u Hu ->. exists (t ++ (torn ++ u) ++ newline_str). split.
    - rewrite Hp, Ht. split_and!; [by rewrite string_app_nil_r, !string_app_assoc|apply closed_line|done].
    - apply rows_ended; [done|by rewrite lacks_app, andb_true_iff]. }
  assert (forall t1 torn1 row, split_text (ledger_text ledger s1) t1 torn1 ->
    ledger_rows t1 = (ledger_rows t ++ row)%list ->
    (if is_empty torn && is_ok r then [i] else []) `sublist_of` row ->
    (is_ok r = true -> torn1 = "") -> (torn = "" -> is_ok r = true -> row = [i]) ->
    exists t' torn', split_text (ledger_text ledger s2) t' torn' /\
      (ledger_rows t ++ landed (is_empty torn) (i :: incs) (is_ok r :: oks))%list `sublist_of` ledger_rows t' /\
      (torn = "" -> forallb id (is_ok r :: oks) = true ->
       torn' = "" /\ ledger_rows t' = (ledger_rows t ++ i :: incs)%list)) as Hstep.
  { intros t1 torn1 row Hs Hrows Hrow Hok Hex.
    destruct (IH s1 t1 torn1 Hs) as (t' & torn' & Hs' & Hsub & Hall). rewrite E2 in Hs', Hsub, Hall.
    cbn [fst snd] in Hs', Hsub, Hall. exists t', torn'. split; [done|]. split.
    - etrans; [|exact Hsub]. rewrite Hrows, <- app_assoc. apply sublist_app; [done|].
      cbn [landed]. apply sublist_app; [done|]. by apply landed_mono.
    - intros He [Hr1 Hr2]%andb_true_iff. destruct (Hall (Hok Hr1) Hr2) as [-> ->].
      split; [done|]. by rewrite Hrows, (Hex He Hr1), <- app_assoc. }
  destruct r as [u|err].
  - destruct Hr as (line & Hj & ->). destruct (incident_line i line Hj) as (Hn & Hcr & Hof).
    destruct (Hend line Hn eq_refl) as (t1 & Hs & Hrows).
    assert (torn = "" -> incident_of_json (strip_cr (torn ++ line)) = Some i) as Hi.
    { intros ->. by rewrite string_app_nil_l, Hcr. }
    eapply Hstep; [exact Hs|exact Hrows| |done|].
    + destruct torn; simpl; [|apply sublist_nil_l]. by rewrite Hi.
    + intros He _. by rewrite Hi.
  - assert (forall row, (if is_empty torn && is_ok (Err (A := unit) err) then [i] else []) `sublist_of` row) as Hnil.
    { intros row. rewrite andb_false_r. apply sublist_nil_l. }
    destruct Hr as [Hl'|(u & Hu & Hpu)].
    + eapply (Hstep t (torn ++ piece) []); [|by rewrite app_nil_r|apply Hnil|done..].
      split_and!; [by rewrite Hp, Ht, string_app_assoc|done|by rewrite lacks_app, andb_true_iff].
    + destruct (Hend u Hu Hpu) as (t1 & Hs & Hrows). by eapply Hstep; [exact Hs|exact Hrows|apply Hnil|..].
Qed.

(** What the ledger of a worker keeps, however its appends fail.  From a ledger whose
    lines are all ended, after any sequence of appends, a reader of the lines still gets
    every incident it got before, and then, in order, every incident whose append succeeded,
    unless the append before it failed (the two may share a line); and when no append
    failed it gets the earlier incidents and exactly the new ones. *)
Theorem ledger_keeps ledger incs s : closed (ledger_text ledger s) ->
  let run := append_each ledger incs s in
  (ledger_rows (ledger_text ledger s) ++ landed true incs run.2)%list
    `sublist_of` ledger_rows (ledger_text ledger run.1) /\
  (forallb id run.2 = true ->
   ledger_rows (ledger_text ledger run.1) = (ledger_rows (ledger_text ledger s) ++ incs)%list).
Proof.
  intros Hc run.
  destruct (append_each_split ledger incs s (ledger_text ledger s) "")
    as (t' & torn' & (Ht & Hc' & Hl') & Hsub & Hall); [by unfold split_text; rewrite string_app_nil_r|].
  fold run in Ht, Hsub, Hall. rewrite Ht. split.
  - etrans; [exact Hsub|by apply rows_torn].
  - intros Hok. destruct (Hall eq_refl Hok) as [-> Hrows]. by rewrite string_app_nil_r.
Qed.
End LedgerProps.

(** ** Examples *)

(** The layouts of the file. *)
Example wave_layout :
  GapLedger_new "/data/collected/recorded/binance/spot/{data_type}/0f6e2b1c-bind" "binance" "BTC/USDT" =
    ("/data/collected/gaps"%string, "0f6e2b1c-bind_gap_ledger.jsonl"%string) /\
  GapLedger_new "/out" "binance" "BTC/USDT" =
    ("/out/gaps"%string, "binance_BTC-USDT_gap_ledger.jsonl"%string).
Proof. split; vm_compute; reflexivity. Qed.

#[local] Instance GapCause_eq_dec : EqDecision GapCause.
Proof. solve_decision. Defined.
#[local] Instance GapIncident_eq_dec : EqDecision GapIncident.
Proof. solve_decision. Defined.

Definition ex_incident (opened : N) (c : GapCause) : GapIncident := {|
  opened_epoch_us := opened; closed_epoch_us := opened + 10; window_us := 10; cause := c;
  incident_exchange := "bitso"; incident_symbol := "btc_mxn"; possible_dropped_trades := Some 2 |}.
Definition ex_first : GapIncident := ex_incident 100 GapResync.
Definition ex_second : GapIncident := ex_incident 200 GapDisconnect.

(** A writer that knows two incidents. *)
#[local] Instance ex_incidents : IncidentJson := {
  incident_to_json i :=
    if decide (i = ex_first) then Ok "first"%string
    else if decide (i = ex_second) then Ok "second"%string else Err "unknown"%string;
  incident_of_json line :=
    if String.eqb line "first" then Some ex_first
    else if String.eqb line "second" then Some ex_second else None
}.
#[local] Instance ex_incident_laws : IncidentJsonLaws ex_incidents.
Proof.
  intros i line. simpl. destruct (decide (i = ex_first)) as [->|]; [by intros [= <-]|].
  destruct (decide (i = ex_second)) as [->|]; [by intros [= <-]|done].
Qed.

(** The eighth call, the end of the second line, fails. *)
#[local] Instance ex_disk : Disk := {
  disk_fault n := if Nat.eqb n 7 then Some ("disk full"%string, 0%nat) else None;
  locked_elsewhere _ := false
}.

Definition ex_ledger : Path := GapLedger_new "out" "bitso" "btc_mxn".
Definition ex_appends : Fs * list bool :=
  append_each ex_ledger [ex_first; ex_second; ex_first; ex_second]
    {| fs_dirs := ∅; fs_files := ∅; fs_held := ∅; fs_calls := 0 |}.

(** The third incident shares its line with the second, whose append failed; the first and
    the last are kept. *)
Lemma ledger_keeps_witness :
  ex_appends.2 = [true; false; true; true] /\
  [ex_first; ex_second] `sublist_of` ledger_rows (ledger_text ex_ledger ex_appends.1).
Proof.
  split; [vm_compute; reflexivity|].
  exact (proj1 (ledger_keeps ex_ledger [ex_first; ex_second; ex_first; ex_second]
    {| fs_dirs := ∅; fs_files := ∅; fs_held := ∅; fs_calls := 0 |} (or_introl eq_refl))).
Defined.
