(* ===== verification/Sign.v ===== *)
(** * Request signing

    [src/aetelier-entrepot/src/sign.rs]: the canonical form of a request and its signature of
    version 4.  The digests and their hexadecimal form are parameters, and so is the clock
    with its format. *)
From Stdlib Require Import Ascii String.
From S2P Require Import Prelude BTree Strings Numeric Pairs Types Disk Leaf Json.
Local Open Scope string_scope.
Local Open Scope N_scope.

Definition EMPTY_PAYLOAD_SHA256 : string :=
  "e3b0c44298fc1c149afbf4c8996fb92427ae41e4649b934ca495991b7852b855".

Record Credentials := { access_key : string; secret_key : string }.
Record SignedHeaders := { authorization : string; x_amz_date : string }.

(** ** Encodings *)

(** [{b:02X}] *)
Definition hex_upper (n : N) : ascii := ascii_of_N (if n <? 10 then 48 + n else 55 + n).
Definition fmt_02X (c : ascii) : string :=
  String (hex_upper (code c / 16)) (String (hex_upper (code c mod 16)) "").

Definition unreserved (c : ascii) : bool :=
  is_ascii_alphanumeric c || existsb (Ascii.eqb c) ["-"; "_"; "."; "~"]%char.

Definition encode_byte (encode_slash : bool) (c : ascii) : string :=
  if unreserved c then String c ""
  else if (c =? "/")%char && negb encode_slash then "/"
  else String "%" (fmt_02X c).

Fixpoint uri_encode (s : string) (encode_slash : bool) : string :=
  match s with
  | "" => ""
  | String c s => encode_byte encode_slash c ++ uri_encode s encode_slash
  end.

(** [s.split_whitespace()] *)
Fixpoint split_whitespace_from (word s : string) : list string :=
  match s with
  | "" => if is_empty word then [] else [word]
  | String c s =>
    if is_whitespace c then
      (if is_empty word then [] else [word]) ++ split_whitespace_from "" s
    else split_whitespace_from (word ++ String c "") s
  end%list.
Definition canonical_header_value (v : string) : string := join " " (split_whitespace_from "" v).

(** The order of pairs of strings. *)
Definition str_leb (a b : string) : bool := match cmp a b with Gt => false | _ => true end.
Definition pair_leb (a b : string * string) : bool :=
  match cmp a.1 b.1 with Lt => true | Gt => false | Eq => str_leb a.2 b.2 end.

Definition encode_pair (kv : string * string) : string * string :=
  (uri_encode kv.1 true, uri_encode kv.2 true).
Definition canonical_query (query : list (string * string)) : string :=
  join "&" ((fun kv => kv.1 ++ "=" ++ kv.2) <$> sort_by pair_leb (encode_pair <$> query)).

(** ** The canonical request *)

Definition signed_header_list (host : string) (extra_headers : list (string * string)) (amz_date : string)
    : list (string * string) :=
  sort_by pair_leb
    (((fun kv => (to_lowercase kv.1, canonical_header_value kv.2)) <$> extra_headers) ++
     [("host", canonical_header_value host); ("x-amz-date", amz_date)]).

(** The request and the names of the signed headers. *)
Definition build_canonical (method host path : string) (query extra_headers : list (string * string))
    (payload_hash amz_date : string) : string * string :=
  let headers := signed_header_list host extra_headers amz_date in
  let canonical_headers :=
    foldr (fun kv s => kv.1 ++ ":" ++ kv.2 ++ newline_str ++ s) "" headers in
  let signed_headers := join ";" (fst <$> headers) in
  (join newline_str [method; uri_encode path false; canonical_query query; canonical_headers;
                     signed_headers; payload_hash],
   signed_headers).

(** ** The signature *)

(** [Hmac<Sha256>] and [hex::encode] *)
Class Hmac := {
  hmac_sha256 : string -> string -> string;
  hex_encode : string -> string
}.

(** The clock of a request, in the two formats of the signature. *)
Record When := { when_amz : string; when_day : string }.

Section Sign.
Context {SH : Sha256} {HM : Hmac}.

Definition scope_of (w : When) (region service : string) : string :=
  when_day w ++ "/" ++ region ++ "/" ++ service ++ "/aws4_request".

Definition signing_key (secret : string) (w : When) (region service : string) : string :=
  let k_date := hmac_sha256 ("AWS4" ++ secret) (when_day w) in
  let k_region := hmac_sha256 k_date region in
  let k_service := hmac_sha256 k_region service in
  hmac_sha256 k_service "aws4_request".

Definition sign (creds : Credentials) (method host path : string)
    (query extra_headers : list (string * string)) (payload_hash region service : string) (w : When)
    : SignedHeaders :=
  let '(canonical_request, signed_headers) :=
    build_canonical method host path query extra_headers payload_hash (when_amz w) in
  let scope := scope_of w region service in
  let string_to_sign :=
    join newline_str ["AWS4-HMAC-SHA256"; when_amz w; scope; sha256_hex canonical_request] in
  let signature := hex_encode (hmac_sha256 (signing_key (secret_key creds) w region service) string_to_sign) in
  {| authorization :=
       "AWS4-HMAC-SHA256 Credential=" ++ access_key creds ++ "/" ++ scope ++
       ", SignedHeaders=" ++ signed_headers ++ ", Signature=" ++ signature;
     x_amz_date := when_amz w |}.
End Sign.

(** ** Encoded text *)

(** What an encoded string is read back as. *)
Definition hex_value (c : ascii) : N := if code c <? 65 then code c - 48 else code c - 55.

Fixpoint uri_decode (s : string) : string :=
  match s with
  | String "%" (String h (String l s)) => String (ascii_of_N (hex_value h * 16 + hex_value l)) (uri_decode s)
  | String c s => String c (uri_decode s)
  | "" => ""
  end.

(** A check of all bytes. *)
Definition all_bytes (f : ascii -> bool) : bool :=
  forallb (fun n => f (ascii_of_nat n)) (seq 0 256).

Lemma all_bytes_spec f c : all_bytes f = true -> f c = true.
Proof.
  intros H. unfold all_bytes in H. rewrite forallb_forall in H.
  rewrite <- (ascii_nat_embedding c). apply H, in_seq. pose proof (nat_ascii_bounded c). lia.
Qed.

(** What the bytes of an encoding are. *)
Definition encoded_char (c : ascii) : bool := unreserved c || existsb (Ascii.eqb c) ["%"; "/"]%char.

Lemma uri_encode_chars s es : str_all encoded_char (uri_encode s es) = true.
Proof.
  induction s as [|c s IH]; [done|]. cbn [uri_encode]. rewrite str_all_app, IH, andb_true_r.
  revert c. assert (all_bytes (fun c => str_all encoded_char (encode_byte es c)) = true) as H
    by (by destruct es; vm_compute). intros c. by apply (all_bytes_spec _ c) in H.
Qed.

Lemma uri_encode_lacks sep s es : encoded_char sep = false -> lacks sep (uri_encode s es) = true.
Proof.
  intros Hs. eapply str_all_impl; [|apply uri_encode_chars]. intros c Hc.
  destruct (Ascii.eqb_spec c sep) as [->|]; [congruence|done].
Qed.

Lemma uri_decode_byte es c s : uri_decode (encode_byte es c ++ s) = String c (uri_decode s).
Proof.
  revert c.
  assert (all_bytes (fun c =>
    match encode_byte es c with
    | String d "" => Ascii.eqb d c && negb (Ascii.eqb d "%")
    | String d (String h (String l "")) =>
      Ascii.eqb d "%" && Ascii.eqb (ascii_of_N (hex_value h * 16 + hex_value l)) c
    | _ => false
    end) = true) as H by (by destruct es; vm_compute).
  intros c. apply (all_bytes_spec _ c) in H. cbv beta in H.
  destruct (encode_byte es c) as [|d [|h [|l [|]]]]; try done;
    apply andb_true_iff in H as [H1%Ascii.eqb_eq H2].
  - subst d. rewrite negb_true_iff, Ascii.eqb_neq in H2. change (String c "" ++ s) with (String c s).
    destruct c as [[] [] [] [] [] [] [] []]; done.
  - apply Ascii.eqb_eq in H2. subst d. rewrite <- H2. done.
Qed.

Lemma uri_decode_encode s es : uri_decode (uri_encode s es) = s.
Proof.
  induction s as [|c s IH]; [done|]. cbn [uri_encode]. by rewrite uri_decode_byte, IH.
Qed.

#[export] Instance uri_encode_inj es : Inj (=) (=) (fun s => uri_encode s es).
Proof. intros s t H. by rewrite <- (uri_decode_encode s es), H, uri_decode_encode. Qed.

(** ** Joined parts *)

Lemma str_split_lacks sep s : lacks sep s = true -> str_split sep s = [s].
Proof.
  induction s as [|c s IH]; [done|]. unfold lacks. simpl. intros [Hc%negb_true_iff Hs]%andb_true_iff.
  by rewrite Hc, IH.
Qed.

Lemma str_split_app sep s t : lacks sep s = true -> str_split sep (s ++ String sep t) = s :: str_split sep t.
Proof.
  induction s as [|c s IH].
  - intros _. change ("" ++ ?t) with t. simpl. by rewrite Ascii.eqb_refl.
  - unfold lacks. simpl. intros [Hc%negb_true_iff Hs]%andb_true_iff.
    change (String c s ++ ?t) with (String c (s ++ t)). simpl. by rewrite Hc, IH.
Qed.

Lemma str_split_join sep parts :
  parts <> [] -> Forall (fun p => lacks sep p = true) parts ->
  str_split sep (join (String sep "") parts) = parts.
Proof.
  induction parts as [|p [|q parts] IH]; intros Hne Hl; [done| |];
    apply Forall_cons in Hl as [Hp Hl].
  - by apply str_split_lacks.
  - change (join (String sep "") (p :: q :: parts))
      with (p ++ String sep "" ++ join (String sep "") (q :: parts)).
    change (String sep "" ++ ?t) with (String sep t). by rewrite str_split_app, IH.
Qed.

Lemma encoded_pair_inj (a b : string * string) :
  uri_encode a.1 true ++ "=" ++ uri_encode a.2 true = uri_encode b.1 true ++ "=" ++ uri_encode b.2 true -> a = b.
Proof.
  intros H. apply (f_equal (split_once "=")) in H. rewrite !(string_app_cons "="), !string_app_nil_l in H.
  rewrite !split_once_app in H by by apply uri_encode_lacks. injection H as H1 H2.
  apply (inj (fun s => uri_encode s true)) in H1, H2. destruct a, b. simpl in *. congruence.
Qed.

Lemma join_newline p ps : ps <> [] -> join newline_str (p :: ps) = p ++ String newline (join newline_str ps).
Proof. by destruct ps. Qed.

(** The encoded parameters of a canonical query, in order. *)
Definition encoded_params (q : list (string * string)) : list string :=
  (fun kv => kv.1 ++ "=" ++ kv.2) <$> sort_by pair_leb (encode_pair <$> q).

Lemma encoded_params_perm q :
  encoded_params q ≡ₚ (fun kv => uri_encode kv.1 true ++ "=" ++ uri_encode kv.2 true) <$> q.
Proof. unfold encoded_params. rewrite sort_by_perm. by rewrite <- list_fmap_compose. Qed.

Lemma encoded_params_lack sep q : sep <> "="%char -> encoded_char sep = false ->
  Forall (fun p => lacks sep p = true) (encoded_params q).
Proof.
  intros Hne Hs. rewrite encoded_params_perm. apply Forall_fmap, Forall_true. intros [k v]. simpl.
  rewrite !lacks_app, !uri_encode_lacks by done. unfold lacks. cbn [str_all].
  destruct (Ascii.eqb_spec "=" sep) as [E|]; [by destruct Hne|done].
Qed.

Lemma lacks_join sep d parts : lacks sep d = true -> Forall (fun p => lacks sep p = true) parts ->
  lacks sep (join d parts) = true.
Proof.
  intros Hd. induction parts as [|p [|q parts] IH]; intros Hp; [done| |]; apply Forall_cons in Hp as [Hp Hps].
  - done.
  - change (join d (p :: q :: parts)) with (p ++ d ++ join d (q :: parts)).
    by rewrite !lacks_app, Hp, Hd, IH.
Qed.

Lemma canonical_query_empty q : canonical_query q = "" -> q = [].
Proof.
  unfold canonical_query. change (_ <$> sort_by pair_leb _) with (encoded_params q).
  pose proof (encoded_params_perm q) as HP. intros H.
  destruct q as [|[k v] q]; [done|]. exfalso.
  destruct (encoded_params _) as [|p [|p' ps]].
  - by apply Permutation_nil_l in HP.
  - apply Permutation_singleton_l in HP. injection HP as HP _. simpl in H. subst p.
    by destruct (uri_encode k true).
  - simpl in H. destruct p; [|done]. done.
Qed.

Lemma canonical_query_inj q q' : canonical_query q = canonical_query q' -> q ≡ₚ q'.
Proof.
  intros H. destruct (decide (q = [])) as [->|Hq].
  { symmetry in H. by apply canonical_query_empty in H as ->. }
  destruct (decide (q' = [])) as [->|Hq']; [by apply canonical_query_empty in H|].
  assert (forall p, p <> [] -> str_split "&" (canonical_query p) = encoded_params p) as Hs.
  { intros p Hp. apply str_split_join; [|by apply encoded_params_lack].
    intros E. pose proof (encoded_params_perm p) as HP. rewrite E in HP.
    apply Permutation_nil_l in HP. symmetry in HP. by apply fmap_nil_inv in HP. }
  apply (f_equal (str_split "&")) in H. rewrite !Hs in H by done.
  pose proof (encoded_params_perm q) as HP. rewrite H, encoded_params_perm in HP.
  apply Permutation_map_inv in HP as (q2 & E & HP). rewrite HP.
  apply list_fmap_eq_inj in E as ->; [done|]. intros a b. apply encoded_pair_inj.
Qed.

(** ** The lines of a canonical request *)

Definition header_line (kv : string * string) : string := kv.1 ++ ":" ++ kv.2.

(** A name is no line and has no colon; a value is no line. *)
Definition header_ok (kv : string * string) : Prop :=
  lacks ":" kv.1 = true /\ lacks newline kv.1 = true /\ lacks newline kv.2 = true.

Lemma header_line_inj a b : header_ok a -> header_ok b -> header_line a = header_line b -> a = b.
Proof.
  intros (Ha & _) (Hb & _) H. unfold header_line in H. apply (f_equal (split_once ":")) in H.
  rewrite !(string_app_cons ":"), !string_app_nil_l, !split_once_app in H by done.
  injection H as H1 H2. destruct a, b. simpl in *. congruence.
Qed.

Lemma header_lines_inj l l' : Forall header_ok l -> Forall header_ok l' ->
  header_line <$> l = header_line <$> l' -> l = l'.
Proof.
  intros Hl. revert l'. induction Hl as [|a l Ha Hl IH]; intros [|b l'] Hl' H; [done..|].
  apply Forall_cons in Hl' as [Hb Hl']. injection H as H1 H2. f_equal; [by apply header_line_inj|by apply IH].
Qed.

Lemma to_lowercase_lacks sep s : existsb (Ascii.eqb sep) [":"; newline]%char = true ->
  lacks sep s = true -> lacks sep (to_lowercase s) = true.
Proof.
  intros Hs. apply lacks_map. intros c Hc.
  assert (all_bytes (fun c => negb (existsb (Ascii.eqb (ascii_lower c)) [":"; newline]%char) ||
    Ascii.eqb (ascii_lower c) c) = true) as H by by vm_compute.
  apply (all_bytes_spec _ c) in H. cbv beta in H. rewrite Hc, Hs in H. by apply Ascii.eqb_eq in H.
Qed.

Lemma split_whitespace_lacks w s : lacks newline w = true ->
  Forall (fun p => lacks newline p = true) (split_whitespace_from w s).
Proof.
  revert w. induction s as [|c s IH]; intros w Hw; simpl; [by destruct (is_empty w); repeat constructor|].
  destruct (is_whitespace c) eqn:Ec.
  - apply Forall_app. split; [by destruct (is_empty w); repeat constructor|by apply IH].
  - apply IH. rewrite lacks_app, Hw. unfold lacks. simpl. destruct (Ascii.eqb_spec c newline) as [->|]; done.
Qed.

Lemma canonical_value_lacks v : lacks newline (canonical_header_value v) = true.
Proof. apply lacks_join; [done|]. by apply split_whitespace_lacks. Qed.

(** The headers a caller may add. *)
Definition name_ok (name : string) : Prop := lacks ":" name = true /\ lacks newline name = true.

Lemma signed_headers_ok host extra amz_date :
  Forall (fun kv => name_ok kv.1) extra -> lacks newline amz_date = true ->
  Forall header_ok (signed_header_list host extra amz_date).
Proof.
  intros He Hd. unfold signed_header_list. rewrite sort_by_perm. apply Forall_app. split.
  - apply Forall_fmap. eapply Forall_impl; [exact He|]. intros [k v] [H1 H2]. simpl in *.
    split_and!; [by apply to_lowercase_lacks..|apply canonical_value_lacks].
  - repeat constructor; [apply canonical_value_lacks|done].
Qed.

(** The lines of the request, the text behind the headers being [rest]. *)
Lemma split_header_lines hs rest : Forall header_ok hs ->
  str_split newline (foldr (fun kv s => kv.1 ++ ":" ++ kv.2 ++ newline_str ++ s) "" hs ++ rest)
  = ((header_line <$> hs) ++ str_split newline rest)%list.
Proof.
  induction 1 as [|[k v] hs (_ & Hk & Hv) _ IH]; [done|]. simpl in *.
  rewrite !string_app_assoc.
  transitivity (str_split newline (header_line (k, v) ++ String newline
    (foldr (fun kv s => kv.1 ++ ":" ++ kv.2 ++ newline_str ++ s) "" hs ++ rest))).
  { f_equal. unfold header_line. simpl. by rewrite !string_app_assoc. }
  rewrite str_split_app, IH; [done|]. unfold header_line. cbn [fst snd]. by rewrite !lacks_app, Hk, Hv.
Qed.

Lemma canonical_lines method host path query extra payload amz_date :
  Forall (fun kv => name_ok kv.1) extra ->
  Forall (fun s => lacks newline s = true) [method; payload; amz_date] ->
  str_split newline (build_canonical method host path query extra payload amz_date).1 =
    ([method; uri_encode path false; canonical_query query] ++
     (header_line <$> signed_header_list host extra amz_date) ++
     [""; (build_canonical method host path query extra payload amz_date).2; payload])%list.
Proof.
  intros He [Hm [Hp [Hd _]%Forall_cons]%Forall_cons]%Forall_cons.
  pose proof (signed_headers_ok host extra amz_date He Hd) as Hh. unfold build_canonical. cbn [fst snd].
  set (hs := signed_header_list host extra amz_date) in *.
  rewrite join_newline, str_split_app by done. rewrite join_newline, str_split_app by (done || by apply uri_encode_lacks).
  rewrite join_newline, str_split_app; [|by apply lacks_join, encoded_params_lack|done].
  rewrite join_newline by done.
  rewrite split_header_lines by done. simpl. do 4 f_equal.
  transitivity (str_split newline ("" ++ String newline
    (join ";" hs.*1 ++ String newline payload))); [done|]. rewrite !str_split_app; [|..|done].
  - by rewrite str_split_lacks.
  - apply lacks_join; [done|]. apply Forall_fmap. eapply Forall_impl; [exact Hh|]. by intros kv (_ & H & _).
Qed.

(** What a signature is made over determines the request: when two canonical requests
    are the same text, their methods, paths, headers and payload digests are the same, and
    their query parameters are the same up to order, whatever bytes the path and the
    parameters hold. *)
Theorem canonical_request_binds method host path query extra payload amz_date
    method' host' path' query' extra' payload' amz_date' :
  Forall (fun kv => name_ok kv.1) (extra ++ extra')%list ->
  Forall (fun s => lacks newline s = true) [method; payload; amz_date; method'; payload'; amz_date'] ->
  (build_canonical method host path query extra payload amz_date).1 =
    (build_canonical method' host' path' query' extra' payload' amz_date').1 ->
  method = method' /\ path = path' /\ query ≡ₚ query' /\ payload = payload' /\
  signed_header_list host extra amz_date = signed_header_list host' extra' amz_date'.
Proof.
  intros [He He']%Forall_app Hl H. apply (f_equal (str_split newline)) in H.
  change [?a; ?b; ?c; ?a'; ?b'; ?c'] with ([a; b; c] ++ [a'; b'; c'])%list in Hl. apply Forall_app in Hl as [Hl Hl'].
  rewrite !canonical_lines in H by done. injection H as -> Hp Hq H.
  apply app_inj_2 in H as [Hh [= _ Hpay]]; [|done].
  split_and!; [done|by apply (inj (fun s => uri_encode s false))|by apply canonical_query_inj|done|].
  apply header_lines_inj; [..|done]; apply signed_headers_ok; try done.
  - by apply Forall_cons in Hl as [_ [_ [? _]%Forall_cons]%Forall_cons].
  - by apply Forall_cons in Hl' as [_ [_ [? _]%Forall_cons]%Forall_cons].
Qed.

Lemma canonical_request_binds_witness :
  "GET" = "GET" /\ "/a b" = "/a b" /\ [("a", "1"); ("b", "2")] ≡ₚ [("b", "2"); ("a", "1")] /\
  EMPTY_PAYLOAD_SHA256 = EMPTY_PAYLOAD_SHA256 /\
  signed_header_list "h" [("X-Amz-Meta", "u  v")] "20150830T123600Z" =
    signed_header_list " h" [("x-amz-meta", "u v")] "20150830T123600Z".
Proof.
  apply (canonical_request_binds "GET" "h" "/a b" [("a", "1"); ("b", "2")] [("X-Amz-Meta", "u  v")]
    EMPTY_PAYLOAD_SHA256 "20150830T123600Z" "GET" " h" "/a b" [("b", "2"); ("a", "1")]
    [("x-amz-meta", "u v")] EMPTY_PAYLOAD_SHA256 "20150830T123600Z").
  - repeat constructor.
  - repeat constructor.
  - vm_compute. reflexivity.
Defined.

(** The example of the signature's documentation. *)
Example canonical_request_example :
  build_canonical "GET" "iam.amazonaws.com" "/" [("Version", "2010-05-08"); ("Action", "ListUsers")]
    [("Content-Type", "application/x-www-form-urlencoded; charset=utf-8")] "e3b0" "20150830T123600Z" =
  (join newline_str ["GET"; "/"; "Action=ListUsers&Version=2010-05-08";
     "content-type:application/x-www-form-urlencoded; charset=utf-8"; "host:iam.amazonaws.com";
     "x-amz-date:20150830T123600Z"; ""; "content-type;host;x-amz-date"; "e3b0"],
   "content-type;host;x-amz-date").
Proof. reflexivity. Qed.
