(* ===== verification/Codec.v ===== *)
(** * The container of an archive object

    [src/aetelier-entrepot/src/error.rs] and [codec.rs]: the errors of a transfer, and an object
    taken from its compressed bytes to its lines.  The frames of LZ4 are a parameter; UTF-8 is
    checked the way [std::str::from_utf8] does. *)
From Stdlib Require Import Ascii String.
From S2P Require Import Prelude Strings Numeric Pairs Types Disk Leaf.
Local Open Scope string_scope.
Local Open Scope N_scope.

(** ** error.rs *)

(** What the code asks of a [reqwest::Error]. *)
Record HttpError := {
  he_timeout : bool; he_connect : bool; he_request : bool; he_body : bool; he_decode : bool;
  he_shown : string
}.

(** [io::Error]: its kind, as far as it is looked at, and its text. *)
Inductive IoKind := NotFound | InvalidInput | OtherKind.
Record IoError := { io_kind : IoKind; io_shown : string }.

Inductive EntrepotError :=
| Transport (e : HttpError)
| Status (status : N) (key body : string)
| ListParse (e : string)
| Io (path : string) (e : IoError)
| Decode (key reason : string)
| Integrity (key reason : string)
| Exhausted (attempts : N) (key last : string)
| CredentialsUnset (e : string).

Definition EntrepotError_fmt (e : EntrepotError) : string :=
  match e with
  | Transport e => "http transport: " ++ he_shown e
  | Status status key body => "http status " ++ pretty status ++ " for " ++ key ++ ": " ++ body
  | ListParse e => "list response parse: " ++ e
  | Io path e => "io on " ++ path ++ ": " ++ io_shown e
  | Decode key reason => "decode " ++ key ++ ": " ++ reason
  | Integrity key reason => "integrity " ++ key ++ ": " ++ reason
  | Exhausted attempts key last =>
    "retries exhausted after " ++ pretty attempts ++ " attempts for " ++ key ++ ": " ++ last
  | CredentialsUnset e => "missing credentials: " ++ e
  end.

(** ** UTF-8 *)

Inductive Utf8Step := WholeChar (len : nat) | InvalidAfter (error_len : nat) | Incomplete.

Definition continuation (c : ascii) : bool := in_range 128 191 c.

(** The width of a character by its first byte. *)
Definition utf8_width (c : ascii) : nat :=
  if code c <? 128 then 1%nat
  else if in_range 194 223 c then 2%nat
  else if in_range 224 239 c then 3%nat
  else if in_range 240 244 c then 4%nat
  else 0%nat.

(** The second byte, without overlong forms, surrogates and numbers past the last. *)
Definition second_ok (c d : ascii) : bool :=
  if code c =? 224 then in_range 160 191 d
  else if code c =? 237 then in_range 128 159 d
  else if code c =? 240 then in_range 144 191 d
  else if code c =? 244 then in_range 128 143 d
  else continuation d.

Fixpoint continuations (need got : nat) (s : string) : Utf8Step :=
  match need with
  | O => WholeChar got
  | S need =>
    match s with
    | "" => Incomplete
    | String d s => if continuation d then continuations need (S got) s else InvalidAfter got
    end
  end.

Definition utf8_step (c : ascii) (s : string) : Utf8Step :=
  match utf8_width c with
  | O => InvalidAfter 1
  | 1%nat => WholeChar 1
  | width =>
    match s with
    | "" => Incomplete
    | String d s => if second_ok c d then continuations (width - 2) 2 s else InvalidAfter 1
    end
  end.

Record Utf8Error := { valid_up_to : N; error_len : option nat }.

Definition Utf8Error_fmt (e : Utf8Error) : string :=
  match error_len e with
  | Some n => "invalid utf-8 sequence of " ++ pretty (N.of_nat n) ++ " bytes from index " ++ pretty (valid_up_to e)
  | None => "incomplete utf-8 byte sequence from index " ++ pretty (valid_up_to e)
  end.

(** [skip] bytes belong to the last character. *)
Fixpoint utf8_check (skip : nat) (at_ : N) (s : string) : option Utf8Error :=
  match s with
  | "" => None
  | String c s =>
    match skip with
    | S skip => utf8_check skip (at_ + 1) s
    | O =>
      match utf8_step c s with
      | WholeChar n => utf8_check (n - 1) (at_ + 1) s
      | InvalidAfter n => Some {| valid_up_to := at_; error_len := Some n |}
      | Incomplete => Some {| valid_up_to := at_; error_len := None |}
      end
    end
  end.

(** [std::str::from_utf8] *)
Definition str_from_utf8 (bytes : string) : Result string Utf8Error :=
  match utf8_check 0 0 bytes with None => Ok bytes | Some e => Err e end.

Definition REPLACEMENT : string :=
  String (ascii_of_N 239) (String (ascii_of_N 191) (String (ascii_of_N 189) "")).

(** [String::from_utf8_lossy]: [skip] bytes are copied, or left out, before the next step. *)
Fixpoint lossy (skip : nat) (copy : bool) (s : string) : string :=
  match s with
  | "" => ""
  | String c s =>
    match skip with
    | S skip => if copy then String c (lossy skip copy s) else lossy skip copy s
    | O =>
      match utf8_step c s with
      | WholeChar n => String c (lossy (n - 1) true s)
      | InvalidAfter n => REPLACEMENT ++ lossy (n - 1) false s
      | Incomplete => REPLACEMENT
      end
    end
  end.
Definition from_utf8_lossy (bytes : string) : string := lossy 0 true bytes.

(** [s.chars().take(n)] *)
Fixpoint take_chars (n : nat) (s : string) : string :=
  match s with
  | "" => ""
  | String c s =>
    if continuation c then String c (take_chars n s)
    else match n with O => "" | S n => String c (take_chars n s) end
  end.

(** ** codec.rs *)

Definition MAX_DECODED_OBJECT_BYTES : N := N.shiftl 256 20.

(** [FrameDecoder::new(bytes).take(limit).read_to_end(..)], which may panic, and the encoder. *)
Inductive LzRead := LzBytes (out : string) | LzFailed (e : string) | LzPanicked (reason : string).
Class Lz4 := {
  lz4_read : N -> string -> LzRead;
  lz4_frame : string -> string
}.

(** A computation that may panic: [Err] is the panic. *)
Definition Unwinding (A : Type) : Type := Result A string.

Definition byte_len (s : string) : N := N.of_nat (String.length s).

Section Codec.
Context {LZ : Lz4}.

Definition decode_lz4_capped (key bytes : string) (cap : N) : Unwinding (Result string EntrepotError) :=
  match lz4_read (cap + 1) bytes with
  | LzPanicked reason => Err reason
  | LzFailed e => Ok (Err (Decode key e))
  | LzBytes out =>
    if cap <? byte_len out then
      Ok (Err (Decode key ("object inflates past " ++ pretty cap ++ " bytes")))
    else Ok (Ok out)
  end.

Definition decode_lz4 (key bytes : string) : Unwinding (Result string EntrepotError) :=
  decode_lz4_capped key bytes MAX_DECODED_OBJECT_BYTES.

Definition encode_lz4 (bytes : string) : string := lz4_frame bytes.

(** [text.lines()] is [text_lines]. *)
Definition utf8_lines (key decoded : string) : Result (list string) EntrepotError :=
  match str_from_utf8 decoded with
  | Err e => Err (Decode key ("not utf-8: " ++ Utf8Error_fmt e))
  | Ok text => Ok (text_lines "" text)
  end.

(** [codec::decode_lz4(&key, &bytes).and_then(|d| codec::utf8_lines(&key, &d))] *)
Definition object_lines (key bytes : string) : Unwinding (Result (list string) EntrepotError) :=
  match decode_lz4 key bytes with
  | Err reason => Err reason
  | Ok (Err e) => Ok (Err e)
  | Ok (Ok out) => Ok (utf8_lines key out)
  end.
End Codec.

(** ** Text of valid lines *)

Lemma continuations_app need got s t n :
  continuations need got s = WholeChar n -> continuations need got (s ++ t) = WholeChar n.
Proof.
  revert got s. induction need as [|need IH]; intros got s; simpl; [done|].
  destruct s as [|d s]; [done|]. rewrite string_app_cons. destruct (continuation d); [apply IH|done].
Qed.

Lemma utf8_step_app c s t n : utf8_step c s = WholeChar n -> utf8_step c (s ++ t) = WholeChar n.
Proof.
  unfold utf8_step. destruct (utf8_width c) as [|[|width]]; [done..|].
  destruct s as [|d s]; [done|]. rewrite string_app_cons. destruct (second_ok c d); [apply continuations_app|done].
Qed.

(** A character is no longer than the text it starts. *)
Lemma continuations_len need got s n :
  continuations need got s = WholeChar n -> n = (got + need)%nat /\ (need <= String.length s)%nat.
Proof.
  revert got s. induction need as [|need IH]; intros got s; simpl; [intros [= ->]; lia|].
  destruct s as [|d s]; [done|]. destruct (continuation d); [|done]. intros H%IH. simpl. lia.
Qed.

Lemma utf8_step_len c s n : utf8_step c s = WholeChar n -> (n - 1 <= String.length s)%nat.
Proof.
  unfold utf8_step. destruct (utf8_width c) as [|[|width]]; [done|intros [= <-]; lia|].
  destruct s as [|d s]; [done|]. destruct (second_ok c d); [|done]. intros H%continuations_len. simpl. lia.
Qed.

Lemma utf8_check_app skip at_ s t : (skip <= String.length s)%nat -> utf8_check skip at_ s = None ->
  utf8_check skip at_ (s ++ t) = utf8_check 0 (at_ + byte_len s) t.
Proof.
  revert skip at_. induction s as [|c s IH]; intros skip at_ Hl; simpl in *.
  - replace skip with 0%nat by lia. intros _. unfold byte_len. by rewrite string_app_nil_l, N.add_0_r.
  - assert (forall at_, at_ + byte_len (String c s) = at_ + 1 + byte_len s) as -> by (unfold byte_len; simpl; lia).
    change (String c s ++ t) with (String c (s ++ t)). cbn [utf8_check].
    destruct skip as [|skip]; [|intros H; apply IH; [lia|done]].
    destruct (utf8_step c s) eqn:E; [|done..]. rewrite (utf8_step_app _ _ _ _ E).
    apply IH. by apply utf8_step_len in E.
Qed.

Lemma utf8_check_shift skip a b s : utf8_check skip a s = None -> utf8_check skip b s = None.
Proof.
  revert skip a b. induction s as [|c s IH]; intros skip a b; simpl; [done|].
  destruct skip; [|apply IH]. destruct (utf8_step c s); [apply IH|done..].
Qed.

Definition valid_utf8 (s : string) : Prop := utf8_check 0 0 s = None.

Lemma valid_utf8_app s t : valid_utf8 s -> valid_utf8 t -> valid_utf8 (s ++ t).
Proof.
  unfold valid_utf8. intros Hs Ht. rewrite utf8_check_app by (done || lia). by eapply utf8_check_shift.
Qed.

(** The text of lines, each ended. *)
Definition lines_text (lines : list string) : string :=
  foldr (fun l s => l ++ newline_str ++ s) "" lines.

(** A line that is read back as it is. *)
Definition plain_line (l : string) : Prop :=
  lacks newline l = true /\ strip_cr l = l /\ valid_utf8 l.

Lemma text_lines_of lines : Forall plain_line lines -> text_lines "" (lines_text lines) = lines.
Proof.
  induction 1 as [|l lines (Hl & Hc & _) _ IH]; [done|].
  change (lines_text (l :: lines)) with (l ++ String newline (lines_text lines)).
  by rewrite text_lines_one, string_app_nil_l, Hc, IH.
Qed.

Lemma lines_text_valid lines : Forall plain_line lines -> valid_utf8 (lines_text lines).
Proof.
  induction 1 as [|l lines (_ & _ & Hv) _ IH]; [done|].
  change (lines_text (l :: lines)) with (l ++ newline_str ++ lines_text lines).
  apply valid_utf8_app; [done|]. by apply valid_utf8_app.
Qed.

Fixpoint string_take (n : nat) (s : string) : string :=
  match n, s with S n, String c s => String c (string_take n s) | _, _ => "" end.

Lemma string_take_all n s : (String.length s <= n)%nat -> string_take n s = s.
Proof. revert s. induction n as [|n IH]; intros [|c s] H; simpl in *; [done|lia|done|by rewrite IH by lia]. Qed.

Lemma length_string_take n s : String.length (string_take n s) = Nat.min n (String.length s).
Proof. revert s. induction n as [|n IH]; intros [|c s]; simpl; [done..|]. by rewrite IH. Qed.

(** What the code relies on of the frames: reading a frame gives the bytes framed, as many as
    asked for. *)
Class Lz4Laws (LZ : Lz4) : Prop := {
  lz4_read_frame limit bytes : lz4_read limit (lz4_frame bytes) = LzBytes (string_take (N.to_nat limit) bytes)
}.

Section Roundtrip.
Context {LZ : Lz4} {LL : Lz4Laws LZ}.

Lemma decode_encode_lz4 key bytes cap :
  decode_lz4_capped key (encode_lz4 bytes) cap =
  Ok (if byte_len bytes <=? cap then Ok bytes
      else Err (Decode key ("object inflates past " ++ pretty cap ++ " bytes"))).
Proof.
  unfold decode_lz4_capped, encode_lz4. rewrite lz4_read_frame.
  unfold byte_len. rewrite length_string_take.
  destruct (N.leb_spec (N.of_nat (String.length bytes)) cap) as [H|H].
  - rewrite string_take_all by lia. destruct (N.ltb_spec cap (N.of_nat (N.to_nat (cap + 1) `min` String.length bytes))); [lia|done].
  - destruct (N.ltb_spec cap (N.of_nat (N.to_nat (cap + 1) `min` String.length bytes))); [done|lia].
Qed.

(** An archive object is read back: the lines framed into an object, of at most 256 MiB of
    text, are the lines the reader gets, and an object of more text is refused. *)
Theorem archive_object_roundtrip key lines :
  Forall plain_line lines ->
  object_lines key (encode_lz4 (lines_text lines)) =
  Ok (if byte_len (lines_text lines) <=? MAX_DECODED_OBJECT_BYTES then Ok lines
      else Err (Decode key ("object inflates past " ++ pretty MAX_DECODED_OBJECT_BYTES ++ " bytes"))).
Proof.
  intros Hl. unfold object_lines, decode_lz4. rewrite decode_encode_lz4.
  destruct (_ <=? _); [|done]. unfold utf8_lines, str_from_utf8.
  rewrite (lines_text_valid lines) by done. by rewrite text_lines_of.
Qed.
End Roundtrip.

(** A container that stores the bytes as they are. *)
#[local] Instance stored_lz4 : Lz4 := {
  lz4_read limit bytes := LzBytes (string_take (N.to_nat limit) bytes);
  lz4_frame bytes := bytes
}.
#[local] Instance stored_laws : Lz4Laws stored_lz4.
Proof. by split. Qed.

Lemma archive_object_roundtrip_witness :
  object_lines "k" (encode_lz4 (lines_text ["a"; ""; "c"])) = Ok (Ok ["a"; ""; "c"]).
Proof.
  apply (archive_object_roundtrip "k" ["a"; ""; "c"]). repeat constructor.
Defined.

(** The bytes of the tests: no start of a character, and a character cut short. *)
Example utf8_rejects :
  utf8_lines "k" (String (ascii_of_N 255) "a") =
    Err (Decode "k" "not utf-8: invalid utf-8 sequence of 1 bytes from index 0") /\
  utf8_lines "k" ("ab" ++ String (ascii_of_N 226) (String (ascii_of_N 130) "")) =
    Err (Decode "k" "not utf-8: incomplete utf-8 byte sequence from index 2").
Proof. by vm_compute. Qed.
