(* ===== verification/ObjectStore.v ===== *)
(** * The object store

    [src/aetelier-entrepot/src/retry.rs], [pacing.rs] and [s3.rs]: the client of a bucket, which
    retries its requests, follows the pages of a listing and checks what it retrieves.

    The HTTP client, the reader of XML, MD5, the clock and the random draws are parameters: the
    answer to the [n]-th request, the events of a text, the digest of a body.  A multiplier is
    a rational, without rounding; the count of attempts stays below 2^32. *)
From Stdlib Require Import QArith Qround Ascii String.
From S2P Require Import Prelude BTree Budget Strings Numeric Pairs Types Disk Leaf Json Sign Codec.
Local Open Scope string_scope.
Local Open Scope N_scope.

(** ** retry.rs *)

Inductive Verdict := Success | RetryAfterBackoff | Fatal.

Record RetryPolicy := {
  max_retries : N;
  base_delay : Duration;
  max_delay : Duration;
  multiplier : Q
}.

Definition RetryPolicy_default : RetryPolicy := {|
  max_retries := 8; base_delay := millis 500; max_delay := seconds 120; multiplier := 2
|}.

(** [Duration::from_secs_f64] rounds to the nanosecond. *)
Definition ceiling (p : RetryPolicy) (attempt : N) : Duration :=
  let scaled := (inject_Z (Z.of_N (base_delay p)) * multiplier p ^ Z.of_N (N.min attempt 1024))%Q in
  if Qle_bool (inject_Z (Z.of_N (max_delay p))) scaled then max_delay p
  else Z.to_N (Qfloor (scaled + (1 # 2))).

(** [draw] is [rng.random_range(0..=half)]. *)
Definition s3_jittered (p : RetryPolicy) (attempt : N) (draw : Duration -> Duration) : Duration :=
  let half := ceiling p attempt / 2 in half + draw half.

Definition delay_for (p : RetryPolicy) (attempt : N) (retry_after : option Duration)
    (draw : Duration -> Duration) : Duration :=
  match retry_after with
  | Some hinted => N.max (N.min hinted (max_delay p)) (s3_jittered p attempt draw)
  | None => s3_jittered p attempt draw
  end.

Definition exhausted (p : RetryPolicy) (attempt : N) : bool := max_retries p <=? attempt.

Definition classify_status (status : N) : Verdict :=
  if (200 <=? status) && (status <=? 299) then Success
  else if existsb (N.eqb status) [408; 425; 429] then RetryAfterBackoff
  else if (500 <=? status) && (status <=? 599) then RetryAfterBackoff
  else Fatal.

Definition is_retryable_transport (e : HttpError) : bool :=
  he_timeout e || he_connect e || he_request e || he_body e || he_decode e.

Definition parse_retry_after (raw : string) : option Duration :=
  (fun secs => seconds (N.min secs 600)) <$> parse_u64 (trim raw).

(** ** pacing.rs *)

Record Jitter := { jitter_min : Duration; jitter_max : Duration }.

Definition Jitter_default : Jitter := {| jitter_min := millis 120; jitter_max := millis 650 |}.
Definition Jitter_new (min max : Duration) : Jitter := {| jitter_min := min; jitter_max := N.max max min |}.

(** [draw] is [rng.random_range(0..=span)]. *)
Definition sample (j : Jitter) (draw : Duration -> Duration) : Duration :=
  if jitter_max j <=? jitter_min j then jitter_min j
  else jitter_min j + draw (jitter_max j - jitter_min j).

(** ** The configuration *)

Record S3Config := {
  bucket : string;
  region : string;
  requester_pays : bool;
  credentials : option Credentials;
  endpoint : option string
}.

(** The two variables of the environment. *)
Definition S3Config_from_env (access secret : option string) (bucket region : string)
    : Result S3Config EntrepotError :=
  match access, secret with
  | None, _ => Err (CredentialsUnset "AWS_ACCESS_KEY_ID unset")
  | Some _, None => Err (CredentialsUnset "AWS_SECRET_ACCESS_KEY unset")
  | Some access, Some secret => Ok {|
      bucket := bucket; region := region; requester_pays := true;
      credentials := Some {| access_key := access; secret_key := secret |}; endpoint := None |}
  end.

Definition S3Config_anonymous (bucket region : string) (endpoint : option string) : S3Config := {|
  bucket := bucket; region := region; requester_pays := false; credentials := None; endpoint := endpoint
|}.

(** [s.trim_start_matches(pat)], [s.trim_end_matches(c)] and [s.trim_matches(c)] *)
Fixpoint strip_prefixes (fuel : nat) (pat s : string) : string :=
  match fuel with
  | O => s
  | S fuel =>
    if String.prefix pat s
    then strip_prefixes fuel pat (String.substring (String.length pat) (String.length s - String.length pat) s)
    else s
  end.
Definition trim_start_matches (pat s : string) : string := strip_prefixes (String.length s) pat s.

Fixpoint trim_start_char (c : ascii) (s : string) : string :=
  match s with String d s' => if Ascii.eqb d c then trim_start_char c s' else s | "" => "" end.
Fixpoint trim_end_char (c : ascii) (s : string) : string :=
  match s with
  | "" => ""
  | String d s =>
    match trim_end_char c s with
    | "" => if Ascii.eqb d c then "" else String d ""
    | t => String d t
    end
  end.
Definition trim_matches (c : ascii) (s : string) : string := trim_end_char c (trim_start_char c s).

Definition host (cfg : S3Config) : string :=
  match endpoint cfg with
  | Some e => trim_end_char "/" (trim_start_matches "http://" (trim_start_matches "https://" e))
  | None => bucket cfg ++ ".s3." ++ region cfg ++ ".amazonaws.com"
  end.

Definition base_url (cfg : S3Config) : string :=
  match endpoint cfg with
  | Some e => trim_end_char "/" e
  | None => "https://" ++ host cfg
  end.

(** ** What the client keeps and what it meets *)

Record TransferSnapshot := {
  get_requests : N; list_requests : N; retries : N; bytes_in : N; unpaid_responses : N;
  integrity_fail : N
}.
Definition TransferSnapshot_default : TransferSnapshot := {|
  get_requests := 0; list_requests := 0; retries := 0; bytes_in := 0; unpaid_responses := 0;
  integrity_fail := 0
|}.

Inductive RequestKind := Get | List.

Record RespMeta := { etag : option string; content_length : option N; request_charged : bool }.

Record FetchedObject := { fo_bytes : string; fo_etag : option string; fo_request_charged : bool }.

Record HttpRequest := { rq_url : string; rq_headers : list (string * string) }.

(** A response: its status, its headers as far as they are text, and what reading its body
    gives, as bytes and as text. *)
Record HttpResponse := {
  rs_status : N;
  rs_header : string -> option string;
  rs_body : Result string HttpError;
  rs_text : option string
}.
Inductive HttpAnswer := NoResponse (e : HttpError) | Responded (r : HttpResponse).

(** The events of the XML reader, an end of the text being the end of the list; a text that
    cannot be decoded or unescaped, or a text that is no XML, is an error. *)
Inductive XmlEvent :=
| XmlStart (name : string)
| XmlEnd (name : string)
| XmlText (text : Result string string)
| XmlOther
| XmlError (e : string).

Class S3World := {
  http_send : nat -> HttpRequest -> HttpAnswer;
  backoff_draw : nat -> Duration -> Duration;
  pace_draw : nat -> Duration -> Duration;
  now_at : nat -> When;
  md5_hex : string -> string;
  xml_events : string -> list XmlEvent
}.

(** A draw lies in its range. *)
Class S3WorldLaws (W : S3World) : Prop := {
  backoff_draw_le n half : backoff_draw n half <= half;
  pace_draw_le n span : pace_draw n span <= span
}.

(** The client: its counters, how many requests it has sent, and how long it slept between two
    attempts and before each request. *)
Record S3State := {
  s3_stats : TransferSnapshot;
  s3_sent : nat;
  s3_backoffs : list Duration;
  s3_paces : list Duration
}.
Definition S3State_new : S3State := {|
  s3_stats := TransferSnapshot_default; s3_sent := 0; s3_backoffs := []; s3_paces := [] |}.

Definition with_stats (f : TransferSnapshot -> TransferSnapshot) (s : S3State) : S3State := {|
  s3_stats := f (s3_stats s); s3_sent := s3_sent s; s3_backoffs := s3_backoffs s; s3_paces := s3_paces s |}.

Definition bump_requests (kind : RequestKind) (t : TransferSnapshot) : TransferSnapshot := {|
  get_requests := match kind with Get => u64_add (get_requests t) 1 | List => get_requests t end;
  list_requests := match kind with Get => list_requests t | List => u64_add (list_requests t) 1 end;
  retries := retries t; bytes_in := bytes_in t; unpaid_responses := unpaid_responses t;
  integrity_fail := integrity_fail t |}.
Definition bump_retries (t : TransferSnapshot) : TransferSnapshot := {|
  get_requests := get_requests t; list_requests := list_requests t; retries := u64_add (retries t) 1;
  bytes_in := bytes_in t; unpaid_responses := unpaid_responses t; integrity_fail := integrity_fail t |}.
Definition add_bytes_in (n : N) (t : TransferSnapshot) : TransferSnapshot := {|
  get_requests := get_requests t; list_requests := list_requests t; retries := retries t;
  bytes_in := u64_add (bytes_in t) n; unpaid_responses := unpaid_responses t;
  integrity_fail := integrity_fail t |}.
Definition bump_unpaid (t : TransferSnapshot) : TransferSnapshot := {|
  get_requests := get_requests t; list_requests := list_requests t; retries := retries t;
  bytes_in := bytes_in t; unpaid_responses := u64_add (unpaid_responses t) 1;
  integrity_fail := integrity_fail t |}.
Definition bump_integrity (t : TransferSnapshot) : TransferSnapshot := {|
  get_requests := get_requests t; list_requests := list_requests t; retries := retries t;
  bytes_in := bytes_in t; unpaid_responses := unpaid_responses t;
  integrity_fail := u64_add (integrity_fail t) 1 |}.

(** ** The pages of a listing *)

Record ObjectMeta := {
  om_key : string; om_size : N; om_etag : option string; om_last_modified : option string
}.

Record ListPage := {
  objects : list ObjectMeta;
  common_prefixes : list string;
  is_truncated : bool;
  next_token : option string
}.

Record PageState := {
  pg : ListPage;
  pg_path : list string;
  pg_key : string;
  pg_size : option N;
  pg_etag : option string;
  pg_last_modified : option string
}.
Definition PageState_new : PageState := {|
  pg := {| objects := []; common_prefixes := []; is_truncated := false; next_token := None |};
  pg_path := []; pg_key := ""; pg_size := None; pg_etag := None; pg_last_modified := None |}.

(** The path of open elements, the innermost first. *)
Definition open_element (name : string) (s : PageState) : PageState :=
  if String.eqb name "Contents" then
    {| pg := pg s; pg_path := name :: pg_path s; pg_key := ""; pg_size := None; pg_etag := None;
       pg_last_modified := None |}
  else
    {| pg := pg s; pg_path := name :: pg_path s; pg_key := pg_key s; pg_size := pg_size s;
       pg_etag := pg_etag s; pg_last_modified := pg_last_modified s |}.

Definition with_page (p : ListPage) (s : PageState) : PageState := {|
  pg := p; pg_path := pg_path s; pg_key := pg_key s; pg_size := pg_size s; pg_etag := pg_etag s;
  pg_last_modified := pg_last_modified s |}.

Definition close_element (name : string) (s : PageState) : PageState :=
  let p := pg s in
  let p :=
    match String.eqb name "Contents", pg_size s with
    | true, Some size =>
      if is_empty (pg_key s) then p
      else {| objects := objects p ++ [{| om_key := pg_key s; om_size := size; om_etag := pg_etag s;
                                          om_last_modified := pg_last_modified s |}];
              common_prefixes := common_prefixes p; is_truncated := is_truncated p;
              next_token := next_token p |}
    | _, _ => p
    end%list in
  {| pg := p; pg_path := tail (pg_path s); pg_key := pg_key s; pg_size := pg_size s;
     pg_etag := pg_etag s; pg_last_modified := pg_last_modified s |}.

Definition quote : ascii := "034".

Definition text_element (value : string) (s : PageState) : PageState :=
  let p := pg s in
  let in_contents := bool_decide (pg_path s !! 1%nat = Some "Contents") in
  let in_common := bool_decide (pg_path s !! 1%nat = Some "CommonPrefixes") in
  match pg_path s with
  | [] => s
  | name :: _ =>
    if String.eqb name "Prefix" && in_common then
      with_page {| objects := objects p; common_prefixes := common_prefixes p ++ [value];
                   is_truncated := is_truncated p; next_token := next_token p |} s
    else if String.eqb name "Key" && in_contents then
      {| pg := p; pg_path := pg_path s; pg_key := value; pg_size := pg_size s; pg_etag := pg_etag s;
         pg_last_modified := pg_last_modified s |}
    else if String.eqb name "Size" && in_contents then
      {| pg := p; pg_path := pg_path s; pg_key := pg_key s; pg_size := parse_u64 value; pg_etag := pg_etag s;
         pg_last_modified := pg_last_modified s |}
    else if String.eqb name "ETag" && in_contents then
      {| pg := p; pg_path := pg_path s; pg_key := pg_key s; pg_size := pg_size s;
         pg_etag := Some (trim_matches quote value); pg_last_modified := pg_last_modified s |}
    else if String.eqb name "LastModified" && in_contents then
      {| pg := p; pg_path := pg_path s; pg_key := pg_key s; pg_size := pg_size s; pg_etag := pg_etag s;
         pg_last_modified := Some value |}
    else if String.eqb name "IsTruncated" then
      with_page {| objects := objects p; common_prefixes := common_prefixes p;
                   is_truncated := String.eqb value "true"; next_token := next_token p |} s
    else if String.eqb name "NextContinuationToken" then
      with_page {| objects := objects p; common_prefixes := common_prefixes p;
                   is_truncated := is_truncated p; next_token := Some value |} s
    else s
  end%list.

Fixpoint parse_events (evs : list XmlEvent) (s : PageState) : Result PageState EntrepotError :=
  match evs with
  | [] => Ok s
  | ev :: evs =>
    match ev with
    | XmlStart name => parse_events evs (open_element name s)
    | XmlEnd name => parse_events evs (close_element name s)
    | XmlText (Ok value) => parse_events evs (text_element value s)
    | XmlText (Err e) | XmlError e => Err (ListParse e)
    | XmlOther => parse_events evs s
    end
  end.

(** The checks of a body: its length, and the digest when the tag is one. *)
Definition is_ascii_hexdigit (c : ascii) : bool :=
  in_range 48 57 c || in_range 65 70 c || in_range 97 102 c.

Definition parse_list_page (evs : list XmlEvent) : Result ListPage EntrepotError :=
  match parse_events evs PageState_new with Ok s => Ok (pg s) | Err e => Err e end.

(** ** The client *)

Record S3Client := { cfg : S3Config; policy : RetryPolicy; pace : Jitter }.

Definition S3Client_new (cfg : S3Config) : S3Client := {|
  cfg := cfg; policy := RetryPolicy_default; pace := Jitter_default |}.
Definition s3_with_policy (p : RetryPolicy) (j : Jitter) (c : S3Client) : S3Client := {|
  cfg := cfg c; policy := p; pace := j |}.

Definition query_string (query : list (string * string)) : string :=
  join "&" ((fun kv => kv.1 ++ "=" ++ uri_encode kv.2 true) <$> query).

Definition request_url (c : S3Client) (path : string) (query : list (string * string)) : string :=
  match query with
  | [] => base_url (cfg c) ++ path
  | _ => base_url (cfg c) ++ path ++ "?" ++ query_string query
  end.

(** What a call ends with, and what an attempt ends with. *)
Definition Answer : Type := Result (string * RespMeta) EntrepotError.
Inductive Attempted := Done (r : Answer) | Again.

Section Client.
Context {SH : Sha256} {HM : Hmac} {W : S3World} (c : S3Client).

Definition verify_integrity (key bytes : string) (tag : option string) (len : option N)
    : Result unit EntrepotError :=
  let short := cl ← len; if cl =? byte_len bytes then None else Some cl in
  match short with
  | Some cl =>
    Err (Integrity key ("body " ++ pretty (byte_len bytes) ++ " bytes vs content-length " ++ pretty cl))
  | None =>
    match tag with
    | Some tag =>
      if (byte_len tag =? 32) && str_all is_ascii_hexdigit tag &&
         negb (eq_ignore_ascii_case (md5_hex bytes) tag)
      then Err (Integrity key ("md5 " ++ md5_hex bytes ++ " vs etag " ++ tag))
      else Ok tt
    | None => Ok tt
    end
  end.

Definition extra_headers : list (string * string) :=
  (("x-amz-content-sha256", EMPTY_PAYLOAD_SHA256) ::
   (if requester_pays (cfg c) then [("x-amz-request-payer", "requester")] else []))%list.

Definition signed_headers (path : string) (query : list (string * string)) (w : When)
    : list (string * string) :=
  match credentials (cfg c) with
  | None => []
  | Some creds =>
    let signed := sign creds "GET" (host (cfg c)) path query extra_headers EMPTY_PAYLOAD_SHA256
                    (region (cfg c)) "s3" w in
    extra_headers ++ [("authorization", authorization signed); ("x-amz-date", x_amz_date signed)]
  end%list.

(** The [n]-th request. *)
Definition nth_request (path : string) (query : list (string * string)) (n : nat) : HttpRequest := {|
  rq_url := request_url c path query; rq_headers := signed_headers path query (now_at n) |}.

Definition send_request (kind : RequestKind) (path : string) (query : list (string * string)) (s : S3State)
    : S3State * HttpAnswer :=
  let n := s3_sent s in
  ({| s3_stats := bump_requests kind (s3_stats s); s3_sent := S n; s3_backoffs := s3_backoffs s;
      s3_paces := s3_paces s ++ [sample (pace c) (pace_draw n)] |},
   http_send n (nth_request path query n))%list.

(** [tokio::time::sleep(self.policy.delay_for(attempt, hint))] *)
Definition s3_back_off (attempt : N) (hint : option Duration) (s : S3State) : S3State := {|
  s3_stats := bump_retries (s3_stats s); s3_sent := s3_sent s;
  s3_backoffs := s3_backoffs s ++
    [delay_for (policy c) attempt hint (backoff_draw (length (s3_backoffs s)))];
  s3_paces := s3_paces s |}%list.

Definition retry_transport (e : HttpError) (attempt : N) (s : S3State) : S3State * Attempted :=
  if negb (is_retryable_transport e) || exhausted (policy c) attempt then (s, Done (Err (Transport e)))
  else (s3_back_off attempt None s, Again).

Definition response_meta (r : HttpResponse) : RespMeta := {|
  etag := trim_matches quote <$> rs_header r "etag";
  content_length := rs_header r "content-length" ≫= parse_u64;
  request_charged := bool_decide (rs_header r "x-amz-request-charged" = Some "requester") |}.

Definition unpaid (m : RespMeta) : bool :=
  requester_pays (cfg c) && bool_decide (credentials (cfg c) <> None) && negb (request_charged m).

Definition get_attempt (kind : RequestKind) (label path : string) (query : list (string * string))
    (attempt : N) (s : S3State) : S3State * Attempted :=
  let '(s, answer) := send_request kind path query s in
  match answer with
  | NoResponse e => retry_transport e attempt s
  | Responded r =>
    match classify_status (rs_status r) with
    | Success =>
      let meta := response_meta r in
      let s := if unpaid meta then with_stats bump_unpaid s else s in
      match rs_body r with
      | Ok body => (with_stats (add_bytes_in (byte_len body)) s, Done (Ok (body, meta)))
      | Err e => retry_transport e attempt s
      end
    | RetryAfterBackoff =>
      if exhausted (policy c) attempt then
        (s, Done (Err (Exhausted (attempt + 1) label ("http " ++ pretty (rs_status r)))))
      else (s3_back_off attempt (rs_header r "retry-after" ≫= parse_retry_after) s, Again)
    | Fatal =>
      (s, Done (Err (Status (rs_status r) label (take_chars 2048 (default "" (rs_text r))))))
    end
  end.

(** The loop: an attempt that is not the last one of the policy is behind every [Again]. *)
Fixpoint get_from (fuel : nat) (kind : RequestKind) (label path : string)
    (query : list (string * string)) (attempt : N) (s : S3State) : option (S3State * Answer) :=
  match fuel with
  | O => None
  | S fuel =>
    match get_attempt kind label path query attempt s with
    | (s, Done r) => Some (s, r)
    | (s, Again) => get_from fuel kind label path query (attempt + 1) s
    end
  end.

Definition get_with_retry (kind : RequestKind) (label path : string) (query : list (string * string))
    (s : S3State) : option (S3State * Answer) :=
  get_from (S (N.to_nat (max_retries (policy c)))) kind label path query 0 s.

(** [get_object] and [ObjectSource::get] *)
Definition get_object (key : string) (s : S3State) : option (S3State * Result FetchedObject EntrepotError) :=
  match get_with_retry Get key ("/" ++ key) [] s with
  | None => None
  | Some (s, Err e) => Some (s, Err e)
  | Some (s, Ok (bytes, meta)) =>
    match verify_integrity key bytes (etag meta) (content_length meta) with
    | Err e => Some (with_stats bump_integrity s, Err e)
    | Ok _ => Some (s, Ok {| fo_bytes := bytes; fo_etag := etag meta;
                             fo_request_charged := request_charged meta |})
    end
  end.

(** A page of a listing, from a query. *)
Definition get_page (prefix : string) (query : list (string * string)) (s : S3State)
    : option (S3State * Result ListPage EntrepotError) :=
  match get_with_retry List prefix "/" query s with
  | None => None
  | Some (s, Err e) => Some (s, Err e)
  | Some (s, Ok (body, _)) => Some (s, parse_list_page (xml_events (from_utf8_lossy body)))
  end.

Definition list_delimited (prefix delimiter : string) (s : S3State)
    : option (S3State * Result ListPage EntrepotError) :=
  get_page prefix [("delimiter", delimiter); ("list-type", "2"); ("prefix", prefix)] s.

Definition list_query (prefix : string) (token : option string) : list (string * string) :=
  ([("list-type", "2"); ("prefix", prefix)] ++
   match token with Some t => [("continuation-token", t)] | None => [] end)%list.

(** The token of the next page, when there is one. *)
Definition next_page (p : ListPage) : option string := if is_truncated p then next_token p else None.

Fixpoint list_from (fuel : nat) (prefix : string) (token : option string) (out : list ObjectMeta)
    (s : S3State) : option (S3State * Result (list ObjectMeta) EntrepotError) :=
  match fuel with
  | O => None
  | S fuel =>
    match get_page prefix (list_query prefix token) s with
    | None => None
    | Some (s, Err e) => Some (s, Err e)
    | Some (s, Ok page) =>
      let out := (out ++ objects page)%list in
      match next_page page with
      | Some t => list_from fuel prefix (Some t) out s
      | None => Some (s, Ok out)
      end
    end
  end.

(** [ObjectSource::list], within [fuel] pages *)
Definition list_objects (fuel : nat) (prefix : string) (s : S3State)
    : option (S3State * Result (list ObjectMeta) EntrepotError) :=
  list_from fuel prefix None [] s.
End Client.
