(* ===== verification/ObjectStoreProps.v ===== *)
(** * What the object store promises

    Every call of the client of [ObjectStore] ends within the attempts of its policy and its
    counters add up; an object that is returned passed its checks; a listing is its pages, and
    a page of the store is read as it was written. *)
From Stdlib Require Import QArith Qround Ascii String.
From S2P Require Import Prelude BTree Budget Strings Numeric Pairs Types Disk Leaf Json Sign Codec ObjectStore.
Local Open Scope string_scope.
Local Open Scope N_scope.

(** ** Waiting *)

Lemma ceiling_max p attempt : ceiling p attempt <= max_delay p.
Proof.
  unfold ceiling. set (x := (_ * _)%Q). destruct (Qle_bool (inject_Z (Z.of_N (max_delay p))) x) eqn:E; [done|].
  assert (x < inject_Z (Z.of_N (max_delay p)))%Q as Hx.
  { apply Qnot_le_lt. intros H%Qle_bool_iff. by rewrite H in E. }
  assert (Qfloor (x + (1 # 2)) < Z.of_N (max_delay p) + 1)%Z; [|lia].
  rewrite Zlt_Qlt, inject_Z_plus. eapply Qle_lt_trans; [apply Qfloor_le|].
  apply Qplus_lt_le_compat; [done|]. done.
Qed.

Lemma delay_for_bounds p attempt hint draw :
  (forall half, draw half <= half) ->
  ceiling p attempt / 2 <= delay_for p attempt hint draw <= max_delay p.
Proof.
  intros Hd. pose proof (ceiling_max p attempt) as Hc.
  assert (ceiling p attempt / 2 <= s3_jittered p attempt draw <= max_delay p) as Hj.
  { unfold s3_jittered. specialize (Hd (ceiling p attempt / 2)).
    pose proof (N.Div0.mul_div_le (ceiling p attempt) 2). lia. }
  unfold delay_for. destruct hint; lia.
Qed.

(** ** One call *)

(** The counter of requests of a kind. *)
Definition requests (kind : RequestKind) (t : TransferSnapshot) : N :=
  match kind with Get => get_requests t | List => list_requests t end.

(** The counters are the numbers [q], [r], [b] and [u], modulo 2^64. *)
Record counters (kind : RequestKind) (s : S3State) (q r b u : N) : Prop := {
  c_requests : requests kind (s3_stats s) = q mod u64_modulus;
  c_retries : retries (s3_stats s) = r mod u64_modulus;
  c_bytes : bytes_in (s3_stats s) = b mod u64_modulus;
  c_unpaid : unpaid_responses (s3_stats s) = u mod u64_modulus
}.

(** The counters after each kind of update. *)
Ltac count := intros []; split; simpl; try done; by apply u64_add_wrapped.

Lemma counters_bytes kind s q r b u n :
  counters kind s q r b u -> counters kind (with_stats (add_bytes_in n) s) q r (b + n) u.
Proof. destruct kind; count. Qed.

Lemma counters_unpaid kind s q r b u :
  counters kind s q r b u -> counters kind (with_stats bump_unpaid s) q r b (u + 1).
Proof. destruct kind; count. Qed.

Lemma counters_back_off kind c attempt hint s q r b u `{S3World} :
  counters kind s q r b u -> counters kind (s3_back_off c attempt hint s) q (r + 1) b u.
Proof. destruct kind; count. Qed.

Section Calls.
Context {SH : Sha256} {HM : Hmac} {W : S3World} {WL : S3WorldLaws W} (c : S3Client).

(** An answer after which another attempt is made. *)
Definition retryable (a : HttpAnswer) : bool :=
  match a with
  | NoResponse e => is_retryable_transport e
  | Responded r =>
    match classify_status (rs_status r) with
    | Success => match rs_body r with Ok _ => false | Err e => is_retryable_transport e end
    | RetryAfterBackoff => true
    | Fatal => false
    end
  end.

(** What a call whose last answer is [a] returns, after [tries] attempts before it. *)
Definition outcome (label : string) (tries : N) (a : HttpAnswer) : Answer :=
  match a with
  | NoResponse e => Err (Transport e)
  | Responded r =>
    match classify_status (rs_status r) with
    | Success => match rs_body r with Ok body => Ok (body, response_meta r) | Err e => Err (Transport e) end
    | RetryAfterBackoff => Err (Exhausted (tries + 1) label ("http " ++ pretty (rs_status r)))
    | Fatal => Err (Status (rs_status r) label (take_chars 2048 (default "" (rs_text r))))
    end
  end.

Definition unpaid_answer (a : HttpAnswer) : bool :=
  match a with
  | NoResponse _ => false
  | Responded r =>
    match classify_status (rs_status r) with Success => unpaid c (response_meta r) | _ => false end
  end.
Definition unpaid_in (a : HttpAnswer) : N := if unpaid_answer a then 1 else 0.

Definition received (r : Answer) : N := match r with Ok (body, _) => byte_len body | Err _ => 0 end.

(** The answer to the [n]-th request. *)
Definition nth_answer (path : string) (query : list (string * string)) (n : nat) : HttpAnswer :=
  http_send n (nth_request c path query n).

(** One attempt: where it leaves the client, and what it was. *)
Record attempted (kind : RequestKind) (label path : string) (query : list (string * string)) (attempt : N)
    (s s' : S3State) (x : Attempted) : Prop := {
  at_sent : s3_sent s' = S (s3_sent s);
  at_counters q r b u : counters kind s q r b u ->
    counters kind s' (q + 1) (match x with Again => r + 1 | _ => r end)
      (match x with Done res => b + received res | Again => b end)
      (u + unpaid_in (nth_answer path query (s3_sent s)));
  at_what :
    match x with
    | Again => retryable (nth_answer path query (s3_sent s)) = true /\ attempt < max_retries (policy c) /\
        exists d, s3_backoffs s' = (s3_backoffs s ++ [d])%list /\
          ceiling (policy c) attempt / 2 <= d <= max_delay (policy c)
    | Done res => (retryable (nth_answer path query (s3_sent s)) = true -> max_retries (policy c) <= attempt) /\
        res = outcome label attempt (nth_answer path query (s3_sent s)) /\
        s3_backoffs s' = s3_backoffs s
    end
}.

Lemma counters_sent kind path query s q r b u :
  counters kind s q r b u -> counters kind (send_request c kind path query s).1 (q + 1) r b u.
Proof. destruct kind; count. Qed.

Lemma delay_bounds attempt hint n :
  ceiling (policy c) attempt / 2 <= delay_for (policy c) attempt hint (backoff_draw n)
  <= max_delay (policy c).
Proof. apply delay_for_bounds. intros. apply backoff_draw_le. Qed.

(** A failure of the transport, before or behind a success. *)
Lemma retry_transport_spec kind label path query attempt s s1 e :
  s3_sent s1 = S (s3_sent s) -> s3_backoffs s1 = s3_backoffs s ->
  (forall q r b u, counters kind s q r b u ->
    counters kind s1 (q + 1) r b (u + unpaid_in (nth_answer path query (s3_sent s)))) ->
  retryable (nth_answer path query (s3_sent s)) = is_retryable_transport e ->
  outcome label attempt (nth_answer path query (s3_sent s)) = Err (Transport e) ->
  attempted kind label path query attempt s (retry_transport c e attempt s1).1
    (retry_transport c e attempt s1).2.
Proof.
  intros Hs Hb Hc Hr Ho. unfold retry_transport, exhausted.
  destruct (is_retryable_transport e), (N.leb_spec (max_retries (policy c)) attempt); cbn [negb orb fst snd];
    split; simpl; try done.
  all: try by (intros; rewrite N.add_0_r; by apply Hc).
  all: try by rewrite Hr, Ho.
  - intros q r b u H1. by apply counters_back_off, Hc.
  - rewrite Hr, Hb. split_and!; [done..|]. eexists. split; [done|]. apply (delay_bounds attempt None).
Qed.

Lemma attempt_spec kind label path query attempt s :
  attempted kind label path query attempt s
    (get_attempt c kind label path query attempt s).1 (get_attempt c kind label path query attempt s).2.
Proof.
  unfold get_attempt. destruct (send_request c kind path query s) as [s1 a] eqn:Es.
  assert (forall q r b u, counters kind s q r b u -> counters kind s1 (q + 1) r b u) as Hc.
  { intros q r b u H%(counters_sent kind path query). by rewrite Es in H. }
  injection Es as Es1 Ha. fold (nth_answer path query (s3_sent s)) in Ha.
  assert (s3_sent s1 = S (s3_sent s) /\ s3_backoffs s1 = s3_backoffs s) as [Hs Hb] by by rewrite <- Es1.
  clear Es1. destruct a as [e|r].
  { apply retry_transport_spec; rewrite ?Ha; try done. intros. rewrite N.add_0_r. by apply Hc. }
  destruct (classify_status (rs_status r)) eqn:Ev.
  - assert (forall s1' : S3State, s1' = (if unpaid c (response_meta r) then with_stats bump_unpaid s1 else s1) ->
      s3_sent s1' = S (s3_sent s) /\ s3_backoffs s1' = s3_backoffs s /\
      forall q r' b u, counters kind s q r' b u -> counters kind s1' (q + 1) r' b (u + unpaid_in (Responded r))) as Hu.
    { intros s1' ->. unfold unpaid_in. simpl. rewrite Ev. destruct (unpaid c _); (split_and!; [done..|]); intros.
      - by apply counters_unpaid, Hc.
      - rewrite N.add_0_r. by apply Hc. }
    specialize (Hu _ eq_refl) as (Hs' & Hb' & Hc'). set (s1' := if unpaid c _ then _ else _) in *.
    destruct (rs_body r) as [body|e] eqn:Eb.
    + split; cbn [fst snd]; rewrite ?Ha; simpl; rewrite ?Ev, ?Eb; [done|..|by split_and!].
      intros. by apply counters_bytes, Hc'.
    + apply retry_transport_spec; rewrite ?Ha; simpl; rewrite ?Ev, ?Eb; done.
  - assert (unpaid_in (Responded r) = 0) as Hu by (unfold unpaid_in; simpl; by rewrite Ev).
    unfold exhausted. destruct (N.leb_spec (max_retries (policy c)) attempt); split;
      cbn [fst snd]; rewrite ?Ha, ?Hu; simpl; rewrite ?Ev; try done.
    + intros. rewrite !N.add_0_r. by apply Hc.
    + intros. rewrite N.add_0_r. by apply counters_back_off, Hc.
    + split_and!; [done..|]. rewrite Hb. eexists. split; [done|]. apply delay_bounds.
  - assert (unpaid_in (Responded r) = 0) as Hu by (unfold unpaid_in; simpl; by rewrite Ev).
    split; cbn [fst snd]; rewrite ?Ha, ?Hu; simpl; rewrite ?Ev; try done.
    intros. rewrite !N.add_0_r. by apply Hc.
Qed.

(** The answers to [k] requests from the [n]-th on. *)
Definition answers (path : string) (query : list (string * string)) (n k : nat) : list HttpAnswer :=
  nth_answer path query <$> seq n k.
Definition total_unpaid (l : list HttpAnswer) : N := foldr (fun a n => unpaid_in a + n) 0 l.

(** A call of [k] attempts before the last, from the [attempt]-th of the policy on. *)
Record called (kind : RequestKind) (label path : string) (query : list (string * string)) (attempt : N)
    (s s' : S3State) (r : Answer) (k : nat) : Prop := {
  ca_retried : Forall (fun a => retryable a = true) (answers path query (s3_sent s) k);
  ca_last : retryable (nth_answer path query (s3_sent s + k)) = true -> attempt + N.of_nat k = max_retries (policy c);
  ca_result : r = outcome label (attempt + N.of_nat k) (nth_answer path query (s3_sent s + k));
  ca_sent : s3_sent s' = (s3_sent s + S k)%nat;
  ca_waits : exists ds, s3_backoffs s' = (s3_backoffs s ++ ds)%list /\ length ds = k /\
    forall i d, ds !! i = Some d ->
      ceiling (policy c) (attempt + N.of_nat i) / 2 <= d <= max_delay (policy c);
  ca_counters q n b u : counters kind s q n b u ->
    counters kind s' (q + N.of_nat (S k)) (n + N.of_nat k) (b + received r)
      (u + total_unpaid (answers path query (s3_sent s) (S k)))
}.

Lemma get_from_called m kind label path query attempt s :
  max_retries (policy c) = attempt + N.of_nat m ->
  exists s' r k, get_from c (S m) kind label path query attempt s = Some (s', r) /\ (k <= m)%nat /\
    called kind label path query attempt s s' r k.
Proof.
  revert attempt s. induction m as [|m IH]; intros attempt s Hm.
  all: pose proof (attempt_spec kind label path query attempt s) as [Hs Hc Hw].
  all: cbn [get_from]; destruct (get_attempt c kind label path query attempt s) as [s1 [r|]]; simpl in *.
  1, 3: exists s1, r, 0%nat; destruct Hw as (Hr & -> & Hb); (split_and!; [done|lia|]); split;
    rewrite ?N.add_0_r, ?Nat.add_0_r; try done; [intros H%Hr; lia|lia|exists [];
      by rewrite app_nil_r|intros q n b u H%Hc; simpl; by rewrite !N.add_0_r in *].
  - destruct Hw as (_ & Hlt & _). lia.
  - destruct Hw as (Hr & Hlt & d & Hb & Hd).
    destruct (IH (attempt + 1) s1) as (s' & r & k & E & Hk & [H1 H2 H3 H4 (ds & H5 & H6 & H7) H8]); [lia|].
    exists s', r, (S k). split_and!; [done|lia|]. rewrite Hs in *.
    assert (forall j : nat, attempt + 1 + N.of_nat j = attempt + N.of_nat (S j)) as Hn by lia.
    rewrite Hn, Nat.add_succ_comm in *. split; try done.
    + constructor; [done|exact H1].
    + exists (d :: ds). rewrite H5, Hb, <- app_assoc. split_and!; [done|simpl; lia|].
      intros [|i] d'; simpl; [intros [= <-]; by rewrite N.add_0_r|]. intros H. rewrite <- Hn. by apply H7.
    + intros q n b u H%Hc%H8. destruct H as [A B C D].
      split; [rewrite A|rewrite B|rewrite C|rewrite D]; f_equal; simpl; lia.
Qed.

Lemma requests_ended kind label path query s : exists s' r k,
  get_with_retry c kind label path query s = Some (s', r) /\ called kind label path query 0 s s' r k.
Proof.
  destruct (get_from_called (N.to_nat (max_retries (policy c))) kind label path query 0 s)
    as (s' & r & k & E & _ & Hcall); [lia|]. by exists s', r, k.
Qed.

(** C16: A request ends within the attempts of its policy: it is sent again exactly after the
    answers that can be retried, at most [max_retries] times, and waits between half the
    ceiling of the attempt and the longest delay each time; the last answer decides what it
    returns, and the counters of requests, retries, bytes and responses without a charge
    grow by what happened. *)
Theorem requests_accounted kind label path query s :
  exists s' r k, get_with_retry c kind label path query s = Some (s', r) /\
    N.of_nat k <= max_retries (policy c) /\ called kind label path query 0 s s' r k.
Proof.
  destruct (get_from_called (N.to_nat (max_retries (policy c))) kind label path query 0 s)
    as (s' & r & k & E & Hk & Hcall); [lia|].
  exists s', r, k. split_and!; [exact E|lia|done].
Qed.

(** ** An object *)

(** What the tag and the length that came with a body say of it. *)
Definition intact (bytes : string) (m : RespMeta) : Prop :=
  (forall cl, content_length m = Some cl -> cl = byte_len bytes) /\
  (forall tag, etag m = Some tag -> byte_len tag = 32 -> str_all is_ascii_hexdigit tag = true ->
     to_lowercase tag = to_lowercase (md5_hex bytes)).

Lemma verify_integrity_spec key bytes m :
  match verify_integrity key bytes (etag m) (content_length m) with
  | Ok _ => intact bytes m
  | Err e => ~ intact bytes m /\ exists reason, e = Integrity key reason
  end.
Proof.
  unfold verify_integrity, intact, eq_ignore_ascii_case. destruct m as [tag len ch]. simpl.
  destruct len as [cl|]; simpl; [destruct (N.eqb_spec cl (byte_len bytes)) as [->|Hne]|].
  2: { split; [|by eexists]. intros [H _]. by specialize (H cl eq_refl). }
  all: destruct tag as [t|]; [|by split; [intros ? [= <-] || intros ? [=]|]].
  all: destruct (N.eqb_spec (byte_len t) 32) as [Hl|Hl]; simpl;
    [|split; [intros ? [= <-] || intros ? [=]; done|intros ? [= <-] ?; lia]].
  all: destruct (str_all is_ascii_hexdigit t) eqn:Eh; simpl;
    [|split; [intros ? [= <-] || intros ? [=]; done|intros ? [= <-] ? H; by rewrite H in Eh]].
  all: destruct (String.eqb_spec (to_lowercase (md5_hex bytes)) (to_lowercase t)) as [E|E]; simpl.
  all: first [split; [intros ? [= <-] || intros ? [=]; done|intros ? [= <-] _ _; done]
             |split; [|by eexists]; intros [_ H]; by specialize (H t eq_refl Hl Eh)].
Qed.

(** C22: An object that is returned is intact: it is the whole body of a successful answer to
    the last request made for it, as long as the store declared and with the digest of its
    tag, when that is one; a body that fails a check is an integrity error, counted. *)
Theorem objects_intact key s :
  exists s1 s' r k, called Get key ("/" ++ key) [] 0 s s1 r k /\
  match r with
  | Err e => get_object c key s = Some (s', Err e) /\ s' = s1
  | Ok (bytes, m) =>
    (exists a, nth_answer ("/" ++ key) [] (s3_sent s + k) = Responded a /\
       classify_status (rs_status a) = Success /\ rs_body a = Ok bytes /\ m = response_meta a) /\
    ((intact bytes m /\ s' = s1 /\
      get_object c key s = Some (s', Ok {| fo_bytes := bytes; fo_etag := etag m;
                                           fo_request_charged := request_charged m |})) \/
     (~ intact bytes m /\ s' = with_stats bump_integrity s1 /\
      exists reason, get_object c key s = Some (s', Err (Integrity key reason))))
  end.
Proof.
  destruct (requests_ended Get key ("/" ++ key) [] s) as (s1 & r & k & E & Hc). unfold get_object. rewrite E.
  destruct r as [[bytes m]|e].
  2: { by exists s1, s1, (Err e), k. }
  pose proof (verify_integrity_spec key bytes m) as Hv.
  exists s1, (if is_ok (verify_integrity key bytes (etag m) (content_length m)) then s1
              else with_stats bump_integrity s1), (Ok (bytes, m)), k.
  split; [exact Hc|]. split.
  - pose proof (ca_result _ _ _ _ _ _ _ _ _ Hc) as Hr. unfold outcome in Hr.
    destruct (nth_answer _ _ _) as [|a]; [done|]. exists a.
    destruct (classify_status (rs_status a)); [|done..]. destruct (rs_body a); [|done].
    by injection Hr as -> ->.
  - destruct (verify_integrity _ _ _ _); simpl; [by left|]. right. destruct Hv as [? [reason ->]]. eauto.
Qed.

(** ** A listing *)

(** The pages of a listing, each asked for with the token of the one before. *)
Inductive listed (prefix : string) : option string -> S3State -> S3State ->
    Result (list ObjectMeta) EntrepotError -> Prop :=
| listed_failed token s s' e :
    get_page c prefix (list_query prefix token) s = Some (s', Err e) ->
    listed prefix token s s' (Err e)
| listed_last token s s' p :
    get_page c prefix (list_query prefix token) s = Some (s', Ok p) ->
    next_page p = None -> listed prefix token s s' (Ok (objects p))
| listed_more token s s1 s2 p t r :
    get_page c prefix (list_query prefix token) s = Some (s1, Ok p) ->
    next_page p = Some t -> listed prefix (Some t) s1 s2 r ->
    listed prefix token s s2 (match r with Ok out => Ok (objects p ++ out)%list | Err e => Err e end).

Lemma list_from_listed fuel prefix token out s s' r :
  list_from c fuel prefix token out s = Some (s', r) ->
  exists r', listed prefix token s s' r' /\
    r = match r' with Ok l => Ok (out ++ l)%list | Err e => Err e end.
Proof.
  revert token out s. induction fuel as [|fuel IH]; intros token out s; simpl; [done|].
  destruct (get_page c prefix (list_query prefix token) s) as [[s1 [p|e]]|] eqn:E; [|intros [= -> <-]|done].
  - destruct (next_page p) as [t|] eqn:En.
    + intros (r' & Hl & ->)%IH. eexists. split; [by eapply listed_more|]. destruct r'; [|done].
      by rewrite <- app_assoc.
    + intros [= -> <-]. eexists. split; [by eapply listed_last|done].
  - eexists. split; [by eapply listed_failed|done].
Qed.

Lemma listed_list_from prefix token s s' r : listed prefix token s s' r ->
  exists fuel, forall out, list_from c fuel prefix token out s =
    Some (s', match r with Ok l => Ok (out ++ l)%list | Err e => Err e end).
Proof.
  induction 1 as [token s s' e H|token s s' p H Hn|token s s1 s2 p t r H Hn _ [fuel IH]].
  - exists 1%nat. intros out. simpl. by rewrite H.
  - exists 1%nat. intros out. simpl. by rewrite H, Hn.
  - exists (S fuel). intros out. simpl. rewrite H, Hn, IH. destruct r; [|done]. by rewrite <- app_assoc.
Qed.

(** A listing is its pages: it returns exactly when the tokens of its pages come to an end,
    and then the objects of all of them in order, or the error of the first page that is not
    had. *)
Theorem listing_is_its_pages prefix s s' r :
  (exists fuel, list_objects c fuel prefix s = Some (s', r)) <-> listed prefix None s s' r.
Proof.
  split.
  - intros [fuel H]. apply list_from_listed in H as ([out|e] & Hl & ->); exact Hl.
  - intros H. destruct (listed_list_from _ _ _ _ _ H) as [fuel Hf]. exists fuel. unfold list_objects.
    rewrite Hf. by destruct r.
Qed.
End Calls.

(** ** A page *)

(** An element with a text, and a page as the store writes it. *)
Definition element (name text : string) : list XmlEvent :=
  [XmlStart name; XmlText (Ok text); XmlEnd name].
Definition quoted_tag (tag : string) : string := String quote (tag ++ String quote "").

(** Any XML: elements with what is in them, texts, and events of other kinds. *)
Inductive XmlTree :=
| TreeText (text : string)
| TreeOther
| TreeElement (name : string) (children : list XmlTree).

Fixpoint tree_events (t : XmlTree) : list XmlEvent :=
  match t with
  | TreeText text => [XmlText (Ok text)]
  | TreeOther => [XmlOther]
  | TreeElement name children => (XmlStart name :: flat_map tree_events children ++ [XmlEnd name])%list
  end.

(** Elements whose text the page keeps, the innermost of the path first. *)
Definition kept_text (path : list string) : bool :=
  match path with
  | [] => false
  | name :: outer =>
    let inside (parent : string) := match outer with q :: _ => String.eqb q parent | [] => false end in
    existsb (String.eqb name) ["IsTruncated"; "NextContinuationToken"] ||
    inside "CommonPrefixes" && String.eqb name "Prefix" ||
    inside "Contents" && existsb (String.eqb name) ["Key"; "Size"; "ETag"; "LastModified"]
  end.

(** XML that says nothing of the page: it holds no object, and none of its texts stands where
    one is kept. *)
Fixpoint silent (path : list string) (t : XmlTree) : bool :=
  match t with
  | TreeText _ => negb (kept_text path)
  | TreeOther => true
  | TreeElement name children => negb (String.eqb name "Contents") && forallb (silent (name :: path)) children
  end.

(** An object and a page as a store may write them: their parts in any order, with other XML
    between them. *)
Inductive ObjectPart :=
| PartKey (key : string)
| PartSize (size : N)
| PartTag (tag : string)
| PartTime (time : string)
| PartOther (x : XmlTree).

Definition part_events (x : ObjectPart) : list XmlEvent :=
  match x with
  | PartKey key => element "Key" key
  | PartSize size => element "Size" (pretty size)
  | PartTag tag => element "ETag" (quoted_tag tag)
  | PartTime time => element "LastModified" time
  | PartOther x => tree_events x
  end.

Definition part_key (x : ObjectPart) : option string := match x with PartKey k => Some k | _ => None end.
Definition part_size (x : ObjectPart) : option N := match x with PartSize n => Some n | _ => None end.
Definition part_tag (x : ObjectPart) : option string := match x with PartTag t => Some t | _ => None end.
Definition part_time (x : ObjectPart) : option string := match x with PartTime t => Some t | _ => None end.

Definition object_path : list string := ["Contents"; "ListBucketResult"].
Definition part_ok (x : ObjectPart) : Prop :=
  match x with
  | PartSize n => is_u64 n
  | PartTag t => lacks quote t = true
  | PartOther x => silent object_path x = true
  | _ => True
  end.

(** The parts write the object: its key and size once, its tag and time once if it has them. *)
Definition writes_object (parts : list ObjectPart) (o : ObjectMeta) : Prop :=
  Forall part_ok parts /\ om_key o <> "" /\
  omap part_key parts = [om_key o] /\ omap part_size parts = [om_size o] /\
  omap part_tag parts = option_list (om_etag o) /\ omap part_time parts = option_list (om_last_modified o).

Inductive PagePart :=
| PageObject (parts : list ObjectPart)
| PagePrefix (before : list XmlTree) (prefix : string) (after : list XmlTree)
| PageTruncated (b : bool)
| PageToken (token : string)
| PageOther (x : XmlTree).

Definition page_part_events (x : PagePart) : list XmlEvent :=
  match x with
  | PageObject parts => XmlStart "Contents" :: flat_map part_events parts ++ [XmlEnd "Contents"]
  | PagePrefix before prefix after =>
    XmlStart "CommonPrefixes" :: flat_map tree_events before ++ element "Prefix" prefix ++
    flat_map tree_events after ++ [XmlEnd "CommonPrefixes"]
  | PageTruncated b => element "IsTruncated" (if b then "true" else "false")
  | PageToken token => element "NextContinuationToken" token
  | PageOther x => tree_events x
  end%list.

Definition page_events (parts : list PagePart) : list XmlEvent :=
  (XmlOther :: XmlStart "ListBucketResult" :: flat_map page_part_events parts ++
   [XmlEnd "ListBucketResult"])%list.

Definition page_object (x : PagePart) : option (list ObjectPart) :=
  match x with PageObject parts => Some parts | _ => None end.
Definition page_prefix (x : PagePart) : option string :=
  match x with PagePrefix _ p _ => Some p | _ => None end.
Definition page_truncated (x : PagePart) : option bool :=
  match x with PageTruncated b => Some b | _ => None end.
Definition page_token (x : PagePart) : option string :=
  match x with PageToken t => Some t | _ => None end.

Definition prefix_path : list string := ["CommonPrefixes"; "ListBucketResult"].
Definition page_part_ok (x : PagePart) : Prop :=
  match x with
  | PagePrefix before _ after => forallb (silent prefix_path) (before ++ after) = true
  | PageOther x => silent ["ListBucketResult"] x = true
  | _ => True
  end%list.

(** The parts write the page: its objects and prefixes in order, whether it goes on once, and its
    token once if it has one. *)
Definition writes_page (parts : list PagePart) (p : ListPage) : Prop :=
  Forall page_part_ok parts /\
  Forall2 writes_object (omap page_object parts) (objects p) /\
  omap page_prefix parts = common_prefixes p /\
  omap page_truncated parts = [is_truncated p] /\
  omap page_token parts = option_list (next_token p).

Lemma trim_end_char_lacks q t : lacks q t = true -> trim_end_char q t = t.
Proof.
  unfold lacks. induction t as [|d t IH]; simpl; [done|].
  intros [Hd%negb_true_iff Ht]%andb_true_iff. rewrite IH by done. destruct t; [by rewrite Hd|done].
Qed.

Lemma trim_end_char_snoc q t : trim_end_char q (t ++ String q "") = trim_end_char q t.
Proof.
  induction t as [|d t IH]; [simpl; by rewrite Ascii.eqb_refl|].
  change (String d t ++ ?x) with (String d (t ++ x)). simpl. by rewrite IH.
Qed.

Lemma trim_quoted_tag t : lacks quote t = true -> trim_matches quote (quoted_tag t) = t.
Proof.
  intros Ht. unfold trim_matches, quoted_tag. simpl.
  destruct t as [|d t]; [done|]. change (String d t ++ ?x) with (String d (t ++ x)).
  pose proof Ht as Hd. unfold lacks in Hd. simpl in Hd. apply andb_true_iff in Hd as [Hd%negb_true_iff _].
  cbn [trim_start_char]. rewrite Hd. change (String d (t ++ ?x)) with (String d t ++ x).
  by rewrite trim_end_char_snoc, trim_end_char_lacks.
Qed.

(** Silent XML leaves the reader as it is. *)
Lemma text_not_kept value s : kept_text (pg_path s) = false -> text_element value s = s.
Proof.
  unfold kept_text, text_element. destruct s as [p path ? ? ? ?]. cbn [pg_path pg].
  destruct path as [|name outer]; [done|]. cbn [existsb]. rewrite orb_false_r.
  intros [[[H1 H2]%orb_false_iff H3]%orb_false_iff H4]%orb_false_iff. rewrite H1, H2.
  destruct outer as [|q outer]; cbn [lookup list_lookup].
  { repeat (case_bool_decide; [discriminate|]). by rewrite !andb_false_r. }
  repeat case_bool_decide; simplify_eq; rewrite ?andb_false_r; try done.
  - simpl in H3. by rewrite H3.
  - simpl in H4. repeat (apply orb_false_iff in H4 as [-> H4]). done.
Qed.

Section TreeInd.
Context (P : XmlTree -> Prop) (Ht : forall t, P (TreeText t)) (Ho : P TreeOther)
  (He : forall name children, Forall P children -> P (TreeElement name children)).
Fixpoint XmlTree_nested (t : XmlTree) : P t :=
  match t with
  | TreeText t => Ht t
  | TreeOther => Ho
  | TreeElement name children => He name children
      ((fix go l : Forall P l :=
          match l with [] => Forall_nil_2 P | x :: l => Forall_cons_2 P x l (XmlTree_nested x) (go l) end) children)
  end.
End TreeInd.

Definition passes_over (evs : list XmlEvent) (s : PageState) : Prop :=
  forall rest, parse_events (evs ++ rest)%list s = parse_events rest s.

Lemma passes_over_map {A} (f : A -> list XmlEvent) l s :
  Forall (fun x => passes_over (f x) s) l -> passes_over (flat_map f l) s.
Proof.
  induction 1 as [|x l Hx _ IH]; intros rest; [done|]. simpl. by rewrite <- app_assoc, Hx, IH.
Qed.

Lemma silent_passes t s : silent (pg_path s) t = true -> passes_over (tree_events t) s.
Proof.
  revert s. induction t as [text| |name children IH] using XmlTree_nested; intros s Hs rest; cbn in Hs |- *.
  - by rewrite text_not_kept by by apply negb_true_iff.
  - done.
  - apply andb_true_iff in Hs as [Hn%negb_true_iff Hc]. rewrite <- app_assoc.
    set (s1 := open_element name s).
    assert (pg_path s1 = name :: pg_path s) as Hp by (subst s1; unfold open_element; by rewrite Hn).
    rewrite (passes_over_map tree_events children s1).
    + destruct s as [p path key size tag lm]. subst s1. unfold open_element. rewrite Hn. cbn.
      unfold close_element. rewrite Hn. done.
    + rewrite <- Hp in Hc. rewrite Forall_forall in IH |- *. intros x Hx. apply IH; [done|].
      rewrite forallb_forall in Hc. by apply Hc, list_elem_of_In.
Qed.

Lemma silent_all_pass l s : forallb (silent (pg_path s)) l = true -> passes_over (flat_map tree_events l) s.
Proof.
  intros H. apply passes_over_map, Forall_forall. intros x Hx. apply silent_passes.
  rewrite forallb_forall in H. by apply H, list_elem_of_In.
Qed.

(** The value the last part gives. *)
Definition latest {A B} (f : A -> option B) (init : B) (l : list A) : B :=
  fold_left (fun acc x => default acc (f x)) l init.

Lemma latest_last {A B} (f : A -> option B) init l : latest f init l = default init (list.last (omap f l)).
Proof.
  revert init. induction l as [|x l IH]; intros init; [done|]. unfold latest in *. cbn [fold_left].
  rewrite IH. change (omap f (x :: l)) with (match f x with Some y => y :: omap f l | None => omap f l end)%list.
  destruct (f x) as [y|]; [|done]. rewrite last_cons. by destruct (list.last (omap f l)).
Qed.

Lemma latest_some {A B} (f : A -> option B) l o :
  omap f l = option_list o -> latest (fun x => Some <$> f x) None l = o.
Proof.
  intros H. rewrite latest_last.
  assert (forall m, omap (fun x => Some <$> f x) m = Some <$> omap f m) as ->.
  { intros m. induction m as [|x m IH]; [done|]. cbn [omap list_omap] in *.
    destruct (f x); cbn [fmap option_fmap option_map list_fmap]; [|exact IH].
    by f_equal. }
  rewrite H. by destruct o.
Qed.

Lemma latest_once {A B} (f : A -> option B) l init v : omap f l = [v] -> latest f init l = v.
Proof. intros H. by rewrite latest_last, H. Qed.

(** The reader inside an object. *)
Definition in_object (p : ListPage) (key : string) (size : option N) (tag lm : option string) : PageState := {|
  pg := p; pg_path := object_path; pg_key := key; pg_size := size; pg_etag := tag;
  pg_last_modified := lm |}.

Lemma read_part x p key size tag lm rest : part_ok x ->
  parse_events (part_events x ++ rest)%list (in_object p key size tag lm) =
  parse_events rest (in_object p (default key (part_key x)) (default size (Some <$> part_size x))
    (default tag (Some <$> part_tag x)) (default lm (Some <$> part_time x))).
Proof.
  destruct x as [k|n|t|t|x]; intros Hx; [done| | |done|].
  - transitivity (parse_events rest (in_object p key (parse_u64 (pretty n)) tag lm)); [done|].
    by rewrite parse_u64_pretty.
  - transitivity (parse_events rest (in_object p key size (Some (trim_matches quote (quoted_tag t))) lm)); [done|].
    by rewrite trim_quoted_tag.
  - by apply silent_passes.
Qed.

Lemma read_parts parts p key size tag lm rest : Forall part_ok parts ->
  parse_events (flat_map part_events parts ++ rest)%list (in_object p key size tag lm) =
  parse_events rest (in_object p (latest part_key key parts) (latest (fun x => Some <$> part_size x) size parts)
    (latest (fun x => Some <$> part_tag x) tag parts) (latest (fun x => Some <$> part_time x) lm parts)).
Proof.
  intros H. revert key size tag lm. induction H as [|x parts Hx _ IH]; intros key size tag lm; [done|].
  simpl. rewrite <- app_assoc, read_part by done. apply IH.
Qed.

(** The reader between two elements of the result, and a piece of text that adds to the page. *)
Definition at_root (s : PageState) (p : ListPage) : Prop := pg s = p /\ pg_path s = ["ListBucketResult"].
Definition reads (evs : list XmlEvent) (p p' : ListPage) : Prop :=
  forall s, at_root s p ->
  exists s', at_root s' p' /\ forall rest, parse_events (evs ++ rest)%list s = parse_events rest s'.

Definition add_object (o : ObjectMeta) (p : ListPage) : ListPage := {|
  objects := objects p ++ [o]; common_prefixes := common_prefixes p;
  is_truncated := is_truncated p; next_token := next_token p |}%list.
Definition add_prefix (x : string) (p : ListPage) : ListPage := {|
  objects := objects p; common_prefixes := common_prefixes p ++ [x];
  is_truncated := is_truncated p; next_token := next_token p |}%list.

Lemma read_object_end p key size tag lm rest : key <> "" ->
  parse_events (XmlEnd "Contents" :: rest) (in_object p key (Some size) tag lm) =
  parse_events rest {|
    pg := add_object {| om_key := key; om_size := size; om_etag := tag; om_last_modified := lm |} p;
    pg_path := ["ListBucketResult"]; pg_key := key; pg_size := Some size; pg_etag := tag; pg_last_modified := lm |}.
Proof. by destruct key. Qed.

Ltac at_page :=
  intros [? ? ? ? ? ?] [E1 E2]; simpl in E1, E2; subst;
  eexists; split; [|intros rest; reflexivity]; done.

Lemma reads_truncated (b : bool) p : reads (element "IsTruncated" (if b then "true" else "false")) p
  {| objects := objects p; common_prefixes := common_prefixes p; is_truncated := b; next_token := next_token p |}.
Proof. destruct b; at_page. Qed.

Lemma reads_token t p : reads (element "NextContinuationToken" t) p
  {| objects := objects p; common_prefixes := common_prefixes p; is_truncated := is_truncated p; next_token := Some t |}.
Proof. at_page. Qed.

Lemma reads_silent x p : silent ["ListBucketResult"] x = true -> reads (tree_events x) p p.
Proof.
  intros Hx s Hs. exists s. split; [done|]. intros rest. apply silent_passes. destruct Hs as [_ ->]. done.
Qed.

Lemma reads_prefix before x after p : forallb (silent prefix_path) (before ++ after)%list = true ->
  reads (page_part_events (PagePrefix before x after)) p (add_prefix x p).
Proof.
  rewrite forallb_app. intros [Hb Ha]%andb_true_iff s [E1 E2].
  destruct s as [p0 path key size tag lm]. cbn [pg pg_path] in E1, E2. subst p0 path.
  eexists {| pg := add_prefix x p; pg_path := ["ListBucketResult"]; pg_key := key; pg_size := size;
             pg_etag := tag; pg_last_modified := lm |}.
  split; [done|]. intros rest. cbn [page_part_events]. rewrite <- app_comm_cons, <- !app_assoc.
  cbn [parse_events].
  set (s1 := open_element _ _). rewrite (silent_all_pass before s1) by done.
  set (s2 := {| pg := add_prefix x p; pg_path := prefix_path; pg_key := key; pg_size := size;
                pg_etag := tag; pg_last_modified := lm |}).
  transitivity (parse_events (flat_map tree_events after ++ [XmlEnd "CommonPrefixes"] ++ rest)%list s2); [done|].
  by rewrite (silent_all_pass after s2).
Qed.

Lemma reads_object parts o p : writes_object parts o ->
  reads (page_part_events (PageObject parts)) p (add_object o p).
Proof.
  destruct o as [key size tag lm]. intros (Hok & Hk & H1 & H2 & H3 & H4) s [E1 E2].
  cbn [om_key om_size om_etag om_last_modified] in *.
  exists {| pg := add_object {| om_key := key; om_size := size; om_etag := tag; om_last_modified := lm |} p;
            pg_path := ["ListBucketResult"]; pg_key := key; pg_size := Some size; pg_etag := tag;
            pg_last_modified := lm |}.
  split; [done|]. intros rest. cbn [page_part_events]. rewrite <- app_comm_cons, <- app_assoc. cbn [parse_events].
  replace (open_element "Contents" s) with (in_object p "" None None None)
    by (destruct s; simpl in E1, E2; by subst).
  rewrite read_parts by done. rewrite (latest_once part_key parts "" key) by done.
  rewrite (latest_some part_size parts (Some size)), (latest_some part_tag parts tag),
    (latest_some part_time parts lm) by done.
  by destruct key.
Qed.

(** What a part adds to the page, the objects given. *)
Lemma reads_parts parts os p :
  Forall page_part_ok parts -> Forall2 writes_object (omap page_object parts) os ->
  reads (flat_map page_part_events parts) p {|
    objects := objects p ++ os; common_prefixes := common_prefixes p ++ omap page_prefix parts;
    is_truncated := latest page_truncated (is_truncated p) parts;
    next_token := latest (fun x => Some <$> page_token x) (next_token p) parts |}%list.
Proof.
  intros H. revert os p. induction H as [|x parts Hx _ IH]; intros os p Hos.
  { simpl in Hos. inversion Hos; subst. intros s Hs. exists s. split; [|done]. destruct p; simpl. by rewrite !app_nil_r. }
  assert (forall q os', Forall2 writes_object (omap page_object parts) os' ->
    reads (page_part_events x) p q ->
    reads (flat_map page_part_events (x :: parts)) p {|
      objects := objects q ++ os'; common_prefixes := common_prefixes q ++ omap page_prefix parts;
      is_truncated := latest page_truncated (is_truncated q) parts;
      next_token := latest (fun x => Some <$> page_token x) (next_token q) parts |}%list) as Hseq.
  { intros q os' Hos' Hq s Hs. destruct (Hq s Hs) as (s1 & Hs1 & E1), (IH os' q Hos' s1 Hs1) as (s2 & Hs2 & E2).
    exists s2. split; [done|]. intros rest. simpl. by rewrite <- app_assoc, E1, E2. }
  destruct x as [ps|b x a|b|t|x]; simpl in Hos.
  - inversion Hos as [|? o ? os' Ho Hos']; subst. pose proof (Hseq _ _ Hos' (reads_object ps o p Ho)) as Hr.
    cbn [objects add_object] in Hr. rewrite <- app_assoc in Hr. exact Hr.
  - pose proof (Hseq _ _ Hos (reads_prefix b x a p Hx)) as Hr.
    cbn [common_prefixes add_prefix] in Hr. rewrite <- app_assoc in Hr. exact Hr.
  - exact (Hseq _ _ Hos (reads_truncated b p)).
  - exact (Hseq _ _ Hos (reads_token t p)).
  - exact (Hseq _ _ Hos (reads_silent x p Hx)).
Qed.

(** C28: A page of a listing is read as the store wrote it.  Whatever the order of its elements and
    whatever other XML stands among them, in the page, in an object or in a prefix (names,
    owners, storage classes, nested or not, as long as it holds no object and none of its texts
    stands where the page keeps one), the reader gives its objects in order, each with its key,
    size, tag without the quotes and time, its prefixes in order, and whether and with what
    token it goes on; keys are not empty, sizes are 64-bit numbers, tags hold no quote, and each
    text is one event of the reader. *)
Theorem list_page_roundtrip parts p :
  writes_page parts p -> parse_list_page (page_events parts) = Ok p.
Proof.
  intros (Hok & Hos & Hp & Ht & Hn). unfold parse_list_page, page_events. cbn [parse_events].
  set (s0 := open_element _ _).
  destruct (reads_parts parts (objects p) (pg PageState_new) Hok Hos s0) as (s1 & [H1 H2] & E); [done|].
  rewrite E. simpl. rewrite H1, Hp. cbn.
  rewrite (latest_once _ _ _ _ Ht). change (next_token _) with (@None string).
  rewrite (latest_some page_token parts _ Hn). by destruct p.
Qed.

(** A text that the reader gives in pieces, as it does around a reference such as an ampersand,
    is taken for its last piece. *)
Lemma last_piece_is_the_key p a b size tag lm rest :
  b <> "" -> is_u64 size ->
  parse_events (XmlStart "Contents" :: XmlStart "Key" :: XmlText (Ok a) :: XmlOther :: XmlText (Ok b) ::
    XmlEnd "Key" :: element "Size" (pretty size) ++ XmlEnd "Contents" :: rest)%list
    {| pg := p; pg_path := ["ListBucketResult"]; pg_key := ""; pg_size := None; pg_etag := tag; pg_last_modified := lm |} =
  parse_events rest {|
    pg := add_object {| om_key := b; om_size := size; om_etag := None; om_last_modified := None |} p;
    pg_path := ["ListBucketResult"]; pg_key := b; pg_size := Some size; pg_etag := None; pg_last_modified := None |}.
Proof.
  intros Hb Hs. rewrite <- read_object_end by done.
  transitivity (parse_events (element "Size" (pretty size) ++ XmlEnd "Contents" :: rest)%list
    (in_object p b None None None)); [done|].
  transitivity (parse_events (XmlEnd "Contents" :: rest) (in_object p b (parse_u64 (pretty size)) None None)); [done|].
  by rewrite parse_u64_pretty.
Qed.

(** ** A store that is busy once *)

#[local] Instance toy_sha : Sha256 := fun s => s.
#[local] Instance toy_hmac : Hmac := {| hmac_sha256 k d := k ++ d; hex_encode s := s |}.

Definition toy_response (status : N) (body : string) : HttpAnswer := Responded {|
  rs_status := status;
  rs_header name := if String.eqb name "content-length" then Some (pretty (byte_len body))
                    else if String.eqb name "x-amz-request-charged" then Some "requester" else None;
  rs_body := Ok body; rs_text := Some body |}.

#[local] Instance toy_world : S3World := {|
  http_send n _ := if (n =? 0)%nat then toy_response 503 "" else toy_response 200 "bytes";
  backoff_draw _ half := half;
  pace_draw _ _ := 0;
  now_at _ := {| when_amz := "20150830T123600Z"; when_day := "20150830" |};
  md5_hex s := s;
  xml_events _ := page_events [PageTruncated false]
|}.
#[local] Instance toy_world_laws : S3WorldLaws toy_world.
Proof. split; intros; simpl; lia. Qed.

Definition toy_client : S3Client := S3Client_new {|
  bucket := "b"; region := "r"; requester_pays := true;
  credentials := Some {| access_key := "a"; secret_key := "s" |}; endpoint := None |}.

(** The second attempt gets the object, after a second of waiting. *)
Example second_attempt :
  (fun x => (s3_sent x.1, s3_backoffs x.1, retries (s3_stats x.1), fo_bytes <$> result_ok x.2))
    <$> get_object toy_client "key" S3State_new = Some (2%nat, [millis 500], 1, Some "bytes").
Proof. by vm_compute. Qed.

Lemma requests_accounted_witness : exists s' r k,
  get_with_retry toy_client Get "key" "/key" [] S3State_new = Some (s', r) /\
  N.of_nat k <= 8 /\ called toy_client Get "key" "/key" [] 0 S3State_new s' r k.
Proof. exact (requests_accounted toy_client Get "key" "/key" [] S3State_new). Defined.

Lemma objects_intact_witness : exists s1 s' r k,
  called toy_client Get "key" ("/" ++ "key") [] 0 S3State_new s1 r k /\
  match r with
  | Err e => get_object toy_client "key" S3State_new = Some (s', Err e) /\ s' = s1
  | Ok (bytes, m) =>
    (exists a, nth_answer toy_client ("/" ++ "key") [] (s3_sent S3State_new + k) = Responded a /\
       classify_status (rs_status a) = Success /\ rs_body a = Ok bytes /\ m = response_meta a) /\
    ((intact bytes m /\ s' = s1 /\
      get_object toy_client "key" S3State_new = Some (s', Ok {| fo_bytes := bytes; fo_etag := etag m;
                                           fo_request_charged := request_charged m |})) \/
     (~ intact bytes m /\ s' = with_stats bump_integrity s1 /\
      exists reason, get_object toy_client "key" S3State_new = Some (s', Err (Integrity "key" reason))))
  end.
Proof. exact (objects_intact toy_client "key" S3State_new). Defined.

(** A page with the element of its storage class and its owner in an object, and elements of its
    own before and after its objects. *)
Definition toy_parts : list PagePart := [
  PageOther (TreeElement "Name" [TreeText "hyperliquid-archive"]);
  PagePrefix [TreeOther] "asset_ctxs/" [];
  PageObject [PartOther (TreeElement "Owner" [TreeElement "Key" [TreeText "not the key"]]);
    PartTag "9b2cf535f27731c974343645a3985328"; PartKey "market_data/20230916/9/l2Book/BTC.lz4";
    PartTime "2023-10-01T12:00:00.000Z"; PartSize 1048576;
    PartOther (TreeElement "StorageClass" [TreeText "STANDARD"])];
  PageToken "1ueGcxLPRx1Tr"; PageTruncated true;
  PageOther (TreeElement "KeyCount" [TreeText "1"])].

Lemma list_page_roundtrip_witness :
  let p := {| objects := [{| om_key := "market_data/20230916/9/l2Book/BTC.lz4"; om_size := 1048576;
                             om_etag := Some "9b2cf535f27731c974343645a3985328";
                             om_last_modified := Some "2023-10-01T12:00:00.000Z" |}];
              common_prefixes := ["asset_ctxs/"]; is_truncated := true; next_token := Some "1ueGcxLPRx1Tr" |} in
  parse_list_page (page_events toy_parts) = Ok p.
Proof.
  apply list_page_roundtrip. split_and!; try done; [by repeat constructor|].
  constructor; [|constructor]. split_and!; try done. repeat constructor; by vm_compute.
Defined.
