(* ===== verification/Entrepot.v ===== *)
(** * The archive reader

    [src/aetelier-connect/src/framework/entrepot.rs]: the adapter that replays the archive of
    Hyperliquid from an object store, key by key, and its cursor.

    A date is the number of its day, its text and the reading of a text are parameters, and the
    dates of a window lie within the bounds of the calendar.  A run meets an environment: the
    answers to its fetches by the position of the key, the shutdown watch, the receiver, and
    whether its cursor can be written.  Fetches made ahead are used in the order of the keys. *)
From stdpp Require Import list_numbers.
From Stdlib Require Import Ascii String.
From S2P Require Import Prelude BTree Budget Strings Numeric Pairs Types Delta Model Feed Runtime Reconcile Disconnect Reconnect Transport Drive Leaf Json Venue Hyperliquid Sign Codec ObjectStore.
Local Open Scope string_scope.
Local Open Scope N_scope.

(** ** The source of the objects *)

Record ArchiveObject := { ao_bytes : string; ao_etag : option string }.

(** [ArchiveSource for S3Client] *)
Definition s3_fetch `{Sha256, Hmac, S3World} (c : S3Client) (key : string) (s : S3State)
    : option (S3State * Result ArchiveObject EntrepotError) :=
  match get_object c key s with
  | Some (s, Ok f) => Some (s, Ok {| ao_bytes := fo_bytes f; ao_etag := fo_etag f |})
  | Some (s, Err e) => Some (s, Err e)
  | None => None
  end.

(** ** Dates and keys *)

Definition NaiveDate : Type := Z.
(** [date.format(..)] and [NaiveDate::parse_from_str] with the format of a compact day. *)
Class Days := {
  format_day : NaiveDate -> string;
  parse_day : string -> option NaiveDate
}.

Record EntrepotWindow := { w_start : NaiveDate; w_end : NaiveDate; coins : list string }.

(** The dates of a window, first to last. *)
Definition window_dates (w : EntrepotWindow) : list NaiveDate :=
  seqZ (w_start w) (w_end w - w_start w + 1)%Z.
Definition hours : list N := N.of_nat <$> seq 0 24.

Definition ARCHIVE_CONN_EPOCH_US : N := 0.
Definition ARCHIVE_LINE_VERSION : N := 1.
Definition EDGE_PROBE_CAP : nat := 45.
Definition ASSET_CTXS_HEADER : string :=
  "time,coin,funding,open_interest,prev_day_px,day_ntl_vlm,premium,oracle_px,mark_px,mid_px,impact_bid_px,impact_ask_px".

(** [s.parse::<u32>()] *)
Definition parse_u32 (s : string) : option N := n ← parse_u64 s; if n <? u32_modulus then Some n else None.

(** [s.get(..n)] of bytes *)
Definition get_to (n : nat) (s : string) : option string :=
  if (n <=? String.length s)%nat then
    match String.get n s with
    | Some c => if continuation c then None else Some (string_take n s)
    | None => Some (string_take n s)
    end
  else None.

(** [s.strip_prefix(p)] *)
Definition strip_prefix (p s : string) : option string :=
  if String.prefix p s then Some (String.substring (String.length p) (String.length s - String.length p) s)
  else None.

Definition hour_coin_leb (a b : N * string) : bool :=
  match N.compare a.1 b.1 with Lt => true | Gt => false | Eq => str_leb a.2 b.2 end.

(** [v.dedup()] *)
Fixpoint dedup (l : list string) : list string :=
  match l with
  | x :: (y :: _) as l' => if String.eqb x y then dedup l' else x :: dedup l'
  | _ => l
  end%list.

Section Keys.
Context {DY : Days}.

Definition l2book_key (d : NaiveDate) (hour : N) (coin : string) : string :=
  "market_data/" ++ format_day d ++ "/" ++ pretty hour ++ "/l2Book/" ++ coin ++ ".lz4".
Definition asset_ctxs_key (d : NaiveDate) : string := "asset_ctxs/" ++ format_day d ++ ".csv.lz4".
Definition day_prefix (d : NaiveDate) : string := "market_data/" ++ format_day d ++ "/".

Definition day_books (w : EntrepotWindow) (d : NaiveDate) : list string :=
  hour ← hours; l2book_key d hour <$> coins w.

Definition hyperliquid_l2book_keys (w : EntrepotWindow) : list string :=
  window_dates w ≫= day_books w.
Definition hyperliquid_asset_ctxs_keys (w : EntrepotWindow) : list string :=
  asset_ctxs_key <$> window_dates w.

Definition day_keys (w : EntrepotWindow) (want_ctx : bool) (d : NaiveDate) : list string :=
  ((if want_ctx then [asset_ctxs_key d] else []) ++ day_books w d)%list.
Definition planned_keys (w : EntrepotWindow) (want_ctx : bool) : list string :=
  window_dates w ≫= day_keys w want_ctx.

Definition parse_l2book_key (key : string) : option (N * string) :=
  match str_split "/" key with
  | [root; _; hour; kind; file] =>
    if String.eqb root "market_data" then
      h ← parse_u32 hour;
      if String.eqb kind "l2Book" then (fun coin => (h, coin)) <$> strip_suffix ".lz4" file else None
    else None
  | _ => None
  end.

Definition key_date (key : string) : option NaiveDate :=
  day ← match strip_prefix "asset_ctxs/" key with
        | Some rest => get_to 8 rest
        | None => str_split "/" key !! 1%nat
        end;
  parse_day day.

(** ** The plan *)

(** What the source answers to a listing. *)
Definition Listing : Type := string -> Result (list ObjectMeta) EntrepotError.

Definition discover_coins (ls : Listing) (d : NaiveDate) : Result (list string) EntrepotError :=
  match ls (day_prefix d) with
  | Err e => Err e
  | Ok listed => Ok (dedup (sort_by str_leb (snd <$> omap (fun m => parse_l2book_key (om_key m)) listed)))
  end.

Record WindowPlan := {
  keys : list string;
  etags : gmap string string;
  observed_edge : option NaiveDate
}.

(** The pinned tags of a listing. *)
Definition pin_etags (listed : list ObjectMeta) (tags : gmap string string) : gmap string string :=
  fold_left (fun tags m => match om_etag m with Some t => <[om_key m := t]> tags | None => tags end) listed tags.

Definition listed_books (d : NaiveDate) (listed : list ObjectMeta) : list string :=
  (fun hc => l2book_key d hc.1 hc.2) <$>
  sort_by hour_coin_leb (omap (fun m => parse_l2book_key (om_key m)) listed).

Fixpoint enumerate_days (ls : Listing) (want_ctx : bool) (days : list NaiveDate) (p : WindowPlan)
    : Result WindowPlan EntrepotError :=
  match days with
  | [] => Ok p
  | d :: days =>
    match ls (day_prefix d) with
    | Err e => Err e
    | Ok listed =>
      enumerate_days ls want_ctx days {|
        keys := keys p ++ (if want_ctx then [asset_ctxs_key d] else []) ++ listed_books d listed;
        etags := pin_etags listed (etags p);
        observed_edge := match listed with [] => observed_edge p | _ => Some d end |}
    end
  end%list.

Definition enumerate_window (ls : Listing) (w : EntrepotWindow) (want_ctx : bool)
    : Result WindowPlan EntrepotError :=
  match coins w with
  | [] => enumerate_days ls want_ctx (window_dates w) {| keys := []; etags := ∅; observed_edge := None |}
  | _ => Ok {| keys := planned_keys w want_ctx; etags := ∅; observed_edge := None |}
  end.

(** At most [probes] days back from [d]. *)
Fixpoint probe_from (probes : nat) (ls : Listing) (start d : NaiveDate) : option NaiveDate :=
  match probes with
  | O => None
  | S probes =>
    match ls (day_prefix d) with
    | Ok (_ :: _) => Some d
    | Ok [] => if (d <=? start)%Z then None else probe_from probes ls start (d - 1)%Z
    | Err _ => None
    end
  end.
Definition probe_edge (ls : Listing) (w : EntrepotWindow) : option NaiveDate :=
  probe_from EDGE_PROBE_CAP ls (w_start w) (w_end w).
End Keys.

(** ** The cursor *)

Fixpoint position (x : string) (l : list string) : option nat :=
  match l with
  | [] => None
  | y :: l => if String.eqb y x then Some 0%nat else S <$> position x l
  end.

(** [text] is what the file holds, when it can be read. *)
Definition resume_index (path : option string) (text : option string) (keys : list string) : nat :=
  match path, text with
  | Some _, Some raw =>
    let last := trim raw in
    if is_empty last then 0%nat
    else match position last keys with Some pos => S pos | None => 0%nat end
  | _, _ => 0%nat
  end.

(** ** Lines *)

Inductive LineReject := Undecodable (e : ExchangeError) | UnsupportedVersion (found : N).

Record ArchiveLine := { al_time : string; al_ver_num : N; al_raw : string }.

(** [NaiveDateTime::parse_from_str(..).and_utc().timestamp_micros()] of a line's time. *)
Class NaiveTimes := naive_micros : string -> option Z.

Section Decoders.
Context {NU : Numeric} {SJ : SerdeJson} {HW : HyperliquidWire} {AL : FromJson ArchiveLine} {NT : NaiveTimes}.

Record DecodedLine := { dl_events : list DomainEvent; dl_local_ts_us : option N }.

Definition LineDecoder : Type := string -> Result DecodedLine LineReject.

Definition HyperliquidEnvelopeLines : LineDecoder := fun line =>
  match replay_frame HYPERLIQUID line with
  | Err e => Err (Undecodable e)
  | Ok evs => Ok {| dl_events := evs; dl_local_ts_us := None |}
  end.

Definition HyperliquidArchiveLines : LineDecoder := fun line =>
  match json_err (from_text line) with
  | Err e => Err (Undecodable e)
  | Ok parsed =>
    if negb (al_ver_num parsed =? ARCHIVE_LINE_VERSION) then Err (UnsupportedVersion (al_ver_num parsed))
    else match replay_frame HYPERLIQUID (al_raw parsed) with
         | Err e => Err (Undecodable e)
         | Ok evs => Ok {| dl_events := evs; dl_local_ts_us := as_u64 <$> naive_micros (al_time parsed) |}
         end
  end.
End Decoders.

(** ** The run *)

(** What a run meets; positions are those of the planned keys, and the clock is read for the
    events after a number of sends. *)
Record RunEnv := {
  re_fetch : nat -> string -> Result ArchiveObject EntrepotError;
  re_stop : nat -> bool;
  re_receiver : option nat;
  re_cursor_ok : nat -> bool;
  re_now_us : N -> N
}.

Section Run.
Context {NU : Numeric} {SJ : SerdeJson} {HW : HyperliquidWire} {CH : Chrono} {DY : Days} {LZ : Lz4}.
Context (decoder : LineDecoder) (w : EntrepotWindow) (declared : DeclaredSet).

Record Replay := {
  rp_metrics : SourceMetrics;
  rp_recv_seq : N;
  rp_sent : list DomainEvent;
  rp_cursor : option string
}.

Definition with_metrics (f : SourceMetrics -> SourceMetrics) (s : Replay) : Replay := {|
  rp_metrics := f (rp_metrics s); rp_recv_seq := rp_recv_seq s; rp_sent := rp_sent s; rp_cursor := rp_cursor s |}.

Section Env.
Context (env : RunEnv) (plan : WindowPlan) (edge : option NaiveDate) (cursor_path : option string).

(** An event stamped and sent; [false] when the receiver is gone. *)
Definition emit (local : N) (ev : DomainEvent) (s : Replay) : Replay * bool :=
  let seq := u64_add (rp_recv_seq s) 1 in
  let gone := match re_receiver env with Some n => (n <=? length (rp_sent s))%nat | None => false end in
  ({| rp_metrics := bump_msgs (rp_metrics s); rp_recv_seq := seq;
      rp_sent := if gone then rp_sent s
                 else rp_sent s ++ [stamp_local local 0 seq ARCHIVE_CONN_EPOCH_US ev];
      rp_cursor := rp_cursor s |}, negb gone)%list.

Fixpoint emit_events (local : N) (evs : list DomainEvent) (s : Replay) : Replay * bool :=
  match evs with
  | [] => (s, true)
  | ev :: evs =>
    match emit local ev s with
    | (s, true) => emit_events local evs s
    | (s, false) => (s, false)
    end
  end.

(** The lines of an object of books. *)
Fixpoint replay_lines (lines : list string) (s : Replay) : Replay * bool :=
  match lines with
  | [] => (s, true)
  | line :: lines =>
    match decoder line with
    | Ok d =>
      let local := default (re_now_us env (rp_recv_seq s)) (dl_local_ts_us d) in
      match emit_events local (dl_events d) s with
      | (s, true) => replay_lines lines s
      | (s, false) => (s, false)
      end
    | Err (UnsupportedVersion _) => replay_lines lines (with_metrics bump_ver_rejected s)
    | Err (Undecodable _) => replay_lines lines (with_metrics bump_decode_err s)
    end
  end.

(** The events of a row of contexts, with the fields that cannot be read counted. *)
Definition ctx_funding (ts_us : N) (p : TradingPair) (funding premium : string) (m : SourceMetrics)
    : SourceMetrics * list DomainEvent :=
  if declared_contains DeclFundingRates declared then
    match parse_dec funding with
    | Some rate => (m, [FundingRateEvent {|
        funding_rate_ts_us := ts_us; local_funding_ts_us := 0; funding_recv_seq := 0;
        funding_conn_epoch_us := 0; funding_pair := p; funding_rate := rate;
        funding_premium := parse_dec premium; interval_hours := 1; next_funding_ts_us := 0;
        funding_exchange := "hyperliquid" |}])
    | None => (add_dropped_frames 1 m, [])
    end
  else (m, []).

Definition ctx_open_interest (ts_us : N) (p : TradingPair) (oi mark : string) (m : SourceMetrics)
    : SourceMetrics * list DomainEvent :=
  if declared_contains DeclOpenInterest declared then
    match parse_dec oi with
    | Some oi => (m, [OpenInterestEvent {|
        open_interest_ts_us := ts_us; local_oi_ts_us := 0; oi_recv_seq := 0; oi_conn_epoch_us := 0;
        oi_pair := p; open_interest := oi; open_interest_value := None; mark_px := parse_dec mark;
        oi_exchange := "hyperliquid" |}])
    | None => (add_dropped_frames 1 m, [])
    end
  else (m, []).

(** A row: the metrics with what it counts, the local time and the events. *)
Definition ctx_row (row : string) (m : SourceMetrics) : SourceMetrics * (N * list DomainEvent) :=
  match str_split "," row with
  | [time; coin; funding; oi; _; _; premium; _; mark; _; _; _] =>
    if bool_decide (coins w <> []) && negb (existsb (fun c => String.eqb c coin) (coins w)) then (m, (0, []))
    else match parse_from_rfc3339 time with
    | None => (bump_decode_err m, (0, []))
    | Some ts =>
      let ts_us := as_u64 ts in
      match decode HYPERLIQUID_CODEC coin with
      | None => (add_dropped_frames 1 m, (0, []))
      | Some p =>
        let '(m, fr) := ctx_funding ts_us p funding premium m in
        let '(m, oi) := ctx_open_interest ts_us p oi mark m in
        (m, (ts_us, fr ++ oi))
      end
    end
  | _ => (bump_decode_err m, (0, []))
  end%list.

Fixpoint emit_row_list (rows : list string) (s : Replay) : Replay * bool :=
  match rows with
  | [] => (s, true)
  | row :: rows =>
    let '(m, (ts_us, evs)) := ctx_row row (rp_metrics s) in
    match emit_events ts_us evs (with_metrics (fun _ => m) s) with
    | (s, true) => emit_row_list rows s
    | (s, false) => (s, false)
    end
  end.

Definition emit_ctx_rows (lines : list string) (s : Replay) : Replay * bool :=
  match lines with
  | [] => (s, true)
  | header :: rows =>
    if String.eqb (trim header) ASSET_CTXS_HEADER then emit_row_list rows s
    else (with_metrics bump_ver_rejected s, true)
  end.

Definition write_cursor (i : nat) (key : string) (s : Replay) : Replay := {|
  rp_metrics := rp_metrics s; rp_recv_seq := rp_recv_seq s; rp_sent := rp_sent s;
  rp_cursor := if bool_decide (cursor_path <> None) && re_cursor_ok env i then Some key else rp_cursor s |}.

Definition object_absent (e : EntrepotError) : bool :=
  match e with
  | Status status _ _ => status =? 404
  | Io _ e => match io_kind e with NotFound => true | _ => false end
  | _ => false
  end.

(** A key that is absent lies beyond the edge of the archive, or leaves a gap before it. *)
Definition beyond_edge (key : string) : bool :=
  match edge, key_date key with
  | Some edge, Some date => (edge <? date)%Z
  | None, _ => true
  | Some _, None => false
  end.

Definition guarded_decode (key bytes : string) : Result (list string) string :=
  match object_lines key bytes with
  | Ok (Ok lines) => Ok lines
  | Ok (Err e) => Err (EntrepotError_fmt e)
  | Err reason => Err ("decoder panicked for " ++ key ++ ": " ++ reason)
  end.

Definition republished (key : string) (o : ArchiveObject) : bool :=
  match etags plan !! key, ao_etag o with
  | Some pinned, Some got => negb (String.eqb pinned got)
  | _, _ => false
  end.

(** A fetched object: [false] when the receiver is gone. *)
Definition replay_object (i : nat) (key : string) (o : ArchiveObject) (s : Replay) : Replay * bool :=
  let s := if republished key o then with_metrics bump_republished s else s in
  match guarded_decode key (ao_bytes o) with
  | Err _ => (write_cursor i key (with_metrics bump_decode_err s), true)
  | Ok lines =>
    match (if String.prefix "asset_ctxs/" key then emit_ctx_rows lines s else replay_lines lines s) with
    | (s, true) => (write_cursor i key s, true)
    | (s, false) => (s, false)
    end
  end.

(** The keys from the [i]-th on. *)
Fixpoint replay_from (i : nat) (ks : list string) (s : Replay) : Replay * TaskExit :=
  match ks with
  | [] => (s, Drive.Exhausted)
  | key :: ks =>
    if re_stop env i then (s, Completed)
    else match re_fetch env i key with
    | Ok o =>
      match replay_object i key o s with
      | (s, true) => replay_from (S i) ks s
      | (s, false) => (s, Completed)
      end
    | Err e =>
      if object_absent e then
        replay_from (S i) ks (write_cursor i key
          (with_metrics (if beyond_edge key then bump_gaps_beyond_edge else bump_gaps) s))
      else match e with
      | Integrity _ _ => replay_from (S i) ks (write_cursor i key (with_metrics bump_integrity_fail s))
      | _ => (s, TaskFailed (Disconnect.TransportError (EntrepotError_fmt e)))
      end
    end
  end.
End Env.

(** ** The task *)

Definition want_ctx : bool :=
  declared_contains DeclFundingRates declared || declared_contains DeclOpenInterest declared.

(** [spawn]: [text] is what the file of the cursor holds. *)
Definition spawn_replay (ls : Listing) (env : RunEnv) (cursor_path text : option string) (m : SourceMetrics)
    : Replay * TaskExit :=
  let s := {| rp_metrics := m; rp_recv_seq := 0; rp_sent := []; rp_cursor := text |} in
  match enumerate_window ls w want_ctx with
  | Err e => (s, TaskFailed (Disconnect.TransportError (EntrepotError_fmt e)))
  | Ok plan =>
    let edge := match observed_edge plan, coins w with
                | Some d, _ => Some d
                | None, [] => None
                | None, _ => probe_edge ls w
                end in
    let start := resume_index cursor_path text (keys plan) in
    replay_from env plan edge cursor_path start (drop start (keys plan)) s
  end.
End Run.

(** ** The adapter *)

Definition ENTREPOT_HYPERLIQUID_PROFILE : ExchangeProfile := {|
  profile_id := "hyperliquid"; symbol_codec := BareCoin "USDC";
  profile_budget := open_budget;
  schema_version := 1; protocol_revision := "hyperliquid-entrepot-v0"
|}.

Record EntrepotOptions := { eo_fetch_concurrency : nat; eo_cursor : option string }.

Record HyperliquidEntrepotAdapter := {
  he_window : EntrepotWindow; he_fetch_concurrency : nat; he_cursor : option string
}.

Definition HyperliquidEntrepotAdapter_new (w : EntrepotWindow) : HyperliquidEntrepotAdapter := {|
  he_window := w; he_fetch_concurrency := 1; he_cursor := None |}.
Definition with_concurrency (n : nat) (a : HyperliquidEntrepotAdapter) : HyperliquidEntrepotAdapter := {|
  he_window := he_window a; he_fetch_concurrency := Nat.max n 1; he_cursor := he_cursor a |}.
Definition with_cursor (p : option string) (a : HyperliquidEntrepotAdapter) : HyperliquidEntrepotAdapter := {|
  he_window := he_window a; he_fetch_concurrency := he_fetch_concurrency a; he_cursor := p |}.

Definition build_entrepot_adapter (venue : string) (w : EntrepotWindow) (opts : EntrepotOptions)
    : option HyperliquidEntrepotAdapter :=
  if String.eqb venue "hyperliquid" then
    Some (with_cursor (eo_cursor opts)
      (with_concurrency (Nat.max (eo_fetch_concurrency opts) 1) (HyperliquidEntrepotAdapter_new w)))
  else None.

Definition entrepot_datatypes : list DeclaredDatatype :=
  [DeclOrderbook; DeclTrades; DeclFundingRates; DeclOpenInterest].
Definition entrepot_book_model (_ : string) : ReconstructionModel := FullRefresh.
Definition entrepot_max_declared_depth : option N := Some 20.
