(* ===== verification/EntrepotProps.v ===== *)
(** * What the archive reader promises

    Every key of a run of [Entrepot] is accounted for, its events are sent in order, a run that
    is taken up again goes on where the last one ended, and the edge that absent objects are
    held against is the last day the archive has. *)
From stdpp Require Import list_numbers.
From Stdlib Require Import Ascii String.
From S2P Require Import Prelude BTree Budget Strings Numeric Pairs Types Delta Model Feed Runtime Reconcile Disconnect Reconnect Transport Drive Leaf Json Venue Hyperliquid Sign Codec ObjectStore Entrepot.
Local Open Scope string_scope.
Local Open Scope N_scope.

(** ** Tallies *)

(** What is added to each counter, modulo 2^64. *)
Definition Tally : Type := Counter -> N.
Definition none : Tally := fun _ => 0.
Definition count (c : Counter) (n : N) : Tally := fun c' => if decide (c' = c) then n else 0.
Definition plus (t u : Tally) : Tally := fun c => t c + u c.
Definition tally_all {A} (f : A -> Tally) (l : list A) : Tally := foldr (fun x t => plus (f x) t) none l.

Definition tallied (m m' : SourceMetrics) (t : Tally) : Prop :=
  forall c n, m c = n mod u64_modulus -> m' c = (n + t c) mod u64_modulus.

Lemma tallied_none m : tallied m m none.
Proof. intros c n ->. unfold none. by rewrite N.add_0_r. Qed.

Lemma tallied_ext m m' t u : (forall c, t c = u c) -> tallied m m' t -> tallied m m' u.
Proof. intros E H c n Hn. rewrite <- E. by apply H. Qed.

Lemma tallied_trans m m1 m2 t u : tallied m m1 t -> tallied m1 m2 u -> tallied m m2 (plus t u).
Proof. intros H1 H2 c n Hn. unfold plus. rewrite N.add_assoc. by apply H2, H1. Qed.

Lemma tallied_add m c k : tallied m (fetch_add c k m) (count c k).
Proof.
  intros c' n Hn. unfold fetch_add, count. destruct (decide (c' = c)) as [->|]; [by apply u64_add_wrapped|].
  by rewrite N.add_0_r.
Qed.

(** ** Stamps *)

(** The sequence number after [k] events. *)
Definition seq_after (seq : N) (k : nat) : N := Nat.iter k (fun n => u64_add n 1) seq.

Lemma seq_after_succ seq k : seq_after (u64_add seq 1) k = seq_after seq (S k).
Proof. unfold seq_after. by rewrite Nat.iter_succ_r. Qed.

Lemma seq_after_add seq a b : seq_after seq (a + b) = seq_after (seq_after seq a) b.
Proof. unfold seq_after. by rewrite Nat.add_comm, Nat.iter_add. Qed.

Section Events.
Context {NU : Numeric}.

(** Events as they are sent: with a local time, the next number and the unset epoch. *)
Inductive stamped_as : N -> list DomainEvent -> list DomainEvent -> Prop :=
| stamped_nil seq : stamped_as seq [] []
| stamped_cons seq local ev evs out :
    stamped_as (u64_add seq 1) evs out ->
    stamped_as seq (ev :: evs) (stamp_local local 0 (u64_add seq 1) ARCHIVE_CONN_EPOCH_US ev :: out).

Lemma stamped_app seq a oa b ob : stamped_as seq a oa -> stamped_as (seq_after seq (length a)) b ob ->
  stamped_as seq (a ++ b)%list (oa ++ ob)%list.
Proof.
  intros Ha. revert b ob. induction Ha as [seq|seq local ev evs out _ IH]; intros b ob Hb; [done|].
  simpl. constructor. apply IH. by rewrite seq_after_succ.
Qed.
End Events.

(** ** A run *)

Section Run.
Context {NU : Numeric} {SJ : SerdeJson} {HW : HyperliquidWire} {CH : Chrono} {DY : Days} {LZ : Lz4}.
Context (decoder : LineDecoder) (w : EntrepotWindow) (declared : DeclaredSet).
Context (env : RunEnv) (plan : WindowPlan) (edge : option NaiveDate) (cursor_path : option string).

Abbreviation ctx_row := (ctx_row w declared).

(** What the lines, the rows and the objects hold, and what they are counted as.  These read the
    text of a row by itself, not by the reader's own steps. *)
Definition line_events (line : string) : list DomainEvent :=
  match decoder line with Ok d => dl_events d | Err _ => [] end.
Definition line_tally (line : string) : Tally :=
  match decoder line with
  | Ok d => count C_msgs (N.of_nat (length (dl_events d)))
  | Err (UnsupportedVersion _) => count C_ver_rejected 1
  | Err (Undecodable _) => count C_decode_err 1
  end.

(** A row of contexts, by its columns: time, coin, funding, open interest, .., premium, ..,
    mark price. *)
Definition column (k : nat) (row : string) : string := nth k (str_split "," row) "".
Definition well_columned (row : string) : bool := (length (str_split "," row) =? 12)%nat.
Definition of_window (coin : string) : bool :=
  bool_decide (coins w = []) || existsb (fun c => String.eqb c coin) (coins w).

Definition funding_reading (ts : Z) (p : TradingPair) (premium : string) (rate : Dec) : DomainEvent :=
  FundingRateEvent {|
    funding_rate_ts_us := as_u64 ts; local_funding_ts_us := 0; funding_recv_seq := 0;
    funding_conn_epoch_us := 0; funding_pair := p; funding_rate := rate;
    funding_premium := parse_dec premium; interval_hours := 1; next_funding_ts_us := 0;
    funding_exchange := "hyperliquid" |}.
Definition open_interest_reading (ts : Z) (p : TradingPair) (mark : string) (oi : Dec) : DomainEvent :=
  OpenInterestEvent {|
    open_interest_ts_us := as_u64 ts; local_oi_ts_us := 0; oi_recv_seq := 0; oi_conn_epoch_us := 0;
    oi_pair := p; open_interest := oi; open_interest_value := None; mark_px := parse_dec mark;
    oi_exchange := "hyperliquid" |}.

(** A declared number gives its event when it can be read. *)
Definition number_events (dt : DeclaredDatatype) (text : string) (f : Dec -> DomainEvent) : list DomainEvent :=
  if declared_contains dt declared then match parse_dec text with Some x => [f x] | None => [] end else [].

(** The time and pair of a row that is read: it has its columns, its coin is of the window and
    names a pair, and its time is one. *)
Definition row_head (row : string) : option (Z * TradingPair) :=
  if well_columned row && of_window (column 1 row) then
    match parse_from_rfc3339 (column 0 row), decode HYPERLIQUID_CODEC (column 1 row) with
    | Some ts, Some p => Some (ts, p)
    | _, _ => None
    end
  else None.

Definition row_events (row : string) : list DomainEvent :=
  match row_head row with
  | Some (ts, p) =>
    number_events DeclFundingRates (column 2 row) (funding_reading ts p (column 6 row)) ++
    number_events DeclOpenInterest (column 3 row) (open_interest_reading ts p (column 8 row))
  | None => []
  end%list.

(** A declared number that cannot be read. *)
Definition number_tally (dt : DeclaredDatatype) (text : string) : Tally :=
  if declared_contains dt declared && bool_decide (parse_dec text = None) then count C_dropped_frames 1 else none.

(** What a row counts: nothing when its coin is outside the window. *)
Definition row_tally (row : string) : Tally :=
  if negb (well_columned row) then count C_decode_err 1
  else if negb (of_window (column 1 row)) then none
  else if bool_decide (parse_from_rfc3339 (column 0 row) = None) then count C_decode_err 1
  else if bool_decide (decode HYPERLIQUID_CODEC (column 1 row) = None) then count C_dropped_frames 1
  else plus (number_tally DeclFundingRates (column 2 row)) (number_tally DeclOpenInterest (column 3 row)).
Definition row_tally_msgs (row : string) : Tally :=
  plus (row_tally row) (count C_msgs (N.of_nat (length (row_events row)))).

Definition is_ctx (key : string) : bool := String.prefix "asset_ctxs/" key.
Definition lines_events (ctx : bool) (lines : list string) : list DomainEvent :=
  if ctx then
    match lines with
    | [] => []
    | header :: rows => if String.eqb (trim header) ASSET_CTXS_HEADER then rows ≫= row_events else []
    end
  else lines ≫= line_events.
Definition lines_tally (ctx : bool) (lines : list string) : Tally :=
  if ctx then
    match lines with
    | [] => none
    | header :: rows =>
      if String.eqb (trim header) ASSET_CTXS_HEADER then tally_all row_tally_msgs rows else count C_ver_rejected 1
    end
  else tally_all line_tally lines.

Definition key_events (i : nat) (key : string) : list DomainEvent :=
  match re_fetch env i key with
  | Ok o => match guarded_decode key (ao_bytes o) with Ok lines => lines_events (is_ctx key) lines | Err _ => [] end
  | Err _ => []
  end.

(** The heading a key is counted under. *)
Definition key_tally (i : nat) (key : string) : Tally :=
  match re_fetch env i key with
  | Ok o =>
    plus (if republished plan key o then count C_republished 1 else none)
      match guarded_decode key (ao_bytes o) with
      | Ok lines => lines_tally (is_ctx key) lines
      | Err _ => count C_decode_err 1
      end
  | Err e =>
    if object_absent e then count (if beyond_edge edge key then C_gaps_beyond_edge else C_gaps) 1
    else match e with Integrity _ _ => count C_integrity_fail 1 | _ => none end
  end.

(** A fetch that does not end the run. *)
Definition settled (i : nat) (key : string) : bool :=
  match re_fetch env i key with
  | Ok _ => true
  | Err e => object_absent e || match e with Integrity _ _ => true | _ => false end
  end.

Fixpoint run_events (i : nat) (ks : list string) : list DomainEvent :=
  match ks with [] => [] | key :: ks => key_events i key ++ run_events (S i) ks end%list.
Fixpoint run_tally (i : nat) (ks : list string) : Tally :=
  match ks with [] => none | key :: ks => plus (key_tally i key) (run_tally (S i) ks) end.

Definition gone (s : Replay) : Prop :=
  match re_receiver env with Some n => (n <= length (rp_sent s))%nat | None => False end.

(** From [s] to [s'] the events [evs] were sent, or some of them until the receiver was gone. *)
Record emitted (evs : list DomainEvent) (t : Tally) (s s' : Replay) (ok : bool) : Prop := {
  em_sent : exists k out, rp_sent s' = (rp_sent s ++ out)%list /\
    stamped_as (rp_recv_seq s) (take k evs) out /\
    (ok = true -> (length evs <= k)%nat /\ rp_recv_seq s' = seq_after (rp_recv_seq s) (length evs));
  em_gone : ok = false -> gone s';
  em_tally : exists u, tallied (rp_metrics s) (rp_metrics s') u /\ (ok = true -> forall c, u c = t c);
  em_cursor : rp_cursor s' = rp_cursor s
}.

Lemma emitted_nil s : emitted [] none s s true.
Proof.
  split; [|done| |done].
  - exists 0%nat, []. rewrite app_nil_r. split_and!; [done|constructor|by intros _].
  - exists none. split; [apply tallied_none|done].
Qed.

Lemma emitted_seq a b t u s s1 s2 ok :
  emitted a t s s1 true -> emitted b u s1 s2 ok -> emitted (a ++ b)%list (plus t u) s s2 ok.
Proof.
  intros [(k1 & o1 & E1 & S1 & K1) _ (u1 & T1 & U1) C1] [(k2 & o2 & E2 & S2 & K2) G2 (u2 & T2 & U2) C2].
  destruct (K1 eq_refl) as [Hk1 Hs1]. rewrite take_ge in S1 by done. split; [|done| |by rewrite C2].
  - exists (length a + k2)%nat, (o1 ++ o2)%list. rewrite E2, E1, app_assoc, take_app_add. split_and!; [done| |].
    + apply stamped_app; [done|]. by rewrite <- Hs1.
    + intros H. destruct (K2 H) as [Hk Hs]. rewrite length_app, seq_after_add, <- Hs1. split; [lia|done].
  - exists (plus u1 u2). split; [by eapply tallied_trans|]. intros H c. unfold plus. by rewrite U1, U2.
Qed.

Lemma emitted_stop a b t u s s1 : emitted a t s s1 false -> emitted (a ++ b)%list u s s1 false.
Proof.
  intros [(k & o & E & S & _) G (v & T & _) C]. split; [|done|by exists v|done].
  exists (Nat.min k (length a)), o. split_and!; [done| |done].
  rewrite take_app_le by lia. destruct (decide (k <= length a)%nat).
  - by rewrite Nat.min_l by lia.
  - rewrite Nat.min_r by lia. by rewrite take_ge in * by lia.
Qed.

Lemma emitted_metrics f t s :
  tallied (rp_metrics s) (f (rp_metrics s)) t -> emitted [] t s (with_metrics f s) true.
Proof.
  intros H. split; [|done| |done].
  - exists 0%nat, []. rewrite app_nil_r. split_and!; [done|constructor|by intros _].
  - by exists t.
Qed.

Lemma emitted_ext a b t u s s' ok : a = b -> (forall c, t c = u c) -> emitted a t s s' ok -> emitted b u s s' ok.
Proof.
  intros <- E [H G (v & T & U) C]. split; [done..| |done]. exists v. split; [done|]. intros Hk c. by rewrite U, E.
Qed.

Lemma emit_emitted local ev s :
  emitted [ev] (count C_msgs 1) s (emit env local ev s).1 (emit env local ev s).2.
Proof.
  unfold emit. split; cbn [fst snd rp_sent rp_recv_seq rp_metrics rp_cursor]; [| | |done].
  - destruct (match re_receiver env with Some _ => _ | None => _ end).
    + exists 0%nat, []. rewrite app_nil_r. split_and!; [done|constructor|done].
    + eexists 1%nat, [_]. split_and!; [done|repeat constructor|done].
  - unfold gone. cbn [rp_sent]. destruct (re_receiver env) as [n|]; [|done].
    destruct (Nat.leb_spec n (length (rp_sent s))); [done|done].
  - exists (count C_msgs 1). split; [apply tallied_add|done].
Qed.

Lemma emit_all_emitted local evs s :
  emitted evs (count C_msgs (N.of_nat (length evs))) s (emit_events env local evs s).1 (emit_events env local evs s).2.
Proof.
  revert s. induction evs as [|ev evs IH]; intros s; cbn [emit_events].
  { eapply emitted_ext; [done| |apply emitted_nil]. intros c. unfold none, count. by case_decide. }
  pose proof (emit_emitted local ev s) as He. destruct (emit env local ev s) as [s1 [|]]; cbn [fst snd] in *.
  - eapply emitted_ext; [done| |exact (emitted_seq [ev] evs _ _ _ _ _ _ He (IH s1))].
    intros c. unfold plus, count. case_decide; cbn [length]; lia.
  - exact (emitted_stop [ev] evs _ _ _ _ He).
Qed.

Lemma replay_lines_emitted lines s :
  emitted (lines ≫= line_events) (tally_all line_tally lines) s
    (replay_lines decoder env lines s).1 (replay_lines decoder env lines s).2.
Proof.
  revert s. induction lines as [|line lines IH]; intros s; cbn [replay_lines]; [apply emitted_nil|].
  change (tally_all line_tally (line :: lines)) with (plus (line_tally line) (tally_all line_tally lines)).
  change ((line :: lines) ≫= line_events) with (line_events line ++ (lines ≫= line_events))%list.
  unfold line_events at 1, line_tally at 1. destruct (decoder line) as [d|[e|v]].
  - pose proof (emit_all_emitted (default (re_now_us env (rp_recv_seq s)) (dl_local_ts_us d)) (dl_events d) s) as He.
    destruct (emit_events _ _ _ _) as [s1 [|]]; cbn [fst snd] in *; [by eapply emitted_seq|by eapply emitted_stop].
  - eapply emitted_seq; [|apply IH]. apply emitted_metrics, tallied_add.
  - eapply emitted_seq; [|apply IH]. apply emitted_metrics, tallied_add.
Qed.

Lemma bool_decide_nil {A} (l : list A) : bool_decide (l <> []) = negb (bool_decide (l = [])).
Proof. by destruct l. Qed.

Lemma declared_number dt text m (f : Dec -> DomainEvent) :
  let r := if declared_contains dt declared then
             match parse_dec text with Some x => (m, [f x]) | None => (add_dropped_frames 1 m, []) end
           else (m, []) in
  r.2 = number_events dt text f /\ tallied m r.1 (number_tally dt text).
Proof.
  unfold number_tally, number_events. destruct (declared_contains dt declared); [|by split; [|apply tallied_none]].
  destruct (parse_dec text); (split; [done|]); [apply tallied_none|apply tallied_add].
Qed.

(** A row is counted and read as its columns say, on any metrics. *)
Lemma ctx_row_spec row m :
  (ctx_row row m).2.2 = row_events row /\ tallied m (ctx_row row m).1 (row_tally row).
Proof.
  unfold Entrepot.ctx_row, row_events, row_head, row_tally, well_columned, column.
  destruct (str_split "," row) as [|? [|coin [|fr [|oi [|? [|? [|premium [|? [|mark [|? [|? [|? [|]]]]]]]]]]]]];
    try (split; [done|apply tallied_add]).
  cbn [length nth Nat.eqb negb andb]. unfold of_window. rewrite bool_decide_nil, <- negb_orb.
  destruct (_ || _); cbn [negb]; [|by split; [|apply tallied_none]].
  destruct (parse_from_rfc3339 _) as [ts|]; [|split; [done|apply tallied_add]].
  destruct (decode HYPERLIQUID_CODEC coin) as [p|]; [|split; [done|apply tallied_add]].
  rewrite !bool_decide_false by done. unfold ctx_funding, ctx_open_interest.
  destruct (declared_number DeclFundingRates fr m (funding_reading ts p premium)) as [E1 T1].
  destruct (if declared_contains DeclFundingRates declared then _ else _) as [m1 l1]. cbn [fst snd] in E1, T1.
  destruct (declared_number DeclOpenInterest oi m1 (open_interest_reading ts p mark)) as [E2 T2].
  destruct (if declared_contains DeclOpenInterest declared then _ else _) as [m2 l2]. cbn [fst snd] in E2, T2 |- *.
  rewrite E1, E2. split; [done|by eapply tallied_trans].
Qed.

Lemma emit_rows_emitted rows s :
  emitted (rows ≫= row_events) (tally_all row_tally_msgs rows) s
    (emit_row_list w declared env rows s).1 (emit_row_list w declared env rows s).2.
Proof.
  revert s. induction rows as [|row rows IH]; intros s; cbn [emit_row_list]; [apply emitted_nil|].
  change (tally_all row_tally_msgs (row :: rows)) with (plus (row_tally_msgs row) (tally_all row_tally_msgs rows)).
  change ((row :: rows) ≫= row_events) with (row_events row ++ (rows ≫= row_events))%list.
  destruct (ctx_row_spec row (rp_metrics s)) as [E T]. unfold row_tally_msgs at 1. rewrite <- E.
  destruct (ctx_row row (rp_metrics s)) as [m [ts evs]]. cbn [fst snd] in *.
  pose proof (emit_all_emitted ts evs (with_metrics (fun _ => m) s)) as He.
  assert (emitted [] (row_tally row) s (with_metrics (fun _ => m) s) true) as Hm
    by by apply emitted_metrics.
  pose proof (emitted_seq _ _ _ _ _ _ _ _ Hm He) as H. simpl in H.
  destruct (emit_events _ _ _ _) as [s1 [|]]; cbn [fst snd] in *; [by eapply emitted_seq|by eapply emitted_stop].
Qed.

Lemma lines_emitted key lines s :
  let r := if String.prefix "asset_ctxs/" key then emit_ctx_rows w declared env lines s
           else replay_lines decoder env lines s in
  emitted (lines_events (is_ctx key) lines) (lines_tally (is_ctx key) lines) s r.1 r.2.
Proof.
  unfold lines_events, lines_tally, is_ctx. destruct (String.prefix "asset_ctxs/" key); [|apply replay_lines_emitted].
  unfold emit_ctx_rows. destruct lines as [|header rows]; [apply emitted_nil|].
  destruct (String.eqb (trim header) ASSET_CTXS_HEADER); [apply emit_rows_emitted|].
  apply emitted_metrics, tallied_add.
Qed.

(** ** One key *)

(** The cursor after a key. *)
Definition cursor_after (i : nat) (key : string) (cur : option string) : option string :=
  if bool_decide (cursor_path <> None) && re_cursor_ok env i then Some key else cur.

(** A key handled to its end: its events sent, its counts made, its place noted. *)
Definition handled (i : nat) (key : string) (s s' : Replay) : Prop :=
  exists s1, emitted (key_events i key) (key_tally i key) s s1 true /\
    s' = write_cursor env cursor_path i key s1.

Lemma replay_object_handled i key o s : re_fetch env i key = Ok o ->
  match replay_object decoder w declared env plan cursor_path i key o s with
  | (s', true) => handled i key s s'
  | (s', false) => exists u, emitted (key_events i key) u s s' false
  end.
Proof.
  intros Hf. unfold replay_object. set (s1 := if republished plan key o then _ else _).
  assert (emitted [] (if republished plan key o then count C_republished 1 else none) s s1 true) as H1.
  { subst s1. destruct (republished plan key o); [apply emitted_metrics, tallied_add|apply emitted_nil]. }
  destruct (guarded_decode key (ao_bytes o)) as [lines|reason] eqn:Ed.
  - pose proof (emitted_seq _ _ _ _ _ _ _ _ H1 (lines_emitted key lines s1)) as H. simpl in H.
    destruct (if String.prefix "asset_ctxs/" key then _ else _) as [s2 [|]]; cbn [fst snd] in *.
    + exists s2. split; [|done]. unfold key_events, key_tally. by rewrite Hf, Ed.
    + eexists. unfold key_events. rewrite Hf, Ed. exact H.
  - eexists. split; [|done]. unfold key_events, key_tally. rewrite Hf, Ed.
    eapply (emitted_seq [] []); [exact H1|]. apply emitted_metrics, tallied_add.
Qed.

(** ** The whole run *)

(** How a run ends before its [n]-th key: with a part of that key's events, if the receiver is
    gone, and what those counted. *)
Inductive run_end (i : nat) (ks : list string) (s' : Replay) : nat -> list DomainEvent -> Tally -> TaskExit -> Prop :=
| end_exhausted : run_end i ks s' (length ks) [] none Drive.Exhausted
| end_stopped n key : ks !! n = Some key -> re_stop env (i + n) = true -> run_end i ks s' n [] none Completed
| end_failed n key e : ks !! n = Some key -> re_fetch env (i + n) key = Err e -> settled (i + n) key = false ->
    run_end i ks s' n [] none (TaskFailed (Disconnect.TransportError (EntrepotError_fmt e)))
| end_gone n key part u : ks !! n = Some key -> part `prefix_of` key_events (i + n) key -> gone s' ->
    run_end i ks s' n part u Completed.

Fixpoint cursor_run (i : nat) (ks : list string) (cur : option string) : option string :=
  match ks with [] => cur | key :: ks => cursor_run (S i) ks (cursor_after i key cur) end.

(** A run from [s] to [s'] that handles [n] keys. *)
Record ran (i : nat) (ks : list string) (s s' : Replay) (e : TaskExit) (n : nat) : Prop := {
  ran_settled j key : (j < n)%nat -> ks !! j = Some key -> re_stop env (i + j) = false /\ settled (i + j) key = true;
  ran_sent : exists part out u, run_end i ks s' n part u e /\ rp_sent s' = (rp_sent s ++ out)%list /\
    stamped_as (rp_recv_seq s) (run_events i (take n ks) ++ part)%list out /\
    tallied (rp_metrics s) (rp_metrics s') (plus (run_tally i (take n ks)) u);
  ran_cursor : rp_cursor s' = cursor_run i (take n ks) (rp_cursor s)
}.

Lemma run_end_cons i key ks s' n part u e :
  run_end (S i) ks s' n part u e -> run_end i (key :: ks) s' (S n) part u e.
Proof.
  intros [|n' k|n' k err|n' k part' u']; rewrite ?Nat.add_succ_comm in *.
  - constructor.
  - by eapply end_stopped.
  - by eapply end_failed.
  - by eapply end_gone.
Qed.

Lemma ran_cons i key ks s s1 s' e n :
  re_stop env i = false -> settled i key = true -> handled i key s s1 -> ran (S i) ks s1 s' e n ->
  ran i (key :: ks) s s' e (S n).
Proof.
  intros Hstop Hset (s0 & [(k & out0 & E0 & S0 & K0) _ (u0 & T0 & U0) C0] & ->)
    [Hsettled (part & out & u & Hend & E & St & T) C].
  destruct (K0 eq_refl) as [Hk Hseq]. rewrite take_ge in S0 by done. simpl in *. split.
  - intros [|j] key' Hj; simpl; rewrite ?Nat.add_0_r; [by intros [= <-]|].
    rewrite <- Nat.add_succ_comm. apply Hsettled. lia.
  - exists part, (out0 ++ out)%list, u. split_and!; [by apply run_end_cons| | |].
    + by rewrite E, E0, app_assoc.
    + simpl. rewrite <- app_assoc. apply stamped_app; [done|]. by rewrite <- Hseq.
    + eapply tallied_ext; [|eapply tallied_trans; [exact T0|exact T]].
      intros c. unfold plus. simpl. unfold plus. rewrite U0 by done. lia.
  - rewrite C. simpl. unfold cursor_after. by rewrite C0.
Qed.

Lemma ran_end_here i ks s s' e part out u :
  run_end i ks s' 0 part u e -> rp_sent s' = (rp_sent s ++ out)%list -> stamped_as (rp_recv_seq s) part out ->
  tallied (rp_metrics s) (rp_metrics s') u -> rp_cursor s' = rp_cursor s -> ran i ks s s' e 0.
Proof.
  intros He Hs Hp Ht Hc. split; [lia| |done]. exists part, out, u. split_and!; try done.
Qed.

Lemma replay_from_ran i ks s : exists n,
  ran i ks s (replay_from decoder w declared env plan edge cursor_path i ks s).1
    (replay_from decoder w declared env plan edge cursor_path i ks s).2 n.
Proof.
  revert i s. induction ks as [|key ks IH]; intros i s; cbn [replay_from].
  { exists 0%nat. eapply (ran_end_here _ _ _ _ _ [] []); [apply end_exhausted|by rewrite app_nil_r|constructor|apply tallied_none|done]. }
  destruct (re_stop env i) eqn:Estop.
  { exists 0%nat. eapply (ran_end_here _ _ _ _ _ [] []); [|by rewrite app_nil_r|constructor|apply tallied_none|done].
    eapply end_stopped; [done|by rewrite Nat.add_0_r]. }
  assert (forall s1, settled i key = true -> handled i key s s1 -> exists n,
    ran i (key :: ks) s (replay_from decoder w declared env plan edge cursor_path (S i) ks s1).1
      (replay_from decoder w declared env plan edge cursor_path (S i) ks s1).2 n) as Hnext.
  { intros s1 Hset Hh. destruct (IH (S i) s1) as [n Hn]. exists (S n). by eapply ran_cons. }
  destruct (re_fetch env i key) as [o|err] eqn:Ef.
  - pose proof (replay_object_handled i key o s Ef) as Ho.
    destruct (replay_object _ _ _ _ _ _ _ _ _ _) as [s1 [|]]; [apply Hnext; [|done]; unfold settled; by rewrite Ef|].
    destruct Ho as (v & [(k & out & E & St & _) G (u & T & _) C]). exists 0%nat. simpl.
    eapply ran_end_here; [|exact E|exact St|exact T|done].
    eapply end_gone; [done| |by apply G]. rewrite Nat.add_0_r. apply prefix_take.
  - destruct (object_absent err) eqn:Ea.
    + apply Hnext; [by unfold settled; rewrite Ef, Ea|]. eexists. split; [|done].
      unfold key_events, key_tally. rewrite Ef, Ea.
      destruct (beyond_edge edge key); apply emitted_metrics, tallied_add.
    + destruct (settled i key) eqn:Es; unfold settled in Es; rewrite Ef, Ea in Es; simpl in Es.
      * destruct err; try done. apply Hnext; [done|]. eexists. split; [|done].
        unfold key_events, key_tally. rewrite Ef. apply emitted_metrics, tallied_add.
      * exists 0%nat.
        assert (run_end i (key :: ks) s 0 [] none (TaskFailed (Disconnect.TransportError (EntrepotError_fmt err)))) as Hend.
        { eapply end_failed; [done|by rewrite Nat.add_0_r|]. rewrite Nat.add_0_r. unfold settled. by rewrite Ef, Ea. }
        destruct err; try done; simpl;
          (eapply (ran_end_here _ _ _ _ _ [] []); [exact Hend|by rewrite app_nil_r|constructor|apply tallied_none|done]).
Qed.
End Run.

(** ** Keys *)

(** A day as the calendar prints and reads it. *)
Definition day_ok `{Days} (d : NaiveDate) : Prop :=
  parse_day (format_day d) = Some d /\ String.length (format_day d) = 8%nat /\ lacks "/" (format_day d) = true.

Lemma string_take_app a b : string_take (String.length a) (a ++ b) = a.
Proof.
  induction a as [|c a IH]; [by destruct b|]. change (String c a ++ b) with (String c (a ++ b)). simpl. by rewrite IH.
Qed.

Lemma string_get_app a c b : String.get (String.length a) (a ++ String c b) = Some c.
Proof. induction a as [|d a IH]; [done|]. change (String d a ++ ?x) with (String d (a ++ x)). exact IH. Qed.

Lemma strip_prefix_app p s : strip_prefix p (p ++ s) = Some s.
Proof.
  unfold strip_prefix. assert (String.prefix p (p ++ s) = true) as ->.
  { induction p as [|c p IH]; [by destruct s|]. change (String c p ++ s) with (String c (p ++ s)). cbn.
    destruct (Ascii.ascii_dec c c); [exact IH|done]. }
  f_equal. rewrite string_length_app, Nat.add_comm, Nat.add_sub.
  induction p as [|c p IH]; [|exact IH].
  change ("" ++ s) with s. change (String.length "") with 0%nat.
  induction s as [|c s IH]; [done|]. simpl. by rewrite IH.
Qed.

Lemma trim_ends a s b : is_whitespace a = false -> is_whitespace b = false ->
  trim (String a (s ++ String b "")) = String a (s ++ String b "").
Proof.
  intros Ha Hb. unfold trim. simpl. rewrite Ha.
  assert (forall t, trim_end (t ++ String b "") = t ++ String b "") as Ht.
  { induction t as [|c t IH]; [simpl; by rewrite Hb|].
    change (String c t ++ ?x) with (String c (t ++ x)). simpl. rewrite IH.
    destruct t; reflexivity. }
  exact (Ht (String a s)).
Qed.

Lemma digits_go x s : str_all (in_range 48 57) s = true -> str_all (in_range 48 57) (pretty_N_go x s) = true.
Proof.
  revert s. induction (N.lt_wf_0 x) as [x _ IH]. intros s Hs. destruct (decide (0 < x)%N) as [Hx|Hx].
  - rewrite pretty_N_go_step by done. apply IH; [by apply N.div_lt|]. cbn [str_all]. rewrite Hs, andb_true_r.
    assert (x mod 10 < 10)%N as Hm by (apply N.mod_lt; done). unfold in_range.
    rewrite pretty_N_char_code by done. generalize dependent (x mod 10)%N. intros n Hn.
    by rewrite andb_true_iff, !N.leb_le; lia.
  - replace x with 0%N by lia. by rewrite pretty_N_go_0.
Qed.

Lemma digits_lack_slash (n : N) : lacks "/" (pretty n) = true.
Proof.
  unfold lacks. apply (str_all_impl (in_range 48 57)).
  - intros c Hc. destruct (Ascii.eqb_spec c "/") as [->|]; [by vm_compute in Hc|done].
  - unfold pretty, pretty_N. case_decide; [done|]. by apply digits_go.
Qed.

Section Keys.
Context {DY : Days}.

Lemma l2book_key_parts d hour coin :
  l2book_key d hour coin = "market_data" ++ String "/" (format_day d ++ String "/" (pretty hour ++ String "/" ("l2Book/" ++ coin ++ ".lz4"))).
Proof. done. Qed.

Lemma key_date_book d hour coin : day_ok d -> key_date (l2book_key d hour coin) = Some d.
Proof.
  intros (Hp & _ & Hl). unfold key_date. rewrite l2book_key_parts.
  assert (forall s, strip_prefix "asset_ctxs/" ("market_data" ++ s) = None) as -> by done.
  rewrite !str_split_app by done. exact Hp.
Qed.

Lemma key_date_ctx d : day_ok d -> key_date (asset_ctxs_key d) = Some d.
Proof.
  intros (Hp & Hn & _). unfold key_date, asset_ctxs_key.
  rewrite strip_prefix_app.
  unfold get_to. rewrite string_length_app, <- Hn.
  destruct (Nat.leb_spec (String.length (format_day d)) (String.length (format_day d) + String.length ".csv.lz4")); [|lia].
  rewrite string_get_app, string_take_app. exact Hp.
Qed.

Lemma key_date_day w want d key : day_ok d -> key ∈ day_keys w want d -> key_date key = Some d.
Proof.
  intros Hd. unfold day_keys, day_books. rewrite elem_of_app. intros [H|H].
  - destruct want; [|by apply elem_of_nil in H]. apply list_elem_of_singleton in H as ->. by apply key_date_ctx.
  - apply list_elem_of_bind in H as (hour & H & _). apply list_elem_of_fmap in H as (coin & -> & _). by apply key_date_book.
Qed.

Lemma book_key_inj d h h' coin coin' : is_u64 h -> is_u64 h' -> lacks "/" (format_day d) = true ->
  l2book_key d h coin = l2book_key d h' coin' -> h = h' /\ coin = coin'.
Proof.
  intros Hh Hh' Hd. rewrite !l2book_key_parts. intros H.
  apply (f_equal (split_once "/")) in H. rewrite !split_once_app in H by done. injection H as H.
  apply (f_equal (split_once "/")) in H. rewrite !split_once_app in H by done. injection H as H.
  apply (f_equal (split_once "/")) in H. rewrite !split_once_app in H by apply digits_lack_slash.
  injection H as H1 H2. split.
  - apply (f_equal parse_u64) in H1. rewrite !parse_u64_pretty in H1 by done. by injection H1.
  - rewrite !string_app_nil_l in H2. apply (f_equal (strip_suffix ".lz4")) in H2.
    rewrite !strip_suffix_app in H2. by injection H2.
Qed.

Lemma hours_u64 h : h ∈ hours -> is_u64 h.
Proof. unfold hours. rewrite list_elem_of_fmap. intros (n & -> & H%elem_of_seq). unfold is_u64, u64_modulus. lia. Qed.

Lemma ctx_key_not_book w d key : key ∈ day_books w d -> key <> asset_ctxs_key d.
Proof.
  unfold day_books. intros (hour & H & _)%list_elem_of_bind. apply list_elem_of_fmap in H as (coin & -> & _). done.
Qed.

Lemma day_keys_NoDup w want d : NoDup (coins w) -> day_ok d -> NoDup (day_keys w want d).
Proof.
  intros Hc Hd. unfold day_keys. apply NoDup_app. split_and!.
  - destruct want; repeat constructor. apply not_elem_of_nil.
  - intros key Hk Hb. destruct want; [|by apply elem_of_nil in Hk].
    apply list_elem_of_singleton in Hk. by apply ctx_key_not_book in Hb.
  - unfold day_books. destruct Hd as (_ & _ & Hl). apply NoDup_bind.
    + intros h h' key Hh Hh' H H'. apply list_elem_of_fmap in H as (c1 & -> & _), H' as (c2 & E & _).
      apply book_key_inj in E as [-> _]; by auto using hours_u64.
    + intros h Hh. apply NoDup_fmap_2_strong; [|done]. intros c1 c2 _ _ E.
      apply book_key_inj in E as [_ ->]; by auto using hours_u64.
    + unfold hours. apply NoDup_fmap; [apply _|apply NoDup_seq].
Qed.

Lemma planned_keys_NoDup w want : NoDup (coins w) -> Forall day_ok (window_dates w) -> NoDup (planned_keys w want).
Proof.
  intros Hc Hd. rewrite Forall_forall in Hd. apply NoDup_bind.
  - intros d d' key H1 H2 H H'. apply Hd in H1, H2.
    pose proof (key_date_day w want d key H1 H) as E. rewrite (key_date_day w want d' key H2 H') in E.
    by injection E.
  - intros d H. apply day_keys_NoDup; auto.
  - apply NoDup_seqZ.
Qed.

(** Keys stand in the cursor as they are. *)
Definition trimmed (key : string) : Prop := trim key = key /\ key <> "".

Lemma planned_keys_trimmed w want : Forall trimmed (planned_keys w want).
Proof.
  apply Forall_forall. intros key (d & H & _)%list_elem_of_bind. unfold day_keys in H.
  apply elem_of_app in H as [H|H].
  - destruct want; [|by apply elem_of_nil in H]. apply list_elem_of_singleton in H as ->. split; [|done].
    unfold asset_ctxs_key. pose proof (trim_ends "a" ("sset_ctxs/" ++ format_day d ++ ".csv.lz") "4" eq_refl eq_refl) as T.
    rewrite !string_app_assoc in T. exact T.
  - unfold day_books in H. apply list_elem_of_bind in H as (hour & H & _). apply list_elem_of_fmap in H as (coin & -> & _).
    split; [|done]. unfold l2book_key.
    pose proof (trim_ends "m" ("arket_data/" ++ format_day d ++ "/" ++ pretty hour ++ "/l2Book/" ++ coin ++ ".lz") "4" eq_refl eq_refl) as T.
    rewrite !string_app_assoc in T. exact T.
Qed.

(** A listed key is read as the hour and the coin it was written for. *)
Lemma parse_book_key d hour coin :
  hour < u32_modulus -> lacks "/" (format_day d) = true -> lacks "/" coin = true ->
  parse_l2book_key (l2book_key d hour coin) = Some (hour, coin).
Proof.
  intros Hh Hd Hc. unfold parse_l2book_key. rewrite l2book_key_parts.
  rewrite !str_split_app by (done || apply digits_lack_slash).
  change ("l2Book/" ++ ?s) with ("l2Book" ++ String "/" s).
  rewrite str_split_app, str_split_lacks by (done || by rewrite lacks_app, Hc). cbn [String.eqb].
  change (String.eqb "market_data" "market_data") with true. change (String.eqb "l2Book" "l2Book") with true.
  cbv iota. unfold parse_u32. rewrite parse_u64_pretty by (unfold is_u64, u64_modulus, u32_modulus in *; lia).
  simpl. destruct (N.ltb_spec hour u32_modulus); [|lia]. simpl. by rewrite strip_suffix_app.
Qed.
End Keys.

(** ** The cursor *)

Lemma position_lookup x l i : NoDup l -> l !! i = Some x -> position x l = Some i.
Proof.
  revert i. induction l as [|y l IH]; intros i Hl Hi; [done|]. apply NoDup_cons in Hl as [Hy Hl]. simpl.
  destruct i as [|i]; [injection Hi as ->; by rewrite String.eqb_refl|].
  destruct (String.eqb_spec y x) as [->|]; [by destruct Hy; apply (list_elem_of_lookup_2 l i)|]. by rewrite (IH i).
Qed.

Lemma resume_at p l i key : NoDup l -> Forall trimmed l -> l !! i = Some key ->
  resume_index (Some p) (Some key) l = S i.
Proof.
  intros Hl Ht Hi. rewrite Forall_forall in Ht. destruct (Ht key) as [E Hne]; [by eapply list_elem_of_lookup_2|].
  unfold resume_index. rewrite E. destruct key; [done|]. simpl is_empty. cbv iota.
  by rewrite (position_lookup _ _ i).
Qed.

Lemma position_lt x l i : position x l = Some i -> (i < length l)%nat.
Proof.
  revert i. induction l as [|y l IH]; intros i; simpl; [done|]. destruct (String.eqb y x); [intros [= <-]; lia|].
  destruct (position x l) as [j|]; [|done]. intros [= <-]. specialize (IH j eq_refl). lia.
Qed.

Lemma resume_le path text l : (resume_index path text l <= length l)%nat.
Proof.
  unfold resume_index. destruct path, text as [raw|]; try lia. destruct (is_empty _); [lia|].
  destruct (position _ _) as [i|] eqn:E; [|lia]. by apply position_lt in E.
Qed.

Section Cursor.
Context (env : RunEnv) (p : string).
Hypothesis writes : forall i, re_cursor_ok env i = true.

Lemma cursor_run_last i ks cur :
  cursor_run env (Some p) i ks cur = match list.last ks with Some key => Some key | None => cur end.
Proof.
  revert i cur. induction ks as [|key ks IH]; intros i cur; [done|]. simpl. rewrite IH. unfold cursor_after.
  rewrite writes. simpl. destruct ks as [|k ks]; [done|].
  change (list.last (key :: k :: ks)) with (list.last (k :: ks)).
  destruct (list.last (k :: ks)) eqn:E; [done|]. by apply last_None in E.
Qed.

(** The keys handled are the ones a next run is past. *)
Lemma resume_after l start text n i : NoDup l -> Forall trimmed l ->
  start = resume_index (Some p) text l -> (n <= length (drop start l))%nat ->
  resume_index (Some p) (cursor_run env (Some p) i (take n (drop start l)) text) l = (start + n)%nat.
Proof.
  intros Hl Ht Hs Hn. rewrite cursor_run_last. destruct n as [|n]; [rewrite Nat.add_0_r; exact (eq_sym Hs)|].
  rewrite length_drop in Hn.
  destruct (lookup_lt_is_Some_2 l (start + n)) as [key Hk]; [lia|].
  assert (list.last (take (S n) (drop start l)) = Some key) as ->.
  { rewrite last_lookup, length_take, length_drop, Nat.min_l by lia. simpl.
    rewrite lookup_take_lt by lia. by rewrite lookup_drop. }
  rewrite (resume_at _ _ (start + n) key) by done. lia.
Qed.
End Cursor.

Section Task.
Context {NU : Numeric} {SJ : SerdeJson} {HW : HyperliquidWire} {CH : Chrono} {DY : Days} {LZ : Lz4}.
Context (decoder : LineDecoder) (w : EntrepotWindow) (declared : DeclaredSet).

(** The run of a plan, and what a task makes of it. *)
Definition plan_edge (ls : Listing) (plan : WindowPlan) : option NaiveDate :=
  match observed_edge plan, coins w with
  | Some d, _ => Some d
  | None, [] => None
  | None, _ => probe_edge ls w
  end.

Lemma run_end_le env i ks s' n part u e :
  run_end decoder w declared env i ks s' n part u e -> (n <= length ks)%nat.
Proof. intros [|n' k H|n' k err H|n' k part' u' H]; [done|..]; apply lookup_lt_Some in H; lia. Qed.

(** The state a run starts from. *)
Definition replay_start (m : SourceMetrics) (text : option string) : Replay := {|
  rp_metrics := m; rp_recv_seq := 0; rp_sent := []; rp_cursor := text |}.

Lemma spawn_plan ls env cursor_path text m plan :
  enumerate_window ls w (want_ctx declared) = Ok plan ->
  spawn_replay decoder w declared ls env cursor_path text m =
  replay_from decoder w declared env plan (plan_edge ls plan) cursor_path
    (resume_index cursor_path text (keys plan)) (drop (resume_index cursor_path text (keys plan)) (keys plan))
    (replay_start m text).
Proof. intros E. unfold spawn_replay. by rewrite E. Qed.


(** C17: A replay that is taken up again goes on exactly where the last one ended: with a window
    that names its coins and a cursor that can be written, the keys a run handles are the
    ones from its cursor to the cursor it leaves, so that no key is passed over and none
    handled to its end is handled again, and a run that exhausts its keys leaves none. *)
Theorem resumption_exact ls env p text m :
  coins w <> [] -> NoDup (coins w) -> Forall day_ok (window_dates w) ->
  (forall i, re_cursor_ok env i = true) ->
  let ks := planned_keys w (want_ctx declared) in
  let start := resume_index (Some p) text ks in
  let r := spawn_replay decoder w declared ls env (Some p) text m in
  exists n plan, keys plan = ks /\
    ran decoder w declared env plan (plan_edge ls plan) (Some p) start (drop start ks)
      (replay_start m text) r.1 r.2 n /\
    resume_index (Some p) (rp_cursor r.1) ks = (start + n)%nat /\
    (r.2 = Drive.Exhausted -> (start + n)%nat = length ks).
Proof.
  intros Hne Hc Hd Hw ks start r.
  assert (enumerate_window ls w (want_ctx declared) = Ok {| keys := ks; etags := ∅; observed_edge := None |}) as E.
  { unfold enumerate_window. by destruct (coins w). }
  set (plan := {| keys := ks; etags := ∅; observed_edge := None |}) in *.
  subst r. rewrite (spawn_plan _ _ _ _ _ plan) by done. change (keys plan) with ks. fold start.
  destruct (replay_from_ran decoder w declared env plan (plan_edge ls plan) (Some p) start (drop start ks) (replay_start m text))
    as [n Hr].
  exists n, plan. destruct (ran_sent _ _ _ _ _ _ _ _ _ _ _ _ _ Hr) as (part & out & u & He & _).
  split_and!; [done|exact Hr|..].
  - rewrite (ran_cursor _ _ _ _ _ _ _ _ _ _ _ _ _ Hr). apply run_end_le in He. apply resume_after; try done.
    + by apply planned_keys_NoDup.
    + apply planned_keys_trimmed.
  - intros Hx. rewrite Hx in He. inversion He; subst.
    pose proof (resume_le (Some p) text ks). rewrite length_drop. subst start. lia.
Qed.
End Task.

(** ** The edge *)

Section Edge.
Context {DY : Days}.

Lemma probe_from_spec probes ls start d :
  (start <= d)%Z -> (d - start < Z.of_nat probes)%Z ->
  (forall x, (start <= x <= d)%Z -> is_ok (ls (day_prefix x)) = true) ->
  match probe_from probes ls start d with
  | Some x => (start <= x <= d)%Z /\ (exists m ms, ls (day_prefix x) = Ok (m :: ms)) /\
      forall y, (x < y <= d)%Z -> ls (day_prefix y) = Ok []
  | None => forall y, (start <= y <= d)%Z -> ls (day_prefix y) = Ok []
  end.
Proof.
  revert d. induction probes as [|probes IH]; intros d H1 H2 Hok; [lia|]. cbn [probe_from].
  pose proof (Hok d) as Hd. destruct (ls (day_prefix d)) as [[|m ms]|e] eqn:E; simpl in Hd; [|split_and!; [lia..|eauto|lia]|].
  2: { exfalso. assert (false = true) by (apply Hd; lia). done. }
  destruct (Z.leb_spec d start) as [H|H].
  - intros y Hy. replace y with d by lia. done.
  - assert (forall y, y = d \/ (y <= d - 1)%Z \/ (d < y)%Z) as Hcases by lia.
    specialize (IH (d - 1)%Z ltac:(lia) ltac:(lia)).
    assert (forall x, (start <= x <= d - 1)%Z -> is_ok (ls (day_prefix x)) = true) as Hok' by (intros; apply Hok; lia).
    specialize (IH Hok'). destruct (probe_from probes ls start (d - 1)%Z) as [x|].
    + destruct IH as (Hx & Hm & Hy). split_and!; [lia..|done|]. intros y Hyd.
      destruct (Hcases y) as [->|[?|?]]; [done|apply Hy; lia|lia].
    + intros y Hyd. destruct (Hcases y) as [->|[?|?]]; [done|apply IH; lia|lia].
Qed.

(** The edge that absent objects are held against is the last day of the window the archive
    has books of, when the window has at most 45 days and its days can be listed; none is
    found when it has books of no day. *)
Theorem edge_is_the_last_day ls w :
  (w_start w <= w_end w)%Z -> (w_end w - w_start w < 45)%Z ->
  (forall d, (w_start w <= d <= w_end w)%Z -> is_ok (ls (day_prefix d)) = true) ->
  match probe_edge ls w with
  | Some x => (w_start w <= x <= w_end w)%Z /\ (exists m ms, ls (day_prefix x) = Ok (m :: ms)) /\
      forall y, (x < y <= w_end w)%Z -> ls (day_prefix y) = Ok []
  | None => forall y, (w_start w <= y <= w_end w)%Z -> ls (day_prefix y) = Ok []
  end.
Proof. intros H1 H2 Hok. by apply probe_from_spec. Qed.
End Edge.

(** The numbers of a run start over: the first event of any run is number one of the unset
    epoch, whatever the run it takes up has sent. *)
Lemma numbers_start_over {NU : Numeric} {CH : Chrono} {DY : Days} {LZ : Lz4}
    decoder w declared ls env cursor_path text m ev evs :
  rp_sent (spawn_replay decoder w declared ls env cursor_path text m).1 = ev :: evs ->
  exists local raw, ev = stamp_local local 0 1 ARCHIVE_CONN_EPOCH_US raw.
Proof.
  intros H. destruct (enumerate_window ls w (want_ctx declared)) as [plan|e] eqn:E.
  - rewrite (spawn_plan _ _ _ _ _ _ _ _ plan) in H by done.
    destruct (replay_from_ran decoder w declared env plan (plan_edge w ls plan) cursor_path
      (resume_index cursor_path text (keys plan)) (drop (resume_index cursor_path text (keys plan)) (keys plan))
      (replay_start m text)) as [n [_ (part & out & u & _ & Hs & St & _) _]].
    rewrite H in Hs. simpl in Hs. subst out. inversion St; subst. eauto.
  - unfold spawn_replay in H. by rewrite E in H.
Qed.

(** ** Examples

    A day of one coin: the first hour is absent, the second holds a line, and the shutdown is
    seen before the third; the next run meets no shutdown. *)
Section Examples.
#[local] Existing Instance decimal_numeric.
#[local] Instance toy_dates : Chrono := { parse_from_str _ _ := None; parse_from_rfc3339 _ := None }.
#[local] Instance toy_days : Days := {
  format_day _ := "20230916"; parse_day s := if String.eqb s "20230916" then Some 0%Z else None
}.
#[local] Instance toy_lz4 : Lz4 := {
  lz4_read limit bytes :=
    LzBytes (if byte_len bytes <=? limit then bytes else string_take (N.to_nat limit) bytes);
  lz4_frame bytes := bytes
}.

Definition toy_window : EntrepotWindow := {| w_start := 0%Z; w_end := 0%Z; coins := ["BTC"] |}.
Definition toy_line : LineDecoder := fun _ => Ok {| dl_events := [ConnectionGap 1]; dl_local_ts_us := Some 7 |}.
Definition toy_listing : Listing := fun _ =>
  Ok [{| om_key := "market_data/20230916/0/l2Book/BTC.lz4"; om_size := 1; om_etag := None; om_last_modified := None |}].
Definition toy_env (stop : option nat) : RunEnv := {|
  re_fetch i key := if (i =? 0)%nat then Err (Status 404 key "") else Ok {| ao_bytes := "line"; ao_etag := None |};
  re_stop i := match stop with Some n => (n <=? i)%nat | None => false end;
  re_receiver := None; re_cursor_ok _ := true; re_now_us _ := 0
|}.
Definition toy_run (stop : option nat) (text : option string) : Replay * TaskExit :=
  spawn_replay toy_line toy_window ∅ toy_listing (toy_env stop) (Some "cursor") text SourceMetrics_default.

Example toy_first_run :
  rp_cursor (toy_run (Some 2%nat) None).1 = Some "market_data/20230916/1/l2Book/BTC.lz4" /\
  rp_metrics (toy_run (Some 2%nat) None).1 C_gaps = 1 /\ length (rp_sent (toy_run (Some 2%nat) None).1) = 1%nat /\
  (toy_run (Some 2%nat) None).2 = Completed.
Proof. by vm_compute. Qed.


Lemma resumption_exact_witness : exists n plan, keys plan = planned_keys toy_window false /\
  ran toy_line toy_window ∅ (toy_env None) plan (plan_edge toy_window toy_listing plan) (Some "cursor") 2
    (drop 2 (planned_keys toy_window false))
    (replay_start SourceMetrics_default (Some "market_data/20230916/1/l2Book/BTC.lz4"))
    (toy_run None (Some "market_data/20230916/1/l2Book/BTC.lz4")).1
    (toy_run None (Some "market_data/20230916/1/l2Book/BTC.lz4")).2 n /\
  resume_index (Some "cursor") (rp_cursor (toy_run None (Some "market_data/20230916/1/l2Book/BTC.lz4")).1)
    (planned_keys toy_window false) = (2 + n)%nat /\
  ((toy_run None (Some "market_data/20230916/1/l2Book/BTC.lz4")).2 = Drive.Exhausted ->
   (2 + n)%nat = length (planned_keys toy_window false)).
Proof.
  assert (want_ctx ∅ = false) as Hc by by vm_compute.
  assert (resume_index (Some "cursor") (Some "market_data/20230916/1/l2Book/BTC.lz4")
    (planned_keys toy_window false) = 2%nat) as Hr by by vm_compute.
  rewrite <- Hr, <- Hc. unfold toy_run.
  apply (resumption_exact toy_line toy_window ∅ toy_listing (toy_env None) "cursor"
    (Some "market_data/20230916/1/l2Book/BTC.lz4") SourceMetrics_default).
  - done.
  - repeat constructor. apply not_elem_of_nil.
  - repeat constructor.
  - done.
Defined.

Lemma edge_is_the_last_day_witness :
  (0 <= 0 <= 0)%Z /\ (exists m ms, toy_listing (day_prefix 0%Z) = Ok (m :: ms)) /\
  forall y, (0 < y <= 0)%Z -> toy_listing (day_prefix y) = Ok [].
Proof. exact (edge_is_the_last_day toy_listing toy_window (Z.le_refl 0) eq_refl (fun _ _ => eq_refl)). Defined.
End Examples.
