(* ===== verification/LocalSource.v ===== *)
(** * Objects in a directory, and downloads

    [src/aetelier-entrepot/src/source.rs]: a directory tree as a source of objects, with the trait
    [ObjectSource]; [src/aetelier-entrepot/src/download.rs]: the fetch of an object into a file.

    The directories are a tree, whose root is that of the file system: a symbolic link has its own
    length and what the system finds behind it, a directory behind links being unfolded as far
    as the system follows them; names are UTF-8, and a directory gives its entries in an order of
    its own.  A download runs on the file system of [Disk], whose calls may fail. *)
From Stdlib Require Import Ascii String Sorting.Sorted.
From stdpp Require Import strings.
From S2P Require Import Prelude BTree Budget Strings Numeric Pairs Types Disk Leaf Json Sign Codec ObjectStore Entrepot.
Local Open Scope string_scope.
Local Open Scope list_scope.
Local Open Scope N_scope.

(** ** Trees *)

(** [OtherNode] is neither a file nor a directory; a [SealedDir] cannot be read; a [LinkNode] is a
    symbolic link with its own length and its target, a [DeadLink] one that cannot be followed. *)
Inductive Node :=
| FileNode (bytes : string)
| DirNode (entries : list (string * Node))
| OtherNode
| SealedDir (e : IoError)
| LinkNode (len : N) (target : Node)
| DeadLink (len : N) (e : IoError).

Section NodeInd.
Context (P : Node -> Prop).
Hypothesis Hf : forall b, P (FileNode b).
Hypothesis Hd : forall es, Forall (fun e : string * Node => P e.2) es -> P (DirNode es).
Hypothesis Ho : P OtherNode.
Hypothesis Hs : forall e, P (SealedDir e).
Hypothesis Hl : forall len t, P t -> P (LinkNode len t).
Hypothesis Hx : forall len e, P (DeadLink len e).

Definition Node_nested : forall n, P n :=
  fix go n := match n with
  | FileNode b => Hf b
  | DirNode es => Hd es
      ((fix each (es : list (string * Node)) : Forall (fun e => P e.2) es :=
          match es with
          | [] => Forall_nil_2 _
          | e :: es => Forall_cons_2 _ e es (go e.2) (each es)
          end) es)
  | OtherNode => Ho
  | SealedDir e => Hs e
  | LinkNode len t => Hl len t (go t)
  | DeadLink len e => Hx len e
  end.
End NodeInd.

Fixpoint entry (name : string) (es : list (string * Node)) : option Node :=
  match es with
  | [] => None
  | e :: es => if String.eqb e.1 name then Some e.2 else entry name es
  end.

Definition no_entry : IoError := {| io_kind := NotFound; io_shown := "No such file or directory (os error 2)" |}.
Definition not_a_directory : IoError := {| io_kind := OtherKind; io_shown := "Not a directory (os error 20)" |}.
Definition is_a_directory : IoError := {| io_kind := OtherKind; io_shown := "Is a directory (os error 21)" |}.
Definition not_a_file : IoError := {| io_kind := OtherKind; io_shown := "No such device or address (os error 6)" |}.

(** The segments of a path, split at every slash. *)
Fixpoint split_slash (s : string) : list string :=
  match s with
  | "" => [""]
  | String c s =>
    if Ascii.eqb c "/" then "" :: split_slash s
    else match split_slash s with
         | seg :: segs => String c seg :: segs
         | [] => [String c ""]
         end
  end.

(** What is behind the links of an entry. *)
Fixpoint follow (n : Node) : Node := match n with LinkNode _ t => follow t | _ => n end.

(** The system's reading of a path, links followed: empty segments and dots stay where they are, which has to
    be a directory. *)
Fixpoint resolve_path (n : Node) (segs : list string) : Result Node IoError :=
  match segs with
  | [] => match follow n with DeadLink _ e => Err e | m => Ok m end
  | seg :: segs =>
    match follow n with
    | DirNode es =>
      if String.eqb seg "" || String.eqb seg "." then resolve_path n segs
      else match entry seg es with
           | Some c => resolve_path c segs
           | None => Err no_entry
           end
    | SealedDir e | DeadLink _ e => Err e
    | _ => Err not_a_directory
    end
  end.

(** [std::fs::read] *)
Definition read_bytes (fs : Node) (segs : list string) : Result string IoError :=
  match resolve_path fs segs with
  | Ok (FileNode b) => Ok b
  | Ok (DirNode _) => Err is_a_directory
  | Ok OtherNode => Err not_a_file
  | Ok (SealedDir _) => Err is_a_directory
  | Ok (LinkNode _ _) | Ok (DeadLink _ _) => Err not_a_file (* links are followed *)
  | Err e => Err e
  end.

(** ** [LocalDirSource] *)

(** The root is absolute, as its segments. *)
Record LocalDirSource := { ld_root : list string }.

Definition shown_path (segs : list string) : string := ("/" ++ join "/" segs)%string.

Definition guard_key (key : string) : Result unit EntrepotError :=
  if existsb (String.eqb "..") (split_slash key) then
    Err (Io key {| io_kind := InvalidInput; io_shown := "parent traversal rejected" |})
  else Ok tt.

(** [entry.metadata()] of a directory's entry does not follow a link. *)
Definition own_len (n : Node) : N :=
  match n with FileNode b => byte_len b | LinkNode len _ | DeadLink len _ => len | _ => 0 end.

(** What an entry lists, [rel] its path and [len] its own length: [is_dir], [is_file] and the
    reading of a directory follow links. *)
Fixpoint visit_tree (root rel : list string) (len : N) (n : Node) : Result (list ObjectMeta) EntrepotError :=
  match n with
  | FileNode _ => Ok [{| om_key := join "/" rel; om_size := len; om_etag := None; om_last_modified := None |}]
  | OtherNode | DeadLink _ _ => Ok []
  | SealedDir e => Err (Io (shown_path (root ++ rel)) e)
  | LinkNode _ t => visit_tree root rel len t
  | DirNode es =>
    (fix each (es : list (string * Node)) : Result (list ObjectMeta) EntrepotError :=
       match es with
       | [] => Ok []
       | e :: es =>
         match visit_tree root (rel ++ [e.1]) (own_len e.2) e.2 with
         | Err x => Err x
         | Ok out => match each es with Err x => Err x | Ok out' => Ok (out ++ out') end
         end
       end) es
  end.

(** [walk_root] reads the directory first, so a root that is no directory is an error. *)
Definition walk_root (s : LocalDirSource) (fs : Node) : Result (list ObjectMeta) EntrepotError :=
  match resolve_path fs (ld_root s) with
  | Ok (DirNode es) => visit_tree (ld_root s) [] 0 (DirNode es)
  | Ok (SealedDir e) => Err (Io (shown_path (ld_root s)) e)
  | Ok _ => Err (Io (shown_path (ld_root s)) not_a_directory)
  | Err e => Err (Io (shown_path (ld_root s)) e)
  end.

Definition meta_leb (a b : ObjectMeta) : bool := str_leb (om_key a) (om_key b).

Definition local_list (s : LocalDirSource) (fs : Node) (pre : string)
    : Result (list ObjectMeta) EntrepotError :=
  match walk_root s fs with
  | Err e => Err e
  | Ok out => Ok (sort_by meta_leb (List.filter (fun m => String.prefix pre (om_key m)) out))
  end.

(** [self.root.join(key)]: an absolute key replaces the root. *)
Definition join_key (root : list string) (key : string) : list string :=
  if String.prefix "/" key then split_slash key else root ++ split_slash key.

Definition local_get (s : LocalDirSource) (fs : Node) (key : string) : Result string EntrepotError :=
  match guard_key key with
  | Err e => Err e
  | Ok _ =>
    match read_bytes fs (join_key (ld_root s) key) with
    | Ok b => Ok b
    | Err e => Err (Io (path_join (shown_path (ld_root s)) key) e)
    end
  end.

(** [ArchiveSource::fetch] of a local source *)
Definition local_fetch (s : LocalDirSource) (fs : Node) (key : string) : Result ArchiveObject EntrepotError :=
  match local_get s fs key with
  | Ok b => Ok {| ao_bytes := b; ao_etag := None |}
  | Err e => Err e
  end.

(** ** download.rs *)

Section Download.
Context {DK : Disk}.

(** [fs::metadata(dest)] *)
Definition already_complete (dest : Path) (expected_size : N) (s : Fs) : bool :=
  match file_at dest s with Some c => byte_len c =? expected_size | None => false end.

Definition part_of (dest : Path) : Path := (dest.1, (dest.2 ++ ".part")%string).

(** The calls here fail with [PersistIo] alone. *)
Definition shown_error (e : PersistError) : string :=
  match e with PersistIo m | PersistJson m | PersistParse m | UnsupportedFormat m => m end.

(** The error of a call, on the path it was given. *)
Definition on_path {A} (path : string) (m : IO A) : Fs -> Fs * Result A EntrepotError := fun s =>
  match m s with
  | (s, Ok a) => (s, Ok a)
  | (s, Err e) => (s, Err (Io path {| io_kind := OtherKind; io_shown := shown_error e |}))
  end.

Definition fs_write (p : Path) (bytes : string) : IO unit :=
  io_bind (create_file p) (fun _ => append_bytes p bytes PersistIo).

Definition fetch_to_file (fetched : Result string EntrepotError) (dest : Path) (s : Fs)
    : Fs * Result N EntrepotError :=
  match fetched with
  | Err e => (s, Err e)
  | Ok bytes =>
    match on_path dest.1 (create_dir_all dest.1) s with
    | (s, Err e) => (s, Err e)
    | (s, Ok _) =>
      let part := part_of dest in
      match on_path (path_join part.1 part.2) (fs_write part bytes) s with
      | (s, Err e) => (s, Err e)
      | (s, Ok _) =>
        match on_path (path_join dest.1 dest.2) (rename part dest) s with
        | (s, Err e) => (s, Err e)
        | (s, Ok _) => (s, Ok (byte_len bytes))
        end
      end
    end
  end.
End Download.

(** ** Listing and fetching agree *)

(** The files of a tree with their segments, the length of their entry, and their bytes, in the order
    of the walk; [len] is the length of the tree's own entry. *)
Fixpoint files (len : N) (n : Node) : list (list string * (N * string)) :=
  match n with
  | FileNode b => [([], (len, b))]
  | LinkNode _ t => files len t
  | DirNode es =>
    (fix each (es : list (string * Node)) : list (list string * (N * string)) :=
       match es with
       | [] => []
       | e :: es => ((fun f => (e.1 :: f.1, f.2)) <$> files (own_len e.2) e.2) ++ each es
       end) es
  | _ => []
  end.

(** A name of the file system: not empty, no dots, no slash. *)
Definition good_name (s : string) : bool :=
  negb (String.eqb s "") && negb (String.eqb s ".") && negb (String.eqb s "..") && lacks "/" s.

(** Names are good and distinct, everywhere. *)
Fixpoint tree_ok (n : Node) : Prop :=
  match n with
  | DirNode es =>
    NoDup es.*1 /\
    (fix each (es : list (string * Node)) : Prop :=
       match es with [] => True | e :: es => good_name e.1 = true /\ tree_ok e.2 /\ each es end) es
  | LinkNode _ t => tree_ok t
  | _ => True
  end.

Definition each_ok (es : list (string * Node)) : Prop :=
  Forall (fun e : string * Node => good_name e.1 = true /\ tree_ok e.2) es.

Lemma tree_ok_dir es : tree_ok (DirNode es) <-> NoDup es.*1 /\ each_ok es.
Proof.
  simpl. apply and_iff_compat_l. unfold each_ok.
  induction es as [|e es IH]; [split; [constructor|done]|]. rewrite Forall_cons, <-IH. tauto.
Qed.

Lemma files_dir len es :
  files len (DirNode es) = es ≫= (fun e => (fun f => (e.1 :: f.1, f.2)) <$> files (own_len e.2) e.2).
Proof. simpl. induction es as [|e es IH]; [done|]. csimpl. by rewrite IH. Qed.

Lemma file_named len es f : f ∈ files len (DirNode es) -> f.1 <> [].
Proof.
  rewrite files_dir. intros (e & He & _)%list_elem_of_bind.
  by apply list_elem_of_fmap in He as (g & -> & _).
Qed.

Definition meta_of (rel : list string) (f : list string * (N * string)) : ObjectMeta := {|
  om_key := join "/" (rel ++ f.1); om_size := f.2.1; om_etag := None; om_last_modified := None
|}.

(** The walk lists the files, in that order. *)
Lemma visit_tree_files root n rel len out :
  visit_tree root rel len n = Ok out -> out = meta_of rel <$> files len n.
Proof.
  revert rel len out. induction n as [b|es IH| |e|k t IH|k e] using Node_nested; intros rel len out; simpl.
  - intros [= <-]. unfold meta_of. simpl. by rewrite app_nil_r.
  - revert out. induction IH as [|e es He _ IHes]; intros out; [by intros [= <-]|].
    destruct (visit_tree root (rel ++ [e.1]) (own_len e.2) e.2) as [o|] eqn:Ev; [|done].
    match goal with |- match ?x with _ => _ end = _ -> _ => destruct x as [o'|] eqn:Ee; [|done] end.
    intros [= <-]. rewrite fmap_app, (IHes _ eq_refl). f_equal.
    rewrite (He _ _ _ Ev), <-list_fmap_compose. apply list_fmap_ext. intros i f _.
    unfold meta_of, compose. simpl. by rewrite <-(assoc_L (++)).
  - by intros [= <-].
  - done.
  - apply IH.
  - by intros [= <-].
Qed.

Lemma follow_follow n : follow (follow n) = follow n.
Proof. induction n using Node_nested; done. Qed.

Lemma follow_no_link n k t : follow n <> LinkNode k t.
Proof. induction n using Node_nested; done. Qed.

Lemma resolve_follow n segs : resolve_path (follow n) segs = resolve_path n segs.
Proof.
  induction segs as [|seg segs IH]; simpl; rewrite follow_follow; [done|]. by rewrite IH.
Qed.

Lemma tree_ok_follow n : tree_ok n -> tree_ok (follow n).
Proof. induction n using Node_nested; simpl; auto. Qed.

Lemma files_follow len n : files len (follow n) = files len n.
Proof. induction n using Node_nested; done. Qed.

Lemma entry_elem name n es :
  NoDup es.*1 -> entry name es = Some n <-> (name, n) ∈ es.
Proof.
  induction es as [|[k v] es IH]; simpl; intros Hn; [split; [done|by intros ?%elem_of_nil]|].
  apply NoDup_cons in Hn as [Hk Hn]. rewrite elem_of_cons.
  destruct (String.eqb_spec k name) as [->|Hne].
  - split; [intros [= ->]; by left|]. intros [[= <-]|Hin]; [done|].
    exfalso. apply Hk, list_elem_of_fmap. by exists (name, n).
  - rewrite IH by done. split; [by right|]. intros [[= <- _]|?]; [done|done].
Qed.

Lemma good_name_spec s : good_name s = true ->
  String.eqb s "" || String.eqb s "." = false /\ String.eqb ".." s = false /\ lacks "/" s = true.
Proof.
  unfold good_name. rewrite !andb_true_iff, !negb_true_iff. intros [[[-> ->] H] ->].
  rewrite String.eqb_sym in H. by rewrite H.
Qed.

(** A path of good names leads to the files of the tree. *)
Lemma resolve_files len n segs b :
  tree_ok n -> Forall (fun s => good_name s = true) segs ->
  resolve_path n segs = Ok (FileNode b) <-> exists l, (segs, (l, b)) ∈ files len n.
Proof.
  intros Hn Hg. revert n len Hn. induction Hg as [|seg segs Hseg Hg IH]; intros n len Hn;
    rewrite <-(files_follow len n); cbn [resolve_path]; apply tree_ok_follow in Hn.
  - destruct (follow n) as [b'|es| |e|k t|k e] eqn:Ef.
    + simpl. setoid_rewrite list_elem_of_singleton. split; [intros [= ->]; by eexists|by intros [? [= _ ->]]].
    + split; [done|]. intros [l Hf]. by apply file_named in Hf.
    + split; [done|by intros [? ?%elem_of_nil]].
    + split; [done|by intros [? ?%elem_of_nil]].
    + by apply follow_no_link in Ef.
    + split; [done|by intros [? ?%elem_of_nil]].
  - apply good_name_spec in Hseg as (Hdots & _ & _).
    destruct (follow n) as [b'|es| |e|k t|k e] eqn:Ef; try (split; [done|by intros [? ?%elem_of_nil]]).
    + simpl. setoid_rewrite list_elem_of_singleton. split; [done|by intros [? [=]]].
    + rewrite Hdots, files_dir. apply tree_ok_dir in Hn as [Hd He].
      assert (Hsub : forall c, (seg, c) ∈ es -> tree_ok c).
      { intros c Hc. unfold each_ok in He. rewrite Forall_forall in He. by apply (He (seg, c)). }
      split.
      * destruct (entry seg es) as [c|] eqn:Ee; [|done]. apply entry_elem in Ee; [|done].
        intros H. apply (IH _ (own_len c)) in H as [l H]; [|by apply Hsub]. exists l.
        apply list_elem_of_bind. exists (seg, c). split; [|done]. apply list_elem_of_fmap. by exists (segs, (l, b)).
      * intros (l & (e & Hin & Hc)%list_elem_of_bind). destruct e as [k c].
        apply list_elem_of_fmap in Hin as ([l' b'] & [= -> -> <-] & Hf).
        simpl in *. rewrite (proj2 (entry_elem k c es Hd) Hc). apply (IH _ (own_len c)); [by apply Hsub|by eexists].
    + by apply follow_no_link in Ef.
Qed.





(** *** Keys *)

Lemma split_slash_cons s : exists seg segs, split_slash s = seg :: segs.
Proof.
  destruct s as [|c s]; simpl; [by eexists _, _|]. destruct (Ascii.eqb c "/"); [by eexists _, _|].
  destruct (split_slash s); by eexists _, _.
Qed.

Lemma join_split s : join "/" (split_slash s) = s.
Proof.
  induction s as [|c s IH]; [done|]. simpl. destruct (split_slash_cons s) as (seg & segs & E).
  rewrite E in IH |- *. destruct (Ascii.eqb_spec c "/") as [->|Hc].
  - change (String "/" (join "/" (seg :: segs)) = String "/" s). by rewrite IH.
  - transitivity (String c (join "/" (seg :: segs))); [by destruct segs|by rewrite IH].
Qed.


Lemma split_app a t : lacks "/" a = true -> split_slash (a ++ String "/" t)%string = a :: split_slash t.
Proof.
  induction a as [|c a IH]; intros H; [done|]. simpl. unfold lacks in *. simpl in H.
  apply andb_true_iff in H as [Hc Ha]. destruct (Ascii.eqb c "/"); [done|]. by rewrite (IH Ha).
Qed.

Lemma split_one a : lacks "/" a = true -> split_slash a = [a].
Proof.
  induction a as [|c a IH]; intros H; [done|]. simpl. unfold lacks in *. simpl in H.
  apply andb_true_iff in H as [Hc Ha]. destruct (Ascii.eqb c "/"); [done|]. by rewrite (IH Ha).
Qed.

Lemma split_join segs :
  segs <> [] -> Forall (fun seg => lacks "/" seg = true) segs -> split_slash (join "/" segs) = segs.
Proof.
  intros Hn H. induction H as [|a segs Ha Hs IH]; [done|]. destruct segs as [|b segs].
  { by apply split_one. }
  etransitivity; [exact (split_app a (join "/" (b :: segs)) Ha)|]. f_equal. by apply IH.
Qed.




Lemma resolve_app n segs segs' :
  resolve_path n (segs ++ segs') =
  match resolve_path n segs with Ok m => resolve_path m segs' | Err e => Err e end.
Proof.
  revert n. induction segs as [|seg segs IH]; intros n; simpl.
  - rewrite <-resolve_follow. destruct (follow n) as [| | | | |len e] eqn:Ef; try done.
    by destruct segs'.
  - destruct (follow n) as [|es| | | |]; try done. destruct (_ || _); [apply IH|].
    destruct (entry seg es); [apply IH|done].
Qed.

Lemma tree_ok_resolve n segs m : tree_ok n -> resolve_path n segs = Ok m -> tree_ok m.
Proof.
  revert n. induction segs as [|seg segs IH]; intros n Hn; simpl; pose proof (tree_ok_follow n Hn) as Hf.
  { destruct (follow n); try done; by intros [= <-]. }
  destruct (follow n) as [|es| | | |] eqn:Ef; try done. destruct (_ || _); [by apply IH|].
  destruct (entry seg es) as [c|] eqn:E; [|done]. apply IH. clear Hn. rename Hf into Hn.
  apply tree_ok_dir in Hn as [Hd He]. apply entry_elem in E; [|done].
  unfold each_ok in He. rewrite Forall_forall in He. by apply (He (seg, c)).
Qed.

Lemma guard_key_ok key : guard_key key = Ok tt <-> Forall (fun seg => String.eqb ".." seg = false) (split_slash key).
Proof.
  unfold guard_key. induction (split_slash key) as [|seg segs IH]; cbn [existsb]; [by split|].
  rewrite Forall_cons. destruct (String.eqb ".." seg); cbn [orb].
  - split; [intros H; discriminate H|intros [H _]; discriminate H].
  - rewrite IH. split; [by intros H|by intros [_ H]].
Qed.


Lemma files_good len n : tree_ok n -> forall f, f ∈ files len n -> Forall (fun seg => good_name seg = true) f.1.
Proof.
  revert len. induction n as [b|es IH| |e|k t IH|k e] using Node_nested; intros len Hn f.
  - intros ->%list_elem_of_singleton. constructor.
  - rewrite files_dir. intros (e & Hin & He)%list_elem_of_bind.
    apply list_elem_of_fmap in Hin as (f' & -> & Hf'). simpl.
    apply tree_ok_dir in Hn as [_ Hok]. unfold each_ok in Hok. rewrite Forall_forall in Hok, IH.
    destruct (Hok e He). constructor; [done|]. by apply (IH e He (own_len e.2)).
  - by intros ?%elem_of_nil.
  - by intros ?%elem_of_nil.
  - by apply IH.
  - by intros ?%elem_of_nil.
Qed.


(** *** The order of a listing *)



(** ** The contract of the source *)




Lemma split_file n len es f :
  tree_ok n -> n = DirNode es -> f ∈ files len n -> split_slash (join "/" f.1) = f.1.
Proof.
  intros Hn -> Hf. pose proof (files_good _ _ Hn _ Hf) as Hg. apply split_join; [by apply file_named in Hf|].
  eapply Forall_impl; [exact Hg|]. intros x Hx. by apply good_name_spec in Hx as (_ & _ & ?).
Qed.


Lemma file_get s fs es segs l b :
  tree_ok fs -> resolve_path fs (ld_root s) = Ok (DirNode es) -> (segs, (l, b)) ∈ files 0 (DirNode es) ->
  local_get s fs (join "/" segs) = Ok b.
Proof.
  intros Hfs Hroot Hf.
  assert (Hn : tree_ok (DirNode es)) by (by eapply tree_ok_resolve).
  pose proof (files_good _ _ Hn _ Hf) as Hg. simpl in Hg.
  pose proof (split_file _ _ es _ Hn eq_refl Hf) as Hsplit. simpl in Hsplit.
  assert (Hne : segs <> []) by exact (file_named _ _ _ Hf).
  unfold local_get. assert (guard_key (join "/" segs) = Ok tt) as ->.
  { apply guard_key_ok. rewrite Hsplit. eapply Forall_impl; [exact Hg|].
    intros x Hx. by apply good_name_spec in Hx as (_ & ? & _). }
  unfold join_key. assert (String.prefix "/" (join "/" segs) = false) as ->.
  { destruct segs as [|x segs]; [done|]. apply Forall_cons in Hg as [Hx _].
    destruct x as [|c x]; [by vm_compute in Hx|].
    assert (lacks "/" (String c x) = true) as Hl by (by apply good_name_spec in Hx as (_ & _ & ?)).
    unfold lacks in Hl. simpl in Hl. apply andb_true_iff in Hl as [Hc _].
    assert (Hne' : "/"%char <> c) by (intros <-; vm_compute in Hc; discriminate Hc).
    assert (Hp : forall t, String.prefix "/" (String c t) = false).
    { intros t. cbn [String.prefix]. by destruct (ascii_dec "/" c). }
    destruct segs as [|y segs]; [apply Hp|exact (Hp (x ++ "/" ++ join "/" (y :: segs))%string)]. }
  unfold read_bytes. rewrite resolve_app, Hroot, Hsplit.
  by rewrite (proj2 (resolve_files 0 (DirNode es) segs b Hn Hg) (ex_intro _ l Hf)).
Qed.





(** A link is listed with its own length, whatever the length of the file behind it, which is fetched. *)
Theorem link_listed_by_its_own_length s fs es name len b metas :
  tree_ok fs -> resolve_path fs (ld_root s) = Ok (DirNode es) -> (name, LinkNode len (FileNode b)) ∈ es ->
  local_list s fs name = Ok metas ->
  local_get s fs name = Ok b /\ exists m, m ∈ metas /\ om_key m = name /\ om_size m = len.
Proof.
  intros Hfs Hroot He Hl. assert (([name], (len, b)) ∈ files 0 (DirNode es)) as Hf.
  { rewrite files_dir. apply list_elem_of_bind. exists (name, LinkNode len (FileNode b)). split; [|done].
    apply list_elem_of_fmap. exists ([], (len, b)). split; [done|]. by apply list_elem_of_singleton. }
  split; [exact (file_get s fs es [name] len b Hfs Hroot Hf)|].
  unfold local_list, walk_root in Hl. rewrite Hroot in Hl.
  destruct (visit_tree (ld_root s) [] 0 (DirNode es)) as [out|] eqn:Hv; [|done]. injection Hl as <-.
  apply visit_tree_files in Hv as ->. exists (meta_of [] ([name], (len, b))). split; [|done].
  rewrite (sort_by_perm meta_leb _). rewrite list_elem_of_In, filter_In, <-list_elem_of_In. split.
  - apply list_elem_of_fmap. by eexists.
  - simpl. clear. induction name as [|c name IH]; [done|]. simpl. by destruct (ascii_dec c c).
Qed.

(** An absolute key does leave it: the guard rejects parent segments only, and joining an
    absolute path replaces the root.  Every file of the system is an object of every source. *)
Theorem absolute_key_escapes root fs es segs l b :
  tree_ok fs -> fs = DirNode es -> (segs, (l, b)) ∈ files 0 fs ->
  local_get {| ld_root := root |} fs (shown_path segs) = Ok b.
Proof.
  intros Hfs -> Hf. pose proof (file_get {| ld_root := [] |} (DirNode es) es segs l b Hfs eq_refl Hf) as Hget.
  revert Hget. unfold local_get, shown_path.
  assert (Hs : split_slash ("/" ++ join "/" segs)%string = "" :: split_slash (join "/" segs)) by done.
  assert (Hg : guard_key ("/" ++ join "/" segs)%string = Ok tt <-> guard_key (join "/" segs) = Ok tt).
  { rewrite !guard_key_ok, Hs, Forall_cons. split; [by intros [_ ?]|by intros ?]. }
  destruct (guard_key (join "/" segs)) as [[]|] eqn:E; [|done]. rewrite (proj2 Hg eq_refl).
  unfold join_key. assert (String.prefix "/" ("/" ++ join "/" segs)%string = true) as ->.
  { simpl. by destruct (join "/" segs). }
  rewrite Hs. simpl ld_root. unfold read_bytes.
  assert ((if String.prefix "/" (join "/" segs) then split_slash (join "/" segs)
           else [] ++ split_slash (join "/" segs)) = split_slash (join "/" segs)) as ->
    by (by destruct (String.prefix _ _)).
  change (resolve_path (DirNode es) ("" :: split_slash (join "/" segs)))
    with (resolve_path (DirNode es) (split_slash (join "/" segs))).
  by destruct (resolve_path (DirNode es) (split_slash (join "/" segs))) as [[]|].
Qed.

(** ** Downloads *)

Section Downloads.
Context {DK : Disk}.

Lemma create_dir_files dir s q : file_at q (create_dir_all dir s).1 = file_at q s.
Proof. unfold create_dir_all, sys. by destruct (disk_fault _) as [[e n]|]. Qed.

Lemma fs_write_spec p bytes s :
  (forall q, q <> p -> file_at q (fs_write p bytes s).1 = file_at q s) /\
  ((fs_write p bytes s).2 = Ok tt -> file_at p (fs_write p bytes s).1 = Some bytes).
Proof.
  unfold fs_write, io_bind, create_file, sys, append_bytes.
  destruct (disk_fault (fs_calls s)) as [[e n]|]; simpl; [done|].
  destruct (bool_decide _); simpl; [|done].
  destruct (disk_fault _) as [[e n]|]; simpl; unfold file_at; simpl;
    (split; [intros q Hq; by rewrite !lookup_insert_ne by done|]); [done|].
  intros _. by rewrite !lookup_insert_eq.
Qed.

Lemma rename_spec from to_ s :
  from <> to_ ->
  match (rename from to_ s).2 with
  | Ok _ => exists c, file_at from s = Some c /\ file_at to_ (rename from to_ s).1 = Some c /\
      file_at from (rename from to_ s).1 = None
  | Err _ => forall q, file_at q (rename from to_ s).1 = file_at q s
  end /\ forall q, q <> from -> q <> to_ -> file_at q (rename from to_ s).1 = file_at q s.
Proof.
  intros Hne. unfold rename, sys. destruct (disk_fault _) as [[e n]|]; simpl; [done|].
  unfold file_at. simpl. destruct (fs_files s !! from) as [c|] eqn:E; simpl; [|done]. split.
  - exists c. split_and!; [done|by rewrite lookup_insert_eq|].
    by rewrite lookup_insert_ne, lookup_delete_eq by done.
  - intros q H1 H2. by rewrite lookup_insert_ne, lookup_delete_ne by done.
Qed.

Lemma on_path_spec {A} path (m : IO A) s :
  (on_path path m s).1 = (m s).1 /\
  match (on_path path m s).2, (m s).2 with
  | Ok a, Ok a' => a = a'
  | Err _, Err _ => True
  | _, _ => False
  end.
Proof. unfold on_path. by destruct (m s) as [s' [a|e]]. Qed.

(** A download is all or nothing at its destination: whichever call fails, the file there is as
    it was or, when the download succeeds, the object, whole; then nothing is left of the
    part file, and the download counts as complete.  No third file is touched. *)
Theorem download_atomic fetched dest s :
  let r := fetch_to_file fetched dest s in
  match r.2 with
  | Ok n => exists bytes, fetched = Ok bytes /\ n = byte_len bytes /\
      file_at dest r.1 = Some bytes /\ file_at (part_of dest) r.1 = None /\
      forall expected, already_complete dest expected r.1 = (n =? expected)
  | Err _ => file_at dest r.1 = file_at dest s
  end /\
  forall p, p <> dest -> p <> part_of dest -> file_at p r.1 = file_at p s.
Proof.
  assert (Hne : part_of dest <> dest).
  { destruct dest as [d n]. unfold part_of. intros [= E]. apply (f_equal String.length) in E.
    rewrite string_length_app in E. simpl in E. lia. }
  unfold fetch_to_file. destruct fetched as [bytes|e]; [|done].
  pose proof (create_dir_files dest.1 s) as Hd.
  destruct (on_path_spec dest.1 (create_dir_all dest.1) s) as [E1 _]. rewrite <-E1 in Hd. clear E1.
  destruct (on_path dest.1 _ s) as [s1 [[]|e]]; simpl in Hd |- *; [|done].
  destruct (fs_write_spec (part_of dest) bytes s1) as [Hw Hwb].
  destruct (on_path_spec (path_join (part_of dest).1 (part_of dest).2) (fs_write (part_of dest) bytes) s1) as [E2 R2].
  rewrite <-E2 in Hw, Hwb. clear E2.
  destruct (on_path _ (fs_write _ _) s1) as [s2 [[]|e]]; simpl in *.
  2:{ split; [by rewrite Hw, Hd|]. intros p H1 H2. by rewrite Hw, Hd. }
  destruct (fs_write (part_of dest) bytes s1).2 as [[]|]; [|done]. specialize (Hwb eq_refl).
  destruct (rename_spec (part_of dest) dest s2 Hne) as [Hr Ho].
  destruct (on_path_spec (path_join dest.1 dest.2) (rename (part_of dest) dest) s2) as [E3 R3].
  rewrite <-E3 in Hr, Ho. clear E3.
  destruct (on_path _ (rename _ _) s2) as [s3 [u|e]]; simpl in R3, Hr, Ho |- *;
    destruct (rename (part_of dest) dest s2).2 as [u'|e']; try done.
  - destruct Hr as (c & Hc & Hto & Hfrom). assert (c = bytes) as -> by congruence. split.
    + exists bytes. split_and!; try done. intros n. unfold already_complete. by rewrite Hto.
    + intros p H1 H2. by rewrite Ho, Hw, Hd.
  - split; [by rewrite Hr, Hw, Hd|]. intros p H1 H2. by rewrite Hr, Hw, Hd.
Qed.
End Downloads.

(** ** Examples *)

Definition ex_tree : Node := DirNode [
  ("etc", DirNode [("passwd", FileNode "root")]);
  ("data", DirNode [
     ("market_data", DirNode [("b.lz4", FileNode "bb"); ("a.lz4", FileNode "a")]);
     ("note", FileNode "n"); ("log", LinkNode 11 (FileNode "a longer text than the link"))])].

Definition ex_source : LocalDirSource := {| ld_root := ["data"] |}.

Lemma ex_tree_ok : tree_ok ex_tree.
Proof. simpl. repeat split; try (apply (bool_decide_unpack _); vm_compute; reflexivity). Qed.


Lemma absolute_key_escapes_witness : local_get ex_source ex_tree "/etc/passwd" = Ok "root".
Proof.
  apply (absolute_key_escapes ["data"] ex_tree _ ["etc"; "passwd"] 4 "root" ex_tree_ok eq_refl).
  left.
Defined.

Lemma link_listed_by_its_own_length_witness :
  local_get ex_source ex_tree "log" = Ok "a longer text than the link" /\
  exists metas m, local_list ex_source ex_tree "log" = Ok metas /\ m ∈ metas /\ om_size m = 11.
Proof.
  destruct (local_list ex_source ex_tree "log") as [metas|] eqn:E; [|vm_compute in E; discriminate E].
  destruct (link_listed_by_its_own_length ex_source ex_tree _ "log" 11 "a longer text than the link" metas
    ex_tree_ok eq_refl ltac:(do 2 right; left) E) as [Hg (m & Hm & _ & Hs)].
  split; [exact Hg|]. exists metas, m. split_and!; [reflexivity|exact Hm|exact Hs].
Defined.
