(* ===== verification/Config.v ===== *)
(** * Worker configuration

    [src/aetelier-types/src/config/markets/market_config.rs] and [worker_manifest.rs] (the
    snapshot configuration of the first generation and its manifest),
    [src/aetelier-connect/src/config/workers/common.rs], [market_worker_config.rs] and
    [data_worker_config.rs] (the manifests of the two workers).  Durations of a
    configuration are multiplied in 64 bits, which wrap in a release build.  The reader of
    TOML is a parameter; the session's length (a float) and the identity metadata are left
    out, for nothing else depends on them. *)
From Stdlib Require Import QArith Ascii String.
From stdpp Require Import strings pretty.
From S2P Require Import Prelude Budget Strings Numeric Pairs Types Model Feed Runtime Snapshots MarketSync Reconnect Worker Sinks Codec ObjectStore Entrepot.
Local Open Scope string_scope.
Local Open Scope list_scope.
Local Open Scope N_scope.

(** ** market_config.rs *)

Inductive TimeUnit := Nanos | Micros | Millis | Secs.
Inductive SyncMode := OnOrderbook | OnTrade | OnLiquidation | OnTime.

#[export] Instance TimeUnit_eq_dec : EqDecision TimeUnit.
Proof. solve_decision. Defined.
#[export] Instance SyncMode_eq_dec : EqDecision SyncMode.
Proof. solve_decision. Defined.

Definition SyncMode_fmt (m : SyncMode) : string :=
  match m with
  | OnOrderbook => "on_orderbook" | OnTrade => "on_trade"
  | OnLiquidation => "on_liquidation" | OnTime => "on_time"
  end.
Definition TimeUnit_fmt (u : TimeUnit) : string :=
  match u with Nanos => "ns" | Micros => "µs" | Millis => "ms" | Secs => "s" end.

Record UpdateFrequency := { uf_value : N; uf_unit : TimeUnit }.

Definition frequency_us (f : UpdateFrequency) : N :=
  match uf_unit f with
  | Nanos => uf_value f / 1000
  | Micros => uf_value f
  | Millis => u64_mul (uf_value f) 1000
  | Secs => u64_mul (uf_value f) 1000000
  end.

(** The flags of the feeds, with the depth of the order books. *)
Record DatatypesConfig := { dt_section : DataTypesSection; dt_depth : N }.

Definition default_ob_depth : N := 50.
Definition DatatypesConfig_default : DatatypesConfig := {|
  dt_section := {| sec_orderbook := false; sec_trades := false; sec_liquidations := false;
                   sec_funding_rates := false; sec_open_interest := false |};
  dt_depth := default_ob_depth
|}.

Definition declared_set (dt : DatatypesConfig) : DeclaredSet := from_section (dt_section dt).

(** [if on { out.push(x) }] *)
Definition push_if {A} (on : bool) (x : A) : list A := if on then [x] else [].

Definition enabled_names (dt : DatatypesConfig) : list string :=
  push_if (sec_orderbook (dt_section dt)) "orderbook" ++
  push_if (sec_trades (dt_section dt)) "trades" ++
  push_if (sec_liquidations (dt_section dt)) "liquidations" ++
  push_if (sec_funding_rates (dt_section dt)) "funding_rates" ++
  push_if (sec_open_interest (dt_section dt)) "open_interest".

Record LogsSection := {
  n_orderbooks : N; n_trades : N; n_liquidations : N; n_fundings : N; n_open_interests : N
}.

Record MarketSnapshotConfig := {
  msc_exchange : string;
  msc_symbol : string;
  msc_sync_mode : SyncMode;
  msc_update_frequency : UpdateFrequency;
  msc_flush_threshold : N;
  msc_datatypes : DatatypesConfig;
  msc_output_dir : string;
  msc_logs : LogsSection
}.

Definition msc_period_us (c : MarketSnapshotConfig) : N :=
  let v := uf_value (msc_update_frequency c) in
  match uf_unit (msc_update_frequency c) with
  | Nanos => v / 1000
  | Micros => v
  | Millis => u64_mul v 1000
  | Secs => u64_mul v 1000000
  end.

Definition flush_interval_us (c : MarketSnapshotConfig) : N :=
  u64_mul (msc_period_us c) (msc_flush_threshold c).

Definition msc_clock_mode (c : MarketSnapshotConfig) : ClockMode :=
  match msc_sync_mode c with
  | OnOrderbook => OrderbookDriven
  | OnTrade => TradeDriven
  | OnLiquidation => LiquidationDriven
  | OnTime => ExternalClock
  end.

Definition clock_mode_label (c : MarketSnapshotConfig) : string :=
  match msc_sync_mode c with
  | OnOrderbook => "ClockMode::OrderbookDriven"
  | OnTrade => "ClockMode::TradeDriven"
  | OnLiquidation => "ClockMode::LiquidationDriven"
  | OnTime => "ClockMode::ExternalClock"
  end.

Definition bybit_wss_streams (c : MarketSnapshotConfig) : list string :=
  let sym := msc_symbol c in
  let dt := dt_section (msc_datatypes c) in
  push_if (sec_orderbook dt) ("orderbook." ++ pretty (dt_depth (msc_datatypes c)) ++ "." ++ sym)%string ++
  push_if (sec_trades dt) ("publicTrade." ++ sym)%string ++
  push_if (sec_liquidations dt) ("allLiquidation." ++ sym)%string ++
  push_if (sec_funding_rates dt || sec_open_interest dt) ("tickers." ++ sym)%string.

Definition coinbase_wss_channels (c : MarketSnapshotConfig) : list string :=
  let dt := dt_section (msc_datatypes c) in
  push_if (sec_orderbook dt) "level2" ++ push_if (sec_trades dt) "market_trades".

Definition kraken_wss_channels (c : MarketSnapshotConfig) : list string :=
  let dt := dt_section (msc_datatypes c) in
  push_if (sec_orderbook dt) "book" ++ push_if (sec_trades dt) "trade".

Definition binance_wss_streams (c : MarketSnapshotConfig) : list string :=
  let sym := to_lowercase (msc_symbol c) in
  let dt := dt_section (msc_datatypes c) in
  push_if (sec_orderbook dt) (sym ++ "@depth@100ms")%string ++
  push_if (sec_trades dt) (sym ++ "@trade")%string.

Definition msc_wss_streams (c : MarketSnapshotConfig) : list string :=
  let name := to_lowercase (msc_exchange c) in
  if String.eqb name "bybit" then bybit_wss_streams c
  else if String.eqb name "coinbase" then coinbase_wss_channels c
  else if String.eqb name "kraken" then kraken_wss_channels c
  else if String.eqb name "binance" then binance_wss_streams c
  else [].

(** ** worker_manifest.rs *)

Record DefaultsSection := {
  def_sync_mode : SyncMode;
  def_flush_threshold : N;
  def_update_frequency : UpdateFrequency;
  def_datatypes : DatatypesConfig;
  def_logs : LogsSection
}.

Record WorkerEntry := { we_exchange : string; we_symbol : string; we_sync_mode : option SyncMode }.

Record WorkerManifest := {
  wm_defaults : DefaultsSection;
  wm_workers : list WorkerEntry;
  wm_base_dir : string
}.

Definition resolve_worker (w : WorkerEntry) (d : DefaultsSection) (base_dir : string)
    : MarketSnapshotConfig := {|
  msc_exchange := we_exchange w;
  msc_symbol := we_symbol w;
  msc_sync_mode := default (def_sync_mode d) (we_sync_mode w);
  msc_update_frequency := def_update_frequency d;
  msc_flush_threshold := def_flush_threshold d;
  msc_datatypes := def_datatypes d;
  msc_output_dir := (base_dir ++ "/" ++ we_exchange w ++ "/" ++ we_symbol w)%string;
  msc_logs := def_logs d
|}.

Definition wm_resolve_all (m : WorkerManifest) : list MarketSnapshotConfig :=
  (fun w => resolve_worker w (wm_defaults m) (wm_base_dir m)) <$> wm_workers m.

(** ** common.rs *)

Definition to_connection_manager_config (r : ReconnectSection) : ConnectionManagerConfig :=
  let defaults := ConnectionManagerConfig_default in {|
  cfg_initial_delay := default (cfg_initial_delay defaults) (millis <$> initial_delay_ms r);
  cfg_max_delay := default (cfg_max_delay defaults) (millis <$> max_delay_ms r);
  cfg_max_attempts := match section_max_attempts r with
                      | Some n => Some n
                      | None => cfg_max_attempts defaults
                      end;
  cfg_jitter_factor := default (cfg_jitter_factor defaults) (section_jitter_factor r)
|}.

Record CommonWorkerFields := {
  cw_exchange : string;
  cw_symbol : string;
  cw_market_type : MarketType;
  cw_environment : VenueEnvironment;
  cw_datatypes : DatatypesConfig;
  cw_channel_capacity : option N;
  cw_staleness_timeout_secs : option N;
  cw_gap_threshold_secs : option N;
  cw_reconnect : option ReconnectSection
}.

Definition cw_capacity (c : CommonWorkerFields) : N :=
  default DEFAULT_CHANNEL_CAPACITY (cw_channel_capacity c).
Definition cw_staleness_timeout (c : CommonWorkerFields) : Duration :=
  seconds (default 60 (cw_staleness_timeout_secs c)).
Definition cw_gap_threshold (c : CommonWorkerFields) : Duration :=
  seconds (default 5 (cw_gap_threshold_secs c)).
Definition cw_reconnect_config (c : CommonWorkerFields) : ConnectionManagerConfig :=
  default ConnectionManagerConfig_default (to_connection_manager_config <$> cw_reconnect c).

(** [impl From<&MarketSnapshotConfig>] *)
Definition common_from (c : MarketSnapshotConfig) : CommonWorkerFields := {|
  cw_exchange := msc_exchange c;
  cw_symbol := msc_symbol c;
  cw_market_type := Spot;
  cw_environment := Production;
  cw_datatypes := msc_datatypes c;
  cw_channel_capacity := None;
  cw_staleness_timeout_secs := None;
  cw_gap_threshold_secs := None;
  cw_reconnect := None
|}.

(** ** market_worker_config.rs *)

Inductive TransportKind := Wss | OverEntrepot.
Inductive EntrepotSourceKind := SourceLocal | SourceS3.

Record EntrepotSection := {
  es_source : EntrepotSourceKind;
  es_root : option string;
  es_start : NaiveDate;
  es_end : NaiveDate;
  es_bucket : option string;
  es_region : option string;
  es_requester_pays : option bool;
  es_anonymous : bool;
  es_endpoint : option string;
  es_cursor : option string;
  es_fetch_concurrency : option nat
}.

Record SyncSection := {
  sy_sync_mode : SyncMode; sy_update_frequency : UpdateFrequency; sy_flush_threshold : N
}.

Definition sy_period_us (s : SyncSection) : N := frequency_us (sy_update_frequency s).

Record ReconcileSection := {
  rs_enabled : bool; rs_emission_delay : option UpdateFrequency; rs_sweep_secs : N
}.

Definition default_sweep_secs : N := 60.

Definition rs_emission_delay_us (r : ReconcileSection) : N :=
  match rs_emission_delay r with None => 1000000 | Some f => frequency_us f end.

Record MarketWorkerConfig := {
  mc_common : CommonWorkerFields;
  mc_sync : SyncSection;
  mc_output : list OutputSinkConfig;
  mc_framework_ingest : bool;
  mc_reconcile : option ReconcileSection;
  mc_emission_delay : option UpdateFrequency;
  mc_transport : TransportKind;
  mc_entrepot : option EntrepotSection
}.

Definition market_from_legacy (c : MarketSnapshotConfig) : MarketWorkerConfig := {|
  mc_common := common_from c;
  mc_sync := {| sy_sync_mode := msc_sync_mode c; sy_update_frequency := msc_update_frequency c;
                sy_flush_threshold := msc_flush_threshold c |};
  mc_output := [SinkChannel];
  mc_framework_ingest := false;
  mc_reconcile := None;
  mc_emission_delay := None;
  mc_transport := Wss;
  mc_entrepot := None
|}.

Record MarketWorkerCollect := {
  col_exchange : string;
  col_market_type : MarketType;
  col_environment : VenueEnvironment;
  col_datatypes : DatatypesConfig;
  col_sync : SyncSection;
  col_output : list OutputSinkConfig;
  col_channel_capacity : option N;
  col_staleness_timeout_secs : option N;
  col_gap_threshold_secs : option N;
  col_reconnect : option ReconnectSection;
  col_reconcile : option ReconcileSection;
  col_emission_delay : option UpdateFrequency;
  col_framework_ingest : bool;
  col_transport : TransportKind;
  col_entrepot : option EntrepotSection
}.

Record MarketWorkerEntry := {
  me_symbol : string;
  me_exchange : option string;
  me_market_type : option MarketType;
  me_sync_mode : option SyncMode;
  me_datatypes : option DatatypesConfig;
  me_output : option (list OutputSinkConfig);
  me_framework_ingest : option bool
}.

Record MarketWorkerManifest := {
  mm_collect : MarketWorkerCollect; mm_workers : list MarketWorkerEntry
}.

Definition default_output_sinks : list OutputSinkConfig := [SinkChannel].

Definition resolve_market_entry (d : MarketWorkerCollect) (e : MarketWorkerEntry)
    : MarketWorkerConfig := {|
  mc_common := {|
    cw_exchange := default (col_exchange d) (me_exchange e);
    cw_symbol := me_symbol e;
    cw_market_type := default (col_market_type d) (me_market_type e);
    cw_environment := col_environment d;
    cw_datatypes := default (col_datatypes d) (me_datatypes e);
    cw_channel_capacity := col_channel_capacity d;
    cw_staleness_timeout_secs := col_staleness_timeout_secs d;
    cw_gap_threshold_secs := col_gap_threshold_secs d;
    cw_reconnect := col_reconnect d
  |};
  mc_sync := {|
    sy_sync_mode := default (sy_sync_mode (col_sync d)) (me_sync_mode e);
    sy_update_frequency := sy_update_frequency (col_sync d);
    sy_flush_threshold := sy_flush_threshold (col_sync d)
  |};
  mc_output := default (col_output d) (me_output e);
  mc_framework_ingest := default (col_framework_ingest d) (me_framework_ingest e);
  mc_reconcile := col_reconcile d;
  mc_emission_delay := col_emission_delay d;
  mc_transport := col_transport d;
  mc_entrepot := col_entrepot d
|}.

Definition market_resolve_all (m : MarketWorkerManifest) : list MarketWorkerConfig :=
  resolve_market_entry (mm_collect m) <$> mm_workers m.

(** ** data_worker_config.rs *)

Record DataWorkerConfig := {
  dc_common : CommonWorkerFields; dc_output : list OutputSinkConfig; dc_framework_ingest : bool
}.

Definition data_from_legacy (c : MarketSnapshotConfig) : DataWorkerConfig := {|
  dc_common := common_from c; dc_output := [SinkChannel]; dc_framework_ingest := false
|}.

Record DataWorkerCollect := {
  dcol_exchange : string;
  dcol_market_type : MarketType;
  dcol_environment : VenueEnvironment;
  dcol_datatypes : DatatypesConfig;
  dcol_output : list OutputSinkConfig;
  dcol_channel_capacity : option N;
  dcol_staleness_timeout_secs : option N;
  dcol_gap_threshold_secs : option N;
  dcol_reconnect : option ReconnectSection;
  dcol_framework_ingest : bool
}.

Record DataWorkerEntry := {
  de_symbol : string;
  de_exchange : option string;
  de_market_type : option MarketType;
  de_datatypes : option DatatypesConfig;
  de_output : option (list OutputSinkConfig);
  de_framework_ingest : option bool
}.

Record DataWorkerManifest := {
  dm_collect : DataWorkerCollect; dm_workers : list DataWorkerEntry
}.

Definition resolve_data_entry (d : DataWorkerCollect) (e : DataWorkerEntry) : DataWorkerConfig := {|
  dc_common := {|
    cw_exchange := default (dcol_exchange d) (de_exchange e);
    cw_symbol := de_symbol e;
    cw_market_type := default (dcol_market_type d) (de_market_type e);
    cw_environment := dcol_environment d;
    cw_datatypes := default (dcol_datatypes d) (de_datatypes e);
    cw_channel_capacity := dcol_channel_capacity d;
    cw_staleness_timeout_secs := dcol_staleness_timeout_secs d;
    cw_gap_threshold_secs := dcol_gap_threshold_secs d;
    cw_reconnect := dcol_reconnect d
  |};
  dc_output := default (dcol_output d) (de_output e);
  dc_framework_ingest := default (dcol_framework_ingest d) (de_framework_ingest e)
|}.

Definition data_resolve_all (m : DataWorkerManifest) : list DataWorkerConfig :=
  resolve_data_entry (dm_collect m) <$> dm_workers m.

(** ** Reading a manifest *)

Inductive ConnectError :=
| ReadError (path source : string)
| ParseError (why : string)
| ExchangeUnknown (why : string)
| BuildError (why : string)
| SinkError (why : string).

Definition ConnectError_fmt (e : ConnectError) : string :=
  match e with
  | ReadError path source => "failed to read " ++ path ++ ": " ++ source
  | ParseError why => "failed to parse worker config: " ++ why
  | ExchangeUnknown why => "unknown exchange: " ++ why
  | BuildError why => "worker build failed: " ++ why
  | SinkError why => "failed to build output sinks: " ++ why
  end%string.

(** [toml::from_str] *)
Class FromToml (A : Type) := toml_from_str : string -> Result A string.

Definition market_from_str `{FromToml MarketWorkerManifest} (text : string)
    : Result MarketWorkerManifest ConnectError :=
  map_err (fun e => ParseError ("MarketWorkerManifest: " ++ e)%string) (toml_from_str text).

Definition data_from_str `{FromToml DataWorkerManifest} (text : string)
    : Result DataWorkerManifest ConnectError :=
  map_err (fun e => ParseError ("DataWorkerManifest: " ++ e)%string) (toml_from_str text).

(** ** What a configuration means *)

(** The nanoseconds of a unit. *)
Definition unit_ns (u : TimeUnit) : N :=
  match u with Nanos => 1 | Micros => 1000 | Millis => 1000000 | Secs => 1000000000 end.

(** Unless the multiplication wraps, the period in microseconds is the configured duration
    rounded down; in particular it is zero exactly for a duration below a microsecond.
    What wraps is a value whose microseconds need more than 64 bits. *)
Theorem frequency_us_exact f :
  uf_value f * unit_ns (uf_unit f) / 1000 < u64_modulus ->
  frequency_us f = uf_value f * unit_ns (uf_unit f) / 1000.
Proof.
  unfold frequency_us, unit_ns. destruct (uf_unit f); intros H.
  - by rewrite N.mul_1_r.
  - by rewrite N.div_mul.
  - replace (uf_value f * 1000000) with (uf_value f * 1000 * 1000) in * by lia.
    rewrite N.div_mul in * by done. by apply u64_mul_small.
  - replace (uf_value f * 1000000000) with (uf_value f * 1000000 * 1000) in * by lia.
    rewrite N.div_mul in * by done. by apply u64_mul_small.
Qed.

Lemma frequency_us_exact_witness :
  frequency_us {| uf_value := 1500; uf_unit := Nanos |} = 1500 * 1 / 1000.
Proof. apply (frequency_us_exact {| uf_value := 1500; uf_unit := Nanos |}). reflexivity. Defined.

(** A duration of 584,543 years is configured, and the grid ticks every 0.448384 seconds. *)
Example frequency_us_wraps : frequency_us {| uf_value := 18446744073710; uf_unit := Secs |} = 448384.
Proof. reflexivity. Qed.

(** The two generations of the configuration agree on the grid. *)
Lemma legacy_period c : sy_period_us (mc_sync (market_from_legacy c)) = msc_period_us c.
Proof. reflexivity. Qed.

(** The names of the enabled feeds are those of the declared set, in the order of
    [DeclaredDatatype::ALL]. *)
Theorem enabled_names_declared dt :
  enabled_names dt =
  DeclaredDatatype_id <$> filter (fun d => declared_contains d (declared_set dt)) DeclaredDatatype_ALL.
Proof.
  destruct dt as [[a b c d e] n].
  destruct a, b, c, d, e; vm_compute; reflexivity.
Qed.

(** A worker of either manifest runs with the settings of its entry, and with those of the
    [collect] section where the entry says nothing; nothing else of the section is lost. *)
Lemma resolve_defaults d sym :
  let e := {| me_symbol := sym; me_exchange := None; me_market_type := None; me_sync_mode := None;
              me_datatypes := None; me_output := None; me_framework_ingest := None |} in
  mc_sync (resolve_market_entry d e) = col_sync d /\
  mc_output (resolve_market_entry d e) = col_output d.
Proof. split; [by destruct d as [? ? ? ? []]|done]. Qed.

