(* ===== verification/Launch.v ===== *)
(** * Starting the market worker

    [src/aetelier-connect/src/workers/market_worker.rs] up to the loop that [Worker] models: the
    construction from a configuration ([MarketWorker::from_config_full]), the choice of
    the path in [run], and the setup at the head of [run_framework], whose result is
    the configuration, the policy, the feeds and the synchronizer the loop starts with;
    [IngestionCore::new] of [ingestion_core.rs] with the names of its topics.

    The sinks are built by [Sinks.build_sinks].  A capacity of zero, on which tokio's channels
    panic, is left out; the assertion on the period is a panic of the model. *)
From Stdlib Require Import QArith Ascii String.
From stdpp Require Import strings pretty.
From S2P Require Import Prelude Budget Strings Numeric Pairs Types Delta Checksum Book Model Feed Runtime Snapshots MarketSync Reconcile Disconnect Reconnect Transport Drive Worker Disk Leaf Sinks SinksProps Json Venue Gaps Binance Okx Bybit Kraken Gateio Bitget Poloniex Upbit Htx Kucoin Bitso Coinbase Hyperliquid Registry Sign Codec ObjectStore Entrepot Config.
Local Open Scope string_scope.
Local Open Scope list_scope.
Local Open Scope N_scope.

(** ** ingestion_core.rs *)

Definition wss_topic_names (symbol : string) (dt : DatatypesConfig) : list string :=
  push_if (sec_orderbook (dt_section dt)) (book_topic symbol (dt_depth dt)) ++
  push_if (sec_trades (dt_section dt)) (all_topic "trade" symbol) ++
  push_if (sec_liquidations (dt_section dt)) (all_topic "liquidation" symbol) ++
  push_if (sec_funding_rates (dt_section dt)) (all_topic "funding" symbol) ++
  push_if (sec_open_interest (dt_section dt)) (all_topic "open_interest" symbol).

Record IngestionCore := {
  ic_exchange : Exchange;
  ic_common : CommonWorkerFields;
  ic_label : string;
  ic_gap_threshold : Duration;
  ic_reconnect_config : ConnectionManagerConfig;
  ic_staleness_timeout : Duration;
  ic_topics : list string
}.

Definition IngestionCore_new (c : CommonWorkerFields) : Result IngestionCore ConnectError :=
  match Exchange_from_str (cw_exchange c) with
  | Err e => Err (ExchangeUnknown e)
  | Ok ex => Ok {|
      ic_exchange := ex;
      ic_common := c;
      ic_label := (cw_exchange c ++ ":" ++ cw_symbol c)%string;
      ic_gap_threshold := cw_gap_threshold c;
      ic_reconnect_config := cw_reconnect_config c;
      ic_staleness_timeout := cw_staleness_timeout c;
      ic_topics := wss_topic_names (cw_symbol c) (cw_datatypes c)
    |}
  end.

(** ** Construction *)

Definition is_channel (c : OutputSinkConfig) : bool :=
  match c with SinkChannel => true | _ => false end.
Definition parquet_dir (c : OutputSinkConfig) : option string :=
  match c with SinkParquet dir => Some dir | _ => None end.

Definition clock_mode_of (m : SyncMode) : ClockMode :=
  match m with
  | OnOrderbook => OrderbookDriven
  | OnTrade => TradeDriven
  | OnLiquidation => LiquidationDriven
  | OnTime => ExternalClock
  end.

(** [config.reconcile.clone().filter(|r| r.enabled)] *)
Definition enabled_reconcile (c : MarketWorkerConfig) : option ReconcileSection :=
  r ← mc_reconcile c; if rs_enabled r then Some r else None.

Definition no_section : ConnectError :=
  BuildError ("transport = " ++ quoted "entrepot" ++ " requires a [collect.entrepot] section").
Definition too_fine (period : N) : ConnectError :=
  BuildError ("[collect.reconcile] requires a sync cadence of 50ms or greater (configured period is " ++
    pretty period ++ "us) — lower the update_frequency or disable reconcile").
Definition needs_framework : ConnectError :=
  BuildError "[collect.reconcile] requires framework_ingest = true (the legacy path has no sentinel to trigger it)".
Definition delay_set_twice : ConnectError :=
  BuildError "emission_delay is set at both [collect] and [collect.reconcile] — keep the one that owns the hold-back window and remove the other".

Section Launch.
Context {NU : Numeric} {UU : Uuid} {W : Type} {OW : Outside W}.

(** The hold-back of the synchronizer, or why there is none. *)
Definition hold_back (c : MarketWorkerConfig) (sync : MarketSynchronizer)
    : Result MarketSynchronizer ConnectError :=
  match enabled_reconcile c with
  | Some r =>
    if sy_period_us (mc_sync c) <? 50000 then Err (too_fine (sy_period_us (mc_sync c)))
    else if negb (mc_framework_ingest c) then Err needs_framework
    else match mc_emission_delay c with
    | Some _ => Err delay_set_twice
    | None => Ok (set_emission_delay_us (rs_emission_delay_us r) sync)
    end
  | None =>
    match mc_emission_delay c with
    | Some f => Ok (set_emission_delay_us (frequency_us f) sync)
    | None => Ok sync
    end
  end.

Record MarketWorker := {
  mw_core : IngestionCore;
  mw_sync : MarketSynchronizer;
  mw_sinks : OutputSinkSet (W:=W);
  mw_flush_threshold : N;
  mw_symbol : string;
  mw_exchange_name : string;
  mw_channel_capacity : N;
  mw_clock_mode : ClockMode;
  mw_period_us : N;
  mw_ob_depth : N;
  mw_environment : VenueEnvironment;
  mw_framework_ingest : bool;
  mw_transport : TransportKind;
  mw_entrepot : option EntrepotSection;
  mw_snapshot_channel : option SnapshotChannel;
  mw_gap_ledger : option Path;
  mw_reconcile : option ReconcileSection
}.

Definition config_ledger (c : MarketWorkerConfig) : option Path :=
  dir ← head (omap parquet_dir (mc_output c));
  Some (GapLedger_new dir (cw_exchange (mc_common c)) (cw_symbol (mc_common c))).

(** The registry and the snapshot channel of a configuration with a channel sink. *)
Definition channel_parts (c : MarketWorkerConfig) (w : W)
    : W * option (TopicRegistry * SnapshotChannel) :=
  if existsb is_channel (mc_output c) then
    let cw := mc_common c in
    let '(reg, w) := TopicRegistry_from_config (cw_symbol cw) (dt_section (cw_datatypes cw))
      (dt_depth (cw_datatypes cw)) (cw_capacity cw) w in
    let '(w, sc) := SnapshotChannel_new DEFAULT_SNAPSHOT_CHANNEL_CAPACITY w in
    (w, Some (reg, sc))
  else (w, None).

Definition from_config_full (c : MarketWorkerConfig) (flusher : option (SnapshotFlusher (W:=W)))
    (terminal_cb : option (TerminalSinkRawEvent -> W -> W))
    (flush_cb : option (BufferedSinkFlushEvent -> W -> W)) (w : W)
    : W * Unwinding (Result MarketWorker ConnectError) :=
  let period := sy_period_us (mc_sync c) in
  let mode := clock_mode_of (sy_sync_mode (mc_sync c)) in
  if period =? 0 then (w, Err "period_us must be positive")
  else if match mc_transport c, mc_entrepot c with OverEntrepot, None => true | _, _ => false end
  then (w, Ok (Err no_section))
  else match hold_back c (with_clock_mode period mode) with
  | Err e => (w, Ok (Err e))
  | Ok sync =>
    match IngestionCore_new (mc_common c) with
    | Err e => (w, Ok (Err e))
    | Ok core =>
      let '(w, ch) := channel_parts c w in
      let parts := {| sp_registry := fst <$> ch; sp_snapshots := snd <$> ch; sp_flusher := flusher;
                      sp_terminal_cb := terminal_cb; sp_flush_cb := flush_cb |} in
      match build_sinks (mc_output c) parts (declared_set (cw_datatypes (mc_common c))) w with
      | (w, Err e) => (w, Ok (Err (SinkError e)))
      | (w, Ok sinks) => (w, Ok (Ok {|
          mw_core := core;
          mw_sync := sync;
          mw_sinks := sinks;
          mw_flush_threshold := sy_flush_threshold (mc_sync c);
          mw_symbol := cw_symbol (mc_common c);
          mw_exchange_name := cw_exchange (mc_common c);
          mw_channel_capacity := cw_capacity (mc_common c);
          mw_clock_mode := mode;
          mw_period_us := period;
          mw_ob_depth := dt_depth (cw_datatypes (mc_common c));
          mw_environment := cw_environment (mc_common c);
          mw_framework_ingest := mc_framework_ingest c;
          mw_transport := mc_transport c;
          mw_entrepot := mc_entrepot c;
          mw_snapshot_channel := snd <$> ch;
          mw_gap_ledger := config_ledger c;
          mw_reconcile := enabled_reconcile c
        |}))
      end
    end
  end.

Definition with_extra_sinks (extra : OutputSinkSet (W:=W)) (m : MarketWorker) : MarketWorker := {|
  mw_core := mw_core m; mw_sync := mw_sync m; mw_sinks := mw_sinks m ++ extra;
  mw_flush_threshold := mw_flush_threshold m; mw_symbol := mw_symbol m;
  mw_exchange_name := mw_exchange_name m; mw_channel_capacity := mw_channel_capacity m;
  mw_clock_mode := mw_clock_mode m; mw_period_us := mw_period_us m; mw_ob_depth := mw_ob_depth m;
  mw_environment := mw_environment m; mw_framework_ingest := mw_framework_ingest m;
  mw_transport := mw_transport m; mw_entrepot := mw_entrepot m;
  mw_snapshot_channel := mw_snapshot_channel m; mw_gap_ledger := mw_gap_ledger m;
  mw_reconcile := mw_reconcile m
|}.

(** ** The path *)

Inductive Route := FrameworkRoute | LegacyRoute.

(** An enabled derivative is outside the set the adapter supports. *)
Definition unsupported_feeds (supported : list DeclaredDatatype) (dt : DataTypesSection) : bool :=
  (sec_liquidations dt && negb (bool_decide (DeclLiquidations ∈ supported))) ||
  (sec_funding_rates dt && negb (bool_decide (DeclFundingRates ∈ supported))) ||
  (sec_open_interest dt && negb (bool_decide (DeclOpenInterest ∈ supported))).

Definition core_datatypes (core : IngestionCore) : DatatypesConfig := cw_datatypes (ic_common core).

Definition has_seeder (a : ExchangeAdapter) : bool :=
  match rest_seeder a with Some _ => true | None => false end.

(** The head of [run]. *)
Definition market_route (reg : gmap string ExchangeAdapter) (m : MarketWorker) : Route :=
  match mw_transport m with
  | OverEntrepot => FrameworkRoute
  | Wss =>
    if mw_framework_ingest m then
      match reg !! mw_exchange_name m with
      | None => LegacyRoute
      | Some a =>
        if unsupported_feeds (supported_datatypes a) (dt_section (core_datatypes (mw_core m)))
        then LegacyRoute
        else if negb (needs_rest (book_model a "orders")) || has_seeder a then FrameworkRoute
        else LegacyRoute
      end
    else LegacyRoute
  end.

(** ** The head of [run_framework] *)

Inductive ArchiveStore := LocalStore (root : string) | BucketStore (c : S3Client).

(** [Box<dyn ExchangeAdapter>]: a venue's, or the replay of an archive. *)
Inductive IngestAdapter :=
| SocketAdapter (a : ExchangeAdapter)
| ArchiveAdapter (src : ArchiveStore) (a : HyperliquidEntrepotAdapter).

Definition ia_profile (a : IngestAdapter) : ExchangeProfile :=
  match a with SocketAdapter a => profile a | ArchiveAdapter _ _ => ENTREPOT_HYPERLIQUID_PROFILE end.
Definition ia_max_declared_depth (a : IngestAdapter) : option N :=
  match a with SocketAdapter a => max_declared_depth a | ArchiveAdapter _ _ => entrepot_max_declared_depth end.
Definition ia_supports_environment (a : IngestAdapter) : VenueEnvironment -> bool :=
  match a with SocketAdapter a => supports_environment a | ArchiveAdapter _ _ => production_only end.
Definition ia_book_model (a : IngestAdapter) : string -> ReconstructionModel :=
  match a with SocketAdapter a => book_model a | ArchiveAdapter _ _ => entrepot_book_model end.
Definition ia_seeder (a : IngestAdapter) : option RestSeeder :=
  match a with SocketAdapter a => rest_seeder a | ArchiveAdapter _ _ => None end.
Definition ia_replays_trades (a : IngestAdapter) : bool :=
  match a with SocketAdapter a => resubscribe_replays_trades a | ArchiveAdapter _ _ => false end.

(** The credentials of the environment, should they be needed. *)
Definition archive_store (s : EntrepotSection) (access secret : option string)
    : Result ArchiveStore string :=
  match es_source s with
  | SourceLocal =>
    match es_root s with
    | None => Err ("[collect.entrepot] source = " ++ quoted "local" ++ " requires root")%string
    | Some root => Ok (LocalStore root)
    end
  | SourceS3 =>
    match es_bucket s, es_region s with
    | None, _ => Err ("[collect.entrepot] source = " ++ quoted "s3" ++ " requires bucket")%string
    | Some _, None => Err ("[collect.entrepot] source = " ++ quoted "s3" ++ " requires region")%string
    | Some b, Some r =>
      if es_anonymous s then Ok (BucketStore (S3Client_new (S3Config_anonymous b r (es_endpoint s))))
      else match S3Config_from_env access secret b r with
      | Err e => Err (EntrepotError_fmt e)
      | Ok cfg => Ok (BucketStore (S3Client_new {|
          bucket := bucket cfg; region := region cfg;
          requester_pays := default true (es_requester_pays s);
          credentials := credentials cfg; endpoint := es_endpoint s |}))
      end
    end
  end.

Definition archive_adapter (m : MarketWorker) (access secret : option string)
    : Result IngestAdapter string :=
  match mw_entrepot m with
  | None => Err ("transport = " ++ quoted "entrepot" ++ " requires a [collect.entrepot] section")%string
  | Some s =>
    match archive_store s access secret with
    | Err e => Err e
    | Ok src =>
      let window := {| w_start := es_start s; w_end := es_end s; coins := [mw_symbol m] |} in
      let opts := {| eo_fetch_concurrency := default 1%nat (es_fetch_concurrency s);
                     eo_cursor := es_cursor s |} in
      match build_entrepot_adapter (mw_exchange_name m) window opts with
      | Some a => Ok (ArchiveAdapter src a)
      | None => Err ("no entrepot adapter exists for venue '" ++ mw_exchange_name m ++ "'")%string
      end
    end
  end.

Definition pick_adapter (reg : gmap string ExchangeAdapter) (m : MarketWorker)
    (access secret : option string) : Result IngestAdapter string :=
  match mw_transport m with
  | OverEntrepot => archive_adapter m access secret
  | Wss =>
    match reg !! mw_exchange_name m with
    | Some a => Ok (SocketAdapter a)
    | None => Err ("run_framework entered for unregistered venue '" ++ mw_exchange_name m ++ "'")%string
    end
  end.

Definition feed_datatype (name : string) : option FeedDatatype :=
  if String.eqb name "orderbook" then Some Orders
  else if String.eqb name "trades" then Some Trades
  else if String.eqb name "funding_rates" then Some FundingRates
  else if String.eqb name "open_interest" then Some OpenInterests
  else None.

(** One feed for each enabled datatype but liquidations. *)
Definition worker_feeds (fresh : nat -> uuid) (ex : Exchange) (pair : TradingPair) (names : list string)
    : FeedSet :=
  imap (fun i dt => Feed_new (fresh i) ex pair dt) (omap feed_datatype names).

Record FrameworkSetup := {
  fw_adapter : IngestAdapter;
  fw_pair : TradingPair;
  fw_config_depth : option N;
  fw_model : ReconstructionModel;
  fw_recovery : RecoveryAction;
  fw_seeder : option RestSeeder;
  fw_codec : SymbolCodec;
  fw_feeds : FeedSet;
  fw_policy : ReconnectPolicy;
  fw_reconciler : option (ReconcileSection * TradesRestFetch);
  fw_tick_us : N
}.

Definition cannot_decode (m : MarketWorker) : string :=
  ("cannot decode symbol " ++ mw_symbol m ++ " for " ++ mw_exchange_name m)%string.
Definition no_seeder (m : MarketWorker) : string :=
  ("venue '" ++ mw_exchange_name m ++
   "' declares a REST-seeded model but its adapter provides no rest_seeder")%string.

(** An adapter that delivers the depth, has the deployment, and can be seeded. *)
Definition admit_adapter (m : MarketWorker) (a : IngestAdapter) : Result TradingPair string :=
  match admit_declared_depth (mw_exchange_name m) (ia_max_declared_depth a)
          (sec_orderbook (dt_section (core_datatypes (mw_core m)))) (mw_ob_depth m) with
  | Err e => Err e
  | Ok _ =>
    match admit_environment (mw_exchange_name m) (ia_supports_environment a (mw_environment m))
            (mw_environment m) with
    | Err e => Err e
    | Ok _ =>
      match decode (symbol_codec (ia_profile a)) (mw_symbol m) with
      | None => Err (cannot_decode m)
      | Some pair =>
        match needs_rest (ia_book_model a "orders"), ia_seeder a with
        | true, None => Err (no_seeder m)
        | _, _ => Ok pair
        end
      end
    end
  end.

(** The outer error is a panic of the policy's builder, whose text names the two delays. *)
Definition framework_setup `{Chrono} (env : RestEnv) (reg : gmap string ExchangeAdapter)
    (access secret : option string) (fresh : nat -> uuid) (m : MarketWorker)
    : Unwinding (Result FrameworkSetup string) :=
  match pick_adapter reg m access secret with
  | Err e => Ok (Err e)
  | Ok a =>
    match admit_adapter m a with
    | Err e => Ok (Err e)
    | Ok pair =>
      let ex := match Exchange_from_str (mw_exchange_name m) with Ok e => e | Err _ => Binance end in
      match framework_reconnect_policy (cw_reconnect (ic_common (mw_core m))) with
      | None => Err "initial_delay must be <= max_delay"
      | Some policy => Ok (Ok {|
          fw_adapter := a;
          fw_pair := pair;
          fw_config_depth := if mw_ob_depth m =? 0 then None else Some (mw_ob_depth m);
          fw_model := ia_book_model a "orders";
          fw_recovery := recovery_action (ia_book_model a "orders");
          fw_seeder := ia_seeder a;
          fw_codec := symbol_codec (ia_profile a);
          fw_feeds := worker_feeds fresh ex pair (enabled_names (core_datatypes (mw_core m)));
          fw_policy := policy;
          fw_reconciler :=
            r ← mw_reconcile m;
            f ← trades_rest_fetcher env (mw_exchange_name m);
            Some (r, f);
          fw_tick_us := N.max (mw_period_us m) 1
        |})
      end
    end
  end.

(** What the loop of the worker starts with. *)
Definition loop_config (m : MarketWorker) (s : FrameworkSetup) : WorkerConfig := {|
  wc_exchange := mw_exchange_name m;
  wc_symbol := mw_symbol m;
  flush_threshold := N.to_nat (mw_flush_threshold m);
  wc_external_clock := bool_decide (mw_clock_mode m = ExternalClock);
  reconcile_active := match fw_reconciler s with Some _ => true | None => false end;
  has_ledger := match mw_gap_ledger m with Some _ => true | None => false end
|}.

Definition launch (m : MarketWorker) (s : FrameworkSetup) (shutdown : bool) (now : Instant) (wall : N)
    (append_ok flush_ok : bool) : Worker :=
  worker_start (loop_config m s) (mw_sync m) (fw_policy s) (fw_feeds s)
    (ia_replays_trades (fw_adapter s)) shutdown now wall append_ok flush_ok.
End Launch.

(** ** What is accepted *)

Section Accepted.
Context {NU : Numeric} {W : Type} {OW : Outside W}.

(** Reconciliation needs a cadence of 50 ms, the framework engine, and the hold-back to
    itself. *)
Definition reconcile_fits (c : MarketWorkerConfig) : Prop :=
  forall r, enabled_reconcile c = Some r ->
    50000 <= sy_period_us (mc_sync c) /\ mc_framework_ingest c = true /\ mc_emission_delay c = None.

Record acceptable (c : MarketWorkerConfig) (has_flusher : bool) : Prop := {
  ok_period : 0 < sy_period_us (mc_sync c);
  ok_section : mc_transport c = OverEntrepot -> is_Some (mc_entrepot c);
  ok_reconcile : reconcile_fits c;
  ok_exchange : exists e, Exchange_from_str (cw_exchange (mc_common c)) = Ok e;
  ok_sinks : (parquet_count (mc_output c) <= if has_flusher then 1 else 0)%nat
}.

(** The hold-back window of a configuration, in microseconds. *)
Definition window_of (c : MarketWorkerConfig) : N :=
  match enabled_reconcile c, mc_emission_delay c with
  | Some r, _ => rs_emission_delay_us r
  | None, Some f => frequency_us f
  | None, None => 0
  end.

Lemma hold_back_spec c sync :
  match hold_back c sync with
  | Ok s => reconcile_fits c /\
      (emission_delay_us sync = 0 -> s = set_emission_delay_us (window_of c) sync)
  | Err _ => ~ reconcile_fits c
  end.
Proof.
  unfold hold_back, reconcile_fits, window_of.
  destruct (enabled_reconcile c) as [r|].
  - destruct (N.ltb_spec (sy_period_us (mc_sync c)) 50000).
    { intros H'. destruct (H' r eq_refl). lia. }
    destruct (mc_framework_ingest c); simpl; [|intros H'; by destruct (H' r eq_refl) as (_ & ? & _)].
    destruct (mc_emission_delay c); [intros H'; by destruct (H' r eq_refl) as (_ & _ & ?)|].
    split; [|done]. intros ? [= <-]. done.
  - destruct (mc_emission_delay c); (split; [done|]); [done|].
    intros H0. destruct sync. simpl in *. by rewrite H0.
Qed.

(** The worker a construction gives. *)
Record built_from (c : MarketWorkerConfig) (m : MarketWorker (W:=W)) : Prop := {
  bf_sync : mw_sync m = set_emission_delay_us (window_of c)
    (with_clock_mode (sy_period_us (mc_sync c)) (clock_mode_of (sy_sync_mode (mc_sync c))));
  bf_period : mw_period_us m = sy_period_us (mc_sync c);
  bf_mode : mw_clock_mode m = clock_mode_of (sy_sync_mode (mc_sync c));
  bf_common : ic_common (mw_core m) = mc_common c;
  bf_exchange : mw_exchange_name m = cw_exchange (mc_common c);
  bf_symbol : mw_symbol m = cw_symbol (mc_common c);
  bf_depth : mw_ob_depth m = dt_depth (cw_datatypes (mc_common c));
  bf_environment : mw_environment m = cw_environment (mc_common c);
  bf_framework : mw_framework_ingest m = mc_framework_ingest c;
  bf_transport : mw_transport m = mc_transport c;
  bf_entrepot : mw_entrepot m = mc_entrepot c;
  bf_reconcile : mw_reconcile m = enabled_reconcile c;
  bf_ledger : mw_gap_ledger m = config_ledger c;
  bf_sinks : sink_names (mw_sinks m) =
    expected_sinks (mc_output c) (existsb is_channel (mc_output c));
  bf_snapshots : has (mw_snapshot_channel m) = existsb is_channel (mc_output c)
}.

Definition is_ok_ok {A B C} (r : Result (Result A B) C) : bool :=
  match r with Ok (Ok _) => true | _ => false end.

Lemma channel_parts_spec c (w : W) :
  has (channel_parts c w).2 = existsb is_channel (mc_output c).
Proof.
  unfold channel_parts. destruct (existsb is_channel (mc_output c)); [|done].
  destruct (TopicRegistry_from_config _ _ _ _ w) as [reg w1].
  by destruct (SnapshotChannel_new _ w1) as [w2 sc].
Qed.

(** Exactly the acceptable configurations become workers, which carry the settings of the
    configuration; nothing is downgraded.  A period of zero is a panic, everything else an
    error. *)
Theorem construction_exact c flusher tcb fcb (w : W) :
  match (from_config_full c flusher tcb fcb w).2 with
  | Ok (Ok m) => acceptable c (has flusher) /\ built_from c m
  | Ok (Err _) => 0 < sy_period_us (mc_sync c) /\ ~ acceptable c (has flusher)
  | Err _ => sy_period_us (mc_sync c) = 0
  end.
Proof.
  unfold from_config_full.
  destruct (N.eqb_spec (sy_period_us (mc_sync c)) 0) as [|Hp]; [done|].
  assert (Hpos : 0 < sy_period_us (mc_sync c)) by lia.
  destruct (match mc_transport c, mc_entrepot c with OverEntrepot, None => true | _, _ => false end) eqn:Et.
  { simpl. split; [done|]. intros [_ H _ _ _].
    destruct (mc_transport c); [done|]. destruct (mc_entrepot c); [done|].
    by destruct (H eq_refl). }
  assert (Hs : mc_transport c = OverEntrepot -> is_Some (mc_entrepot c)).
  { intros E. rewrite E in Et. destruct (mc_entrepot c); [by eexists|done]. }
  pose proof (hold_back_spec c (with_clock_mode (sy_period_us (mc_sync c))
    (clock_mode_of (sy_sync_mode (mc_sync c))))) as Hh.
  destruct (hold_back c _) as [sync|e]; [|simpl; split; [done|intros []; done]].
  destruct Hh as [Hr Hsync]. unfold IngestionCore_new.
  destruct (Exchange_from_str (cw_exchange (mc_common c))) as [ex|e] eqn:Ee.
  2:{ simpl. split; [done|]. intros [_ _ _ [e' H] _]. congruence. }
  pose proof (channel_parts_spec c w) as Hc.
  destruct (channel_parts c w) as [w1 ch]. simpl in Hc.
  match goal with |- context [build_sinks (mc_output c) ?p ?d w1] =>
    pose proof (build_sinks_exact (mc_output c) p d w1) as Hb;
    destruct (build_sinks (mc_output c) p d w1) as [w2 [set|e]]; simpl in Hb
  end; simpl.
  - destruct Hb as [Hn Hb]. split.
    + split; [done|done|done|by exists ex|by destruct flusher].
    + split; try done; simpl; [by apply Hsync| |by destruct ch].
      rewrite Hb. f_equal. rewrite <-Hc. by destruct ch.
  - split; [done|]. intros [_ _ _ _ H]. destruct flusher; simpl in *; lia.
Qed.

(** ** The path taken *)

Context {UU : Uuid}.
Implicit Types m : MarketWorker (W:=W).

(** What a venue must deliver for a worker of the socket transport. *)
Record fits (a : ExchangeAdapter) m (pair : TradingPair) : Prop := {
  fit_depth : sec_orderbook (dt_section (core_datatypes (mw_core m))) = true ->
    forall cap, max_declared_depth a = Some cap -> mw_ob_depth m <= cap;
  fit_environment : supports_environment a (mw_environment m) = true;
  fit_symbol : decode (symbol_codec (profile a)) (mw_symbol m) = Some pair
}.

Lemma admit_declared_depth_ok venue cap on declared :
  is_ok (admit_declared_depth venue cap on declared) = true <->
  (on = true -> forall n, cap = Some n -> declared <= n).
Proof.
  unfold admit_declared_depth. destruct on; [|done]. destruct cap as [n|]; simpl; [|naive_solver].
  destruct (N.ltb_spec n declared); simpl; [|naive_solver].
  split; [done|]. intros H'. specialize (H' eq_refl n eq_refl). lia.
Qed.

Lemma admit_environment_ok venue supported e :
  is_ok (admit_environment venue supported e) = supported.
Proof. unfold admit_environment. by destruct supported. Qed.

Lemma admit_adapter_ok m a pair :
  (needs_rest (book_model a "orders") = true -> is_Some (rest_seeder a)) ->
  admit_adapter m (SocketAdapter a) = Ok pair <-> fits a m pair.
Proof.
  intros Hseed. unfold admit_adapter. simpl.
  pose proof (admit_declared_depth_ok (mw_exchange_name m) (max_declared_depth a)
    (sec_orderbook (dt_section (core_datatypes (mw_core m)))) (mw_ob_depth m)) as Hd.
  destruct (admit_declared_depth _ _ _ _) as [?|e]; simpl in Hd.
  2:{ split; [done|]. intros [H _ _]. exfalso. by apply Hd in H. }
  pose proof (admit_environment_ok (mw_exchange_name m)
    (supports_environment a (mw_environment m)) (mw_environment m)) as He.
  destruct (admit_environment _ _ _) as [?|e]; simpl in He.
  2:{ split; [done|]. intros [_ H _]. congruence. }
  destruct (decode _ _) as [p|] eqn:Ep; [|split; [done|intros [_ _ H]; congruence]].
  assert (match needs_rest (book_model a "orders"), rest_seeder a with
          | true, None => Err (no_seeder m) | _, _ => Ok p end = Ok p) as ->.
  { destruct (needs_rest _); [|done]. by destruct (Hseed eq_refl) as [? ->]. }
  split; [intros [= <-]|intros [_ _ H]; congruence].
  split; [by apply Hd|done|done].
Qed.

Lemma unsupported_feeds_spec supported dt :
  unsupported_feeds supported dt = false <->
  forall d, d ∈ [DeclLiquidations; DeclFundingRates; DeclOpenInterest] ->
    declared_contains d (from_section dt) = true -> d ∈ supported.
Proof.
  unfold unsupported_feeds.
  assert (Hl : declared_contains DeclLiquidations (from_section dt) = sec_liquidations dt)
    by (destruct dt as [[] [] [] [] []]; reflexivity).
  assert (Hf : declared_contains DeclFundingRates (from_section dt) = sec_funding_rates dt)
    by (destruct dt as [[] [] [] [] []]; reflexivity).
  assert (Ho : declared_contains DeclOpenInterest (from_section dt) = sec_open_interest dt)
    by (destruct dt as [[] [] [] [] []]; reflexivity).
  rewrite !orb_false_iff, !andb_false_iff, !negb_false_iff, !bool_decide_eq_true. split.
  - intros [[H1 H2] H3] d Hd. rewrite !elem_of_cons, elem_of_nil in Hd.
    destruct Hd as [->|[->|[->|[]]]]; rewrite ?Hl, ?Hf, ?Ho; intros E;
      [destruct H1|destruct H2|destruct H3]; congruence.
  - intros H.
    assert (forall d b, d ∈ [DeclLiquidations; DeclFundingRates; DeclOpenInterest] ->
      declared_contains d (from_section dt) = b -> b = false \/ d ∈ supported) as Hd.
    { intros d [] Hin E; [right; by apply H|by left]. }
    split_and!; eapply Hd; try eassumption; set_solver.
Qed.

Lemma socket_route reg m a :
  mw_transport m = Wss -> reg !! mw_exchange_name m = Some a ->
  (needs_rest (book_model a "orders") = true -> is_Some (rest_seeder a)) ->
  market_route reg m = FrameworkRoute <->
  mw_framework_ingest m = true /\
  unsupported_feeds (supported_datatypes a) (dt_section (core_datatypes (mw_core m))) = false.
Proof.
  intros Ht Ha Hseed. unfold market_route. rewrite Ht, Ha.
  assert (negb (needs_rest (book_model a "orders")) || has_seeder a = true) as ->.
  { destruct (needs_rest _); [|done]. unfold has_seeder. by destruct (Hseed eq_refl) as [? ->]. }
  destruct (mw_framework_ingest m), (unsupported_feeds _ _); naive_solver.
Qed.

(** A worker that takes the framework path over sockets never fails for want of an adapter
    or of a seeder. *)
Lemma routed_adapter reg m :
  mw_transport m = Wss -> market_route reg m = FrameworkRoute ->
  exists a, reg !! mw_exchange_name m = Some a /\
    (needs_rest (book_model a "orders") = true -> is_Some (rest_seeder a)).
Proof.
  intros Ht. unfold market_route. rewrite Ht. destruct (mw_framework_ingest m); [|done].
  destruct (reg !! mw_exchange_name m) as [a|]; [|done]. intros H. exists a. split; [done|].
  destruct (unsupported_feeds _ _); [done|]. intros Hn. rewrite Hn in H. simpl in H.
  unfold has_seeder in H. destruct (rest_seeder a); [by eexists|done].
Qed.

(** The setup of a routed worker: it succeeds exactly when the venue fits and the delays of
    the policy are in order. *)
Definition delays_ordered m : Prop :=
  is_Some (framework_reconnect_policy (cw_reconnect (ic_common (mw_core m)))).

Lemma routed_setup `{Chrono} env reg access secret fresh m :
  mw_transport m = Wss -> market_route reg m = FrameworkRoute ->
  exists a, reg !! mw_exchange_name m = Some a /\
  match framework_setup env reg access secret fresh m with
  | Ok (Ok s) => fw_adapter s = SocketAdapter a /\ fits a m (fw_pair s) /\ delays_ordered m /\
      (needs_rest (fw_model s) = true -> is_Some (fw_seeder s)) /\
      fw_feeds s = worker_feeds fresh (match Exchange_from_str (mw_exchange_name m) with
                                       | Ok e => e | Err _ => Binance end)
        (fw_pair s) (enabled_names (core_datatypes (mw_core m)))
  | Ok (Err _) => forall pair, ~ fits a m pair
  | Err _ => ~ delays_ordered m
  end.
Proof.
  intros Ht Hr. destruct (routed_adapter reg m Ht Hr) as (a & Ha & Hseed). exists a. split; [done|].
  unfold framework_setup, pick_adapter. rewrite Ht, Ha.
  destruct (admit_adapter m (SocketAdapter a)) as [pair|e] eqn:Ead.
  - unfold delays_ordered. destruct (framework_reconnect_policy _) as [p|].
    + simpl. split_and!; [done|by apply admit_adapter_ok|by eexists|exact Hseed|done].
    + simpl. by intros [? ?].
  - intros pair Hf. apply (admit_adapter_ok m a pair Hseed) in Hf. congruence.
Qed.
End Accepted.

(** ** The feeds *)

Lemma worker_feeds_datatypes {UU : Uuid} (fresh : nat -> uuid) ex pair names :
  datatype <$> worker_feeds fresh ex pair names = omap feed_datatype names.
Proof.
  unfold worker_feeds. rewrite fmap_imap. unfold compose. simpl.
  generalize (omap feed_datatype names). intros l. revert fresh.
  induction l as [|d l IH]; intros fresh; [done|].
  rewrite imap_cons. f_equal. apply (IH (fun i => fresh (S i))).
Qed.

(** The feeds of a worker: one for each declared datatype the framework delivers. *)
Lemma feeds_of_datatypes dt :
  NoDup (omap feed_datatype (enabled_names dt)) /\
  forall f, f ∈ omap feed_datatype (enabled_names dt) <->
    exists d, declared_contains d (declared_set dt) = true /\ feed_datatype (DeclaredDatatype_id d) = Some f.
Proof.
  rewrite enabled_names_declared. unfold declared_set. destruct dt as [s n]. cbn [dt_section].
  split.
  - apply (bool_decide_unpack _). destruct s as [[] [] [] [] []]; vm_compute; reflexivity.
  - intros f. rewrite list_elem_of_omap. setoid_rewrite list_elem_of_fmap.
    setoid_rewrite list_elem_of_filter. split.
    + intros (name & (d & -> & Hd & _) & Hf). exists d. split; [|done]. by destruct (declared_contains d _).
    + intros (d & Hd & Hf). exists (DeclaredDatatype_id d). split; [|done]. exists d.
      split_and!; [done|by rewrite Hd|]. unfold DeclaredDatatype_ALL. destruct d; set_solver.
Qed.

(** ** The registered venues *)

Section Registered.
Context {NU : Numeric} {SJ : SerdeJson} {FT : FloatText} {CH : Chrono}.
Context {W1 : BinanceWire} {W2 : OkxWire} {W3 : BybitWire} {W4 : KrakenWire} {W5 : GateioWire}.
Context {W6 : BitgetWire} {W7 : PoloniexWire} {W8 : UpbitWire} {W9 : HtxWire} {W10 : KucoinWire}.
Context {W11 : BitsoWire} {W12 : CoinbaseWire} {W13 : HyperliquidWire}.
Context (secs : nat -> N) (ping_at : N) (connect_id : string) (bullet : Result string string).
Context (now_at : nat -> Instant) (jitter_at : nat -> N).
Context {UU : Uuid} {W : Type} {OW : Outside W}.

Let venues := registry secs ping_at connect_id bullet now_at jitter_at.
Let adapters := register_all secs ping_at connect_id bullet now_at jitter_at.

(** Every venue whose model is seeded over REST has a seeder. *)
Lemma registered_seeded a :
  a ∈ adapters -> needs_rest (book_model a "orders") = true -> is_Some (rest_seeder a).
Proof.
  assert (H : Forall (fun a => needs_rest (book_model a "orders") = true -> is_Some (rest_seeder a))
    adapters); [|by rewrite Forall_forall in H; apply H].
  unfold adapters, register_all.
  repeat (apply Forall_cons_2; [intros H; first [discriminate H|eexists; reflexivity]|]).
  apply Forall_nil_2.
Qed.

(** C30: From a configuration to the loop.  For a worker built from an accepted configuration that
    runs over the sockets of a registered venue: it takes the framework path exactly when the
    flag is set and the venue delivers every derivative that is enabled; and on that path its
    setup succeeds exactly when the venue fits (the depth, the deployment, the symbol) and
    the delays of the policy are in order, with a seeder wherever the model needs one and a
    feed for each declared datatype the framework delivers. *)
Theorem configured_start env access secret fresh c (m : MarketWorker (W:=W)) a :
  built_from c m -> mc_transport c = Wss -> a ∈ adapters -> venue_id a = cw_exchange (mc_common c) ->
  (market_route venues m = FrameworkRoute <->
   mc_framework_ingest c = true /\
   forall d, d ∈ [DeclLiquidations; DeclFundingRates; DeclOpenInterest] ->
     declared_contains d (declared_set (cw_datatypes (mc_common c))) = true -> d ∈ supported_datatypes a) /\
  (market_route venues m = FrameworkRoute ->
   match framework_setup env venues access secret fresh m with
   | Ok (Ok s) => fw_adapter s = SocketAdapter a /\ fits a m (fw_pair s) /\ delays_ordered m /\
       (needs_rest (fw_model s) = true -> is_Some (fw_seeder s)) /\
       NoDup (datatype <$> fw_feeds s) /\
       forall f, f ∈ datatype <$> fw_feeds s <->
         exists d, declared_contains d (declared_set (cw_datatypes (mc_common c))) = true /\
           feed_datatype (DeclaredDatatype_id d) = Some f
   | Ok (Err _) => forall pair, ~ fits a m pair
   | Err _ => ~ delays_ordered m
   end).
Proof.
  intros Hb Ht Ha Hid.
  assert (Hlook : venues !! mw_exchange_name m = Some a).
  { unfold venues. rewrite registry_lookup. by rewrite (bf_exchange _ _ Hb). }
  assert (Hdt : core_datatypes (mw_core m) = cw_datatypes (mc_common c)).
  { unfold core_datatypes. by rewrite (bf_common _ _ Hb). }
  assert (Hm : mw_transport m = Wss) by (by rewrite (bf_transport _ _ Hb)).
  split.
  - rewrite (socket_route venues m a Hm Hlook (registered_seeded a Ha)).
    by rewrite unsupported_feeds_spec, Hdt, (bf_framework _ _ Hb).
  - intros Hr. destruct (routed_setup env venues access secret fresh m Hm Hr) as (a' & Ha' & Hs).
    assert (a' = a) as -> by congruence.
    destruct (framework_setup _ _ _ _ _ _) as [[s|e]|p]; [|done..].
    destruct Hs as (H1 & H2 & H3 & H4 & ->). split_and!; try done.
    + rewrite worker_feeds_datatypes, Hdt. apply feeds_of_datatypes.
    + intros f. rewrite worker_feeds_datatypes, Hdt. apply feeds_of_datatypes.
Qed.

(** The silent downgrade: an accepted configuration with reconciliation, whose worker takes
    the path that has none as soon as it runs, while its rows are still held back. *)
Theorem reconcile_downgraded c (m : MarketWorker (W:=W)) :
  built_from c m -> mc_transport c = Wss -> cw_exchange (mc_common c) = "kraken" ->
  sec_liquidations (dt_section (cw_datatypes (mc_common c))) = true ->
  market_route venues m = LegacyRoute /\
  (is_Some (mw_reconcile m) -> emission_delay_us (mw_sync m) = window_of c).
Proof.
  intros Hb Ht Hx Hl. split.
  - destruct (market_route venues m) eqn:Hr; [|done]. exfalso.
    assert (Hlook : venues !! mw_exchange_name m = Some KRAKEN).
    { unfold venues. rewrite registry_lookup, (bf_exchange _ _ Hb), Hx. split; [|done].
      unfold register_all. set_solver. }
    assert (Hm : mw_transport m = Wss) by (by rewrite (bf_transport _ _ Hb)).
    apply (socket_route venues m KRAKEN Hm Hlook) in Hr as [_ Hu]; [|done].
    unfold unsupported_feeds, core_datatypes in Hu. rewrite (bf_common _ _ Hb), Hl in Hu. done.
  - intros _. by rewrite (bf_sync _ _ Hb).
Qed.
End Registered.

(** ** Examples *)

Section Examples.
Local Existing Instances decimal_numeric shop_outside toy_json toy_floats toy_dates rejected.
Local Existing Instances w1 w2 w3 w4 w5 w6 w7 w8 w9 w10 w11 w12 w13.
#[local] Instance count_uuid : Uuid := {| uuid := nat; uuid_fmt _ := "" |}.

Definition ex_common (exchange symbol : string) (liquidations : bool) : CommonWorkerFields := {|
  cw_exchange := exchange; cw_symbol := symbol; cw_market_type := Spot; cw_environment := Production;
  cw_datatypes := {|
    dt_section := {| sec_orderbook := true; sec_trades := true; sec_liquidations := liquidations;
                     sec_funding_rates := false; sec_open_interest := false |};
    dt_depth := 50 |};
  cw_channel_capacity := None; cw_staleness_timeout_secs := None; cw_gap_threshold_secs := None;
  cw_reconnect := None
|}.

Definition ex_market (exchange symbol : string) (liquidations : bool) : MarketWorkerConfig := {|
  mc_common := ex_common exchange symbol liquidations;
  mc_sync := {| sy_sync_mode := OnTime; sy_update_frequency := {| uf_value := 100; uf_unit := Millis |};
                sy_flush_threshold := 600 |};
  mc_output := [SinkChannel; SinkTerminal];
  mc_framework_ingest := true;
  mc_reconcile := Some {| rs_enabled := true; rs_emission_delay := None; rs_sweep_secs := 60 |};
  mc_emission_delay := None; mc_transport := Wss; mc_entrepot := None
|}.

Definition ex_build (c : MarketWorkerConfig) : option (MarketWorker (W:=ShopWorld)) :=
  match (from_config_full c None None None (0%nat, [])).2 with Ok (Ok m) => Some m | _ => None end.

Lemma ex_built c m : ex_build c = Some m -> built_from c m.
Proof.
  unfold ex_build. intros E. pose proof (construction_exact c None None None (0%nat, [] : list MarketSnapshot)) as H.
  destruct (from_config_full _ _ _ _ _) as [w [[m'|e]|p]]; simpl in *; try done.
  injection E as <-. apply H.
Qed.

Lemma ex_builds c : has (ex_build c) = true -> exists m, ex_build c = Some m.
Proof. destruct (ex_build c) as [m|]; [by exists m|done]. Qed.

Definition fresh_count : nat -> uuid (Uuid := count_uuid) := fun i => i.

Definition toy_registry : gmap string ExchangeAdapter :=
  registry (fun _ => 0) 0 "id" (Err "offline"%string) (fun _ => 0) (fun _ => 2).

Lemma kraken_registered : KRAKEN ∈ toy_venues.
Proof. unfold toy_venues, register_all. set_solver. Qed.

Definition no_rest : RestEnv := {|
  get_binance _ _ := RequestFailed "offline";
  get_bitso _ _ := RequestFailed "offline";
  get_coinbase _ _ := RequestFailed "offline";
  unix_seconds _ := 0
|}.

(** Books and trades of Kraken over the framework: two feeds. *)
Lemma configured_start_witness : exists m s,
  ex_build (ex_market "kraken" "BTC/USD" false) = Some m /\
  market_route toy_registry m = FrameworkRoute /\
  framework_setup no_rest toy_registry None None fresh_count m = Ok (Ok s) /\
  fits KRAKEN m (fw_pair s) /\ NoDup (datatype <$> fw_feeds s).
Proof.
  destruct (ex_builds (ex_market "kraken" "BTC/USD" false)) as [m E]; [vm_compute; reflexivity|].
  pose proof (ex_built _ _ E) as Hb.
  destruct (configured_start (fun _ => 0) 0 "id" (Err "offline"%string) (fun _ => 0) (fun _ => 2)
    no_rest None None fresh_count _ m KRAKEN Hb eq_refl kraken_registered eq_refl) as [[_ Hr] Hs].
  assert (Hroute : market_route toy_registry m = FrameworkRoute).
  { apply Hr. split; [done|]. intros d Hd Hon.
    rewrite !elem_of_cons, elem_of_nil in Hd.
    destruct Hd as [->|[->|[->|[]]]]; vm_compute in Hon; discriminate Hon. }
  specialize (Hs Hroute). fold toy_registry in Hs.
  assert (Hf : fits KRAKEN m (Build_TradingPair "BTC" "USD")).
  { split; [done| |].
    - by rewrite (bf_environment _ _ Hb).
    - rewrite (bf_symbol _ _ Hb). vm_compute. reflexivity. }
  assert (Hd : delays_ordered m).
  { unfold delays_ordered. rewrite (bf_common _ _ Hb). by eexists. }
  destruct (framework_setup no_rest toy_registry None None fresh_count m) as [[s|e]|p] eqn:Es.
  - destruct Hs as (_ & Hf' & _ & _ & Hn & _). by exists m, s.
  - by destruct (Hs _ Hf).
  - by destruct (Hs Hd).
Defined.

(** Liquidations are enabled as well: the worker is accepted with its reconciliation, and
    runs without it, a second behind. *)
Lemma reconcile_downgraded_witness : exists m,
  ex_build (ex_market "kraken" "BTC/USD" true) = Some m /\ is_Some (mw_reconcile m) /\
  market_route toy_registry m = LegacyRoute /\ emission_delay_us (mw_sync m) = 1000000.
Proof.
  destruct (ex_builds (ex_market "kraken" "BTC/USD" true)) as [m E]; [vm_compute; reflexivity|].
  pose proof (ex_built _ _ E) as Hb. exists m.
  assert (Hs : is_Some (mw_reconcile m)) by (rewrite (bf_reconcile _ _ Hb); by eexists).
  destruct (reconcile_downgraded (fun _ => 0) 0 "id" (Err "offline"%string) (fun _ => 0) (fun _ => 2)
    _ m Hb eq_refl eq_refl eq_refl) as [Hr Hw].
  split_and!; [done|done|exact Hr|]. rewrite (Hw Hs). reflexivity.
Defined.

(** A period below a microsecond passes for zero, and panics. *)
Example fine_period_panics :
  (from_config_full {|
     mc_common := ex_common "kraken" "BTC/USD" false;
     mc_sync := {| sy_sync_mode := OnTime; sy_update_frequency := {| uf_value := 999; uf_unit := Nanos |};
                   sy_flush_threshold := 600 |};
     mc_output := [SinkChannel]; mc_framework_ingest := true; mc_reconcile := None;
     mc_emission_delay := None; mc_transport := Wss; mc_entrepot := None |}
    None None None (0%nat, [] : list MarketSnapshot)).2 = Err "period_us must be positive".
Proof. reflexivity. Qed.
End Examples.
