(* ===== verification/DataWorker.v ===== *)
(** * The data worker

    [src/aetelier-connect/src/workers/data_worker.rs]: the construction from a configuration, the
    choice of the path, and the framework path [run_framework] as a step function: the
    adapter's task with the bounded channel between it and the worker, the worker's loop over
    the events, commands and the shutdown, and the reconnection with its backoff.

    The adapter is the drive loop of [Drive]: what it forwards is an input, but a send on a full
    channel parks it, as [tx.send(de).await] does inside an arm of its [select!]: a parked
    adapter looks neither at its socket nor at the shutdown.  The shutdown goes from false to
    true once.  The counters are those the worker itself moves.  The legacy path, [run_legacy] and the status messages are not modelled. *)
From Stdlib Require Import QArith Ascii String.
From stdpp Require Import strings pretty.
From S2P Require Import Prelude Budget Strings Numeric Pairs Types Delta Checksum Book Model Feed Runtime Snapshots MarketSync Reconcile Disconnect Reconnect Transport Drive Worker Disk Leaf Sinks SinksProps Json Venue Gaps Binance Okx Bybit Kraken Gateio Bitget Poloniex Upbit Htx Kucoin Bitso Coinbase Hyperliquid Registry Sign Codec ObjectStore Entrepot Config Launch.
Local Open Scope string_scope.
Local Open Scope list_scope.
Local Open Scope N_scope.

(** ** Construction *)

Section Construction.
Context {NU : Numeric} {W : Type} {OW : Outside W}.

Record DataWorker := {
  dw_core : IngestionCore;
  dw_sinks : OutputSinkSet (W:=W);
  dw_channel_capacity : N;
  dw_framework_ingest : bool;
  dw_domain_registry : option TopicRegistry
}.

(** The channel entries are stripped on the framework path. *)
Definition raw_output (framework : bool) (outs : list OutputSinkConfig) : list OutputSinkConfig :=
  if framework then List.filter (fun c => negb (is_channel c)) outs else outs.

Definition raw_registry (c : DataWorkerConfig) (w : W) : option TopicRegistry * W :=
  let cw := dc_common c in
  if existsb is_channel (dc_output c) && negb (dc_framework_ingest c) then
    let '(r, w) := TopicRegistry_from_config (cw_symbol cw) (dt_section (cw_datatypes cw))
      (dt_depth (cw_datatypes cw)) (cw_capacity cw) w in (Some r, w)
  else (None, w).

Definition data_from_config (c : DataWorkerConfig)
    (terminal_cb : option (TerminalSinkRawEvent -> W -> W)) (w : W)
    : W * Result DataWorker ConnectError :=
  let cw := dc_common c in
  match IngestionCore_new cw with
  | Err e => (w, Err e)
  | Ok core =>
    let '(reg, w) := raw_registry c w in
    let parts := {| sp_registry := reg; sp_snapshots := None; sp_flusher := None;
                    sp_terminal_cb := terminal_cb; sp_flush_cb := None |} in
    match build_sinks (raw_output (dc_framework_ingest c) (dc_output c)) parts
            (declared_set (cw_datatypes cw)) w with
    | (w, Err e) => (w, Err (SinkError e))
    | (w, Ok sinks) =>
      if dc_framework_ingest c && existsb is_channel (dc_output c) then
        let '(r, w) := DomainTopicRegistry_from_config (cw_symbol cw) (dt_section (cw_datatypes cw))
          (dt_depth (cw_datatypes cw)) (cw_capacity cw) w in
        (w, Ok {| dw_core := core;
                  dw_sinks := sinks ++ [box_sink (DomainChannelSink_new r (cw_exchange cw))];
                  dw_channel_capacity := cw_capacity cw;
                  dw_framework_ingest := true; dw_domain_registry := Some r |})
      else
        (w, Ok {| dw_core := core; dw_sinks := sinks; dw_channel_capacity := cw_capacity cw;
                  dw_framework_ingest := dc_framework_ingest c; dw_domain_registry := None |})
    end
  end.

(** [DataWorker::new], which expects a known exchange. *)
Definition data_new (c : MarketSnapshotConfig) : Unwinding DataWorker :=
  match IngestionCore_new (common_from c) with
  | Err e => Err "legacy MarketSnapshotConfig should always produce a valid IngestionCore"
  | Ok core => Ok {|
      dw_core := core; dw_sinks := []; dw_channel_capacity := cw_capacity (common_from c);
      dw_framework_ingest := false; dw_domain_registry := None |}
  end.

Definition build_registry (d : DataWorker) (w : W) : TopicRegistry * W :=
  let cw := ic_common (dw_core d) in
  TopicRegistry_from_config (cw_symbol cw) (dt_section (cw_datatypes cw)) (dt_depth (cw_datatypes cw))
    (dw_channel_capacity d) w.

Definition use_framework_path (reg : gmap string ExchangeAdapter) (d : DataWorker) : bool :=
  if dw_framework_ingest d then
    match reg !! cw_exchange (ic_common (dw_core d)) with
    | None => false
    | Some a => negb (unsupported_feeds (supported_datatypes a)
                        (dt_section (core_datatypes (dw_core d))))
    end
  else false.

(** The head of [run_framework], which expects a registered venue: the outer error. *)
Definition data_setup (reg : gmap string ExchangeAdapter) (d : DataWorker)
    : Unwinding (Result (ExchangeAdapter * TradingPair) string) :=
  let cw := ic_common (dw_core d) in
  match reg !! cw_exchange cw with
  | None => Err "run_framework only entered for a registered venue"
  | Some a =>
    Ok match admit_declared_depth (cw_exchange cw) (max_declared_depth a)
               (sec_orderbook (dt_section (cw_datatypes cw))) (dt_depth (cw_datatypes cw)) with
    | Err e => Err e
    | Ok _ =>
      match admit_environment (cw_exchange cw) (supports_environment a (cw_environment cw))
              (cw_environment cw) with
      | Err e => Err e
      | Ok _ =>
        match decode (symbol_codec (profile a)) (cw_symbol cw) with
        | Some pair => Ok (a, pair)
        | None => Err ("cannot decode symbol " ++ cw_symbol cw ++ " for " ++ cw_exchange cw)%string
        end
      end
    end
  end.

(** The expectation always holds. *)
Lemma data_setup_expects reg d :
  use_framework_path reg d = true -> exists r, data_setup reg d = Ok r.
Proof.
  unfold use_framework_path, data_setup. destruct (dw_framework_ingest d); [|done].
  destruct (reg !! _); [by eexists|done].
Qed.
End Construction.

(** ** The topics *)

Section Topics.
Context {NU : Numeric}.

Record DomainTopics := {
  ob_topic : option string; trade_topic : option string;
  funding_topic : option string; oi_topic : option string
}.

(** [enabled.then(|| topic)] *)
Definition topic_if (on : bool) (topic : string) : option string := if on then Some topic else None.

Definition domain_topics (symbol : string) (dt : DatatypesConfig) : DomainTopics := {|
  ob_topic := topic_if (sec_orderbook (dt_section dt)) (book_topic symbol (dt_depth dt));
  trade_topic := topic_if (sec_trades (dt_section dt)) (all_topic "trade" symbol);
  funding_topic := topic_if (sec_funding_rates (dt_section dt)) (all_topic "funding" symbol);
  oi_topic := topic_if (sec_open_interest (dt_section dt)) (all_topic "open_interest" symbol)
|}.

Definition domain_topic_of (t : DomainTopics) (ev : DomainEvent) : option string :=
  match ev with
  | Book _ => ob_topic t
  | TradeEvent _ _ => trade_topic t
  | FundingRateEvent _ | FundingSettlementEvent _ => funding_topic t
  | OpenInterestEvent _ => oi_topic t
  | ConnectionGap _ => None
  end.

Definition event_ts (ev : DomainEvent) : N :=
  match ev with
  | Book d => source_orderbook_ts_us d
  | TradeEvent t _ => source_trade_ts_us t
  | FundingRateEvent fr => FundingRate_effective_ts_us fr
  | OpenInterestEvent oi => OpenInterest_effective_ts_us oi
  | FundingSettlementEvent fs => funding_time_us fs
  | ConnectionGap _ => 0
  end.
End Topics.

(** ** A run of the framework path *)

Section Run.
Context {NU : Numeric}.

(** The adapter's task; what a send has left when the channel is full. *)
Inductive AdapterTask :=
| AdRunning (parked : list DomainEvent)
| AdDraining (parked : list DomainEvent)
| AdExited (e : TaskExit).

Inductive DataPhase := DwLooping | DwJoining | DwWaiting (backoff_ms : N) | DwDone.

Record DataRun := {
  (** the calls of [sinks.emit_domain] *)
  dr_emitted : list (string * DomainEvent * N);
  dr_total_events : N;
  dr_reconnects : N;
  dr_state : ConnectionState;
  dr_paused : bool;
  dr_stopped : bool;
  dr_latency_us : Q;
  dr_metrics : SourceMetrics;
  dr_shutdown : bool;
  dr_queue : list DomainEvent;
  dr_adapter : AdapterTask;
  dr_phase : DataPhase;
  (** for the specification: the events received, with the pause and the clock at the time *)
  dr_log : list (DomainEvent * bool * N)
}.

Inductive DataInput :=
| DwForward (des : list DomainEvent)
| DwDrain
| DwExit (e : TaskExit)
| DwRecv (seen_us now_us : N)
| DwClosed
| DwCommand (c : WorkerCommand)
| DwShutdown
| DwNotice
| DwJoined
| DwElapsed.

Context (topics : DomainTopics) (capacity : nat).

(** *** The channel *)

(** What fits is sent, the rest waits. *)
Definition fill (queue rest : list DomainEvent) : list DomainEvent * list DomainEvent :=
  let n := (capacity - length queue)%nat in (queue ++ take n rest, drop n rest).

Definition parked (a : AdapterTask) : list DomainEvent :=
  match a with AdRunning r | AdDraining r => r | AdExited _ => [] end.
Definition repark (r : list DomainEvent) (a : AdapterTask) : AdapterTask :=
  match a with AdRunning _ => AdRunning r | AdDraining _ => AdDraining r | AdExited e => AdExited e end.

Definition with_channel (queue : list DomainEvent) (a : AdapterTask) (s : DataRun) : DataRun := {|
  dr_emitted := dr_emitted s; dr_total_events := dr_total_events s; dr_reconnects := dr_reconnects s;
  dr_state := dr_state s; dr_paused := dr_paused s; dr_stopped := dr_stopped s;
  dr_latency_us := dr_latency_us s; dr_metrics := dr_metrics s; dr_shutdown := dr_shutdown s;
  dr_queue := queue; dr_adapter := a; dr_phase := dr_phase s; dr_log := dr_log s
|}.

(** Everything the adapter has, through the channel as far as there is room. *)
Definition data_push (queue rest : list DomainEvent) (s : DataRun) : DataRun :=
  let '(q, r) := fill queue rest in with_channel q (repark r (dr_adapter s)) s.

(** *** The worker *)

Definition with_phase (p : DataPhase) (s : DataRun) : DataRun := {|
  dr_emitted := dr_emitted s; dr_total_events := dr_total_events s; dr_reconnects := dr_reconnects s;
  dr_state := dr_state s; dr_paused := dr_paused s; dr_stopped := dr_stopped s;
  dr_latency_us := dr_latency_us s; dr_metrics := dr_metrics s; dr_shutdown := dr_shutdown s;
  dr_queue := dr_queue s; dr_adapter := dr_adapter s; dr_phase := p; dr_log := dr_log s
|}.
Definition with_metrics (f : SourceMetrics -> SourceMetrics) (s : DataRun) : DataRun := {|
  dr_emitted := dr_emitted s; dr_total_events := dr_total_events s; dr_reconnects := dr_reconnects s;
  dr_state := dr_state s; dr_paused := dr_paused s; dr_stopped := dr_stopped s;
  dr_latency_us := dr_latency_us s; dr_metrics := f (dr_metrics s); dr_shutdown := dr_shutdown s;
  dr_queue := dr_queue s; dr_adapter := dr_adapter s; dr_phase := dr_phase s; dr_log := dr_log s
|}.
Definition logged (ev : DomainEvent) (now_us : N) (s : DataRun) : DataRun := {|
  dr_emitted := dr_emitted s; dr_total_events := dr_total_events s; dr_reconnects := dr_reconnects s;
  dr_state := dr_state s; dr_paused := dr_paused s; dr_stopped := dr_stopped s;
  dr_latency_us := dr_latency_us s; dr_metrics := dr_metrics s; dr_shutdown := dr_shutdown s;
  dr_queue := dr_queue s; dr_adapter := dr_adapter s; dr_phase := dr_phase s;
  dr_log := dr_log s ++ [(ev, dr_paused s, now_us)]
|}.
Definition paused_as (b : bool) (st : ConnectionState) (s : DataRun) : DataRun := {|
  dr_emitted := dr_emitted s; dr_total_events := dr_total_events s; dr_reconnects := dr_reconnects s;
  dr_state := st; dr_paused := b; dr_stopped := dr_stopped s;
  dr_latency_us := dr_latency_us s; dr_metrics := dr_metrics s; dr_shutdown := dr_shutdown s;
  dr_queue := dr_queue s; dr_adapter := dr_adapter s; dr_phase := dr_phase s; dr_log := dr_log s
|}.
Definition stop (s : DataRun) : DataRun := {|
  dr_emitted := dr_emitted s; dr_total_events := dr_total_events s; dr_reconnects := dr_reconnects s;
  dr_state := dr_state s; dr_paused := dr_paused s; dr_stopped := true;
  dr_latency_us := dr_latency_us s; dr_metrics := dr_metrics s; dr_shutdown := dr_shutdown s;
  dr_queue := dr_queue s; dr_adapter := dr_adapter s; dr_phase := DwJoining; dr_log := dr_log s
|}.
Definition shut (s : DataRun) : DataRun := {|
  dr_emitted := dr_emitted s; dr_total_events := dr_total_events s; dr_reconnects := dr_reconnects s;
  dr_state := dr_state s; dr_paused := dr_paused s; dr_stopped := dr_stopped s;
  dr_latency_us := dr_latency_us s; dr_metrics := dr_metrics s; dr_shutdown := true;
  dr_queue := dr_queue s; dr_adapter := dr_adapter s; dr_phase := dr_phase s; dr_log := dr_log s
|}.

(** The EWMA of the age of the events that have a timestamp. *)
Definition latency_after (ev : DomainEvent) (seen_us : N) (l : Q) : Q :=
  if 0 <? event_ts ev then
    let sample := inject_Z (Z.of_N (u64_saturating_sub seen_us (event_ts ev))) in
    if Qle_bool l 0 then sample else ((2 # 10) * sample + (8 # 10) * l)%Q
  else l.

(** An event other than a gap; the clock is read for its age and again for its message. *)
Definition on_domain_event (ev : DomainEvent) (seen_us now_us : N) (s : DataRun) : DataRun := {|
  dr_emitted := dr_emitted s ++
    (if dr_paused s then [] else
     match domain_topic_of topics ev with Some t => [(t, ev, now_us)] | None => [] end);
  dr_total_events := u64_add (dr_total_events s) 1;
  dr_reconnects := dr_reconnects s;
  dr_state := Streaming;
  dr_paused := dr_paused s;
  dr_stopped := dr_stopped s;
  dr_latency_us := if dr_paused s then dr_latency_us s else latency_after ev seen_us (dr_latency_us s);
  dr_metrics := dr_metrics s;
  dr_shutdown := dr_shutdown s;
  dr_queue := dr_queue s; dr_adapter := dr_adapter s; dr_phase := dr_phase s; dr_log := dr_log s
|}.

(** A gap ends the connection. *)
Definition on_received (ev : DomainEvent) (seen_us now_us : N) (s : DataRun) : DataRun :=
  let s := logged ev now_us s in
  match ev with
  | ConnectionGap _ => with_phase DwJoining (with_metrics (fun m => bump_resyncs (bump_gaps m)) s)
  | _ => on_domain_event ev seen_us now_us s
  end.

Definition on_data_command (c : WorkerCommand) (s : DataRun) : DataRun :=
  match c with
  | CmdPause => paused_as true Paused s
  | CmdResume => paused_as false Streaming s
  | CmdStop | CmdRestart => stop s
  end.

Definition backoff_ms (reconnects : N) : N :=
  N.min (250 * N.shiftl 1 (N.min reconnects 5)) 8000.

Definition reconnecting (s : DataRun) : DataRun :=
  let n := (dr_reconnects s + 1) mod u32_modulus in {|
  dr_emitted := dr_emitted s; dr_total_events := dr_total_events s; dr_reconnects := n;
  dr_state := Reconnecting n; dr_paused := dr_paused s; dr_stopped := dr_stopped s;
  dr_latency_us := dr_latency_us s; dr_metrics := bump_reconnects (dr_metrics s);
  dr_shutdown := dr_shutdown s; dr_queue := dr_queue s; dr_adapter := dr_adapter s;
  dr_phase := DwWaiting (backoff_ms n); dr_log := dr_log s
|}.

(** After the adapter's exit. *)
Definition on_adapter_exit (e : TaskExit) (s : DataRun) : DataRun :=
  match e with
  | Drive.Exhausted => with_phase DwDone (with_metrics mark_source_exhausted s)
  | _ => if dr_stopped s || dr_shutdown s then with_phase DwDone s else reconnecting s
  end.

(** The head of the outer loop: the next connection, or the end. *)
Definition next_adapter (s : DataRun) : DataRun :=
  if dr_stopped s || dr_shutdown s then with_phase DwDone s
  else {|
    dr_emitted := dr_emitted s; dr_total_events := dr_total_events s; dr_reconnects := dr_reconnects s;
    dr_state := match dr_state s with Reconnecting n => Reconnecting n | _ => Connecting end;
    dr_paused := dr_paused s; dr_stopped := dr_stopped s; dr_latency_us := dr_latency_us s;
    dr_metrics := dr_metrics s; dr_shutdown := dr_shutdown s;
    dr_queue := []; dr_adapter := AdRunning []; dr_phase := DwLooping; dr_log := dr_log s
  |}.

Definition data_start (shutdown : bool) : DataRun :=
  next_adapter {|
    dr_emitted := []; dr_total_events := 0; dr_reconnects := 0; dr_state := Connecting;
    dr_paused := false; dr_stopped := false; dr_latency_us := 0; dr_metrics := SourceMetrics_default;
    dr_shutdown := shutdown; dr_queue := []; dr_adapter := AdRunning []; dr_phase := DwLooping;
    dr_log := []
  |}.

(** *** Steps *)

Definition is_looping (s : DataRun) : bool := match dr_phase s with DwLooping => true | _ => false end.
Definition is_waiting (s : DataRun) : bool := match dr_phase s with DwWaiting _ => true | _ => false end.
Definition is_joining (s : DataRun) : bool := match dr_phase s with DwJoining => true | _ => false end.

(** The adapter is at its [select!], not inside a send. *)
Definition adapter_free (s : DataRun) : bool :=
  match dr_adapter s with AdRunning [] | AdDraining [] => true | _ => false end.
Definition exited (s : DataRun) : bool := match dr_adapter s with AdExited _ => true | _ => false end.

(** The drain is under a timeout, the loop is not. *)
Definition may_exit (s : DataRun) : bool :=
  match dr_adapter s with AdRunning [] | AdDraining _ => true | _ => false end.

Definition data_enabled (i : DataInput) (s : DataRun) : bool :=
  match i with
  | DwForward _ => adapter_free s
  | DwDrain => match dr_adapter s with AdRunning [] => dr_shutdown s | _ => false end
  | DwExit _ => may_exit s
  | DwRecv _ _ => is_looping s && match dr_queue s with [] => false | _ => true end
  | DwClosed => is_looping s && exited s && match dr_queue s with [] => true | _ => false end
  | DwCommand _ => is_looping s
  | DwShutdown => negb (dr_shutdown s)
  | DwNotice => dr_shutdown s && (is_looping s || is_waiting s)
  | DwJoined => is_joining s && exited s
  | DwElapsed => is_waiting s
  end.

Definition data_step (i : DataInput) (s : DataRun) : DataRun :=
  match i with
  | DwForward des => data_push (dr_queue s) des s
  | DwDrain => with_channel (dr_queue s) (AdDraining []) s
  | DwExit e => with_channel (dr_queue s) (AdExited e) s
  | DwRecv seen_us now_us =>
    match dr_queue s with
    | ev :: queue => on_received ev seen_us now_us (data_push queue (parked (dr_adapter s)) s)
    | [] => s
    end
  | DwClosed => with_phase DwJoining s
  | DwCommand c => on_data_command c s
  | DwShutdown => shut s
  | DwNotice => if is_looping s then stop s else with_phase DwDone s
  | DwJoined => match dr_adapter s with AdExited e => on_adapter_exit e s | _ => s end
  | DwElapsed => next_adapter s
  end.

Fixpoint data_run (ins : list DataInput) (s : DataRun) : option DataRun :=
  match ins with
  | [] => Some s
  | i :: ins => if data_enabled i s then data_run ins (data_step i s) else None
  end.
End Run.

(** ** What is delivered *)

Section Delivered.
Context {NU : Numeric} (topics : DomainTopics) (capacity : nat).

Definition is_gap (ev : DomainEvent) : bool := match ev with ConnectionGap _ => true | _ => false end.

(** The call a received event makes of the sinks. *)
Definition emission (r : DomainEvent * bool * N) : option (string * DomainEvent * N) :=
  let '(ev, was_paused, now_us) := r in
  if was_paused : bool then None else (fun t => (t, ev, now_us)) <$> domain_topic_of topics ev.

Definition forwarded (ins : list DataInput) : list DomainEvent :=
  ins ≫= (fun i => match i with DwForward des => des | _ => [] end).

Definition received (s : DataRun) : list DomainEvent := (dr_log s).*1.*1.

(** What the adapter of this connection has sent and the worker has not received. *)
Definition in_flight (s : DataRun) : list DomainEvent := dr_queue s ++ parked (dr_adapter s).

Definition gap_count (l : list DomainEvent) : nat := length (List.filter is_gap l).
Definition data_count (l : list DomainEvent) : nat := length (List.filter (fun ev => negb (is_gap ev)) l).

Record data_inv (ins : list DataInput) (s : DataRun) : Prop := {
  di_emitted : dr_emitted s = omap emission (dr_log s);
  di_total : dr_total_events s = N.of_nat (data_count (received s)) mod u64_modulus;
  di_gaps : dr_metrics s C_gaps = N.of_nat (gap_count (received s)) mod u64_modulus;
  di_resyncs : dr_metrics s C_resyncs = N.of_nat (gap_count (received s)) mod u64_modulus;
  di_room : (length (dr_queue s) <= capacity)%nat;
  di_sub : received s ++ in_flight s `sublist_of` forwarded ins;
  di_all : DwElapsed ∉ ins -> exited s = false -> received s ++ in_flight s = forwarded ins;
  di_prefix : DwElapsed ∉ ins -> received s ++ in_flight s `prefix_of` forwarded ins;
  di_backoff : forall ms, dr_phase s = DwWaiting ms -> 250 <= ms <= 8000
}.

Lemma backoff_bounds n : 250 <= backoff_ms n <= 8000.
Proof.
  unfold backoff_ms. rewrite N.shiftl_mul_pow2, N.mul_1_l.
  assert (H : 2 ^ 0 <= 2 ^ N.min n 5) by (apply N.pow_le_mono_r; lia). simpl in H. lia.
Qed.

Lemma fill_app queue rest : (fill capacity queue rest).1 ++ (fill capacity queue rest).2 = queue ++ rest.
Proof. unfold fill. simpl. by rewrite <-(assoc_L (++)), take_drop. Qed.

Lemma fill_room queue rest :
  (length queue <= capacity -> length (fill capacity queue rest).1 <= capacity)%nat.
Proof. unfold fill. simpl. rewrite length_app, length_take. lia. Qed.

Lemma data_push_flight queue rest s :
  exited s = false \/ rest = [] -> in_flight (data_push capacity queue rest s) = queue ++ rest.
Proof.
  unfold data_push, in_flight, exited. intros H. rewrite <-(fill_app queue rest).
  destruct (fill capacity queue rest) as [q r] eqn:E. simpl.
  destruct H as [H| ->]; [by destruct (dr_adapter s)|].
  unfold fill in E. rewrite drop_nil in E. injection E as <- <-. by destruct (dr_adapter s).
Qed.

(** The channel aside, nothing moves. *)
Record same_worker (s s' : DataRun) : Prop := {
  sw_emitted : dr_emitted s' = dr_emitted s;
  sw_total : dr_total_events s' = dr_total_events s;
  sw_metrics : dr_metrics s' = dr_metrics s;
  sw_paused : dr_paused s' = dr_paused s;
  sw_phase : dr_phase s' = dr_phase s;
  sw_log : dr_log s' = dr_log s
}.

Lemma data_push_worker queue rest s : same_worker s (data_push capacity queue rest s).
Proof. unfold data_push. by destruct (fill capacity queue rest). Qed.

Lemma data_push_exited queue rest s : exited (data_push capacity queue rest s) = exited s.
Proof. unfold data_push, exited. destruct (fill capacity queue rest). simpl. by destruct (dr_adapter s). Qed.

Lemma data_push_room queue rest s :
  (length queue <= capacity)%nat -> (length (dr_queue (data_push capacity queue rest s)) <= capacity)%nat.
Proof. intros H. pose proof (fill_room queue rest H). unfold data_push. by destruct (fill capacity queue rest). Qed.

Lemma forwarded_snoc ins i :
  forwarded (ins ++ [i]) = forwarded ins ++ match i with DwForward des => des | _ => [] end.
Proof. unfold forwarded. rewrite bind_app. csimpl. by rewrite app_nil_r. Qed.

Lemma received_logged ev now s : received (logged ev now s) = received s ++ [ev].
Proof. unfold received, logged. simpl. by rewrite !fmap_app. Qed.

Lemma count_snoc {A} (P : A -> bool) l x :
  length (List.filter P (l ++ [x])) = (length (List.filter P l) + if P x then 1 else 0)%nat.
Proof. rewrite List.filter_app, length_app. simpl. by destruct (P x). Qed.

Lemma emission_snoc s ev now :
  omap emission (dr_log s ++ [(ev, dr_paused s, now)]) =
  omap emission (dr_log s) ++
    (if dr_paused s then [] else match domain_topic_of topics ev with Some t => [(t, ev, now)] | None => [] end).
Proof. rewrite omap_app. f_equal. simpl. destruct (dr_paused s); [done|]. by destruct (domain_topic_of topics ev). Qed.

Lemma counted (n : nat) b : n = 1%nat ->
  u64_add (N.of_nat b mod u64_modulus) 1 = N.of_nat (b + n) mod u64_modulus.
Proof.
  intros ->. unfold u64_add. rewrite N.Div0.add_mod_idemp_l. f_equal. lia.
Qed.

(** Steps that neither receive nor send keep the accounts. *)
Lemma data_inv_frame ins i s s' :
  data_inv ins s -> dr_emitted s' = dr_emitted s -> dr_log s' = dr_log s ->
  dr_total_events s' = dr_total_events s -> dr_metrics s' C_gaps = dr_metrics s C_gaps ->
  dr_metrics s' C_resyncs = dr_metrics s C_resyncs -> dr_queue s' = dr_queue s ->
  parked (dr_adapter s') `prefix_of` parked (dr_adapter s) ->
  (exited s' = false -> dr_adapter s' = dr_adapter s \/ parked (dr_adapter s') = parked (dr_adapter s) /\ exited s = false) ->
  (forall ms, dr_phase s' = DwWaiting ms -> 250 <= ms <= 8000) ->
  match i with DwForward _ => False | _ => True end -> data_inv (ins ++ [i]) s'.
Proof.
  intros [] He Hl Ht Hg Hr Hq Hp Hx Hb Hi.
  assert (Hrec : received s' = received s) by (unfold received; by rewrite Hl).
  assert (Hpre : received s ++ in_flight s' `prefix_of` received s ++ in_flight s).
  { unfold in_flight. rewrite Hq. by do 2 apply prefix_app. }
  assert (Hf : forwarded (ins ++ [i]) = forwarded ins).
  { rewrite forwarded_snoc. destruct i; try done; by rewrite app_nil_r. }
  split; rewrite ?He, ?Hl, ?Ht, ?Hg, ?Hr, ?Hq, ?Hrec, ?Hf; try done.
  - etransitivity; [|exact di_sub0]. destruct Hpre as [k ->].
    by apply sublist_inserts_r.
  - intros Hn He'. assert (DwElapsed ∉ ins) as Hn' by set_solver.
    assert (exited s = false /\ in_flight s' = in_flight s) as [Hs Hfl].
    { unfold in_flight. rewrite Hq. destruct (Hx He') as [Ha|[Ha ?]].
      - split; [|by rewrite Ha]. unfold exited in *. by rewrite <-Ha.
      - split; [done|by rewrite Ha]. }
    rewrite Hfl. by apply di_all0.
  - intros Hn. etransitivity; [exact Hpre|]. apply di_prefix0. set_solver.
Qed.

Lemma forward_inv ins des s :
  data_inv ins s -> adapter_free s = true ->
  data_inv (ins ++ [DwForward des]) (data_push capacity (dr_queue s) des s).
Proof.
  intros [] Hfree.
  assert (exited s = false /\ parked (dr_adapter s) = []) as [Hx Hp].
  { unfold adapter_free, exited in *. by destruct (dr_adapter s) as [[]|[]|]. }
  pose proof (data_push_worker (dr_queue s) des s) as [He Ht Hm Hpa Hph Hl].
  assert (Hrec : received (data_push capacity (dr_queue s) des s) = received s) by (unfold received; by rewrite Hl).
  assert (Hfl : in_flight (data_push capacity (dr_queue s) des s) = in_flight s ++ des).
  { rewrite data_push_flight by (by left). unfold in_flight. by rewrite Hp, app_nil_r. }
  assert (Hall : DwElapsed ∉ ins ++ [DwForward des] -> received s ++ in_flight s = forwarded ins).
  { intros Hn. apply di_all0; [set_solver|done]. }
  split; rewrite ?He, ?Ht, ?Hm, ?Hl, ?Hph, ?Hrec, ?Hfl, ?forwarded_snoc, ?(assoc_L (++)); try done.
  - by apply data_push_room.
  - by apply sublist_app.
  - intros Hn _. by rewrite Hall.
  - intros Hn. by rewrite Hall.
Qed.

Lemma receive_inv ins ev queue seen now s :
  data_inv ins s -> dr_queue s = ev :: queue -> dr_phase s = DwLooping ->
  data_inv (ins ++ [DwRecv seen now]) (on_received topics ev seen now (data_push capacity queue (parked (dr_adapter s)) s)).
Proof.
  intros [] Hq Hloop. set (s1 := data_push capacity queue (parked (dr_adapter s)) s).
  pose proof (data_push_worker queue (parked (dr_adapter s)) s) as [He Ht Hm Hpa Hph Hl]. fold s1 in He, Ht, Hm, Hpa, Hph, Hl.
  assert (Hfl : in_flight s = ev :: in_flight s1).
  { unfold s1. rewrite data_push_flight; [by unfold in_flight; rewrite Hq|].
    unfold exited, parked. destruct (dr_adapter s); auto. }
  assert (Hx : exited s1 = exited s) by apply data_push_exited.
  assert (Hroom : (length (dr_queue s1) <= capacity)%nat).
  { apply data_push_room. rewrite Hq in di_room0. simpl in di_room0. lia. }
  clearbody s1.
  assert (Hrec : received s ++ in_flight s = (received s ++ [ev]) ++ in_flight s1).
  { by rewrite Hfl, <-(assoc_L (++)). }
  assert (Hlog : dr_log (logged ev now s1) = dr_log s ++ [(ev, dr_paused s, now)]).
  { unfold logged. simpl. by rewrite Hl, Hpa. }
  assert (Hrec' : received (on_received topics ev seen now s1) = received s ++ [ev]).
  { unfold received. assert (dr_log (on_received topics ev seen now s1) = dr_log (logged ev now s1)) as ->
      by (by destruct ev). rewrite Hlog, !fmap_app. done. }
  assert (Hfl' : in_flight (on_received topics ev seen now s1) = in_flight s1) by (by destruct ev).
  assert (Hx' : exited (on_received topics ev seen now s1) = exited s) by (rewrite <-Hx; by destruct ev).
  assert (Hf : forwarded (ins ++ [DwRecv seen now]) = forwarded ins) by (rewrite forwarded_snoc; apply app_nil_r).
  split; rewrite ?Hrec', ?Hfl', ?Hf, ?Hx', <-?Hrec; try done.
  - assert (dr_log (on_received topics ev seen now s1) = dr_log s ++ [(ev, dr_paused s, now)]) as ->
      by (rewrite <-Hlog; by destruct ev).
    rewrite emission_snoc, <-di_emitted0, <-He, <-Hpa. destruct ev; try done; simpl.
    destruct (dr_paused s1); by rewrite app_nil_r.
  - unfold data_count. rewrite count_snoc. fold (data_count (received s)).
    destruct ev; simpl; rewrite Ht, di_total0; try (by apply counted).
    by rewrite Nat.add_0_r.
  - unfold gap_count. rewrite count_snoc. fold (gap_count (received s)).
    destruct ev; simpl; rewrite Hm; try (by rewrite Nat.add_0_r).
    unfold bump_resyncs, bump_gaps. rewrite fetch_add_ne, fetch_add_eq, di_gaps0 by done. by apply counted.
  - unfold gap_count. rewrite count_snoc. fold (gap_count (received s)).
    destruct ev; simpl; rewrite Hm; try (by rewrite Nat.add_0_r).
    unfold bump_resyncs, bump_gaps. rewrite fetch_add_eq, fetch_add_ne, di_resyncs0 by done. by apply counted.
  - by destruct ev.
  - intros Hn. apply di_all0. set_solver.
  - intros Hn. apply di_prefix0. set_solver.
  - intros ms. destruct ev; simpl; rewrite ?Hph, ?Hloop; done.
Qed.

Lemma next_adapter_inv ins s :
  data_inv ins s -> data_inv (ins ++ [DwElapsed]) (next_adapter s).
Proof.
  intros Hi. unfold next_adapter. destruct (dr_stopped s || dr_shutdown s).
  { apply (data_inv_frame _ _ s); try done. intros H. by left. }
  destruct Hi. split; simpl; try done; try lia; try (intros []; set_solver).
  rewrite forwarded_snoc, !app_nil_r. unfold received in *. simpl.
  etransitivity; [|exact di_sub0]. by apply sublist_inserts_r.
Qed.

Lemma data_step_inv ins i s :
  data_inv ins s -> data_enabled i s = true -> data_inv (ins ++ [i]) (data_step topics capacity i s).
Proof.
  intros Hi He. pose proof (di_backoff _ _ Hi) as Hb.
  destruct i as [des| |e|seen now| |c| | | |]; simpl in He |- *.
  - by apply forward_inv.
  - apply (data_inv_frame _ _ s); try done; simpl; destruct (dr_adapter s) as [[]|?|?] eqn:Ea; try done.
    intros _. right. unfold exited. by rewrite Ea.
  - apply (data_inv_frame _ _ s); try done. simpl. apply prefix_nil.
  - apply andb_true_iff in He as [Hl Hq]. destruct (dr_queue s) as [|ev q] eqn:E; [done|].
    apply receive_inv; [done|done|]. unfold is_looping in Hl. by destruct (dr_phase s).
  - apply (data_inv_frame _ _ s); try done. intros _. by left.
  - apply (data_inv_frame _ _ s); try (by destruct c). intros _. left. by destruct c.
  - apply (data_inv_frame _ _ s); try done. intros _. by left.
  - destruct (is_looping s); (apply (data_inv_frame _ _ s); try done; intros _; by left).
  - unfold exited in He. destruct (dr_adapter s) as [| |e]; [by rewrite andb_false_r in He..|].
    assert (H : forall s', dr_emitted s' = dr_emitted s -> dr_log s' = dr_log s ->
      dr_total_events s' = dr_total_events s -> dr_metrics s' C_gaps = dr_metrics s C_gaps ->
      dr_metrics s' C_resyncs = dr_metrics s C_resyncs -> dr_queue s' = dr_queue s ->
      dr_adapter s' = dr_adapter s -> (forall ms, dr_phase s' = DwWaiting ms -> 250 <= ms <= 8000) ->
      data_inv (ins ++ [DwJoined]) s').
    { intros s' ? ? ? ? ? ? Ha ?. apply (data_inv_frame _ _ s); try done; [by rewrite Ha|by left]. }
    unfold on_adapter_exit. destruct e; try (apply H; done);
      (destruct (dr_stopped s || dr_shutdown s); apply H; try done);
      intros ms [= <-]; apply backoff_bounds.
  - by apply next_adapter_inv.
Qed.

Lemma data_start_inv sd : data_inv [] (data_start sd).
Proof.
  unfold data_start, next_adapter. destruct sd; simpl; (split; simpl; try done; lia).
Qed.

Lemma data_run_inv ins before s s' :
  data_inv before s -> data_run topics capacity ins s = Some s' -> data_inv (before ++ ins) s'.
Proof.
  revert before s. induction ins as [|i ins IH]; intros before s Hi; simpl.
  { intros [= <-]. by rewrite app_nil_r. }
  destruct (data_enabled i s) eqn:He; [|done]. intros Hr.
  replace (before ++ i :: ins) with ((before ++ [i]) ++ ins) by (by rewrite <-(assoc_L (++))).
  by eapply IH; [apply data_step_inv|].
Qed.
End Delivered.

(** *** Where an adapter is left behind *)

Section Join.
Context {NU : Numeric} (topics : DomainTopics) (capacity : nat).

(** The worker waits for an adapter that is parked in its loop. *)
Definition stranded (s : DataRun) : Prop :=
  dr_phase s = DwJoining /\ exists ev rest, dr_adapter s = AdRunning (ev :: rest).

Lemma stranded_step i s :
  stranded s -> data_enabled i s = true -> stranded (data_step topics capacity i s).
Proof.
  intros (Hp & ev & rest & Ha) He. unfold stranded.
  destruct i; unfold data_enabled, adapter_free, may_exit, is_looping, is_waiting, is_joining, exited in He;
    rewrite ?Hp, ?Ha, ?andb_false_r in He; try discriminate He.
  simpl. eauto.
Qed.

Lemma stranded_run ins s s' : stranded s -> data_run topics capacity ins s = Some s' -> stranded s'.
Proof.
  revert s. induction ins as [|i ins IH]; intros s Hs; simpl; [by intros [= <-]|].
  destruct (data_enabled i s) eqn:He; [|done]. intros Hr.
  by eapply IH; [apply stranded_step|].
Qed.

(** What leaves the loop for a reason the adapter does not share. *)
Definition leaves_alone (i : DataInput) (s : DataRun) : Prop :=
  match i with
  | DwCommand CmdStop | DwCommand CmdRestart => True
  | DwRecv _ _ => exists n q, dr_queue s = ConnectionGap n :: q
  | _ => False
  end.

Lemma leaves_running i s :
  dr_phase s = DwLooping -> dr_adapter s = AdRunning [] -> leaves_alone i s ->
  data_enabled i s = true /\ dr_phase (data_step topics capacity i s) = DwJoining /\
  dr_adapter (data_step topics capacity i s) = AdRunning [].
Proof.
  intros Hp Ha Hi. destruct i as [| | |seen now| |c| | | |]; try done.
  - destruct Hi as (n & q & Hq). simpl. unfold is_looping. rewrite Hp, Hq, Ha.
    split_and!; [done|done|]. unfold data_push, fill. simpl. by rewrite drop_nil, Ha.
  - destruct c; try done; simpl; unfold is_looping; rewrite Hp; done.
Qed.

Lemma forward_strands s des :
  dr_phase s = DwJoining -> dr_adapter s = AdRunning [] -> (capacity < length des)%nat ->
  stranded (data_push capacity (dr_queue s) des s).
Proof.
  intros Hp Ha Hlen. unfold stranded, data_push, fill. simpl. split; [done|]. rewrite Ha. simpl.
  destruct (drop (capacity - length (dr_queue s)) des) as [|ev rest] eqn:E; [|by eauto].
  apply (f_equal length) in E. rewrite length_drop in E. simpl in E. lia.
Qed.

(** The receiver is alive while the worker waits for the adapter, but nobody reads it.  So once
    the worker has left its loop for a reason the adapter does not share (a [Stop], a
    [Restart] or a gap), an adapter that has more to send than the channel holds is never
    joined: whatever happens next, the shutdown included, the worker neither reconnects nor
    flushes nor returns, and hands nothing more to its sinks. *)
Theorem join_strands i s des :
  dr_phase s = DwLooping -> dr_adapter s = AdRunning [] -> leaves_alone i s ->
  (capacity < length des)%nat ->
  exists s1, data_run topics capacity [i; DwForward des] s = Some s1 /\
    forall ins s2, data_run topics capacity ins s1 = Some s2 -> dr_phase s2 = DwJoining.
Proof.
  intros Hp Ha Hi Hlen. destruct (leaves_running i s Hp Ha Hi) as (He & Hj & Hr).
  eexists. split.
  { cbn [data_run]. rewrite He. unfold data_enabled, adapter_free. rewrite Hr. reflexivity. }
  intros ins s2 Hrun. apply stranded_run in Hrun as [H _]; [done|]. by apply forward_strands.
Qed.
End Join.

(** ** What is published *)

Section Published.
Context {NU : Numeric} {W : Type} {OW : Outside W}.

Lemma add_topic_lookup on topic cap (s : TopicRegistry * W) t :
  is_Some ((add_topic on topic cap s).1 !! t) <-> (on = true /\ t = topic) \/ is_Some (s.1 !! t).
Proof.
  unfold add_topic. destruct on; [|naive_solver].
  destruct (TopicPublisher_new topic cap s.2) as [w p]. simpl.
  unfold TopicRegistry in *. destruct (decide (topic = t)) as [->|Hne].
  - rewrite lookup_insert_eq. naive_solver.
  - rewrite lookup_insert_ne by done. naive_solver.
Qed.

(** The registry has the topics the worker emits on. *)
Lemma domain_registry_topics symbol dt cap (w : W) ev t :
  domain_topic_of (domain_topics symbol dt) ev = Some t ->
  is_Some ((DomainTopicRegistry_from_config symbol (dt_section dt) (dt_depth dt) cap w).1 !! t).
Proof.
  assert (Hn : forall on topic, topic_if on topic = Some t -> on = true /\ t = topic).
  { intros [] topic; simpl; [by intros [= ->]|done]. }
  unfold DomainTopicRegistry_from_config. rewrite !add_topic_lookup.
  destruct ev; simpl; intros H; try discriminate H; apply Hn in H; tauto.
Qed.

(** The calls of a run on the sinks of the worker. *)
Definition make_calls (calls : list (string * DomainEvent * N)) (set : OutputSinkSet) (w : W)
    : OutputSinkSet * W :=
  fold_left (fun (sw : OutputSinkSet * W) (c : string * DomainEvent * N) =>
    (set_emit_domain c.1.1 c.1.2 c.2 sw.1 sw.2).1) calls (set, w).

Definition counted_sink (s : DomainChannelSink) (n : nat) : DomainChannelSink := {|
  dcs_registry := dcs_registry s; dcs_exchange := dcs_exchange s;
  dcs_events_emitted := (dcs_events_emitted s + N.of_nat n) mod u64_modulus;
  dcs_events_dropped := dcs_events_dropped s
|}.

Lemma channel_call topic ev now (s : DomainChannelSink) (w : W) :
  is_Some (dcs_registry s !! topic) ->
  (set_emit_domain topic ev now [box_sink s] w).1.1 =
    [box_sink {| dcs_registry := dcs_registry s; dcs_exchange := dcs_exchange s;
                 dcs_events_emitted := u64_add (dcs_events_emitted s) 1;
                 dcs_events_dropped := dcs_events_dropped s |}].
Proof.
  intros [p Hp]. unfold set_emit_domain, set_call. rewrite (fan_out_one _ s w). simpl.
  unfold DomainChannelSink_emit_domain, publish. rewrite Hp.
  destruct (broadcast_send _ _ _) as [w' n]. done.
Qed.

Lemma channel_calls calls s w :
  dcs_events_emitted s < u64_modulus ->
  Forall (fun c : string * DomainEvent * N => is_Some (dcs_registry s !! c.1.1)) calls ->
  (make_calls calls [box_sink s] w).1 = [box_sink (counted_sink s (length calls))].
Proof.
  revert s w. induction calls as [|c calls IH]; intros s w Hs Hc.
  { unfold make_calls, counted_sink. simpl. rewrite N.add_0_r, N.mod_small by done. by destruct s. }
  apply Forall_cons in Hc as [Hh Hc]. unfold make_calls. cbn [fold_left fst snd].
  pose proof (channel_call c.1.1 c.1.2 c.2 s w Hh) as Hcall.
  destruct (set_emit_domain c.1.1 c.1.2 c.2 [box_sink s] w) as [[set w'] r]. simpl in Hcall |- *.
  rewrite Hcall. unfold make_calls in IH. rewrite IH; [|apply u64_add_is_u64|done].
  unfold counted_sink. simpl. unfold u64_add. rewrite N.Div0.add_mod_idemp_l.
  cbn [length]. rewrite Nat2N.inj_succ, <-N.add_1_l, N.add_assoc. done.
Qed.

(** C29: What a data worker delivers.  Over any run on its framework path, through any number of
    connections, pauses and commands: the calls of the sinks are, in their order, one for
    each event received outside a pause whose datatype is declared, on its topic; the events
    received, then those in the channel and in the adapter's hands, are events the adapter
    forwarded, in their order, without a loss as long as there has been no reconnection
    and the adapter lives; the channel is never over its capacity; the counts of events,
    gaps and resyncs are those of the events received; a backoff is between a quarter of a
    second and eight seconds.  And the channel sink of the same configuration publishes every
    one of the calls: none names a topic it does not have. *)
Theorem data_delivered ins sd capacity s symbol dt cap exch (w w' : W) :
  data_run (domain_topics symbol dt) capacity ins (data_start sd) = Some s ->
  data_inv (domain_topics symbol dt) capacity ins s /\
  let sink := DomainChannelSink_new
    (DomainTopicRegistry_from_config symbol (dt_section dt) (dt_depth dt) cap w).1 exch in
  (make_calls (dr_emitted s) [box_sink sink] w').1 =
    [box_sink (counted_sink sink (length (dr_emitted s)))].
Proof.
  intros Hr. pose proof (data_run_inv _ _ ins [] _ s (data_start_inv _ _ sd) Hr) as Hi.
  split; [exact Hi|]. intros sink. apply channel_calls; [done|].
  rewrite (di_emitted _ _ _ _ Hi). apply Forall_forall. intros [[t ev] now] Hin.
  apply list_elem_of_omap in Hin as ([[ev' paused] now'] & _ & He). unfold emission in He.
  destruct paused; [done|]. apply fmap_Some in He as (t' & Ht & [= -> -> ->]).
  by apply (domain_registry_topics symbol dt cap w ev').
Qed.
End Published.

(** ** Construction and the fallback *)

Section Fallback.
Context {NU : Numeric} {W : Type} {OW : Outside W}.

Lemma filtered_sinks outs b :
  expected_sinks (List.filter (fun c => negb (is_channel c)) outs) b = expected_sinks outs false.
Proof. revert b. induction outs as [|[] outs IH]; intros b; simpl; [done|apply IH|by rewrite IH..]. Qed.

Lemma filtered_parquet outs :
  parquet_count (List.filter (fun c => negb (is_channel c)) outs) = parquet_count outs.
Proof.
  unfold parquet_count. induction outs as [|[] outs IH]; simpl; [done|exact IH|exact IH|].
  simpl. by rewrite IH.
Qed.

(** A configuration becomes a data worker exactly when its exchange is known and it asks for no
    Parquet output, which a data worker has no flusher for.  A worker of the framework engine
    has the domain channel in place of the raw one. *)
Theorem data_construction_exact c tcb (w : W) :
  match (data_from_config c tcb w).2 with
  | Ok d =>
    (exists e, Exchange_from_str (cw_exchange (dc_common c)) = Ok e) /\
    parquet_count (dc_output c) = 0%nat /\
    ic_common (dw_core d) = dc_common c /\ dw_framework_ingest d = dc_framework_ingest c /\
    let ch := existsb is_channel (dc_output c) in
    has (dw_domain_registry d) = dc_framework_ingest c && ch /\
    sink_names (dw_sinks d) =
      if dc_framework_ingest c
      then expected_sinks (dc_output c) false ++ (if ch then ["domain_channel"] else [])
      else expected_sinks (dc_output c) ch
  | Err _ =>
    (exists e, Exchange_from_str (cw_exchange (dc_common c)) = Err e) \/
    (0 < parquet_count (dc_output c))%nat
  end.
Proof.
  unfold data_from_config, IngestionCore_new.
  destruct (Exchange_from_str (cw_exchange (dc_common c))) as [ex|e] eqn:Ee; [|by left; exists e].
  assert (Hreg : has (raw_registry c w).1 = existsb is_channel (dc_output c) && negb (dc_framework_ingest c)).
  { unfold raw_registry. destruct (_ && _); [|done]. by destruct (TopicRegistry_from_config _ _ _ _ w). }
  destruct (raw_registry c w) as [reg w1]. simpl in Hreg.
  match goal with |- context [build_sinks ?o ?p ?d w1] =>
    pose proof (build_sinks_exact o p d w1) as Hb; destruct (build_sinks o p d w1) as [w2 [set|e]] end;
    simpl in Hb.
  - destruct Hb as [Hn Hb]. rewrite Hreg in Hb.
    assert (Hp : parquet_count (dc_output c) = 0%nat).
    { unfold raw_output in Hn. destruct (dc_framework_ingest c); [rewrite filtered_parquet in Hn|]; lia. }
    unfold raw_output in Hb. destruct (dc_framework_ingest c) eqn:Ef; simpl.
    + rewrite filtered_sinks in Hb. destruct (existsb is_channel (dc_output c)).
      * destruct (DomainTopicRegistry_from_config _ _ _ _ w2) as [r w3]. simpl.
        split_and!; try done; [by exists ex|]. unfold sink_names in *. by rewrite fmap_app, Hb.
      * simpl. split_and!; try done; [by exists ex|by rewrite app_nil_r].
    + split_and!; try done; [by exists ex|]. rewrite Hb. by rewrite andb_true_r.
  - right. unfold raw_output in Hb. destruct (dc_framework_ingest c); [rewrite filtered_parquet in Hb|]; lia.
Qed.

(** The sinks that take nothing raw. *)
Definition deaf (b : BoxSink (W:=W)) : Prop :=
  forall topic ev at_us w, emit_raw (OutputSink:=box_impl b) topic ev at_us (box_state b) w = (box_state b, w, Ok tt).

Lemma deaf_set set topic ev at_us (w : W) :
  Forall deaf set -> set_emit_raw topic ev at_us set w = (set, w, Ok tt).
Proof.
  unfold set_emit_raw, set_call. intros H.
  assert (fan_out (fun S I => emit_raw (OutputSink:=I) topic ev at_us) set w = (set, w)) as ->; [|done].
  induction H as [|[T I s] set Hb _ IH]; [done|]. simpl.
  specialize (Hb topic ev at_us w). simpl in Hb. by rewrite Hb, IH.
Qed.

(** The fallback that drops everything.  A worker whose configuration asks for the channel
    output and the framework engine has only the domain channel; when it cannot take the
    framework path (an unregistered venue, or a derivative the adapter does not deliver), it
    runs the legacy path, which hands it raw events, and none of them goes anywhere. *)
Theorem fallback_drops c tcb (w0 w1 : W) d reg :
  data_from_config c tcb w0 = (w1, Ok d) -> dc_framework_ingest c = true ->
  Forall (fun o => is_channel o = true) (dc_output c) ->
  (reg !! cw_exchange (dc_common c) = None \/
   exists a dt, reg !! cw_exchange (dc_common c) = Some a /\
     dt ∈ [DeclLiquidations; DeclFundingRates; DeclOpenInterest] /\
     declared_contains dt (declared_set (cw_datatypes (dc_common c))) = true /\
     dt ∉ supported_datatypes a) ->
  use_framework_path reg d = false /\
  forall topic ev at_us (w : W), set_emit_raw topic ev at_us (dw_sinks d) w = (dw_sinks d, w, Ok tt).
Proof.
  intros E Hf Hc Hreg. pose proof (data_construction_exact c tcb w0) as H. rewrite E in H. simpl in H.
  destruct H as (_ & _ & Hcom & Hfw & _ & _). split.
  - unfold use_framework_path, core_datatypes. rewrite Hfw, Hf, Hcom.
    destruct Hreg as [->|(a & dt & -> & Hin & Hon & Hno)]; [done|].
    destruct (unsupported_feeds _ _) eqn:Eu; [done|]. exfalso.
    by apply Hno, (proj1 (unsupported_feeds_spec _ _) Eu dt Hin).
  - intros topic ev at_us w. apply deaf_set. revert E. unfold data_from_config, raw_registry, raw_output.
    destruct (IngestionCore_new _) as [core|]; [|done]. rewrite Hf, andb_false_r.
    assert (List.filter (fun c => negb (is_channel c)) (dc_output c) = []) as ->.
    { clear -Hc. induction Hc as [|o outs Ho _ IH]; [done|]. simpl. by rewrite Ho. }
    simpl. destruct (existsb is_channel _).
    + destruct (DomainTopicRegistry_from_config _ _ _ _ _) as [r w2]. intros [= _ <-]. simpl.
      apply Forall_singleton. intros ????. done.
    + intros [= _ <-]. simpl. apply Forall_nil_2.
Qed.
End Fallback.

(** ** Examples *)

Section Examples.
Local Existing Instances decimal_numeric shop_outside toy_json toy_floats toy_dates rejected.
Local Existing Instances w1 w2 w3 w4 w5 w6 w7 w8 w9 w10 w11 w12 w13.

Definition ex_data (liquidations : bool) : DataWorkerConfig := {|
  dc_common := ex_common "kraken" "BTC/USD" liquidations; dc_output := [SinkChannel];
  dc_framework_ingest := true
|}.

Lemma fallback_drops_witness : exists w d,
  data_from_config (ex_data true) None (0%nat, [] : list MarketSnapshot) = (w, Ok d) /\
  use_framework_path toy_registry d = false /\
  set_emit_raw "trade.all.BTC/USD" (EvKraken tt) 1 (dw_sinks d) w = (dw_sinks d, w, Ok tt).
Proof.
  destruct (data_from_config (ex_data true) None (0%nat, [] : list MarketSnapshot)) as [w [d|e]] eqn:E.
  2:{ exfalso. pose proof (data_construction_exact (ex_data true) None (0%nat, [] : list MarketSnapshot)) as H.
      rewrite E in H. destruct H as [[? H]|H]; [discriminate H|vm_compute in H; lia]. }
  exists w, d. split; [done|].
  destruct (fallback_drops (ex_data true) None _ w d toy_registry E eq_refl) as [Hu Hd].
  - repeat constructor.
  - right. exists KRAKEN, DeclLiquidations. split_and!; [|by left|by vm_compute|].
    + unfold toy_registry. rewrite registry_lookup. split; [apply kraken_registered|done].
    + apply (bool_decide_unpack _). vm_compute. reflexivity.
  - split; [exact Hu|apply Hd].
Defined.

Definition ex_topics : DomainTopics := domain_topics "BTC/USD" (cw_datatypes (ex_common "kraken" "BTC/USD" false)).

Definition ex_oi : DomainEvent := OpenInterestEvent toy_oi.

(** The worker sees one event, is paused, sees another, and a gap; it reconnects. *)
Definition ex_inputs : list DataInput := [
  DwForward [ex_oi; ex_oi; ConnectionGap 3]; DwRecv 10 10; DwCommand CmdPause; DwRecv 11 11; DwRecv 12 12;
  DwExit Completed; DwJoined; DwElapsed].

Definition ex_summary (s : DataRun) : N * N * ConnectionState * N :=
  (dr_total_events s, dr_metrics s C_gaps, dr_state s, dr_reconnects s).

Lemma data_delivered_witness : exists s,
  data_run ex_topics 4 ex_inputs (data_start false) = Some s /\
  ex_summary s = (2, 1, Reconnecting 1, 1) /\ data_inv ex_topics 4 ex_inputs s.
Proof.
  assert (H : ex_summary <$> data_run ex_topics 4 ex_inputs (data_start false) = Some (2, 1, Reconnecting 1, 1))
    by (vm_compute; reflexivity).
  apply fmap_Some_1 in H as (s & E & H). exists s. split; [exact E|]. split; [exact (eq_sym H)|].
  exact (proj1 (data_delivered ex_inputs false 4 s "BTC/USD" _ 8 "kraken"
    (0%nat, [] : list MarketSnapshot) (0%nat, []) E)).
Defined.

(** A paused worker reports that it streams, from the next event on. *)
Example paused_streams :
  (fun s => (dr_paused s, dr_state s)) <$>
    data_run ex_topics 4 [DwForward [ex_oi]; DwCommand CmdPause; DwRecv 1 1] (data_start false) =
  Some (true, Streaming).
Proof. vm_compute. reflexivity. Qed.

(** The command to stop, with a channel of two and three more events. *)
Lemma join_strands_witness : exists s1,
  data_run ex_topics 2 [DwCommand CmdStop; DwForward [ex_oi; ex_oi; ex_oi]] (data_start false) = Some s1 /\
  forall s2, data_run ex_topics 2 [DwShutdown] s1 = Some s2 -> dr_phase s2 = DwJoining.
Proof.
  destruct (join_strands ex_topics 2 (DwCommand CmdStop) (data_start false) [ex_oi; ex_oi; ex_oi]
    eq_refl eq_refl I) as (s1 & Hr & Hs); [simpl; lia|].
  exists s1. split; [exact Hr|]. intros s2. apply Hs.
Defined.
End Examples.
