(* ===== verification/Validate.v ===== *)
(** * The checker of the archive

    [src/aetelier-sdk/src/bin/validate.rs]: the program that walks an archive, runs ten
    checks over its Parquet files and keeps a history of its runs.  It runs on the file system
    of [Disk], whose calls may fail, and reads with the readers of [Columnar].  An [f64] is a
    binary64 of the standard library's specification, with its rounding.  The form of the
    state and of the report as JSON and the clock are parameters; the printed report, the
    log and the reading of the command line are left out.  A directory exists when it or one below it
    was made, is not called [*.parquet], and names are UTF-8. *)
From Stdlib Require Import Ascii String ZArith Floats.SpecFloat Sorting.Sorted.
From stdpp Require Import strings pretty.
From S2P Require Import Prelude BTree Strings Numeric Pairs Types Book Disk Leaf Columnar ColumnarProps Sign.
Local Open Scope string_scope.
Local Open Scope list_scope.
Local Open Scope N_scope.

(** ** The checks *)

Inductive TestId :=
| FilesPresent | FileNonEmpty | FilenameConvention | MonotonicTimestamps | FlushSpan
| UniqueOrderbookTs | UniqueTradeIds | NotCrossedOrderbook | PositivePricesSizes
| NoTemporalOverlap.

Definition TestId_code (t : TestId) : string :=
  match t with
  | FilesPresent => "T01" | FileNonEmpty => "T02" | FilenameConvention => "T03"
  | MonotonicTimestamps => "T04" | FlushSpan => "T05" | UniqueOrderbookTs => "T06"
  | UniqueTradeIds => "T07" | NotCrossedOrderbook => "T08" | PositivePricesSizes => "T09"
  | NoTemporalOverlap => "T10"
  end.

Definition TestId_label (t : TestId) : string :=
  match t with
  | FilesPresent => "files_present_per_exchange" | FileNonEmpty => "file_non_empty"
  | FilenameConvention => "filename_convention" | MonotonicTimestamps => "monotonic_timestamps"
  | FlushSpan => "flush_span_within_tolerance"
  | UniqueOrderbookTs => "unique_orderbook_timestamps" | UniqueTradeIds => "unique_trade_ids"
  | NotCrossedOrderbook => "no_crossed_orderbook"
  | PositivePricesSizes => "positive_prices_and_sizes"
  | NoTemporalOverlap => "no_temporal_overlap_between_files"
  end.

Inductive DataKind := KindOrderbook | KindTrades.
#[export] Instance DataKind_eq_dec : EqDecision DataKind.
Proof. solve_decision. Defined.

Definition DataKind_dir_name (k : DataKind) : string :=
  match k with KindOrderbook => "orderbooks" | KindTrades => "trades" end.

(** The derived order. *)
#[export] Instance DataKind_cmp : Cmp DataKind := fun a b =>
  match a, b with
  | KindOrderbook, KindTrades => Lt | KindTrades, KindOrderbook => Gt | _, _ => Eq
  end.
#[export] Instance DataKind_cmp_laws : CmpLaws DataKind.
Proof.
  split; intros; repeat match goal with k : DataKind |- _ => destruct k end; done.
Qed.

(** ** Floating point *)

Abbreviation f64 := spec_float.
Definition f64_of_u64 (n : N) : f64 := binary_normalize 53 1024 (Z.of_N n) 0 false.
Definition f64_mul : f64 -> f64 -> f64 := SFmul 53 1024.
Definition f64_add : f64 -> f64 -> f64 := SFadd 53 1024.
Definition f64_sub : f64 -> f64 -> f64 := SFsub 53 1024.
Definition f64_one : f64 := f64_of_u64 1.

Record Cli := {
  cli_data_dir : string;
  cli_state_file : Path;
  cli_report_out : Path;
  cli_flush_threshold : N;
  cli_grid_period_ms : N;
  cli_span_tolerance : f64;
  cli_expect_exchanges : list string;
  cli_skip_seen : bool
}.

(** ** File names *)

Fixpoint split_on (sep : ascii) (s : string) : list string :=
  match s with
  | "" => [""]
  | String c s =>
    if Ascii.eqb c sep then "" :: split_on sep s
    else match split_on sep s with p :: ps => String c p :: ps | [] => [String c ""] end
  end.

(** [p.extension() == Some("parquet")] *)
Definition has_parquet_extension (name : string) : bool :=
  ends_with ".parquet" name && negb (String.eqb name ".parquet").

Definition matches_convention (name : string) (kind : DataKind) : bool :=
  match strip_suffix ".parquet" name with
  | None => false
  | Some stem =>
    let parts := split_on "_" stem in
    let n := length parts in
    if (n <? 4)%nat then false
    else if negb (String.eqb (nth (n - 2) parts "") "sync") then false
    else
      let tag := nth (n - 3) parts "" in
      match kind with KindOrderbook => String.eqb tag "ob" | KindTrades => String.eqb tag "trades" end
  end.

Definition parse_symbol_from_filename (name : string) : option string :=
  match strip_suffix ".parquet" name with
  | None => None
  | Some stem =>
    let parts := split_on "_" stem in
    let n := length parts in
    if (n <? 4)%nat then None else Some (join "_" (take (n - 3) parts))
  end.

(** The last component of a path that names a file. *)
Definition file_basename (path : string) : string := List.last (split_on "/" path) "".

(** ** The rows of a file *)

Record FileValidation := {
  fv_row_count : N;
  fv_distinct_ts : N;
  fv_first_ts : N;
  fv_last_ts : N;
  fv_monotonic : bool;
  fv_failed : list string
}.

Definition empty_file : FileValidation := {|
  fv_row_count := 0; fv_distinct_ts := 0; fv_first_ts := 0; fv_last_ts := 0;
  fv_monotonic := true; fv_failed := []
|}.

(** [windows(2).all(|w| w[0] <= w[1])] *)
Fixpoint non_decreasing (l : list N) : bool :=
  match l with
  | a :: (b :: _) as l => (a <=? b) && non_decreasing l
  | _ => true
  end.

Definition code_if (failed : bool) (t : TestId) : list string :=
  if failed then [TestId_code t] else [].

Section Rows.
Context {NU : Numeric}.

(** The timestamps seen, up to the first one seen twice. *)
Fixpoint scan_ts (seen : gset N) (ts : list N) : gset N * bool :=
  match ts with
  | [] => (seen, false)
  | t :: ts => if bool_decide (t ∈ seen) then (seen, true) else scan_ts ({[t]} ∪ seen) ts
  end.

Definition book_crossed (ob : Orderbook) : bool :=
  match bt_last (ob_bids ob), bt_first (ob_asks ob) with
  | Some (b, _), Some (a, _) => dleb a b
  | _, _ => false
  end.

Definition bad_level (l : Dec * Level) : bool := dleb l.1 dzero || dleb (level_volume l.2) dzero.
Definition book_non_positive (ob : Orderbook) : bool := existsb bad_level (ob_bids ob ++ ob_asks ob).

(** One pass for both checks, which ends once both have failed. *)
Fixpoint scan_books (crossed non_positive : bool) (books : list Orderbook) : bool * bool :=
  match books with
  | [] => (crossed, non_positive)
  | ob :: books =>
    let crossed := crossed || book_crossed ob in
    let non_positive := non_positive || book_non_positive ob in
    if crossed && non_positive then (crossed, non_positive)
    else scan_books crossed non_positive books
  end.

Definition check_books (books : list Orderbook) : FileValidation :=
  match books with
  | [] => empty_file
  | first :: _ =>
    let ts := orderbook_ts_us <$> books in
    let '(seen, dupe) := scan_ts ∅ ts in
    let '(crossed, non_positive) := scan_books false false books in {|
    fv_row_count := N.of_nat (length books);
    fv_distinct_ts := N.of_nat (size seen);
    fv_first_ts := orderbook_ts_us first;
    fv_last_ts := List.last ts 0;
    fv_monotonic := non_decreasing ts;
    fv_failed := code_if dupe UniqueOrderbookTs ++ code_if crossed NotCrossedOrderbook ++
                 code_if non_positive PositivePricesSizes |}
  end.

Definition bad_trade (t : Trade) : bool :=
  negb (dltb dzero (trade_price t) && dltb dzero (trade_amount t)).

Record TradeScan := { ts_seen : gset string; ts_dupe : bool; ts_distinct : gset N; ts_bad : bool }.

Definition scan_trade (s : TradeScan) (t : Trade) : TradeScan := {|
  ts_seen := {[trade_id t]} ∪ ts_seen s;
  ts_dupe := ts_dupe s || bool_decide (trade_id t ∈ ts_seen s);
  ts_distinct := {[source_trade_ts_us t]} ∪ ts_distinct s;
  ts_bad := ts_bad s || bad_trade t
|}.

Definition check_trades (trades : list Trade) : FileValidation :=
  match trades with
  | [] => empty_file
  | first :: _ =>
    let s := fold_left scan_trade trades {| ts_seen := ∅; ts_dupe := false; ts_distinct := ∅; ts_bad := false |} in
    let ts := source_trade_ts_us <$> trades in {|
    fv_row_count := N.of_nat (length trades);
    fv_distinct_ts := N.of_nat (size (ts_distinct s));
    fv_first_ts := source_trade_ts_us first;
    fv_last_ts := List.last ts 0;
    fv_monotonic := non_decreasing ts;
    fv_failed := code_if (ts_dupe s) UniqueTradeIds ++ code_if (ts_bad s) PositivePricesSizes |}
  end.
End Rows.

(** ** A file *)

Record FileReport := {
  fr_path : string;
  fr_exchange : string;
  fr_symbol : string;
  fr_kind : DataKind;
  fr_size_bytes : N;
  fr_row_count : N;
  fr_distinct_ts_count : N;
  fr_first_ts : N;
  fr_last_ts : N;
  fr_span_ms : N;
  fr_failed : list string
}.

(** The check of the span against what the flush threshold makes of it. *)
Definition span_in_range (cli : Cli) (kind : DataKind) (span : N) : bool :=
  let expected := f64_of_u64 (u64_mul (u64_saturating_sub (cli_flush_threshold cli) 1)
                                      (cli_grid_period_ms cli)) in
  if SFltb (S754_zero false) expected then
    let lo := f64_mul expected (f64_sub f64_one (cli_span_tolerance cli)) in
    let hi := f64_mul expected (f64_add f64_one (cli_span_tolerance cli)) in
    match kind with
    | KindOrderbook => SFleb lo (f64_of_u64 span) && SFleb (f64_of_u64 span) hi
    | KindTrades => SFleb (f64_of_u64 span) hi
    end
  else true.

Definition file_report (cli : Cli) (p : Path) (exchange : string) (kind : DataKind) (size : N)
    (v : FileValidation) : FileReport :=
  let span := u64_saturating_sub (fv_last_ts v) (fv_first_ts v) in {|
  fr_path := path_join p.1 p.2;
  fr_exchange := exchange;
  fr_symbol := default "" (parse_symbol_from_filename p.2);
  fr_kind := kind;
  fr_size_bytes := size;
  fr_row_count := fv_row_count v;
  fr_distinct_ts_count := fv_distinct_ts v;
  fr_first_ts := fv_first_ts v;
  fr_last_ts := fv_last_ts v;
  fr_span_ms := span;
  fr_failed :=
    code_if (negb (matches_convention p.2 kind)) FilenameConvention ++ fv_failed v ++
    code_if ((size =? 0) || (fv_row_count v =? 0)) FileNonEmpty ++
    code_if (negb (fv_monotonic v)) MonotonicTimestamps ++
    code_if (negb (span_in_range cli kind span)) FlushSpan
|}.

(** What is reported of a file that cannot be read. *)
Definition unreadable_report (p : Path) (exchange : string) (kind : DataKind) (size : N) : FileReport := {|
  fr_path := path_join p.1 p.2; fr_exchange := exchange;
  fr_symbol := default "" (parse_symbol_from_filename p.2); fr_kind := kind;
  fr_size_bytes := size; fr_row_count := 0; fr_distinct_ts_count := 0; fr_first_ts := 0;
  fr_last_ts := 0; fr_span_ms := 0; fr_failed := [TestId_code FileNonEmpty]
|}.

(** ** The history of the runs *)

Record ExchangeStats := {
  es_files : N; es_bytes : N; es_orderbook_snapshots : N; es_trades : N
}.
Definition ExchangeStats_default : ExchangeStats :=
  {| es_files := 0; es_bytes := 0; es_orderbook_snapshots := 0; es_trades := 0 |}.

Record Cumulative := {
  cu_runs : N;
  cu_distinct_files : N;
  cu_bytes : N;
  cu_orderbook_snapshots : N;
  cu_trades : N;
  cu_per_exchange : btree string ExchangeStats
}.

Record RunSummary := {
  rs_run_id : N;
  rs_started_at_unix_ms : N;
  rs_ended_at_unix_ms : N;
  rs_files_seen : N;
  rs_new_files : N;
  rs_bytes_seen : N;
  rs_total_orderbook_snapshots : N;
  rs_total_trades : N;
  rs_tests_passed : N;
  rs_tests_failed : N;
  rs_failed_test_codes : list string
}.

Record State := {
  st_runs : list RunSummary;
  st_cumulative : Cumulative;
  st_known_files : gmap string N
}.
Definition State_default : State := {|
  st_runs := [];
  st_cumulative := {| cu_runs := 0; cu_distinct_files := 0; cu_bytes := 0;
                      cu_orderbook_snapshots := 0; cu_trades := 0; cu_per_exchange := [] |};
  st_known_files := ∅
|}.

(** ** The results of the checks *)

Record TestOutcome := {
  to_id : TestId; to_code : string; to_label : string; to_passed : bool; to_detail : list string
}.

Definition outcome_of (t : TestId) (detail : list string) : TestOutcome := {|
  to_id := t; to_code := TestId_code t; to_label := TestId_label t;
  to_passed := match detail with [] => true | _ => false end; to_detail := detail
|}.

Definition collect_for (files : list FileReport) (t : TestId) : list string :=
  (fun f => fr_path f ++ " (sym=" ++ fr_symbol f ++ ", ex=" ++ fr_exchange f ++ ")")%string <$>
  filter (fun f => TestId_code t ∈ fr_failed f) files.

Definition aggregate_results (t01_failures : list string) (files : list FileReport)
    (t10_failures : list string) : list TestOutcome :=
  [outcome_of FilesPresent t01_failures] ++
  ((fun t => outcome_of t (collect_for files t)) <$>
    [FileNonEmpty; FilenameConvention; MonotonicTimestamps; FlushSpan; UniqueOrderbookTs;
     UniqueTradeIds; NotCrossedOrderbook; PositivePricesSizes]) ++
  [outcome_of NoTemporalOverlap t10_failures].

(** ** Files that overlap in time *)

Abbreviation Span := (N * N * string)%type.
Abbreviation GroupKey := (string * string * DataKind)%type.

Fixpoint overlaps (ex sym : string) (kind : DataKind) (spans : list Span) : list string :=
  match spans with
  | w0 :: (w1 :: _) as spans =>
    (if w1.1.1 <=? w0.1.2 then
       [(ex ++ "/" ++ sym ++ "/" ++ DataKind_dir_name kind ++ ": " ++ file_basename w0.2 ++
         " (last=" ++ pretty w0.1.2 ++ ") overlaps " ++ file_basename w1.2 ++
         " (first=" ++ pretty w1.1.1 ++ ")")%string]
     else []) ++ overlaps ex sym kind spans
  | _ => []
  end.

Definition by_first (a b : Span) : bool := a.1.1 <=? b.1.1.

Definition overlap_failures (groups : btree GroupKey (list Span)) : list string :=
  groups ≫= fun g => overlaps g.1.1.1 g.1.1.2 g.1.2 (sort_by by_first g.2).

(** ** The walk *)

Record LakeWalk := {
  wa_known : gmap string N;
  wa_new_files : N;
  wa_bytes_seen : N;
  wa_ob_snapshots : N;
  wa_trades : N;
  wa_groups : btree GroupKey (list Span);
  wa_reports : list FileReport
}.

Definition walk_start (known : gmap string N) : LakeWalk := {|
  wa_known := known; wa_new_files := 0; wa_bytes_seen := 0; wa_ob_snapshots := 0; wa_trades := 0;
  wa_groups := []; wa_reports := []
|}.

Definition note_file (path : string) (size : N) (already_seen : bool) (r : FileReport) (w : LakeWalk) : LakeWalk :=
  let key := (fr_exchange r, fr_symbol r, fr_kind r) in {|
  wa_known := <[path := size]> (wa_known w);
  wa_new_files := if already_seen then wa_new_files w else u64_add (wa_new_files w) 1;
  wa_bytes_seen := u64_add (wa_bytes_seen w) size;
  wa_ob_snapshots := match fr_kind r with
                     | KindOrderbook => u64_add (wa_ob_snapshots w) (fr_distinct_ts_count r)
                     | KindTrades => wa_ob_snapshots w end;
  wa_trades := match fr_kind r with
               | KindOrderbook => wa_trades w
               | KindTrades => u64_add (wa_trades w) (fr_row_count r) end;
  wa_groups := bt_insert key (default [] (bt_get key (wa_groups w)) ++
                              [(fr_first_ts r, fr_last_ts r, path)]) (wa_groups w);
  wa_reports := wa_reports w ++ [r]
|}.

Definition count_report (per : btree string ExchangeStats) (r : FileReport) : btree string ExchangeStats :=
  let s := default ExchangeStats_default (bt_get (fr_exchange r) per) in
  bt_insert (fr_exchange r) {|
    es_files := u64_add (es_files s) 1;
    es_bytes := u64_add (es_bytes s) (fr_size_bytes r);
    es_orderbook_snapshots := match fr_kind r with
      | KindOrderbook => u64_add (es_orderbook_snapshots s) (fr_distinct_ts_count r)
      | KindTrades => es_orderbook_snapshots s end;
    es_trades := match fr_kind r with
      | KindOrderbook => es_trades s
      | KindTrades => u64_add (es_trades s) (fr_row_count r) end |} per.

Definition cumulate (c : Cumulative) (w : LakeWalk) : Cumulative := {|
  cu_runs := u64_add (cu_runs c) 1;
  cu_distinct_files := N.of_nat (size (wa_known w));
  cu_bytes := fold_left (fun n e => u64_add n e.2) (map_to_list (wa_known w)) 0;
  cu_orderbook_snapshots := u64_add (cu_orderbook_snapshots c) (wa_ob_snapshots w);
  cu_trades := u64_add (cu_trades c) (wa_trades w);
  cu_per_exchange := fold_left count_report (wa_reports w) (cu_per_exchange c)
|}.

(** What a run makes of its walk. *)
Record Outcome := {
  oc_tests : list TestOutcome;
  oc_summary : RunSummary;
  oc_reports : list FileReport;
  oc_state : State
}.

Definition conclude (st : State) (started ended : N) (t01_failures : list string) (w : LakeWalk) : Outcome :=
  let tests := aggregate_results t01_failures (wa_reports w) (overlap_failures (wa_groups w)) in
  let failed := List.filter (fun t => negb (to_passed t)) tests in
  let summary := {|
    rs_run_id := u64_add (cu_runs (st_cumulative st)) 1;
    rs_started_at_unix_ms := started;
    rs_ended_at_unix_ms := ended;
    rs_files_seen := N.of_nat (length (wa_reports w));
    rs_new_files := wa_new_files w;
    rs_bytes_seen := wa_bytes_seen w;
    rs_total_orderbook_snapshots := wa_ob_snapshots w;
    rs_total_trades := wa_trades w;
    rs_tests_passed := N.of_nat (length (List.filter to_passed tests));
    rs_tests_failed := N.of_nat (length failed);
    rs_failed_test_codes := to_code <$> failed |} in {|
  oc_tests := tests;
  oc_summary := summary;
  oc_reports := wa_reports w;
  oc_state := {| st_runs := st_runs st ++ [summary];
                 st_cumulative := cumulate (st_cumulative st) w;
                 st_known_files := wa_known w |}
|}.

Section Program.
Context {NU : Numeric} {PQ : Parquet} {DK : Disk}.
Local Open Scope io_scope.

(** A failing call that is taken for an empty answer. *)
Definition or_empty {A} (d : A) (m : IO A) : IO A :=
  fun s => match m s with (s, Ok a) => (s, Ok a) | (s, Err _) => (s, Ok d) end.

Definition parquet_files_in (dir : string) : IO (list string) :=
  or_empty [] (let! names := read_dir dir in
              io_ret (sort_by str_leb (List.filter has_parquet_extension names))).

(** A directory is there with the ones below it. *)
Definition dir_exists (d : string) (s : Fs) : bool :=
  existsb (fun x => String.eqb x d || String.prefix (d ++ "/") x) (elements (fs_dirs s)).

(** The entries of [root] that are expected, each once. *)
Definition discover_exchanges (root : string) (expected : list string) : IO (list string) :=
  or_empty [] (sys (io_get (fun s =>
    sort_by str_leb (remove_dups (List.filter (fun x =>
      lacks "/" x && negb (is_empty x) && dir_exists (path_join root x) s) expected))))).

Definition validate_orderbook_file (p : Path) : IO (option FileValidation) :=
  let! r := load_parquet_to_ob p in io_ret (option_map check_books r).

Definition validate_trades_file (p : Path) : IO (option FileValidation) :=
  let! r := read_trades_parquet p in io_ret (option_map check_trades r).

(** [None]: the reader panicked. *)
Definition validate_file (cli : Cli) (p : Path) (exchange : string) (kind : DataKind) (size : N)
    : IO (option FileReport) :=
  let! v := match kind with
            | KindOrderbook => validate_orderbook_file p
            | KindTrades => validate_trades_file p
            end in
  io_ret (option_map (file_report cli p exchange kind size) v).

Definition visit_file (cli : Cli) (ex : string) (kind : DataKind) (p : Path) (w : LakeWalk) : IO (option LakeWalk) :=
  let path := path_join p.1 p.2 in
  let! size := or_empty 0 (file_len p) in
  let already_seen := bool_decide (wa_known w !! path = Some size) in
  if cli_skip_seen cli && already_seen then io_ret (Some w)
  else
    let! r := or_empty (Some (unreadable_report p ex kind size)) (validate_file cli p ex kind size) in
    io_ret (option_map (fun r => note_file path size already_seen r w) r).

Fixpoint visit_files (cli : Cli) (ex : string) (kind : DataKind) (dir : string) (names : list string)
    (w : LakeWalk) : IO (option LakeWalk) :=
  match names with
  | [] => io_ret (Some w)
  | n :: names =>
    let! w := visit_file cli ex kind (dir, n) w in
    match w with
    | None => io_ret None
    | Some w => visit_files cli ex kind dir names w
    end
  end.

Definition kind_dir (cli : Cli) (ex : string) (kind : DataKind) : string :=
  path_join (path_join (cli_data_dir cli) ex) (DataKind_dir_name kind).

(** Both directories of each exchange, in order. *)
Fixpoint visit_dirs (cli : Cli) (dirs : list (string * DataKind)) (w : LakeWalk) : IO (option LakeWalk) :=
  match dirs with
  | [] => io_ret (Some w)
  | (ex, kind) :: dirs =>
    let dir := kind_dir cli ex kind in
    let! names := parquet_files_in dir in
    let! w := visit_files cli ex kind dir names w in
    match w with
    | None => io_ret None
    | Some w => visit_dirs cli dirs w
    end
  end.

Definition both_kinds (exchanges : list string) : list (string * DataKind) :=
  exchanges ≫= fun ex => [(ex, KindOrderbook); (ex, KindTrades)].

Fixpoint missing_dirs (cli : Cli) (dirs : list (string * DataKind)) : IO (list string) :=
  match dirs with
  | [] => io_ret []
  | (ex, kind) :: dirs =>
    let! names := parquet_files_in (kind_dir cli ex kind) in
    let! rest := missing_dirs cli dirs in
    io_ret (match names with
            | [] => (ex ++ "/" ++ DataKind_dir_name kind ++ ": 0 .parquet files")%string :: rest
            | _ => rest
            end)
  end.

(** From the state to the outcome; [None]: a panic. *)
Definition run_checks (cli : Cli) (st : State) (started ended : N) : IO (option Outcome) :=
  let! exchanges := discover_exchanges (cli_data_dir cli) (cli_expect_exchanges cli) in
  let! t01 := missing_dirs cli (both_kinds (cli_expect_exchanges cli)) in
  let! w := visit_dirs cli (both_kinds exchanges) (walk_start (st_known_files st)) in
  io_ret (option_map (conclude st started ended t01) w).
End Program.

(** ** The program *)

(** [serde_json] on the state and on the report of a run *)
Class CheckerJson := {
  state_to_json : State -> Result string string;
  state_of_json : string -> Result State string;
  report_to_json : RunSummary -> list TestOutcome -> list FileReport -> Result string string
}.

Section Main.
Context {NU : Numeric} {PQ : Parquet} {DK : Disk} {CJ : CheckerJson}.
Local Open Scope io_scope.

(** The directory is made if it can be. *)
Definition write_json (p : Path) (json : Result string string) : IO unit :=
  do! ignore (create_dir_all p.1) in
  let! json := io_lift (map_err PersistJson json) in
  do! create_file p in
  append_bytes p json PersistIo.

Definition load_state (p : Path) : IO State :=
  let! there := io_get (file_exists p) in
  if there : bool then
    let! bytes := read_file p in
    if is_empty bytes then io_ret State_default
    else io_lift (map_err PersistJson (state_of_json bytes))
  else io_ret State_default.

Definition save_state (p : Path) (st : State) : IO unit := write_json p (state_to_json st).

(** The exit status; [None]: a panic.  An error of [main] ends the process with status 1. *)
Definition validate_main (cli : Cli) (started ended : N) : IO (option N) :=
  let! st := load_state (cli_state_file cli) in
  let! o := run_checks cli st started ended in
  match o with
  | None => io_ret None
  | Some o =>
    do! write_json (cli_report_out cli) (report_to_json (oc_summary o) (oc_tests o) (oc_reports o)) in
    do! save_state (cli_state_file cli) (oc_state o) in
    io_ret (Some (if 0 <? rs_tests_failed (oc_summary o) then 1 else 0))
  end.
End Main.
