(* ===== verification/ValidateProps.v ===== *)
(** * What the checker establishes

    Theorems about [Validate]: what each check of a file decides, when a run
    passes, and how the checker and the archive it is meant for fit together. *)
From Stdlib Require Import QArith Ascii String ZArith Floats.SpecFloat Sorting.Sorted.
From stdpp Require Import strings pretty.
From S2P Require Import Prelude BTree Strings Numeric Pairs Types Book Disk Leaf Columnar ColumnarProps Flusher FlusherProps Sign LocalSource ObjectStore Entrepot EntrepotProps Validate.
Local Open Scope string_scope.
Local Open Scope list_scope.
Local Open Scope N_scope.

(** ** The checks of a list of rows *)

Lemma non_decreasing_sorted l : non_decreasing l = true <-> StronglySorted N.le l.
Proof.
  assert (H : non_decreasing l = true <-> Sorted N.le l).
  { induction l as [|a [|b l] IH]; [split; [intros _; repeat constructor|done]..|].
    cbn [non_decreasing]. rewrite andb_true_iff, IH, N.leb_le. split.
    - intros [Hab Hs]. constructor; [done|by constructor].
    - intros [Hs Hab]%Sorted_inv. split; [by inversion Hab|done]. }
  rewrite H. split; [apply Sorted_StronglySorted; intros ???; lia|apply StronglySorted_Sorted].
Qed.

Lemma last_default {A} (l : list A) d : List.last l d = default d (last l).
Proof. induction l as [|a [|b l] IH]; [done|done|]. by rewrite last_cons_cons, <- IH. Qed.

(** The first of a sorted list is at most its last. *)
Lemma sorted_ends (a : N) l : StronglySorted N.le (a :: l) -> a <= List.last (a :: l) 0.
Proof.
  intros [_ Ha]%StronglySorted_inv. rewrite last_default.
  destruct (last (a :: l)) as [b|] eqn:E; [|by apply last_None in E].
  apply last_Some_elem_of in E. apply elem_of_cons in E as [->|E]; [simpl; lia|].
  rewrite Forall_forall in Ha. simpl. auto.
Qed.

Lemma scan_ts_spec seen ts :
  (scan_ts seen ts).2 = false <-> NoDup ts /\ forall t, t ∈ ts -> t ∉ seen.
Proof.
  revert seen. induction ts as [|t ts IH]; intros seen; simpl.
  - split; [|done]. intros _. split; [constructor|]. intros t Ht. by apply not_elem_of_nil in Ht.
  - case_bool_decide as Ht; simpl.
    + split; [done|]. intros [_ H]. exfalso. apply (H t); [by left|done].
    + rewrite IH, NoDup_cons. set_solver.
Qed.

Lemma scan_ts_size seen ts : (scan_ts seen ts).2 = false ->
  size (scan_ts seen ts).1 = (size seen + length ts)%nat.
Proof.
  revert seen. induction ts as [|t ts IH]; intros seen; simpl; [lia|].
  case_bool_decide as Ht; [done|]. intros H. rewrite IH by done.
  rewrite size_union by set_solver. rewrite size_singleton. lia.
Qed.

Lemma code_if_nil b t : code_if b t = [] <-> b = false.
Proof. by destruct b. Qed.

Lemma elem_of_code_if c b t : c ∈ code_if b t <-> b = true /\ c = TestId_code t.
Proof. destruct b; simpl; set_solver. Qed.

Lemma existsb_false {A} (f : A -> bool) l : existsb f l = false <-> Forall (fun x => f x = false) l.
Proof.
  induction l as [|x l IH]; simpl; [by split|]. by rewrite orb_false_iff, IH, Forall_cons.
Qed.

Section Rows.
Context {NU : Numeric} {NL : NumericLaws NU}.

Lemma scan_books_spec c n books :
  scan_books c n books = (c || existsb book_crossed books, n || existsb book_non_positive books).
Proof.
  revert c n. induction books as [|b books IH]; intros c n; simpl; [by rewrite !orb_false_r|].
  rewrite IH, <- !orb_assoc. destruct (_ && _) eqn:E; [|done].
  apply andb_true_iff in E as [Hc Hn]. rewrite !orb_assoc, Hc, Hn. done.
Qed.

Lemma scan_trades_spec trades s :
  let r := fold_left scan_trade trades s in
  (ts_dupe r = false <-> ts_dupe s = false /\ NoDup (trade_id <$> trades) /\
     forall t, t ∈ trade_id <$> trades -> t ∉ ts_seen s) /\
  ts_bad r = ts_bad s || existsb bad_trade trades /\
  ts_distinct r = ts_distinct s ∪ list_to_set (source_trade_ts_us <$> trades).
Proof.
  revert s. induction trades as [|t trades IH]; intros s; simpl.
  - rewrite orb_false_r. split_and!; [|done|set_solver]. split; [|tauto].
    intros H. split_and!; [done|constructor|]. intros x Hx. by apply not_elem_of_nil in Hx.
  - destruct (IH (scan_trade s t)) as (Hd & Hb & Ht). split_and!.
    + rewrite Hd. simpl. rewrite orb_false_iff, bool_decide_eq_false, NoDup_cons. set_solver.
    + rewrite Hb. simpl. by rewrite orb_assoc.
    + rewrite Ht. simpl. set_solver.
Qed.

(** ** What the checks mean *)

(** The best bid is below the best ask, and every price and size is positive. *)
Definition book_sound (o : Orderbook) : Prop :=
  (forall b lb a la, bt_last (ob_bids o) = Some (b, lb) -> bt_first (ob_asks o) = Some (a, la) ->
     (dval b < dval a)%Q) /\
  forall p l, (p, l) ∈ ob_bids o ++ ob_asks o -> (0 < dval p)%Q /\ (0 < dval (level_volume l))%Q.

Definition trade_sound (t : Trade) : Prop :=
  (0 < dval (trade_price t))%Q /\ (0 < dval (trade_amount t))%Q.

Lemma dleb_false a b : dleb a b = false <-> (dval b < dval a)%Q.
Proof.
  unfold dleb. rewrite dcmp_val. destruct (Qcompare_spec (dval a) (dval b)) as [E|E|E].
  - split; [done|]. rewrite E. intros H. by apply Qlt_irrefl in H.
  - split; [done|]. intros H. by apply (Qlt_trans _ _ _ E), Qlt_irrefl in H.
  - done.
Qed.

Lemma dltb_true a b : dltb a b = true <-> (dval a < dval b)%Q.
Proof.
  unfold dltb. rewrite dcmp_val. destruct (Qcompare_spec (dval a) (dval b)) as [E|E|E].
  - split; [done|]. rewrite E. intros H. by apply Qlt_irrefl in H.
  - done.
  - split; [done|]. intros H. by apply (Qlt_trans _ _ _ E), Qlt_irrefl in H.
Qed.

Lemma book_crossed_iff o : book_crossed o = false <->
  forall b lb a la, bt_last (ob_bids o) = Some (b, lb) -> bt_first (ob_asks o) = Some (a, la) ->
    (dval b < dval a)%Q.
Proof.
  unfold book_crossed. destruct (bt_last (ob_bids o)) as [[b lb]|]; [|split; done].
  destruct (bt_first (ob_asks o)) as [[a la]|]; [|split; done].
  rewrite dleb_false. split; [intros H ???? [= <- <-] [= <- <-]; done|eauto].
Qed.

Lemma book_non_positive_iff o : book_non_positive o = false <->
  forall p l, (p, l) ∈ ob_bids o ++ ob_asks o -> (0 < dval p)%Q /\ (0 < dval (level_volume l))%Q.
Proof.
  unfold book_non_positive. rewrite existsb_false, Forall_forall. split.
  - intros H p l Hin. specialize (H _ Hin). unfold bad_level in H. simpl in H.
    apply orb_false_iff in H as [H1%dleb_false H2%dleb_false]. by rewrite dval_zero in H1, H2.
  - intros H [p l] Hin. apply H in Hin as [H1 H2]. unfold bad_level. simpl.
    apply orb_false_iff. rewrite !dleb_false, dval_zero. done.
Qed.

Lemma book_sound_iff o : book_crossed o = false /\ book_non_positive o = false <-> book_sound o.
Proof. by rewrite book_crossed_iff, book_non_positive_iff. Qed.

Lemma trade_sound_iff t : bad_trade t = false <-> trade_sound t.
Proof.
  unfold bad_trade, trade_sound. rewrite negb_false_iff, andb_true_iff, !dltb_true.
  by rewrite dval_zero.
Qed.
End Rows.

(** ** A file *)

(** The timestamps of a file: from [first] to [last], ascending, over the span expected. *)
Definition sound_times (cli : Cli) (kind : DataKind) (ts : list N) (first last_ : N) : Prop :=
  head ts = Some first /\ last ts = Some last_ /\ StronglySorted N.le ts /\
  span_in_range cli kind (last_ - first) = true.

Lemma sound_times_le cli kind ts first last_ : sound_times cli kind ts first last_ -> first <= last_.
Proof.
  intros (Hf & Hl & Hs & _). destruct ts as [|a ts]; [done|]. injection Hf as ->.
  pose proof (sorted_ends _ _ Hs) as H. by rewrite last_default, Hl in H.
Qed.

Section Files.
Context {NU : Numeric} {NL : NumericLaws NU} {PQ : Parquet}.

(** What a sound file holds. *)
Definition sound_rows (cli : Cli) (kind : DataKind) (path bytes : string) (first last_ : N) : Prop :=
  match kind with
  | KindTrades => exists l, decode_rows (table_row (A:=Trade) path) bytes = Some (Ok l) /\
      NoDup (trade_id <$> l) /\ Forall trade_sound l /\
      sound_times cli kind (source_trade_ts_us <$> l) first last_
  | KindOrderbook => exists rows books, decode_rows (table_row (A:=LevelRow) path) bytes = Some (Ok rows) /\
      group_books path (fold_left group_row rows []) = Ok books /\
      NoDup (orderbook_ts_us <$> books) /\ Forall book_sound books /\
      sound_times cli kind (orderbook_ts_us <$> books) first last_
  end.

Definition sound_file (cli : Cli) (kind : DataKind) (p : Path) (s : Fs) (first last_ : N) : Prop :=
  matches_convention p.2 kind = true /\
  exists bytes, file_at p s = Some bytes /\ bytes <> "" /\
    sound_rows cli kind (path_join p.1 p.2) bytes first last_.

(** What the program finds in a file; [None] is a panic of the reader. *)
Definition check_bytes (kind : DataKind) (path bytes : string) : option (Result FileValidation PersistError) :=
  match kind with
  | KindTrades =>
    match decode_rows (table_row (A:=Trade) path) bytes with
    | None => None | Some (Err e) => Some (Err e) | Some (Ok l) => Some (Ok (check_trades l))
    end
  | KindOrderbook =>
    match decode_rows (table_row (A:=LevelRow) path) bytes with
    | None => None | Some (Err e) => Some (Err e)
    | Some (Ok rows) =>
      match group_books path (fold_left group_row rows []) with
      | Err e => Some (Err e) | Ok books => Some (Ok (check_books books))
      end
    end
  end.

Definition report_of (cli : Cli) (ex : string) (kind : DataKind) (p : Path) (bytes : string) : option FileReport :=
  let size := N.of_nat (String.length bytes) in
  match check_bytes kind (path_join p.1 p.2) bytes with
  | None => None
  | Some (Ok v) => Some (file_report cli p ex kind size v)
  | Some (Err _) => Some (unreadable_report p ex kind size)
  end.

Definition sound_validation (cli : Cli) (kind : DataKind) (v : FileValidation) : Prop :=
  fv_failed v = [] /\ fv_row_count v <> 0 /\ fv_monotonic v = true /\
  span_in_range cli kind (fv_last_ts v - fv_first_ts v) = true.

Lemma sound_validation_times cli kind ts first (v : FileValidation) :
  fv_row_count v <> 0 -> fv_first_ts v = first ->
  fv_last_ts v = List.last (first :: ts) 0 -> fv_monotonic v = non_decreasing (first :: ts) ->
  sound_validation cli kind v <->
  fv_failed v = [] /\ sound_times cli kind (first :: ts) (fv_first_ts v) (fv_last_ts v).
Proof.
  intros Hc Hf Hl Hm. unfold sound_validation, sound_times.
  rewrite Hf, Hl, Hm, non_decreasing_sorted, last_default. simpl head.
  destruct (last (first :: ts)) as [l|] eqn:E; [|by apply last_None in E]. simpl. naive_solver.
Qed.

Lemma check_trades_sound cli l :
  sound_validation cli KindTrades (check_trades l) <->
  NoDup (trade_id <$> l) /\ Forall trade_sound l /\
  sound_times cli KindTrades (source_trade_ts_us <$> l)
    (fv_first_ts (check_trades l)) (fv_last_ts (check_trades l)).
Proof.
  destruct l as [|t l].
  { split; [by intros (_ & H & _)|]. intros (_ & _ & H & _). discriminate H. }
  rewrite (sound_validation_times _ _ (source_trade_ts_us <$> l) (source_trade_ts_us t)) by done.
  rewrite <- fmap_cons.
  match goal with |- ?A /\ ?T <-> ?B /\ ?C /\ ?T => enough (A <-> B /\ C) as -> by tauto end.
  unfold check_trades. cbn [fv_failed].
  set (s0 := {| ts_seen := ∅; ts_dupe := false; ts_distinct := ∅; ts_bad := false |}).
  destruct (scan_trades_spec (t :: l) s0) as (Hd & Hb & _).
  rewrite app_nil, !code_if_nil. rewrite Hd, Hb. simpl ts_bad. rewrite orb_false_l, existsb_false.
  assert (Forall (fun x => bad_trade x = false) (t :: l) <-> Forall trade_sound (t :: l)) as ->.
  { apply Forall_iff. intros x. by rewrite trade_sound_iff. }
  simpl. set_solver.
Qed.

Lemma check_books_sound cli books :
  sound_validation cli KindOrderbook (check_books books) <->
  NoDup (orderbook_ts_us <$> books) /\ Forall book_sound books /\
  sound_times cli KindOrderbook (orderbook_ts_us <$> books)
    (fv_first_ts (check_books books)) (fv_last_ts (check_books books)).
Proof.
  destruct books as [|b books].
  { split; [by intros (_ & H & _)|]. intros (_ & _ & H & _). discriminate H. }
  unfold check_books. pose proof (scan_ts_spec ∅ (orderbook_ts_us <$> b :: books)) as Hs.
  destruct (scan_ts ∅ _) as [seen dupe]. rewrite scan_books_spec.
  rewrite (sound_validation_times _ _ (orderbook_ts_us <$> books) (orderbook_ts_us b)) by done.
  cbn [fv_failed fv_first_ts fv_last_ts]. rewrite !app_nil, !code_if_nil, !orb_false_l, !existsb_false.
  simpl in Hs. rewrite Hs. rewrite fmap_cons.
  assert (Forall book_sound (b :: books) <->
    Forall (fun x => book_crossed x = false) (b :: books) /\
    Forall (fun x => book_non_positive x = false) (b :: books)) as ->.
  { rewrite <- Forall_and. apply Forall_iff. intros x. by rewrite book_sound_iff. }
  set_solver.
Qed.

Lemma file_report_sound cli p ex kind size v :
  fr_failed (file_report cli p ex kind size v) = [] <->
  matches_convention p.2 kind = true /\ size <> 0 /\ sound_validation cli kind v.
Proof.
  unfold file_report, sound_validation. cbn [fr_failed].
  rewrite !app_nil, !code_if_nil, orb_false_iff, !negb_false_iff, !N.eqb_neq. tauto.
Qed.

Lemma check_trades_times cli kind l f l' :
  sound_times cli kind (source_trade_ts_us <$> l) f l' ->
  fv_first_ts (check_trades l) = f /\ fv_last_ts (check_trades l) = l'.
Proof.
  intros (Hf & Hl & _). destruct l as [|t l]; [done|]. injection Hf as <-. split; [done|].
  cbn [check_trades fv_last_ts]. by rewrite last_default, Hl.
Qed.

Lemma check_books_times cli kind books f l :
  sound_times cli kind (orderbook_ts_us <$> books) f l ->
  fv_first_ts (check_books books) = f /\ fv_last_ts (check_books books) = l.
Proof.
  intros (Hf & Hl & _). destruct books as [|b books]; [done|]. injection Hf as <-. unfold check_books.
  destruct (scan_ts ∅ _), (scan_books false false _). split; [done|].
  cbn [fv_last_ts]. by rewrite last_default, Hl.
Qed.

Lemma check_bytes_sound cli kind path bytes v :
  check_bytes kind path bytes = Some (Ok v) ->
  (sound_validation cli kind v -> sound_rows cli kind path bytes (fv_first_ts v) (fv_last_ts v)) /\
  forall f l, sound_rows cli kind path bytes f l ->
    sound_validation cli kind v /\ fv_first_ts v = f /\ fv_last_ts v = l.
Proof.
  unfold check_bytes, sound_rows. destruct kind; intros E.
  - destruct (decode_rows _ _) as [[rows|]|]; simplify_eq.
    destruct (group_books _ _) as [books|] eqn:Eg; simplify_eq.
    split; [intros H%check_books_sound; by eauto 10|].
    intros f l (? & ? & [= <-] & Hg & Hn & Hs & Ht). rewrite Eg in Hg. injection Hg as <-.
    rewrite check_books_sound.
    by destruct (check_books_times _ _ _ _ _ Ht) as [-> ->].
  - destruct (decode_rows _ _) as [[rows|]|]; simplify_eq.
    split; [intros H%check_trades_sound; by eauto 10|].
    intros f l (? & [= <-] & Hn & Hs & Ht). rewrite check_trades_sound.
    by destruct (check_trades_times _ _ _ _ _ Ht) as [-> ->].
Qed.

(** A report without failures is that of a sound file, with its times. *)
Lemma report_sound cli ex kind p s bytes r :
  file_at p s = Some bytes -> report_of cli ex kind p bytes = Some r ->
  (fr_failed r = [] -> sound_file cli kind p s (fr_first_ts r) (fr_last_ts r)) /\
  (forall f l, sound_file cli kind p s f l ->
     fr_failed r = [] /\ fr_first_ts r = f /\ fr_last_ts r = l).
Proof.
  intros Hb. unfold report_of, sound_file. rewrite Hb.
  assert (Hsize : forall b, N.of_nat (String.length b) <> 0 <-> b <> ""%string).
  { intros [|c b]; simpl; [done|]. split; [done|lia]. }
  destruct (check_bytes kind (path_join p.1 p.2) bytes) as [[v|e]|] eqn:E; [| |done]; intros [= <-].
  - rewrite file_report_sound, Hsize. cbn [fr_first_ts fr_last_ts file_report].
    destruct (check_bytes_sound cli _ _ _ _ E) as [Hv1 Hv2]. split.
    + intros (Hm & Hne & Hv). eauto 10.
    + intros f l (Hm & ? & [= <-] & Hne & Hr). apply Hv2 in Hr as (? & -> & ->).
      by rewrite file_report_sound, Hsize.
  - split; [done|]. intros f l (Hm & ? & [= <-] & Hne & Hr). exfalso.
    unfold check_bytes, sound_rows in *. destruct kind.
    + destruct Hr as (rows & books & Hd & Hg & _). rewrite Hd, Hg in E. done.
    + destruct Hr as (l' & Hd & _). rewrite Hd in E. done.
Qed.
End Files.

(** ** Reading a disk that answers *)

Definition same_files (s s0 : Fs) : Prop := fs_dirs s0 = fs_dirs s /\ fs_files s0 = fs_files s.

Lemma same_files_at s s0 p : same_files s s0 -> file_at p s0 = file_at p s.
Proof. intros [_ H]. unfold file_at. by rewrite H. Qed.

(** [m] ends with [r] on a disk with these files, and leaves them. *)
Definition finds {A} (m : IO A) (s : Fs) (r : Result A PersistError) : Prop :=
  forall s0, same_files s s0 -> exists s1, m s0 = (s1, r) /\ same_files s s1.

Lemma finds_ret {A} (a : A) s : finds (io_ret a) s (Ok a).
Proof. intros s0 H. by exists s0. Qed.

Lemma finds_lift {A} (r : Result A PersistError) s : finds (io_lift r) s r.
Proof. intros s0 H. by exists s0. Qed.

Lemma finds_bind {A B} (m : IO A) (k : A -> IO B) s r r' :
  finds m s r ->
  match r with Ok a => finds (k a) s r' | Err e => r' = Err e end ->
  finds (io_bind m k) s r'.
Proof.
  intros Hm Hk s0 H0. destruct (Hm s0 H0) as (s1 & E & H1). unfold io_bind. rewrite E.
  destruct r as [a|e]; [by apply Hk|]. subst. by exists s1.
Qed.

Lemma finds_map {A B} (m : IO A) (f : A -> B) s r r' :
  finds m s r -> r' = match r with Ok a => Ok (f a) | Err e => Err e end ->
  finds (io_bind m (fun a => io_ret (f a))) s r'.
Proof. intros Hm ->. eapply finds_bind; [exact Hm|]. destruct r; [apply finds_ret|done]. Qed.

Lemma finds_or_empty {A} (d : A) (m : IO A) s r :
  finds m s r -> finds (or_empty d m) s (Ok (match r with Ok a => a | Err _ => d end)).
Proof.
  intros Hm s0 H0. destruct (Hm s0 H0) as (s1 & E & H1). exists s1. unfold or_empty. rewrite E.
  by destruct r.
Qed.

(** The files with the extension, in the order of their names. *)
Definition parquet_names (dir : string) (s : Fs) : list string :=
  sort_by str_leb (List.filter has_parquet_extension (names_in dir s)).

(** The expected directories that are there. *)
Definition discovered (root : string) (expected : list string) (s : Fs) : list string :=
  sort_by str_leb (remove_dups (List.filter (fun x =>
    lacks "/" x && negb (is_empty x) && dir_exists (path_join root x) s) expected)).

(** A file has a directory. *)
Definition housed (s : Fs) : Prop := forall p c, file_at p s = Some c -> p.1 ∈ fs_dirs s.

Lemma elem_of_parquet_names dir n s :
  n ∈ parquet_names dir s <-> has_parquet_extension n = true /\ file_exists (dir, n) s = true.
Proof.
  unfold parquet_names. rewrite sort_by_perm, list_elem_of_In, filter_In, <- list_elem_of_In.
  rewrite elem_of_names_in. tauto.
Qed.

Lemma NoDup_names_in dir s : NoDup (names_in dir s).
Proof.
  unfold names_in. pose proof (NoDup_fst_map_to_list (fs_files s)) as H.
  induction (map_to_list (fs_files s)) as [|[[d n] c] l IH]; simpl; [constructor|].
  apply NoDup_cons in H as [Hn H]. destruct (String.eqb_spec d dir) as [->|]; [|by apply IH].
  constructor; [|by apply IH]. intros Hin. apply list_elem_of_omap in Hin as ([[d' n'] c'] & Hin & He).
  simpl in He. destruct (String.eqb_spec d' dir) as [->|]; [|done]. injection He as ->.
  apply Hn. apply list_elem_of_fmap. by exists ((dir, n), c').
Qed.

Lemma NoDup_parquet_names dir s : NoDup (parquet_names dir s).
Proof.
  unfold parquet_names. rewrite sort_by_perm. apply NoDup_ListNoDup, List.NoDup_filter.
  apply NoDup_ListNoDup, NoDup_names_in.
Qed.

Section Reading.
Context {NU : Numeric} {PQ : Parquet} {DK : Disk}.
Context (quiet : forall n, disk_fault n = None).

Lemma finds_sys {A} (act : IO A) s r :
  (forall s0, same_files s s0 -> act s0 = (s0, r)) -> finds (sys act) s r.
Proof.
  intros H s0 H0. unfold sys. rewrite quiet. rewrite H by done. by exists (next_call s0).
Qed.

Lemma finds_read_file p s bytes : file_at p s = Some bytes -> finds (read_file p) s (Ok bytes).
Proof. intros E. apply finds_sys. intros s0 H0. by rewrite (same_files_at _ _ _ H0), E. Qed.

Lemma finds_parquet_files_in dir s : housed s -> finds (parquet_files_in dir) s (Ok (parquet_names dir s)).
Proof.
  intros Hs. set (r := if bool_decide (dir ∈ fs_dirs s) then Ok (names_in dir s) else Err not_found).
  assert (Hr : finds (read_dir dir) s r).
  { apply finds_sys. intros s0 [Hd Hf]. unfold names_in. rewrite Hd, Hf. unfold r.
    by case_bool_decide. }
  replace (parquet_names dir s) with
    (match (match r with Ok l => Ok (sort_by str_leb (List.filter has_parquet_extension l)) | Err e => Err e end)
     with Ok l => l | Err _ => [] end).
  - apply finds_or_empty. eapply finds_bind; [exact Hr|]. destruct r; [apply finds_ret|done].
  - unfold r. case_bool_decide as E; [done|]. unfold parquet_names.
    destruct (names_in dir s) as [|n l] eqn:En; [done|]. exfalso. apply E.
    assert (Hn : file_exists (dir, n) s = true) by (apply elem_of_names_in; rewrite En; by left).
    unfold file_exists in Hn. destruct (file_at (dir, n) s) eqn:Ef; [|done]. by apply Hs in Ef.
Qed.

Lemma finds_discover root expected s :
  finds (discover_exchanges root expected) s (Ok (discovered root expected s)).
Proof.
  apply (finds_or_empty [] _ s (Ok (discovered root expected s))). apply finds_sys.
  intros s0 [Hd _]. unfold io_get, discovered, dir_exists. by rewrite Hd.
Qed.

Lemma finds_read_table {A} {TB : Table A} p s bytes :
  file_at p s = Some bytes ->
  finds (read_table (A:=A) p) s
    (match decode_rows (table_row (path_join p.1 p.2)) bytes with
     | None => Ok None | Some (Ok l) => Ok (Some l) | Some (Err e) => Err e end).
Proof.
  intros E. eapply finds_bind; [by apply finds_read_file|]. cbv beta iota.
  destruct (decode_rows _ _) as [[l|e]|]; [apply finds_ret| |apply finds_ret].
  intros s0 H0. by exists s0.
Qed.

Lemma finds_validate_file cli ex kind p s bytes size :
  file_at p s = Some bytes ->
  finds (validate_file cli p ex kind size) s
    (match check_bytes kind (path_join p.1 p.2) bytes with
     | None => Ok None | Some (Err e) => Err e
     | Some (Ok v) => Ok (Some (file_report cli p ex kind size v)) end).
Proof.
  intros E. unfold validate_file, check_bytes. destruct kind.
  - set (rows := decode_rows (table_row (A:=LevelRow) (path_join p.1 p.2)) bytes).
    assert (Hl : finds (load_parquet_to_ob p) s
      (match rows with
       | None => Ok None | Some (Err e) => Err e
       | Some (Ok rows) => match group_books (path_join p.1 p.2) (fold_left group_row rows []) with
                           | Ok books => Ok (Some books) | Err e => Err e end end)).
    { eapply finds_bind; [by apply finds_read_table|]. fold rows. cbv beta iota.
      destruct rows as [[rs|e]|]; [|done|apply finds_ret].
      eapply finds_bind; [apply finds_lift|]. destruct (group_books _ _); [apply finds_ret|done]. }
    eapply finds_map; [eapply finds_map; [exact Hl|reflexivity]|].
    destruct rows as [[rs|e]|]; [by destruct (group_books _ _)|done..].
  - eapply finds_map; [eapply finds_map; [by apply finds_read_table|reflexivity]|].
    by destruct (decode_rows _ _) as [[l|e]|].
Qed.

(** ** The walk *)

(** A report joins the walk. *)
Definition note (w : LakeWalk) (r : FileReport) : LakeWalk :=
  note_file (fr_path r) (fr_size_bytes r)
    (bool_decide (wa_known w !! fr_path r = Some (fr_size_bytes r))) r w.

(** The files of the directories, and their reports; [None]: a reader panics. *)
Definition lake_files (cli : Cli) (dirs : list (string * DataKind)) (s : Fs)
    : list (string * DataKind * string) :=
  dirs ≫= fun d => (fun n => (d, n)) <$> parquet_names (kind_dir cli d.1 d.2) s.

Definition file_path (cli : Cli) (f : string * DataKind * string) : Path :=
  (kind_dir cli f.1.1 f.1.2, f.2).

Definition lake_report (cli : Cli) (s : Fs) (f : string * DataKind * string) : option FileReport :=
  bytes ← file_at (file_path cli f) s; report_of cli f.1.1 f.1.2 (file_path cli f) bytes.

Definition lake_reports (cli : Cli) (s : Fs) (fs : list (string * DataKind * string))
    : option (list FileReport) := mapM (lake_report cli s) fs.

Lemma report_of_facts cli ex kind p bytes r :
  report_of cli ex kind p bytes = Some r ->
  fr_path r = path_join p.1 p.2 /\ fr_size_bytes r = N.of_nat (String.length bytes) /\
  fr_exchange r = ex /\ fr_kind r = kind /\ fr_symbol r = default "" (parse_symbol_from_filename p.2).
Proof. unfold report_of. destruct (check_bytes _ _ _) as [[v|e]|]; [| |done]; by intros [= <-]. Qed.

Lemma finds_visit_file cli ex kind p s bytes w r :
  cli_skip_seen cli = false -> file_at p s = Some bytes -> report_of cli ex kind p bytes = Some r ->
  finds (visit_file cli ex kind p w) s (Ok (Some (note w r))).
Proof.
  intros Hskip E Hr. destruct (report_of_facts _ _ _ _ _ _ Hr) as (Hp & Hz & _).
  unfold visit_file. rewrite Hskip. cbn [andb].
  eapply finds_bind.
  { apply finds_or_empty. eapply finds_map; [by apply finds_read_file|reflexivity]. }
  cbv beta iota. eapply finds_map; [by apply finds_or_empty, finds_validate_file|].
  unfold note. rewrite Hp, Hz. unfold report_of in Hr.
  destruct (check_bytes kind _ bytes) as [[v|e]|]; [| |done]; by injection Hr as <-.
Qed.

Lemma finds_visit_files cli ex kind dir names s w rs :
  cli_skip_seen cli = false ->
  dir = kind_dir cli ex kind ->
  lake_reports cli s ((fun n => (ex, kind, n)) <$> names) = Some rs ->
  finds (visit_files cli ex kind dir names w) s (Ok (Some (fold_left note rs w))).
Proof.
  intros Hskip ->. revert w rs. induction names as [|n names IH]; intros w rs Hrs.
  - injection Hrs as <-. apply finds_ret.
  - rewrite fmap_cons in Hrs. unfold lake_reports in Hrs. apply mapM_Some in Hrs.
    apply Forall2_cons_inv_l in Hrs as (r & rs' & Hr & Hrs & ->). unfold lake_report in Hr.
    destruct (file_at _ s) as [bytes|] eqn:E; [|done]. simpl in Hr.
    eapply finds_bind; [by eapply finds_visit_file|]. cbv beta iota.
    apply (IH (note w r) rs'). by apply mapM_Some.
Qed.

Lemma finds_visit_dirs cli dirs s w rs :
  cli_skip_seen cli = false -> housed s ->
  lake_reports cli s (lake_files cli dirs s) = Some rs ->
  finds (visit_dirs cli dirs w) s (Ok (Some (fold_left note rs w))).
Proof.
  intros Hskip Hs. revert w rs. induction dirs as [|[ex kind] dirs IH]; intros w rs Hrs.
  - injection Hrs as <-. apply finds_ret.
  - unfold lake_files in Hrs. rewrite bind_cons in Hrs. apply mapM_Some in Hrs.
    apply Forall2_app_inv_l in Hrs as (rs1 & rs2 & H1 & H2 & ->).
    eapply finds_bind; [by apply finds_parquet_files_in|]. cbv beta iota.
    eapply finds_bind; [by eapply finds_visit_files, mapM_Some|]. cbv beta iota.
    rewrite fold_left_app. apply IH. by apply mapM_Some.
Qed.

(** The expected directories without files. *)
Definition missing (cli : Cli) (dirs : list (string * DataKind)) (s : Fs) : list string :=
  dirs ≫= fun d => match parquet_names (kind_dir cli d.1 d.2) s with
                   | [] => [(d.1 ++ "/" ++ DataKind_dir_name d.2 ++ ": 0 .parquet files")%string]
                   | _ => [] end.

Lemma finds_missing_dirs cli dirs s :
  housed s -> finds (missing_dirs cli dirs) s (Ok (missing cli dirs s)).
Proof.
  intros Hs. induction dirs as [|[ex kind] dirs IH]; [apply finds_ret|].
  eapply finds_bind; [by apply finds_parquet_files_in|]. cbv beta iota.
  eapply finds_map; [exact IH|]. unfold missing. rewrite bind_cons. simpl.
  by destruct (parquet_names _ s).
Qed.

(** A run on a disk that answers. *)
Lemma finds_run_checks cli st started ended s rs :
  cli_skip_seen cli = false -> housed s ->
  lake_reports cli s (lake_files cli
    (both_kinds (discovered (cli_data_dir cli) (cli_expect_exchanges cli) s)) s) = Some rs ->
  finds (run_checks cli st started ended) s
    (Ok (Some (conclude st started ended (missing cli (both_kinds (cli_expect_exchanges cli)) s)
                 (fold_left note rs (walk_start (st_known_files st)))))).
Proof.
  intros Hskip Hs Hrs. eapply finds_bind; [apply finds_discover|]. cbv beta iota.
  eapply finds_bind; [by apply finds_missing_dirs|]. cbv beta iota.
  eapply finds_map; [by apply finds_visit_dirs|]. done.
Qed.
End Reading.

(** ** Groups *)

Definition report_key (r : FileReport) : GroupKey := (fr_exchange r, fr_symbol r, fr_kind r).
Definition report_span (r : FileReport) : Span := (fr_first_ts r, fr_last_ts r, fr_path r).
Definition entry (r : FileReport) : GroupKey * Span := (report_key r, report_span r).

Lemma group_key_eq (a b : GroupKey) : key_eq a b -> a = b.
Proof.
  destruct a as [[e s] k], b as [[e' s'] k']. unfold key_eq, cmp, prod_cmp. simpl.
  unfold cmp, prod_cmp. simpl. unfold cmp, string_cmp.
  destruct (String.compare e e') eqn:E1; [|done..]. apply String.compare_eq_iff in E1 as ->.
  destruct (String.compare s s') eqn:E2; [|done..]. apply String.compare_eq_iff in E2 as ->.
  by destruct k, k'.
Qed.

Lemma notes_groups rs w rs0 :
  bt_wf (wa_groups w) ->
  (forall k, default [] (bt_get k (wa_groups w)) = of_key k (entry <$> rs0)) ->
  wa_reports w = rs0 ->
  let w' := fold_left note rs w in
  bt_wf (wa_groups w') /\ wa_reports w' = rs0 ++ rs /\
  forall k, default [] (bt_get k (wa_groups w')) = of_key k (entry <$> rs0 ++ rs).
Proof.
  revert w rs0. induction rs as [|r rs IH]; intros w rs0 Hwf Hg Hr; simpl; [by rewrite app_nil_r|].
  destruct (IH (note w r) (rs0 ++ [r])) as (H1 & H2 & H3).
  - by apply bt_insert_wf.
  - intros k. simpl. rewrite bt_get_insert, fmap_app, of_key_app, <- Hg. simpl.
    change (entry r) with (report_key r, report_span r).
    destruct (decide (k = report_key r)) as [->|Hne].
    + change (cmp _ _) with (cmp (report_key r) (report_key r)). rewrite cmp_refl, of_key_hit. done.
    + rewrite of_key_miss by done. destruct (cmp _ k) eqn:E; try (by rewrite app_nil_r).
      by apply group_key_eq in E.
  - simpl. by rewrite Hr.
  - rewrite <- (assoc_L (++)) in H2. split_and!; [done..|]. intros k. rewrite H3, <- (assoc_L (++)). done.
Qed.

(** ** Intervals *)

Definition apart (a b : Span) : Prop := a.1.2 < b.1.1 \/ b.1.2 < a.1.1.
Definition ordered (a : Span) : Prop := a.1.1 <= a.1.2.

#[export] Instance apart_sym : Symmetric apart.
Proof. intros a b [H|H]; [by right|by left]. Qed.

(** Neighbours are enough: among intervals in the order of their beginnings. *)
Lemma overlaps_nil ex sym kind l :
  StronglySorted (fun a b => by_first a b = true) l -> Forall ordered l ->
  overlaps ex sym kind l = [] <-> ForallOrdPairs apart l.
Proof.
  intros Hs Ho. induction Hs as [|a l Hs IH Ha]; [split; [constructor|done]|].
  apply Forall_cons in Ho as [Hoa Ho]. specialize (IH Ho).
  destruct l as [|b l]; [split; [intros _; repeat constructor|done]|].
  cbn [overlaps]. rewrite app_nil, IH. rewrite Forall_forall in Ha. unfold by_first in Ha.
  assert (Hf : forall x, x ∈ b :: l -> a.1.1 <= x.1.1) by (intros x Hx; by apply N.leb_le, Ha).
  split.
  - intros [Hab Hp]. constructor; [|done]. apply Forall_forall. intros x Hx. left.
    destruct (N.leb_spec b.1.1 a.1.2) as [|Hlt]; [done|].
    apply elem_of_cons in Hx as [->|Hx]; [lia|].
    apply StronglySorted_inv in Hs as [_ Hb]. rewrite Forall_forall in Hb.
    specialize (Hb x Hx). unfold by_first in Hb. apply N.leb_le in Hb. lia.
  - intros Hp. inversion Hp as [|? ? Hap Hp']; subst. split; [|done].
    apply Forall_cons in Hap as [Hab _]. specialize (Hf b ltac:(by left)).
    apply Forall_cons in Ho as [Hob _]. unfold ordered in *.
    destruct (N.leb_spec b.1.1 a.1.2); [|done]. exfalso. destruct Hab; lia.
Qed.

Lemma pairs_perm {A} (R : A -> A -> Prop) `{!Symmetric R} l l' :
  l ≡ₚ l' -> ForallOrdPairs R l -> ForallOrdPairs R l'.
Proof.
  intros Hp. induction Hp as [|x l l' Hp IH|x y l|l l' l'' _ IH _ IH']; intros H; [done| | |by auto].
  - inversion H; subst. constructor; [by rewrite <- Hp|auto].
  - inversion H as [|? ? Hy H']; subst. inversion H'; subst. apply Forall_cons in Hy as [Hyx Hy].
    constructor; [by constructor|by constructor].
Qed.

Lemma pairs_of_key {K A} `{EqDecision K} (R : A -> A -> Prop) (l : list (K * A)) :
  (forall k, ForallOrdPairs R (of_key k l)) <->
  ForallOrdPairs (fun x y => x.1 = y.1 -> R x.2 y.2) l.
Proof.
  assert (Hin : forall k a (l : list (K * A)), a ∈ of_key k l <-> (k, a) ∈ l).
  { intros k a l'. unfold of_key. rewrite list_elem_of_fmap. split.
    - intros ([k' a'] & -> & [<- H]%list_elem_of_filter). done.
    - intros H. exists (k, a). rewrite list_elem_of_filter. done. }
  induction l as [|[k a] l IH]; [split; constructor|]. split.
  - intros H. constructor.
    + apply Forall_forall. intros [k' a'] Hx. simpl. intros <-. specialize (H k).
      rewrite of_key_hit in H. inversion H as [|? ? Ha _]; subst. rewrite Forall_forall in Ha.
      apply Ha, Hin, Hx.
    + apply IH. intros k'. specialize (H k'). destruct (decide (k = k')) as [->|Hne].
      * rewrite of_key_hit in H. by inversion H.
      * by rewrite of_key_miss in H.
  - intros H k'. inversion H as [|? ? Ha Hl]; subst. pose proof (proj2 IH Hl k') as Hk.
    destruct (decide (k = k')) as [->|Hne]; [|by rewrite of_key_miss].
    rewrite of_key_hit. constructor; [|done]. rewrite Forall_forall in Ha.
    apply Forall_forall. intros a' Ha'%Hin. by apply (Ha (k', a')).
Qed.

Lemma pairs_fmap {A B} (f : A -> B) (R : B -> B -> Prop) l :
  ForallOrdPairs R (f <$> l) <-> ForallOrdPairs (fun x y => R (f x) (f y)) l.
Proof.
  induction l as [|a l IH]; [split; constructor|]. rewrite fmap_cons. split; intros H;
    inversion H as [|? ? Ha Hl]; subst; (constructor; [|by apply IH]).
  - by rewrite Forall_fmap in Ha.
  - by rewrite Forall_fmap.
Qed.

(** What holds of the images of any two different elements. *)
Lemma pairs_mapped {A B} (g : A -> option B) (R : B -> B -> Prop) `{!Symmetric R} xs ys :
  NoDup xs -> Forall2 (fun x y => g x = Some y) xs ys ->
  ForallOrdPairs R ys <->
  forall x1 x2 y1 y2, x1 ∈ xs -> x2 ∈ xs -> x1 <> x2 -> g x1 = Some y1 -> g x2 = Some y2 -> R y1 y2.
Proof.
  intros Hnd H. induction H as [|x y xs ys Hy H IH].
  { split; [|constructor]. intros _ x1 x2 y1 y2 Hx. by apply not_elem_of_nil in Hx. }
  apply NoDup_cons in Hnd as [Hx Hnd]. specialize (IH Hnd).
  assert (Hys : Forall (R y) ys <-> forall x2 y2, x2 ∈ xs -> g x2 = Some y2 -> R y y2).
  { rewrite Forall_forall. split.
    - intros Hr x2 y2 Hin E. apply Hr. apply list_elem_of_lookup in Hin as [i Hi].
      destruct (Forall2_lookup_l _ _ _ _ _ H Hi) as (y' & Hy' & E'). rewrite E in E'.
      injection E' as ->. by eapply list_elem_of_lookup_2.
    - intros Hr y2 Hin. apply list_elem_of_lookup in Hin as [i Hi].
      destruct (Forall2_lookup_r _ _ _ _ _ H Hi) as (x' & Hx' & E'). eapply Hr; [|exact E'].
      by eapply list_elem_of_lookup_2. }
  split.
  - intros Hp. inversion Hp as [|? ? Ha Hl]; subst.
    intros x1 x2 y1 y2 [->|H1]%elem_of_cons [->|H2]%elem_of_cons Hne E1 E2.
    + done.
    + rewrite Hy in E1. injection E1 as <-. by eapply Hys.
    + rewrite Hy in E2. injection E2 as <-. symmetry. by eapply Hys.
    + by eapply (proj1 IH Hl x1 x2).
  - intros Hr. constructor.
    + apply Hys. intros x2 y2 H2 E2. eapply (Hr x x2); [by left|by right| |done..]. by intros ->.
    + apply IH. intros x1 x2 y1 y2 H1 H2. apply Hr; by right.
Qed.

(** ** When a run passes *)

Definition file_checks : list TestId :=
  [FileNonEmpty; FilenameConvention; MonotonicTimestamps; FlushSpan; UniqueOrderbookTs;
   UniqueTradeIds; NotCrossedOrderbook; PositivePricesSizes].

(** Every failure of a report is one of the checks of a file. *)
Definition known_failures (r : FileReport) : Prop :=
  forall c, c ∈ fr_failed r -> exists t, t ∈ file_checks /\ c = TestId_code t.

Lemma outcome_passed t d : to_passed (outcome_of t d) = true <-> d = [].
Proof. by destruct d. Qed.

Lemma collect_for_nil files t :
  collect_for files t = [] <-> forall r, r ∈ files -> TestId_code t ∉ fr_failed r.
Proof.
  unfold collect_for. induction files as [|r files IH].
  - split; [intros _ r Hr; by apply not_elem_of_nil in Hr|done].
  - rewrite filter_cons. case_decide as H; [split; [done|]|].
    + intros Hall. exfalso. by apply (Hall r); [left|].
    + rewrite IH. split; [|by intros Hall r' Hr'; apply Hall; right].
      intros Hall r' [->|Hr']%elem_of_cons; auto.
Qed.

Lemma filter_negb_nil {A} (f : A -> bool) l :
  List.filter (fun x => negb (f x)) l = [] <-> Forall (fun x => f x = true) l.
Proof.
  induction l as [|x l IH]; simpl; [by split|]. rewrite Forall_cons, <- IH.
  by destruct (f x); simpl; naive_solver.
Qed.

Lemma all_passed_iff t01 files t10 :
  Forall known_failures files ->
  List.filter (fun t => negb (to_passed t)) (aggregate_results t01 files t10) = [] <->
  t01 = [] /\ Forall (fun r => fr_failed r = []) files /\ t10 = [].
Proof.
  intros Hk. rewrite filter_negb_nil. unfold aggregate_results. fold file_checks.
  rewrite !Forall_app, !Forall_singleton, !outcome_passed, Forall_fmap.
  enough (Forall (fun t => to_passed (outcome_of t (collect_for files t)) = true) file_checks <->
          Forall (fun r => fr_failed r = []) files) as <- by done.
  rewrite !Forall_forall. setoid_rewrite outcome_passed. setoid_rewrite collect_for_nil. split.
  - intros H r Hr. destruct (fr_failed r) as [|c l] eqn:E; [done|]. exfalso.
    rewrite Forall_forall in Hk. destruct (Hk r Hr c) as (t & Ht & ->); [rewrite E; by left|].
    apply (H t Ht r Hr). rewrite E. by left.
  - intros H t Ht r Hr. rewrite (H r Hr). apply not_elem_of_nil.
Qed.

Lemma elem_of_both_kinds ex kind exs : (ex, kind) ∈ both_kinds exs <-> ex ∈ exs.
Proof.
  unfold both_kinds. rewrite list_elem_of_bind. split.
  - intros (e & Hin & He). apply elem_of_cons in Hin as [[= -> ->]|Hin]; [done|].
    by apply list_elem_of_singleton in Hin as [= -> ->].
  - intros H. exists ex. split; [|done]. destruct kind; [by left|by right; left].
Qed.

Lemma NoDup_both_kinds exs : NoDup exs -> NoDup (both_kinds exs).
Proof.
  induction 1 as [|ex exs Hex Hnd IH]; [constructor|]. unfold both_kinds. rewrite bind_cons.
  simpl. constructor; [|constructor; [|done]].
  - intros [[=]|H]%elem_of_cons. by apply elem_of_both_kinds in H.
  - intros H. by apply elem_of_both_kinds in H.
Qed.

(** An exchange is the name of an entry. *)
Definition plain_name (ex : string) : Prop := lacks "/" ex = true /\ ex <> "".

Lemma elem_of_discovered root expected s ex :
  ex ∈ discovered root expected s <->
  ex ∈ expected /\ plain_name ex /\ dir_exists (path_join root ex) s = true.
Proof.
  unfold discovered, plain_name. rewrite sort_by_perm, elem_of_remove_dups, list_elem_of_In, filter_In.
  rewrite <- list_elem_of_In, !andb_true_iff, negb_true_iff.
  assert (is_empty ex = false <-> ex <> "") as -> by (by destruct ex). tauto.
Qed.

Lemma NoDup_discovered root expected s : NoDup (discovered root expected s).
Proof. unfold discovered. rewrite sort_by_perm. apply NoDup_remove_dups. Qed.

Lemma lacks_last c s : lacks c s = true -> str_last s <> Some c.
Proof.
  unfold lacks. induction s as [|d s IH]; simpl; [done|].
  intros [Hd%negb_true_iff Hs]%andb_true_iff. specialize (IH Hs).
  destruct (str_last s) as [e|]; [done|]. intros [= ->]. by rewrite Ascii.eqb_refl in Hd.
Qed.

Lemma prefix_app_true a b : String.prefix a (a ++ b)%string = true.
Proof. induction a as [|c a IH]; simpl; [by destruct b|]. rewrite IH. by destruct (ascii_dec c c). Qed.

(** The directory of an exchange is above those of its datatypes. *)
Lemma kind_dir_below cli ex kind : plain_name ex ->
  exists b, kind_dir cli ex kind = ((path_join (cli_data_dir cli) ex ++ "/") ++ b)%string.
Proof.
  intros [Hl Hne]. unfold kind_dir. set (d := path_join (cli_data_dir cli) ex).
  assert (Hd : str_last d <> Some "/"%char) by (unfold d; rewrite str_last_join by done; by apply lacks_last).
  exists (DataKind_dir_name kind). unfold path_join.
  assert (Hnot : String.prefix "/" (DataKind_dir_name kind) = false) by (by destruct kind).
  rewrite Hnot. simpl. destruct (is_empty d) eqn:Ee.
  { exfalso. destruct d eqn:E; [|done]. unfold d, path_join in E.
    destruct (_ || _); [done|]. destruct (ends_with _ _).
    - destruct (cli_data_dir cli); by destruct ex.
    - destruct (cli_data_dir cli); discriminate E. }
  destruct (ends_with "/" d) eqn:Es.
  - exfalso. unfold ends_with in Es. destruct (strip_suffix "/" d) as [t|] eqn:E; [|done].
    apply strip_suffix_Some in E. apply Hd. rewrite E. by rewrite str_last_app.
  - by rewrite string_app_assoc.
Qed.

Lemma housed_dir cli ex kind n s :
  housed s -> plain_name ex -> file_exists (kind_dir cli ex kind, n) s = true ->
  dir_exists (path_join (cli_data_dir cli) ex) s = true.
Proof.
  intros Hs Hp Hn. unfold file_exists in Hn. destruct (file_at _ s) as [c|] eqn:E; [|done].
  apply Hs in E. simpl in E. unfold dir_exists. apply existsb_exists.
  exists (kind_dir cli ex kind). split; [by apply list_elem_of_In, elem_of_elements|].
  destruct (kind_dir_below cli ex kind Hp) as [b ->]. rewrite prefix_app_true. apply orb_true_r.
Qed.

(** A file of the archive the checker looks at. *)
Definition parquet_in (dir n : string) (s : Fs) : Prop :=
  has_parquet_extension n = true /\ file_exists (dir, n) s = true.

Lemma elem_of_lake_files cli s ex kind n :
  housed s -> Forall plain_name (cli_expect_exchanges cli) ->
  (ex, kind, n) ∈ lake_files cli (both_kinds (discovered (cli_data_dir cli) (cli_expect_exchanges cli) s)) s <->
  ex ∈ cli_expect_exchanges cli /\ parquet_in (kind_dir cli ex kind) n s.
Proof.
  intros Hs Hplain. unfold lake_files, parquet_in. rewrite list_elem_of_bind. split.
  - intros ([ex' kind'] & Hin & Hd). apply list_elem_of_fmap in Hin as (n' & [= <- <- <-] & Hn).
    apply elem_of_both_kinds, elem_of_discovered in Hd as (Hex & _). apply elem_of_parquet_names in Hn. done.
  - intros (Hex & Hx & Hf). exists (ex, kind). split.
    + apply list_elem_of_fmap. exists n. split; [done|]. by apply elem_of_parquet_names.
    + rewrite Forall_forall in Hplain. apply elem_of_both_kinds, elem_of_discovered.
      pose proof (Hplain ex Hex) as Hp. split_and!; [done..|]. by eapply housed_dir.
Qed.

Lemma NoDup_lake_files cli dirs s : NoDup dirs -> NoDup (lake_files cli dirs s).
Proof.
  induction 1 as [|d dirs Hd Hnd IH]; [constructor|]. unfold lake_files. rewrite bind_cons.
  apply NoDup_app. split_and!; [| |done].
  - apply NoDup_fmap_2; [|apply NoDup_parquet_names]. by intros ?? [= ->].
  - intros x Hx Hin. apply list_elem_of_fmap in Hx as (n & -> & _).
    apply list_elem_of_bind in Hin as (d' & Hn & Hd'). apply list_elem_of_fmap in Hn as (n' & [= ->] & _). done.
Qed.

Lemma bind_nil_iff {A B} (f : A -> list B) l : l ≫= f = [] <-> forall x, x ∈ l -> f x = [].
Proof.
  induction l as [|x l IH]; [split; [intros _ y Hy; by apply not_elem_of_nil in Hy|done]|].
  rewrite bind_cons, app_nil, IH. split; [|intros H; split; [|intros y Hy]; apply H; by constructor].
  intros [Hx Hl] y [->|Hy]%elem_of_cons; auto.
Qed.

Lemma missing_nil cli s :
  missing cli (both_kinds (cli_expect_exchanges cli)) s = [] <->
  forall ex kind, ex ∈ cli_expect_exchanges cli -> exists n, parquet_in (kind_dir cli ex kind) n s.
Proof.
  unfold missing. rewrite bind_nil_iff. split.
  - intros H ex kind Hex. specialize (H (ex, kind) (proj2 (elem_of_both_kinds _ _ _) Hex)). simpl in H.
    destruct (parquet_names _ s) as [|n l] eqn:E; [done|]. exists n.
    apply elem_of_parquet_names. rewrite E. by left.
  - intros H [ex kind] Hin%elem_of_both_kinds. simpl. destruct (H ex kind Hin) as (n & Hn).
    apply elem_of_parquet_names in Hn. destruct (parquet_names _ s); [by apply not_elem_of_nil in Hn|done].
Qed.

(** ** The verdict *)

Lemma count_nil {A} (l : list A) : N.of_nat (length l) = 0 <-> l = [].
Proof. destruct l; simpl; [done|]. split; [lia|done]. Qed.

Lemma and_iff_under (P Q R : Prop) : (P -> (Q <-> R)) -> (P /\ Q <-> P /\ R).
Proof. tauto. Qed.

Section Verdict.
Context {NU : Numeric} {NL : NumericLaws NU} {PQ : Parquet} {DK : Disk}.

(** The archive the checker is meant to accept: every expected directory has files, every file
    is sound, and the files of one symbol do not overlap in time. *)
Definition lake_sound (cli : Cli) (s : Fs) : Prop :=
  (forall ex kind, ex ∈ cli_expect_exchanges cli -> exists n, parquet_in (kind_dir cli ex kind) n s) /\
  (forall ex kind n, ex ∈ cli_expect_exchanges cli -> parquet_in (kind_dir cli ex kind) n s ->
     exists first last_, sound_file cli kind (kind_dir cli ex kind, n) s first last_) /\
  (forall ex kind n1 n2 first1 last1 first2 last2, ex ∈ cli_expect_exchanges cli ->
     parquet_in (kind_dir cli ex kind) n1 s -> parquet_in (kind_dir cli ex kind) n2 s -> n1 <> n2 ->
     parse_symbol_from_filename n1 = parse_symbol_from_filename n2 ->
     sound_file cli kind (kind_dir cli ex kind, n1) s first1 last1 ->
     sound_file cli kind (kind_dir cli ex kind, n2) s first2 last2 ->
     last1 < first2 \/ last2 < first1).

(** No reader panics on a file of the archive. *)
Definition readable (cli : Cli) (s : Fs) : Prop :=
  forall ex kind n bytes, ex ∈ cli_expect_exchanges cli -> parquet_in (kind_dir cli ex kind) n s ->
    file_at (kind_dir cli ex kind, n) s = Some bytes ->
    check_bytes kind (path_join (kind_dir cli ex kind) n) bytes <> None.

Definition file_code (c : string) : Prop := exists t, t ∈ file_checks /\ c = TestId_code t.

Lemma code_if_known c b t : t <> FilesPresent -> t <> NoTemporalOverlap -> c ∈ code_if b t -> file_code c.
Proof.
  intros H1 H2 [_ ->]%elem_of_code_if. exists t. split; [|done].
  unfold file_checks. destruct t; try done; repeat first [by left|right].
Qed.

Lemma check_books_known books c : c ∈ fv_failed (check_books books) -> file_code c.
Proof.
  destruct books as [|b books]; [intros H; by apply not_elem_of_nil in H|].
  unfold check_books. destruct (scan_ts _ _), (scan_books _ _ _). cbn [fv_failed].
  intros [H|[H|H]%elem_of_app]%elem_of_app; by apply code_if_known in H.
Qed.

Lemma check_trades_known trades c : c ∈ fv_failed (check_trades trades) -> file_code c.
Proof.
  destruct trades as [|t trades]; [intros H; by apply not_elem_of_nil in H|].
  cbn [check_trades fv_failed]. intros [H|H]%elem_of_app; by apply code_if_known in H.
Qed.

Lemma report_known cli ex kind p bytes r : report_of cli ex kind p bytes = Some r -> known_failures r.
Proof.
  unfold report_of. destruct (check_bytes _ _ _) as [[v|e]|] eqn:E; [| |done]; intros [= <-] c.
  - cbn [file_report fr_failed].
    intros [H|[H|[H|[H|H]%elem_of_app]%elem_of_app]%elem_of_app]%elem_of_app;
      [by apply code_if_known in H| |by apply code_if_known in H..].
    unfold check_bytes in E. destruct kind.
    + destruct (decode_rows _ _) as [[rows|]|]; [|done..]. destruct (group_books _ _); [|done].
      injection E as <-. by eapply check_books_known.
    + destruct (decode_rows _ _) as [[rows|]|]; [|done..].
      injection E as <-. by eapply check_trades_known.
  - cbn [unreadable_report fr_failed]. intros ->%list_elem_of_singleton.
    by apply (code_if_known _ true FileNonEmpty); [..|left].
Qed.

(** The reports of an archive without panics. *)
Lemma reports_exist cli s fs :
  (forall f, f ∈ fs -> exists bytes, file_at (file_path cli f) s = Some bytes /\
     check_bytes f.1.2 (path_join (file_path cli f).1 (file_path cli f).2) bytes <> None) ->
  exists rs, lake_reports cli s fs = Some rs /\ Forall2 (fun f r => lake_report cli s f = Some r) fs rs.
Proof.
  intros H. destruct (lake_reports cli s fs) as [rs|] eqn:E.
  { exists rs. split; [done|]. by apply mapM_Some. }
  exfalso. apply mapM_None, Exists_exists in E as (f & Hf & E).
  destruct (H f Hf) as (bytes & Hb & Hc). unfold lake_report, report_of in E. rewrite Hb in E. simpl in E.
  destruct (check_bytes _ _ _) as [[v|e]|]; done.
Qed.

(** Whether files of one group overlap, on their reports. *)
Lemma overlap_failures_nil (w0 : LakeWalk) rs :
  wa_groups w0 = [] -> wa_reports w0 = [] -> Forall (fun r => fr_first_ts r <= fr_last_ts r) rs ->
  overlap_failures (wa_groups (fold_left note rs w0)) = [] <->
  ForallOrdPairs (fun r1 r2 => report_key r1 = report_key r2 -> apart (report_span r1) (report_span r2)) rs.
Proof.
  intros Hg Hr Ho. destruct (notes_groups rs w0 []) as (Hwf & _ & Hk); [by rewrite Hg; constructor|by rewrite Hg|done|].
  simpl in Hk. set (groups := wa_groups (fold_left note rs w0)) in *.
  rewrite <- (pairs_fmap entry (fun x y => x.1 = y.1 -> apart x.2 y.2)), <- pairs_of_key.
  assert (Hov : forall k ex sym kind,
    overlaps ex sym kind (sort_by by_first (of_key k (entry <$> rs))) = [] <->
    ForallOrdPairs apart (of_key k (entry <$> rs))).
  { intros k ex sym kind. set (l := of_key k _).
    assert (Hl : Forall ordered l).
    { unfold l, of_key. apply Forall_fmap, Forall_forall. intros x Hx.
      apply list_elem_of_filter in Hx as [_ Hx]. apply list_elem_of_fmap in Hx as (r & -> & Hin).
      rewrite Forall_forall in Ho. by apply Ho in Hin. }
    rewrite overlaps_nil.
    - split; apply pairs_perm; try apply _; by rewrite sort_by_perm.
    - apply sort_by_sorted; unfold by_first; intros; rewrite ?N.leb_gt, ?N.leb_le in *; lia.
    - by rewrite sort_by_perm. }
  unfold overlap_failures. rewrite bind_nil_iff. split.
  - intros H k. specialize (Hk k). destruct (bt_get k groups) as [l|] eqn:E; simpl in Hk; [|rewrite <- Hk; constructor].
    apply (Hov k k.1.1 k.1.2 k.2). rewrite <- Hk.
    apply bt_get_elem in E as (k' & Ek & Hin); [|done]. apply group_key_eq in Ek as <-.
    by apply (H (k, l)).
  - intros H [k l] Hin. simpl. apply (bt_get_lookup _ _ _ Hwf) in Hin. specialize (Hk k).
    rewrite Hin in Hk. simpl in Hk. rewrite Hk. apply Hov, H.
Qed.

Context (quiet : forall n, disk_fault n = None).

Lemma lake_report_sound cli s ex kind n r :
  lake_report cli s (ex, kind, n) = Some r ->
  report_key r = (ex, default "" (parse_symbol_from_filename n), kind) /\ known_failures r /\
  (fr_failed r = [] -> sound_file cli kind (kind_dir cli ex kind, n) s (fr_first_ts r) (fr_last_ts r)) /\
  (forall f l, sound_file cli kind (kind_dir cli ex kind, n) s f l ->
     fr_failed r = [] /\ fr_first_ts r = f /\ fr_last_ts r = l).
Proof.
  unfold lake_report, file_path. simpl. intros E. destruct (file_at _ s) as [bytes|] eqn:Eb; [|done].
  simpl in E. destruct (report_of_facts _ _ _ _ _ _ E) as (_ & _ & He & Hk & Hs). split.
  { unfold report_key. by rewrite He, Hk, Hs. }
  split; [by eapply report_known|by eapply report_sound].
Qed.

(** A name that follows the convention has a symbol. *)
Lemma convention_symbol n kind :
  matches_convention n kind = true -> exists sym, parse_symbol_from_filename n = Some sym.
Proof.
  unfold matches_convention, parse_symbol_from_filename. destruct (strip_suffix _ n); [|done].
  destruct (_ <? 4)%nat; [done|]. eauto.
Qed.

(** The reports of the files are without failures and do not overlap. *)
Lemma reports_clean cli s fs rs :
  NoDup fs -> Forall2 (fun f r => lake_report cli s f = Some r) fs rs ->
  Forall (fun r => fr_failed r = []) rs /\
    ForallOrdPairs (fun r1 r2 => report_key r1 = report_key r2 -> apart (report_span r1) (report_span r2)) rs <->
  (forall ex kind n, (ex, kind, n) ∈ fs ->
     exists f l, sound_file cli kind (kind_dir cli ex kind, n) s f l) /\
  (forall ex kind n1 n2 f1 l1 f2 l2, (ex, kind, n1) ∈ fs -> (ex, kind, n2) ∈ fs -> n1 <> n2 ->
     parse_symbol_from_filename n1 = parse_symbol_from_filename n2 ->
     sound_file cli kind (kind_dir cli ex kind, n1) s f1 l1 ->
     sound_file cli kind (kind_dir cli ex kind, n2) s f2 l2 -> l1 < f2 \/ l2 < f1).
Proof.
  intros Hnd H.
  assert (Hsym : Symmetric (fun r1 r2 => report_key r1 = report_key r2 -> apart (report_span r1) (report_span r2))).
  { intros r1 r2 Hr E. symmetry. by apply Hr. }
  rewrite (pairs_mapped (lake_report cli s) _ _ _ Hnd H). clear Hsym.
  assert (Hall : Forall (fun r => fr_failed r = []) rs <-> forall ex kind n, (ex, kind, n) ∈ fs ->
     exists f l, sound_file cli kind (kind_dir cli ex kind, n) s f l).
  { rewrite Forall_forall. split.
    - intros Hr ex kind n Hin. apply list_elem_of_lookup in Hin as [i Hi].
      destruct (Forall2_lookup_l _ _ _ _ _ H Hi) as (r & Hri & E).
      destruct (lake_report_sound _ _ _ _ _ _ E) as (_ & _ & Hs & _).
      eexists _, _. by eapply Hs, Hr, list_elem_of_lookup_2.
    - intros Hs r Hin. apply list_elem_of_lookup in Hin as [i Hi].
      destruct (Forall2_lookup_r _ _ _ _ _ H Hi) as ([[ex kind] n] & Hni & E).
      destruct (Hs ex kind n) as (f & l & Hf); [by eapply list_elem_of_lookup_2|].
      destruct (lake_report_sound _ _ _ _ _ _ E) as (_ & _ & _ & Hs'). by eapply Hs'. }
  rewrite Hall. clear Hall. split; intros [Hs Hp]; (split; [exact Hs|]).
  - intros ex kind n1 n2 f1 l1 f2 l2 H1 H2 Hne Hsym S1 S2.
    assert (Hrep : forall f, f ∈ fs -> exists r, lake_report cli s f = Some r).
    { intros f Hin. apply list_elem_of_lookup in Hin as [i Hi].
      destruct (Forall2_lookup_l _ _ _ _ _ H Hi) as (r & _ & E). eauto. }
    destruct (Hrep _ H1) as [r1 E1], (Hrep _ H2) as [r2 E2].
    destruct (lake_report_sound _ _ _ _ _ _ E1) as (K1 & _ & _ & R1).
    destruct (lake_report_sound _ _ _ _ _ _ E2) as (K2 & _ & _ & R2).
    destruct (R1 _ _ S1) as (_ & <- & <-), (R2 _ _ S2) as (_ & <- & <-).
    apply (Hp _ _ _ _ H1 H2 ltac:(congruence) E1 E2). congruence.
  - intros [[ex kind] n1] [[ex2 kind2] n2] r1 r2 H1 H2 Hne E1 E2.
    destruct (lake_report_sound _ _ _ _ _ _ E1) as (-> & _ & _ & R1).
    destruct (lake_report_sound _ _ _ _ _ _ E2) as (-> & _ & _ & R2). intros [= <- Hsym <-].
    destruct (Hs _ _ _ H1) as (f1 & l1 & S1), (Hs _ _ _ H2) as (f2 & l2 & S2).
    destruct (R1 _ _ S1) as (_ & Ef1 & El1), (R2 _ _ S2) as (_ & Ef2 & El2).
    unfold apart, report_span. simpl. rewrite Ef1, El1, Ef2, El2.
    eapply (Hp ex kind n1 n2); try done; [congruence|].
    destruct (convention_symbol _ _ (proj1 S1)) as [? Y1], (convention_symbol _ _ (proj1 S2)) as [? Y2].
    simpl in Y1, Y2. rewrite Y1, Y2 in *. simpl in Hsym. congruence.
Qed.

Lemma clean_ordered cli s fs rs :
  Forall2 (fun f r => lake_report cli s f = Some r) fs rs ->
  Forall (fun r => fr_failed r = []) rs -> Forall (fun r => fr_first_ts r <= fr_last_ts r) rs.
Proof.
  intros H. rewrite !Forall_forall. intros Hf r Hr. specialize (Hf r Hr).
  apply list_elem_of_lookup in Hr as [i Hi].
  destruct (Forall2_lookup_r _ _ _ _ _ H Hi) as ([[ex kind] n] & _ & Er).
  apply lake_report_sound in Er as (_ & _ & Hs & _). destruct (Hs Hf) as (_ & bytes & _ & _ & Hrows).
  unfold sound_rows in Hrows. destruct kind.
  - destruct Hrows as (? & ? & _ & _ & _ & _ & Ht). by eapply sound_times_le.
  - destruct Hrows as (? & _ & _ & _ & Ht). by eapply sound_times_le.
Qed.

(** C39: What the checker decides. On a disk that answers, with no reader panicking and without
    [skip_seen], a run ends with a verdict and leaves the files alone; and no test of it fails
    exactly when the archive is sound: every expected directory has Parquet files, every one of
    them is named as expected, not empty, ascending in time over the expected span, its order
    books uncrossed with no timestamp twice, its trade identifiers unique, its prices and sizes
    positive, and no two files of one symbol overlap in time, although only neighbours are
    compared. *)
Theorem validator_exact cli st started ended s :
  cli_skip_seen cli = false -> Forall plain_name (cli_expect_exchanges cli) ->
  housed s -> readable cli s ->
  exists s' o, run_checks cli st started ended s = (s', Ok (Some o)) /\
    fs_files s' = fs_files s /\
    (rs_tests_failed (oc_summary o) = 0 <-> lake_sound cli s).
Proof.
  intros Hskip Hplain Hs Hread.
  set (dirs := both_kinds (discovered (cli_data_dir cli) (cli_expect_exchanges cli) s)).
  assert (Hin : forall ex kind n, (ex, kind, n) ∈ lake_files cli dirs s <->
    ex ∈ cli_expect_exchanges cli /\ parquet_in (kind_dir cli ex kind) n s)
    by (intros; by apply elem_of_lake_files).
  destruct (reports_exist cli s (lake_files cli dirs s)) as (rs & Hrs & Hall).
  { intros [[ex kind] n] [Hex Hn]%Hin. pose proof Hn as [_ Hf]. unfold file_exists in Hf.
    unfold file_path. simpl. destruct (file_at _ s) as [bytes|] eqn:E; [|done]. exists bytes.
    split; [done|]. by apply (Hread ex kind n bytes). }
  destruct (finds_run_checks quiet cli st started ended s rs Hskip Hs Hrs s) as (s' & E & _ & Hfiles); [done|].
  eexists s', _. split; [exact E|]. split; [done|].
  set (w0 := walk_start (st_known_files st)).
  assert (Hk : Forall known_failures rs).
  { apply Forall_forall. intros r Hr. apply list_elem_of_lookup in Hr as [i Hi].
    destruct (Forall2_lookup_r _ _ _ _ _ Hall Hi) as ([[ex kind] n] & _ & Er).
    by apply lake_report_sound in Er as (_ & ? & _). }
  destruct (notes_groups rs w0 []) as (_ & Hrep & _); [constructor|done..|]. simpl in Hrep.
  unfold conclude. cbn [oc_summary rs_tests_failed]. fold w0. rewrite Hrep.
  rewrite count_nil, all_passed_iff, missing_nil by done. unfold lake_sound.
  apply and_iff_under. intros _. transitivity (Forall (fun r => fr_failed r = []) rs /\ ForallOrdPairs (fun r1 r2 =>
      report_key r1 = report_key r2 -> apart (report_span r1) (report_span r2)) rs).
  - apply and_iff_under. intros Hf. apply overlap_failures_nil; [done..|].
    by eapply clean_ordered.
  - rewrite (reports_clean cli s _ rs (NoDup_lake_files _ _ _ (NoDup_both_kinds _ (NoDup_discovered _ _ _))) Hall).
    split; intros [H2 H3]; split.
    + intros ex kind n Hex Hn. by apply H2, Hin.
    + intros ex kind n1 n2 f1 l1 f2 l2 Hex H1 H2'. by apply (H3 ex kind n1 n2); apply Hin.
    + intros ex kind n [Hex Hn]%Hin. by apply H2.
    + intros ex kind n1 n2 f1 l1 f2 l2 [Hex H1]%Hin [_ H2']%Hin. by apply (H3 ex kind n1 n2).
Qed.
End Verdict.

(** ** The names of the archive *)

(** What [format("%Y%m%d_%H%M%S%.3f")] gives: the day, an underscore, the time. *)
Definition stamp_text (st : string) : Prop :=
  exists day time, st = (day ++ "_" ++ time)%string /\
    lacks "_" day = true /\ lacks "_" time = true /\ day <> "sync".

Class CalendarStamps (CA : Calendar) : Prop := {
  stamp_of_micros_text us st : stamp_of_micros us = Some st -> stamp_text st;
  stamp_now_text n : stamp_text (stamp_now n)
}.

(** A name that ends in such a stamp. *)
Definition stamped_name (n : string) : Prop :=
  exists x st, n = (x ++ "_" ++ st ++ ".parquet")%string /\ stamp_text st.

Lemma split_on_lacks c s : lacks c s = true -> split_on c s = [s].
Proof.
  unfold lacks. induction s as [|d s IH]; simpl; [done|].
  intros [Hd%negb_true_iff Hs]%andb_true_iff. by rewrite Hd, IH.
Qed.

Lemma split_on_app c a b : split_on c (a ++ String c "" ++ b)%string = split_on c a ++ split_on c b.
Proof.
  induction a as [|d a IH]; simpl; [by rewrite Ascii.eqb_refl|].
  rewrite IH. destruct (Ascii.eqb d c); [done|].
  destruct (split_on c a) as [|p ps] eqn:E; [|done]. exfalso.
  destruct a as [|e a]; simpl in E; [done|]. destruct (Ascii.eqb e c); [done|]. by destruct (split_on c a).
Qed.

Lemma nth_end {A} (l : list A) (a b d : A) : nth (length (l ++ [a; b]) - 2) (l ++ [a; b]) d = a.
Proof. rewrite length_app. simpl. replace (_ + 2 - 2)%nat with (length l) by lia. rewrite app_nth2, Nat.sub_diag by lia. done. Qed.

Lemma stamped_name_rejected n kind : stamped_name n -> matches_convention n kind = false.
Proof.
  intros (x & st & -> & day & time & -> & Hd & Ht & Hs). unfold matches_convention.
  rewrite <- !string_app_assoc, strip_suffix_app.
  set (parts := split_on "_" _).
  assert (Hp : parts = split_on "_" x ++ [day; time]).
  { unfold parts. rewrite !string_app_assoc.
    rewrite !split_on_app, (split_on_lacks _ day), (split_on_lacks _ time) by done. done. }
  destruct (_ <? 4)%nat; [done|]. rewrite Hp, nth_end.
  by destruct (String.eqb_spec day "sync").
Qed.

Lemma digits_lack_underscore (n : nat) : lacks "_" (pretty n) = true.
Proof.
  unfold lacks. apply (str_all_impl (in_range 48 57)).
  - intros c Hc. destruct (Ascii.eqb_spec c "_") as [->|]; [by vm_compute in Hc|done].
  - unfold pretty, pretty_nat, pretty, pretty_N. case_decide; [done|]. by apply digits_go.
Qed.

Lemma stamped_unique_path dir n s : stamped_name n -> stamped_name (unique_path dir n s).
Proof.
  intros Hn. unfold unique_path. destruct (file_exists _ s); [|done].
  assert (Halt : forall k, stamped_name (alt_name (default n (strip_suffix ".parquet" n)) k)).
  { destruct Hn as (x & st & -> & day & time & -> & Hd & Ht & Hs). intros k. exists x, (day ++ "_" ++ time ++ "-" ++ pretty k)%string.
    rewrite <- !string_app_assoc, strip_suffix_app. unfold alt_name. simpl default.
    split; [by rewrite !string_app_assoc|]. exists day, (time ++ "-" ++ pretty k)%string.
    split_and!; [by rewrite !string_app_assoc|done| |done].
    by rewrite !lacks_app, Ht, digits_lack_underscore. }
  generalize (size (fs_files s)) as fuel, 1%nat as k. intros fuel. induction fuel as [|fuel IH]; intros k; simpl; [apply Halt|].
  destruct (file_exists _ s); [apply IH|apply Halt].
Qed.

Section Names.
Context {NU : Numeric} {PQ : Parquet} {DK : Disk} {CA : Calendar} {CS : CalendarStamps CA}.

Lemma io_bind_ok {A B} (m : IO A) (k : A -> IO B) s s' b :
  io_bind m k s = (s', Ok b) -> exists s1 a, m s = (s1, Ok a) /\ k a s1 = (s', Ok b).
Proof. unfold io_bind. destruct (m s) as [s1 [a|e]]; [eauto|done]. Qed.

Lemma batch_stamp_text ts s s' st : batch_stamp ts s = (s', Ok st) -> stamp_text st.
Proof.
  unfold batch_stamp. destruct (stamp_of_micros _) as [x|] eqn:E.
  - destruct (0 <? _)%N; intros [= <- <-]; eauto using stamp_of_micros_text, stamp_now_text.
  - intros [= <- <-]. apply stamp_now_text.
Qed.

Lemma batch_name_stamped exchange symbol tag mode st :
  stamp_text st -> stamped_name (batch_name exchange symbol tag mode st).
Proof.
  intros H. exists (exchange ++ "_" ++ symbol ++ "_" ++ tag ++ "_" ++ mode)%string, st.
  split; [|done]. unfold batch_name. by rewrite !string_app_assoc.
Qed.

Lemma finalize_stamped leaf p s s' n :
  stamped_name p.2 -> finalize_into leaf p s = (s', Ok n) -> stamped_name n.
Proof.
  intros Hp. unfold finalize_into.
  intros (s1 & ? & _ & H)%io_bind_ok. apply io_bind_ok in H as (s2 & ? & _ & H).
  apply io_bind_ok in H as (s3 & t & [= <- <-] & H). apply io_bind_ok in H as (s4 & ? & _ & H).
  apply io_bind_ok in H as (s5 & ? & _ & H). apply io_bind_ok in H as (s6 & ? & _ & [= <- <-]).
  by apply stamped_unique_path.
Qed.

(** The checker against the archive it was written for. Whatever batch of order books or of
    trades the flusher stages and publishes in a leaf, under a stamp of the form the calendar
    gives, its name does not follow the convention of the checker: the stamp has an underscore,
    so the mark [sync] is not where the checker looks for it, and the third check fails on every
    file of every archive. *)
Theorem archive_names_rejected leaf staging s s1 file s2 s3 name :
  finalize_into leaf (staging, file) s2 = (s3, Ok name) ->
  ((exists first rest, write_ob_parquet first rest staging "sync" s = (s1, Ok file)) \/
   (exists trades, write_trades_parquet_timestamped trades staging "sync" s = (s1, Ok file))) ->
  forall kind, matches_convention name kind = false.
Proof.
  intros Hf Hw kind. apply stamped_name_rejected. eapply finalize_stamped; [|exact Hf].
  cbn [snd]. destruct Hw as [(first & rest & H)|(trades & H)].
  - apply io_bind_ok in H as (t1 & ? & _ & H). apply io_bind_ok in H as (t2 & st & Hst & H).
    apply batch_stamp_text in Hst. apply io_bind_ok in H as (t3 & f & [= <- <-] & H).
    apply io_bind_ok in H as (t4 & ? & _ & H). apply io_bind_ok in H as (t5 & ? & _ & [= <- <-]).
    by apply stamped_unique_path, batch_name_stamped.
  - apply io_bind_ok in H as (t2 & st & Hst & H). apply batch_stamp_text in Hst.
    apply io_bind_ok in H as (t3 & f & [= <- <-] & H). apply io_bind_ok in H as (t4 & ? & _ & [= <- <-]).
    by apply stamped_unique_path, batch_name_stamped.
Qed.
End Names.

(** ** The span *)

Definition default_cli : Cli := {|
  cli_data_dir := "/data"; cli_state_file := ("/state", "validate_state.json");
  cli_report_out := ("/state", "last_report.json"); cli_flush_threshold := 3600;
  cli_grid_period_ms := 100; cli_span_tolerance := S754_finite false 7205759403792794 (-55);
  cli_expect_exchanges := ["binance"; "coinbase"; "kraken"]; cli_skip_seen := false |}.

(** 3600 books a tenth of a second apart. Their timestamps are microseconds, and the checker
    compares with milliseconds: it accepts a thousandth of the span it means. *)
Example span_of_a_full_file :
  span_in_range default_cli KindOrderbook (3599 * 100000) = false /\
  span_in_range default_cli KindTrades (3599 * 100000) = false /\
  span_in_range default_cli KindOrderbook (3599 * 100) = true.
Proof. vm_compute. done. Qed.

(** ** The history *)

Class CheckerJsonLaws (CJ : CheckerJson) : Prop := {
  state_json_text st t : state_to_json st = Ok t -> t <> "";
  state_json_read st t : state_to_json st = Ok t -> state_of_json t = Ok st
}.

(** What a run saved is what the next one starts with. *)
Lemma saved_state_loaded {DK : Disk} {CJ : CheckerJson} {CL : CheckerJsonLaws CJ} p st s s' :
  (forall n, disk_fault n = None) -> save_state p st s = (s', Ok tt) ->
  exists s2, load_state p s' = (s2, Ok st).
Proof.
  intros Hq H. unfold save_state, write_json in H.
  apply io_bind_ok in H as (s1 & ? & _ & H). apply io_bind_ok in H as (s2 & t & Ht & H).
  apply io_bind_ok in H as (s3 & ? & Hc & H). unfold io_lift in Ht. injection Ht as <- Ht.
  destruct (state_to_json st) as [t'|] eqn:Et; [|done]. injection Ht as ->.
  pose proof (create_file_ensures p s1) as Hf. unfold ensures in Hf. rewrite Hc in Hf. simpl in Hf.
  destruct Hf as [_ Hf]. destruct x0. specialize (Hf eq_refl).
  pose proof (append_bytes_ensures p t PersistIo s3) as Ha. unfold ensures in Ha. rewrite H in Ha. simpl in Ha.
  destruct Ha as [_ Ha]. rewrite Hf in Ha. cbn [default] in Ha. rewrite string_app_nil_l in Ha.
  unfold load_state, io_bind, io_get, file_exists. rewrite Ha. unfold read_file, sys. rewrite Hq.
  change (file_at p (next_call s')) with (file_at p s'). rewrite Ha. simpl.
  assert (is_empty t = false) as -> by (apply state_json_text in Et; by destruct t).
  rewrite (state_json_read _ _ Et). by eexists.
Qed.

(** ** Two archives *)

#[local] Existing Instance decimal_numeric.

Definition ex_lake_cli (skip_seen : bool) : Cli := {|
  cli_data_dir := "data"; cli_state_file := ("state", "state.json");
  cli_report_out := ("state", "report.json"); cli_flush_threshold := 1; cli_grid_period_ms := 100;
  cli_span_tolerance := S754_finite false 7205759403792794 (-55);
  cli_expect_exchanges := ["okx"]; cli_skip_seen := skip_seen |}.

Definition ex_books_bytes : string :=
  parquet_bytes (Parquet:=ex_parquet) (table_schema LevelRow)
    (table_columns ([ex_quoted 10 100; ex_quoted 20 101] ≫= book_rows)).
Definition ex_trades_bytes (ids : list string) : string :=
  parquet_bytes (Parquet:=ex_parquet) (table_schema Trade)
    (table_columns ((fun id => ex_print id 4210) <$> ids)).

(** One file of order books and one of trades, under the names the checker expects. *)
Definition ex_lake (ids : list string) : Fs := {|
  fs_dirs := {["data/okx/orderbooks"; "data/okx/trades"]};
  fs_files := <[("data/okx/orderbooks", "BTC-USDT_ob_sync_1.parquet") := ex_books_bytes]>
    (<[("data/okx/trades", "BTC-USDT_trades_sync_1.parquet") := ex_trades_bytes ids]> ∅);
  fs_held := ∅; fs_calls := 0 |}.

Lemma ex_lake_files ids p c : file_at p (ex_lake ids) = Some c ->
  (p = ("data/okx/orderbooks", "BTC-USDT_ob_sync_1.parquet") /\ c = ex_books_bytes) \/
  (p = ("data/okx/trades", "BTC-USDT_trades_sync_1.parquet") /\ c = ex_trades_bytes ids).
Proof.
  unfold file_at, ex_lake. cbn [fs_files]. rewrite !lookup_insert_Some, lookup_empty.
  intros [[<- <-]|[_ [[<- <-]|[_ [=]]]]]; auto.
Qed.

Lemma validator_exact_witness :
  exists s' o, run_checks (PQ:=ex_parquet) (DK:=quiet_disk) (ex_lake_cli false) State_default 0 1
      (ex_lake ["1"; "2"]) = (s', Ok (Some o)) /\
    rs_tests_failed (oc_summary o) = 0 /\
    lake_sound (PQ:=ex_parquet) (ex_lake_cli false) (ex_lake ["1"; "2"]).
Proof.
  destruct (validator_exact (PQ:=ex_parquet) (DK:=quiet_disk) ltac:(done) (ex_lake_cli false) State_default 0 1
    (ex_lake ["1"; "2"])) as (s' & o & E & _ & Hiff).
  - reflexivity.
  - repeat constructor; discriminate.
  - intros p c Hp. apply ex_lake_files in Hp as [[-> _]|[-> _]]; apply (bool_decide_unpack _); vm_compute; exact I.
  - intros ex kind n bytes ->%list_elem_of_singleton _ Hp.
    apply ex_lake_files in Hp as [[Hp ->]|[Hp ->]]; destruct kind;
      pose proof (f_equal fst Hp) as Hd; pose proof (f_equal snd Hp) as Hn; cbn [fst snd] in Hd, Hn;
      first [discriminate Hd|subst n; vm_compute; discriminate].
  - exists s', o. split; [exact E|].
    apply (f_equal (fun r => match r.2 with Ok (Some o) => rs_tests_failed (oc_summary o) | _ => 7 end)) in E.
    vm_compute in E. assert (H : rs_tests_failed (oc_summary o) = 0) by (symmetry; exact E).
    split; [exact H|]. by apply Hiff.
Defined.

Definition run_verdict (r : Fs * Result (option Outcome) PersistError) : option (list string * N * State) :=
  match r.2 with
  | Ok (Some o) => Some (rs_failed_test_codes (oc_summary o), rs_files_seen (oc_summary o), oc_state o)
  | _ => None
  end.

Definition ex_run (skip_seen : bool) (st : State) (ids : list string) : option (list string * N * State) :=
  run_verdict (run_checks (PQ:=ex_parquet) (DK:=quiet_disk) (ex_lake_cli skip_seen) st 0 1 (ex_lake ids)).

(** A file that failed is known all the same: with [skip_seen] the next run does not look at it
    and passes. *)
Example skipped_failures_pass :
  match ex_run true State_default ["1"; "1"] with
  | Some (codes, files, st) => codes = ["T07"] /\ files = 2 /\
      fst <$> ex_run true st ["1"; "1"] = Some ([], 0)
  | None => False
  end.
Proof. vm_compute. done. Qed.

(** Without it the rows of every file are added to the totals at each run, though a file is
    counted once. *)
Example rows_counted_again :
  match ex_run false State_default ["1"; "2"] with
  | Some (_, _, st) =>
    match ex_run false st ["1"; "2"] with
    | Some (_, _, st') => cu_trades (st_cumulative st') = 4 /\ cu_distinct_files (st_cumulative st') = 2
    | None => False
    end
  | None => False
  end.
Proof. vm_compute. done. Qed.

Definition ex_stamps : Calendar := {|
  day_of_micros _ := Some "2023-11-14"; stamp_of_micros _ := Some "20231114_221320.000";
  stamp_now _ := "20231114_221320.000" |}.

#[export] Instance ex_stamps_text : CalendarStamps ex_stamps.
Proof.
  assert (H : stamp_text "20231114_221320.000") by (by exists "20231114", "221320.000").
  split; [intros us st [= <-]|intros n]; exact H.
Qed.

Definition ex_staging : Fs :=
  {| fs_dirs := {["leaf/.staging"; "leaf"]}; fs_files := ∅; fs_held := ∅; fs_calls := 0 |}.
Definition ex_staged : Fs * Result string PersistError :=
  write_ob_parquet (NU:=decimal_numeric) (PQ:=ex_parquet) (DK:=quiet_disk) (CA:=ex_stamps)
    (ex_quoted 20 101) [] "leaf/.staging" "sync" ex_staging.
Definition ex_published_name : string := "okx_BTC-USDT_ob_sync_20231114_221320.000.parquet".

Lemma archive_names_rejected_witness :
  ex_staged = (ex_staged.1, Ok ex_published_name) /\
  finalize_into (DK:=quiet_disk) "leaf" ("leaf/.staging", ex_published_name) ex_staged.1 =
    ((finalize_into (DK:=quiet_disk) "leaf" ("leaf/.staging", ex_published_name) ex_staged.1).1,
     Ok ex_published_name) /\
  matches_convention ex_published_name KindOrderbook = false.
Proof.
  assert (E1 : ex_staged = (ex_staged.1, Ok ex_published_name)) by (vm_compute; reflexivity).
  assert (E2 : finalize_into (DK:=quiet_disk) "leaf" ("leaf/.staging", ex_published_name) ex_staged.1 =
    ((finalize_into (DK:=quiet_disk) "leaf" ("leaf/.staging", ex_published_name) ex_staged.1).1,
     Ok ex_published_name)) by (vm_compute; reflexivity).
  split; [exact E1|]. split; [exact E2|].
  apply (archive_names_rejected (NU:=decimal_numeric) (PQ:=ex_parquet) (DK:=quiet_disk) (CA:=ex_stamps)
    "leaf" "leaf/.staging" ex_staging ex_staged.1 ex_published_name ex_staged.1
    (finalize_into (DK:=quiet_disk) "leaf" ("leaf/.staging", ex_published_name) ex_staged.1).1 ex_published_name E2).
  left. exists (ex_quoted 20 101), []. exact E1.
Defined.
